(* ===== verification/_CoqProject ===== *)
-Q . S2P
Prelude.v
Sha1.v
YaffsEcc.v
YaffsTags.v
YaffsTagsCompat.v
YaffsCheckpt.v
YaffsTnode.v
YaffsTree.v
YaffsPrune.v
YaffsBlocks.v
YaffsSpace.v
YaffsChunks.v
YaffsWrite.v
YaffsRetry.v
YaffsFile.v
YaffsStore.v
YaffsContent.v
YaffsUpdate.v
YaffsFileWrite.v
YaffsCollect.v
YaffsChoose.v
YaffsGuts.v
HashTable.v
Zip.v
ZipExtract.v
ZipImage.v
Mtd.v
MtdScan.v
BsDiff.v
QSufSort.v
Edify.v
Verifier.v
SparseImage.v
BackedBlock.v
Ext4Image.v
Ext4Alloc.v
Ext4Groups.v
Ext4Reach.v
Ext4Extent.v
