(* ===== verification/Prelude.v ===== *)
(** * Verification of the recovery image of the SCH-I500 Gingerbread build

    The program under [src/src/recovery] is the recovery image of an Android phone:
    it installs signed update packages, patches files and partitions, and backs up and
    restores the partitions of the device as YAFFS2 or ext4 images.  This library
    models the parts of it that compute: the reading, checking and patching of updates,
    the script language that drives an installation, raw flash partitions, the flash
    layer and the chunk store of YAFFS, and the construction and expansion of ext4 images.  File names below are relative to
    [src/src/recovery]; [yaffs2/] stands for [yaffs2/yaffs2/].

    ** Conventions

    C integers are [Z], with the wrap-around of their type written at each operation
    that can leave its range ([u8], [u16], [u32], [u64], [s32], [swrap]); [truthy] is
    the C test of an integer.  A function that writes through pointers returns the new
    contents.  Linked structures live in explicit heaps where aliasing matters
    (BackedBlock, Ext4Alloc).  The result [None] of an operation is undefined
    behaviour: an access outside an object, a null or dangling pointer, YBUG(); Zip and
    ZipExtract, which read untrusted files, tell faults, failed assertions and lack of
    fuel apart ([Zip.outcome]).  Calls that can fail (malloc, write, the flash) take their outcomes from an
    argument or from the state, so that error paths are part of the model.  Code that
    is not in the repository is a class with its documented behaviour as laws, and
    each class has an instance that the witnesses use: bzip2 ([BsDiff.Bzip2]), mincrypt
    ([Verifier.Sha], [Verifier.Rsa]), zlib ([ZipExtract.Zlib], an argument of the image
    writer), safe_iop ([Zip.SafeIop]), the file system ([ZipExtract.Kernel], which answers
    any call in any way) and the flash drivers ([Mtd.MtdDriver],
    [YaffsTagsCompat.NandDriver], [YaffsCheckpt.CheckpointDriver], with the laws of
    [YaffsChunks.BlockDriverLaws] and [YaffsStore.FileDriverLaws] for the chunk store) and
    the allocator of tnodes ([YaffsTnode.Malloc]).

    ** Files

    - Prelude: machine integers, lists of bytes, loops, shared lemmas and tactics.
    - Sha1 ([ext4_utils/sha1.c], [uuid.c]): the unrolled rounds, which expand the block in
      place, and the buffering of pieces compute the digest of FIPS 180; the identifier
      made from it overruns its array.
    - YaffsEcc ([yaffs2/yaffs_ecc.c]): both Hamming codes.  Any one flipped bit in the
      data is repaired, in the stored code too, and any two are reported and nothing is
      changed, for every block and every position.
    - YaffsTags ([yaffs2/yaffs_packedtags2.c], [yaffs_packedtags1.c],
      [yaffs_tagsvalidity.c]): packed tags unpack to themselves, also after one flipped
      bit; a case where a flipped bit makes a used chunk look erased.
    - YaffsTagsCompat ([yaffs2/yaffs_tagscompat.c], [yaffs_nand.c]): pages with their
      tags through an arbitrary driver.  A chunk survives a flipped bit in each half of
      the page and one in the tags; a block marked bad stays bad; two defects.
    - YaffsCheckpt ([yaffs2/yaffs_checkptrw.c]): the checkpoint stream.  What was
      written is read back by a later mount, over an old checkpoint and in reads of any
      sizes; what happens when the device is full.
    - YaffsTnode, YaffsTree ([yaffs2/yaffs_guts.c]): the tree of tnodes that maps the
      chunks of a file, in a heap of words with a free list; adding a path to a tree and
      making it taller keep what it maps, writing a field changes one chunk, and trees
      and free list stay apart.
    - YaffsPrune (the same file): pruning keeps every chunk when the fields are sixteen
      bits wide, and loses some when they are wider.
    - YaffsBlocks, YaffsFile ([yaffs2/yaffs_guts.c], [yaffs_nand.c]): the chunk store of a
      YAFFS2 device.  YaffsBlocks has the table of blocks, the bitmap of chunks,
      allocation, deletion, erasing and retiring, writing with retries, the choice of a
      block to collect and the count of free chunks; its state contains that of the
      checkpoint stream, which shares the block states and the flash.  YaffsFile adds the
      tnodes and the objects: finding, reading and writing the chunks of a file, and
      moving them out of a block that is collected.
    - YaffsSpace, YaffsChunks, YaffsWrite, YaffsRetry: the invariant of YaffsBlocks (the
      books: pages in use, erased blocks and free chunks are what counting gives; the
      block that is being filled) and what each operation does to it, through every
      failure of the flash.  Writing ends because every attempt uses up a page, a strike
      or a block ([life]).
    - YaffsStore, YaffsContent, YaffsUpdate, YaffsFileWrite, YaffsCollect, YaffsChoose:
      the view of the files as maps from chunk numbers to contents.  The chunks in use, by
      their tags, and the trees agree ([placed], [linked]); writing a chunk changes one
      place of the view, and collecting a block none.
    - YaffsGuts: what this gives a caller (write and read back, collection, counting), a
      flash in memory on which the hypotheses hold, and two defects: a collection that
      loses data, and a failed check that retires sound blocks.
    - HashTable ([minzip/Hash.c]): the open-addressing table refines a finite map,
      through lookup, insertion with growth, removal and iteration; probing ends.
    - Zip ([minzip/Zip.c], [Zip.h], [Bits.h]): opening an archive, on arbitrary bytes: what
      is accepted, that the entries stay inside the file, and that names are found, with
      the hash table of HashTable below it.
    - ZipExtract (the rest of [Zip.c], [dirCreateHierarchy] of [DirUtil.c]): the contents
      of entries through zlib to buffers, descriptors and checksums, and the recursive
      extraction; sizes that defeat the checks, and errors that are not reported.
    - ZipImage: archives that are laid out as the format says are opened, and every file
      in them is found and extracted.
    - Mtd ([mtdutils/mtdutils.c]): writing and reading of a partition with bad blocks on
      an arbitrary driver; what was written is read back, and one way in which it is not.
    - MtdScan (the same file): the table of partitions from /proc/mtd, and finding a
      partition by its name.
    - BsDiff ([applypatch/bsdiff.c], [bspatch.c]): generating and applying patches; the
      two are inverse for any array of positions, sorted or not; a patch that makes the
      applier overrun its buffer.
    - QSufSort ([split], [qsufsort] of [bsdiff.c]): the suffix sort terminates and sorts;
      with it, bsdiff and bspatch as a whole are inverse.
    - Edify ([edify/expr.c]): the evaluator of install scripts is memory safe and frees
      all it allocates, for every expression the grammar can produce; failures leave a
      message; a registered function is found; a call that reads past its arguments.
    - Verifier ([verifier.c]): an accepted package is signed over all its bytes up to
      the comment length, a correctly signed one is accepted, and a crafted one makes
      the code read before its buffer.
    - SparseImage ([ext4_utils/output_file.c], [simg2img.c], [sparse_crc32.c]): the
      writer of plain, compressed and sparse images and the expander; the table-driven
      checksum is CRC-32.
    - BackedBlock ([ext4_utils/backed_block.c]): the queue of data blocks implements a
      list sorted by block number.
    - Ext4Image ([ext4_utils/ext4_utils.c]): the groups with backup superblocks, and
      [write_ext4_image]: queue, writer and expander together give the filesystem back.
    - Ext4Alloc ([ext4_utils/allocate.c]): every operation of the allocator on its heap of
      regions, its bitmaps and its group table.
    - Ext4Groups, Ext4Reach (the same file, and [ext4_create_fs_aux_info] of
      [ext4_utils.c]): the invariant of the allocator over any sequence of calls (no
      block or inode number is handed out twice, all are inside the filesystem and
      marked), termination of an allocation, allocation up to the last free block, and
      the two ways in which the code misses this.
    - Ext4Extent ([ext4_utils/extent.c]): the extent tree of a file maps each of its
      blocks, and its bytes are queued for the blocks they are mapped to.

    ** Fuel and bounds

    Loops that are not structural take fuel and give [None] when it is spent, so a
    theorem that gives a result also shows that the loop ends.  The fuel is the length
    of what is walked: the table size plus one for probing, the length of a segment plus
    one for the sorting loops, the number of blocks for scans of the flash, the size of
    the heap plus one for lists of regions ([walk_fuel]), the file sizes for patches, the
    number of bytes for lines and for the search of the end of an archive, the size of a
    partition or of a request for its blocks.
    Where it is an argument the theorem says how much is enough: one round for each
    group and two more for [allocate_blocks], ten rounds for each page of the device for
    writing a chunk ([YaffsRetry.write_fuel]; a page can be tried, and its block erased and
    used again, until the block has four strikes), two passes more than the binary logarithm
    of the file size for [qsufsort], the compressed and the uncompressed size together for
    the contents of an entry.  Archives are taken up to 1 GB and partitions up to 2 GB,
    where the 32-bit offsets of the code do not wrap.

    ** Not modelled

    - User interface, menus, graphics and input ([ui.c], [menus.c], [menu-*.c],
      [minui/], [callbacks.c], [deviceui.h]): drawing and events, without a contract of
      their own.
    - Commands, volumes, backup, restore and process control ([commands.c], [volume.c],
      [backup.c], [restore.c], [exec.c], [main.c], [bootloader.c], [install.c],
      [updater/]), mounting and the command line tool of [mtdutils/]: sequences of system calls, whose effects are
      those of the kernel and of other programs.
    - [applypatch/imgdiff.c], [imgpatch.c], [applypatch.c]: built around zlib streams and
      partitions; the binary patches they use are in BsDiff and QSufSort.
    - [minzip/SysUtil.c], and removal and permissions of trees in [DirUtil.c]: mapping of
      files, and walks over directories.
    - [edify/lexer.l], [parser.y]: input of flex and bison.
    - [ext4_utils/contents.c], [indirect.c], [make_ext4fs.c] and the contents of superblock and descriptors in [ext4_utils.c]: the layers above and
      beside the allocator.
    - Objects and their headers, directories, the cache and scanning in
      [yaffs2/yaffs_guts.c], [yaffs_fs.c] and the mtd interfaces: the file system above its
      chunks, and its glue to Linux.  Of the collector the deletion of objects whose last
      chunk has gone is left out, since it renames them into a directory: [collect_block]
      returns their list; [write_chunk_data] begins after the call of the collector; [yaffs2/direct], [utils], [mtdemul]: other hosts, tools.
    - The kernel, busybox, the Java application and the other utilities of the
      repository: separate programs. *)

From stdpp Require Export base list numbers option gmap.
From Stdlib Require Export Lia.

(** ** Machine integers

    The C code runs on 32-bit ARM.  An unsigned integer of width [w] is a [Z]
    in [0, 2^w); each operation that can leave that range is followed by the
    wrap-around of its type. *)

Declare Scope c_scope.
Delimit Scope c_scope with c.
Open Scope Z_scope.

Definition uwrap (w x : Z) : Z := x mod 2 ^ w.
Definition u8 (x : Z) : Z := x mod 256.
Definition u16 (x : Z) : Z := x mod 65536.
Definition u32 (x : Z) : Z := x mod 4294967296.
Definition u64 (x : Z) : Z := x mod 18446744073709551616.

(** Two's complement reading of the low [w] bits of [x]. *)
Definition swrap (w x : Z) : Z := (x + 2 ^ (w - 1)) mod 2 ^ w - 2 ^ (w - 1).
Definition s32 (x : Z) : Z := swrap 32 x.
Definition s64 (x : Z) : Z := swrap 64 x.

Definition is_u8 (x : Z) : Prop := 0 <= x < 256.
Definition is_u16 (x : Z) : Prop := 0 <= x < 65536.
Definition is_u32 (x : Z) : Prop := 0 <= x < 4294967296.
Definition is_u64 (x : Z) : Prop := 0 <= x < 18446744073709551616.
Definition is_s32 (x : Z) : Prop := -2147483648 <= x < 2147483648.

(** Truth value of a C integer used as a condition. *)
Definition truthy (x : Z) : bool := negb (x =? 0).

Lemma truthy_false n : truthy n = false <-> n = 0.
Proof. unfold truthy. rewrite negb_false_iff. apply Z.eqb_eq. Qed.
Lemma truthy_true n : truthy n = true <-> n <> 0.
Proof. unfold truthy. rewrite negb_true_iff. apply Z.eqb_neq. Qed.

(** [if (x & mask) t |= bit] *)
Definition or_if (c : bool) (t bit : Z) : Z := if c then Z.lor t bit else t.

(** ** Bit-level reasoning

    [cbits] rewrites [Z.testbit] through the bit operations of C; [bitwise]
    reduces an equation between words to one between their bits. *)

Create Rewrite HintDb cbits.

Lemma uwrap_testbit w x i : 0 <= w -> 
  Z.testbit (uwrap w x) i = (i <? w) && Z.testbit x i.
Proof.
  intros Hw. unfold uwrap. destruct (Z.ltb_spec i w).
  - destruct (Z.le_gt_cases 0 i).
    + by rewrite Z.mod_pow2_bits_low.
    + by rewrite !Z.testbit_neg_r.
  - rewrite Z.mod_pow2_bits_high; [done | lia].
Qed.

Lemma u8_testbit x i : Z.testbit (u8 x) i = (i <? 8) && Z.testbit x i.
Proof. apply (uwrap_testbit 8). lia. Qed.

Lemma u16_testbit x i : Z.testbit (u16 x) i = (i <? 16) && Z.testbit x i.
Proof. apply (uwrap_testbit 16). lia. Qed.

Lemma u32_testbit x i : Z.testbit (u32 x) i = (i <? 32) && Z.testbit x i.
Proof. apply (uwrap_testbit 32). lia. Qed.

Lemma or_if_testbit c t b i :
  Z.testbit (or_if c t b) i = Z.testbit t i || (c && Z.testbit b i).
Proof. destruct c; simpl; rewrite ?Z.lor_spec; [done | by rewrite orb_false_r]. Qed.

Lemma truthy_land_bit a m k :
  0 <= k -> m = 2 ^ k -> truthy (Z.land a m) = Z.testbit a k.
Proof.
  intros Hk ->. unfold truthy.
  destruct (Z.testbit a k) eqn:E.
  - apply negb_true_iff, Z.eqb_neq. intros H0.
    apply (f_equal (fun z => Z.testbit z k)) in H0.
    rewrite Z.land_spec, E, Z.pow2_bits_true, Z.bits_0 in H0 by lia. done.
  - apply negb_false_iff, Z.eqb_eq, Z.bits_inj'. intros i Hi.
    rewrite Z.land_spec, Z.bits_0, Z.pow2_bits_eqb by lia.
    destruct (Z.eqb_spec k i) as [<-|]; [by rewrite E | by rewrite andb_false_r].
Qed.

Lemma testbit_above n x i : 0 <= x < 2 ^ n -> n <= i -> Z.testbit x i = false.
Proof.
  intros Hx Hi. destruct (Z.le_gt_cases 0 n).
  - rewrite <- (Z.mod_small x (2 ^ n)) by done. by apply Z.mod_pow2_bits_high.
  - rewrite Z.pow_neg_r in Hx by lia. lia.
Qed.

Lemma u8_id x : is_u8 x -> u8 x = x.
Proof. apply Z.mod_small. Qed.
Lemma u16_id x : is_u16 x -> u16 x = x.
Proof. apply Z.mod_small. Qed.
Lemma u32_id x : is_u32 x -> u32 x = x.
Proof. apply Z.mod_small. Qed.
Lemma u64_id x : is_u64 x -> u64 x = x.
Proof. apply Z.mod_small. Qed.

Lemma u8_range x : is_u8 (u8 x).
Proof. by apply Z.mod_pos_bound. Qed.
Lemma u16_range x : is_u16 (u16 x).
Proof. by apply Z.mod_pos_bound. Qed.
Lemma u32_range x : is_u32 (u32 x).
Proof. by apply Z.mod_pos_bound. Qed.
Lemma u64_range x : is_u64 (u64 x).
Proof. by apply Z.mod_pos_bound. Qed.

#[export] Hint Rewrite Z.lxor_spec Z.land_spec Z.lor_spec Z.bits_0
  u8_testbit u16_testbit u32_testbit or_if_testbit : cbits.
#[export] Hint Rewrite Z.lnot_spec Z.shiftr_spec Z.shiftl_spec using lia : cbits.
#[export] Hint Resolve u8_range u16_range u32_range u64_range : core.

Ltac bitwise :=
  apply Z.bits_inj'; intros ?i ?Hi; autorewrite with cbits.

Lemma u8_lxor a b : u8 (Z.lxor a b) = Z.lxor (u8 a) (u8 b).
Proof. bitwise. by destruct (i <? 8). Qed.
Lemma u32_lxor a b : u32 (Z.lxor a b) = Z.lxor (u32 a) (u32 b).
Proof. bitwise. by destruct (i <? 32). Qed.

Lemma lxor_range n a b :
  0 <= n -> 0 <= a < 2 ^ n -> 0 <= b < 2 ^ n -> 0 <= Z.lxor a b < 2 ^ n.
Proof.
  intros Hn Ha Hb.
  assert (Z.lxor a b = Z.lxor a b mod 2 ^ n) as ->; [|by apply Z.mod_pos_bound; lia].
  apply Z.bits_inj'. intros i Hi. change (Z.lxor a b mod 2 ^ n) with (uwrap n (Z.lxor a b)).
  rewrite uwrap_testbit, Z.lxor_spec by done.
  destruct (Z.ltb_spec i n); [done|].
  by rewrite !(testbit_above n).
Qed.

Lemma lxor_cancel_l a b : Z.lxor a (Z.lxor a b) = b.
Proof. by rewrite <- Z.lxor_assoc, Z.lxor_nilpotent, Z.lxor_0_l. Qed.

Lemma lxor_cancel_r a b : Z.lxor (Z.lxor a b) b = a.
Proof. by rewrite Z.lxor_assoc, Z.lxor_nilpotent, Z.lxor_0_r. Qed.

(** ** Exhaustive checks over a finite range *)

Definition all_below (n : Z) (f : Z -> bool) : bool := forallb f (seqZ 0 n).

Lemma all_below_spec n f x : all_below n f = true -> 0 <= x < n -> f x = true.
Proof.
  unfold all_below. rewrite forallb_forall. intros H Hx.
  apply H, list_elem_of_In, elem_of_seqZ. lia.
Qed.

Ltac cases_below i n :=
  match n with
  | 0 => idtac
  | _ => let m := eval vm_compute in (n - 1) in
         destruct (decide (i = m)); [subst i | cases_below i m]
  end.

(** ** Lists *)

Lemma alter_take_drop {A} (f : A -> A) (l : list A) i x :
  l !! i = Some x -> alter f i l = take i l ++ f x :: drop (S i) l.
Proof.
  revert i. induction l as [|y l IH]; intros [|i] H; simplify_eq/=; [done|].
  f_equal. by apply IH.
Qed.

(** [(<[i:=y]> l)] trades the element at [i] for [y] in every filtered view. *)
Lemma filter_insert_perm {A} (P : A -> Prop) `{!forall x, Decision (P x)}
    (l : list A) i x y :
  l !! i = Some x ->
  filter P (<[i:=y]> l) ++ filter P [x] ≡ₚ filter P l ++ filter P [y].
Proof.
  intros Hx. rewrite <- (take_drop_middle l i x Hx) at 2.
  rewrite insert_take_drop by (by eapply lookup_lt_Some).
  rewrite !filter_app, !filter_cons.
  rewrite filter_nil. destruct (decide (P x)), (decide (P y)); simpl;
    rewrite ?app_nil_r; try done; rewrite <- ?app_assoc;
    apply Permutation_app_head; cbn; rewrite <- ?Permutation_cons_append;
    done || apply perm_swap.
Qed.

(** ** Arithmetic modulo a table size *)

Lemma mod_sub_cases a b n : 0 <= a < n -> 0 <= b < n ->
  (b - a) mod n = if a <=? b then b - a else b - a + n.
Proof.
  intros. destruct (Z.leb_spec a b); [by rewrite Z.mod_small by lia|].
  symmetry. apply Z.mod_unique with (q := -1); lia.
Qed.

Lemma mod_add_cases a j n : 0 <= a < n -> 0 <= j < n ->
  (a + j) mod n = if a + j <? n then a + j else a + j - n.
Proof.
  intros. destruct (Z.ltb_spec (a + j) n); [by rewrite Z.mod_small by lia|].
  symmetry. apply Z.mod_unique with (q := 1); lia.
Qed.

Lemma land_pow2_mask x k : 0 <= k -> Z.land x (2 ^ k - 1) = x mod 2 ^ k.
Proof. intros. rewrite <- Z.land_ones by done. by rewrite Z.ones_equiv. Qed.

Lemma s32_id x : is_s32 x -> s32 x = x.
Proof.
  unfold is_s32, s32, swrap. change (2 ^ (32 - 1)) with 2147483648.
  change (2 ^ 32) with 4294967296. intros. rewrite Z.mod_small; lia.
Qed.

Lemma s32_range x : is_s32 (s32 x).
Proof.
  unfold is_s32, s32, swrap. change (2 ^ (32 - 1)) with 2147483648. change (2 ^ 32) with 4294967296.
  pose proof (Z.mod_pos_bound (x + 2147483648) 4294967296). lia.
Qed.

Lemma s32_mod x : s32 x mod 4294967296 = x mod 4294967296.
Proof.
  unfold s32, swrap. change (2 ^ (32 - 1)) with 2147483648.
  change (2 ^ 32) with 4294967296.
  rewrite Zminus_mod_idemp_l. f_equal. lia.
Qed.

(** ** Little-endian integers in byte buffers *)

Fixpoint le_bytes (n : nat) (x : Z) : list Z :=
  match n with
  | O => []
  | S n => u8 x :: le_bytes n (x / 256)
  end.

Fixpoint le_val (bs : list Z) : Z :=
  match bs with
  | [] => 0
  | b :: bs => b + 256 * le_val bs
  end.

Lemma u8_list_check l : forallb (fun x => (0 <=? x) && (x <? 256)) l = true -> Forall is_u8 l.
Proof.
  rewrite forallb_forall. intros H. apply Forall_forall. intros x Hx.
  apply list_elem_of_In, H, andb_true_iff in Hx as [H1 H2].
  apply Z.leb_le in H1. apply Z.ltb_lt in H2. unfold is_u8. lia.
Qed.

Lemma length_le_bytes n x : length (le_bytes n x) = n.
Proof. revert x. induction n; intros; simpl; auto. Qed.

Lemma le_bytes_u8 n x : Forall is_u8 (le_bytes n x).
Proof. revert x. induction n; intros; constructor; auto. Qed.

Lemma le_val_bytes n x : le_val (le_bytes n x) = x mod 256 ^ Z.of_nat n.
Proof.
  revert x. induction n as [|n IH]; intros x; cbn [le_bytes le_val].
  { by rewrite Z.mod_1_r. }
  rewrite IH, Nat2Z.inj_succ, Z.pow_succ_r by lia. unfold u8.
  rewrite Z.rem_mul_r; lia.
Qed.

Lemma le_val_range bs : Forall is_u8 bs -> 0 <= le_val bs < 256 ^ Z.of_nat (length bs).
Proof.
  unfold is_u8. induction 1 as [|b bs Hb _ IH]; cbn [le_val length]; [done|].
  rewrite Nat2Z.inj_succ, Z.pow_succ_r by lia. lia.
Qed.

Lemma le_bytes_val bs : Forall is_u8 bs -> le_bytes (length bs) (le_val bs) = bs.
Proof.
  induction 1 as [|b bs Hb Hbs IH]; cbn [length le_bytes le_val]; [done|].
  unfold is_u8, u8 in *. rewrite (Z.mul_comm 256), Z_mod_plus_full, Z.mod_small by done.
  rewrite Z_div_plus, Z.div_small, Z.add_0_l, IH by lia. done.
Qed.

Lemma le_val_app bs cs :
  le_val (bs ++ cs) = le_val bs + 256 ^ Z.of_nat (length bs) * le_val cs.
Proof.
  induction bs as [|b bs IH]; cbn [app le_val length]; [by rewrite Z.mul_1_l|].
  rewrite IH, Nat2Z.inj_succ, Z.pow_succ_r by lia. lia.
Qed.

Lemma byte_cons_testbit b v n : is_u8 b -> 0 <= n ->
  Z.testbit (b + 256 * v) n = if n <? 8 then Z.testbit b n else Z.testbit v (n - 8).
Proof.
  intros Hb Hn.
  assert (b + 256 * v = Z.lor b (Z.shiftl v 8)) as ->.
  { rewrite Z.shiftl_mul_pow2, Z.mul_comm by lia. rewrite <- Z.lxor_lor, Z.add_nocarry_lxor.
    all: change (2 ^ 8) with 256; rewrite ?(Z.mul_comm v); try done.
    all: rewrite Z.mul_comm; change 256 with (2 ^ 8); rewrite <- Z.shiftl_mul_pow2 by lia;
      apply Z.bits_inj'; intros m Hm; rewrite Z.land_spec, Z.shiftl_spec, Z.bits_0 by lia;
      destruct (Z.ltb_spec m 8); [rewrite (Z.testbit_neg_r v) by lia; by rewrite andb_false_r
      | by rewrite (testbit_above 8 b m)]. }
  rewrite Z.lor_spec, Z.shiftl_spec by lia. destruct (Z.ltb_spec n 8).
  - by rewrite (Z.testbit_neg_r v), orb_false_r by lia.
  - by rewrite (testbit_above 8 b n).
Qed.

Lemma word_testbit b0 b1 b2 b3 n : is_u8 b0 -> is_u8 b1 -> is_u8 b2 -> is_u8 b3 -> 0 <= n ->
  Z.testbit (le_val [b0; b1; b2; b3]) n =
  if n <? 8 then Z.testbit b0 n else if n - 8 <? 8 then Z.testbit b1 (n - 8)
  else if n - 8 - 8 <? 8 then Z.testbit b2 (n - 8 - 8)
  else if n - 8 - 8 - 8 <? 8 then Z.testbit b3 (n - 8 - 8 - 8) else false.
Proof.
  intros ? ? ? ? Hn. cbn [le_val]. rewrite byte_cons_testbit by done.
  destruct (Z.ltb_spec n 8); [done|]. rewrite byte_cons_testbit by (done || lia).
  destruct (Z.ltb_spec (n - 8) 8); [done|]. rewrite byte_cons_testbit by (done || lia).
  destruct (Z.ltb_spec (n - 8 - 8) 8); [done|]. rewrite byte_cons_testbit by (done || lia).
  destruct (Z.ltb_spec (n - 8 - 8 - 8) 8); [done|]. apply Z.bits_0.
Qed.

(** Changing one bit of a byte changes that bit of the integer. *)
Lemma le_val_alter_lxor bs i k : Forall is_u8 bs -> (i < length bs)%nat -> 0 <= k < 8 ->
  le_val (alter (fun b => Z.lxor b (2 ^ k)) i bs) =
  Z.lxor (le_val bs) (2 ^ (8 * Z.of_nat i + k)).
Proof.
  intros Hbs. revert i. induction Hbs as [|b bs Hb Hbs IH]; intros i Hi Hk; [simpl in Hi; lia|].
  pose proof (le_val_range bs Hbs) as Hv.
  assert (is_u8 (Z.lxor b (2 ^ k))) as Hb'.
  { apply (lxor_range 8); [lia | done |]. split; [lia|].
    apply (Z.pow_lt_mono_r 2 k 8); lia. }
  apply Z.bits_inj'. intros n Hn. rewrite Z.lxor_spec, Z.pow2_bits_eqb by lia.
  destruct i as [|i]; cbn [alter list_alter le_val]; rewrite !byte_cons_testbit by done.
  - destruct (Z.ltb_spec n 8).
    + rewrite Z.lxor_spec, Z.pow2_bits_eqb by lia. done.
    + destruct (Z.eqb_spec (8 * Z.of_nat 0 + k) n); [lia|]. by rewrite xorb_false_r.
  - destruct (Z.ltb_spec n 8).
    + destruct (Z.eqb_spec (8 * Z.of_nat (S i) + k) n); [lia|]. by rewrite xorb_false_r.
    + cbn [length] in Hi. change (list_alter _ i bs) with (alter (fun b => Z.lxor b (2 ^ k)) i bs).
      rewrite (IH i) by lia. rewrite Z.lxor_spec, Z.pow2_bits_eqb by lia.
      f_equal. destruct (Z.eqb_spec (8 * Z.of_nat i + k) (n - 8)),
        (Z.eqb_spec (8 * Z.of_nat (S i) + k) n); lia || done.
Qed.

(** Case analysis on the integer comparisons of the goal. *)
Ltac zcases :=
  repeat match goal with
  | |- context [if ?a <=? ?b then _ else _] => destruct (Z.leb_spec a b)
  | |- context [if ?a <? ?b then _ else _] => destruct (Z.ltb_spec a b)
  | |- context [if ?a =? ?b then _ else _] => destruct (Z.eqb_spec a b)
  end.

(** ** State that code reads and writes

    A computation on a state; [None] is undefined behaviour or a call that does not return. *)
Definition St (S A : Type) : Type := S -> option (A * S).
#[export] Instance St_ret {S} : MRet (St S) | 100 := fun A x s => Some (x, s).
#[export] Instance St_bind {S} : MBind (St S) | 100 := fun A B f m s => '(x, s) ← m s; f x s.

Definition get_st {S} : St S S := fun s => Some (s, s).
Definition undefined {S A} : St S A := fun _ => None.
Definition lift {S A} (o : option A) : St S A := fun s => x ← o; Some (x, s).
Definition modify {S} (f : S -> S) : St S unit := fun s => Some (tt, f s).

Lemma bind_some {S A B} (m : St S A) (f : A -> St S B) s x s1 : m s = Some (x, s1) -> (m ≫= f) s = f x s1.
Proof. intros H. unfold mbind, St_bind. by rewrite H. Qed.
Lemma get_st_bind {S B} (f : S -> St S B) s : (get_st ≫= f) s = f s s.
Proof. done. Qed.
Lemma ret_bind {S A B} (x : A) (f : A -> St S B) s : (mret x ≫= f) s = f x s.
Proof. done. Qed.
Lemma lift_bind {S A B} (o : option A) x (f : A -> St S B) s : o = Some x -> (lift o ≫= f) s = f x s.
Proof. by intros ->. Qed.
Lemma modify_bind {S B} (g : S -> S) (f : unit -> St S B) s : (modify g ≫= f) s = f tt (g s).
Proof. done. Qed.

(** The computation returns, and [Q] holds of what it returns and of the new state. *)
Definition runs {S A} (m : St S A) (s : S) (Q : A -> S -> Prop) : Prop := exists x s', m s = Some (x, s') /\ Q x s'.

Section runs.
Context {S : Type}.

Lemma runs_ret {A} (x : A) (s : S) (Q : A -> S -> Prop) : Q x s -> runs (mret x) s Q.
Proof. intros H. by exists x, s. Qed.
Lemma runs_bind {A B} (m : St S A) (f : A -> St S B) s Q : runs m s (fun x s' => runs (f x) s' Q) -> runs (m ≫= f) s Q.
Proof. intros (x & s' & H & y & s'' & H' & HQ). exists y, s''. by rewrite (bind_some _ _ _ _ _ H). Qed.
Lemma runs_weaken {A} (m : St S A) s (P Q : A -> S -> Prop) : runs m s P -> (forall x s', P x s' -> Q x s') -> runs m s Q.
Proof. intros (x & s' & H & HP) HQ. exists x, s'. auto. Qed.
Lemma runs_cut {A B} (m : St S A) (f : A -> St S B) s P Q :
  runs m s P -> (forall x s', P x s' -> runs (f x) s' Q) -> runs (m ≫= f) s Q.
Proof. intros Hm Hf. by apply runs_bind, (runs_weaken _ _ _ _ Hm). Qed.
Lemma runs_eq {A} (m : St S A) s x s' (Q : A -> S -> Prop) : m s = Some (x, s') -> Q x s' -> runs m s Q.
Proof. intros H HQ. by exists x, s'. Qed.
Lemma runs_get {B} (f : S -> St S B) s Q : runs (f s) s Q -> runs (get_st ≫= f) s Q.
Proof. done. Qed.
Lemma runs_modify {B} (g : S -> S) (f : unit -> St S B) s Q : runs (f tt) (g s) Q -> runs (modify g ≫= f) s Q.
Proof. done. Qed.
Lemma runs_lift {A B} (o : option A) x (f : A -> St S B) s Q : o = Some x -> runs (f x) s Q -> runs (lift o ≫= f) s Q.
Proof. by intros ->. Qed.
End runs.
