(* ===== verification/Sha1.v ===== *)
(** * SHA-1 and the identifier of a filesystem (ext4_utils/sha1.c, uuid.c)

    The hash is computed block by block, with the message schedule expanded in place in
    sixteen words and the five working variables taking each other's roles from one
    step to the next; the model keeps both.  The processor is little-endian, so the
    words of a block are swapped when they are first used.

    The second half is the definition of FIPS 180 and the proof that the code computes
    it, for messages given in pieces of any sizes. *)

From S2P Require Import Prelude.

(** ** Transformation of a block *)

Definition rol (value bits : Z) : Z :=
  Z.lor (u32 (Z.shiftl value bits)) (Z.shiftr value (32 - bits)).

(** The working variables. *)
Inductive var := a | b | c | d | e.
Record vars := Vars { va : Z; vb : Z; vc : Z; vd : Z; ve : Z }.

Definition get (s : vars) (r : var) : Z :=
  match r with a => va s | b => vb s | c => vc s | d => vd s | e => ve s end.
Definition set (s : vars) (r : var) (x : Z) : vars :=
  let (xa, xb, xc, xd, xe) := s in
  match r with
  | a => Vars x xb xc xd xe | b => Vars xa x xc xd xe | c => Vars xa xb x xd xe
  | d => Vars xa xb xc x xe | e => Vars xa xb xc xd x
  end.

(** [block->l[i]], in range because every index is below 16 *)
Definition word (block : list Z) (i : Z) : Z := nth (Z.to_nat i) block 0.
Definition set_word (block : list Z) (i x : Z) : list Z := <[Z.to_nat i := x]> block.

Definition blk0 (block : list Z) (i : Z) : Z * list Z :=
  let x := Z.lor (Z.land (rol (word block i) 24) 0xFF00FF00) (Z.land (rol (word block i) 8) 0x00FF00FF) in
  (x, set_word block i x).

Definition blk (block : list Z) (i : Z) : Z * list Z :=
  let x := rol (Z.lxor (Z.lxor (Z.lxor (word block (Z.land (i + 13) 15)) (word block (Z.land (i + 8) 15)))
                  (word block (Z.land (i + 2) 15))) (word block (Z.land i 15))) 1 in
  (x, set_word block (Z.land i 15) x).

(** The five round macros, as what they do to the variables named by their arguments. *)
Inductive macro := R0 | R1 | R2 | R3 | R4.
Record step := Step { op : macro; rv : var; rw : var; rx : var; ry : var; rz : var; idx : Z }.

Definition mix (m : macro) (w x y : Z) : Z :=
  match m with
  | R0 | R1 => Z.lxor (Z.land w (Z.lxor x y)) y
  | R2 | R4 => Z.lxor (Z.lxor w x) y
  | R3 => Z.lor (Z.land (Z.lor w x) y) (Z.land w x)
  end.
Definition constant (m : macro) : Z :=
  match m with R0 | R1 => 0x5A827999 | R2 => 0x6ED9EBA1 | R3 => 0x8F1BBCDC | R4 => 0xCA62C1D6 end.
Definition expand (m : macro) : list Z -> Z -> Z * list Z := match m with R0 => blk0 | _ => blk end.

Definition run_step (t : step) (s : vars * list Z) : vars * list Z :=
  let (s, block) := s in
  let (x, block) := expand (op t) block (idx t) in
  let z := u32 (get s (rz t) + u32 (u32 (u32 (mix (op t) (get s (rw t)) (get s (rx t)) (get s (ry t)) + x)
                  + constant (op t)) + rol (get s (rv t)) 5)) in
  let s := set s (rz t) z in
  (set s (rw t) (rol (get s (rw t)) 30), block).

Definition rounds : list step :=
  [ Step R0 a b c d e  0; Step R0 e a b c d  1; Step R0 d e a b c  2; Step R0 c d e a b  3;
    Step R0 b c d e a  4; Step R0 a b c d e  5; Step R0 e a b c d  6; Step R0 d e a b c  7;
    Step R0 c d e a b  8; Step R0 b c d e a  9; Step R0 a b c d e 10; Step R0 e a b c d 11;
    Step R0 d e a b c 12; Step R0 c d e a b 13; Step R0 b c d e a 14; Step R0 a b c d e 15;
    Step R1 e a b c d 16; Step R1 d e a b c 17; Step R1 c d e a b 18; Step R1 b c d e a 19;
    Step R2 a b c d e 20; Step R2 e a b c d 21; Step R2 d e a b c 22; Step R2 c d e a b 23;
    Step R2 b c d e a 24; Step R2 a b c d e 25; Step R2 e a b c d 26; Step R2 d e a b c 27;
    Step R2 c d e a b 28; Step R2 b c d e a 29; Step R2 a b c d e 30; Step R2 e a b c d 31;
    Step R2 d e a b c 32; Step R2 c d e a b 33; Step R2 b c d e a 34; Step R2 a b c d e 35;
    Step R2 e a b c d 36; Step R2 d e a b c 37; Step R2 c d e a b 38; Step R2 b c d e a 39;
    Step R3 a b c d e 40; Step R3 e a b c d 41; Step R3 d e a b c 42; Step R3 c d e a b 43;
    Step R3 b c d e a 44; Step R3 a b c d e 45; Step R3 e a b c d 46; Step R3 d e a b c 47;
    Step R3 c d e a b 48; Step R3 b c d e a 49; Step R3 a b c d e 50; Step R3 e a b c d 51;
    Step R3 d e a b c 52; Step R3 c d e a b 53; Step R3 b c d e a 54; Step R3 a b c d e 55;
    Step R3 e a b c d 56; Step R3 d e a b c 57; Step R3 c d e a b 58; Step R3 b c d e a 59;
    Step R4 a b c d e 60; Step R4 e a b c d 61; Step R4 d e a b c 62; Step R4 c d e a b 63;
    Step R4 b c d e a 64; Step R4 a b c d e 65; Step R4 e a b c d 66; Step R4 d e a b c 67;
    Step R4 c d e a b 68; Step R4 b c d e a 69; Step R4 a b c d e 70; Step R4 e a b c d 71;
    Step R4 d e a b c 72; Step R4 c d e a b 73; Step R4 b c d e a 74; Step R4 a b c d e 75;
    Step R4 e a b c d 76; Step R4 d e a b c 77; Step R4 c d e a b 78; Step R4 b c d e a 79 ].

(** The sixteen words of the block, as the processor reads them. *)
Fixpoint words_le (n : nat) (buffer : list Z) : list Z :=
  match n with O => [] | S n => le_val (take 4 buffer) :: words_le n (drop 4 buffer) end.

(** [state] is the array of five words; [buffer] points to 64 bytes. *)
Definition SHA1Transform (state buffer : list Z) : list Z :=
  let s := Vars (word state 0) (word state 1) (word state 2) (word state 3) (word state 4) in
  let (s, _) := foldl (fun s t => run_step t s) (s, words_le 16 buffer) rounds in
  [u32 (word state 0 + va s); u32 (word state 1 + vb s); u32 (word state 2 + vc s);
   u32 (word state 3 + vd s); u32 (word state 4 + ve s)].

(** ** The context *)

Record SHA1_CTX := Sha1Ctx { state : list Z; count0 : Z; count1 : Z; buffer : list Z }.

(** The buffer is not initialised: [fresh] is what it holds. *)
Definition SHA1Init (fresh : list Z) : SHA1_CTX :=
  Sha1Ctx [0x67452301; 0xEFCDAB89; 0x98BADCFE; 0x10325476; 0xC3D2E1F0] 0 0 fresh.

(** [memcpy(&buf[j], bytes, |bytes|)] *)
Definition memcpy (buf : list Z) (j : Z) (bytes : list Z) : option (list Z) :=
  if (0 <=? j) && (j + Z.of_nat (length bytes) <=? Z.of_nat (length buf)) then
    Some (take (Z.to_nat j) buf ++ bytes ++ drop (Z.to_nat j + length bytes) buf)
  else None.

(** [n] bytes at [data + i] *)
Definition bytes_at (data : list Z) (i n : Z) : option (list Z) :=
  if (0 <=? i) && (0 <=? n) && (i + n <=? Z.of_nat (length data))
  then Some (take (Z.to_nat n) (drop (Z.to_nat i) data)) else None.

(** [for ( ; i + 63 < len; i += 64)] *)
Fixpoint blocks_loop (fuel : nat) (data : list Z) (len i : Z) (st : list Z) : option (list Z * Z) :=
  match fuel with
  | O => None
  | S fuel =>
      if u32 (i + 63) <? len then
        bs ← bytes_at data i 64; blocks_loop fuel data len (u32 (i + 64)) (SHA1Transform st bs)
      else Some (st, i)
  end.

Definition SHA1Update (context : SHA1_CTX) (data : list Z) : option SHA1_CTX :=
  let len := Z.of_nat (length data) in
  let j := count0 context in
  let c0 := u32 (count0 context + u32 (Z.shiftl len 3)) in
  let c1 := if c0 <? j then u32 (count1 context + (Z.shiftr len 29 + 1)) else count1 context in
  let j := Z.land (Z.shiftr j 3) 63 in
  '(st, buf, i, j) ←
    (if 63 <? u32 (j + len) then
       let i := 64 - j in
       bs ← bytes_at data 0 i;
       buf ← memcpy (buffer context) j bs;
       let st := SHA1Transform (state context) buf in
       '(st, i) ← blocks_loop (S (length data)) data len i st;
       Some (st, buf, i, 0)
     else Some (state context, buffer context, 0, j));
  bs ← bytes_at data i (u32 (len - i));
  buf ← memcpy buf j bs;
  Some (Sha1Ctx st c0 c1 buf).

(** [while ((context->count[0] & 504) != 448)] *)
Fixpoint pad_loop (fuel : nat) (context : SHA1_CTX) : option SHA1_CTX :=
  match fuel with
  | O => None
  | S fuel =>
      if negb (Z.land (count0 context) 504 =? 448) then
        context ← SHA1Update context [0]; pad_loop fuel context
      else Some context
  end.

Definition byte_of (x i : Z) : Z := Z.land (Z.shiftr x ((3 - Z.land i 3) * 8)) 255.

Definition SHA1Final (context : SHA1_CTX) : option (list Z * SHA1_CTX) :=
  let finalcount := (fun i => byte_of (if 4 <=? i then count0 context else count1 context) i) <$> seqZ 0 8 in
  context ← SHA1Update context [128];
  context ← pad_loop 64 context;
  context ← SHA1Update context finalcount;
  Some ((fun i => byte_of (word (state context) (Z.shiftr i 2)) i) <$> seqZ 0 20, context).

(** ** The identifier of a filesystem *)

Section uuid.
(** What the buffer of the context, a local variable of [sha1_hash], holds. *)
Context (fresh : list Z).

(** A name is the list of its characters, without the terminating zero. *)
Definition sha1_hash (namespace name : list Z) : option (list Z) :=
  let ctx := SHA1Init fresh in
  ctx ← SHA1Update ctx namespace;
  ctx ← SHA1Update ctx name;
  '(sha1, _) ← SHA1Final ctx;
  Some sha1.

(** The fields of [struct uuid] as the ABI lays them out, with its size. *)
Definition time_low_at := 0.
Definition time_mid_at := 4.
Definition time_hi_and_version_at := 8.
Definition clk_seq_hi_res_at := 10.
Definition sizeof_uuid := 20.

Definition ntohl (x : Z) : Z := le_val (rev (le_bytes 4 x)).
Definition ntohs (x : Z) : Z := le_val (rev (le_bytes 2 (u16 x))).

(** [mem] holds what is stored from [result] on: the sixteen bytes of the identifier and
    what follows it in the superblock. *)
Definition load (mem : list Z) (at_ : Z) (n : nat) : Z := le_val (take n (drop (Z.to_nat at_) mem)).

Definition generate_uuid (namespace name mem : list Z) : option (list Z) :=
  sha1 ← sha1_hash namespace name;
  mem ← memcpy mem 0 (take (Z.to_nat sizeof_uuid) sha1);
  mem ← memcpy mem time_low_at (le_bytes 4 (ntohl (load mem time_low_at 4)));
  mem ← memcpy mem time_mid_at (le_bytes 4 (ntohs (load mem time_mid_at 4)));
  mem ← memcpy mem time_hi_and_version_at
          (le_bytes 2 (ntohs (load mem time_hi_and_version_at 2)));
  mem ← memcpy mem time_hi_and_version_at
          (le_bytes 2 (Z.land (load mem time_hi_and_version_at 2) 0x0FFF));
  mem ← memcpy mem time_hi_and_version_at
          (le_bytes 2 (Z.lor (load mem time_hi_and_version_at 2) (Z.shiftl 5 12)));
  mem ← memcpy mem clk_seq_hi_res_at
          (le_bytes 1 (Z.land (load mem clk_seq_hi_res_at 1) (Z.lnot (Z.shiftl 1 6))));
  memcpy mem clk_seq_hi_res_at
          (le_bytes 1 (Z.lor (load mem clk_seq_hi_res_at 1) (Z.shiftl 1 7))).
End uuid.

(** ** FIPS 180 *)

Module Fips.
Definition ROTL (n x : Z) : Z := Z.lor ((x * 2 ^ n) mod 2 ^ 32) (x / 2 ^ (32 - n)).

Definition Ch (x y z : Z) : Z := Z.lxor (Z.land x y) (Z.land (Z.lnot x) z).
Definition Parity (x y z : Z) : Z := Z.lxor x (Z.lxor y z).
Definition Maj (x y z : Z) : Z := Z.lxor (Z.land x y) (Z.lxor (Z.land x z) (Z.land y z)).

Definition f (t x y z : Z) : Z :=
  if t <? 20 then Ch x y z else if t <? 40 then Parity x y z
  else if t <? 60 then Maj x y z else Parity x y z.
Definition K (t : Z) : Z :=
  if t <? 20 then 0x5A827999 else if t <? 40 then 0x6ED9EBA1
  else if t <? 60 then 0x8F1BBCDC else 0xCA62C1D6.

(** The message schedule, [n] words added to [W]. *)
Fixpoint extend (n : nat) (W : list Z) : list Z :=
  match n with
  | O => W
  | S n =>
      let w k := nth (length W - k) W 0 in
      extend n (W ++ [ROTL 1 (Z.lxor (w 3%nat) (Z.lxor (w 8%nat) (Z.lxor (w 14%nat) (w 16%nat))))])
  end.

Definition be_val (bs : list Z) : Z := le_val (rev bs).
Definition be_bytes (n : nat) (x : Z) : list Z := rev (le_bytes n x).

Fixpoint words (n : nat) (M : list Z) : list Z :=
  match n with O => [] | S n => be_val (take 4 M) :: words n (drop 4 M) end.
Definition schedule (M : list Z) : list Z := extend 64 (words 16 M).

Record hash := Hash { H0 : Z; H1 : Z; H2 : Z; H3 : Z; H4 : Z }.

Definition round (W : list Z) (h : hash) (t : nat) : hash :=
  let (a, b, c, d, e) := h in
  let i := Z.of_nat t in
  Hash ((ROTL 5 a + f i b c d + e + K i + nth t W 0) mod 2 ^ 32) a (ROTL 30 b) c d.

Definition add (h k : hash) : hash :=
  Hash ((H0 h + H0 k) mod 2 ^ 32) ((H1 h + H1 k) mod 2 ^ 32) ((H2 h + H2 k) mod 2 ^ 32)
       ((H3 h + H3 k) mod 2 ^ 32) ((H4 h + H4 k) mod 2 ^ 32).

Definition compress (h : hash) (M : list Z) : hash :=
  add h (foldl (round (schedule M)) h (seq 0 80)).

(** The first [n] blocks of 64 bytes. *)
Fixpoint process (n : nat) (h : hash) (M : list Z) : hash :=
  match n with O => h | S n => process n (compress h (take 64 M)) (drop 64 M) end.

Definition init : hash := Hash 0x67452301 0xefcdab89 0x98badcfe 0x10325476 0xc3d2e1f0.

(** The length in bits as a 64-bit integer, after the bit 1 and enough zeros. *)
Definition pad (M : list Z) : list Z :=
  M ++ [128] ++ replicate (Z.to_nat ((55 - Z.of_nat (length M)) mod 64)) 0
    ++ be_bytes 8 (8 * Z.of_nat (length M)).

Definition bytes (h : hash) : list Z :=
  be_bytes 4 (H0 h) ++ be_bytes 4 (H1 h) ++ be_bytes 4 (H2 h) ++ be_bytes 4 (H3 h) ++ be_bytes 4 (H4 h).

Definition sha1 (M : list Z) : list Z := bytes (process (length (pad M) / 64) init (pad M)).
End Fips.

(** ** The transformation is the compression function *)

Lemma rol_ROTL x n : 0 <= n <= 32 -> rol x n = Fips.ROTL n x.
Proof.
  intros. unfold rol, Fips.ROTL. by rewrite Z.shiftl_mul_pow2, Z.shiftr_div_pow2 by lia.
Qed.

Lemma mix_Ch w x y : mix R0 w x y = Fips.Ch w x y.
Proof. unfold mix, Fips.Ch. bitwise. by destruct (Z.testbit w i), (Z.testbit x i), (Z.testbit y i). Qed.
Lemma mix_Parity w x y : mix R2 w x y = Fips.Parity w x y.
Proof. unfold mix, Fips.Parity. apply Z.lxor_assoc. Qed.
Lemma mix_Maj w x y : mix R3 w x y = Fips.Maj w x y.
Proof. unfold mix, Fips.Maj. bitwise. by destruct (Z.testbit w i), (Z.testbit x i), (Z.testbit y i). Qed.

(** Which macro the code uses in step [i]. *)
Definition macro_of (i : Z) : macro :=
  if i <? 16 then R0 else if i <? 20 then R1 else if i <? 40 then R2 else if i <? 60 then R3 else R4.

Lemma mix_f i w x y : mix (macro_of i) w x y = Fips.f i w x y.
Proof.
  unfold macro_of, Fips.f.
  repeat case_match; try lia; auto using mix_Ch, mix_Parity, mix_Maj.
  all: apply mix_Ch || apply mix_Parity.
Qed.

Lemma constant_K i : constant (macro_of i) = Fips.K i.
Proof. unfold macro_of, Fips.K. repeat case_match; lia || done. Qed.

(** The steps from [i] on, each with the roles of the variables moved by one. *)
Fixpoint rounds_from (n : nat) (i : Z) (v w x y z : var) : list step :=
  match n with
  | O => []
  | S n => Step (macro_of i) v w x y z i :: rounds_from n (i + 1) z v w x y
  end.

Lemma rounds_eq : rounds = rounds_from 80 0 a b c d e.
Proof. reflexivity. Qed.

Definition view (s : vars) (v w x y z : var) : Fips.hash :=
  Fips.Hash (get s v) (get s w) (get s x) (get s y) (get s z).

#[global] Instance var_eq_dec : EqDecision var.
Proof. solve_decision. Defined.

Lemma get_set_eq s r x : get (set s r x) r = x.
Proof. by destruct s, r. Qed.
Lemma get_set_ne s r r' x : r' <> r -> get (set s r x) r' = get s r'.
Proof. by destruct s, r, r'. Qed.

(** The words of the block before step [i]: the last sixteen words of the schedule, or
    the words of the message that have not been used, as they were loaded. *)
Record in_place (raw W block : list Z) (i : Z) : Prop := {
  ip_length : length block = 16%nat;
  ip_done t : 0 <= t -> i - 16 <= t < i -> word block (Z.land t 15) = nth (Z.to_nat t) W 0;
  ip_todo t : 0 <= t -> i <= t < 16 -> word block t = nth (Z.to_nat t) raw 0;
}.

Lemma land_15_mod i : Z.land i 15 = i mod 16.
Proof. by apply (land_pow2_mask i 4). Qed.
Lemma land_15 i : 0 <= Z.land i 15 < 16.
Proof. rewrite land_15_mod. by apply Z.mod_pos_bound. Qed.

Lemma word_set_word block i j x : 0 <= i < Z.of_nat (length block) -> 0 <= j ->
  word (set_word block i x) j = if j =? i then x else word block j.
Proof.
  intros Hi Hj. unfold word, set_word. rewrite !nth_lookup.
  destruct (Z.eqb_spec j i) as [-> |].
  - by rewrite list_lookup_insert_eq by lia.
  - by rewrite list_lookup_insert_ne by lia.
Qed.

(** Writing word [i] of the schedule in its place. *)
Lemma in_place_step raw W block i x : 0 <= i -> in_place raw W block i -> x = nth (Z.to_nat i) W 0 ->
  in_place raw W (set_word block (Z.land i 15) x) (i + 1).
Proof.
  intros Hi [Hl Hd Ht] Hx. pose proof (land_15 i). split.
  - unfold set_word. by rewrite length_insert.
  - intros t Ht0 Hti. pose proof (land_15 t). rewrite word_set_word by lia.
    destruct (Z.eqb_spec (Z.land t 15) (Z.land i 15)) as [E|E].
    + rewrite !land_15_mod in E. replace t with i; [done|].
      pose proof (Z.div_mod t 16). pose proof (Z.div_mod i 16). lia.
    + apply Hd; [done|]. destruct (decide (t = i)) as [-> |]; [done | lia].
  - intros t Ht0 Hti. rewrite land_15_mod, Z.mod_small by lia.
    rewrite word_set_word by lia. destruct (Z.eqb_spec t i); [lia|]. apply Ht; lia.
Qed.

Definition bswap (x : Z) : Z :=
  Z.lor (Z.land (rol x 24) 0xFF00FF00) (Z.land (rol x 8) 0x00FF00FF).

(** The swap of the processor's word is the word of the message. *)
Lemma bswap_le_val bs : length bs = 4%nat -> Forall is_u8 bs -> bswap (le_val bs) = Fips.be_val bs.
Proof.
  intros Hl Hbs. destruct bs as [|b0 [|b1 [|b2 [|b3 [|]]]]]; try discriminate Hl.
  rewrite !Forall_cons in Hbs. destruct Hbs as (?&?&?&?&_).
  unfold Fips.be_val. cbn [rev app]. unfold bswap, rol.
  apply Z.bits_inj'; intros i Hi.
  rewrite !Z.lor_spec, !Z.land_spec, !Z.lor_spec, !u32_testbit, !Z.shiftr_spec by lia.
  rewrite !Z.shiftl_spec by lia. destruct (decide (i < 32)).
  - rewrite (word_testbit b3), (word_testbit b0 b1 b2 b3 (i + (32 - 24))),
      (word_testbit b0 b1 b2 b3 (i + (32 - 8))) by (done || lia).
    destruct (decide (24 <= i)); [|destruct (decide (8 <= i))].
    1: rewrite (word_testbit b0 b1 b2 b3 (i - 24)), (word_testbit b0 b1 b2 b3 (i - 8)) by (done || lia).
    2: rewrite (Z.testbit_neg_r _ (i - 24)), (word_testbit b0 b1 b2 b3 (i - 8)) by (done || lia).
    3: rewrite (Z.testbit_neg_r _ (i - 24)), (Z.testbit_neg_r _ (i - 8)) by lia.
    all: generalize (Z.testbit b0), (Z.testbit b1), (Z.testbit b2), (Z.testbit b3).
    all: intros f0 f1 f2 f3; cases_below i 32; try lia; vm_compute.
    all: try reflexivity; repeat match goal with |- context [?f ?k] => is_var f; destruct (f k) end; done.
  - rewrite (word_testbit b3) by (done || lia).
    rewrite !(testbit_above 32 _ i) by lia. rewrite !andb_false_r. zcases; lia || done.
Qed.

Lemma extend_old n W t : (t < length W)%nat -> nth t (Fips.extend n W) 0 = nth t W 0.
Proof.
  revert W. induction n as [|n IH]; intros W Ht; cbn [Fips.extend]; [done|].
  rewrite IH by (rewrite length_app; lia). by rewrite app_nth1.
Qed.

Lemma extend_new n W t : (16 <= length W)%nat -> (length W <= t < length W + n)%nat ->
  let w k := nth (t - k) (Fips.extend n W) 0 in
  nth t (Fips.extend n W) 0 =
  Fips.ROTL 1 (Z.lxor (w 3%nat) (Z.lxor (w 8%nat) (Z.lxor (w 14%nat) (w 16%nat)))).
Proof.
  revert W. induction n as [|n IH]; intros W Hl Ht; [lia|]. cbn [Fips.extend].
  destruct (decide (t = length W)) as [-> |].
  - cbv zeta. rewrite !extend_old by (rewrite length_app; cbn [length]; lia).
    rewrite app_nth2, Nat.sub_diag by lia. cbn [nth].
    by rewrite !app_nth1 by lia.
  - apply IH; rewrite length_app; cbn [length]; lia.
Qed.

Lemma words_length n M : length (Fips.words n M) = n.
Proof. revert M. induction n; intros; cbn; auto. Qed.

Lemma words_swapped n bs t : (4 * n <= length bs)%nat -> Forall is_u8 bs -> (t < n)%nat ->
  bswap (nth t (words_le n bs) 0) = nth t (Fips.words n bs) 0.
Proof.
  revert bs t. induction n as [|n IH]; intros bs [|t] Hl Hbs Ht; try lia; cbn [words_le Fips.words nth].
  - apply bswap_le_val; [rewrite length_take; lia | by apply Forall_take].
  - apply IH; [rewrite length_drop; lia | by apply Forall_drop | lia].
Qed.

(** A step reads and stores its word of the schedule. *)
Lemma expand_step bs block i :
  length bs = 64%nat -> Forall is_u8 bs -> 0 <= i < 80 ->
  in_place (words_le 16 bs) (Fips.schedule bs) block i ->
  let x := nth (Z.to_nat i) (Fips.schedule bs) 0 in
  expand (macro_of i) block i = (x, set_word block (Z.land i 15) x).
Proof.
  intros Hl Hbs Hi [HL Hd Ht] x.
  assert (macro_of i = R0 /\ i < 16 \/ expand (macro_of i) = blk /\ 16 <= i) as [[E ?]|[E ?]].
  { unfold macro_of. destruct (Z.ltb_spec i 16); [auto|]. right. split; [|done].
    by repeat case_match. }
  - rewrite E. cbn [expand]. unfold blk0. rewrite Ht by lia.
    rewrite land_15_mod, Z.mod_small by lia.
    fold (bswap (nth (Z.to_nat i) (words_le 16 bs) 0)).
    rewrite (words_swapped 16) by (done || lia). unfold x, Fips.schedule.
    by rewrite extend_old by (rewrite words_length; lia).
  - rewrite E. unfold blk.
    assert (forall k t, 0 <= k -> 0 < t <= 16 -> k = 16 - t ->
      word block (Z.land (i + k) 15) = nth (Z.to_nat i - Z.to_nat t) (Fips.schedule bs) 0) as Hw.
    { intros k t ? ? ->. rewrite <- Z2Nat.inj_sub by lia. rewrite <- Hd by lia. f_equal.
      rewrite !land_15_mod. replace (i + (16 - t)) with (i - t + 1 * 16) by lia. apply Z_mod_plus_full. }
    rewrite (Hw 13 3), (Hw 8 8), (Hw 2 14) by lia.
    pose proof (Hw 0 16) as Hw0. rewrite Z.add_0_r in Hw0. rewrite Hw0 by lia.
    assert (forall p, p = x -> (p, set_word block (Z.land i 15) p) = (x, set_word block (Z.land i 15) x))
      as Heq by (by intros ? ->). apply Heq.
    rewrite rol_ROTL by lia. unfold x, Fips.schedule.
    rewrite (extend_new 64 (Fips.words 16 bs) (Z.to_nat i)) by (rewrite ?words_length; lia).
    by rewrite !Z.lxor_assoc.
Qed.

Lemma u32_sum z m x k r :
  u32 (z + u32 (u32 (u32 (m + x) + k) + r)) = (r + m + z + k + x) mod 2 ^ 32.
Proof.
  unfold u32. change (2 ^ 32) with 4294967296.
  repeat rewrite ?Z.add_mod_idemp_r, ?Z.add_mod_idemp_l, ?Z.add_assoc by done.
  rewrite (Z.add_comm z), <- Z.add_assoc, Z.add_mod_idemp_l by done. f_equal. lia.
Qed.

(** One step, for any assignment of the five roles. *)
Lemma run_step_round bs s block i v w x y z :
  length bs = 64%nat -> Forall is_u8 bs -> 0 <= i < 80 -> NoDup [v; w; x; y; z] ->
  in_place (words_le 16 bs) (Fips.schedule bs) block i ->
  exists s' block', run_step (Step (macro_of i) v w x y z i) (s, block) = (s', block') /\
    view s' z v w x y = Fips.round (Fips.schedule bs) (view s v w x y z) (Z.to_nat i) /\
    in_place (words_le 16 bs) (Fips.schedule bs) block' (i + 1).
Proof.
  intros Hl Hbs Hi Hnd Hip. pose proof (expand_step bs block i Hl Hbs Hi Hip) as Hx. cbv zeta in Hx.
  unfold run_step. cbn [op rv rw rx ry rz idx]. rewrite Hx.
  eexists _, _. split; [reflexivity|]. split; [|by apply in_place_step; [lia | |]].
  rewrite !NoDup_cons, !not_elem_of_cons in Hnd. destruct Hnd as ((?&?&?&?&_)&(?&?&?&_)&(?&?&_)&(?&_)&_).
  unfold view, Fips.round.
  repeat first [rewrite get_set_eq | rewrite get_set_ne by congruence]. rewrite Z2Nat.id by lia.
  by rewrite u32_sum, mix_f, constant_K, !rol_ROTL by lia.
Qed.

(** The variables by the roles they have after [n] steps. *)
Fixpoint view_after (n : nat) (s : vars) (v w x y z : var) : Fips.hash :=
  match n with O => view s v w x y z | S n => view_after n s z v w x y end.

Lemma run_rounds bs n s block i v w x y z :
  length bs = 64%nat -> Forall is_u8 bs -> 0 <= i -> i + Z.of_nat n <= 80 -> NoDup [v; w; x; y; z] ->
  in_place (words_le 16 bs) (Fips.schedule bs) block i ->
  exists s' block',
    foldl (fun s t => run_step t s) (s, block) (rounds_from n i v w x y z) = (s', block') /\
    view_after n s' v w x y z =
    foldl (Fips.round (Fips.schedule bs)) (view s v w x y z) (seq (Z.to_nat i) n).
Proof.
  intros Hl Hbs. revert s block i v w x y z.
  induction n as [|n IH]; intros s block i v w x y z Hi Hn Hnd Hip; cbn [rounds_from foldl seq].
  { by eexists _, _. }
  destruct (run_step_round bs s block i v w x y z) as (s1 & block1 & -> & Hv & Hip1); try (done || lia).
  rewrite <- Hv, <- Z2Nat.inj_succ by done.
  apply (IH s1 block1 (i + 1) z v w x y); try (done || lia).
  apply (NoDup_Permutation_proper _ [v; w; x; y; z]); [|done]. symmetry.
  by rewrite <- (Permutation_cons_append [v; w; x; y] z).
Qed.

Definition words_of (h : Fips.hash) : list Z :=
  [Fips.H0 h; Fips.H1 h; Fips.H2 h; Fips.H3 h; Fips.H4 h].

Lemma in_place_init raw W : length raw = 16%nat -> in_place raw W raw 0.
Proof. split; [done | lia | done]. Qed.

Lemma words_le_length n bs : length (words_le n bs) = n.
Proof. revert bs. induction n; intros; cbn; auto. Qed.

Lemma SHA1Transform_compress h bs : length bs = 64%nat -> Forall is_u8 bs ->
  SHA1Transform (words_of h) bs = words_of (Fips.compress h bs).
Proof.
  intros Hl Hbs. unfold SHA1Transform, Fips.compress. rewrite rounds_eq.
  destruct (run_rounds bs 80 (Vars (Fips.H0 h) (Fips.H1 h) (Fips.H2 h) (Fips.H3 h) (Fips.H4 h))
    (words_le 16 bs) 0 a b c d e Hl Hbs) as (s & block & E & Hv).
  - lia.
  - lia.
  - apply (bool_decide_unpack _). by vm_compute.
  - apply in_place_init, words_le_length.
  - set (W := Fips.schedule bs) in *. clearbody W.
    set (raw := words_le 16 bs) in *. clearbody raw.
    cbv [words_of word Z.to_nat Pos.to_nat Pos.iter_op nth Nat.add].
    rewrite E. change (view_after 80 s a b c d e) with (view s a b c d e) in Hv.
    change (Z.to_nat 0) with 0%nat in Hv.
    replace (view (Vars (Fips.H0 h) (Fips.H1 h) (Fips.H2 h) (Fips.H3 h) (Fips.H4 h)) a b c d e)
      with h in Hv by (by destruct h). rewrite <- Hv. by destruct s.
Qed.

(** ** The message in pieces *)

Lemma process_add n k h M :
  Fips.process (n + k) h M = Fips.process k (Fips.process n h M) (drop (64 * n) M).
Proof.
  revert h M. induction n as [|n IH]; intros h M; cbn [Fips.process Nat.add]; [done|].
  rewrite IH, drop_drop. do 2 f_equal. lia.
Qed.

Lemma process_app n h M N : (64 * n <= length M)%nat -> Fips.process n h (M ++ N) = Fips.process n h M.
Proof.
  revert h M. induction n as [|n IH]; intros h M Hn; cbn [Fips.process]; [done|].
  rewrite take_app_le, drop_app_le by lia. apply IH. rewrite length_drop. lia.
Qed.

Lemma process_snoc n h M : Fips.process (S n) h M =
  Fips.compress (Fips.process n h M) (take 64 (drop (64 * n) M)).
Proof. by rewrite <- Nat.add_1_r, process_add. Qed.

(** A context that has taken in [M]. *)
Record taken (M : list Z) (ctx : SHA1_CTX) : Prop := {
  tk_u8 : Forall is_u8 M;
  tk_state : state ctx = words_of (Fips.process (length M / 64) Fips.init M);
  tk_length : length (buffer ctx) = 64%nat;
  tk_buffer : take (length M mod 64) (buffer ctx) = drop (64 * (length M / 64)) M;
  tk_count0 : count0 ctx = (8 * Z.of_nat (length M)) mod 2 ^ 32;
  tk_count1 : count1 ctx = (8 * Z.of_nat (length M) / 2 ^ 32) mod 2 ^ 32;
}.

Lemma SHA1Init_taken fresh : length fresh = 64%nat -> taken [] (SHA1Init fresh).
Proof. intros H. by split. Qed.

Lemma bytes_at_eq data i n : (i + n <= length data)%nat ->
  bytes_at data (Z.of_nat i) (Z.of_nat n) = Some (take n (drop i data)).
Proof.
  intros H. unfold bytes_at. rewrite !Nat2Z.id. 
  rewrite (proj2 (Z.leb_le 0 _)), (proj2 (Z.leb_le 0 (Z.of_nat n))), (proj2 (Z.leb_le _ _)) by lia. done.
Qed.

Lemma memcpy_eq buf j bs : (j + length bs <= length buf)%nat ->
  memcpy buf (Z.of_nat j) bs = Some (take j buf ++ bs ++ drop (j + length bs) buf).
Proof.
  intros H. unfold memcpy. rewrite !Nat2Z.id.
  by rewrite (proj2 (Z.leb_le 0 _)), (proj2 (Z.leb_le _ _)) by lia.
Qed.

Lemma memcpy_overrun buf j bs : Z.of_nat (length buf) < j + Z.of_nat (length bs) -> memcpy buf j bs = None.
Proof. intros H. unfold memcpy. by rewrite (proj2 (Z.leb_gt _ _) H), andb_false_r. Qed.

(** The counter is the length in bits, modulo 2^64. *)
Lemma count_update (L n : Z) : 0 <= L -> 0 <= n < 2 ^ 29 ->
  let c0 := (8 * L) mod 2 ^ 32 in
  let c0' := u32 (c0 + u32 (Z.shiftl n 3)) in
  c0' = (8 * (L + n)) mod 2 ^ 32 /\
  (if c0' <? c0 then u32 ((8 * L / 2 ^ 32) mod 2 ^ 32 + (Z.shiftr n 29 + 1)) else (8 * L / 2 ^ 32) mod 2 ^ 32)
  = (8 * (L + n) / 2 ^ 32) mod 2 ^ 32.
Proof.
  intros HL Hn c0 c0'. unfold c0', c0.
  rewrite Z.shiftl_mul_pow2, Z.shiftr_div_pow2, (Z.div_small n) by lia.
  unfold u32. change (2 ^ 32) with 4294967296 in *. change (2 ^ 29) with 536870912 in *.
  change (2 ^ 3) with 8. rewrite (Z.mod_small (n * 8)) by lia.
  replace (8 * (L + n)) with (8 * L + n * 8) by lia.
  rewrite Z.add_mod_idemp_l by done. split; [done|].
  pose proof (Z.div_mod (8 * L) 4294967296 ltac:(done)) as E.
  pose proof (Z.mod_pos_bound (8 * L) 4294967296 ltac:(done)) as B.
  set (q := 8 * L / 4294967296) in *. set (r := (8 * L) mod 4294967296) in *.
  destruct (decide (r + n * 8 < 4294967296)).
  - rewrite <- (Z.mod_unique (8 * L + n * 8) 4294967296 q (r + n * 8)) by lia.
    rewrite <- (Z.div_unique (8 * L + n * 8) 4294967296 q (r + n * 8)) by lia.
    destruct (Z.ltb_spec (r + n * 8) r); [lia | done].
  - rewrite <- (Z.mod_unique (8 * L + n * 8) 4294967296 (q + 1) (r + n * 8 - 4294967296)) by lia.
    rewrite <- (Z.div_unique (8 * L + n * 8) 4294967296 (q + 1) (r + n * 8 - 4294967296)) by lia.
    destruct (Z.ltb_spec (r + n * 8 - 4294967296) r); [|lia].
    by rewrite Z.add_mod_idemp_l.
Qed.

(** The blocks that lie in [data], when [M] came before it. *)
Lemma blocks_loop_eq M data fuel q i :
  Forall is_u8 (M ++ data) -> Z.of_nat (length data) < 2 ^ 29 ->
  (length M + i = 64 * q)%nat -> (i <= length data)%nat -> (length data - i < 64 * fuel)%nat ->
  let Q := (length (M ++ data) / 64)%nat in
  blocks_loop fuel data (Z.of_nat (length data)) (Z.of_nat i) (words_of (Fips.process q Fips.init (M ++ data)))
  = Some (words_of (Fips.process Q Fips.init (M ++ data)), Z.of_nat (64 * Q - length M)).
Proof.
  intros Hu Hlen. revert q i. induction fuel as [|fuel IH]; intros q i Hq Hi Hf Q; [lia|].
  cbn [blocks_loop]. change (2 ^ 29) with 536870912 in Hlen.
  rewrite !u32_id by (unfold is_u32; lia).
  assert (length (M ++ data) = length M + length data)%nat as HL by apply length_app.
  destruct (Z.ltb_spec (Z.of_nat i + 63) (Z.of_nat (length data))).
  - change 64 with (Z.of_nat 64) at 1 2. rewrite bytes_at_eq by lia. cbn [mbind option_bind].
    rewrite SHA1Transform_compress.
    + rewrite <- Nat2Z.inj_add.
      replace (take 64 (drop i data)) with (take 64 (drop (64 * q) (M ++ data))).
      { rewrite <- process_snoc. apply IH; lia. }
      rewrite drop_app_ge by lia. do 2 f_equal. lia.
    + rewrite length_take, length_drop. lia.
    + apply Forall_take, Forall_drop. by apply Forall_app in Hu as [_ ?].
  - replace Q with q; [do 2 f_equal; lia|]. unfold Q. rewrite HL.
    apply Nat.div_unique with (r := (length data - i)%nat); lia.
Qed.

Lemma buffered L : 0 <= L -> Z.land (Z.shiftr ((8 * L) mod 2 ^ 32) 3) 63 = L mod 64.
Proof.
  intros HL. rewrite (land_pow2_mask _ 6), Z.shiftr_div_pow2 by lia.
  change (2 ^ 32) with (8 * 2 ^ 29). change (2 ^ 3) with 8. change (2 ^ 6) with 64.
  rewrite Z.mul_mod_distr_l, Z.mul_comm, Z.div_mul by lia.
  rewrite (Z.div_mod L (2 ^ 29)) at 2 by done.
  change (2 ^ 29) with (8388608 * 64) at 2.
  rewrite Z.add_comm, Z.mul_comm, Z.mul_assoc, Z.mod_add by lia. done.
Qed.

(** What [SHA1Update] does between the counter and the last copy: it hashes the blocks
    that are complete, and leaves the position of the rest in [data] and in the buffer. *)
Definition absorb (ctx : SHA1_CTX) (data : list Z) (j : Z) : option (list Z * list Z * Z * Z) :=
  let len := Z.of_nat (length data) in
  if 63 <? u32 (j + len) then
    let i := 64 - j in
    bs ← bytes_at data 0 i;
    buf ← memcpy (buffer ctx) j bs;
    let st := SHA1Transform (state ctx) buf in
    '(st, i) ← blocks_loop (S (length data)) data len i st;
    Some (st, buf, i, 0)
  else Some (state ctx, buffer ctx, 0, j).

Lemma absorb_eq M data ctx : taken M ctx -> Forall is_u8 data -> Z.of_nat (length data) < 2 ^ 29 ->
  let Q := (length (M ++ data) / 64)%nat in
  exists buf i j, absorb ctx data (Z.of_nat (length M mod 64)) =
    Some (words_of (Fips.process Q Fips.init (M ++ data)), buf, Z.of_nat i, Z.of_nat j) /\
    length buf = 64%nat /\ (i <= length data)%nat /\ (j + (length data - i) = length (M ++ data) mod 64)%nat /\
    take j buf ++ drop i data = drop (64 * Q) (M ++ data).
Proof.
  intros [Hu Hs HL Hb _ _] Hd Hlen Q. unfold absorb. change (2 ^ 29) with 536870912 in Hlen.
  assert (length (M ++ data) = length M + length data)%nat as HA by apply length_app.
  pose proof (Nat.div_mod_eq (length M) 64) as EM. pose proof (Nat.mod_upper_bound (length M) 64) as BM.
  set (q := (length M / 64)%nat) in *. set (r := (length M mod 64)%nat) in *.
  rewrite u32_id by (unfold is_u32; lia).
  destruct (Z.ltb_spec 63 (Z.of_nat r + Z.of_nat (length data))).
  - replace (64 - Z.of_nat r) with (Z.of_nat (64 - r)) by lia.
    change 0 with (Z.of_nat 0). rewrite bytes_at_eq by lia. rewrite drop_0. cbn [mbind option_bind].
    rewrite memcpy_eq by (rewrite length_take; lia). cbn [mbind option_bind].
    rewrite length_take, drop_ge, app_nil_r by lia.
    assert (take r (buffer ctx) ++ take (64 - r) data = take 64 (drop (64 * q) (M ++ data))) as HB.
    { rewrite Hb, drop_app_le, take_app, length_drop by lia. f_equal; [|f_equal; lia].
      rewrite take_ge; [done|]. rewrite length_drop. lia. }
    rewrite HB, Hs, <- (process_app q Fips.init M data) by lia.
    rewrite SHA1Transform_compress; cycle 1.
    { rewrite length_take, length_drop. lia. }
    { apply Forall_take, Forall_drop, Forall_app_2; done. }
    rewrite <- process_snoc, (blocks_loop_eq M data _ (S q)).
    2: by apply Forall_app_2. 2-5: lia.
    cbn [mbind option_bind].
    fold Q. pose proof (Nat.div_mod_eq (length (M ++ data)) 64) as EA. fold Q in EA.
    pose proof (Nat.mod_upper_bound (length (M ++ data)) 64).
    assert (S q <= Q)%nat. { apply Nat.div_le_lower_bound; lia. }
    eexists _, (64 * Q - length M)%nat, 0%nat. split; [reflexivity|].
    split; [rewrite length_take, length_drop; lia|]. split; [lia|]. split; [lia|].
    rewrite take_0, drop_app_ge by lia. done.
  - assert (Q = q) as HQ. { symmetry. apply Nat.div_unique with (r := (r + length data)%nat); lia. }
    eexists _, 0%nat, r. split; [by rewrite HQ, process_app, <- Hs by lia|].
    split; [done|]. split; [lia|]. split.
    { rewrite Nat.sub_0_r. apply Nat.mod_unique with (q := q); lia. }
    rewrite drop_0, HQ, drop_app_le by lia. by rewrite Hb.
Qed.

Lemma taken_update M data ctx : taken M ctx -> Forall is_u8 data -> Z.of_nat (length data) < 2 ^ 29 ->
  exists ctx', SHA1Update ctx data = Some ctx' /\ taken (M ++ data) ctx'.
Proof.
  intros Ht Hd Hlen. destruct (absorb_eq M data ctx Ht Hd Hlen) as (buf & i & j & Ea & HB & Hi & Hj & Hrest).
  destruct Ht as [Hu _ _ _ Hc0 Hc1]. unfold SHA1Update. cbv zeta.
  pose proof (count_update (Z.of_nat (length M)) (Z.of_nat (length data))) as [E0 E1]; [lia | lia |].
  rewrite Hc0, Hc1, E1, E0, buffered, <- Nat2Z.inj_add, <- length_app by lia.
  rewrite <- (Nat2Z.inj_mod _ 64). fold (absorb ctx data (Z.of_nat (length M mod 64))).
  rewrite Ea. cbn [mbind option_bind]. change (2 ^ 29) with 536870912 in Hlen.
  rewrite u32_id, <- Nat2Z.inj_sub, bytes_at_eq by (unfold is_u32; lia). cbn [mbind option_bind].
  pose proof (Nat.mod_upper_bound (length (M ++ data)) 64).
  rewrite (take_ge (drop i data)) by (rewrite length_drop; lia).
  rewrite memcpy_eq by (rewrite length_drop; lia). cbn [mbind option_bind].
  eexists. split; [reflexivity|]. split; cbn [state buffer count0 count1]; try done.
  - by apply Forall_app_2.
  - rewrite !length_app, length_take, !length_drop. lia.
  - rewrite <- Hrest, app_assoc, take_app_length'; [done|].
    rewrite (length_app (take _ _)), length_take, length_drop. lia.
Qed.

(** ** Padding and digest *)

Lemma u8_zero : Forall is_u8 [0].
Proof. by apply u8_list_check. Qed.

Lemma land_504 x : Z.land x 504 = 8 * Z.land (Z.shiftr x 3) 63.
Proof.
  rewrite (Z.mul_comm 8), <- (Z.shiftl_mul_pow2 _ 3) by lia. bitwise.
  destruct (Z.le_gt_cases 3 i).
  - rewrite Z.shiftr_spec, Z.sub_add by lia. f_equal.
    destruct (decide (i < 9)); [cases_below i 9; lia || done|].
    rewrite !(testbit_above 9) by lia. rewrite (testbit_above 6) by lia. done.
  - rewrite !(Z.testbit_neg_r _ (i - 3)) by lia. cases_below i 3; lia || by rewrite andb_false_r.
Qed.

Lemma pad_loop_eq fuel M ctx : taken M ctx -> (((55 - Z.of_nat (length M)) + 1) mod 64 < Z.of_nat fuel) ->
  exists ctx', pad_loop fuel ctx = Some ctx' /\
    taken (M ++ replicate (Z.to_nat ((56 - Z.of_nat (length M)) mod 64)) 0) ctx'.
Proof.
  revert M ctx. induction fuel as [|fuel IH]; intros M ctx Ht Hf.
  { pose proof (Z.mod_pos_bound (55 - Z.of_nat (length M) + 1) 64). lia. }
  cbn [pad_loop]. set (L := Z.of_nat (length M)) in *.
  replace (55 - L + 1) with (56 - L) in Hf by lia.
  assert (Z.land (count0 ctx) 504 = 8 * (L mod 64)) as HB.
  { rewrite (tk_count0 _ _ Ht). fold L. rewrite <- buffered by lia. apply land_504. }
  rewrite HB. pose proof (Z.mod_pos_bound L 64). pose proof (Z.div_mod L 64 ltac:(done)).
  destruct (Z.eqb_spec (8 * (L mod 64)) 448); cbn [negb].
  - exists ctx. split; [done|].
    replace ((56 - L) mod 64) with 0; [by rewrite app_nil_r|].
    apply Z.mod_unique with (q := - (L / 64)); lia.
  - destruct (taken_update M [0] ctx Ht u8_zero) as (ctx1 & -> & Ht1); [done|]. cbn [mbind option_bind].
    assert ((56 - (L + 1)) mod 64 = (56 - L) mod 64 - 1) as EZ.
    { symmetry. pose proof (Z.mod_pos_bound (56 - L) 64). pose proof (Z.div_mod (56 - L) 64 ltac:(done)).
      assert ((56 - L) mod 64 <> 0) by lia.
      apply Z.mod_unique with (q := (56 - L) / 64); lia. }
    assert (Z.of_nat (length (M ++ [0])) = L + 1) as EL by (rewrite length_app; cbn; lia).
    destruct (IH (M ++ [0]) ctx1 Ht1) as (ctx2 & E2 & Ht2).
    { rewrite EL. replace (55 - (L + 1) + 1) with (56 - (L + 1)) by lia. lia. }
    exists ctx2. split; [done|]. rewrite EL, EZ, <- app_assoc in Ht2.
    pose proof (Z.mod_pos_bound (56 - L) 64). pose proof (Z.div_mod (56 - L) 64 ltac:(done)).
    replace (Z.to_nat ((56 - L) mod 64)) with (S (Z.to_nat ((56 - L) mod 64 - 1))) by lia. done.
Qed.

Lemma byte_of_eq x i k : i = 3 - k \/ i = 7 - k -> 0 <= k < 4 ->
  byte_of (x mod 2 ^ 32) i = u8 (x / 256 ^ k).
Proof.
  intros Hi Hk. unfold byte_of.
  replace ((3 - Z.land i 3) * 8) with (8 * k)
    by (destruct Hi as [-> | ->]; cases_below k 4; lia || done).
  change 256 with (2 ^ 8). rewrite <- Z.pow_mul_r, <- Z.shiftr_div_pow2 by lia.
  change (x mod 2 ^ 32) with (u32 x). bitwise.
  destruct (Z.ltb_spec i0 8).
  - rewrite (proj2 (Z.ltb_lt (i0 + 8 * k) 32)) by lia. cases_below i0 8; lia || by rewrite andb_true_r.
  - by rewrite (testbit_above 8 255), andb_false_r by lia.
Qed.

Lemma le_bytes_map n x : le_bytes n x = (fun k => u8 (x / 256 ^ k)) <$> seqZ 0 (Z.of_nat n).
Proof.
  revert x. induction n as [|n IH]; intros x; [done|].
  rewrite seqZ_cons by lia. cbn [le_bytes]. rewrite IH, Nat2Z.inj_succ.
  change (Z.succ 0) with (0 + 1). rewrite Z.pred_succ, <- (fmap_add_seqZ 1 0).
  cbn [fmap list_fmap]. f_equal; [by rewrite Z.div_1_r|].
  rewrite <- list_fmap_compose. apply list_fmap_ext. intros ? k Hk. apply lookup_seqZ in Hk. cbn.
  rewrite Z.div_div by lia. f_equal. f_equal. rewrite Z.pow_add_r; lia.
Qed.

(** The counter as [SHA1Final] stores it. *)
Lemma finalcount_eq X :
  ((fun i => byte_of (if 4 <=? i then X mod 2 ^ 32 else (X / 2 ^ 32) mod 2 ^ 32) i) <$> seqZ 0 8) =
  Fips.be_bytes 8 X.
Proof.
  unfold Fips.be_bytes. rewrite le_bytes_map. change (Z.of_nat 8) with 8.
  change (seqZ 0 8) with [0; 1; 2; 3; 4; 5; 6; 7]. cbn [fmap list_fmap rev app].
  repeat match goal with |- context [4 <=? ?k] =>
    let v := eval vm_compute in (4 <=? k) in change (4 <=? k) with v end. cbv iota.
  assert (forall i k, 0 <= k < 4 -> i = 3 - k ->
    byte_of ((X / 2 ^ 32) mod 2 ^ 32) i = u8 (X / 256 ^ (4 + k))) as Hhi.
  { intros i k Hk ->. rewrite (byte_of_eq _ _ k) by lia. rewrite Z.div_div by lia.
    by rewrite (Z.pow_add_r 256 4 k) by lia. }
  rewrite (Hhi 0 3), (Hhi 1 2), (Hhi 2 1), (Hhi 3 0) by lia.
  by rewrite (byte_of_eq X 4 3), (byte_of_eq X 5 2), (byte_of_eq X 6 1), (byte_of_eq X 7 0) by lia.
Qed.

Lemma hash_u32 n M : is_u32 (Fips.H0 (Fips.process n Fips.init M)) /\ is_u32 (Fips.H1 (Fips.process n Fips.init M)) /\
  is_u32 (Fips.H2 (Fips.process n Fips.init M)) /\ is_u32 (Fips.H3 (Fips.process n Fips.init M)) /\
  is_u32 (Fips.H4 (Fips.process n Fips.init M)).
Proof.
  destruct n as [|n]; [done|]. rewrite process_snoc. unfold Fips.compress, Fips.add.
  repeat split; apply Z.mod_pos_bound; lia.
Qed.

Lemma digest_word x : is_u32 x ->
  [byte_of x 0; byte_of x 1; byte_of x 2; byte_of x 3] = Fips.be_bytes 4 x.
Proof.
  intros Hx. unfold Fips.be_bytes. rewrite le_bytes_map. change (Z.of_nat 4) with 4.
  change (seqZ 0 4) with [0; 1; 2; 3]. cbn [fmap list_fmap rev app].
  rewrite <- (Z.mod_small x (2 ^ 32)) at 1 2 3 4 by done.
  by rewrite (byte_of_eq x 0 3), (byte_of_eq x 1 2), (byte_of_eq x 2 1), (byte_of_eq x 3 0) by lia.
Qed.

Lemma digest_eq n M : let h := Fips.process n Fips.init M in
  ((fun i => byte_of (word (words_of h) (Z.shiftr i 2)) i) <$> seqZ 0 20) = Fips.bytes h.
Proof.
  pose proof (hash_u32 n M) as (?&?&?&?&?). intros h. fold h in H, H0, H1, H2, H3.
  unfold Fips.bytes. rewrite <- !digest_word by done. reflexivity.
Qed.

Lemma pad_length M : exists n, length (Fips.pad M) = (64 * n)%nat.
Proof.
  unfold Fips.pad, Fips.be_bytes. rewrite !length_app, length_replicate, length_rev, length_le_bytes.
  cbn [length]. set (L := Z.of_nat (length M)).
  pose proof (Z.mod_pos_bound (55 - L) 64). pose proof (Z.div_mod (55 - L) 64 ltac:(done)).
  exists (Z.to_nat (1 - (55 - L) / 64)). lia.
Qed.

Lemma SHA1Final_eq M ctx : taken M ctx -> exists ctx', SHA1Final ctx = Some (Fips.sha1 M, ctx').
Proof.
  intros Ht. unfold SHA1Final. rewrite (tk_count0 _ _ Ht), (tk_count1 _ _ Ht), finalcount_eq.
  destruct (taken_update M [128] ctx Ht) as (ctx1 & -> & Ht1); [by apply u8_list_check | done |].
  cbn [mbind option_bind].
  assert (Z.of_nat (length (M ++ [128])) = Z.of_nat (length M) + 1) as EL by (rewrite length_app; cbn; lia).
  destruct (pad_loop_eq 64 _ _ Ht1) as (ctx2 & -> & Ht2); [by apply Z.mod_pos_bound|].
  cbn [mbind option_bind]. rewrite EL in Ht2.
  replace (56 - (Z.of_nat (length M) + 1)) with (55 - Z.of_nat (length M)) in Ht2 by lia.
  destruct (taken_update _ (Fips.be_bytes 8 (8 * Z.of_nat (length M))) ctx2 Ht2) as (ctx3 & -> & Ht3).
  { apply Forall_rev, le_bytes_u8. }
  { unfold Fips.be_bytes. by rewrite length_rev, length_le_bytes. }
  cbn [mbind option_bind]. rewrite <- !app_assoc in Ht3. fold (Fips.pad M) in Ht3.
  exists ctx3. rewrite (tk_state _ _ Ht3), digest_eq. done.
Qed.

(** The context after the pieces of a message. *)
Definition SHA1Pieces (ctx : SHA1_CTX) (pieces : list (list Z)) : option SHA1_CTX :=
  foldl (fun ctx data => ctx ← ctx; SHA1Update ctx data) (Some ctx) pieces.

Lemma SHA1Pieces_taken M ctx pieces : taken M ctx ->
  Forall (fun data => Forall is_u8 data /\ Z.of_nat (length data) < 2 ^ 29) pieces ->
  exists ctx', SHA1Pieces ctx pieces = Some ctx' /\ taken (M ++ concat pieces) ctx'.
Proof.
  intros Ht Hp. revert M ctx Ht. induction Hp as [|data pieces [Hd Hl] _ IH]; intros M ctx Ht.
  { exists ctx. by rewrite app_nil_r. }
  destruct (taken_update M data ctx Ht Hd Hl) as (ctx1 & E & Ht1).
  destruct (IH _ _ Ht1) as (ctx2 & E2 & Ht2). exists ctx2.
  unfold SHA1Pieces in *. cbn [foldl concat mbind option_bind]. rewrite E. by rewrite app_assoc.
Qed.

(** (C18) The digest of a message given in any pieces of less than 2^29 bytes is the one
    FIPS 180 defines for their concatenation; no copy leaves its buffer, and the padding
    loop ends. *)
Theorem SHA1_is_FIPS_180 fresh pieces :
  length fresh = 64%nat ->
  Forall (fun data => Forall is_u8 data /\ Z.of_nat (length data) < 2 ^ 29) pieces ->
  exists ctx ctx', SHA1Pieces (SHA1Init fresh) pieces = Some ctx /\
    SHA1Final ctx = Some (Fips.sha1 (concat pieces), ctx').
Proof.
  intros Hf Hp. destruct (SHA1Pieces_taken [] _ pieces (SHA1Init_taken fresh Hf) Hp) as (ctx & E & Ht).
  destruct (SHA1Final_eq _ _ Ht) as (ctx' & E'). by exists ctx, ctx'.
Qed.

(** The first test vector of the standard, in two pieces. *)
Lemma SHA1_is_FIPS_180_witness :
  (exists ctx ctx', SHA1Pieces (SHA1Init (replicate 64 0)) [[97; 98]; [99]] = Some ctx /\
    SHA1Final ctx = Some (Fips.sha1 [97; 98; 99], ctx')) /\
  Fips.sha1 [97; 98; 99] =
    [0xA9; 0x99; 0x3E; 0x36; 0x47; 0x06; 0x81; 0x6A; 0xBA; 0x3E;
     0x25; 0x71; 0x78; 0x50; 0xC2; 0x6C; 0x9C; 0xD0; 0xD8; 0x9D].
Proof.
  split; [|vm_compute; reflexivity].
  apply (SHA1_is_FIPS_180 (replicate 64 0) [[97; 98]; [99]]).
  - reflexivity.
  - repeat constructor; vm_compute; (intros [=] || reflexivity).
Defined.

(** ** The identifier *)

Lemma sha1_hash_eq fresh namespace name : length fresh = 64%nat ->
  Forall is_u8 namespace -> Forall is_u8 name ->
  Z.of_nat (length namespace) < 2 ^ 29 -> Z.of_nat (length name) < 2 ^ 29 ->
  sha1_hash fresh namespace name = Some (Fips.sha1 (namespace ++ name)).
Proof.
  intros Hf Hn Hm Hln Hlm. unfold sha1_hash.
  destruct (taken_update [] namespace _ (SHA1Init_taken fresh Hf) Hn Hln) as (c1 & -> & H1).
  cbn [mbind option_bind]. destruct (taken_update _ name _ H1 Hm Hlm) as (c2 & -> & H2).
  cbn [mbind option_bind]. by destruct (SHA1Final_eq _ _ H2) as (c3 & ->).
Qed.

Lemma be_bytes_length n x : length (Fips.be_bytes n x) = n.
Proof. unfold Fips.be_bytes. by rewrite length_rev, length_le_bytes. Qed.

Lemma sha1_bytes M : length (Fips.sha1 M) = 20%nat /\ Forall is_u8 (Fips.sha1 M).
Proof.
  unfold Fips.sha1, Fips.bytes. rewrite !length_app, !be_bytes_length.
  split; [done|]. rewrite !Forall_app. repeat split; apply Forall_rev, le_bytes_u8.
Qed.

Lemma le_val_1 x : le_val [x] = x.
Proof. cbn. lia. Qed.

Ltac u8s := repeat (apply Forall_cons_2; [done|]); apply Forall_nil_2.

Lemma le_bytes_of n bs : length bs = n -> Forall is_u8 bs -> le_bytes n (le_val bs) = bs.
Proof. intros <-. apply le_bytes_val. Qed.

Lemma ntohl_stored x y z t : is_u8 x -> is_u8 y -> is_u8 z -> is_u8 t ->
  le_bytes 4 (ntohl (le_val [x; y; z; t])) = [t; z; y; x].
Proof.
  intros. unfold ntohl. rewrite (le_bytes_of 4 [x; y; z; t]) by (done || u8s).
  apply le_bytes_of; [done | u8s].
Qed.

Lemma ntohs_le_val x y bs : is_u8 x -> is_u8 y -> ntohs (le_val (x :: y :: bs)) = le_val [y; x].
Proof.
  intros Hx Hy. unfold ntohs. replace (u16 (le_val (x :: y :: bs))) with (le_val [x; y]).
  - by rewrite (le_bytes_of 2 [x; y]) by (done || u8s).
  - unfold is_u8 in *. apply Z.mod_unique with (q := le_val bs); cbn [le_val]; lia.
Qed.

Lemma time_mid_stored x y bs : is_u8 x -> is_u8 y ->
  le_bytes 4 (ntohs (le_val (x :: y :: bs))) = [y; x; 0; 0].
Proof.
  intros. rewrite ntohs_le_val by done. rewrite <- (le_bytes_of 4 [y; x; 0; 0]) by (done || u8s). done.
Qed.

Lemma time_hi_stored x y bs : is_u8 x -> is_u8 y ->
  le_bytes 2 (ntohs (le_val (x :: y :: bs))) = [y; x].
Proof. intros. rewrite ntohs_le_val by done. apply le_bytes_of; [done | u8s]. Qed.

Lemma land_cons x v m : is_u8 x -> Z.land (x + 256 * v) (255 + 256 * m) = x + 256 * Z.land v m.
Proof.
  intros Hx. bitwise. rewrite !byte_cons_testbit by done. rewrite Z.land_spec.
  destruct (Z.ltb_spec i 8); [|done]. cases_below i 8; lia || by rewrite andb_true_r.
Qed.

Lemma lor_cons x v m : is_u8 x -> Z.lor (x + 256 * v) (0 + 256 * m) = x + 256 * Z.lor v m.
Proof.
  intros Hx. bitwise. rewrite !byte_cons_testbit by done. rewrite Z.lor_spec.
  destruct (Z.ltb_spec i 8); [|done]. by rewrite Z.bits_0, orb_false_r.
Qed.

(** The version bits, in the high byte. *)
Lemma version_stored x y : is_u8 x -> is_u8 y ->
  le_bytes 2 (Z.land (le_val [x; y]) 0x0FFF) = [x; Z.land y 15] /\
  le_bytes 2 (Z.lor (le_val [x; Z.land y 15]) (Z.shiftl 5 12)) = [x; Z.lor (Z.land y 15) 80].
Proof.
  intros Hx Hy.
  assert (0 <= Z.land y 15 < 16) by (rewrite land_15_mod; by apply Z.mod_pos_bound).
  assert (is_u8 (Z.land y 15)) by (unfold is_u8; lia).
  assert (is_u8 (Z.lor (Z.land y 15) 80)).
  { unfold is_u8. revert H. generalize (Z.land y 15). intros w Hw. cases_below w 16; lia || done. }
  cbn [le_val]. rewrite Z.mul_0_r, !Z.add_0_r. split.
  - change 0x0FFF with (255 + 256 * 15). rewrite land_cons by done.
    rewrite <- (le_bytes_of 2 [x; Z.land y 15]) by (done || u8s). cbn [le_val]. do 2 f_equal. lia.
  - change (Z.shiftl 5 12) with (0 + 256 * 80). rewrite lor_cons by done.
    rewrite <- (le_bytes_of 2 [x; Z.lor (Z.land y 15) 80]) by (done || u8s). cbn [le_val]. do 2 f_equal. lia.
Qed.

(** The variant bits, by an evaluation over the byte they are put in. *)
Lemma variant_stored x : is_u8 x ->
  le_bytes 1 (Z.land (le_val [x]) (Z.lnot (Z.shiftl 1 6))) = [Z.land x 191] /\
  le_bytes 1 (Z.lor (le_val [Z.land x 191]) (Z.shiftl 1 7)) = [Z.lor (Z.land x 191) 128].
Proof.
  intros Hx.
  assert (all_below 256 (fun x =>
    bool_decide (le_bytes 1 (Z.land (le_val [x]) (Z.lnot (Z.shiftl 1 6))) = [Z.land x 191] /\
    le_bytes 1 (Z.lor (le_val [Z.land x 191]) (Z.shiftl 1 7)) = [Z.lor (Z.land x 191) 128])) = true)
    as Hall by (vm_compute; reflexivity).
  by apply all_below_spec with (x := x), bool_decide_eq_true in Hall.
Qed.

(** The bytes that are stored for the digest [d]. *)
Definition stored_uuid (d : list Z) : list Z :=
  [word d 3; word d 2; word d 1; word d 0; word d 5; word d 4; 0; 0;
   word d 9; Z.lor (Z.land (word d 8) 15) 80; Z.lor (Z.land (word d 10) 191) 128; word d 11;
   word d 12; word d 13; word d 14; word d 15; word d 16; word d 17; word d 18; word d 19].

Ltac copy_in :=
  rewrite memcpy_eq by (cbn [length app]; lia); cbn [mbind option_bind length Nat.add];
  simpl take; simpl drop; cbn [app].

Lemma generate_uuid_eq fresh namespace name mem : length fresh = 64%nat ->
  Forall is_u8 namespace -> Forall is_u8 name ->
  Z.of_nat (length namespace) < 2 ^ 29 -> Z.of_nat (length name) < 2 ^ 29 ->
  generate_uuid fresh namespace name mem =
  if (length mem <? 20)%nat then None
  else Some (stored_uuid (Fips.sha1 (namespace ++ name)) ++ drop 20 mem).
Proof.
  intros Hf Hn Hm Hln Hlm. unfold generate_uuid. rewrite sha1_hash_eq by done. cbn [mbind option_bind].
  destruct (sha1_bytes (namespace ++ name)) as [Hl Hu]. set (d := Fips.sha1 (namespace ++ name)) in *.
  clearbody d. rewrite take_ge by (rewrite Hl; done).
  destruct (Nat.ltb_spec (length mem) 20).
  { by rewrite memcpy_overrun by lia. }
  change 0 with (Z.of_nat 0) at 1. rewrite memcpy_eq, take_0 by lia. cbn [mbind option_bind app].
  rewrite Hl. cbn [Nat.add]. set (rest := drop 20 mem). clearbody rest. clear - Hu Hl.
  do 20 (destruct d as [|? d]; [discriminate Hl|]). destruct d; [|discriminate Hl]. clear Hl.
  rewrite !Forall_cons in Hu. destruct_and? Hu. unfold load.
  change time_low_at with (Z.of_nat 0). change time_mid_at with (Z.of_nat 4).
  change time_hi_and_version_at with (Z.of_nat 8). change clk_seq_hi_res_at with (Z.of_nat 10).
  rewrite !Nat2Z.id. simpl take; simpl drop.
  rewrite ntohl_stored by done. copy_in. rewrite time_mid_stored by done. copy_in.
  rewrite time_hi_stored by done. copy_in.
  edestruct version_stored as [E1 E2]; [| |rewrite E1; copy_in; rewrite E2; copy_in; clear E1 E2]; [done..|].
  edestruct variant_stored as [E1 E2]; [|rewrite E1; copy_in; rewrite E2; copy_in]; [done|]. reflexivity.
Qed.

(** The sixteen bytes of the identifier do not come out as a version 5 UUID, and four
    more are written: bytes 6 and 7, where the version belongs, are zero for every name,
    and the last four bytes of the digest are stored past the array (over the volume name
    of the superblock); with no room there the copy is an overrun. *)
Lemma generate_uuid_overruns fresh namespace name mem : length fresh = 64%nat ->
  Forall is_u8 namespace -> Forall is_u8 name ->
  Z.of_nat (length namespace) < 2 ^ 29 -> Z.of_nat (length name) < 2 ^ 29 ->
  ((length mem < 20)%nat -> generate_uuid fresh namespace name mem = None) /\
  ((20 <= length mem)%nat -> exists uuid,
    generate_uuid fresh namespace name mem =
      Some (uuid ++ drop 16 (Fips.sha1 (namespace ++ name)) ++ drop 20 mem) /\
    length uuid = 16%nat /\ uuid !! 6%nat = Some 0 /\ uuid !! 7%nat = Some 0).
Proof.
  intros Hf Hn Hm Hln Hlm. rewrite generate_uuid_eq by done. split; intros Hl.
  - by rewrite (proj2 (Nat.ltb_lt _ _) Hl).
  - rewrite (proj2 (Nat.ltb_ge _ _) Hl).
    destruct (sha1_bytes (namespace ++ name)) as [Hd _].
    set (d := Fips.sha1 (namespace ++ name)) in *. clearbody d.
    exists (take 16 (stored_uuid d)). split; [|done].
    do 20 (destruct d as [|? d]; [discriminate Hd|]). destruct d; [reflexivity | discriminate Hd].
Qed.
