(* ===== verification/YaffsEcc.v ===== *)
(** * YAFFS single-error-correcting code

    Model of [recovery/yaffs2/yaffs2/yaffs_ecc.c]: the 22-bit Hamming code over
    a 256-byte half page ([yaffs_ECCCalculate], [yaffs_ECCCorrect]) and the
    code over an arbitrary number of bytes used for the packed tags
    ([yaffs_ECCCalculateOther], [yaffs_ECCCorrectOther]).

    A buffer is a list of bytes, an ECC the three bytes the C code stores, and
    the compile-time switch CONFIG_YAFFS_ECC_WRONG_ORDER the argument
    [wrong_order].  The functions that write through their arguments return the
    new contents of the buffers with the C result. *)

From S2P Require Import Prelude.

Definition column_parity_table : list Z :=
  [
   0x00; 0x55; 0x59; 0x0c; 0x65; 0x30; 0x3c; 0x69;
   0x69; 0x3c; 0x30; 0x65; 0x0c; 0x59; 0x55; 0x00;
   0x95; 0xc0; 0xcc; 0x99; 0xf0; 0xa5; 0xa9; 0xfc;
   0xfc; 0xa9; 0xa5; 0xf0; 0x99; 0xcc; 0xc0; 0x95;
   0x99; 0xcc; 0xc0; 0x95; 0xfc; 0xa9; 0xa5; 0xf0;
   0xf0; 0xa5; 0xa9; 0xfc; 0x95; 0xc0; 0xcc; 0x99;
   0x0c; 0x59; 0x55; 0x00; 0x69; 0x3c; 0x30; 0x65;
   0x65; 0x30; 0x3c; 0x69; 0x00; 0x55; 0x59; 0x0c;
   0xa5; 0xf0; 0xfc; 0xa9; 0xc0; 0x95; 0x99; 0xcc;
   0xcc; 0x99; 0x95; 0xc0; 0xa9; 0xfc; 0xf0; 0xa5;
   0x30; 0x65; 0x69; 0x3c; 0x55; 0x00; 0x0c; 0x59;
   0x59; 0x0c; 0x00; 0x55; 0x3c; 0x69; 0x65; 0x30;
   0x3c; 0x69; 0x65; 0x30; 0x59; 0x0c; 0x00; 0x55;
   0x55; 0x00; 0x0c; 0x59; 0x30; 0x65; 0x69; 0x3c;
   0xa9; 0xfc; 0xf0; 0xa5; 0xcc; 0x99; 0x95; 0xc0;
   0xc0; 0x95; 0x99; 0xcc; 0xa5; 0xf0; 0xfc; 0xa9;
   0xa9; 0xfc; 0xf0; 0xa5; 0xcc; 0x99; 0x95; 0xc0;
   0xc0; 0x95; 0x99; 0xcc; 0xa5; 0xf0; 0xfc; 0xa9;
   0x3c; 0x69; 0x65; 0x30; 0x59; 0x0c; 0x00; 0x55;
   0x55; 0x00; 0x0c; 0x59; 0x30; 0x65; 0x69; 0x3c;
   0x30; 0x65; 0x69; 0x3c; 0x55; 0x00; 0x0c; 0x59;
   0x59; 0x0c; 0x00; 0x55; 0x3c; 0x69; 0x65; 0x30;
   0xa5; 0xf0; 0xfc; 0xa9; 0xc0; 0x95; 0x99; 0xcc;
   0xcc; 0x99; 0x95; 0xc0; 0xa9; 0xfc; 0xf0; 0xa5;
   0x0c; 0x59; 0x55; 0x00; 0x69; 0x3c; 0x30; 0x65;
   0x65; 0x30; 0x3c; 0x69; 0x00; 0x55; 0x59; 0x0c;
   0x99; 0xcc; 0xc0; 0x95; 0xfc; 0xa9; 0xa5; 0xf0;
   0xf0; 0xa5; 0xa9; 0xfc; 0x95; 0xc0; 0xcc; 0x99;
   0x95; 0xc0; 0xcc; 0x99; 0xf0; 0xa5; 0xa9; 0xfc;
   0xfc; 0xa9; 0xa5; 0xf0; 0x99; 0xcc; 0xc0; 0x95;
   0x00; 0x55; 0x59; 0x0c; 0x65; 0x30; 0x3c; 0x69;
   0x69; 0x3c; 0x30; 0x65; 0x0c; 0x59; 0x55; 0x00].

(** [column_parity_table[b]] *)
Definition column_parity (b : Z) : Z := nth (Z.to_nat b) column_parity_table 0.

(** [while (x) { if (x & 1) r++; x >>= 1; }]; [fuel] is the width of [x]. *)
Fixpoint CountBits_loop (fuel : nat) (x r : Z) : Z :=
  match fuel with
  | O => r
  | S fuel =>
      if x =? 0 then r
      else CountBits_loop fuel (Z.shiftr x 1)
             (if truthy (Z.land x 1) then r + 1 else r)
  end.

Definition yaffs_CountBits (x : Z) : Z := CountBits_loop 8 x 0.
Definition yaffs_CountBits32 (x : Z) : Z := CountBits_loop 32 x 0.

(** Local variables of the parity loop. *)
Record parity := Parity {
  col_parity : Z;
  line_parity : Z;
  line_parity_prime : Z
}.

(** One iteration; [w] is the wrap-around of the type of the line parities
    ([u8] in [yaffs_ECCCalculate], [u32] in [yaffs_ECCCalculateOther]). *)
Definition parity_step (w : Z -> Z) (i d : Z) (p : parity) : parity :=
  let b := column_parity d in
  let col := Z.lxor (col_parity p) b in
  if truthy (Z.land b 0x01) then
    Parity col (w (Z.lxor (line_parity p) i))
               (w (Z.lxor (line_parity_prime p) (u32 (Z.lnot i))))
  else Parity col (line_parity p) (line_parity_prime p).

Fixpoint parity_loop (w : Z -> Z) (i : Z) (data : list Z) (p : parity) : parity :=
  match data with
  | [] => p
  | d :: data => parity_loop w (i + 1) data (parity_step w i d p)
  end.

Definition ecc_bytes : Type := Z * Z * Z.

(** The byte [t] built from the high (resp. low) nibbles of the line parities. *)
Definition pack_high (line_parity line_parity_prime : Z) : Z :=
  let t := 0 in
  let t := or_if (truthy (Z.land line_parity 0x80)) t 0x80 in
  let t := or_if (truthy (Z.land line_parity_prime 0x80)) t 0x40 in
  let t := or_if (truthy (Z.land line_parity 0x40)) t 0x20 in
  let t := or_if (truthy (Z.land line_parity_prime 0x40)) t 0x10 in
  let t := or_if (truthy (Z.land line_parity 0x20)) t 0x08 in
  let t := or_if (truthy (Z.land line_parity_prime 0x20)) t 0x04 in
  let t := or_if (truthy (Z.land line_parity 0x10)) t 0x02 in
  let t := or_if (truthy (Z.land line_parity_prime 0x10)) t 0x01 in
  t.

Definition pack_low (line_parity line_parity_prime : Z) : Z :=
  let t := 0 in
  let t := or_if (truthy (Z.land line_parity 0x08)) t 0x80 in
  let t := or_if (truthy (Z.land line_parity_prime 0x08)) t 0x40 in
  let t := or_if (truthy (Z.land line_parity 0x04)) t 0x20 in
  let t := or_if (truthy (Z.land line_parity_prime 0x04)) t 0x10 in
  let t := or_if (truthy (Z.land line_parity 0x02)) t 0x08 in
  let t := or_if (truthy (Z.land line_parity_prime 0x02)) t 0x04 in
  let t := or_if (truthy (Z.land line_parity 0x01)) t 0x02 in
  let t := or_if (truthy (Z.land line_parity_prime 0x01)) t 0x01 in
  t.

Definition yaffs_ECCCalculate (wrong_order : bool) (data : list Z) : ecc_bytes :=
  let p := parity_loop u8 0 (take 256 data) (Parity 0 0 0) in
  let ecc2 := u8 (Z.lor (Z.lnot (col_parity p)) 0x03) in
  let ecc1 := u8 (Z.lnot (pack_high (line_parity p) (line_parity_prime p))) in
  let ecc0 := u8 (Z.lnot (pack_low (line_parity p) (line_parity_prime p))) in
  if wrong_order then (ecc1, ecc0, ecc2) else (ecc0, ecc1, ecc2).

(** [data[byte] ^= (1 << bit)] *)
Definition flip_bit (data : list Z) (byte bit : Z) : list Z :=
  alter (fun b => Z.lxor b (Z.shiftl 1 bit)) (Z.to_nat byte) data.

Definition decode_byte (d0 d1 : Z) : Z :=
  let byte := 0 in
  let byte := or_if (truthy (Z.land d1 0x80)) byte 0x80 in
  let byte := or_if (truthy (Z.land d1 0x20)) byte 0x40 in
  let byte := or_if (truthy (Z.land d1 0x08)) byte 0x20 in
  let byte := or_if (truthy (Z.land d1 0x02)) byte 0x10 in
  let byte := or_if (truthy (Z.land d0 0x80)) byte 0x08 in
  let byte := or_if (truthy (Z.land d0 0x20)) byte 0x04 in
  let byte := or_if (truthy (Z.land d0 0x08)) byte 0x02 in
  let byte := or_if (truthy (Z.land d0 0x02)) byte 0x01 in
  byte.

Definition decode_bit (d2 : Z) : Z :=
  let bit := 0 in
  let bit := or_if (truthy (Z.land d2 0x80)) bit 0x04 in
  let bit := or_if (truthy (Z.land d2 0x20)) bit 0x02 in
  let bit := or_if (truthy (Z.land d2 0x08)) bit 0x01 in
  bit.

(** The buffer and the read ECC after the call, and the C result. *)
Definition yaffs_ECCCorrect (wrong_order : bool) (data : list Z)
    (read_ecc test_ecc : ecc_bytes) : list Z * ecc_bytes * Z :=
  let '(r0, r1, r2) := read_ecc in
  let '(t0, t1, t2) := test_ecc in
  let d0 := Z.lxor r0 t0 in
  let d1 := Z.lxor r1 t1 in
  let d2 := Z.lxor r2 t2 in
  if Z.lor (Z.lor d0 d1) d2 =? 0 then (data, read_ecc, 0)
  else if (Z.land (Z.lxor d0 (Z.shiftr d0 1)) 0x55 =? 0x55) &&
          (Z.land (Z.lxor d1 (Z.shiftr d1 1)) 0x55 =? 0x55) &&
          (Z.land (Z.lxor d2 (Z.shiftr d2 1)) 0x54 =? 0x54) then
    let '(d0, d1) := if wrong_order then (d1, d0) else (d0, d1) in
    (flip_bit data (decode_byte d0 d1) (decode_bit d2), read_ecc, 1)
  else if yaffs_CountBits d0 + yaffs_CountBits d1 + yaffs_CountBits d2 =? 1 then
    (data, test_ecc, 1)
  else (data, read_ecc, -1).

Record yaffs_ECCOther := ECCOther {
  colParity : Z;
  lineParity : Z;
  lineParityPrime : Z
}.

Definition yaffs_ECCCalculateOther (data : list Z) (nBytes : Z) : yaffs_ECCOther :=
  let p := parity_loop u32 0 (take (Z.to_nat nBytes) data) (Parity 0 0 0) in
  ECCOther (Z.land (Z.shiftr (col_parity p) 2) 0x3f)
           (line_parity p) (line_parity_prime p).

Definition decode_bit_other (cDelta : Z) : Z :=
  let bit := 0 in
  let bit := or_if (truthy (Z.land cDelta 0x20)) bit 0x04 in
  let bit := or_if (truthy (Z.land cDelta 0x08)) bit 0x02 in
  let bit := or_if (truthy (Z.land cDelta 0x02)) bit 0x01 in
  bit.

Definition yaffs_ECCCorrectOther (data : list Z) (nBytes : Z)
    (read_ecc test_ecc : yaffs_ECCOther) : list Z * yaffs_ECCOther * Z :=
  let cDelta := Z.lxor (colParity read_ecc) (colParity test_ecc) in
  let lDelta := Z.lxor (lineParity read_ecc) (lineParity test_ecc) in
  let lDeltaPrime := Z.lxor (lineParityPrime read_ecc) (lineParityPrime test_ecc) in
  if Z.lor (Z.lor cDelta lDelta) lDeltaPrime =? 0 then (data, read_ecc, 0)
  else if (lDelta =? u32 (Z.lnot lDeltaPrime)) &&
          (Z.land (Z.lxor cDelta (Z.shiftr cDelta 1)) 0x15 =? 0x15) then
    let bit := decode_bit_other cDelta in
    if nBytes <=? lDelta then (data, read_ecc, -1)
    else (flip_bit data lDelta bit, read_ecc, 1)
  else if yaffs_CountBits32 lDelta + yaffs_CountBits32 lDeltaPrime
          + yaffs_CountBits cDelta =? 1 then
    (data, test_ecc, 1)
  else (data, read_ecc, -1).

(** ** Linearity of the parity loop

    Both loops are linear over exclusive or: a change of one byte moves the
    accumulated parities by an amount that depends only on the position of the
    byte and on the changed bits. *)

Definition pxor (p q : parity) : parity :=
  Parity (Z.lxor (col_parity p) (col_parity q))
         (Z.lxor (line_parity p) (line_parity q))
         (Z.lxor (line_parity_prime p) (line_parity_prime q)).

Definition pzero : parity := Parity 0 0 0.

Lemma pxor_assoc p q r : pxor p (pxor q r) = pxor (pxor p q) r.
Proof. unfold pxor; simpl. by rewrite !Z.lxor_assoc. Qed.

Lemma pxor_comm p q : pxor p q = pxor q p.
Proof. unfold pxor. f_equal; apply Z.lxor_comm. Qed.

Lemma pxor_zero_r p : pxor p pzero = p.
Proof. destruct p; unfold pxor; simpl. by rewrite !Z.lxor_0_r. Qed.

Lemma pxor_zero_l p : pxor pzero p = p.
Proof. by rewrite pxor_comm, pxor_zero_r. Qed.

(** Table facts, checked on all 256 entries. *)
Lemma column_parity_flip d k : is_u8 d -> 0 <= k < 8 ->
  column_parity (Z.lxor d (Z.shiftl 1 k)) =
  Z.lxor (column_parity d) (column_parity (Z.shiftl 1 k)).
Proof.
  intros Hd Hk.
  assert (all_below 8 (fun k => all_below 256 (fun d =>
    column_parity (Z.lxor d (Z.shiftl 1 k)) =?
    Z.lxor (column_parity d) (column_parity (Z.shiftl 1 k)))) = true) as H
    by (vm_compute; reflexivity).
  apply all_below_spec with (x := k) in H; [|done].
  apply all_below_spec with (x := d) in H; [|done].
  by apply Z.eqb_eq.
Qed.

Lemma column_parity_range d : is_u8 d -> is_u8 (column_parity d).
Proof.
  intros Hd.
  assert (all_below 256 (fun d => (0 <=? column_parity d) && (column_parity d <? 256)) = true)
    as H by (vm_compute; reflexivity).
  apply all_below_spec with (x := d) in H; [|done]. unfold is_u8. lia.
Qed.

Lemma column_parity_bit_odd k : 0 <= k < 8 ->
  Z.testbit (column_parity (Z.shiftl 1 k)) 0 = true.
Proof.
  intros Hk.
  assert (all_below 8 (fun k => Z.testbit (column_parity (Z.shiftl 1 k)) 0) = true)
    as H by (vm_compute; reflexivity).
  by apply all_below_spec with (x := k) in H.
Qed.

Section Linear.
Context (w : Z -> Z).
Context (w_lxor : forall a b, w (Z.lxor a b) = Z.lxor (w a) (w b)).
Context (w_idem : forall a, w (w a) = w a).

Definition pwf (p : parity) : Prop :=
  w (line_parity p) = line_parity p /\ w (line_parity_prime p) = line_parity_prime p.

(** What byte [d] at index [i] adds to the parities. *)
Definition contrib (i d : Z) : parity :=
  if Z.testbit (column_parity d) 0
  then Parity (column_parity d) (w i) (w (u32 (Z.lnot i)))
  else Parity (column_parity d) 0 0.

Lemma w_zero : w 0 = 0.
Proof. rewrite <- (Z.lxor_nilpotent 0) at 1. by rewrite w_lxor, Z.lxor_nilpotent. Qed.

Lemma pwf_zero : pwf pzero.
Proof. split; apply w_zero. Qed.

Lemma pwf_contrib i d : pwf (contrib i d).
Proof.
  unfold contrib. destruct (Z.testbit _ _); split; simpl; auto using w_zero.
Qed.

Lemma pwf_pxor p q : pwf p -> pwf q -> pwf (pxor p q).
Proof. intros [] []; split; simpl; rewrite w_lxor; congruence. Qed.

Lemma parity_step_contrib i d p :
  pwf p -> parity_step w i d p = pxor p (contrib i d).
Proof.
  intros [H1 H2]. unfold parity_step, contrib, pxor.
  rewrite (truthy_land_bit _ 1 0) by lia.
  destruct (Z.testbit _ _); simpl; rewrite ?w_lxor, ?H1, ?H2, ?Z.lxor_0_r; done.
Qed.

Lemma parity_loop_pxor l i p :
  pwf p -> parity_loop w i l p = pxor p (parity_loop w i l pzero).
Proof.
  revert i p. induction l as [|d l IH]; intros i p Hp; simpl.
  - by rewrite pxor_zero_r.
  - rewrite !parity_step_contrib, pxor_zero_l by auto using pwf_zero.
    rewrite IH, (IH _ (contrib i d)) by auto using pwf_pxor, pwf_contrib.
    by rewrite pxor_assoc.
Qed.

Lemma parity_loop_app l1 l2 i p :
  parity_loop w i (l1 ++ l2) p =
  parity_loop w (i + Z.of_nat (length l1)) l2 (parity_loop w i l1 p).
Proof.
  revert i p. induction l1 as [|d l1 IH]; intros i p; simpl.
  - by rewrite Z.add_0_r.
  - rewrite IH. f_equal. lia.
Qed.

Lemma pwf_parity_loop l i p : pwf p -> pwf (parity_loop w i l p).
Proof.
  revert i p. induction l as [|d l IH]; intros i p Hp; simpl; [done|].
  apply IH. rewrite parity_step_contrib by done. auto using pwf_pxor, pwf_contrib.
Qed.

(** The shift of the parities caused by flipping bit [k] of byte [j]. *)
Definition flip_shift (j k : Z) : parity :=
  Parity (column_parity (Z.shiftl 1 k)) (w j) (w (u32 (Z.lnot j))).

Lemma contrib_flip j d k : is_u8 d -> 0 <= k < 8 ->
  contrib j (Z.lxor d (Z.shiftl 1 k)) = pxor (contrib j d) (flip_shift j k).
Proof.
  intros Hd Hk. unfold contrib, flip_shift, pxor.
  rewrite column_parity_flip, Z.lxor_spec, column_parity_bit_odd by done.
  destruct (Z.testbit (column_parity d) 0); simpl;
    rewrite ?Z.lxor_nilpotent, ?Z.lxor_0_l; done.
Qed.

Lemma parity_loop_flip l j k :
  Forall is_u8 l -> 0 <= j < Z.of_nat (length l) -> 0 <= k < 8 ->
  parity_loop w 0 (flip_bit l j k) pzero =
  pxor (parity_loop w 0 l pzero) (flip_shift j k).
Proof.
  intros Hl Hj Hk.
  destruct (lookup_lt_is_Some_2 l (Z.to_nat j)) as [d Hd]; [lia|].
  assert (is_u8 d) as Hd8 by (eapply Forall_lookup_1; eauto).
  unfold flip_bit. rewrite (alter_take_drop _ l _ d) by done.
  rewrite <- (take_drop_middle l (Z.to_nat j) d) at 3 by done.
  rewrite !parity_loop_app. simpl.
  rewrite length_take_le by lia.
  rewrite !(parity_step_contrib (0 + Z.of_nat (Z.to_nat j)))
    by auto using pwf_parity_loop, pwf_zero.
  replace (0 + Z.of_nat (Z.to_nat j)) with j by lia.
  rewrite contrib_flip by done.
  rewrite (parity_loop_pxor (drop _ _)) at 1 by
    (repeat apply pwf_pxor; auto using pwf_parity_loop, pwf_zero, pwf_contrib;
     split; simpl; apply w_idem).
  rewrite (parity_loop_pxor (drop _ _) _ (pxor _ (contrib j d))) by
    auto using pwf_pxor, pwf_parity_loop, pwf_zero, pwf_contrib.
  rewrite <- !pxor_assoc. do 2 f_equal. apply pxor_comm.
Qed.
End Linear.

(** ** Syndromes *)

Lemma pack_low_pxor a a' b b' :
  pack_low (Z.lxor a a') (Z.lxor b b') = Z.lxor (pack_low a b) (pack_low a' b').
Proof.
  unfold pack_low.
  rewrite !(truthy_land_bit _ 0x08 3), !(truthy_land_bit _ 0x04 2),
    !(truthy_land_bit _ 0x02 1), !(truthy_land_bit _ 0x01 0) by done.
  bitwise. cases_below i 8;
    [rewrite <- ?andb_xorb_distr_l; cbn;
     rewrite ?andb_true_r, ?andb_false_r, ?orb_false_r; done ..|].
  rewrite !(testbit_above 8 _ i) by lia. by rewrite !andb_false_r.
Qed.

Lemma pack_high_pxor a a' b b' :
  pack_high (Z.lxor a a') (Z.lxor b b') = Z.lxor (pack_high a b) (pack_high a' b').
Proof.
  unfold pack_high.
  rewrite !(truthy_land_bit _ 0x80 7), !(truthy_land_bit _ 0x40 6),
    !(truthy_land_bit _ 0x20 5), !(truthy_land_bit _ 0x10 4) by done.
  bitwise. cases_below i 8;
    [rewrite <- ?andb_xorb_distr_l; cbn;
     rewrite ?andb_true_r, ?andb_false_r, ?orb_false_r; done ..|].
  rewrite !(testbit_above 8 _ i) by lia. by rewrite !andb_false_r.
Qed.

Lemma lnot_delta a b : Z.lxor (u8 (Z.lnot a)) (u8 (Z.lnot (Z.lxor a b))) = u8 b.
Proof.
  bitwise. destruct (i <? 8); [|done]. simpl.
  by destruct (Z.testbit a i), (Z.testbit b i).
Qed.

Lemma col_delta a b :
  Z.lxor (u8 (Z.lor (Z.lnot a) 3)) (u8 (Z.lor (Z.lnot (Z.lxor a b)) 3)) =
  u8 (Z.ldiff b 3).
Proof.
  bitwise. rewrite Z.ldiff_spec. destruct (i <? 8); [|done]. simpl.
  by destruct (Z.testbit a i), (Z.testbit b i), (Z.testbit 3 i).
Qed.

(** The three delta bytes as a function of the shift of the parities. *)
Definition syndrome (q : parity) : Z * Z * Z :=
  (u8 (pack_low (line_parity q) (line_parity_prime q)),
   u8 (pack_high (line_parity q) (line_parity_prime q)),
   u8 (Z.ldiff (col_parity q) 3)).

Definition encode_parity (wrong_order : bool) (p : parity) : ecc_bytes :=
  let ecc2 := u8 (Z.lor (Z.lnot (col_parity p)) 0x03) in
  let ecc1 := u8 (Z.lnot (pack_high (line_parity p) (line_parity_prime p))) in
  let ecc0 := u8 (Z.lnot (pack_low (line_parity p) (line_parity_prime p))) in
  if wrong_order then (ecc1, ecc0, ecc2) else (ecc0, ecc1, ecc2).

(** [yaffs_ECCCorrect] on the delta bytes alone: no error, a data bit to flip,
    an error in the ECC, or uncorrectable. *)
Inductive verdict := NoError | DataBit (byte bit : Z) | EccBit | Uncorrectable.

Definition diagnose (s : Z * Z * Z) : verdict :=
  let '(d0, d1, d2) := s in
  if Z.lor (Z.lor d0 d1) d2 =? 0 then NoError
  else if (Z.land (Z.lxor d0 (Z.shiftr d0 1)) 0x55 =? 0x55) &&
          (Z.land (Z.lxor d1 (Z.shiftr d1 1)) 0x55 =? 0x55) &&
          (Z.land (Z.lxor d2 (Z.shiftr d2 1)) 0x54 =? 0x54)
  then DataBit (decode_byte d0 d1) (decode_bit d2)
  else if yaffs_CountBits d0 + yaffs_CountBits d1 + yaffs_CountBits d2 =? 1
  then EccBit else Uncorrectable.

Lemma ECCCorrect_diagnose wo data p q :
  yaffs_ECCCorrect wo data (encode_parity wo p) (encode_parity wo (pxor p q)) =
  match diagnose (syndrome q) with
  | NoError => (data, encode_parity wo p, 0)
  | DataBit byte bit => (flip_bit data byte bit, encode_parity wo p, 1)
  | EccBit => (data, encode_parity wo (pxor p q), 1)
  | Uncorrectable => (data, encode_parity wo p, -1)
  end.
Proof.
  unfold yaffs_ECCCorrect, encode_parity, diagnose, syndrome. simpl.
  rewrite pack_low_pxor, pack_high_pxor.
  destruct wo; rewrite !lnot_delta, col_delta.
  - rewrite (Z.lor_comm (u8 (pack_high _ _))).
    rewrite (Z.add_comm (yaffs_CountBits (u8 (pack_high _ _)))).
    rewrite <- (andb_comm (Z.land (Z.lxor (u8 (pack_low _ _)) _) _ =? _)).
    destruct (_ =? 0); [done|]. destruct (_ && _ && _); [done|].
    by destruct (_ =? 1).
  - destruct (_ =? 0); [done|]. destruct (_ && _ && _); [done|].
    by destruct (_ =? 1).
Qed.

Lemma ECCCalculate_encode wo data :
  yaffs_ECCCalculate wo data =
  encode_parity wo (parity_loop u8 0 (take 256 data) pzero).
Proof. reflexivity. Qed.

Definition verdict_eqb (a b : verdict) : bool :=
  match a, b with
  | NoError, NoError | EccBit, EccBit | Uncorrectable, Uncorrectable => true
  | DataBit x y, DataBit x' y' => (x =? x') && (y =? y')
  | _, _ => false
  end.

Lemma verdict_eqb_eq a b : verdict_eqb a b = true -> a = b.
Proof. destruct a, b; simpl; try done. intros H. f_equal; lia. Qed.

Lemma diagnose_single j k : 0 <= j < 256 -> 0 <= k < 8 ->
  diagnose (syndrome (flip_shift u8 j k)) = DataBit j k.
Proof.
  intros Hj Hk.
  assert (all_below 256 (fun j => all_below 8 (fun k =>
    verdict_eqb (diagnose (syndrome (flip_shift u8 j k))) (DataBit j k))) = true) as H
    by (vm_compute; reflexivity).
  apply all_below_spec with (x := j) in H; [|done].
  apply all_below_spec with (x := k) in H; [|done].
  by apply verdict_eqb_eq.
Qed.

(** The shift caused by two flips only depends on the difference of the byte
    indices and on the two bit numbers. *)
Lemma double_shift w j1 k1 j2 k2 :
  (forall a b, w (Z.lxor a b) = Z.lxor (w a) (w b)) -> (forall a, w (u32 a) = w a) ->
  pxor (flip_shift w j1 k1) (flip_shift w j2 k2) =
  Parity (Z.lxor (column_parity (Z.shiftl 1 k1)) (column_parity (Z.shiftl 1 k2)))
         (w (Z.lxor j1 j2)) (w (Z.lxor j1 j2)).
Proof.
  intros Hlin Hw. unfold pxor, flip_shift; simpl. rewrite !Hw, <- !Hlin.
  by rewrite <- Z.lnot_lxor_l, <- Z.lnot_lxor_r, Z.lnot_involutive.
Qed.

Lemma u8_u32 a : u8 (u32 a) = u8 a.
Proof. bitwise. destruct (Z.ltb_spec i 8), (Z.ltb_spec i 32); try done; lia. Qed.

Lemma u32_idem a : u32 (u32 a) = u32 a.
Proof. by apply u32_id. Qed.

Lemma u8_idem a : u8 (u8 a) = u8 a.
Proof. by apply u8_id. Qed.

Lemma diagnose_double x k1 k2 :
  0 <= x < 256 -> 0 <= k1 < 8 -> 0 <= k2 < 8 -> (x <> 0 \/ k1 <> k2) ->
  diagnose (syndrome (Parity
    (Z.lxor (column_parity (Z.shiftl 1 k1)) (column_parity (Z.shiftl 1 k2))) x x))
  = Uncorrectable.
Proof.
  intros Hx Hk1 Hk2 Hne.
  assert (all_below 256 (fun x => all_below 8 (fun k1 => all_below 8 (fun k2 =>
    ((x =? 0) && (k1 =? k2)) ||
    verdict_eqb (diagnose (syndrome (Parity
      (Z.lxor (column_parity (Z.shiftl 1 k1)) (column_parity (Z.shiftl 1 k2))) x x)))
      Uncorrectable))) = true) as H by (vm_compute; reflexivity).
  apply all_below_spec with (x := x) in H; [|done].
  apply all_below_spec with (x := k1) in H; [|done].
  apply all_below_spec with (x := k2) in H; [|done].
  apply orb_true_iff in H as [H|H]; [lia | by apply verdict_eqb_eq].
Qed.

(** ** Buffers with flipped bits *)

Lemma flip_bit_length l j k : length (flip_bit l j k) = length l.
Proof. apply length_alter. Qed.

Lemma flip_bit_involutive l j k : flip_bit (flip_bit l j k) j k = l.
Proof.
  unfold flip_bit. rewrite list_alter_alter_eq. apply list_alter_id.
  intros x. simpl. apply lxor_cancel_r.
Qed.

Lemma flip_bit_u8 l j k :
  Forall is_u8 l -> 0 <= k < 8 -> Forall is_u8 (flip_bit l j k).
Proof.
  intros Hl Hk. unfold flip_bit. apply Forall_alter; [done|].
  intros x _ Hx. apply (lxor_range 8); [lia|done|].
  rewrite Z.shiftl_1_l. split; [lia|]. apply Z.pow_lt_mono_r; lia.
Qed.

Lemma take_flip_bit n l j k : 0 <= j < Z.of_nat n ->
  take n (flip_bit l j k) = flip_bit (take n l) j k.
Proof. intros Hj. apply take_alter_lt. lia. Qed.

Lemma lxor_eq_0_ne a b : a <> b -> Z.lxor a b <> 0.
Proof. intros Hne H. by apply Hne, Z.lxor_eq. Qed.

Lemma ECCCorrect_single (wo : bool) (data : list Z) (byte bit : Z)
  (Hdata : Forall is_u8 data) (Hlen : (256 <= length data)%nat)
  (Hbyte : 0 <= byte < 256) (Hbit : 0 <= bit < 8) :
  let damaged := flip_bit data byte bit in
  yaffs_ECCCorrect wo damaged
    (yaffs_ECCCalculate wo data) (yaffs_ECCCalculate wo damaged)
  = (data, yaffs_ECCCalculate wo data, 1).
Proof.
  intros damaged. unfold damaged.
  rewrite !ECCCalculate_encode, take_flip_bit by lia.
  rewrite (parity_loop_flip u8 u8_lxor u8_idem)
    by (auto using Forall_take; rewrite ?length_take; lia).
  rewrite ECCCorrect_diagnose, diagnose_single by done.
  by rewrite flip_bit_involutive.
Qed.

(** (C9) Single-error correction of [yaffs_ECCCorrect]: when one bit of a
    256-byte block changes after its ECC was computed, correcting the block
    against the ECC recomputed from the damaged data restores it exactly, keeps
    the stored ECC and reports one corrected error.  This holds for every
    block, every bit and both byte orders of the ECC. *)
Theorem yaffs_ECC_corrects_single (wo : bool) (data : list Z) (byte bit : Z)
  (Hdata : Forall is_u8 data) (Hlen : (256 <= length data)%nat)
  (Hbyte : 0 <= byte < 256) (Hbit : 0 <= bit < 8) :
  let damaged := flip_bit data byte bit in
  yaffs_ECCCorrect wo damaged
    (yaffs_ECCCalculate wo data) (yaffs_ECCCalculate wo damaged)
  = (data, yaffs_ECCCalculate wo data, 1).
Proof. by apply ECCCorrect_single. Qed.

(** (C10) Double-error detection: two distinct flipped bits in a 256-byte block
    are always reported as uncorrectable, and neither the data nor the stored
    ECC is touched. *)
Theorem yaffs_ECC_detects_double (wo : bool) (data : list Z)
  (byte1 bit1 byte2 bit2 : Z)
  (Hdata : Forall is_u8 data) (Hlen : (256 <= length data)%nat)
  (Hbyte1 : 0 <= byte1 < 256) (Hbit1 : 0 <= bit1 < 8)
  (Hbyte2 : 0 <= byte2 < 256) (Hbit2 : 0 <= bit2 < 8)
  (Hne : byte1 <> byte2 \/ bit1 <> bit2) :
  let damaged := flip_bit (flip_bit data byte1 bit1) byte2 bit2 in
  yaffs_ECCCorrect wo damaged
    (yaffs_ECCCalculate wo data) (yaffs_ECCCalculate wo damaged)
  = (damaged, yaffs_ECCCalculate wo data, -1).
Proof.
  intros damaged. unfold damaged.
  rewrite !ECCCalculate_encode, !take_flip_bit by lia.
  rewrite !(parity_loop_flip u8 u8_lxor u8_idem)
    by (auto using Forall_take, flip_bit_u8; rewrite ?flip_bit_length, ?length_take; lia).
  rewrite <- pxor_assoc, double_shift by auto using u8_lxor, u8_u32.
  rewrite ECCCorrect_diagnose, u8_lxor, !u8_id by done.
  rewrite diagnose_double; [done | by apply (lxor_range 8) | done | done |].
  destruct Hne; [left; by apply lxor_eq_0_ne | by right].
Qed.

(** One bit flipped in byte [c] of a stored ECC. *)
Definition flip_ecc_bit (e : ecc_bytes) (c b : Z) : ecc_bytes :=
  let '(e0, e1, e2) := e in
  if c =? 0 then (Z.lxor e0 (Z.shiftl 1 b), e1, e2)
  else if c =? 1 then (e0, Z.lxor e1 (Z.shiftl 1 b), e2)
  else (e0, e1, Z.lxor e2 (Z.shiftl 1 b)).

(** An error in the ECC itself: when one of the 24 stored ECC bits has
    flipped and the data is intact, the data is left alone, the ECC is repaired
    from the recomputed one, and one corrected error is reported. *)
Lemma yaffs_ECC_corrects_ecc (wo : bool) (data : list Z) (c b : Z)
  (Hc : 0 <= c < 3) (Hb : 0 <= b < 8) :
  let ecc := yaffs_ECCCalculate wo data in
  yaffs_ECCCorrect wo data (flip_ecc_bit ecc c b) ecc = (data, ecc, 1).
Proof.
  intros ecc. destruct ecc as [[e0 e1] e2]. unfold flip_ecc_bit, yaffs_ECCCorrect.
  assert (forall x, Z.lxor (Z.lxor x (Z.shiftl 1 b)) x = Z.shiftl 1 b) as Hx.
  { intros x. rewrite (Z.lxor_comm x). apply lxor_cancel_r. }
  cases_below c 3; cbn [Z.eqb Pos.eqb]; rewrite ?Hx, ?Z.lxor_nilpotent;
    [cases_below b 8; try reflexivity; lia .. | lia].
Qed.

(** ** The code over arbitrary lengths *)

Lemma col_other_delta a b :
  Z.lxor (Z.land (Z.shiftr a 2) 0x3f) (Z.land (Z.shiftr (Z.lxor a b) 2) 0x3f) =
  Z.land (Z.shiftr b 2) 0x3f.
Proof.
  bitwise.
  by destruct (Z.testbit a (i + 2)), (Z.testbit b (i + 2)), (Z.testbit 63 i).
Qed.

Lemma ECCCalculateOther_shift data n q :
  parity_loop u32 0 (take (Z.to_nat n) data) pzero = q ->
  yaffs_ECCCalculateOther data n =
  ECCOther (Z.land (Z.shiftr (col_parity q) 2) 0x3f)
           (line_parity q) (line_parity_prime q).
Proof. by intros <-. Qed.

(** Column syndromes of one and of two flipped bits, for all bit numbers. *)
Lemma col_other_single k : 0 <= k < 8 ->
  let c := Z.land (Z.shiftr (column_parity (Z.shiftl 1 k)) 2) 0x3f in
  c <> 0 /\ Z.land (Z.lxor c (Z.shiftr c 1)) 0x15 = 0x15 /\ decode_bit_other c = k.
Proof. intros Hk. cases_below k 8; [done .. | lia]. Qed.

Lemma col_other_double k1 k2 : 0 <= k1 < 8 -> 0 <= k2 < 8 ->
  let c := Z.land (Z.shiftr (Z.lxor (column_parity (Z.shiftl 1 k1))
                                    (column_parity (Z.shiftl 1 k2))) 2) 0x3f in
  Z.even (yaffs_CountBits c) = true /\ (k1 <> k2 -> c <> 0).
Proof.
  intros Hk1 Hk2.
  cases_below k1 8; [cases_below k2 8; [split; done .. | lia] .. | lia].
Qed.

Lemma u32_lnot_lnot j : is_u32 j -> u32 (Z.lnot (u32 (Z.lnot j))) = j.
Proof.
  intros Hj. rewrite <- (u32_id j) at 2 by done. bitwise.
  destruct (i <? 32); [|done]. simpl. by rewrite negb_involutive.
Qed.

Lemma u32_lnot_ne x : is_u32 x -> u32 (Z.lnot x) <> x.
Proof.
  intros Hx H. apply (f_equal (fun z => Z.testbit z 0)) in H.
  rewrite u32_testbit, Z.lnot_spec in H by lia. by destruct (Z.testbit x 0).
Qed.

Lemma ECCCorrectOther_single (data : list Z) (nBytes byte bit : Z)
  (Hdata : Forall is_u8 data) (Hn : is_u32 nBytes)
  (Hlen : nBytes <= Z.of_nat (length data))
  (Hbyte : 0 <= byte < nBytes) (Hbit : 0 <= bit < 8) :
  let damaged := flip_bit data byte bit in
  let read_ecc := yaffs_ECCCalculateOther data nBytes in
  yaffs_ECCCorrectOther damaged nBytes read_ecc
    (yaffs_ECCCalculateOther damaged nBytes) = (data, read_ecc, 1).
Proof.
  intros damaged read_ecc. unfold damaged, read_ecc, yaffs_ECCCorrectOther.
  unfold is_u32 in Hn.
  rewrite (ECCCalculateOther_shift (flip_bit data byte bit) nBytes
    (pxor (parity_loop u32 0 (take (Z.to_nat nBytes) data) pzero)
          (flip_shift u32 byte bit))).
  2: { rewrite take_flip_bit by lia.
       apply (parity_loop_flip u32 u32_lxor u32_idem);
         [by apply Forall_take | rewrite length_take; lia | done]. }
  rewrite (ECCCalculateOther_shift data nBytes _ eq_refl). simpl.
  rewrite !lxor_cancel_l, col_other_delta, (u32_id byte) by (unfold is_u32; lia).
  rewrite u32_idem, u32_lnot_lnot by (unfold is_u32; lia).
  destruct (col_other_single bit Hbit) as (Hc & Hpat & Hdec). cbv zeta in *.
  destruct (Z.eqb_spec (Z.lor (Z.lor
    (Z.land (Z.shiftr (column_parity (Z.shiftl 1 bit)) 2) 0x3f) byte)
    (u32 (Z.lnot byte))) 0) as [H0|_].
  { apply Z.lor_eq_0_iff in H0 as [H0 _]. apply Z.lor_eq_0_iff in H0 as [H0 _]. done. }
  rewrite Z.eqb_refl, Hpat, Hdec. simpl.
  destruct (Z.leb_spec nBytes byte); [lia|]. by rewrite flip_bit_involutive.
Qed.

(** (C11) Single-error correction of [yaffs_ECCCorrectOther], the code that
    protects packed tags: one flipped bit in any of the [nBytes] protected
    bytes is located and restored, whatever the length. *)
Theorem yaffs_ECCOther_corrects_single (data : list Z) (nBytes byte bit : Z)
  (Hdata : Forall is_u8 data) (Hn : is_u32 nBytes)
  (Hlen : nBytes <= Z.of_nat (length data))
  (Hbyte : 0 <= byte < nBytes) (Hbit : 0 <= bit < 8) :
  let damaged := flip_bit data byte bit in
  let read_ecc := yaffs_ECCCalculateOther data nBytes in
  yaffs_ECCCorrectOther damaged nBytes read_ecc
    (yaffs_ECCCalculateOther damaged nBytes) = (data, read_ecc, 1).
Proof. by apply ECCCorrectOther_single. Qed.

(** Double-error detection of [yaffs_ECCCorrectOther]: two distinct
    flipped bits are reported as uncorrectable and nothing is modified. *)
Lemma yaffs_ECCOther_detects_double (data : list Z)
  (nBytes byte1 bit1 byte2 bit2 : Z)
  (Hdata : Forall is_u8 data) (Hn : is_u32 nBytes)
  (Hlen : nBytes <= Z.of_nat (length data))
  (Hbyte1 : 0 <= byte1 < nBytes) (Hbit1 : 0 <= bit1 < 8)
  (Hbyte2 : 0 <= byte2 < nBytes) (Hbit2 : 0 <= bit2 < 8)
  (Hne : byte1 <> byte2 \/ bit1 <> bit2) :
  let damaged := flip_bit (flip_bit data byte1 bit1) byte2 bit2 in
  let read_ecc := yaffs_ECCCalculateOther data nBytes in
  yaffs_ECCCorrectOther damaged nBytes read_ecc
    (yaffs_ECCCalculateOther damaged nBytes) = (damaged, read_ecc, -1).
Proof.
  intros damaged read_ecc. unfold damaged, read_ecc, yaffs_ECCCorrectOther.
  unfold is_u32 in Hn.
  erewrite (ECCCalculateOther_shift (flip_bit (flip_bit data byte1 bit1) byte2 bit2)).
  2: { rewrite !take_flip_bit by lia.
       rewrite !(parity_loop_flip u32 u32_lxor u32_idem)
         by (auto using Forall_take, flip_bit_u8;
             rewrite ?flip_bit_length, ?length_take; lia).
       by rewrite <- pxor_assoc, double_shift by auto using u32_lxor, u32_idem. }
  rewrite (ECCCalculateOther_shift data nBytes _ eq_refl). simpl.
  rewrite !lxor_cancel_l, col_other_delta.
  destruct (col_other_double bit1 bit2 Hbit1 Hbit2) as (Heven & Hc). cbv zeta in *.
  set (c := Z.land _ 0x3f) in *. set (x := u32 (Z.lxor byte1 byte2)).
  assert (c <> 0 \/ x <> 0) as Hcx.
  { destruct Hne as [Hne|Hne]; [right|left; auto].
    unfold x. rewrite u32_lxor, !u32_id by (unfold is_u32; lia).
    by apply lxor_eq_0_ne. }
  destruct (Z.eqb_spec (Z.lor (Z.lor c x) x) 0) as [H0|_].
  { apply Z.lor_eq_0_iff in H0 as [H0 ?]. apply Z.lor_eq_0_iff in H0 as [H0 _].
    tauto. }
  destruct (Z.eqb_spec x (u32 (Z.lnot x))) as [Hx|_].
  { by destruct (u32_lnot_ne x); [apply u32_range|]. }
  cbn [andb]. apply Z.even_spec in Heven as [m Hm]. rewrite Hm.
  destruct (Z.eqb_spec (yaffs_CountBits32 x + yaffs_CountBits32 x + 2 * m) 1);
    [lia | done].
Qed.

(** ** Witnesses *)

Definition sample_block : list Z := replicate 256 0xa7.

Lemma sample_block_u8 : Forall is_u8 sample_block.
Proof. apply Forall_replicate. unfold is_u8. lia. Qed.

Lemma yaffs_ECC_corrects_single_witness :
  yaffs_ECCCorrect false (flip_bit sample_block 17 3)
    (yaffs_ECCCalculate false sample_block)
    (yaffs_ECCCalculate false (flip_bit sample_block 17 3))
  = (sample_block, yaffs_ECCCalculate false sample_block, 1).
Proof.
  apply (yaffs_ECC_corrects_single false sample_block 17 3 sample_block_u8);
    [vm_compute; repeat constructor | lia | lia].
Defined.

Lemma yaffs_ECC_detects_double_witness :
  yaffs_ECCCorrect true (flip_bit (flip_bit sample_block 17 3) 200 3)
    (yaffs_ECCCalculate true sample_block)
    (yaffs_ECCCalculate true (flip_bit (flip_bit sample_block 17 3) 200 3))
  = (flip_bit (flip_bit sample_block 17 3) 200 3,
     yaffs_ECCCalculate true sample_block, -1).
Proof.
  apply (yaffs_ECC_detects_double true sample_block 17 3 200 3 sample_block_u8);
    [vm_compute; repeat constructor | lia ..].
Defined.

Lemma yaffs_ECCOther_corrects_single_witness :
  yaffs_ECCCorrectOther (flip_bit [1; 2; 3; 4] 2 5) 4
    (yaffs_ECCCalculateOther [1; 2; 3; 4] 4)
    (yaffs_ECCCalculateOther (flip_bit [1; 2; 3; 4] 2 5) 4)
  = ([1; 2; 3; 4], yaffs_ECCCalculateOther [1; 2; 3; 4] 4, 1).
Proof.
  apply (yaffs_ECCOther_corrects_single [1; 2; 3; 4] 4 2 5);
    [repeat constructor; lia | unfold is_u32; lia | simpl; lia | lia | lia].
Defined.

