(* ===== verification/YaffsTags.v ===== *)
(** * YAFFS chunk tags

    Model of [recovery/yaffs2/yaffs2/yaffs_packedtags2.c], [yaffs_packedtags1.c]
    and [yaffs_tagsvalidity.c]: the conversion between the tags the file system
    works with ([yaffs_ExtendedTags]) and the form stored in the spare area of a
    flash page.  [mkyaffs2image], which the backup command links, packs the tags
    of every chunk it writes with these functions.

    The compile-time switch CONFIG_YAFFS_DOES_ECC is the argument [does_ecc] (it
    is defined in the build of the recovery image).  A function that writes
    through a pointer returns the new contents of the pointed-to structure. *)

From S2P Require Import Prelude YaffsEcc.

(** ** Data *)

Inductive yaffs_ECCResult :=
  | YAFFS_ECC_RESULT_UNKNOWN
  | YAFFS_ECC_RESULT_NO_ERROR
  | YAFFS_ECC_RESULT_FIXED
  | YAFFS_ECC_RESULT_UNFIXED.

(** [yaffs_ObjectType]: the unpacking code stores any 4-bit number in it. *)
Definition YAFFS_OBJECT_TYPE_UNKNOWN : Z := 0.
Definition YAFFS_OBJECT_TYPE_FILE : Z := 1.
Definition YAFFS_OBJECT_TYPE_SYMLINK : Z := 2.
Definition YAFFS_OBJECT_TYPE_DIRECTORY : Z := 3.
Definition YAFFS_OBJECT_TYPE_HARDLINK : Z := 4.
Definition YAFFS_OBJECT_TYPE_SPECIAL : Z := 5.

Record yaffs_ExtendedTags := ExtendedTags {
  validMarker0 : Z;
  chunkUsed : Z;
  objectId : Z;
  chunkId : Z;
  byteCount : Z;
  eccResult : yaffs_ECCResult;
  blockBad : Z;
  chunkDeleted : Z;
  serialNumber : Z;
  sequenceNumber : Z;
  extraHeaderInfoAvailable : Z;
  extraParentObjectId : Z;
  extraIsShrinkHeader : Z;
  extraShadows : Z;
  extraObjectType : Z;
  extraFileLength : Z;
  extraEquivalentObjectId : Z;
  validMarker1 : Z
}.

(** [memset(t, 0, sizeof *t)] *)
Definition zero_tags : yaffs_ExtendedTags :=
  ExtendedTags 0 0 0 0 0 YAFFS_ECC_RESULT_UNKNOWN 0 0 0 0 0 0 0 0 0 0 0 0.

Definition yaffs_InitialiseTags : yaffs_ExtendedTags :=
  ExtendedTags 0xAAAAAAAA 0 0 0 0 YAFFS_ECC_RESULT_UNKNOWN 0 0 0 0 0 0 0 0 0 0 0 0x55555555.

Definition yaffs_ValidateTags (t : yaffs_ExtendedTags) : bool :=
  (validMarker0 t =? 0xAAAAAAAA) && (validMarker1 t =? 0x55555555).

(** ** YAFFS1 packed tags *)

Record yaffs_PackedTags1 := PackedTags1 {
  pt1_chunkId : Z;       (* 20 bits *)
  pt1_serialNumber : Z;  (* 2 bits *)
  pt1_byteCount : Z;     (* 10 bits *)
  pt1_objectId : Z;      (* 18 bits *)
  pt1_ecc : Z;           (* 12 bits *)
  pt1_deleted : Z;       (* 1 bit *)
  pt1_unusedStuff : Z;   (* 1 bit *)
  pt1_shouldBeFF : Z
}.

Definition yaffs_PackTags1 (t : yaffs_ExtendedTags) : yaffs_PackedTags1 :=
  {| pt1_chunkId := uwrap 20 (chunkId t);
     pt1_serialNumber := uwrap 2 (serialNumber t);
     pt1_byteCount := uwrap 10 (byteCount t);
     pt1_objectId := uwrap 18 (objectId t);
     pt1_ecc := 0;
     pt1_deleted := if truthy (chunkDeleted t) then 0 else 1;
     pt1_unusedStuff := 0;
     pt1_shouldBeFF := 0xFFFFFFFF |}.

(** [memcmp(allFF, pt, sizeof *pt) == 0]: every field has all its bits set. *)
Definition pt1_all_ff (pt : yaffs_PackedTags1) : bool :=
  (pt1_chunkId pt =? 0xFFFFF) && (pt1_serialNumber pt =? 3) &&
  (pt1_byteCount pt =? 0x3FF) && (pt1_objectId pt =? 0x3FFFF) &&
  (pt1_ecc pt =? 0xFFF) && (pt1_deleted pt =? 1) &&
  (pt1_unusedStuff pt =? 1) && (pt1_shouldBeFF pt =? 0xFFFFFFFF).

(** [t] is the previous contents of the structure written to. *)
Definition yaffs_UnpackTags1 (t : yaffs_ExtendedTags) (pt : yaffs_PackedTags1)
    : yaffs_ExtendedTags :=
  if negb (pt1_all_ff pt) then
    {| validMarker0 := validMarker0 t;
       chunkUsed := 1;
       objectId := pt1_objectId pt;
       chunkId := pt1_chunkId pt;
       byteCount := pt1_byteCount pt;
       eccResult := YAFFS_ECC_RESULT_NO_ERROR;
       blockBad := if negb (pt1_shouldBeFF pt =? 0xFFFFFFFF) then 1 else 0;
       chunkDeleted := if truthy (pt1_deleted pt) then 0 else 1;
       serialNumber := pt1_serialNumber pt;
       sequenceNumber := sequenceNumber t;
       extraHeaderInfoAvailable := extraHeaderInfoAvailable t;
       extraParentObjectId := extraParentObjectId t;
       extraIsShrinkHeader := extraIsShrinkHeader t;
       extraShadows := extraShadows t;
       extraObjectType := extraObjectType t;
       extraFileLength := extraFileLength t;
       extraEquivalentObjectId := extraEquivalentObjectId t;
       validMarker1 := validMarker1 t |}
  else zero_tags.

(** ** YAFFS2 packed tags *)

Definition EXTRA_HEADER_INFO_FLAG : Z := 0x80000000.
Definition EXTRA_SHRINK_FLAG : Z := 0x40000000.
Definition EXTRA_SHADOWS_FLAG : Z := 0x20000000.
Definition ALL_EXTRA_FLAGS : Z := 0xF0000000.
Definition EXTRA_OBJECT_TYPE_SHIFT : Z := 28.
(** [(0x0F) << 28] as an unsigned operand. *)
Definition EXTRA_OBJECT_TYPE_MASK : Z := 0xF0000000.

Record yaffs_PackedTags2TagsPart := PackedTags2TagsPart {
  pt2_sequenceNumber : Z;
  pt2_objectId : Z;
  pt2_chunkId : Z;
  pt2_byteCount : Z
}.

Record yaffs_PackedTags2 := PackedTags2 {
  pt2_t : yaffs_PackedTags2TagsPart;
  pt2_ecc : yaffs_ECCOther
}.

(** The 16 bytes of [pt->t] in memory. *)
Definition tags_part_bytes (p : yaffs_PackedTags2TagsPart) : list Z :=
  le_bytes 4 (pt2_sequenceNumber p) ++ le_bytes 4 (pt2_objectId p) ++
  le_bytes 4 (pt2_chunkId p) ++ le_bytes 4 (pt2_byteCount p).

Definition tags_part_of_bytes (b : list Z) : yaffs_PackedTags2TagsPart :=
  PackedTags2TagsPart (le_val (take 4 b)) (le_val (take 4 (drop 4 b)))
    (le_val (take 4 (drop 8 b))) (le_val (take 4 (drop 12 b))).

(** The chunk id that carries the extra header information. *)
Definition extra_chunk (shrink shadows : bool) (parent : Z) : Z :=
  let chunk := Z.lor EXTRA_HEADER_INFO_FLAG parent in
  let chunk := or_if shrink chunk EXTRA_SHRINK_FLAG in
  or_if shadows chunk EXTRA_SHADOWS_FLAG.

(** The object id with the object type in its top four bits. *)
Definition typed_object (obj type : Z) : Z :=
  Z.lor (Z.land obj (u32 (Z.lnot EXTRA_OBJECT_TYPE_MASK)))
        (u32 (Z.shiftl type EXTRA_OBJECT_TYPE_SHIFT)).

(** The fields [yaffs_PackTags2] stores. *)
Definition pack_tags_part (t : yaffs_ExtendedTags) : yaffs_PackedTags2TagsPart :=
  if (chunkId t =? 0) && truthy (extraHeaderInfoAvailable t) then
    let chunk := extra_chunk (truthy (extraIsShrinkHeader t)) (truthy (extraShadows t))
                   (extraParentObjectId t) in
    let obj := typed_object (objectId t) (extraObjectType t) in
    let count :=
      if extraObjectType t =? YAFFS_OBJECT_TYPE_HARDLINK then extraEquivalentObjectId t
      else if extraObjectType t =? YAFFS_OBJECT_TYPE_FILE then extraFileLength t
      else 0 in
    PackedTags2TagsPart (sequenceNumber t) obj chunk count
  else
    PackedTags2TagsPart (sequenceNumber t) (objectId t) (chunkId t) (byteCount t).

(** [ecc0] is what [pt->ecc] held before. *)
Definition yaffs_PackTags2 (does_ecc : bool) (ecc0 : yaffs_ECCOther)
    (t : yaffs_ExtendedTags) : yaffs_PackedTags2 :=
  let p := pack_tags_part t in
  PackedTags2 p (if does_ecc then yaffs_ECCCalculateOther (tags_part_bytes p) 16 else ecc0).

(** The ECC step of [yaffs_UnpackTags2]: the tags after it and its result. *)
Definition unpack_ecc (does_ecc : bool) (pt : yaffs_PackedTags2)
    : yaffs_PackedTags2 * yaffs_ECCResult :=
  if does_ecc then
    let b := tags_part_bytes (pt2_t pt) in
    let ecc := yaffs_ECCCalculateOther b 16 in
    let '(b, read_ecc, result) := yaffs_ECCCorrectOther b 16 (pt2_ecc pt) ecc in
    (PackedTags2 (tags_part_of_bytes b) read_ecc,
     if result =? 0 then YAFFS_ECC_RESULT_NO_ERROR
     else if result =? 1 then YAFFS_ECC_RESULT_FIXED
     else if result =? -1 then YAFFS_ECC_RESULT_UNFIXED
     else YAFFS_ECC_RESULT_UNKNOWN)
  else (pt, YAFFS_ECC_RESULT_NO_ERROR).

(** The tags read and the packed tags after correction. *)
Definition yaffs_UnpackTags2 (does_ecc : bool) (pt : yaffs_PackedTags2)
    : yaffs_ExtendedTags * yaffs_PackedTags2 :=
  if negb (pt2_sequenceNumber (pt2_t pt) =? 0xFFFFFFFF) then
    let '(pt, ecc) := unpack_ecc does_ecc pt in
    let p := pt2_t pt in
    let extra := truthy (Z.land (pt2_chunkId p) EXTRA_HEADER_INFO_FLAG) in
    let type := Z.shiftr (pt2_objectId p) EXTRA_OBJECT_TYPE_SHIFT in
    let hard := type =? YAFFS_OBJECT_TYPE_HARDLINK in
    ({| validMarker0 := 0xAAAAAAAA;
        chunkUsed := 1;
        objectId := if extra
                    then Z.land (pt2_objectId p) (u32 (Z.lnot EXTRA_OBJECT_TYPE_MASK))
                    else pt2_objectId p;
        chunkId := if extra then 0 else pt2_chunkId p;
        byteCount := if extra then 0 else pt2_byteCount p;
        eccResult := ecc;
        blockBad := 0;
        chunkDeleted := 0;
        serialNumber := 0;
        sequenceNumber := pt2_sequenceNumber p;
        extraHeaderInfoAvailable := if extra then 1 else 0;
        extraParentObjectId :=
          if extra then Z.land (pt2_chunkId p) (u32 (Z.lnot ALL_EXTRA_FLAGS)) else 0;
        extraIsShrinkHeader :=
          if extra && truthy (Z.land (pt2_chunkId p) EXTRA_SHRINK_FLAG) then 1 else 0;
        extraShadows :=
          if extra && truthy (Z.land (pt2_chunkId p) EXTRA_SHADOWS_FLAG) then 1 else 0;
        extraObjectType := if extra then type else 0;
        extraFileLength := if extra && negb hard then pt2_byteCount p else 0;
        extraEquivalentObjectId := if extra && hard then pt2_byteCount p else 0;
        validMarker1 := 0x55555555 |}, pt)
  else (yaffs_InitialiseTags, pt).

(** ** The bytes of a tags part *)

Definition part_u32 (p : yaffs_PackedTags2TagsPart) : Prop :=
  is_u32 (pt2_sequenceNumber p) /\ is_u32 (pt2_objectId p) /\
  is_u32 (pt2_chunkId p) /\ is_u32 (pt2_byteCount p).

Lemma le4_roundtrip x : is_u32 x -> le_val (le_bytes 4 x) = x.
Proof. intros. rewrite le_val_bytes. by apply Z.mod_small. Qed.

Lemma tags_part_roundtrip p : part_u32 p -> tags_part_of_bytes (tags_part_bytes p) = p.
Proof.
  destruct p as [a b c d]. intros (Ha & Hb & Hc & Hd). simpl in *.
  unfold tags_part_of_bytes, tags_part_bytes. simpl pt2_sequenceNumber. simpl pt2_objectId.
  simpl pt2_chunkId. simpl pt2_byteCount. f_equal;
    match goal with |- le_val ?l = ?x => change l with (le_bytes 4 x) end;
    by apply le4_roundtrip.
Qed.

Lemma length_tags_part p : length (tags_part_bytes p) = 16%nat.
Proof. reflexivity. Qed.

Lemma tags_part_u8 p : Forall is_u8 (tags_part_bytes p).
Proof. unfold tags_part_bytes. rewrite !Forall_app. auto using le_bytes_u8. Qed.

Lemma tags_part_bytes_of b : length b = 16%nat -> Forall is_u8 b ->
  tags_part_bytes (tags_part_of_bytes b) = b.
Proof.
  intros Hlen Hb. unfold tags_part_bytes, tags_part_of_bytes. simpl pt2_sequenceNumber.
  simpl pt2_objectId. simpl pt2_chunkId. simpl pt2_byteCount.
  assert (forall n, (n + 4 <= 16)%nat ->
    le_bytes 4 (le_val (take 4 (drop n b))) = take 4 (drop n b)) as H4.
  { intros n Hn. pose proof (le_bytes_val (take 4 (drop n b))) as H.
    rewrite length_take, length_drop, Nat.min_l in H by lia.
    by apply H, Forall_take, Forall_drop. }
  pose proof (H4 0%nat ltac:(lia)) as H0. rewrite drop_0 in H0.
  rewrite H0, !H4 by lia.
  do 16 (destruct b as [|? b]; [discriminate|]). destruct b; [done|discriminate].
Qed.

(** Flipping a bit of the stored tags changes the sequence number by at most
    that bit. *)
Lemma flip_sequenceNumber p byte bit : part_u32 p ->
  0 <= byte < 16 -> 0 <= bit < 8 ->
  pt2_sequenceNumber (tags_part_of_bytes (flip_bit (tags_part_bytes p) byte bit)) =
  if byte <? 4 then Z.lxor (pt2_sequenceNumber p) (2 ^ (8 * byte + bit))
  else pt2_sequenceNumber p.
Proof.
  intros (Hs & _) Hbyte Hbit. unfold tags_part_of_bytes, flip_bit. cbn [pt2_sequenceNumber].
  rewrite Z.shiftl_1_l. unfold tags_part_bytes. destruct (Z.ltb_spec byte 4).
  - rewrite alter_app_l by (rewrite length_le_bytes; lia).
    rewrite take_app_le by (rewrite length_alter, length_le_bytes; lia).
    rewrite take_ge by (rewrite length_alter, length_le_bytes; lia).
    rewrite le_val_alter_lxor by (rewrite ?length_le_bytes; auto using le_bytes_u8; lia).
    rewrite le4_roundtrip by done. do 2 f_equal. lia.
  - replace (Z.to_nat byte) with (length (le_bytes 4 (pt2_sequenceNumber p)) +
      (Z.to_nat byte - 4))%nat by (rewrite length_le_bytes; lia).
    rewrite alter_app_r. rewrite take_app_le by (rewrite length_le_bytes; lia).
    rewrite take_ge by (rewrite length_le_bytes; lia). by apply le4_roundtrip.
Qed.

Lemma flip_stays_used s p : 0 <= s < 0x7FFFFFFF -> 0 <= p < 32 ->
  Z.lxor s (2 ^ p) <> 0xFFFFFFFF.
Proof.
  intros Hs Hp Heq.
  assert (s = Z.lxor 0xFFFFFFFF (2 ^ p)) as -> by (rewrite <- Heq; by rewrite lxor_cancel_r).
  revert Hs. cases_below p 32; [vm_compute; intros [? ?]; done .. | lia].
Qed.

(** ** What a reader gets back *)

(** Tags as the file system packs them: 32-bit fields, chunk ids below the flag
    bits, and for a header with extra information 28-bit object ids and a 4-bit
    type.  Sequence numbers start at 0x1000 and grow by one per block. *)
Record tags2_ok (t : yaffs_ExtendedTags) : Prop := {
  ok_seq : 0 <= sequenceNumber t < 0x7FFFFFFF;
  ok_object : is_u32 (objectId t);
  ok_chunk : 0 <= chunkId t < 0x80000000;
  ok_count : is_u32 (byteCount t);
  ok_extra : chunkId t = 0 -> truthy (extraHeaderInfoAvailable t) = true ->
    0 <= objectId t < 2 ^ 28 /\ 0 <= extraParentObjectId t < 2 ^ 28 /\
    0 <= extraObjectType t < 16 /\ is_u32 (extraFileLength t) /\
    is_u32 (extraEquivalentObjectId t)
}.

Definition b2z (b : bool) : Z := if b then 1 else 0.

Definition read_back (t : yaffs_ExtendedTags) (ecc : yaffs_ECCResult) : yaffs_ExtendedTags :=
  let extra := (chunkId t =? 0) && truthy (extraHeaderInfoAvailable t) in
  {| validMarker0 := 0xAAAAAAAA;
     chunkUsed := 1;
     objectId := objectId t;
     chunkId := chunkId t;
     byteCount := if extra then 0 else byteCount t;
     eccResult := ecc;
     blockBad := 0; chunkDeleted := 0; serialNumber := 0;
     sequenceNumber := sequenceNumber t;
     extraHeaderInfoAvailable := b2z extra;
     extraParentObjectId := if extra then extraParentObjectId t else 0;
     extraIsShrinkHeader := b2z (extra && truthy (extraIsShrinkHeader t));
     extraShadows := b2z (extra && truthy (extraShadows t));
     extraObjectType := if extra then extraObjectType t else 0;
     extraFileLength :=
       if extra && (extraObjectType t =? YAFFS_OBJECT_TYPE_FILE)
       then extraFileLength t else 0;
     extraEquivalentObjectId :=
       if extra && (extraObjectType t =? YAFFS_OBJECT_TYPE_HARDLINK)
       then extraEquivalentObjectId t else 0;
     validMarker1 := 0x55555555 |}.

Lemma lor_range n a b :
  0 <= n -> 0 <= a < 2 ^ n -> 0 <= b < 2 ^ n -> 0 <= Z.lor a b < 2 ^ n.
Proof.
  intros Hn Ha Hb.
  assert (Z.lor a b = Z.lor a b mod 2 ^ n) as ->; [|by apply Z.mod_pos_bound; lia].
  apply Z.bits_inj'. intros i Hi. change (Z.lor a b mod 2 ^ n) with (uwrap n (Z.lor a b)).
  rewrite uwrap_testbit, Z.lor_spec by done. destruct (Z.ltb_spec i n); [done|].
  by rewrite !(testbit_above n).
Qed.

Lemma extra_chunk_bit shrink shadows parent i : 0 <= parent < 2 ^ 28 -> 0 <= i ->
  Z.testbit (extra_chunk shrink shadows parent) i =
  Z.testbit parent i || ((i =? 31) || (shrink && (i =? 30)) || (shadows && (i =? 29))).
Proof.
  intros Hp Hi. unfold extra_chunk. rewrite !or_if_testbit, Z.lor_spec.
  change EXTRA_HEADER_INFO_FLAG with (2 ^ 31). change EXTRA_SHRINK_FLAG with (2 ^ 30).
  change EXTRA_SHADOWS_FLAG with (2 ^ 29). rewrite !Z.pow2_bits_eqb by lia.
  rewrite !(Z.eqb_sym _ i).
  by destruct (Z.testbit parent i), (i =? 31), shrink, (i =? 30), shadows, (i =? 29).
Qed.

Lemma extra_chunk_range shrink shadows parent : 0 <= parent < 2 ^ 28 ->
  is_u32 (extra_chunk shrink shadows parent).
Proof.
  intros Hp. unfold extra_chunk, or_if, EXTRA_HEADER_INFO_FLAG, EXTRA_SHRINK_FLAG, EXTRA_SHADOWS_FLAG.
  destruct shrink, shadows; repeat apply (lor_range 32); lia.
Qed.

Lemma extra_chunk_parent shrink shadows parent : 0 <= parent < 2 ^ 28 ->
  Z.land (extra_chunk shrink shadows parent) (u32 (Z.lnot ALL_EXTRA_FLAGS)) = parent.
Proof.
  intros Hp. change (u32 (Z.lnot ALL_EXTRA_FLAGS)) with (Z.ones 28).
  apply Z.bits_inj'. intros i Hi. rewrite Z.land_spec, extra_chunk_bit by done.
  rewrite Z.testbit_ones_nonneg by lia. destruct (Z.ltb_spec i 28).
  - rewrite (proj2 (Z.eqb_neq i 31)), (proj2 (Z.eqb_neq i 30)), (proj2 (Z.eqb_neq i 29)) by lia.
    by rewrite !andb_false_r, orb_false_r, andb_true_r.
  - by rewrite (testbit_above 28 parent), andb_false_r.
Qed.

Lemma typed_object_split obj type : 0 <= obj < 2 ^ 28 -> 0 <= type < 16 ->
  is_u32 (typed_object obj type) /\ Z.shiftr (typed_object obj type) 28 = type /\
  Z.land (typed_object obj type) (u32 (Z.lnot EXTRA_OBJECT_TYPE_MASK)) = obj.
Proof.
  intros Ho Ht. unfold typed_object, EXTRA_OBJECT_TYPE_SHIFT. change (u32 (Z.lnot EXTRA_OBJECT_TYPE_MASK)) with (Z.ones 28).
  rewrite (Z.land_ones obj), (Z.mod_small obj) by lia.
  assert (0 <= Z.shiftl type 28 < 2 ^ 32) as Hs
    by (rewrite Z.shiftl_mul_pow2 by lia; lia).
  rewrite u32_id by exact Hs. split; [apply (lor_range 32); lia|].
  split; apply Z.bits_inj'; intros i Hi.
  - rewrite Z.shiftr_spec, Z.lor_spec, Z.shiftl_spec by lia.
    rewrite (testbit_above 28 obj) by lia. cbn [orb]. f_equal. lia.
  - rewrite Z.land_spec, Z.lor_spec, Z.shiftl_spec, Z.testbit_ones_nonneg by lia.
    destruct (Z.ltb_spec i 28).
    + by rewrite (Z.testbit_neg_r type), orb_false_r, andb_true_r by lia.
    + by rewrite (testbit_above 28 obj), andb_false_r.
Qed.

Lemma pack_part_u32 t : tags2_ok t -> part_u32 (pack_tags_part t).
Proof.
  intros [Hs Ho Hc Hn He]. unfold pack_tags_part, part_u32.
  destruct ((chunkId t =? 0) && _) eqn:Hx; simpl.
  - apply andb_true_iff in Hx as [Hx1 Hx2]. apply Z.eqb_eq in Hx1.
    destruct (He Hx1 Hx2) as (H1 & H2 & H3 & H4 & H5).
    destruct (typed_object_split _ _ H1 H3) as (? & _ & _).
    repeat split; try apply H; try apply extra_chunk_range; try lia; try done;
      destruct (_ =? _); try destruct (_ =? _); unfold is_u32 in *; lia.
  - unfold is_u32 in *. lia.
Qed.

(** Decoding inverts encoding, field by field. *)
Lemma unpack_fields t ecc pt : tags2_ok t -> pt2_t pt = pack_tags_part t ->
  forall d pt0, pt2_sequenceNumber (pt2_t pt0) <> 0xFFFFFFFF ->
  unpack_ecc d pt0 = (pt, ecc) -> yaffs_UnpackTags2 d pt0 = (read_back t ecc, pt).
Proof.
  intros [Hs Ho Hc Hn He] Hp d pt0 Hseq Hecc. unfold yaffs_UnpackTags2.
  rewrite (proj2 (Z.eqb_neq _ _)) by done. cbn [negb]. rewrite Hecc, Hp.
  unfold pack_tags_part, read_back.
  destruct ((chunkId t =? 0) && truthy _) eqn:Hx; cbn [pt2_chunkId pt2_objectId
    pt2_byteCount pt2_sequenceNumber].
  - apply andb_true_iff in Hx as [Hx1 Hx2]. apply Z.eqb_eq in Hx1.
    destruct (He Hx1 Hx2) as (H1 & H2 & H3 & _ & _).
    rewrite !(truthy_land_bit _ EXTRA_HEADER_INFO_FLAG 31),
      !(truthy_land_bit _ EXTRA_SHRINK_FLAG 30),
      !(truthy_land_bit _ EXTRA_SHADOWS_FLAG 29) by done.
    rewrite !extra_chunk_bit by lia. rewrite !(testbit_above 28 (extraParentObjectId t)) by lia.
    destruct (typed_object_split _ _ H1 H3) as (_ & Ht & Hob).
    unfold EXTRA_OBJECT_TYPE_SHIFT in *. rewrite Ht, Hob, extra_chunk_parent by done.
    cbn [Z.eqb Pos.eqb orb andb]. rewrite !andb_true_r, !andb_false_r, !orb_false_r, Hx1.
    unfold b2z, YAFFS_OBJECT_TYPE_HARDLINK, YAFFS_OBJECT_TYPE_FILE. f_equal. f_equal.
    all: repeat match goal with |- context [?a =? ?b] => destruct (Z.eqb_spec a b) end;
      cbn; congruence || lia || done.
  - rewrite (truthy_land_bit _ EXTRA_HEADER_INFO_FLAG 31) by done.
    rewrite (testbit_above 31) by (done || lia). done.
Qed.

Lemma ECCCorrectOther_same b n e : yaffs_ECCCorrectOther b n e e = (b, e, 0).
Proof. unfold yaffs_ECCCorrectOther. by rewrite !Z.lxor_nilpotent. Qed.

(** (C13) Packed tags survive storage.  For tags as the file system produces
    them, unpacking what [yaffs_PackTags2] stored gives back every field that is
    meaningful for the chunk, with no error reported; and when any one of the
    128 stored bits has flipped, unpacking still gives back the same tags,
    reports FIXED and repairs the stored copy. *)
Theorem yaffs_Tags2_roundtrip (t : yaffs_ExtendedTags) (ecc0 : yaffs_ECCOther) :
  tags2_ok t ->
  let pt := yaffs_PackTags2 true ecc0 t in
  yaffs_UnpackTags2 true pt = (read_back t YAFFS_ECC_RESULT_NO_ERROR, pt) /\
  forall byte bit, 0 <= byte < 16 -> 0 <= bit < 8 ->
    yaffs_UnpackTags2 true
      (PackedTags2 (tags_part_of_bytes (flip_bit (tags_part_bytes (pt2_t pt)) byte bit))
         (pt2_ecc pt)) = (read_back t YAFFS_ECC_RESULT_FIXED, pt).
Proof.
  intros Hok pt. pose proof (pack_part_u32 t Hok) as Hu. pose proof (ok_seq t Hok) as Hseq.
  assert (pt2_sequenceNumber (pack_tags_part t) = sequenceNumber t) as Hs.
  { unfold pack_tags_part. by destruct (_ && _). }
  split.
  - apply unpack_fields; [done | done | cbn [pt yaffs_PackTags2 pt2_t]; lia |]. unfold unpack_ecc. cbn [pt2_t pt2_ecc].
    subst pt. cbn [yaffs_PackTags2 pt2_t pt2_ecc].
    by rewrite ECCCorrectOther_same, tags_part_roundtrip.
  - intros byte bit Hbyte Hbit. apply unpack_fields; [done | done | |].
    + cbn [pt2_t]. subst pt. cbn [yaffs_PackTags2 pt2_t]. rewrite flip_sequenceNumber, Hs by done.
      destruct (Z.ltb_spec byte 4); [apply flip_stays_used; lia | lia].
    + unfold unpack_ecc. cbn [pt2_t pt2_ecc]. subst pt. cbn [yaffs_PackTags2 pt2_t pt2_ecc].
      rewrite tags_part_bytes_of
        by (rewrite ?flip_bit_length; auto using flip_bit_u8, tags_part_u8).
      rewrite ECCCorrectOther_single by (try apply tags_part_u8; done || lia).
      by rewrite tags_part_roundtrip.
Qed.

Definition sample_tags : yaffs_ExtendedTags :=
  ExtendedTags 0 0 261 0 0 YAFFS_ECC_RESULT_UNKNOWN 0 0 0 0x1001 1 257 0 1
    YAFFS_OBJECT_TYPE_FILE 70000 0 0.

Lemma sample_tags_ok : tags2_ok sample_tags.
Proof. constructor; unfold is_u32; simpl; unfold YAFFS_OBJECT_TYPE_FILE; lia. Qed.

Lemma yaffs_Tags2_roundtrip_witness :
  yaffs_UnpackTags2 true (yaffs_PackTags2 true (ECCOther 0 0 0) sample_tags) =
  (read_back sample_tags YAFFS_ECC_RESULT_NO_ERROR,
   yaffs_PackTags2 true (ECCOther 0 0 0) sample_tags).
Proof. apply (yaffs_Tags2_roundtrip sample_tags (ECCOther 0 0 0) sample_tags_ok). Defined.

(** The test for an erased page comes before the correction: for a block
    whose sequence number is 0x7FFFFFFF a single flipped bit of its stored tags
    makes every packed chunk read back as unused, with no error reported. *)
Lemma yaffs_Tags2_flip_looks_erased (t : yaffs_ExtendedTags) (ecc0 : yaffs_ECCOther) :
  sequenceNumber t = 0x7FFFFFFF ->
  let pt := yaffs_PackTags2 true ecc0 t in
  fst (yaffs_UnpackTags2 true
    (PackedTags2 (tags_part_of_bytes (flip_bit (tags_part_bytes (pt2_t pt)) 3 7))
       (pt2_ecc pt))) = yaffs_InitialiseTags.
Proof.
  intros Hs pt. unfold yaffs_UnpackTags2. cbn [pt2_t].
  assert (pt2_sequenceNumber (pt2_t pt) = 0x7FFFFFFF) as Hp.
  { subst pt. cbn [yaffs_PackTags2 pt2_t]. unfold pack_tags_part. by destruct (_ && _). }
  assert (pt2_sequenceNumber (tags_part_of_bytes
    (flip_bit (tags_part_bytes (pt2_t pt)) 3 7)) = 0xFFFFFFFF) as ->; [|done].
  unfold tags_part_bytes. rewrite Hp. reflexivity.
Qed.

