(* ===== verification/YaffsTagsCompat.v ===== *)
(** * YAFFS1 tags on flash

    Model of [recovery/yaffs2/yaffs2/yaffs_tagscompat.c], the layer that stores
    the tags of a chunk in the 16-byte spare area of a 512-byte flash page and
    protects page and tags with error-correcting codes, and of the part of
    [yaffs_nand.c] that sits on top of it.

    [yaffs_Tags] is a union of bit fields and eight bytes; it is modelled as the
    eight bytes, the fields being read and written in place (bit fields are
    allocated from the low bits up).  The flash driver behind the function
    pointers of the device is a parameter, the class [NandDriver].  A result
    [None] stands for YBUG() or an access outside an object. *)

From S2P Require Import Prelude YaffsEcc YaffsTags.

(** ** Population count *)

Definition yaffs_countBitsTable : list Z :=
 [0; 1; 1; 2; 1; 2; 2; 3; 1; 2; 2; 3; 2; 3; 3; 4;
  1; 2; 2; 3; 2; 3; 3; 4; 2; 3; 3; 4; 3; 4; 4; 5;
  1; 2; 2; 3; 2; 3; 3; 4; 2; 3; 3; 4; 3; 4; 4; 5;
  2; 3; 3; 4; 3; 4; 4; 5; 3; 4; 4; 5; 4; 5; 5; 6;
  1; 2; 2; 3; 2; 3; 3; 4; 2; 3; 3; 4; 3; 4; 4; 5;
  2; 3; 3; 4; 3; 4; 4; 5; 3; 4; 4; 5; 4; 5; 5; 6;
  2; 3; 3; 4; 3; 4; 4; 5; 3; 4; 4; 5; 4; 5; 5; 6;
  3; 4; 4; 5; 4; 5; 5; 6; 4; 5; 5; 6; 5; 6; 6; 7;
  1; 2; 2; 3; 2; 3; 3; 4; 2; 3; 3; 4; 3; 4; 4; 5;
  2; 3; 3; 4; 3; 4; 4; 5; 3; 4; 4; 5; 4; 5; 5; 6;
  2; 3; 3; 4; 3; 4; 4; 5; 3; 4; 4; 5; 4; 5; 5; 6;
  3; 4; 4; 5; 4; 5; 5; 6; 4; 5; 5; 6; 5; 6; 6; 7;
  2; 3; 3; 4; 3; 4; 4; 5; 3; 4; 4; 5; 4; 5; 5; 6;
  3; 4; 4; 5; 4; 5; 5; 6; 4; 5; 5; 6; 5; 6; 6; 7;
  3; 4; 4; 5; 4; 5; 5; 6; 4; 5; 5; 6; 5; 6; 6; 7;
  4; 5; 5; 6; 5; 6; 6; 7; 5; 6; 6; 7; 6; 7; 7; 8].

Definition yaffs_CountBits (x : Z) : Z := nth (Z.to_nat x) yaffs_countBitsTable 0.

(** ** Tags *)

Definition yaffs_Tags : Type := list Z.

(** Bits [off, off + width) of the union. *)
Definition get_field (off width : Z) (t : yaffs_Tags) : Z :=
  Z.land (Z.shiftr (le_val t) off) (Z.ones width).

Definition set_field (off width v : Z) (t : yaffs_Tags) : yaffs_Tags :=
  le_bytes 8 (Z.lor (Z.ldiff (le_val t) (Z.shiftl (Z.ones width) off))
                    (Z.shiftl (Z.land v (Z.ones width)) off)).

Definition tags_chunkId := get_field 0 20.
Definition tags_serialNumber := get_field 20 2.
Definition tags_byteCount := get_field 22 10.
Definition tags_objectId := get_field 32 18.
Definition tags_ecc := get_field 50 12.
Definition set_chunkId := set_field 0 20.
Definition set_serialNumber := set_field 20 2.
Definition set_byteCount := set_field 22 10.
Definition set_objectId := set_field 32 18.
Definition set_ecc := set_field 50 12.

Record yaffs_Spare := Spare {
  tagByte0 : Z; tagByte1 : Z; tagByte2 : Z; tagByte3 : Z;
  pageStatus : Z; blockStatus : Z;
  tagByte4 : Z; tagByte5 : Z;
  ecc1 : ecc_bytes;
  tagByte6 : Z; tagByte7 : Z;
  ecc2 : ecc_bytes
}.

#[global] Instance yaffs_Spare_eq_dec : EqDecision yaffs_Spare.
Proof. solve_decision. Defined.

(** [wrong_order] is the byte order of the page ECC. *)
Definition yaffs_CalcECC (wrong_order : bool) (data : list Z) (spare : yaffs_Spare)
    : yaffs_Spare :=
  let (t0, t1, t2, t3, ps, bs, t4, t5, _, t6, t7, _) := spare in
  Spare t0 t1 t2 t3 ps bs t4 t5 (yaffs_ECCCalculate wrong_order data) t6 t7
    (yaffs_ECCCalculate wrong_order (drop 256 data)).

(** [for (j = 1; j & 0xff; j <<= 1)]: the final [bit] and [ecc]. *)
Fixpoint tags_ecc_byte (fuel : nat) (b j bit ecc : Z) : Z * Z :=
  match fuel with
  | O => (bit, ecc)
  | S fuel =>
      if truthy (Z.land j 0xff) then
        let bit := u32 (bit + 1) in
        let ecc := if truthy (Z.land b j) then Z.lxor ecc bit else ecc in
        tags_ecc_byte fuel b (u32 (Z.shiftl j 1)) bit ecc
      else (bit, ecc)
  end.

(** [for (i = 0; i < 8; i++)] *)
Fixpoint tags_ecc_loop (bs : list Z) (bit ecc : Z) : Z :=
  match bs with
  | [] => ecc
  | b :: bs => let '(bit, ecc) := tags_ecc_byte 9 b 1 bit ecc in tags_ecc_loop bs bit ecc
  end.

Definition yaffs_CalcTagsECC (tags : yaffs_Tags) : yaffs_Tags :=
  let tags := set_ecc 0 tags in
  set_ecc (tags_ecc_loop tags 0 0) tags.

(** The tags after the call and its result. *)
Definition yaffs_CheckECCOnTags (tags : yaffs_Tags) : yaffs_Tags * Z :=
  let ecc := tags_ecc tags in
  let tags := yaffs_CalcTagsECC tags in
  let ecc := Z.lxor ecc (tags_ecc tags) in
  if truthy ecc && (ecc <=? 64) then
    let ecc := ecc - 1 in
    let tags := flip_bit tags (ecc / 8) (Z.land ecc 7) in
    (yaffs_CalcTagsECC tags, 1)
  else if truthy ecc then (tags, -1)
  else (tags, 0).

(** The eight tag bytes of [t] stored into the spare. *)
Definition put_tags (spare : yaffs_Spare) (t : yaffs_Tags) : option yaffs_Spare :=
  match t with
  | [b0; b1; b2; b3; b4; b5; b6; b7] =>
      Some (Spare b0 b1 b2 b3 (pageStatus spare) (blockStatus spare) b4 b5
              (ecc1 spare) b6 b7 (ecc2 spare))
  | _ => None
  end.

Definition yaffs_LoadTagsIntoSpare (spare : yaffs_Spare) (tags : yaffs_Tags)
    : option yaffs_Spare :=
  put_tags spare (yaffs_CalcTagsECC tags).

Definition spare_tags (s : yaffs_Spare) : yaffs_Tags :=
  [tagByte0 s; tagByte1 s; tagByte2 s; tagByte3 s;
   tagByte4 s; tagByte5 s; tagByte6 s; tagByte7 s].

Definition yaffs_SpareInitialise : yaffs_Spare :=
  Spare 255 255 255 255 255 255 255 255 (255, 255, 255) 255 255 (255, 255, 255).

(** ** Device *)

Inductive yaffs_BlockState :=
  | YAFFS_BLOCK_STATE_UNKNOWN
  | YAFFS_BLOCK_STATE_SCANNING
  | YAFFS_BLOCK_STATE_NEEDS_SCANNING
  | YAFFS_BLOCK_STATE_EMPTY
  | YAFFS_BLOCK_STATE_ALLOCATING
  | YAFFS_BLOCK_STATE_FULL
  | YAFFS_BLOCK_STATE_DIRTY
  | YAFFS_BLOCK_STATE_CHECKPOINT
  | YAFFS_BLOCK_STATE_COLLECTING
  | YAFFS_BLOCK_STATE_DEAD.

(** The fields of [yaffs_BlockInfo] these files use. *)
Record yaffs_BlockInfo := BlockInfo {
  needsRetiring : bool;
  gcPrioritise : bool;
  chunkErrorStrikes : Z  (* 3 bits *)
}.

Record yaffs_NANDSpare := NANDSpare {
  ns_spare : yaffs_Spare;
  eccres1 : Z;
  eccres2 : Z
}.

(** The functions behind the pointers of the device.  A NULL data or spare
    argument is [None]; the buffers handed in carry their previous contents. *)
Class NandDriver := {
  nand : Type;
  writeChunkToNAND : nand -> Z -> option (list Z) -> yaffs_Spare -> nand * Z;
  readChunkFromNAND : nand -> Z -> option (list Z) -> option yaffs_NANDSpare ->
    nand * option (list Z) * option yaffs_NANDSpare * Z;
  eraseBlockInNAND : nand -> Z -> nand * Z
}.

(** The fields of [yaffs_Device] these files use: those they only read, and
    those they change. *)
Record device_config := DeviceConfig {
  startBlock : Z;
  nChunksPerBlock : Z;
  useNANDECC : bool;
  internalStartBlock : Z;
  internalEndBlock : Z;
  chunkOffset : Z;
  blockOffset : Z;
  dev_sequenceNumber : Z
}.

Section Device.
Context {D : NandDriver}.

Record yaffs_Device := Device {
  cfg : device_config;
  blockInfo : list yaffs_BlockInfo;
  hasPendingPrioritisedGCs : bool;
  nPageReads : Z;
  nPageWrites : Z;
  nBlockErasures : Z;
  eccFixed : Z;
  eccUnfixed : Z;
  tagsEccFixed : Z;
  tagsEccUnfixed : Z;
  flash : nand
}.

Definition set_blockInfo (d : yaffs_Device) (b : list yaffs_BlockInfo) : yaffs_Device :=
  let (c, _, gc, pr, pw, be, ef, eu, tf, tu, f) := d in
  Device c b gc pr pw be ef eu tf tu f.
Definition set_pendingGC (d : yaffs_Device) : yaffs_Device :=
  let (c, bi, _, pr, pw, be, ef, eu, tf, tu, f) := d in
  Device c bi true pr pw be ef eu tf tu f.
Definition count_read (d : yaffs_Device) : yaffs_Device :=
  let (c, bi, gc, pr, pw, be, ef, eu, tf, tu, f) := d in
  Device c bi gc (pr + 1) pw be ef eu tf tu f.
Definition count_write (d : yaffs_Device) : yaffs_Device :=
  let (c, bi, gc, pr, pw, be, ef, eu, tf, tu, f) := d in
  Device c bi gc pr (pw + 1) be ef eu tf tu f.
Definition count_erasure (d : yaffs_Device) : yaffs_Device :=
  let (c, bi, gc, pr, pw, be, ef, eu, tf, tu, f) := d in
  Device c bi gc pr pw (be + 1) ef eu tf tu f.
Definition count_fixed (d : yaffs_Device) : yaffs_Device :=
  let (c, bi, gc, pr, pw, be, ef, eu, tf, tu, f) := d in
  Device c bi gc pr pw be (ef + 1) eu tf tu f.
Definition count_unfixed (d : yaffs_Device) : yaffs_Device :=
  let (c, bi, gc, pr, pw, be, ef, eu, tf, tu, f) := d in
  Device c bi gc pr pw be ef (eu + 1) tf tu f.
Definition count_tags_fixed (d : yaffs_Device) : yaffs_Device :=
  let (c, bi, gc, pr, pw, be, ef, eu, tf, tu, f) := d in
  Device c bi gc pr pw be ef eu (tf + 1) tu f.
Definition count_tags_unfixed (d : yaffs_Device) : yaffs_Device :=
  let (c, bi, gc, pr, pw, be, ef, eu, tf, tu, f) := d in
  Device c bi gc pr pw be ef eu tf (tu + 1) f.
Definition set_flash (d : yaffs_Device) (n : nand) : yaffs_Device :=
  let (c, bi, gc, pr, pw, be, ef, eu, tf, tu, _) := d in
  Device c bi gc pr pw be ef eu tf tu n.

Definition YAFFS_OK : Z := 1.
Definition YAFFS_FAIL : Z := 0.

Definition yaffs_GetBlockInfo (dev : yaffs_Device) (blk : Z) : option (nat * yaffs_BlockInfo) :=
  if (blk <? internalStartBlock (cfg dev)) || (internalEndBlock (cfg dev) <? blk) then None
  else
    let i := Z.to_nat (blk - internalStartBlock (cfg dev)) in
    bi ← blockInfo dev !! i; Some (i, bi).

Definition yaffs_HandleReadDataError (dev : yaffs_Device) (chunkInNAND : Z)
    : option yaffs_Device :=
  let blockInNAND := Z.quot chunkInNAND (nChunksPerBlock (cfg dev)) in
  '(i, bi) ← yaffs_GetBlockInfo dev blockInNAND;
  Some (set_blockInfo dev
    (<[i := BlockInfo true (gcPrioritise bi) (chunkErrorStrikes bi)]> (blockInfo dev))).

Definition yaffs_GetTagsFromSpare (dev : yaffs_Device) (spare : yaffs_Spare)
    : yaffs_Device * yaffs_Tags :=
  let '(tags, result) := yaffs_CheckECCOnTags (spare_tags spare) in
  (if 0 <? result then count_tags_fixed dev
   else if result <? 0 then count_tags_unfixed dev
   else dev, tags).

Definition yaffs_WriteChunkToNAND (dev : yaffs_Device) (chunkInNAND : Z)
    (data : option (list Z)) (spare : yaffs_Spare) : yaffs_Device * Z :=
  if chunkInNAND <? startBlock (cfg dev) * nChunksPerBlock (cfg dev) then (dev, YAFFS_FAIL)
  else
    let dev := count_write dev in
    let '(f, ret) := writeChunkToNAND (flash dev) chunkInNAND data spare in
    (set_flash dev f, ret).

(** [eccFixed] or [eccUnfixed] after the correction of one half page. *)
Definition count_ecc (dev : yaffs_Device) (r : Z) : yaffs_Device :=
  if 0 <? r then count_fixed dev else if r <? 0 then count_unfixed dev else dev.

Definition ecc_summary (r1 r2 : Z) : yaffs_ECCResult :=
  if (r1 <? 0) || (r2 <? 0) then YAFFS_ECC_RESULT_UNFIXED
  else if (0 <? r1) || (0 <? r2) then YAFFS_ECC_RESULT_FIXED
  else YAFFS_ECC_RESULT_NO_ERROR.

Definition retire_on (dev : yaffs_Device) (chunkInNAND r1 r2 : Z) : option yaffs_Device :=
  if truthy r1 || truthy r2 then yaffs_HandleReadDataError dev chunkInNAND else Some dev.

(** The software correction of a page: data, spare and the two results. *)
Definition correct_page (wrong_order : bool) (data : list Z) (spare : yaffs_Spare)
    : list Z * yaffs_Spare * Z * Z :=
  let calcEcc := yaffs_ECCCalculate wrong_order data in
  let '(data, e1, r1) := yaffs_ECCCorrect wrong_order data (ecc1 spare) calcEcc in
  let calcEcc := yaffs_ECCCalculate wrong_order (drop 256 data) in
  let '(half, e2, r2) := yaffs_ECCCorrect wrong_order (drop 256 data) (ecc2 spare) calcEcc in
  (take 256 data ++ half,
   Spare (tagByte0 spare) (tagByte1 spare) (tagByte2 spare) (tagByte3 spare)
     (pageStatus spare) (blockStatus spare) (tagByte4 spare) (tagByte5 spare)
     e1 (tagByte6 spare) (tagByte7 spare) e2, r1, r2).

(** [junk] is the contents of the uninitialised local variables. *)
Definition yaffs_ReadChunkFromNAND (wrong_order : bool) (dev : yaffs_Device)
    (chunkInNAND : Z) (data : option (list Z)) (spare : option yaffs_Spare)
    (eccResult : yaffs_ECCResult) (doErrorCorrection : bool) (junk : yaffs_NANDSpare)
    : option (yaffs_Device * option (list Z) * option yaffs_Spare * yaffs_ECCResult * Z) :=
  let dev := count_read dev in
  let spare := match spare, data with
               | None, Some _ => Some (ns_spare junk)
               | _, _ => spare
               end in
  if negb (useNANDECC (cfg dev)) then
    let '(f, data, nspare, retVal) :=
      readChunkFromNAND (flash dev) chunkInNAND data
        ((fun s => NANDSpare s 0 0) <$> spare) in
    let dev := set_flash dev f in
    let spare := ns_spare <$> nspare in
    match data with
    | Some d =>
        if doErrorCorrection then
          sp ← spare;
          let '(d, sp, r1, r2) := correct_page wrong_order d sp in
          let dev := count_ecc (count_ecc dev r1) r2 in
          dev ← retire_on dev chunkInNAND r1 r2;
          Some (dev, Some d, Some sp, ecc_summary r1 r2, retVal)
        else Some (dev, data, spare, eccResult, retVal)
    | None => Some (dev, data, spare, eccResult, retVal)
    end
  else
    let '(f, data, nspare, retVal) :=
      readChunkFromNAND (flash dev) chunkInNAND data (Some junk) in
    let dev := set_flash dev f in
    ns ← nspare;
    _ ← spare;
    match data with
    | Some d =>
        if doErrorCorrection then
          dev ← retire_on dev chunkInNAND (eccres1 ns) (eccres2 ns);
          Some (dev, data, Some (ns_spare ns), ecc_summary (eccres1 ns) (eccres2 ns), retVal)
        else Some (dev, data, Some (ns_spare ns), eccResult, retVal)
    | None => Some (dev, data, Some (ns_spare ns), eccResult, retVal)
    end.

(** [stack] is the previous contents of the local variable [tags], whose unused
    bits are never assigned. *)
Definition tags_of_extended (stack : yaffs_Tags) (eTags : yaffs_ExtendedTags) : yaffs_Tags :=
  let tags := set_objectId (objectId eTags) stack in
  let tags := set_chunkId (chunkId eTags) tags in
  let tags := set_byteCount (byteCount eTags) tags in
  set_serialNumber (serialNumber eTags) tags.

(** The spare area written for a chunk. *)
Definition make_spare (wrong_order nand_ecc : bool) (data : option (list Z))
    (eTags : yaffs_ExtendedTags) (stack : yaffs_Tags) : option yaffs_Spare :=
  let spare := yaffs_SpareInitialise in
  if truthy (chunkDeleted eTags) then
    Some (Spare (tagByte0 spare) (tagByte1 spare) (tagByte2 spare) (tagByte3 spare)
            0 (blockStatus spare) (tagByte4 spare) (tagByte5 spare) (ecc1 spare)
            (tagByte6 spare) (tagByte7 spare) (ecc2 spare))
  else
    let tags := tags_of_extended stack eTags in
    let spare := match data with
                 | Some d => if negb nand_ecc then yaffs_CalcECC wrong_order d spare else spare
                 | None => spare
                 end in
    yaffs_LoadTagsIntoSpare spare tags.

Definition yaffs_TagsCompatabilityWriteChunkWithTagsToNAND (wrong_order : bool)
    (dev : yaffs_Device) (chunkInNAND : Z) (data : option (list Z))
    (eTags : yaffs_ExtendedTags) (stack : yaffs_Tags) : option (yaffs_Device * Z) :=
  spare ← make_spare wrong_order (useNANDECC (cfg dev)) data eTags stack;
  Some (yaffs_WriteChunkToNAND dev chunkInNAND data spare).

(** The extended tags filled in from what was read. *)
Definition extended_of_spare (eTags : yaffs_ExtendedTags) (spare : yaffs_Spare)
    (ecc : yaffs_ECCResult) (used : bool) (tags : yaffs_Tags) : yaffs_ExtendedTags :=
  {| validMarker0 := validMarker0 eTags;
     chunkUsed := if used then 1 else 0;
     objectId := if used then tags_objectId tags else objectId eTags;
     chunkId := if used then tags_chunkId tags else chunkId eTags;
     byteCount := if used then tags_byteCount tags else byteCount eTags;
     eccResult := ecc;
     blockBad := 0;
     chunkDeleted := if yaffs_CountBits (pageStatus spare) <? 7 then 1 else 0;
     serialNumber := if used then tags_serialNumber tags else serialNumber eTags;
     sequenceNumber := sequenceNumber eTags;
     extraHeaderInfoAvailable := extraHeaderInfoAvailable eTags;
     extraParentObjectId := extraParentObjectId eTags;
     extraIsShrinkHeader := extraIsShrinkHeader eTags;
     extraShadows := extraShadows eTags;
     extraObjectType := extraObjectType eTags;
     extraFileLength := extraFileLength eTags;
     extraEquivalentObjectId := extraEquivalentObjectId eTags;
     validMarker1 := validMarker1 eTags |}.

(** [ecc0] and [junk] are the contents of the uninitialised locals. *)
Definition yaffs_TagsCompatabilityReadChunkWithTagsFromNAND (wrong_order : bool)
    (dev : yaffs_Device) (chunkInNAND : Z) (data : option (list Z))
    (eTags : option yaffs_ExtendedTags) (ecc0 : yaffs_ECCResult) (junk : yaffs_NANDSpare)
    : option (yaffs_Device * option (list Z) * option yaffs_ExtendedTags * Z) :=
  '(dev, data, spare, ecc, ret) ←
     yaffs_ReadChunkFromNAND wrong_order dev chunkInNAND data (Some (ns_spare junk)) ecc0 true junk;
  if truthy ret then
    match eTags with
    | Some et =>
        spare ← spare;
        let used := negb (bool_decide (spare = yaffs_SpareInitialise)) in
        let '(dev, tags) := if used then yaffs_GetTagsFromSpare dev spare
                            else (dev, spare_tags spare) in
        Some (dev, data, Some (extended_of_spare et spare ecc used tags), YAFFS_OK)
    | None => Some (dev, data, None, YAFFS_OK)
    end
  else Some (dev, data, eTags, YAFFS_FAIL).

Definition bad_block_spare : yaffs_Spare :=
  Spare 255 255 255 255 255 89 255 255 (255, 255, 255) 255 255 (255, 255, 255).

Definition yaffs_TagsCompatabilityMarkNANDBlockBad (dev : yaffs_Device) (blockInNAND : Z)
    : yaffs_Device * Z :=
  let first := blockInNAND * nChunksPerBlock (cfg dev) in
  let '(dev, _) := yaffs_WriteChunkToNAND dev first None bad_block_spare in
  let '(dev, _) := yaffs_WriteChunkToNAND dev (first + 1) None bad_block_spare in
  (dev, YAFFS_OK).

Definition yaffs_TagsCompatabilityQueryNANDBlock (wrong_order : bool) (dev : yaffs_Device)
    (blockNo : Z) (junk : yaffs_NANDSpare)
    : option (yaffs_Device * yaffs_BlockState * Z * Z) :=
  let first := blockNo * nChunksPerBlock (cfg dev) in
  '(dev, _, spare0, _, _) ←
     yaffs_ReadChunkFromNAND wrong_order dev first None (Some (ns_spare junk))
       YAFFS_ECC_RESULT_UNKNOWN true junk;
  '(dev, _, spare1, _, _) ←
     yaffs_ReadChunkFromNAND wrong_order dev (first + 1) None (Some (ns_spare junk))
       YAFFS_ECC_RESULT_UNKNOWN true junk;
  spare0 ← spare0;
  spare1 ← spare1;
  let state :=
    if yaffs_CountBits (Z.land (blockStatus spare0) (blockStatus spare1)) <? 7
    then YAFFS_BLOCK_STATE_DEAD
    else if bool_decide (spare0 = yaffs_SpareInitialise) then YAFFS_BLOCK_STATE_EMPTY
    else YAFFS_BLOCK_STATE_NEEDS_SCANNING in
  Some (dev, state, 0, YAFFS_OK).

(** ** The layer above (yaffs_nand.c), on a device without its own tag functions *)

Definition yaffs_HandleChunkError (dev : yaffs_Device) (i : nat) (bi : yaffs_BlockInfo)
    : yaffs_Device :=
  if negb (gcPrioritise bi) then
    let strikes := uwrap 3 (chunkErrorStrikes bi + 1) in
    let dev := set_pendingGC dev in
    set_blockInfo dev
      (<[i := BlockInfo (needsRetiring bi || (3 <? strikes)) true strikes]> (blockInfo dev))
  else dev.

Definition ecc_error (e : yaffs_ECCResult) : bool :=
  match e with
  | YAFFS_ECC_RESULT_FIXED | YAFFS_ECC_RESULT_UNFIXED => true
  | _ => false
  end.

(** [local] is the contents of the local tags used when the caller passes none. *)
Definition yaffs_ReadChunkWithTagsFromNAND (wrong_order : bool) (dev : yaffs_Device)
    (chunkInNAND : Z) (buffer : option (list Z)) (tags : option yaffs_ExtendedTags)
    (local : yaffs_ExtendedTags) (ecc0 : yaffs_ECCResult) (junk : yaffs_NANDSpare)
    : option (yaffs_Device * option (list Z) * yaffs_ExtendedTags * Z) :=
  let realigned := chunkInNAND - chunkOffset (cfg dev) in
  let tags := match tags with Some t => t | None => local end in
  '(dev, buffer, tags, result) ←
     yaffs_TagsCompatabilityReadChunkWithTagsFromNAND wrong_order dev realigned buffer
       (Some tags) ecc0 junk;
  tags ← tags;
  if ecc_error (eccResult tags) then
    '(i, bi) ← yaffs_GetBlockInfo dev (Z.quot chunkInNAND (nChunksPerBlock (cfg dev)));
    Some (yaffs_HandleChunkError dev i bi, buffer, tags, result)
  else Some (dev, buffer, tags, result).

Definition yaffs_WriteChunkWithTagsToNAND (wrong_order : bool) (dev : yaffs_Device)
    (chunkInNAND : Z) (buffer : option (list Z)) (tags : option yaffs_ExtendedTags)
    (stack : yaffs_Tags) : option (yaffs_Device * yaffs_ExtendedTags * Z) :=
  let chunkInNAND := chunkInNAND - chunkOffset (cfg dev) in
  t ← tags;
  let t := {| validMarker0 := validMarker0 t; chunkUsed := 1; objectId := objectId t;
              chunkId := chunkId t; byteCount := byteCount t; eccResult := eccResult t;
              blockBad := blockBad t; chunkDeleted := chunkDeleted t;
              serialNumber := serialNumber t; sequenceNumber := dev_sequenceNumber (cfg dev);
              extraHeaderInfoAvailable := extraHeaderInfoAvailable t;
              extraParentObjectId := extraParentObjectId t;
              extraIsShrinkHeader := extraIsShrinkHeader t; extraShadows := extraShadows t;
              extraObjectType := extraObjectType t; extraFileLength := extraFileLength t;
              extraEquivalentObjectId := extraEquivalentObjectId t;
              validMarker1 := validMarker1 t |} in
  if negb (yaffs_ValidateTags t) then None else
  '(dev, r) ← yaffs_TagsCompatabilityWriteChunkWithTagsToNAND wrong_order dev chunkInNAND
                buffer t stack;
  Some (dev, t, r).

Definition yaffs_MarkBlockBad (dev : yaffs_Device) (blockNo : Z) : yaffs_Device * Z :=
  yaffs_TagsCompatabilityMarkNANDBlockBad dev (blockNo - blockOffset (cfg dev)).

Definition yaffs_QueryInitialBlockState (wrong_order : bool) (dev : yaffs_Device)
    (blockNo : Z) (junk : yaffs_NANDSpare)
    : option (yaffs_Device * yaffs_BlockState * Z * Z) :=
  yaffs_TagsCompatabilityQueryNANDBlock wrong_order dev (blockNo - blockOffset (cfg dev)) junk.

Definition yaffs_EraseBlockInNAND (dev : yaffs_Device) (blockInNAND : Z) : yaffs_Device * Z :=
  let blockInNAND := blockInNAND - blockOffset (cfg dev) in
  let dev := count_erasure dev in
  let '(f, result) := eraseBlockInNAND (flash dev) blockInNAND in
  if negb (truthy result) then
    let '(f, result) := eraseBlockInNAND f blockInNAND in (set_flash dev f, result)
  else (set_flash dev f, result).
End Device.

(** ** The table and the tags word *)

(** The table agrees with the bit-counting loop of [yaffs_ecc.c]. *)
Lemma CountBits_table x : is_u8 x -> yaffs_CountBits x = YaffsEcc.yaffs_CountBits x.
Proof.
  intros Hx. apply Z.eqb_eq.
  apply (all_below_spec 256 (fun x => yaffs_CountBits x =? YaffsEcc.yaffs_CountBits x) x);
    [by vm_compute | done].
Qed.

(** Eight bytes. *)
Definition tags_wf (t : yaffs_Tags) : Prop := length t = 8%nat /\ Forall is_u8 t.

Lemma tags_word_range t : tags_wf t -> 0 <= le_val t < 2 ^ 64.
Proof. intros [Hl Hu]. pose proof (le_val_range t Hu) as H. by rewrite Hl in H. Qed.

Lemma tags_word_inj t t' : tags_wf t -> tags_wf t' -> le_val t = le_val t' -> t = t'.
Proof.
  intros [Hl Hu] [Hl' Hu'] H. rewrite <- (le_bytes_val t Hu), <- (le_bytes_val t' Hu').
  by rewrite Hl, Hl', H.
Qed.

Lemma tags_eq t t' : tags_wf t -> tags_wf t' ->
  (forall i, 0 <= i < 64 -> Z.testbit (le_val t) i = Z.testbit (le_val t') i) -> t = t'.
Proof.
  intros Ht Ht' H. apply tags_word_inj; [done..|]. apply Z.bits_inj'. intros i Hi.
  destruct (Z.lt_ge_cases i 64); [by apply H|].
  by rewrite !(testbit_above 64) by auto using tags_word_range.
Qed.

Lemma set_field_wf off w v t : tags_wf (set_field off w v t).
Proof. split; [apply length_le_bytes | apply le_bytes_u8]. Qed.

Lemma set_field_testbit off w v t i : 0 <= off -> 0 <= w -> 0 <= i < 64 ->
  Z.testbit (le_val (set_field off w v t)) i =
  if (off <=? i) && (i <? off + w) then Z.testbit v (i - off) else Z.testbit (le_val t) i.
Proof.
  intros Ho Hw Hi. unfold set_field. rewrite le_val_bytes. change (256 ^ Z.of_nat 8) with (2 ^ 64).
  rewrite Z.mod_pow2_bits_low by lia.
  rewrite Z.lor_spec, Z.ldiff_spec, !Z.shiftl_spec, Z.land_spec by lia.
  destruct (Z.leb_spec off i); cbn [andb].
  - rewrite !Z.testbit_ones_nonneg by lia.
    destruct (Z.ltb_spec (i - off) w), (Z.ltb_spec i (off + w)); try lia; cbn [negb andb];
      rewrite ?andb_false_r, ?andb_true_r, ?orb_false_r; done.
  - rewrite !(Z.testbit_neg_r _ (i - off)) by lia. cbn [negb andb].
    by rewrite andb_true_r, orb_false_r.
Qed.

Lemma get_field_testbit off w t i : 0 <= off -> 0 <= w -> 0 <= i ->
  Z.testbit (get_field off w t) i = (i <? w) && Z.testbit (le_val t) (i + off).
Proof.
  intros. unfold get_field. rewrite Z.land_spec, Z.shiftr_spec, Z.testbit_ones_nonneg by lia.
  apply andb_comm.
Qed.

(** Bit [p] of the tags flipped. *)
Definition flip_tag (t : yaffs_Tags) (p : Z) : yaffs_Tags := flip_bit t (p / 8) (Z.land p 7).

Lemma land_7 p : 0 <= p -> Z.land p 7 = p mod 8.
Proof. intros. change 7 with (Z.ones 3). by rewrite Z.land_ones. Qed.

Lemma flip_tag_wf t p : tags_wf t -> 0 <= p -> tags_wf (flip_tag t p).
Proof.
  intros [Hl Hu] Hp. unfold flip_tag. split; [by rewrite flip_bit_length|].
  apply flip_bit_u8; [done|]. rewrite land_7 by done. by apply Z.mod_pos_bound.
Qed.

Lemma flip_tag_word t p : tags_wf t -> 0 <= p < 64 ->
  le_val (flip_tag t p) = Z.lxor (le_val t) (2 ^ p).
Proof.
  intros [Hl Hu] Hp. unfold flip_tag, flip_bit. rewrite Z.shiftl_1_l, land_7 by lia.
  pose proof (Z.mod_pos_bound p 8). pose proof (Z.div_mod p 8).
  assert (0 <= p / 8 < 8) by (split; [apply Z.div_pos | apply Z.div_lt_upper_bound]; lia).
  rewrite le_val_alter_lxor by (done || lia). do 2 f_equal. lia.
Qed.

Lemma flip_tag_testbit t p i : tags_wf t -> 0 <= p < 64 -> 0 <= i ->
  Z.testbit (le_val (flip_tag t p)) i = xorb (Z.testbit (le_val t) i) (p =? i).
Proof. intros. rewrite flip_tag_word, Z.lxor_spec, Z.pow2_bits_eqb by (done || lia). done. Qed.

(** ** The tags code *)

(** The exclusive or of the (1-based) positions of the set bits of [v] among its
    low [n], counted from [bit]. *)
Fixpoint xsum (n : nat) (bit v : Z) : Z :=
  match n with
  | O => 0
  | S n => Z.lxor (if Z.testbit v 0 then bit + 1 else 0) (xsum n (bit + 1) (Z.shiftr v 1))
  end.

Lemma xsum_flip n bit v p : 0 <= p < Z.of_nat n ->
  xsum n bit (Z.lxor v (2 ^ p)) = Z.lxor (xsum n bit v) (bit + p + 1).
Proof.
  revert bit v p. induction n as [|n IH]; intros bit v p Hp; [lia|]. cbn [xsum].
  rewrite Z.lxor_spec, Z.shiftr_lxor, Z.pow2_bits_eqb by lia.
  destruct (Z.eqb_spec p 0) as [->|Hne].
  - change (Z.shiftr (2 ^ 0) 1) with 0. rewrite Z.lxor_0_r, xorb_true_r.
    replace (bit + 0 + 1) with (bit + 1) by lia. set (r := xsum _ _ _).
    destruct (Z.testbit v 0); cbn [negb]; rewrite ?Z.lxor_0_l.
    + by rewrite (Z.lxor_comm (bit + 1)), lxor_cancel_r.
    + apply Z.lxor_comm.
  - rewrite xorb_false_r.
    assert (Z.shiftr (2 ^ p) 1 = 2 ^ (p - 1)) as ->
      by (rewrite Z.shiftr_div_pow2 by lia; rewrite <- Z.pow_sub_r by lia; done).
    rewrite IH by lia. rewrite Z.lxor_assoc. do 2 f_equal. lia.
Qed.

Lemma xsum_range n bit v : 0 <= bit -> bit + Z.of_nat n < 128 -> 0 <= xsum n bit v < 128.
Proof.
  revert bit v. induction n as [|n IH]; intros bit v Hb Hn; [simpl; lia|]. cbn [xsum].
  apply (lxor_range 7); [lia | destruct (Z.testbit v 0); lia |]. apply IH; lia.
Qed.

Lemma xsum_app n m bit v :
  xsum (n + m) bit v = Z.lxor (xsum n bit v) (xsum m (bit + Z.of_nat n) (Z.shiftr v (Z.of_nat n))).
Proof.
  revert bit v. induction n as [|n IH]; intros bit v; cbn [Nat.add xsum].
  { by rewrite Z.lxor_0_l, Z.add_0_r, Z.shiftr_0_r. }
  rewrite IH, Z.lxor_assoc. do 3 f_equal; [lia|].
  rewrite Z.shiftr_shiftr by lia. f_equal. lia.
Qed.

Lemma xsum_ext n bit v v' :
  (forall i, 0 <= i < Z.of_nat n -> Z.testbit v i = Z.testbit v' i) -> xsum n bit v = xsum n bit v'.
Proof.
  revert bit v v'. induction n as [|n IH]; intros bit v v' H; [done|]. cbn [xsum].
  rewrite (H 0) by lia. f_equal. apply IH. intros i Hi.
  rewrite !Z.shiftr_spec by lia. apply H. lia.
Qed.

Lemma tags_ecc_byte_step n b s bit ecc : 0 <= s -> s + Z.of_nat n = 8 -> 0 <= bit -> bit + Z.of_nat n < 1000 ->
  tags_ecc_byte (S n) b (2 ^ s) bit ecc =
  (bit + Z.of_nat n, Z.lxor ecc (xsum n bit (Z.shiftr b s))).
Proof.
  revert s bit ecc. induction n as [|n IH]; intros s bit ecc Hs Hn Hbit Hmax.
  { assert (s = 8) as -> by lia. cbn. by rewrite Z.add_0_r, Z.lxor_0_r. }
  remember (S n) as m. cbn [tags_ecc_byte]. subst m.
  rewrite (Z.land_comm (2 ^ s)), (truthy_land_bit 255 _ s), (truthy_land_bit b _ s) by done.
  change 255 with (Z.ones 8). rewrite Z.testbit_ones_nonneg, (proj2 (Z.ltb_lt s 8)) by lia.
  rewrite Z.shiftl_mul_pow2 by lia. change (2 ^ s * 2 ^ 1) with (2 ^ s * 2).
  replace (2 ^ s * 2) with (2 ^ (s + 1)) by (rewrite Z.pow_add_r; lia).
  rewrite (u32_id (bit + 1)) by (unfold is_u32; lia).
  rewrite (u32_id (2 ^ (s + 1))).
  2: { split; [lia|]. change 4294967296 with (2 ^ 32). apply Z.pow_lt_mono_r; lia. }
  rewrite IH by lia. cbn [xsum]. rewrite Z.shiftr_spec, Z.shiftr_shiftr, Z.add_0_l by lia.
  f_equal; [lia|]. destruct (Z.testbit b s); [by rewrite Z.lxor_assoc | by rewrite Z.lxor_0_l].
Qed.

Lemma tags_ecc_loop_xsum bs bit ecc : Forall is_u8 bs -> 0 <= bit ->
  bit + 8 * Z.of_nat (length bs) < 1000 ->
  tags_ecc_loop bs bit ecc = Z.lxor ecc (xsum (8 * length bs) bit (le_val bs)).
Proof.
  intros Hbs. revert bit ecc. induction Hbs as [|b bs Hb Hbs IH]; intros bit ecc Hbit Hmax.
  { simpl. by rewrite Z.lxor_0_r. }
  cbn [tags_ecc_loop length] in *. change 1 with (2 ^ 0) at 1. rewrite tags_ecc_byte_step by lia.
  rewrite Z.shiftr_0_r, IH by lia.
  replace (8 * S (length bs))%nat with (8 + 8 * length bs)%nat by lia.
  rewrite xsum_app, Z.lxor_assoc. do 2 f_equal.
  - apply xsum_ext. intros i Hi. cbn [le_val]. rewrite byte_cons_testbit by (done || lia).
    by rewrite (proj2 (Z.ltb_lt i 8)) by lia.
  - cbn [le_val]. apply xsum_ext. intros i Hi. rewrite Z.shiftr_spec by lia.
    rewrite byte_cons_testbit by (done || lia). rewrite (proj2 (Z.ltb_ge _ 8)) by lia.
    f_equal. lia.
Qed.

Lemma tags_ecc_loop_word t : tags_wf t -> tags_ecc_loop t 0 0 = xsum 64 0 (le_val t).
Proof.
  intros [Hl Hu]. rewrite tags_ecc_loop_xsum by (done || lia). by rewrite Z.lxor_0_l, Hl.
Qed.

Ltac tag_bits := repeat match goal with
  | |- context [Z.leb ?a ?b] => destruct (Z.leb_spec a b)
  | |- context [Z.ltb ?a ?b] => destruct (Z.ltb_spec a b)
  | |- context [Z.eqb ?a ?b] => destruct (Z.eqb_spec a b)
  end; cbn [andb]; try lia.

Lemma set_ecc_set_ecc a b t : set_ecc a (set_ecc b t) = set_ecc a t.
Proof.
  apply tags_eq; [apply set_field_wf..|]. intros i Hi. unfold set_ecc.
  rewrite !set_field_testbit by lia. by destruct (_ && _).
Qed.

Lemma CalcTagsECC_set x t : yaffs_CalcTagsECC (set_ecc x t) = yaffs_CalcTagsECC t.
Proof. unfold yaffs_CalcTagsECC. by rewrite (set_ecc_set_ecc 0 x). Qed.

Lemma tags_ecc_set e t : 0 <= e < 4096 -> tags_ecc (set_ecc e t) = e.
Proof.
  intros He. apply Z.bits_inj'. intros i Hi. unfold tags_ecc, set_ecc.
  rewrite get_field_testbit by lia. destruct (Z.ltb_spec i 12); cbn [andb].
  - rewrite set_field_testbit by lia. rewrite (proj2 (Z.leb_le 50 _)) by lia.
    rewrite (proj2 (Z.ltb_lt _ _)) by lia. cbn [andb]. f_equal. lia.
  - symmetry. apply (testbit_above 12); [exact He | lia].
Qed.

Lemma set_ecc_flip e t p : tags_wf t -> 0 <= p < 50 \/ 62 <= p < 64 ->
  set_ecc e (flip_tag t p) = flip_tag (set_ecc e t) p.
Proof.
  intros Ht Hp. apply tags_eq; [apply set_field_wf | apply flip_tag_wf;
    [apply set_field_wf | lia] |]. intros i Hi. unfold set_ecc.
  rewrite flip_tag_testbit, !set_field_testbit, flip_tag_testbit
    by (try apply set_field_wf; done || lia).
  destruct (_ && _) eqn:E; [|done]. apply andb_true_iff in E as [E1 E2].
  apply Z.leb_le in E1. apply Z.ltb_lt in E2.
  rewrite (proj2 (Z.eqb_neq p i)) by lia. by rewrite xorb_false_r.
Qed.

Lemma get_flip off w t p : tags_wf t -> 0 <= off -> 0 <= w -> off + w <= 64 ->
  0 <= p < off \/ off + w <= p < 64 -> 0 <= p -> get_field off w (flip_tag t p) = get_field off w t.
Proof.
  intros Ht Ho Hw How Hp Hp0. apply Z.bits_inj'. intros i Hi.
  rewrite !get_field_testbit, flip_tag_testbit by (done || lia).
  destruct (Z.ltb_spec i w); [|done]. cbn [andb].
  rewrite (proj2 (Z.eqb_neq p _)) by lia. by rewrite xorb_false_r.
Qed.

Lemma flip_tag_involutive t p : flip_tag (flip_tag t p) p = t.
Proof. apply flip_bit_involutive. Qed.

Lemma CalcTagsECC_wf t : tags_wf (yaffs_CalcTagsECC t).
Proof. apply set_field_wf. Qed.

Lemma CalcTagsECC_idem t : yaffs_CalcTagsECC (yaffs_CalcTagsECC t) = yaffs_CalcTagsECC t.
Proof. unfold yaffs_CalcTagsECC at 2. by rewrite !CalcTagsECC_set. Qed.

(** The code of tags [t], whatever their ECC field holds. *)
Definition tags_code (t : yaffs_Tags) : Z := xsum 64 0 (le_val (set_ecc 0 t)).

Lemma tags_code_range t : 0 <= tags_code t < 128.
Proof. apply xsum_range; lia. Qed.

Lemma tags_ecc_Calc t : tags_ecc (yaffs_CalcTagsECC t) = tags_code t.
Proof.
  unfold yaffs_CalcTagsECC. rewrite set_ecc_set_ecc, tags_ecc_loop_word by apply set_field_wf.
  pose proof (tags_code_range t). rewrite tags_ecc_set; [done | unfold tags_code in *; lia].
Qed.

Lemma tags_code_flip t p : tags_wf t -> 0 <= p < 50 \/ 62 <= p < 64 ->
  tags_code (flip_tag t p) = Z.lxor (tags_code t) (p + 1).
Proof.
  intros Ht Hp. unfold tags_code. rewrite set_ecc_flip by done.
  rewrite flip_tag_word by (try apply set_field_wf; lia). rewrite xsum_flip by lia.
  f_equal.
Qed.

Lemma CheckECC_clean t :
  yaffs_CheckECCOnTags (yaffs_CalcTagsECC t) = (yaffs_CalcTagsECC t, 0).
Proof.
  unfold yaffs_CheckECCOnTags. rewrite CalcTagsECC_idem, Z.lxor_nilpotent. done.
Qed.

(** How [yaffs_CheckECCOnTags] reads a code that is off by [d]. *)
Lemma CheckECC_syndrome t d : tags_wf t -> Z.lxor (tags_ecc t) (tags_code t) = d ->
  1 <= d <= 64 ->
  yaffs_CheckECCOnTags t = (yaffs_CalcTagsECC (flip_tag (yaffs_CalcTagsECC t) (d - 1)), 1).
Proof.
  intros Ht Hd Hr. unfold yaffs_CheckECCOnTags. rewrite tags_ecc_Calc, Hd.
  unfold truthy. rewrite (proj2 (Z.eqb_neq d 0)), (proj2 (Z.leb_le d 64)) by lia. done.
Qed.

Lemma CheckECC_flip t p : 0 <= p < 50 \/ 62 <= p < 64 ->
  yaffs_CheckECCOnTags (flip_tag (yaffs_CalcTagsECC t) p) = (yaffs_CalcTagsECC t, 1).
Proof.
  intros Hp. set (T := yaffs_CalcTagsECC t). pose proof (CalcTagsECC_wf t : tags_wf T) as HT.
  rewrite (CheckECC_syndrome _ (p + 1)); [| apply flip_tag_wf; [done|lia] | | lia].
  - replace (p + 1 - 1) with p by lia. f_equal.
    assert (exists c, yaffs_CalcTagsECC (flip_tag T p) = flip_tag (set_ecc c T) p) as [c ->].
    { eexists. unfold yaffs_CalcTagsECC. rewrite set_ecc_set_ecc. by apply set_ecc_flip. }
    rewrite flip_tag_involutive, CalcTagsECC_set. apply CalcTagsECC_idem.
  - unfold tags_ecc. rewrite get_flip by (done || lia). fold (tags_ecc T).
    rewrite tags_code_flip by done. unfold T at 1. rewrite tags_ecc_Calc.
    unfold tags_code, T, yaffs_CalcTagsECC. rewrite !set_ecc_set_ecc.
    apply lxor_cancel_l.
Qed.

(** Setting the ECC field erases a flip inside it. *)
Lemma set_ecc_flip_ecc e t p : tags_wf t -> 50 <= p < 62 ->
  set_ecc e (flip_tag t p) = set_ecc e t.
Proof.
  intros Ht Hp. apply tags_eq; [apply set_field_wf..|]. intros i Hi. unfold set_ecc.
  rewrite !set_field_testbit by lia. destruct (_ && _) eqn:E; [done|].
  rewrite flip_tag_testbit by (done || lia).
  destruct (Z.eqb_spec p i) as [->|]; [|by rewrite xorb_false_r].
  rewrite (proj2 (Z.leb_le 50 i)), (proj2 (Z.ltb_lt i _)) in E by lia. done.
Qed.

Lemma CalcTagsECC_flip_ecc t p : tags_wf t -> 50 <= p < 62 ->
  yaffs_CalcTagsECC (flip_tag t p) = yaffs_CalcTagsECC t.
Proof. intros. unfold yaffs_CalcTagsECC. by rewrite (set_ecc_flip_ecc 0) by done. Qed.

Lemma tags_code_flip_ecc t p : tags_wf t -> 50 <= p < 62 ->
  tags_code (flip_tag t p) = tags_code t.
Proof. intros. unfold tags_code. by rewrite set_ecc_flip_ecc by done. Qed.

Lemma tags_ecc_flip_ecc t k : tags_wf t -> 0 <= k < 12 ->
  tags_ecc (flip_tag t (50 + k)) = Z.lxor (tags_ecc t) (2 ^ k).
Proof.
  intros Ht Hk. apply Z.bits_inj'. intros i Hi. unfold tags_ecc.
  rewrite Z.lxor_spec, !get_field_testbit, flip_tag_testbit, Z.pow2_bits_eqb by (done || lia).
  destruct (Z.ltb_spec i 12); cbn [andb]; [f_equal | by rewrite (proj2 (Z.eqb_neq k i)) by lia].
  destruct (Z.eqb_spec (50 + k) (i + 50)), (Z.eqb_spec k i); done || lia.
Qed.

Lemma tags_ecc_stored t : tags_ecc (yaffs_CalcTagsECC t) = tags_code (yaffs_CalcTagsECC t).
Proof. by rewrite tags_ecc_Calc; unfold tags_code, yaffs_CalcTagsECC; rewrite !set_ecc_set_ecc. Qed.

Lemma CheckECC_flip_ecc t k : 0 <= k < 7 ->
  let stored := yaffs_CalcTagsECC t in
  yaffs_CheckECCOnTags (flip_tag stored (50 + k)) =
    (yaffs_CalcTagsECC (flip_tag stored (2 ^ k - 1)), 1).
Proof.
  intros Hk T. pose proof (CalcTagsECC_wf t : tags_wf T) as HT.
  assert (1 <= 2 ^ k <= 64) by (cases_below k 7; lia || done).
  rewrite (CheckECC_syndrome _ (2 ^ k)); [| apply flip_tag_wf; [done|lia] | | done].
  - rewrite (CalcTagsECC_flip_ecc T (50 + k)) by (done || lia).
    by rewrite (CalcTagsECC_idem t : yaffs_CalcTagsECC T = T).
  - rewrite tags_code_flip_ecc, tags_ecc_flip_ecc by (done || lia).
    rewrite (tags_ecc_stored t : tags_ecc T = tags_code T).
    rewrite Z.lxor_assoc, (Z.lxor_comm (2 ^ k)), <- Z.lxor_assoc, Z.lxor_nilpotent.
    apply Z.lxor_0_l.
Qed.

(** The code over the tags does not protect its own bits: when one of the
    seven low bits of the stored code flips and the tags themselves are intact,
    [yaffs_CheckECCOnTags] reports a recovered error and damages the tags, by
    flipping bit [2^k - 1] of them. *)
Lemma yaffs_CheckECCOnTags_miscorrects (t : yaffs_Tags) (k : Z) : 0 <= k < 7 ->
  let stored := yaffs_CalcTagsECC t in
  yaffs_CheckECCOnTags (flip_tag stored (50 + k)) =
    (yaffs_CalcTagsECC (flip_tag stored (2 ^ k - 1)), 1) /\
  (k < 5 -> tags_chunkId (fst (yaffs_CheckECCOnTags (flip_tag stored (50 + k)))) =
            Z.lxor (tags_chunkId stored) (2 ^ (2 ^ k - 1))).
Proof.
  intros Hk T. pose proof (CalcTagsECC_wf t : tags_wf T) as HT.
  pose proof (CheckECC_flip_ecc t k Hk) as Heq. fold T in Heq. cbv zeta in Heq.
  split; [exact Heq|]. intros Hk5. rewrite Heq. cbn [fst].
  assert (0 <= 2 ^ k - 1 < 20) as Hp by (cases_below k 5; lia || done).
  apply Z.bits_inj'. intros i Hi. unfold tags_chunkId.
  rewrite Z.lxor_spec, !get_field_testbit, Z.pow2_bits_eqb by lia.
  destruct (Z.ltb_spec i 20); cbn [andb].
  - unfold yaffs_CalcTagsECC, set_ecc. rewrite !set_field_testbit by lia.
    rewrite (proj2 (Z.leb_gt 50 _)) by lia. cbn [andb].
    rewrite flip_tag_testbit by (done || lia). by rewrite Z.add_0_r.
  - rewrite (proj2 (Z.eqb_neq _ i)) by lia. done.
Qed.

(** ** Noise on a page *)

(** At most one flipped bit in each half page and one in the tags, outside their
    code. *)
Record noise := Noise {
  noise1 : option (Z * Z);
  noise2 : option (Z * Z);
  noise_tags : option Z
}.

Definition flip_opt (o : option (Z * Z)) (base : Z) (data : list Z) : list Z :=
  match o with Some (byte, bit) => flip_bit data (base + byte) bit | None => data end.

Definition noise_ok (n : noise) : Prop :=
  (forall byte bit, noise1 n = Some (byte, bit) -> 0 <= byte < 256 /\ 0 <= bit < 8) /\
  (forall byte bit, noise2 n = Some (byte, bit) -> 0 <= byte < 256 /\ 0 <= bit < 8) /\
  (forall p, noise_tags n = Some p -> 0 <= p < 50 \/ 62 <= p < 64).

Definition noisy_data (n : noise) (data : list Z) : list Z :=
  flip_opt (noise1 n) 0 (flip_opt (noise2 n) 256 data).

Definition noisy_tags (n : noise) (t : yaffs_Tags) : yaffs_Tags :=
  match noise_tags n with Some p => flip_tag t p | None => t end.

(** The spare with its tag bytes replaced. *)
Definition with_tags (s : yaffs_Spare) (t : yaffs_Tags) : yaffs_Spare :=
  default s (put_tags s t).

Definition noisy_spare (n : noise) (s : yaffs_Spare) : yaffs_Spare :=
  with_tags s (noisy_tags n (spare_tags s)).

Definition one_if {A} (o : option A) : Z :=
  match o with Some _ => 1 | None => 0 end.

Lemma ECCCorrect_same wo data e : yaffs_ECCCorrect wo data e e = (data, e, 0).
Proof. destruct e as [[e0 e1] e2]. unfold yaffs_ECCCorrect. by rewrite !Z.lxor_nilpotent. Qed.

Lemma ECCCalculate_take wo d d' : take 256 d = take 256 d' ->
  yaffs_ECCCalculate wo d = yaffs_ECCCalculate wo d'.
Proof. intros H. by rewrite !ECCCalculate_encode, H. Qed.

Lemma flip_high d byte bit : 0 <= byte ->
  take 256 (flip_bit d (256 + byte) bit) = take 256 d /\
  drop 256 (flip_bit d (256 + byte) bit) = flip_bit (drop 256 d) byte bit.
Proof.
  intros Hb. unfold flip_bit. split.
  - apply take_alter_ge. lia.
  - rewrite drop_alter_ge by lia. f_equal. lia.
Qed.

Lemma flip_low d byte bit : 0 <= byte < 256 ->
  drop 256 (flip_bit d (0 + byte) bit) = drop 256 d.
Proof. intros Hb. unfold flip_bit. apply drop_alter_lt. lia. Qed.

(** One half page: corrected whenever at most one bit is off. *)
Lemma half_corrected wo d o :
  Forall is_u8 d -> (256 <= length d)%nat ->
  (forall byte bit, o = Some (byte, bit) -> 0 <= byte < 256 /\ 0 <= bit < 8) ->
  let e := yaffs_ECCCalculate wo d in
  yaffs_ECCCorrect wo (flip_opt o 0 d) e (yaffs_ECCCalculate wo (flip_opt o 0 d)) =
  (d, e, one_if o).
Proof.
  intros Hu Hl Ho e. subst e. destruct o as [[byte bit]|]; cbn [flip_opt one_if].
  - destruct (Ho byte bit eq_refl). rewrite Z.add_0_l. by apply ECCCorrect_single.
  - apply ECCCorrect_same.
Qed.

Lemma correct_page_ok wo d s n : noise_ok n ->
  Forall is_u8 d -> length d = 512%nat ->
  ecc1 s = yaffs_ECCCalculate wo d -> ecc2 s = yaffs_ECCCalculate wo (drop 256 d) ->
  correct_page wo (noisy_data n d) s = (d, s, one_if (noise1 n), one_if (noise2 n)).
Proof.
  intros (H1 & H2 & _) Hu Hl He1 He2. unfold correct_page, noisy_data. rewrite He1, He2.
  set (d2 := flip_opt (noise2 n) 256 d).
  assert (take 256 d2 = take 256 d /\ drop 256 d2 = flip_opt (noise2 n) 0 (drop 256 d) /\
    Forall is_u8 d2 /\ length d2 = 512%nat) as (Ht & Hd & Hu2 & Hl2).
  { subst d2. destruct (noise2 n) as [[byte bit]|]; cbn [flip_opt]; [|done].
    destruct (H2 byte bit eq_refl) as [Hb Hk]. destruct (flip_high d byte bit) as [-> ->]; [lia|].
    split; [done|]. split; [by rewrite Z.add_0_l|].
    split; [by apply flip_bit_u8 | by rewrite flip_bit_length]. }
  rewrite (ECCCalculate_take wo d d2) by done.
  rewrite (half_corrected wo d2) by (done || lia). rewrite Hd.
  rewrite half_corrected; [| by apply Forall_drop | rewrite length_drop; lia | done].
  rewrite Ht, take_drop. rewrite <- (ECCCalculate_take wo d d2), <- He1, <- He2 by done.
  by destruct s.
Qed.

Lemma put_tags_ok s t : length t = 8%nat ->
  put_tags s t = Some (with_tags s t) /\ spare_tags (with_tags s t) = t /\
  pageStatus (with_tags s t) = pageStatus s /\ blockStatus (with_tags s t) = blockStatus s /\
  ecc1 (with_tags s t) = ecc1 s /\ ecc2 (with_tags s t) = ecc2 s.
Proof.
  intros Hl. do 8 (destruct t as [|? t]; [discriminate|]). by destruct t; [|discriminate].
Qed.

(** Bits 57 to 61 of tags with their code are clear, so a spare holding tags is
    never all ones. *)
Lemma stored_tags_not_erased t n s : noise_ok n ->
  spare_tags s = noisy_tags n (yaffs_CalcTagsECC t) -> s <> yaffs_SpareInitialise.
Proof.
  intros (_ & _ & Hn) Hs ->. unfold noisy_tags in Hs.
  apply (f_equal (fun t => Z.testbit (le_val t) 57)) in Hs.
  assert (Z.testbit (le_val (yaffs_CalcTagsECC t)) 57 = false) as Hf.
  { unfold yaffs_CalcTagsECC. fold (tags_code t). unfold set_ecc at 1.
    rewrite set_field_testbit by lia. cbn [Z.leb Z.ltb Z.compare andb Pos.compare Pos.compare_cont].
    rewrite tags_ecc_loop_word by apply set_field_wf.
    apply (testbit_above 7); [apply (tags_code_range t) | lia]. }
  destruct (noise_tags n) as [p|].
  - rewrite flip_tag_testbit in Hs by (try apply CalcTagsECC_wf; specialize (Hn p eq_refl); lia).
    rewrite Hf, (proj2 (Z.eqb_neq p 57)) in Hs by (specialize (Hn p eq_refl); lia). done.
  - by rewrite Hf in Hs.
Qed.

Lemma get_set_same off w v t : 0 <= off -> 0 <= w -> off + w <= 64 -> 0 <= v < 2 ^ w ->
  get_field off w (set_field off w v t) = v.
Proof.
  intros Ho Hw How Hv. apply Z.bits_inj'. intros i Hi. rewrite get_field_testbit by lia.
  destruct (Z.ltb_spec i w); cbn [andb].
  - rewrite set_field_testbit by lia. rewrite (proj2 (Z.leb_le _ _)), (proj2 (Z.ltb_lt _ _)) by lia.
    cbn [andb]. f_equal. lia.
  - symmetry. by apply (testbit_above w).
Qed.

Lemma get_set_other off w off' w' v t : 0 <= off -> 0 <= w -> 0 <= off' -> 0 <= w' ->
  off + w <= off' \/ off' + w' <= off -> off + w <= 64 ->
  get_field off w (set_field off' w' v t) = get_field off w t.
Proof.
  intros Ho Hw Ho' Hw' Hd How. apply Z.bits_inj'. intros i Hi. rewrite !get_field_testbit by lia.
  destruct (Z.ltb_spec i w); cbn [andb]; [|done]. rewrite set_field_testbit by lia.
  destruct (Z.leb_spec off' (i + off)), (Z.ltb_spec (i + off) (off' + w')); cbn [andb]; done || lia.
Qed.

(** Tag values that fit their bit fields. *)
Record tags1_ok (e : yaffs_ExtendedTags) : Prop := {
  t1_chunk : 0 <= chunkId e < 2 ^ 20;
  t1_serial : 0 <= serialNumber e < 2 ^ 2;
  t1_count : 0 <= byteCount e < 2 ^ 10;
  t1_object : 0 <= objectId e < 2 ^ 18
}.

Lemma tags_of_extended_fields stack e : tags1_ok e ->
  let t := yaffs_CalcTagsECC (tags_of_extended stack e) in
  tags_chunkId t = chunkId e /\ tags_serialNumber t = serialNumber e /\
  tags_byteCount t = byteCount e /\ tags_objectId t = objectId e.
Proof.
  intros [H1 H2 H3 H4] t. subst t. unfold yaffs_CalcTagsECC. rewrite set_ecc_set_ecc.
  unfold tags_chunkId, tags_serialNumber, tags_byteCount, tags_objectId, tags_of_extended,
    set_ecc, set_chunkId, set_serialNumber, set_byteCount, set_objectId.
  repeat split; repeat (rewrite get_set_other by lia); by apply get_set_same.
Qed.

(** ** The flash *)

(** What the layer relies on in a driver that leaves error correction to it: a
    page read back is the page last written, other pages are untouched; writing
    a spare alone can only clear bits of the block status. *)
Class NandLaws (D : NandDriver) := {
  stored : nand -> Z -> option (list Z * yaffs_Spare);
  write_stored : forall f c d s f', writeChunkToNAND f c (Some d) s = (f', YAFFS_OK) ->
    stored f' c = Some (d, s);
  write_spare_stored : forall f c s f' r, writeChunkToNAND f c None s = (f', r) ->
    r = YAFFS_OK -> is_u8 (blockStatus s) ->
    exists d s' x, stored f' c = Some (d, s') /\
      is_u8 x /\ blockStatus s' = Z.land x (blockStatus s);
  write_other : forall f c c' d s f' r, writeChunkToNAND f c d s = (f', r) -> c <> c' ->
    stored f' c' = stored f c';
  read_stored : forall f c data ns d s, stored f c = Some (d, s) ->
    exists f' e1 e2, readChunkFromNAND f c data (Some ns) =
      (f', (fun _ => d) <$> data, Some (NANDSpare s e1 e2), YAFFS_OK) /\
      forall c', stored f' c' = stored f c'
}.

Section Chunks.
Context {D : NandDriver} {L : NandLaws D}.

Lemma cfg_set_flash (dev : yaffs_Device) f : cfg (set_flash dev f) = cfg dev.
Proof. by destruct dev. Qed.
Lemma cfg_count_read (dev : yaffs_Device) : cfg (count_read dev) = cfg dev.
Proof. by destruct dev. Qed.
Lemma flash_count_read (dev : yaffs_Device) : flash (count_read dev) = flash dev.
Proof. by destruct dev. Qed.
Lemma blockInfo_set_flash (dev : yaffs_Device) f : blockInfo (set_flash dev f) = blockInfo dev.
Proof. by destruct dev. Qed.
Lemma blockInfo_count_read (dev : yaffs_Device) : blockInfo (count_read dev) = blockInfo dev.
Proof. by destruct dev. Qed.
Lemma count_ecc_same (dev : yaffs_Device) r :
  cfg (count_ecc dev r) = cfg dev /\ blockInfo (count_ecc dev r) = blockInfo dev.
Proof. unfold count_ecc. destruct dev, (0 <? r), (r <? 0); done. Qed.
Lemma set_blockInfo_same (dev : yaffs_Device) b :
  cfg (set_blockInfo dev b) = cfg dev /\ blockInfo (set_blockInfo dev b) = b.
Proof. by destruct dev. Qed.

(** The blocks the device manages. *)
Definition blocks_wf (dev : yaffs_Device) : Prop :=
  Z.of_nat (length (blockInfo dev)) =
  internalEndBlock (cfg dev) - internalStartBlock (cfg dev) + 1.

Definition managed (dev : yaffs_Device) (chunk : Z) : Prop :=
  internalStartBlock (cfg dev) <= Z.quot chunk (nChunksPerBlock (cfg dev))
    <= internalEndBlock (cfg dev).

Lemma GetBlockInfo_ok (dev : yaffs_Device) blk : blocks_wf dev ->
  internalStartBlock (cfg dev) <= blk <= internalEndBlock (cfg dev) ->
  exists bi, yaffs_GetBlockInfo dev blk =
    Some (Z.to_nat (blk - internalStartBlock (cfg dev)), bi) /\
    blockInfo dev !! Z.to_nat (blk - internalStartBlock (cfg dev)) = Some bi.
Proof.
  intros Hwf Hb. unfold yaffs_GetBlockInfo.
  rewrite (proj2 (Z.ltb_ge _ _)), (proj2 (Z.ltb_ge _ _)) by lia. cbn [orb].
  destruct (lookup_lt_is_Some_2 (blockInfo dev)
    (Z.to_nat (blk - internalStartBlock (cfg dev)))) as [bi Hbi];
    [unfold blocks_wf in Hwf; lia|].
  exists bi. by rewrite Hbi.
Qed.

Definition data_noise (n : noise) : bool :=
  match noise1 n, noise2 n with None, None => false | _, _ => true end.

(** The block table with the block of [chunk] marked for retirement. *)
Definition retired (dev : yaffs_Device) (chunk : Z) : list yaffs_BlockInfo :=
  alter (fun bi => BlockInfo true (gcPrioritise bi) (chunkErrorStrikes bi))
    (Z.to_nat (Z.quot chunk (nChunksPerBlock (cfg dev)) - internalStartBlock (cfg dev)))
    (blockInfo dev).

Lemma insert_alter_lookup {A} (f : A -> A) (l : list A) i x :
  l !! i = Some x -> <[i := f x]> l = alter f i l.
Proof.
  intros H. rewrite (alter_take_drop f l i x H).
  by rewrite insert_take_drop by (by eapply lookup_lt_Some).
Qed.

Lemma HandleReadDataError_ok (dev : yaffs_Device) chunk : blocks_wf dev -> managed dev chunk ->
  yaffs_HandleReadDataError dev chunk = Some (set_blockInfo dev (retired dev chunk)).
Proof.
  intros Hwf Hm. unfold yaffs_HandleReadDataError.
  destruct (GetBlockInfo_ok dev _ Hwf Hm) as (bi & -> & Hbi). cbn [mbind option_bind].
  unfold retired. by rewrite <- (insert_alter_lookup _ _ _ bi Hbi).
Qed.

Lemma retire_on_ok (dev : yaffs_Device) chunk n :
  (data_noise n = true -> blocks_wf dev /\ managed dev chunk) ->
  exists dev', retire_on dev chunk (one_if (noise1 n)) (one_if (noise2 n)) = Some dev' /\
    cfg dev' = cfg dev /\
    blockInfo dev' = if data_noise n then retired dev chunk else blockInfo dev.
Proof.
  intros Hn. unfold retire_on, data_noise in *.
  destruct (noise1 n), (noise2 n); cbn; try (destruct (Hn eq_refl);
    rewrite HandleReadDataError_ok by done; eexists; split; [reflexivity|];
    apply set_blockInfo_same). by eexists.
Qed.

Lemma ReadChunkFromNAND_ok wo (dev : yaffs_Device) c buf sp0 n d s ecc0 junk :
  useNANDECC (cfg dev) = false -> noise_ok n ->
  stored (flash dev) c = Some (noisy_data n d, s) ->
  Forall is_u8 d -> length d = 512%nat ->
  ecc1 s = yaffs_ECCCalculate wo d -> ecc2 s = yaffs_ECCCalculate wo (drop 256 d) ->
  (data_noise n = true -> blocks_wf dev /\ managed dev c) ->
  exists dev', yaffs_ReadChunkFromNAND wo dev c (Some buf) (Some sp0) ecc0 true junk =
    Some (dev', Some d, Some s, ecc_summary (one_if (noise1 n)) (one_if (noise2 n)), YAFFS_OK) /\
    cfg dev' = cfg dev /\
    blockInfo dev' = if data_noise n then retired dev c else blockInfo dev.
Proof.
  intros Hecc Hn Hst Hu Hl He1 He2 Hm. unfold yaffs_ReadChunkFromNAND.
  rewrite cfg_count_read, Hecc, flash_count_read. cbn [negb fmap option_fmap option_map].
  destruct (read_stored (flash dev) c (Some buf) (NANDSpare sp0 0 0) _ _ Hst)
    as (f' & e1 & e2 & -> & _). cbn [fmap option_fmap option_map mbind option_bind ns_spare].
  rewrite correct_page_ok by done.
  set (dev1 := count_ecc (count_ecc (set_flash (count_read dev) f') _) _).
  assert (cfg dev1 = cfg dev /\ blockInfo dev1 = blockInfo dev) as [Hc Hb].
  { subst dev1. split.
    - by rewrite !(proj1 (count_ecc_same _ _)), cfg_set_flash, cfg_count_read.
    - by rewrite !(proj2 (count_ecc_same _ _)), blockInfo_set_flash, blockInfo_count_read. }
  clearbody dev1. destruct (retire_on_ok dev1 c n) as (dev' & -> & Hc' & Hb').
  { intros Hx. destruct (Hm Hx) as [H1 H2]. unfold blocks_wf, managed in *. by rewrite Hc, Hb. }
  cbn [mbind option_bind]. exists dev'. split; [done|]. split; [congruence|].
  rewrite Hb'. unfold retired. by rewrite Hc, Hb.
Qed.

Lemma GetTagsFromSpare_ok (dev : yaffs_Device) s t n : noise_ok n ->
  spare_tags s = noisy_tags n (yaffs_CalcTagsECC t) ->
  exists dev', yaffs_GetTagsFromSpare dev s = (dev', yaffs_CalcTagsECC t) /\
    cfg dev' = cfg dev /\ blockInfo dev' = blockInfo dev.
Proof.
  intros (_ & _ & Hn) Hs. unfold yaffs_GetTagsFromSpare. rewrite Hs. unfold noisy_tags.
  destruct (noise_tags n) as [p|].
  - rewrite CheckECC_flip by auto. eexists. split; [reflexivity|]. by destruct dev.
  - rewrite CheckECC_clean. eexists. split; [reflexivity|]. by destruct dev.
Qed.

(** What a read returns for a page that [make_spare] described and noise hit. *)
Lemma TagsCompat_read_ok wo (dev : yaffs_Device) c buf n d e stack s et ecc0 junk :
  useNANDECC (cfg dev) = false -> noise_ok n ->
  Forall is_u8 d -> length d = 512%nat ->
  truthy (chunkDeleted e) = false ->
  make_spare wo false (Some d) e stack = Some s ->
  stored (flash dev) c = Some (noisy_data n d, noisy_spare n s) ->
  (data_noise n = true -> blocks_wf dev /\ managed dev c) ->
  exists dev', yaffs_TagsCompatabilityReadChunkWithTagsFromNAND wo dev c (Some buf)
      (Some et) ecc0 junk =
    Some (dev', Some d,
      Some (extended_of_spare et yaffs_SpareInitialise
        (ecc_summary (one_if (noise1 n)) (one_if (noise2 n))) true
        (yaffs_CalcTagsECC (tags_of_extended stack e))), YAFFS_OK) /\
    cfg dev' = cfg dev /\
    blockInfo dev' = if data_noise n then retired dev c else blockInfo dev.
Proof.
  intros Hecc Hn Hu Hl Hdel Hmk Hst Hm. unfold make_spare in Hmk. rewrite Hdel in Hmk.
  cbn [negb] in Hmk. unfold yaffs_LoadTagsIntoSpare in Hmk.
  set (T := yaffs_CalcTagsECC (tags_of_extended stack e)) in *.
  destruct (put_tags_ok (yaffs_CalcECC wo d yaffs_SpareInitialise) T) as
    (Hput & Htags & Hps & _ & He1 & He2); [apply CalcTagsECC_wf|].
  rewrite Hput in Hmk. injection Hmk as <-. set (s := with_tags _ T) in *.
  assert (length (noisy_tags n (spare_tags s)) = 8%nat) as Hnl.
  { rewrite Htags. unfold noisy_tags. destruct (noise_tags n); [|apply CalcTagsECC_wf].
    unfold flip_tag. rewrite flip_bit_length. apply CalcTagsECC_wf. }
  destruct (put_tags_ok s _ Hnl) as (_ & Htags' & Hps' & _ & He1' & He2').
  fold (noisy_spare n s) in Htags', Hps', He1', He2'. rewrite Htags in Htags'.
  unfold yaffs_TagsCompatabilityReadChunkWithTagsFromNAND.
  destruct (ReadChunkFromNAND_ok wo dev c buf (ns_spare junk) n d (noisy_spare n s) ecc0 junk)
    as (dev1 & -> & Hc & Hb); [done | done | done | done | done | | | done |].
  { by rewrite He1', He1. } { by rewrite He2', He2. }
  cbn [mbind option_bind truthy YAFFS_OK Z.eqb negb].
  rewrite (bool_decide_eq_false_2 (noisy_spare n s = _))
    by (by eapply stored_tags_not_erased). cbn [negb].
  destruct (GetTagsFromSpare_ok dev1 (noisy_spare n s) (tags_of_extended stack e) n Hn Htags')
    as (dev2 & -> & Hc2 & Hb2).
  exists dev2. split; [|split; congruence]. do 4 f_equal. unfold extended_of_spare.
  by rewrite Hps', Hps.
Qed.

Lemma ecc_summary_noise n :
  ecc_summary (one_if (noise1 n)) (one_if (noise2 n)) =
  if data_noise n then YAFFS_ECC_RESULT_FIXED else YAFFS_ECC_RESULT_NO_ERROR.
Proof. unfold data_noise. by destruct (noise1 n), (noise2 n). Qed.

(** The page a successful write leaves on the flash. *)
Lemma WriteChunkWithTags_stored wo (dev dev1 : yaffs_Device) chunk data e t1 stack :
  useNANDECC (cfg dev) = false -> truthy (chunkDeleted e) = false ->
  yaffs_WriteChunkWithTagsToNAND wo dev chunk (Some data) (Some e) stack =
    Some (dev1, t1, YAFFS_OK) ->
  exists s, make_spare wo false (Some data) e stack = Some s /\
    stored (flash dev1) (chunk - chunkOffset (cfg dev)) = Some (data, s).
Proof.
  intros Hecc Hdel Hw. unfold yaffs_WriteChunkWithTagsToNAND in Hw.
  cbn [mbind option_bind] in Hw. destruct (negb _); [done|].
  unfold yaffs_TagsCompatabilityWriteChunkWithTagsToNAND in Hw. rewrite Hecc in Hw.
  unfold make_spare in *. cbn [chunkDeleted objectId chunkId byteCount serialNumber] in Hw.
  rewrite Hdel in *. unfold tags_of_extended in *.
  cbn [objectId chunkId byteCount serialNumber negb] in *.
  destruct (yaffs_LoadTagsIntoSpare _ _) as [s|]; cbn [mbind option_bind] in Hw; [|done].
  exists s. split; [done|]. unfold yaffs_WriteChunkToNAND in Hw.
  destruct (_ <? _); [done|].
  destruct (writeChunkToNAND _ _ _ _) as [f r] eqn:Hwr. injection Hw as <- _ ->.
  replace (flash (set_flash (count_write dev) f)) with f by (by destruct dev).
  by eapply write_stored.
Qed.


(** The block marked for retirement is the wrong one.  When the device
    starts at block 0, [yaffs_GutsInitialise] shifts all block numbers by one
    ([chunkOffset = nChunksPerBlock]); [yaffs_HandleReadDataError] is called with
    the unshifted chunk number.  A corrected error in block [b] then marks block
    [b - 1] and no other. *)
Lemma yaffs_read_error_marks_previous_block (wo : bool) (dev : yaffs_Device) (chunk : Z)
    (data buf : list Z) (e et : yaffs_ExtendedTags) (stack : yaffs_Tags)
    (n : noise) (s : yaffs_Spare) (ecc0 : yaffs_ECCResult) (junk : yaffs_NANDSpare) :
  useNANDECC (cfg dev) = false -> truthy (chunkDeleted e) = false ->
  Forall is_u8 data -> length data = 512%nat -> noise_ok n -> data_noise n = true ->
  make_spare wo false (Some data) e stack = Some s ->
  stored (flash dev) (chunk - chunkOffset (cfg dev)) =
    Some (noisy_data n data, noisy_spare n s) ->
  blocks_wf dev -> 0 < nChunksPerBlock (cfg dev) -> 0 < internalStartBlock (cfg dev) ->
  chunkOffset (cfg dev) = nChunksPerBlock (cfg dev) ->
  let b := Z.quot chunk (nChunksPerBlock (cfg dev)) in
  internalStartBlock (cfg dev) < b <= internalEndBlock (cfg dev) ->
  exists dev', yaffs_TagsCompatabilityReadChunkWithTagsFromNAND wo dev
      (chunk - chunkOffset (cfg dev)) (Some buf) (Some et) ecc0 junk =
    Some (dev', Some data,
      Some (extended_of_spare et yaffs_SpareInitialise YAFFS_ECC_RESULT_FIXED true
        (yaffs_CalcTagsECC (tags_of_extended stack e))), YAFFS_OK) /\
    blockInfo dev' =
      alter (fun bi => BlockInfo true (gcPrioritise bi) (chunkErrorStrikes bi))
        (Z.to_nat (b - 1 - internalStartBlock (cfg dev))) (blockInfo dev).
Proof.
  intros Hecc Hdel Hu Hl Hn Hnoise Hmk Hst Hwf Hpos Hstart Hoff b Hb.
  assert (Z.quot (chunk - chunkOffset (cfg dev)) (nChunksPerBlock (cfg dev)) = b - 1) as Hq.
  { rewrite Hoff. assert (nChunksPerBlock (cfg dev) <= chunk).
    { destruct (Z.le_gt_cases (nChunksPerBlock (cfg dev)) chunk) as [|Hlt]; [done|].
      assert (b <= 0); [|lia]. subst b. destruct (Z.le_gt_cases 0 chunk).
      - rewrite Z.quot_small; lia.
      - apply Z.quot_le_upper_bound; lia. }
    subst b. rewrite !Z.quot_div_nonneg by lia.
    replace (chunk - nChunksPerBlock (cfg dev)) with
      (chunk + (-1) * nChunksPerBlock (cfg dev)) by lia. rewrite Z.div_add by lia. lia. }
  destruct (TagsCompat_read_ok wo dev (chunk - chunkOffset (cfg dev)) buf n data e stack s
    et ecc0 junk) as (dev' & -> & Hc & Hbi); [done..| |].
  { intros _. split; [done|]. unfold managed. rewrite Hq. lia. }
  exists dev'. rewrite ecc_summary_noise, Hnoise. split; [done|].
  rewrite Hbi, Hnoise. unfold retired. by rewrite Hq.
Qed.

Lemma bad_status_bits x y : is_u8 x -> is_u8 y ->
  (yaffs_CountBits (Z.land (Z.land x 89) (Z.land y 89)) <? 7) = true.
Proof.
  intros Hx Hy.
  replace (Z.land (Z.land x 89) (Z.land y 89)) with (Z.land (Z.land x y) 89)
    by (bitwise; destruct (Z.testbit x i), (Z.testbit y i), (Z.testbit 89 i); done).
  assert (is_u8 (Z.land x y)) as Hz.
  { assert (Z.land x y = u8 (Z.land x y)) as ->; [|auto]. bitwise.
    destruct (Z.ltb_spec i 8); [done|]. by rewrite (testbit_above 8 x) by (done || lia). }
  apply (all_below_spec 256 (fun z => yaffs_CountBits (Z.land z 89) <? 7) (Z.land x y));
    [by vm_compute | done].
Qed.

(** Reading only the spare of a page. *)
Lemma ReadSpare_ok wo (dev : yaffs_Device) c sp0 d s ecc0 junk :
  stored (flash dev) c = Some (d, s) ->
  exists dev', yaffs_ReadChunkFromNAND wo dev c None (Some sp0) ecc0 true junk =
    Some (dev', None, Some s, ecc0, YAFFS_OK) /\ cfg dev' = cfg dev /\
    forall c', stored (flash dev') c' = stored (flash dev) c'.
Proof.
  intros Hst. unfold yaffs_ReadChunkFromNAND. rewrite cfg_count_read, flash_count_read.
  assert (forall f, flash (set_flash (count_read dev) f) = f) as Hf by (by destruct dev).
  destruct (useNANDECC (cfg dev)); cbn [negb fmap option_fmap option_map].
  - destruct (read_stored (flash dev) c None junk _ _ Hst) as (f' & e1 & e2 & -> & Hsame).
    eexists. split; [reflexivity|]. by rewrite cfg_set_flash, cfg_count_read, Hf.
  - destruct (read_stored (flash dev) c None (NANDSpare sp0 0 0) _ _ Hst)
      as (f' & e1 & e2 & -> & Hsame).
    eexists. split; [reflexivity|]. by rewrite cfg_set_flash, cfg_count_read, Hf.
Qed.

(** (C14) A block marked bad stays bad: on a flash that accepts the marker
    writes of [yaffs_MarkBlockBad], a later
    [yaffs_QueryInitialBlockState] of the block reports it dead, whatever the
    marker pages held before (a spare write can only clear status bits). *)
Theorem yaffs_MarkBlockBad_sticks (wo : bool) (dev : yaffs_Device) (blk : Z)
    (junk : yaffs_NANDSpare) :
  (forall f c s f' r, writeChunkToNAND f c None s = (f', r) -> r = YAFFS_OK) ->
  startBlock (cfg dev) <= blk - blockOffset (cfg dev) -> 0 < nChunksPerBlock (cfg dev) ->
  let dev1 := fst (yaffs_MarkBlockBad dev blk) in
  exists dev2, yaffs_QueryInitialBlockState wo dev1 blk junk =
    Some (dev2, YAFFS_BLOCK_STATE_DEAD, 0, YAFFS_OK).
Proof.
  intros Hok Hstart Hpos. unfold yaffs_MarkBlockBad, yaffs_TagsCompatabilityMarkNANDBlockBad.
  set (c := (blk - blockOffset (cfg dev)) * nChunksPerBlock (cfg dev)).
  assert (startBlock (cfg dev) * nChunksPerBlock (cfg dev) <= c) as Hc by (subst c; nia).
  unfold yaffs_WriteChunkToNAND at 1. rewrite (proj2 (Z.ltb_ge _ _)) by lia.
  destruct (writeChunkToNAND _ c None _) as [f1 r1] eqn:H1. cbn [fst].
  set (d1 := set_flash (count_write dev) f1).
  assert (cfg d1 = cfg dev /\ flash d1 = f1) as [Hcfg1 Hf1] by (subst d1; by destruct dev).
  unfold yaffs_WriteChunkToNAND. rewrite Hcfg1, (proj2 (Z.ltb_ge _ _)) by lia.
  replace (flash (count_write d1)) with f1 by (rewrite <- Hf1; by destruct d1).
  destruct (writeChunkToNAND f1 (c + 1) None _) as [f2 r2] eqn:H2. cbn [fst].
  set (d2 := set_flash (count_write d1) f2).
  assert (cfg d2 = cfg dev /\ flash d2 = f2) as [Hcfg2 Hf2]
    by (subst d2; rewrite <- Hcfg1; by destruct d1). clearbody d2. clear d1 Hcfg1 Hf1.
  destruct (write_spare_stored _ _ _ _ _ H1 (Hok _ _ _ _ _ H1) ltac:(done)) as (p1 & s1 & x1 & Hs1 & Hx1 & Hb1).
  destruct (write_spare_stored _ _ _ _ _ H2 (Hok _ _ _ _ _ H2) ltac:(done)) as (p2 & s2 & x2 & Hs2 & Hx2 & Hb2).
  rewrite <- (write_other _ _ c _ _ _ _ H2) in Hs1 by lia. rewrite <- Hf2 in Hs1, Hs2.
  unfold yaffs_QueryInitialBlockState, yaffs_TagsCompatabilityQueryNANDBlock.
  rewrite Hcfg2. fold c.
  destruct (ReadSpare_ok wo d2 c (ns_spare junk) _ _ YAFFS_ECC_RESULT_UNKNOWN junk Hs1)
    as (d3 & -> & _ & Hsame). cbn [mbind option_bind]. rewrite <- Hsame in Hs2.
  destruct (ReadSpare_ok wo d3 (c + 1) (ns_spare junk) _ _ YAFFS_ECC_RESULT_UNKNOWN junk Hs2)
    as (d4 & -> & _ & _). cbn [mbind option_bind].
  rewrite Hb1, Hb2. cbn [bad_block_spare blockStatus]. rewrite bad_status_bits by done.
  by eexists.
Qed.
End Chunks.

(** ** A driver in memory *)

Definition mem_driver : NandDriver := {|
  nand := gmap Z (list Z * yaffs_Spare);
  writeChunkToNAND f c data s :=
    (match data with
     | Some d => <[c := (d, s)]> f
     | None => <[c := (default [] (fst <$> f !! c), s)]> f
     end, YAFFS_OK);
  readChunkFromNAND f c data ns :=
    match f !! c with
    | Some (d, s) => (f, (fun _ => d) <$> data, (fun _ => NANDSpare s 0 0) <$> ns, YAFFS_OK)
    | None => (f, data, ns, YAFFS_FAIL)
    end;
  eraseBlockInNAND f b := (∅, YAFFS_OK)
|}.

Lemma mem_laws : NandLaws mem_driver.
Proof.
  refine {| stored := fun (f : @nand mem_driver) c => (f : gmap Z (list Z * yaffs_Spare)) !! c |}.
  - intros f c d s f' [= <-]. apply lookup_insert_eq.
  - intros f c s f' r [= <- <-] _ Hs.
    exists (default [] (fst <$> (f : gmap Z (list Z * yaffs_Spare)) !! c)), s, 255.
    split; [apply lookup_insert_eq|]. split; [done|].
    rewrite Z.land_comm. change 255 with (Z.ones 8). rewrite Z.land_ones by lia.
    symmetry. by apply Z.mod_small.
  - intros f c c' d s f' r [= <- <-] Hne. by destruct d; apply lookup_insert_ne.
  - intros f c data ns d s Hst. exists f, 0, 0. cbn. by rewrite Hst.
Defined.

Definition sample_page : list Z := replicate 512 0x3c.

Definition sample_etags : yaffs_ExtendedTags :=
  ExtendedTags 0xAAAAAAAA 1 261 7 512 YAFFS_ECC_RESULT_UNKNOWN 0 0 1 0 0 0 0 0 0 0 0 0x55555555.

Definition sample_noise : noise := Noise (Some (3, 2)) (Some (200, 7)) (Some 33).

Definition sample_cfg (start off : Z) : device_config :=
  DeviceConfig start 32 false 1 8 off (off / 32) 0.

Definition sample_dev (off : Z) (f : gmap Z (list Z * yaffs_Spare))
    : @yaffs_Device mem_driver :=
  @Device mem_driver (sample_cfg (1 - off / 32) off) (replicate 8 (BlockInfo false false 0))
    false 0 0 0 0 0 0 0 f.

Definition sample_spare : yaffs_Spare :=
  default yaffs_SpareInitialise
    (make_spare false false (Some sample_page) sample_etags (replicate 8 0)).

(** The flash after the sample page has decayed. *)
Definition decayed (c : Z) : gmap Z (list Z * yaffs_Spare) :=
  {[ c := (noisy_data sample_noise sample_page, noisy_spare sample_noise sample_spare) ]}.

Lemma sample_page_u8 : Forall is_u8 sample_page.
Proof. apply Forall_replicate. unfold is_u8. lia. Qed.

Lemma sample_noise_ok : noise_ok sample_noise.
Proof. repeat split; naive_solver lia. Qed.

Lemma sample_etags_ok : tags1_ok sample_etags.
Proof. constructor; simpl; lia. Qed.


Lemma yaffs_MarkBlockBad_sticks_witness :
  exists dev2, @yaffs_QueryInitialBlockState mem_driver false
    (fst (yaffs_MarkBlockBad (sample_dev 0 ∅) 5)) 5
    (NANDSpare yaffs_SpareInitialise 0 0) = Some (dev2, YAFFS_BLOCK_STATE_DEAD, 0, YAFFS_OK).
Proof.
  apply (@yaffs_MarkBlockBad_sticks mem_driver mem_laws false (sample_dev 0 ∅) 5);
    [intros f c s f' r [= _ <-]; reflexivity | simpl; lia | simpl; lia].
Defined.
