(* ===== verification/YaffsCheckpt.v ===== *)
(** * The checkpoint stream of YAFFS

    Model of [recovery/yaffs2/yaffs2/yaffs_checkptrw.c]: a stream of bytes that the
    file system writes to erased blocks when it is unmounted and reads back when it is
    mounted.  Pages are numbered in their tags, and the tags of each block hold a hint
    to where the next one is.

    The device has the members these functions use.  [blockInfo] is the array they
    index by absolute block number; an index outside it, and a null pointer followed,
    has no result.  The functions behind the pointers of the device are the class
    [CheckpointDriver]; those pointers are tested by the functions that open the stream. *)

From stdpp Require Import base gmap list.
From Stdlib Require Import ZArith Lia.
From S2P Require Import Prelude YaffsTags YaffsTagsCompat.
Open Scope Z_scope.

(** ** Device *)

Definition YAFFS_SEQUENCE_CHECKPOINT_DATA : Z := 0x21.

(** Reading gives the data, which are only stored when there is a buffer, and the tags. *)
Class CheckpointDriver := {
  Flash : Type;
  writeChunkWithTagsToNAND : Flash -> Z -> list Z -> yaffs_ExtendedTags -> Flash * Z;
  readChunkWithTagsFromNAND : Flash -> Z -> Flash * list Z * yaffs_ExtendedTags;
  eraseBlockInNAND : Flash -> Z -> Flash * Z;
  markNANDBlockBad : Flash -> Z -> Flash * Z
}.

(** What is only read; the [has_] members tell which function pointers are set. *)
Record ckpt_config := CkptConfig {
  startBlock : Z; endBlock : Z; nChunksPerBlock : Z; nDataBytesPerChunk : Z;
  nReservedBlocks : Z;
  has_writeChunkWithTagsToNAND : bool; has_readChunkWithTagsFromNAND : bool;
  has_eraseBlockInNAND : bool; has_markNANDBlockBad : bool
}.

#[global] Instance yaffs_BlockState_eq_dec : EqDecision yaffs_BlockState.
Proof. solve_decision. Defined.

Section Checkpoint.
Context {D : CheckpointDriver} (C : ckpt_config).

Record ckpt_device := CkptDevice {
  flash : Flash;
  blockState : list yaffs_BlockState;
  nErasedBlocks : Z; nFreeChunks : Z;
  blocksInCheckpoint : Z;
  checkpointPageSequence : Z; checkpointByteCount : Z; checkpointByteOffset : Z;
  checkpointBuffer : option (list Z);
  checkpointOpenForWrite : Z;
  checkpointCurrentChunk : Z; checkpointCurrentBlock : Z; checkpointNextBlock : Z;
  checkpointBlockList : option (list Z); checkpointMaxBlocks : Z
}.

Definition set_flash (d : ckpt_device) (f : Flash) : ckpt_device :=
  let (_, bs, ne, nf, bc, ps, cnt, off, buf, w, cc, cb, nb, bl, mb) := d in
  CkptDevice f bs ne nf bc ps cnt off buf w cc cb nb bl mb.
Definition set_blockState (d : ckpt_device) (bs : list yaffs_BlockState) : ckpt_device :=
  let (f, _, ne, nf, bc, ps, cnt, off, buf, w, cc, cb, nb, bl, mb) := d in
  CkptDevice f bs ne nf bc ps cnt off buf w cc cb nb bl mb.
Definition set_space (d : ckpt_device) (ne nf : Z) : ckpt_device :=
  let (f, bs, _, _, bc, ps, cnt, off, buf, w, cc, cb, nb, bl, mb) := d in
  CkptDevice f bs ne nf bc ps cnt off buf w cc cb nb bl mb.
Definition set_blocksInCheckpoint (d : ckpt_device) (bc : Z) : ckpt_device :=
  let (f, bs, ne, nf, _, ps, cnt, off, buf, w, cc, cb, nb, bl, mb) := d in
  CkptDevice f bs ne nf bc ps cnt off buf w cc cb nb bl mb.
Definition set_pageSequence (d : ckpt_device) (ps : Z) : ckpt_device :=
  let (f, bs, ne, nf, bc, _, cnt, off, buf, w, cc, cb, nb, bl, mb) := d in
  CkptDevice f bs ne nf bc ps cnt off buf w cc cb nb bl mb.
Definition set_bytes (d : ckpt_device) (cnt off : Z) : ckpt_device :=
  let (f, bs, ne, nf, bc, ps, _, _, buf, w, cc, cb, nb, bl, mb) := d in
  CkptDevice f bs ne nf bc ps cnt off buf w cc cb nb bl mb.
Definition set_buffer (d : ckpt_device) (buf : option (list Z)) : ckpt_device :=
  let (f, bs, ne, nf, bc, ps, cnt, off, _, w, cc, cb, nb, bl, mb) := d in
  CkptDevice f bs ne nf bc ps cnt off buf w cc cb nb bl mb.
Definition set_openForWrite (d : ckpt_device) (w : Z) : ckpt_device :=
  let (f, bs, ne, nf, bc, ps, cnt, off, buf, _, cc, cb, nb, bl, mb) := d in
  CkptDevice f bs ne nf bc ps cnt off buf w cc cb nb bl mb.
Definition set_current (d : ckpt_device) (cc cb : Z) : ckpt_device :=
  let (f, bs, ne, nf, bc, ps, cnt, off, buf, w, _, _, nb, bl, mb) := d in
  CkptDevice f bs ne nf bc ps cnt off buf w cc cb nb bl mb.
Definition set_nextBlock (d : ckpt_device) (nb : Z) : ckpt_device :=
  let (f, bs, ne, nf, bc, ps, cnt, off, buf, w, cc, cb, _, bl, mb) := d in
  CkptDevice f bs ne nf bc ps cnt off buf w cc cb nb bl mb.
Definition set_blockList (d : ckpt_device) (bl : option (list Z)) (mb : Z) : ckpt_device :=
  let (f, bs, ne, nf, bc, ps, cnt, off, buf, w, cc, cb, nb, _, _) := d in
  CkptDevice f bs ne nf bc ps cnt off buf w cc cb nb bl mb.

(** [dev->blockInfo[i].blockState], read and written *)
Definition get_blockState (d : ckpt_device) (i : Z) : option yaffs_BlockState :=
  if i <? 0 then None else blockState d !! Z.to_nat i.
Definition put_blockState (d : ckpt_device) (i : Z) (st : yaffs_BlockState) : option ckpt_device :=
  if (i <? 0) || (Z.of_nat (length (blockState d)) <=? i) then None
  else Some (set_blockState d (<[Z.to_nat i := st]> (blockState d))).

(** ** Operations *)

Definition yaffs_CheckpointSpaceOk (d : ckpt_device) : Z :=
  let blocksAvailable := s32 (nErasedBlocks d - nReservedBlocks C) in
  if blocksAvailable <=? 0 then 0 else 1.

(** [for(i = ...; i <= dev->endBlock; i++)] with [n] blocks to go *)
Fixpoint erase_loop (n : nat) (i : Z) (d : ckpt_device) : option ckpt_device :=
  match n with
  | O => Some d
  | S n =>
      st ← get_blockState d i;
      d ← (if bool_decide (st = YAFFS_BLOCK_STATE_CHECKPOINT) then
             let '(f, r) := eraseBlockInNAND (flash d) i in
             let d := set_flash d f in
             if truthy r then
               d ← put_blockState d i YAFFS_BLOCK_STATE_EMPTY;
               Some (set_space d (s32 (nErasedBlocks d + 1)) (s32 (nFreeChunks d + nChunksPerBlock C)))
             else if negb (has_markNANDBlockBad C) then None else
               let '(f, _) := markNANDBlockBad (flash d) i in
               put_blockState (set_flash d f) i YAFFS_BLOCK_STATE_DEAD
           else Some d);
      erase_loop n (i + 1) d
  end.

Definition yaffs_CheckpointErase (d : ckpt_device) : option (ckpt_device * Z) :=
  if negb (has_eraseBlockInNAND C) then Some (d, 0) else
  d ← erase_loop (Z.to_nat (endBlock C - startBlock C + 1)) (startBlock C) d;
  Some (set_blocksInCheckpoint d 0, 1).

Fixpoint find_erased (n : nat) (i : Z) (d : ckpt_device) : option (option Z) :=
  match n with
  | O => Some None
  | S n =>
      st ← get_blockState d i;
      if bool_decide (st = YAFFS_BLOCK_STATE_EMPTY) then Some (Some i) else find_erased n (i + 1) d
  end.

Definition yaffs_CheckpointFindNextErasedBlock (d : ckpt_device) : option ckpt_device :=
  let blocksAvailable := s32 (nErasedBlocks d - nReservedBlocks C) in
  let next := checkpointNextBlock d in
  found ← (if (0 <=? next) && (next <=? endBlock C) && (0 <? blocksAvailable)
           then find_erased (Z.to_nat (endBlock C - next + 1)) next d else Some None);
  Some (match found with
        | Some i => set_current (set_nextBlock d (i + 1)) (checkpointCurrentChunk d) i
        | None => set_current (set_nextBlock d (-1)) (checkpointCurrentChunk d) (-1)
        end).

Fixpoint find_checkpoint (n : nat) (i : Z) (d : ckpt_device)
    : ckpt_device * option (Z * yaffs_ExtendedTags) :=
  match n with
  | O => (d, None)
  | S n =>
      let chunk := s32 (i * nChunksPerBlock C) in
      let '(f, _, tags) := readChunkWithTagsFromNAND (flash d) chunk in
      let d := set_flash d f in
      if sequenceNumber tags =? YAFFS_SEQUENCE_CHECKPOINT_DATA then (d, Some (i, tags))
      else find_checkpoint n (i + 1) d
  end.

Definition yaffs_CheckpointFindNextCheckpointBlock (d : ckpt_device) : option ckpt_device :=
  let '(d, found) :=
    if blocksInCheckpoint d <? checkpointMaxBlocks d
    then find_checkpoint (Z.to_nat (endBlock C - checkpointNextBlock d + 1)) (checkpointNextBlock d) d
    else (d, None) in
  match found with
  | Some (i, tags) =>
      bl ← checkpointBlockList d;
      if (blocksInCheckpoint d <? 0) || (Z.of_nat (length bl) <=? blocksInCheckpoint d) then None else
      let d := set_current (set_nextBlock d (s32 (objectId tags))) (checkpointCurrentChunk d) i in
      let d := set_blockList d (Some (<[Z.to_nat (blocksInCheckpoint d) := i]> bl)) (checkpointMaxBlocks d) in
      Some (set_blocksInCheckpoint d (s32 (blocksInCheckpoint d + 1)))
  | None => Some (set_current (set_nextBlock d (-1)) (checkpointCurrentChunk d) (-1))
  end.

(** [buf] and [list] are what YMALLOC_DMA and YMALLOC return, with their contents. *)
Definition yaffs_CheckpointOpen (d : ckpt_device) (forWriting : Z) (buf list : option (list Z))
    : option (ckpt_device * Z) :=
  if negb (has_writeChunkWithTagsToNAND C) || negb (has_readChunkWithTagsFromNAND C) ||
     negb (has_eraseBlockInNAND C) || negb (has_markNANDBlockBad C) then Some (d, 0) else
  if truthy forWriting && negb (truthy (yaffs_CheckpointSpaceOk d)) then Some (d, 0) else
  let d := match checkpointBuffer d with None => set_buffer d buf | Some _ => d end in
  match checkpointBuffer d with
  | None => Some (d, 0)
  | Some _ =>
      let d := set_openForWrite (set_pageSequence d 0) forWriting in
      let d := set_bytes d 0 (checkpointByteOffset d) in
      let d := set_nextBlock (set_current d (-1) (-1)) (startBlock C) in
      if truthy forWriting then
        let d := set_buffer d (Some (replicate (Z.to_nat (nDataBytesPerChunk C)) 0)) in
        yaffs_CheckpointErase (set_bytes d (checkpointByteCount d) 0)
      else
        let d := set_bytes d (checkpointByteCount d) (nDataBytesPerChunk C) in
        let d := set_blocksInCheckpoint d 0 in
        let max := s32 (s32 (endBlock C - startBlock C) ÷ 16 + 2) in
        match list with
        | None => if 0 <? max then None else Some (set_blockList d None max, 1)
        | Some _ => Some (set_blockList d (Some (replicate (Z.to_nat max) (-1))) max, 1)
        end
  end.

(** [tags] is the local variable, of which five members are assigned. *)
Definition checkpoint_tags (tags : yaffs_ExtendedTags) (d : ckpt_device) : yaffs_ExtendedTags :=
  ExtendedTags (validMarker0 tags) (chunkUsed tags) (u32 (checkpointNextBlock d))
    (u32 (checkpointPageSequence d + 1)) (nDataBytesPerChunk C) (eccResult tags) (blockBad tags) 0
    (serialNumber tags) YAFFS_SEQUENCE_CHECKPOINT_DATA (extraHeaderInfoAvailable tags)
    (extraParentObjectId tags) (extraIsShrinkHeader tags) (extraShadows tags) (extraObjectType tags)
    (extraFileLength tags) (extraEquivalentObjectId tags) (validMarker1 tags).

(** The part of yaffs_CheckpointFlushBuffer after a block has been found. *)
Definition write_buffer (tags : yaffs_ExtendedTags) (d : ckpt_device) : option (ckpt_device * Z) :=
  let tags := checkpoint_tags tags d in
  d ← (if checkpointCurrentChunk d =? 0 then
         d ← put_blockState d (checkpointCurrentBlock d) YAFFS_BLOCK_STATE_CHECKPOINT;
         Some (set_blocksInCheckpoint d (s32 (blocksInCheckpoint d + 1)))
       else Some d);
  let chunk := s32 (s32 (checkpointCurrentBlock d * nChunksPerBlock C) + checkpointCurrentChunk d) in
  buf ← checkpointBuffer d;
  let '(f, _) := writeChunkWithTagsToNAND (flash d) chunk buf tags in
  let d := set_bytes (set_flash d f) (checkpointByteCount d) 0 in
  let d := set_pageSequence d (s32 (checkpointPageSequence d + 1)) in
  let next := s32 (checkpointCurrentChunk d + 1) in
  let d := if nChunksPerBlock C <=? next then set_current d 0 (-1)
           else set_current d next (checkpointCurrentBlock d) in
  Some (set_buffer d (Some (replicate (Z.to_nat (nDataBytesPerChunk C)) 0)), 1).

Definition yaffs_CheckpointFlushBuffer (tags : yaffs_ExtendedTags) (d : ckpt_device)
    : option (ckpt_device * Z) :=
  d ← (if checkpointCurrentBlock d <? 0 then
         d ← yaffs_CheckpointFindNextErasedBlock d; Some (set_current d 0 (checkpointCurrentBlock d))
       else Some d);
  if checkpointCurrentBlock d <? 0 then Some (d, 0) else write_buffer tags d.

(** [while(i < nBytes && ok)], byte by byte; [i] is the number of bytes taken. *)
Fixpoint write_loop (tags : yaffs_ExtendedTags) (data : list Z) (i : Z) (d : ckpt_device)
    : option (ckpt_device * Z) :=
  match data with
  | [] => Some (d, i)
  | x :: data =>
      buf ← checkpointBuffer d;
      let off := checkpointByteOffset d in
      if (off <? 0) || (Z.of_nat (length buf) <=? off) then None else
      let d := set_buffer d (Some (<[Z.to_nat off := x]> buf)) in
      let d := set_bytes d (s32 (checkpointByteCount d + 1)) (off + 1) in
      '(d, ok) ← (if (checkpointByteOffset d <? 0) || (nDataBytesPerChunk C <=? checkpointByteOffset d)
                  then yaffs_CheckpointFlushBuffer tags d else Some (d, 1));
      if truthy ok then write_loop tags data (i + 1) d else Some (d, i + 1)
  end.

Definition yaffs_CheckpointWrite (tags : yaffs_ExtendedTags) (d : ckpt_device) (data : list Z)
    : option (ckpt_device * Z) :=
  match checkpointBuffer d with
  | None => Some (d, 0)
  | Some _ => write_loop tags data 0 d
  end.

(** The refill of the buffer in yaffs_CheckpointRead. *)
Definition read_page (d : ckpt_device) : option (ckpt_device * Z) :=
  d ← (if checkpointCurrentBlock d <? 0 then
         d ← yaffs_CheckpointFindNextCheckpointBlock d; Some (set_current d 0 (checkpointCurrentBlock d))
       else Some d);
  if checkpointCurrentBlock d <? 0 then Some (d, 0) else
  let chunk := s32 (s32 (checkpointCurrentBlock d * nChunksPerBlock C) + checkpointCurrentChunk d) in
  let '(f, data, tags) := readChunkWithTagsFromNAND (flash d) chunk in
  let d := set_buffer (set_flash d f) (Some data) in
  let ok := if negb (chunkId tags =? u32 (checkpointPageSequence d + 1)) ||
               negb (sequenceNumber tags =? YAFFS_SEQUENCE_CHECKPOINT_DATA) then 0 else 1 in
  let d := set_bytes d (checkpointByteCount d) 0 in
  let d := set_pageSequence d (s32 (checkpointPageSequence d + 1)) in
  let next := s32 (checkpointCurrentChunk d + 1) in
  Some (if nChunksPerBlock C <=? next then set_current d next (-1)
        else set_current d next (checkpointCurrentBlock d), ok).

(** [while(i < nBytes && ok)]; the bytes read, in order. *)
Fixpoint read_loop (n : nat) (d : ckpt_device) : option (ckpt_device * list Z) :=
  match n with
  | O => Some (d, [])
  | S n =>
      '(d, ok) ← (if (checkpointByteOffset d <? 0) || (nDataBytesPerChunk C <=? checkpointByteOffset d)
                  then read_page d else Some (d, 1));
      if truthy ok then
        buf ← checkpointBuffer d;
        x ← (if checkpointByteOffset d <? 0 then None else buf !! Z.to_nat (checkpointByteOffset d));
        let d := set_bytes d (s32 (checkpointByteCount d + 1)) (checkpointByteOffset d + 1) in
        '(d, xs) ← read_loop n d;
        Some (d, x :: xs)
      else Some (d, [])
  end.

(** The bytes stored through [data]; their number is the result. *)
Definition yaffs_CheckpointRead (d : ckpt_device) (nBytes : Z) : option (ckpt_device * list Z) :=
  match checkpointBuffer d with
  | None => Some (d, [])
  | Some _ => read_loop (Z.to_nat nBytes) d
  end.

(** [for(i = 0; i < dev->blocksInCheckpoint && dev->checkpointBlockList[i] >= 0; i++)] *)
Fixpoint close_loop (n : nat) (bl : list Z) (d : ckpt_device) : option ckpt_device :=
  match n with
  | O => Some d
  | S n =>
      match bl with
      | [] => None
      | b :: bl =>
          if 0 <=? b then
            st ← get_blockState d b;
            d ← (if bool_decide (st = YAFFS_BLOCK_STATE_EMPTY)
                 then put_blockState d b YAFFS_BLOCK_STATE_CHECKPOINT else Some d);
            close_loop n bl d
          else Some d
      end
  end.

Definition yaffs_CheckpointClose (tags : yaffs_ExtendedTags) (d : ckpt_device)
    : option (ckpt_device * Z) :=
  d ← (if truthy (checkpointOpenForWrite d) then
         if truthy (checkpointByteOffset d) then
           '(d, _) ← yaffs_CheckpointFlushBuffer tags d; Some d
         else Some d
       else
         d ← match checkpointBlockList d with
             | Some bl => close_loop (Z.to_nat (blocksInCheckpoint d)) bl d
             | None => if 0 <? blocksInCheckpoint d then None else Some d
             end;
         Some (set_blockList d None (checkpointMaxBlocks d)));
  let d := set_space d (s32 (nErasedBlocks d - blocksInCheckpoint d))
             (s32 (nFreeChunks d - s32 (blocksInCheckpoint d * nChunksPerBlock C))) in
  match checkpointBuffer d with
  | Some _ => Some (set_buffer d None, 1)
  | None => Some (d, 0)
  end.

Definition yaffs_CheckpointInvalidateStream (d : ckpt_device) : option (ckpt_device * Z) :=
  if truthy (yaffs_CheckpointSpaceOk d) then yaffs_CheckpointErase d else Some (d, 0).
End Checkpoint.

(** ** The driver *)

(** What the code relies on: an erased page that has been written successfully reads back
    with its tags; reading changes nothing; erasing a block successfully erases its pages.
    Writing, erasing and marking may fail. *)
Class CheckpointDriverLaws (D : CheckpointDriver) (chunks : Z) := {
  page : Flash -> Z -> option (list Z * (Z * Z * Z));
  law_write f c data t : page f c = None -> truthy (writeChunkWithTagsToNAND f c data t).2 = true ->
    page (writeChunkWithTagsToNAND f c data t).1 c = Some (data, (objectId t, chunkId t, sequenceNumber t));
  law_write_other f c data t c' : c' <> c ->
    page (writeChunkWithTagsToNAND f c data t).1 c' = page f c';
  law_read f c c' : page (readChunkWithTagsFromNAND f c).1.1 c' = page f c';
  law_read_page f c data o k q : page f c = Some (data, (o, k, q)) ->
    (readChunkWithTagsFromNAND f c).1.2 = data /\
    (objectId (readChunkWithTagsFromNAND f c).2, chunkId (readChunkWithTagsFromNAND f c).2,
     sequenceNumber (readChunkWithTagsFromNAND f c).2) = (o, k, q);
  law_read_erased f c : page f c = None ->
    sequenceNumber (readChunkWithTagsFromNAND f c).2 <> YAFFS_SEQUENCE_CHECKPOINT_DATA;
  law_erase f b c : truthy (eraseBlockInNAND f b).2 = true ->
    page (eraseBlockInNAND f b).1 c = if (b * chunks <=? c) && (c <? (b + 1) * chunks) then None else page f c
}.

(** ** The blocks of a checkpoint *)

Section Stream.
Context {D : CheckpointDriver} (C : ckpt_config) {L : CheckpointDriverLaws D (nChunksPerBlock C)}.

Record config_ok : Prop := {
  co_functions : has_writeChunkWithTagsToNAND C = true /\ has_readChunkWithTagsFromNAND C = true /\
                 has_eraseBlockInNAND C = true /\ has_markNANDBlockBad C = true;
  co_start : 0 <= startBlock C <= endBlock C;
  co_chunks : 0 < nChunksPerBlock C;
  co_bytes : 0 < nDataBytesPerChunk C;
  co_max : (endBlock C + 1) * nChunksPerBlock C < 2 ^ 31
}.
Context (HC : config_ok).

(** Bytes in a page, pages in a block. *)
Definition N : nat := Z.to_nat (nDataBytesPerChunk C).
Definition K : nat := Z.to_nat (nChunksPerBlock C).

Lemma K_pos : (0 < K)%nat. Proof. destruct HC. unfold K. lia. Qed.
Lemma N_pos : (0 < N)%nat. Proof. destruct HC. unfold N. lia. Qed.
Lemma K_Z : Z.of_nat K = nChunksPerBlock C. Proof. destruct HC. unfold K. lia. Qed.
Lemma N_Z : Z.of_nat N = nDataBytesPerChunk C. Proof. destruct HC. unfold N. lia. Qed.

Definition in_range (i : Z) : Prop := startBlock C <= i <= endBlock C.

(** The first page of block [i] is not one of a checkpoint. *)
Definition no_checkpoint (f : Flash) (i : Z) : Prop :=
  forall data o k q, page f (i * nChunksPerBlock C) = Some (data, (o, k, q)) ->
    q <> YAFFS_SEQUENCE_CHECKPOINT_DATA.

Definition erased (f : Flash) (i : Z) : Prop :=
  forall c, i * nChunksPerBlock C <= c < (i + 1) * nChunksPerBlock C -> page f c = None.

(** The erased blocks, in order, of a device without checkpoint blocks. *)
Definition is_empty (d : ckpt_device) (i : Z) : Prop := get_blockState d i = Some YAFFS_BLOCK_STATE_EMPTY.
#[global] Instance is_empty_dec d i : Decision (is_empty d i).
Proof. unfold is_empty. apply _. Defined.

Fixpoint empties_from (n : nat) (i : Z) (d : ckpt_device) : list Z :=
  match n with
  | O => []
  | S n => if decide (is_empty d i) then i :: empties_from n (i + 1) d else empties_from n (i + 1) d
  end.

Definition from (d : ckpt_device) (i : Z) : list Z := empties_from (Z.to_nat (endBlock C - i + 1)) i d.
Definition empties (d : ckpt_device) : list Z := from d (startBlock C).

Record clean (d : ckpt_device) : Prop := {
  cl_state i : in_range i -> is_Some (get_blockState d i);
  cl_empty i : in_range i -> is_empty d i -> erased (flash d) i;
  cl_other i : in_range i -> ~ is_empty d i -> no_checkpoint (flash d) i
}.

Lemma empties_from_cons n i d x rest : empties_from n i d = x :: rest ->
  i <= x < i + Z.of_nat n /\ is_empty d x /\
  rest = empties_from (Z.to_nat (i + Z.of_nat n - (x + 1))) (x + 1) d /\
  forall j, i <= j < x -> ~ is_empty d j.
Proof.
  revert i. induction n as [|n IH]; intros i; cbn [empties_from]; [done|].
  destruct (decide (is_empty d i)) as [He|Hne].
  - intros [= <- <-]. split; [lia|]. split; [done|]. split; [f_equal; lia | lia].
  - intros (Hx & He & Hrest & Hj)%IH. split; [lia|]. split; [done|].
    split; [rewrite Hrest; f_equal; lia|]. intros j Hji.
    destruct (Z.eq_dec j i) as [-> | Hne']; [done | apply Hj; lia].
Qed.

Lemma from_cons d i x rest : from d i = x :: rest ->
  i <= x <= endBlock C /\ is_empty d x /\ rest = from d (x + 1) /\ forall j, i <= j < x -> ~ is_empty d j.
Proof.
  unfold from. intros (Hx & He & Hrest & Hj)%empties_from_cons. split; [lia|]. split; [done|].
  split; [rewrite Hrest; f_equal; lia | done].
Qed.

Lemma from_elem d i x : x ∈ from d i -> i <= x <= endBlock C /\ is_empty d x.
Proof.
  intros Hx. remember (from d i) as l eqn:Hl. revert i Hl.
  induction l as [|y l IH]; intros i Hl; [by apply elem_of_nil in Hx|].
  symmetry in Hl. apply from_cons in Hl as (Hy & He & Hrest & _).
  apply elem_of_cons in Hx as [-> | Hx]; [done|]. destruct (IH Hx _ Hrest). split; [lia | done].
Qed.

Lemma from_NoDup d i : NoDup (from d i).
Proof.
  remember (from d i) as l eqn:Hl. revert i Hl. induction l as [|y l IH]; intros i Hl; [constructor|].
  symmetry in Hl. apply from_cons in Hl as (Hy & He & Hrest & _). constructor; [|by eapply IH].
  rewrite Hrest. intros Hin%from_elem. lia.
Qed.

Lemma find_erased_ok n i d d0 : (forall j, i <= j < i + Z.of_nat n -> get_blockState d j = get_blockState d0 j) ->
  (forall j, i <= j < i + Z.of_nat n -> is_Some (get_blockState d0 j)) ->
  find_erased n i d = Some (head (empties_from n i d0)).
Proof.
  revert i. induction n as [|n IH]; intros i Hd Hs; cbn [find_erased empties_from]; [done|].
  destruct (Hs i ltac:(lia)) as [st Hst]. rewrite Hd, Hst by lia. cbn [mbind option_bind].
  destruct (decide (is_empty d0 i)) as [He|Hne].
  - unfold is_empty in He. rewrite Hst in He. injection He as ->. by rewrite bool_decide_true.
  - rewrite bool_decide_false by (intros ->; by apply Hne). apply IH; intros j Hj; [apply Hd | apply Hs]; lia.
Qed.

(** ** Where page [k] goes, given the erased blocks [E] *)

Context (E : list Z).

Definition block_of (k : nat) : Z := nth (k / K) E 0.
Definition loc (k : nat) : Z := block_of k * nChunksPerBlock C + Z.of_nat (k mod K).

(** Blocks that [q] pages take. *)
Definition blocks_for (q : nat) : nat := (q + K - 1) / K.

Lemma blocks_for_mul m : blocks_for (m * K) = m.
Proof.
  unfold blocks_for. pose proof K_pos. symmetry. apply Nat.div_unique with (K - 1)%nat; lia.
Qed.

(** Page [q] starts a block, or it is in the last of the blocks taken so far. *)
Lemma blocks_for_cases q :
  (q mod K = 0 /\ blocks_for q = q / K /\ blocks_for (S q) = S (q / K))%nat \/
  (q mod K <> 0 /\ blocks_for q = S (q / K) /\ blocks_for (S q) = S (q / K))%nat.
Proof.
  pose proof K_pos. pose proof (Nat.div_mod_eq q K). pose proof (Nat.mod_upper_bound q K ltac:(lia)).
  unfold blocks_for. destruct (Nat.eq_dec (q mod K)%nat 0%nat) as [Hz|Hnz]; [left|right]; (split; [done|]).
  - split; symmetry; [apply Nat.div_unique with (K - 1)%nat | apply Nat.div_unique with 0%nat]; nia.
  - split; symmetry; [apply Nat.div_unique with (q mod K - 1)%nat | apply Nat.div_unique with (q mod K)%nat]; nia.
Qed.

Lemma blocks_for_lt k q : (k < q)%nat -> (k / K < blocks_for q)%nat.
Proof.
  intros Hk. pose proof K_pos. unfold blocks_for. apply Nat.div_le_lower_bound; [lia|].
  pose proof (Nat.div_mod_eq k K). nia.
Qed.

(** The next page is in the same block, or starts another one. *)
Lemma next_page q : (S q mod K = 0 /\ q mod K + 1 = K)%nat \/ (S q mod K = q mod K + 1 /\ q mod K + 1 < K)%nat.
Proof.
  pose proof K_pos. pose proof (Nat.mod_upper_bound q K ltac:(lia)). pose proof (Nat.div_mod_eq q K).
  destruct (Nat.eq_dec (q mod K + 1)%nat K) as [He|Hne]; [left|right]; (split; [|lia]); symmetry.
  - apply Nat.mod_unique with (S (q / K)); nia.
  - apply Nat.mod_unique with (q / K)%nat; nia.
Qed.

Context (HE : NoDup E).

Lemma loc_inj j k : (j / K < length E)%nat -> (k / K < length E)%nat -> loc j = loc k -> j = k.
Proof.
  intros Hj Hk. unfold loc, block_of. pose proof K_pos. pose proof K_Z as HK.
  pose proof (Nat.mod_upper_bound j K ltac:(lia)). pose proof (Nat.mod_upper_bound k K ltac:(lia)). intros Heq.
  assert (nth (j / K) E 0 = nth (k / K) E 0) as Hb by nia.
  assert ((j / K)%nat = (k / K)%nat) as Hd.
  { apply (NoDup_nth E 0); [by apply NoDup_ListNoDup | done..]. }
  pose proof (Nat.div_mod_eq j K). pose proof (Nat.div_mod_eq k K). nia.
Qed.
End Stream.

(** ** Writing *)

Section Writing.
Context {D : CheckpointDriver} (C : ckpt_config) {L : CheckpointDriverLaws D (nChunksPerBlock C)}.
Context (HC : config_ok C) (d0 : ckpt_device) (Hclean : clean C d0) (tags : yaffs_ExtendedTags).

Abbreviation E := (empties C d0).
Abbreviation K := (K C).
Abbreviation blocks_for := (blocks_for C).
Abbreviation block_of := (block_of C E).
Abbreviation loc := (loc C E).

(** Where the search goes on after [m] blocks. *)
Definition next_of (m : nat) : Z :=
  match m with O => startBlock C | S j => nth j E 0 + 1 end.

Lemma drop_empties m : (m <= length E)%nat -> drop m E = from C d0 (next_of m).
Proof.
  induction m as [|m IH]; intros Hm; [done|]. specialize (IH ltac:(lia)).
  destruct (lookup_lt_is_Some_2 E m) as [x Hx]; [lia|].
  rewrite (drop_S _ _ _ Hx) in IH. symmetry in IH. apply from_cons in IH as (_ & _ & Hrest & _).
  cbn [next_of]. by rewrite (nth_lookup_Some _ _ _ _ Hx).
Qed.

(** The block to take next, and the ones that are passed over. *)
Lemma next_block m : (m < length E)%nat ->
  next_of m <= nth m E 0 <= endBlock C /\ startBlock C <= next_of m /\ is_empty d0 (nth m E 0) /\
  head (from C d0 (next_of m)) = Some (nth m E 0) /\
  forall j, next_of m <= j < nth m E 0 -> ~ is_empty d0 j.
Proof.
  intros Hm. destruct (lookup_lt_is_Some_2 E m Hm) as [x Hx].
  pose proof (drop_empties m ltac:(lia)) as Hd. rewrite (drop_S _ _ _ Hx) in Hd. symmetry in Hd.
  rewrite (nth_lookup_Some _ _ _ _ Hx), Hd. apply from_cons in Hd as (Hr & He & _ & Hj).
  split; [done|]. split; [|done]. destruct m as [|j]; [done|]. cbn [next_of].
  destruct (lookup_lt_is_Some_2 E j) as [y Hy]; [lia|]. rewrite (nth_lookup_Some _ _ _ _ Hy).
  assert (y ∈ E) as Hin by (by apply list_elem_of_lookup_2 in Hy). apply from_elem in Hin as [? _]. lia.
Qed.

(** Pages [ps] have been stored since [d0]. *)
Record stored (d : ckpt_device) (ps : list (list Z)) : Prop := {
  st_room : (blocks_for (length ps) <= length E)%nat;
  st_seq : checkpointPageSequence d = Z.of_nat (length ps);
  st_len : length (blockState d) = length (blockState d0);
  st_state i : get_blockState d i = if decide (i ∈ take (blocks_for (length ps)) E)
                                    then Some YAFFS_BLOCK_STATE_CHECKPOINT else get_blockState d0 i;
  st_page k p : ps !! k = Some p ->
    page (flash d) (loc k) =
      Some (p, (u32 (block_of k + 1), Z.of_nat k + 1, YAFFS_SEQUENCE_CHECKPOINT_DATA));
  st_other c : (forall k, (k < length ps)%nat -> c <> loc k) -> page (flash d) c = page (flash d0) c;
  st_erased : nErasedBlocks d = nErasedBlocks d0;
  st_open : checkpointOpenForWrite d = checkpointOpenForWrite d0
}.

(** The stream is ready for the next page. *)
Definition written (d : ckpt_device) (ps : list (list Z)) : Prop :=
  stored d ps /\ checkpointNextBlock d = next_of (blocks_for (length ps)) /\
  if (length ps mod K =? 0)%nat then checkpointCurrentBlock d = -1
  else checkpointCurrentBlock d = block_of (length ps) /\
       checkpointCurrentChunk d = Z.of_nat (length ps mod K).

Lemma block_of_range q : (blocks_for (S q) <= length E)%nat ->
  in_range C (block_of q) /\ is_empty d0 (block_of q) /\ (q / K < length E)%nat.
Proof.
  intros Hq. pose proof (blocks_for_lt C HC q (S q) ltac:(lia)) as Hlt.
  destruct (next_block (q / K) ltac:(lia)) as (Hr & Hs & He & _). unfold in_range, YaffsCheckpt.block_of.
  split; [lia|]. split; [done | lia].
Qed.

Lemma loc_range q : (blocks_for (S q) <= length E)%nat ->
  block_of q * nChunksPerBlock C <= loc q < (block_of q + 1) * nChunksPerBlock C /\
  0 <= block_of q * nChunksPerBlock C /\ loc q < 2 ^ 31.
Proof.
  intros Hq. destruct (block_of_range q Hq) as ([Hr1 Hr2] & _). pose proof HC as []. pose proof (K_Z C HC) as HK.
  pose proof (Nat.mod_upper_bound q K ltac:(pose proof (K_pos C HC); lia)).
  unfold YaffsCheckpt.loc. nia.
Qed.

(** The place of the next page is still erased. *)
Lemma next_erased d ps : stored d ps -> (blocks_for (S (length ps)) <= length E)%nat ->
  page (flash d) (loc (length ps)) = None.
Proof.
  intros [] Hq. destruct (block_of_range _ Hq) as (Hr & He & Hlt). destruct (loc_range _ Hq) as (Hl & _).
  rewrite st_other0.
  - apply (cl_empty C d0 Hclean (block_of (length ps)) Hr He). done.
  - intros k Hk Heq. apply loc_inj in Heq; [lia | done | apply from_NoDup | done |].
    pose proof (blocks_for_lt C HC k (length ps) Hk). lia.
Qed.

Lemma get_put_blockState d i st j : 0 <= i < Z.of_nat (length (blockState d)) -> exists d',
  put_blockState d i st = Some d' /\ d' = set_blockState d (<[Z.to_nat i := st]> (blockState d)) /\
  get_blockState d' j = if decide (j = i) then Some st else get_blockState d j.
Proof.
  intros Hi. unfold put_blockState, get_blockState.
  destruct (Z.ltb_spec i 0); [lia|]. destruct (Z.leb_spec (Z.of_nat (length (blockState d))) i); [lia|].
  cbn [orb]. eexists. split; [done|]. split; [done|]. destruct d. cbn [blockState set_blockState] in *.
  destruct (decide (j = i)) as [-> | Hne].
  - destruct (Z.ltb_spec i 0); [lia|]. apply list_lookup_insert_eq. lia.
  - destruct (Z.ltb_spec j 0); [done|]. apply list_lookup_insert_ne. lia.
Qed.

Lemma lookup_nth_lt (l : list Z) k : (k < length l)%nat -> l !! k = Some (nth k l 0).
Proof. intros Hk. destruct (lookup_lt_is_Some_2 l k Hk) as [x Hx]. by rewrite (nth_lookup_Some _ _ _ _ Hx). Qed.

(** What another page adds. *)
Lemma stored_snoc d d' ps p : stored d ps -> (blocks_for (S (length ps)) <= length E)%nat ->
  checkpointPageSequence d' = Z.of_nat (length ps) + 1 -> length (blockState d') = length (blockState d0) ->
  (forall i, get_blockState d' i = if decide (i ∈ take (blocks_for (S (length ps))) E)
     then Some YAFFS_BLOCK_STATE_CHECKPOINT else get_blockState d0 i) ->
  page (flash d') (loc (length ps)) = Some (p, (u32 (block_of (length ps) + 1), Z.of_nat (length ps) + 1,
    YAFFS_SEQUENCE_CHECKPOINT_DATA)) ->
  (forall c, c <> loc (length ps) -> page (flash d') c = page (flash d) c) ->
  nErasedBlocks d' = nErasedBlocks d -> checkpointOpenForWrite d' = checkpointOpenForWrite d ->
  stored d' (ps ++ [p]).
Proof.
  intros [] Hroom Hseq Hlen Hstate Hpage Hother He Ho.
  assert (length (ps ++ [p]) = S (length ps)) as Hl by (rewrite length_app; cbn; lia).
  split; rewrite ?Hl; try done; [lia | | | congruence | congruence].
  - intros k x Hk. apply lookup_snoc_Some in Hk as [[Hlt Hk] | [-> <-]]; [|done].
    rewrite Hother; [by apply st_page0|]. intros Heq. apply loc_inj in Heq; [lia | done | apply from_NoDup | |].
    + pose proof (blocks_for_lt C HC k (length ps) Hlt). lia.
    + by apply block_of_range.
  - intros c Hc. rewrite Hother by (apply Hc; lia). apply st_other0. intros k Hk. apply Hc. lia.
Qed.

Lemma mark_block d ps : stored d ps -> (blocks_for (S (length ps)) <= length E)%nat ->
  checkpointCurrentBlock d = block_of (length ps) ->
  checkpointCurrentChunk d = Z.of_nat (length ps mod K) -> exists bs bc,
  (if checkpointCurrentChunk d =? 0 then
     d ← put_blockState d (checkpointCurrentBlock d) YAFFS_BLOCK_STATE_CHECKPOINT;
     Some (set_blocksInCheckpoint d (s32 (blocksInCheckpoint d + 1)))
   else Some d) = Some (set_blocksInCheckpoint (set_blockState d bs) bc) /\
  length bs = length (blockState d0) /\
  forall i, get_blockState (set_blockState d bs) i =
    if decide (i ∈ take (blocks_for (S (length ps))) E) then Some YAFFS_BLOCK_STATE_CHECKPOINT
    else get_blockState d0 i.
Proof.
  intros Hst Hroom Hcb Hcc. destruct Hst. destruct (block_of_range _ Hroom) as ([Hr1 Hr2] & He & Hlt).
  pose proof HC as []. rewrite Hcc, Hcb.
  destruct (blocks_for_cases C HC (length ps)) as [(Hz & Hb0 & Hb1) | (Hnz & Hb0 & Hb1)].
  - rewrite Hz. cbn [Z.of_nat Z.eqb].
    assert (0 <= block_of (length ps) < Z.of_nat (length (blockState d))) as Hi.
    { split; [lia|]. unfold is_empty, get_blockState in He. destruct (block_of (length ps) <? 0); [done|].
      apply lookup_lt_Some in He. lia. }
    eexists (<[Z.to_nat (block_of (length ps)) := YAFFS_BLOCK_STATE_CHECKPOINT]> (blockState d)), _. split; [|split].
    + destruct (get_put_blockState d _ YAFFS_BLOCK_STATE_CHECKPOINT 0 Hi) as (d' & -> & -> & _). cbn [mbind option_bind].
      by destruct d.
    + by rewrite length_insert.
    + intros i. destruct (get_put_blockState d _ YAFFS_BLOCK_STATE_CHECKPOINT i Hi) as (d' & _ & -> & ->).
      rewrite st_state0, Hb1, Hb0.
      rewrite (take_S_r _ _ (block_of (length ps))) by (by apply lookup_nth_lt).
      destruct (decide (i = block_of (length ps))) as [-> | Hne].
      * rewrite decide_True by (apply elem_of_app; right; left). done.
      * destruct (decide (i ∈ take (length ps / K) E)) as [Hin|Hout].
        -- by rewrite decide_True by (apply elem_of_app; by left).
        -- rewrite decide_False; [done|]. rewrite elem_of_app, list_elem_of_singleton. tauto.
  - destruct (Z.eqb_spec (Z.of_nat (length ps mod K)) 0); [lia|].
    exists (blockState d), (blocksInCheckpoint d). split; [by destruct d|]. split; [done|].
    intros i. rewrite Hb1, <- Hb0. rewrite <- st_state0. by destruct d.
Qed.

Context (Hwrite : forall f c data t, truthy (writeChunkWithTagsToNAND f c data t).2 = true).

Lemma write_buffer_ok d ps p : stored d ps -> (blocks_for (S (length ps)) <= length E)%nat ->
  checkpointNextBlock d = next_of (blocks_for (S (length ps))) ->
  checkpointCurrentBlock d = block_of (length ps) ->
  checkpointCurrentChunk d = Z.of_nat (length ps mod K) ->
  checkpointBuffer d = Some p -> Z.of_nat (length ps) + 1 < 2 ^ 31 -> exists d',
  write_buffer C tags d = Some (d', 1) /\ written d' (ps ++ [p]) /\
  checkpointBuffer d' = Some (replicate (N C) 0) /\ checkpointByteOffset d' = 0.
Proof.
  intros Hst Hroom Hnext Hcb Hcc Hbuf Hmax.
  destruct (mark_block d ps Hst Hroom Hcb Hcc) as (bs & bc & Hmark & Hlen & Hstate).
  pose proof (next_erased d ps Hst Hroom) as Herased. destruct (loc_range _ Hroom) as (Hl & Hb0 & Hlmax).
  unfold write_buffer. rewrite Hmark. cbn [mbind option_bind]. clear Hmark.
  pose proof HC as []. pose proof (K_Z C HC) as HK. pose proof (K_pos C HC).
  pose proof (Nat.mod_upper_bound (length ps) K ltac:(lia)) as Hmod.
  assert (length (ps ++ [p]) = S (length ps)) as Hl1 by (rewrite length_app; cbn; lia).
  assert (s32 (s32 (block_of (length ps) * nChunksPerBlock C) + Z.of_nat (length ps mod K)) = loc (length ps)) as Hchunk.
  { unfold YaffsCheckpt.loc in *. rewrite (s32_id (_ * _)) by (unfold is_s32; lia). apply s32_id. unfold is_s32. lia. }
  pose proof (st_seq _ _ Hst) as Hseq.
  destruct d as [f bs0 ne nf bc0 sq cnt off buf w cc cb nb bl mb].
  cbn [checkpointNextBlock checkpointCurrentBlock checkpointCurrentChunk checkpointBuffer checkpointPageSequence flash] in *.
  cbn [set_blocksInCheckpoint set_blockState checkpointNextBlock checkpointCurrentBlock checkpointCurrentChunk checkpointBuffer checkpointPageSequence flash].
  rewrite Hcb, Hcc, Hchunk, Hbuf. cbn [mbind option_bind].
  set (t := checkpoint_tags C tags _).
  pose proof (law_write f (loc (length ps)) p t Herased (Hwrite f (loc (length ps)) p t)) as Hw.
  pose proof (fun c => law_write_other f (loc (length ps)) p t c) as Hwo.
  destruct (writeChunkWithTagsToNAND f (loc (length ps)) p t) as [f' r']. cbn [fst] in Hw, Hwo.
  cbn [set_bytes set_flash set_pageSequence set_current set_buffer checkpointByteCount checkpointPageSequence checkpointCurrentChunk checkpointCurrentBlock].
  rewrite (s32_id (Z.of_nat _ + 1)), (s32_id (sq + 1)) by (unfold is_s32; nia).
  assert (page f' (loc (length ps)) = Some (p, (u32 (block_of (length ps) + 1), Z.of_nat (length ps) + 1,
    YAFFS_SEQUENCE_CHECKPOINT_DATA))) as Hpage.
  { rewrite Hw. unfold t, checkpoint_tags. cbn [objectId chunkId sequenceNumber checkpointNextBlock checkpointPageSequence].
    rewrite Hnext, Hseq, (u32_id (Z.of_nat _ + 1)) by (unfold is_u32; lia).
    destruct (blocks_for_cases C HC (length ps)) as [(_ & _ & ->) | (_ & _ & ->)]; done. }
  destruct (next_page C HC (length ps)) as [[Hn1 Hn2] | [Hn1 Hn2]].
  - destruct (Z.leb_spec (nChunksPerBlock C) (Z.of_nat (length ps mod K) + 1)); [|lia].
    eexists. split; [reflexivity|]. split; [|done]. split.
    + eapply stored_snoc; [exact Hst | done | cbn; lia | done | exact Hstate | exact Hpage | exact Hwo | done | done].
    + cbn [checkpointNextBlock checkpointCurrentBlock checkpointCurrentChunk set_buffer]. rewrite Hl1, Hn1. by split.
  - destruct (Z.leb_spec (nChunksPerBlock C) (Z.of_nat (length ps mod K) + 1)); [lia|].
    eexists. split; [reflexivity|]. split; [|done]. split.
    + eapply stored_snoc; [exact Hst | done | cbn; lia | done | exact Hstate | exact Hpage | exact Hwo | done | done].
    + cbn [checkpointNextBlock checkpointCurrentBlock checkpointCurrentChunk set_buffer set_current]. rewrite Hl1, Hn1. split; [done|].
      rewrite (proj2 (Nat.eqb_neq _ 0)) by lia. split; [|lia]. unfold YaffsCheckpt.block_of. f_equal.
      apply Nat.div_unique with (length ps mod K + 1)%nat; [lia|]. pose proof (Nat.div_mod_eq (length ps) K). lia.
Qed.

Lemma taken_below m x : (m <= length E)%nat -> x ∈ take m E -> x < next_of m.
Proof.
  revert x. induction m as [|m IH]; intros x Hm Hx; [by apply elem_of_nil in Hx|].
  rewrite (take_S_r _ _ (nth m E 0)) in Hx by (apply lookup_nth_lt; lia). cbn [next_of].
  apply elem_of_app in Hx as [Hx | ->%list_elem_of_singleton]; [|lia].
  specialize (IH x ltac:(lia) Hx). destruct (next_block m ltac:(lia)) as (? & _). lia.
Qed.

Context (Hspace : 0 < s32 (nErasedBlocks d0 - nReservedBlocks C)).

Lemma find_next_erased d ps : written d ps -> (length ps mod K = 0)%nat ->
  (blocks_for (S (length ps)) <= length E)%nat ->
  yaffs_CheckpointFindNextErasedBlock C d =
  Some (set_current (set_nextBlock d (next_of (blocks_for (S (length ps))))) (checkpointCurrentChunk d)
          (block_of (length ps))).
Proof.
  intros (Hst & Hnext & _) Hz Hroom. pose proof Hst as [].
  destruct (blocks_for_cases C HC (length ps)) as [(_ & Hb0 & Hb1) | (? & _)]; [|done].
  destruct (next_block (length ps / K)%nat ltac:(lia)) as (Hr & Hs & _ & Hhead & _).
  unfold yaffs_CheckpointFindNextErasedBlock. rewrite Hnext, st_erased0, Hb0. pose proof HC as [].
  destruct (Z.leb_spec 0 (next_of (length ps / K))); [|lia].
  destruct (Z.leb_spec (next_of (length ps / K)) (endBlock C)); [|lia].
  destruct (Z.ltb_spec 0 (s32 (nErasedBlocks d0 - nReservedBlocks C))); [|lia]. cbn [andb].
  rewrite (find_erased_ok _ _ _ d0).
  - unfold from in Hhead. rewrite Hhead. cbn [mbind option_bind]. by rewrite Hb1.
  - intros j Hj. rewrite st_state0, decide_False; [done|]. intros Hin.
    apply taken_below in Hin; [|lia]. rewrite Hb0 in Hin. lia.
  - intros j Hj. apply (cl_state C d0 Hclean). unfold in_range. lia.
Qed.

Lemma flush_ok d ps p : written d ps -> (blocks_for (S (length ps)) <= length E)%nat ->
  checkpointBuffer d = Some p -> Z.of_nat (length ps) + 1 < 2 ^ 31 -> exists d',
  yaffs_CheckpointFlushBuffer C tags d = Some (d', 1) /\ written d' (ps ++ [p]) /\
  checkpointBuffer d' = Some (replicate (N C) 0) /\ checkpointByteOffset d' = 0.
Proof.
  intros Hw Hroom Hbuf Hmax. pose proof Hw as (Hst & Hnext & Hcur).
  destruct (block_of_range _ Hroom) as ([Hr _] & _). pose proof HC as [].
  unfold yaffs_CheckpointFlushBuffer. destruct (Nat.eqb_spec (length ps mod K) 0) as [Hz|Hnz].
  - rewrite Hcur. cbn [Z.ltb Z.compare]. rewrite (find_next_erased d ps Hw Hz Hroom). cbn [mbind option_bind].
    destruct d as [f bs ne nf bc sq cnt off buf w cc cb nb bl mb].
    cbn [set_current set_nextBlock checkpointCurrentBlock checkpointCurrentChunk] in *.
    destruct (Z.ltb_spec (block_of (length ps)) 0); [lia|].
    apply write_buffer_ok; try done; [|cbn; by rewrite Hz].
    destruct Hst. by split.
  - destruct Hcur as [Hcb Hcc]. rewrite Hcb. destruct (Z.ltb_spec (block_of (length ps)) 0); [lia|].
    cbn [mbind option_bind]. rewrite Hcb. destruct (Z.ltb_spec (block_of (length ps)) 0); [lia|].
    apply write_buffer_ok; try done. rewrite Hnext. f_equal.
    by destruct (blocks_for_cases C HC (length ps)) as [(? & _) | (_ & -> & ->)].
Qed.

(** The bytes [bs] have been written: full pages and the start of another one. *)
Definition streamed (d : ckpt_device) (bs : list Z) : Prop := exists ps part,
  bs = concat ps ++ part /\ Forall (fun p => length p = N C) ps /\ (length part < N C)%nat /\
  written d ps /\ checkpointByteOffset d = Z.of_nat (length part) /\
  checkpointBuffer d = Some (part ++ replicate (N C - length part) 0).

(** Pages and blocks that [n] bytes take. *)
Definition pages_for (n : nat) : nat := (n + N C - 1) / N C.

Lemma length_pages (ps : list (list Z)) : Forall (fun p => length p = N C) ps ->
  length (concat ps) = (length ps * N C)%nat.
Proof. induction 1 as [|p ps Hp _ IH]; [done|]. cbn. rewrite length_app, Hp, IH. lia. Qed.

Lemma pages_for_full (ps : list (list Z)) part : Forall (fun p => length p = N C) ps ->
  pages_for (length (concat ps ++ part)) = (length ps + pages_for (length part))%nat.
Proof.
  intros Hps. pose proof (N_pos C HC). unfold pages_for. rewrite length_app, length_pages by done.
  replace (length ps * N C + length part + N C - 1)%nat with ((length part + N C - 1) + length ps * N C)%nat by lia.
  rewrite Nat.div_add by lia. lia.
Qed.

Lemma pages_for_mono n m : (n <= m)%nat -> (pages_for n <= pages_for m)%nat.
Proof. intros H. pose proof (N_pos C HC). apply Nat.Div0.div_le_mono. lia. Qed.

Lemma blocks_for_mono n m : (n <= m)%nat -> (blocks_for n <= blocks_for m)%nat.
Proof. intros H. unfold YaffsCheckpt.blocks_for. apply Nat.Div0.div_le_mono. lia. Qed.

Definition room_for (n : nat) : Prop :=
  (blocks_for (pages_for n) <= length E)%nat /\ Z.of_nat (pages_for n) < 2 ^ 31.

Lemma written_bytes d ps cnt off buf : written d ps -> written (set_bytes (set_buffer d buf) cnt off) ps.
Proof. destruct d. intros ([] & Hn & Hc). split; [by split | by split]. Qed.

Lemma put_byte (part : list Z) x : (length part < N C)%nat ->
  <[length part := x]> (part ++ replicate (N C - length part) 0) =
  (part ++ [x]) ++ replicate (N C - length (part ++ [x])) 0.
Proof.
  intros Hp. rewrite length_app. cbn [length].
  replace (N C - length part)%nat with (S (N C - (length part + 1)))%nat by lia.
  rewrite insert_app_r_alt by lia. rewrite Nat.sub_diag. cbn [replicate]. by rewrite <- app_assoc.
Qed.

Lemma room_next (ps : list (list Z)) (part : list Z) : Forall (fun p => length p = N C) ps -> length part = N C ->
  room_for (length (concat ps ++ part)) ->
  (blocks_for (S (length ps)) <= length E)%nat /\ Z.of_nat (length ps) + 1 < 2 ^ 31.
Proof.
  intros Hps Hp [Hb Hm]. rewrite pages_for_full in Hb, Hm by done.
  assert (pages_for (length part) = 1%nat) as H1.
  { unfold pages_for. rewrite Hp. pose proof (N_pos C HC). symmetry. apply Nat.div_unique with (N C - 1)%nat; lia. }
  rewrite H1 in *. rewrite Nat.add_1_r in *. split; [done | lia].
Qed.

Lemma write_loop_ok data i d bs : streamed d bs -> room_for (length (bs ++ data)) -> exists d',
  write_loop C tags data i d = Some (d', i + Z.of_nat (length data)) /\ streamed d' (bs ++ data).
Proof.
  revert i d bs. induction data as [|x data IH]; intros i d bs Hs Hroom; cbn [write_loop].
  { exists d. rewrite app_nil_r. split; [do 2 f_equal; cbn; lia | done]. }
  destruct Hs as (ps & part & Hbs & Hps & Hpart & Hw & Hoff & Hbuf). rewrite Hbuf. cbn [mbind option_bind].
  pose proof (N_Z C HC) as HN. rewrite Hoff, length_app, length_replicate.
  destruct (Z.ltb_spec (Z.of_nat (length part)) 0); [lia|].
  destruct (Z.leb_spec (Z.of_nat (length part + (N C - length part))) (Z.of_nat (length part))); [lia|]. cbn [orb].
  rewrite Nat2Z.id, put_byte by done.
  assert (bs ++ x :: data = (bs ++ [x]) ++ data) as Hd by by rewrite <- app_assoc. rewrite Hd in *.
  assert (bs ++ [x] = concat ps ++ (part ++ [x])) as Hbx by by rewrite Hbs, <- app_assoc.
  assert (room_for (length (concat ps ++ (part ++ [x])))) as Hr.
  { rewrite <- Hbx. destruct Hroom as [Hr1 Hr2]. rewrite length_app in Hr1, Hr2.
    pose proof (pages_for_mono (length (bs ++ [x])) (length (bs ++ [x]) + length data) ltac:(lia)) as Hpm.
    pose proof (blocks_for_mono _ _ Hpm). split; lia. }
  set (d1 := set_bytes _ _ _).
  assert (written d1 ps) as Hw1 by by apply written_bytes.
  assert (checkpointByteOffset d1 = Z.of_nat (length part) + 1 /\
    checkpointBuffer d1 = Some ((part ++ [x]) ++ replicate (N C - length (part ++ [x])) 0)) as [Ho1 Hb1]
    by (unfold d1; by destruct d).
  rewrite Ho1. destruct (Z.ltb_spec (Z.of_nat (length part) + 1) 0); [lia|].
  destruct (Z.leb_spec (nDataBytesPerChunk C) (Z.of_nat (length part) + 1)) as [Hfull|Hless]; cbn [orb].
  - assert (length (part ++ [x]) = N C) as Hlen by (rewrite length_app; cbn; lia).
    rewrite Hlen, Nat.sub_diag, app_nil_r in Hb1.
    destruct (room_next ps (part ++ [x]) Hps Hlen Hr) as [Hroom1 Hroom2].
    destruct (flush_ok d1 ps (part ++ [x]) Hw1 Hroom1 Hb1 Hroom2) as (d2 & -> & Hw2 & Hb2 & Ho2).
    cbn [mbind option_bind truthy Z.eqb negb].
    destruct (IH (i + 1) d2 (bs ++ [x])) as (d' & Hd' & Hs'); [|done|].
    + exists (ps ++ [part ++ [x]]), []. rewrite concat_app, app_nil_r. cbn [concat]. rewrite app_nil_r.
      split; [done|]. split; [apply Forall_app; by split; [|constructor]|].
      split; [cbn; pose proof (N_pos C HC); lia|]. split; [done|]. split; [done|]. cbn. by rewrite Nat.sub_0_r.
    + exists d'. rewrite Hd'. split; [do 2 f_equal; cbn [length]; lia | done].
  - cbn [mbind option_bind truthy Z.eqb negb].
    destruct (IH (i + 1) d1 (bs ++ [x])) as (d' & Hd' & Hs'); [|done|].
    + exists ps, (part ++ [x]). split; [done|]. split; [done|]. split; [rewrite length_app; cbn; lia|].
      split; [done|]. split; [rewrite Ho1, length_app; cbn; lia | done].
    + exists d'. rewrite Hd'. split; [do 2 f_equal; cbn [length]; lia | done].
Qed.

(** What a reader finds: the pages [ps], and no other block that starts a checkpoint page. *)
Record on_flash (f : Flash) (ps : list (list Z)) : Prop := {
  of_room : (blocks_for (length ps) <= length E)%nat;
  of_page k p : ps !! k = Some p ->
    page f (loc k) = Some (p, (u32 (block_of k + 1), Z.of_nat k + 1, YAFFS_SEQUENCE_CHECKPOINT_DATA));
  of_other i : in_range C i -> i ∉ take (blocks_for (length ps)) E -> no_checkpoint C f i
}.

Lemma stored_on_flash d ps : stored d ps -> on_flash (flash d) ps.
Proof.
  intros []. split; [done | done |]. intros i Hi Hnin data o k q. rewrite st_other0.
  - destruct (decide (is_empty d0 i)) as [He|Hne].
    + rewrite (cl_empty C d0 Hclean i Hi He); [done|]. destruct HC. lia.
    + apply (cl_other C d0 Hclean i Hi Hne).
  - intros j Hj Heq. apply Hnin. pose proof (blocks_for_lt C HC j (length ps) Hj) as Hlt.
    destruct (loc_range j) as (Hl & _). { pose proof (blocks_for_mono (S j) (length ps) ltac:(lia)). lia. }
    assert (i = block_of j) as -> by (rewrite <- Heq in Hl; destruct HC; nia).
    apply list_elem_of_lookup. exists (j / K)%nat. rewrite lookup_take_lt by done. apply lookup_nth_lt. lia.
Qed.

Lemma close_buffer d ne nf buf : checkpointBuffer d = Some buf ->
  match checkpointBuffer (set_space d ne nf) with
  | Some _ => Some (set_buffer (set_space d ne nf) None, 1)
  | None => Some (set_space d ne nf, 0)
  end = Some (set_buffer (set_space d ne nf) None, 1) /\
  flash (set_buffer (set_space d ne nf) None) = flash d.
Proof. destruct d. cbn. by intros ->. Qed.

Lemma close_ok d bs : streamed d bs -> room_for (length bs) -> truthy (checkpointOpenForWrite d0) = true -> exists d' ps,
  yaffs_CheckpointClose C tags d = Some (d', 1) /\ on_flash (flash d') ps /\
  Forall (fun p => length p = N C) ps /\ length ps = pages_for (length bs) /\
  take (length bs) (concat ps) = bs.
Proof.
  intros (ps & part & Hbs & Hps & Hpart & Hw & Hoff & Hbuf) Hroom Hopen.
  pose proof Hw as ([] & _). unfold yaffs_CheckpointClose. rewrite st_open0, Hopen, Hoff.
  destruct part as [|x part].
  - cbn [length truthy Z.of_nat Z.eqb negb mbind option_bind].
    edestruct (close_buffer d) as [Hc Hf]; [exact Hbuf|]. eexists _, ps. split; [exact Hc|].
    rewrite app_nil_r in Hbs. subst bs. split; [|split; [done|split]].
    + rewrite Hf. apply stored_on_flash. apply Hw.
    + pose proof (pages_for_full ps [] Hps) as Hp. rewrite app_nil_r in Hp. rewrite Hp. unfold pages_for. cbn [length].
      rewrite Nat.div_small; [lia|]. pose proof (N_pos C HC). lia.
    + by rewrite take_ge.
  - set (p := x :: part) in *. assert (truthy (Z.of_nat (length p)) = true) as ->.
    { unfold truthy. destruct (Z.eqb_spec (Z.of_nat (length p)) 0); [cbn in *; lia | done]. }
    assert (pages_for (length bs) = S (length ps)) as Hpages.
    { rewrite Hbs, pages_for_full by done. rewrite Nat.add_comm. unfold pages_for.
      replace ((length p + N C - 1) / N C)%nat with 1%nat; [done|].
      apply Nat.div_unique with (length p - 1)%nat; cbn in *; lia. }
    destruct Hroom as [Hr1 Hr2]. rewrite Hpages in Hr1, Hr2.
    destruct (flush_ok d ps _ Hw Hr1 Hbuf ltac:(lia)) as (d' & -> & Hw' & Hb' & _). cbn [mbind option_bind].
    edestruct (close_buffer d') as [Hc Hf]; [exact Hb'|].
    eexists _, (ps ++ [p ++ replicate (N C - length p) 0]). split; [exact Hc|].
    split; [|split; [|split]].
    + rewrite Hf. apply stored_on_flash. apply Hw'.
    + apply Forall_app. split; [done|]. constructor; [rewrite length_app, length_replicate; lia | constructor].
    + rewrite length_app, Hpages. cbn. lia.
    + rewrite concat_app. cbn [concat]. rewrite app_nil_r, app_assoc, <- Hbs. by rewrite take_app_length.
Qed.

(** ** Reading *)

Section Reading.
Context (f0 : Flash) (ps : list (list Z)) (Hf : on_flash f0 ps) (max : Z).
Context (Hps : Forall (fun p => length p = N C) ps) (Hq : Z.of_nat (length ps) < 2 ^ 31)
        (Hmax : Z.of_nat (blocks_for (length ps)) <= max).

Definition same_pages (f : Flash) : Prop := forall c, page f c = page f0 c.

(** [j] pages have been read. *)
Record reading (d : ckpt_device) (j : nat) : Prop := {
  re_seq : checkpointPageSequence d = Z.of_nat j;
  re_in : blocksInCheckpoint d = Z.of_nat (blocks_for j);
  re_next : checkpointNextBlock d = next_of (blocks_for j);
  re_cur : if (j mod K =? 0)%nat then checkpointCurrentBlock d = -1
           else checkpointCurrentBlock d = block_of j /\ checkpointCurrentChunk d = Z.of_nat (j mod K);
  re_flash : same_pages (flash d);
  re_list : exists bl, checkpointBlockList d = Some bl /\ Z.of_nat (length bl) = max;
  re_max : checkpointMaxBlocks d = max
}.

Lemma read_no_checkpoint f i : same_pages f -> no_checkpoint C f0 i ->
  sequenceNumber (readChunkWithTagsFromNAND f (i * nChunksPerBlock C)).2 <> YAFFS_SEQUENCE_CHECKPOINT_DATA.
Proof.
  intros Hs Hn. destruct (page f (i * nChunksPerBlock C)) as [[data [[o k] q]]|] eqn:Hp.
  - destruct (law_read_page _ _ _ _ _ _ Hp) as [_ He]. injection He as _ _ ->. rewrite Hs in Hp. by eapply Hn.
  - by apply law_read_erased.
Qed.

Lemma same_pages_read f c : same_pages f -> same_pages (readChunkWithTagsFromNAND f c).1.1.
Proof. intros Hs c'. by rewrite law_read, Hs. Qed.

(** The search passes over other blocks and stops at [x]. *)
Lemma find_checkpoint_ok n i d x data o k : same_pages (flash d) -> 0 <= i <= x -> x <= endBlock C ->
  x < i + Z.of_nat n -> (forall j, i <= j < x -> no_checkpoint C f0 j) ->
  page f0 (x * nChunksPerBlock C) = Some (data, (o, k, YAFFS_SEQUENCE_CHECKPOINT_DATA)) -> exists f t,
  find_checkpoint C n i d = (set_flash d f, Some (x, t)) /\ objectId t = o /\ same_pages f.
Proof.
  revert i d. induction n as [|n IH]; intros i d Hs Hi Hx Hn Hno Hp; [lia|]. cbn [find_checkpoint].
  pose proof HC as []. rewrite s32_id by (unfold is_s32; nia).
  pose proof (same_pages_read (flash d) (i * nChunksPerBlock C) Hs) as Hs'.
  destruct (Z.eq_dec i x) as [-> | Hne].
  - rewrite <- Hs in Hp. destruct (law_read_page _ _ _ _ _ _ Hp) as [_ He].
    destruct (readChunkWithTagsFromNAND (flash d) (x * nChunksPerBlock C)) as [[f' data'] t]. cbn [fst snd] in *.
    injection He as Ho _ Hq'. rewrite Hq', Z.eqb_refl. by exists f', t.
  - pose proof (read_no_checkpoint (flash d) i Hs (Hno i ltac:(lia))) as Hn'.
    destruct (readChunkWithTagsFromNAND (flash d) (i * nChunksPerBlock C)) as [[f' data'] t]. cbn [fst snd] in *.
    destruct (Z.eqb_spec (sequenceNumber t) YAFFS_SEQUENCE_CHECKPOINT_DATA); [done|].
    destruct (IH (i + 1) (set_flash d f')) as (f & t' & -> & Ho & Hsf); [by destruct d | lia | lia | lia | |done|].
    { intros j Hj. apply Hno. lia. }
    exists f, t'. split; [by destruct d | done].
Qed.

Lemma find_next_checkpoint d j : reading d j -> (j mod K = 0)%nat -> (j < length ps)%nat -> exists d',
  yaffs_CheckpointFindNextCheckpointBlock C d = Some d' /\ checkpointCurrentBlock d' = block_of j /\
  checkpointNextBlock d' = next_of (blocks_for (S j)) /\ blocksInCheckpoint d' = Z.of_nat (blocks_for (S j)) /\
  checkpointPageSequence d' = Z.of_nat j /\ same_pages (flash d') /\ checkpointMaxBlocks d' = max /\
  exists bl, checkpointBlockList d' = Some bl /\ Z.of_nat (length bl) = max.
Proof.
  intros [] Hz Hj. destruct Hf.
  destruct (blocks_for_cases C HC j) as [(_ & Hb0 & Hb1) | (? & _)]; [|done].
  pose proof (blocks_for_mono (S j) (length ps) ltac:(lia)) as Hmono.
  destruct (next_block (j / K)%nat ltac:(lia)) as (Hr & Hs & _ & _ & Hgap). pose proof HC as [].
  destruct (lookup_lt_is_Some_2 ps j Hj) as [p Hp]. pose proof (of_page0 j p Hp) as Hpage.
  unfold YaffsCheckpt.loc in Hpage. rewrite Hz, Z.add_0_r in Hpage.
  destruct re_list0 as (bl & Hbl & Hlen).
  unfold yaffs_CheckpointFindNextCheckpointBlock. rewrite re_in0, re_max0, re_next0, Hb0.
  destruct (Z.ltb_spec (Z.of_nat (j / K)) max); [|lia].
  edestruct (find_checkpoint_ok (Z.to_nat (endBlock C - next_of (j / K) + 1)) (next_of (j / K)) d (block_of j))
    as (f & t & -> & Ho & Hsf); [done | unfold YaffsCheckpt.block_of; lia | unfold YaffsCheckpt.block_of; lia | unfold YaffsCheckpt.block_of; lia | | exact Hpage |].
  { intros i Hi. apply of_other0; [unfold in_range, YaffsCheckpt.block_of in *; lia|].
    rewrite elem_of_take. intros (k & Hk & Hklt). apply (Hgap i Hi).
    assert (i ∈ E) as Hin by (by apply list_elem_of_lookup_2 in Hk). by apply from_elem in Hin as [_ ?]. }
  destruct d as [fl bs ne nf bc sq cnt off buf w cc cb nb bl' mb].
  cbn [set_flash checkpointBlockList blocksInCheckpoint checkpointPageSequence checkpointMaxBlocks checkpointNextBlock flash checkpointCurrentBlock] in *.
  rewrite Hbl, re_in0. cbn [mbind option_bind]. rewrite Hb0.
  destruct (Z.ltb_spec (Z.of_nat (j / K)) 0); [lia|].
  destruct (Z.leb_spec (Z.of_nat (length bl)) (Z.of_nat (j / K))); [lia|]. cbn [orb].
  eexists. split; [reflexivity|]. cbn. rewrite Ho. split; [done|].
  rewrite Hb1. cbn [next_of]. unfold YaffsCheckpt.block_of in *.
  assert (is_u32 (nth (j / K) E 0 + 1)) by (unfold is_u32; nia).
  rewrite u32_id, s32_id by (done || unfold is_s32; nia). split; [done|].
  assert (j / K <= j)%nat by (apply Nat.Div0.div_le_upper_bound; pose proof (K_pos C HC); nia).
  rewrite s32_id by (unfold is_s32; lia). split; [lia|]. do 3 (split; [done|]).
  eexists. split; [done|]. by rewrite length_insert.
Qed.

(** The refill, once the block is known. *)
Lemma refill d j p : (j < length ps)%nat -> ps !! j = Some p -> same_pages (flash d) ->
  checkpointPageSequence d = Z.of_nat j -> checkpointCurrentBlock d = block_of j ->
  checkpointCurrentChunk d = Z.of_nat (j mod K) ->
  exists f t, readChunkWithTagsFromNAND (flash d)
      (s32 (s32 (checkpointCurrentBlock d * nChunksPerBlock C) + checkpointCurrentChunk d)) = (f, p, t) /\
    same_pages f /\ chunkId t = u32 (checkpointPageSequence d + 1) /\
    sequenceNumber t = YAFFS_SEQUENCE_CHECKPOINT_DATA /\ 0 <= block_of j.
Proof.
  intros Hj Hp Hs Hq' Hcb Hcc. destruct Hf as [Hroom Hpage _].
  pose proof (blocks_for_mono (S j) (length ps) ltac:(lia)) as Hmono.
  destruct (loc_range j ltac:(lia)) as (Hl & Hb0 & Hlmax). pose proof HC as [].
  assert (s32 (s32 (block_of j * nChunksPerBlock C) + Z.of_nat (j mod K)) = loc j) as Hchunk.
  { unfold YaffsCheckpt.loc in *. rewrite (s32_id (_ * _)) by (unfold is_s32; lia). apply s32_id. unfold is_s32. lia. }
  rewrite Hcb, Hcc, Hchunk, Hq'. specialize (Hpage j p Hp). rewrite <- Hs in Hpage.
  destruct (law_read_page _ _ _ _ _ _ Hpage) as [Hdata He]. pose proof (same_pages_read (flash d) (loc j) Hs) as Hs'.
  destruct (readChunkWithTagsFromNAND (flash d) (loc j)) as [[f' data'] t]. cbn [fst snd] in *.
  injection He as _ Hk Hsq. subst data'. exists f', t. split; [done|]. split; [done|].
  rewrite u32_id by (unfold is_u32; lia). split; [done|]. split; [done | lia].
Qed.

Lemma read_page_ok d j p : reading d j -> ps !! j = Some p -> exists d',
  read_page C d = Some (d', 1) /\ reading d' (S j) /\ checkpointBuffer d' = Some p /\ checkpointByteOffset d' = 0.
Proof.
  intros Hre Hp. pose proof (lookup_lt_Some _ _ _ Hp) as Hj.
  assert (exists d1, (if checkpointCurrentBlock d <? 0 then
       d ← yaffs_CheckpointFindNextCheckpointBlock C d; Some (set_current d 0 (checkpointCurrentBlock d))
     else Some d) = Some d1 /\ checkpointCurrentBlock d1 = block_of j /\
     checkpointCurrentChunk d1 = Z.of_nat (j mod K) /\
     checkpointNextBlock d1 = next_of (blocks_for (S j)) /\ blocksInCheckpoint d1 = Z.of_nat (blocks_for (S j)) /\
     checkpointPageSequence d1 = Z.of_nat j /\ same_pages (flash d1) /\ checkpointMaxBlocks d1 = max /\
     exists bl, checkpointBlockList d1 = Some bl /\ Z.of_nat (length bl) = max) as
    (d1 & Hd1 & Hcb & Hcc & Hnext & Hin & Hseq & Hs & Hmx & bl & Hbl & Hlen).
  { pose proof Hre as []. destruct (Nat.eqb_spec (j mod K) 0) as [Hz|Hnz].
    - rewrite re_cur0. destruct (find_next_checkpoint d j Hre Hz Hj) as (d' & -> & Hrest).
      eexists. split; [reflexivity|]. rewrite Hz. destruct Hrest as (? & ? & ? & ? & ? & ? & ?). by destruct d'.
    - destruct re_cur0 as [Hcb Hcc]. rewrite Hcb.
      assert (0 <= block_of j) by (by destruct (refill d j p Hj Hp re_flash0 re_seq0 Hcb Hcc) as (? & ? & _ & _ & _ & _ & ?)).
      destruct (Z.ltb_spec (block_of j) 0); [lia|]. exists d. split; [done|].
      destruct (blocks_for_cases C HC j) as [(? & _) | (_ & Hb0 & Hb1)]; [done|]. rewrite Hb1, <- Hb0. done. }
  unfold read_page. rewrite Hd1. cbn [mbind option_bind].
  destruct (refill d1 j p Hj Hp Hs Hseq Hcb Hcc) as (f & t & -> & Hsf & Hk & Hsq & Hb).
  destruct (Z.ltb_spec (checkpointCurrentBlock d1) 0); [lia|].
  destruct d1 as [fl bs ne nf bc sq cnt off buf w cc cb nb bl' mb].
  cbn [set_flash set_buffer set_bytes set_pageSequence set_current checkpointPageSequence checkpointCurrentChunk
       checkpointCurrentBlock checkpointByteCount checkpointNextBlock blocksInCheckpoint checkpointMaxBlocks checkpointBlockList] in *.
  rewrite Hk, Hsq, !Z.eqb_refl. cbn [negb orb]. subst.
  pose proof (K_Z C HC) as HK. pose proof HC as []. assert (nChunksPerBlock C < 2 ^ 31) by nia.
  rewrite !s32_id by (unfold is_s32; pose proof (Nat.mod_upper_bound j K ltac:(lia)); lia).
  eexists. split; [reflexivity|]. split; [|by destruct (_ <=? _)].
  destruct (next_page C HC j) as [[Hm Hm1] | [Hm Hm1]].
  - destruct (Z.leb_spec (nChunksPerBlock C) (Z.of_nat (j mod K) + 1)); [|lia].
    split; cbn; try done; [lia | by rewrite Hm | by exists bl].
  - destruct (Z.leb_spec (nChunksPerBlock C) (Z.of_nat (j mod K) + 1)); [lia|].
    split; cbn; try done; [lia | | by exists bl].
    rewrite Hm. destruct (Nat.eqb_spec (j mod K + 1)%nat 0%nat); [lia|]. split; [|lia].
    unfold YaffsCheckpt.block_of. f_equal. apply Nat.div_unique with (j mod K + 1)%nat; [lia|].
    pose proof (Nat.div_mod_eq j K). lia.
Qed.

(** [rest] is what the stream still holds: the end of the buffer and the pages not read yet. *)
Definition reader (d : ckpt_device) (rest : list Z) : Prop := exists j pre cur,
  rest = cur ++ concat (drop j ps) /\ reading d j /\ length (pre ++ cur) = N C /\
  checkpointByteOffset d = Z.of_nat (length pre) /\ is_Some (checkpointBuffer d) /\
  (cur <> [] -> checkpointBuffer d = Some (pre ++ cur)).

Lemma reading_bytes d j cnt off : reading d j -> reading (set_bytes d cnt off) j.
Proof. destruct d. intros []. by split. Qed.

(** One byte leaves the buffer. *)
Lemma next_byte d j pre x cur cnt : reading d j -> length (pre ++ x :: cur) = N C ->
  checkpointByteOffset d = Z.of_nat (length pre) -> checkpointBuffer d = Some (pre ++ x :: cur) ->
  reader (set_bytes d cnt (checkpointByteOffset d + 1)) (cur ++ concat (drop j ps)).
Proof.
  intros Hre Hlen Hoff Hbuf. exists j, (pre ++ [x]), cur. split; [done|]. split; [by apply reading_bytes|].
  rewrite <- app_assoc. cbn [app]. split; [done|]. destruct d. cbn in *. rewrite Hoff, length_app. cbn.
  split; [lia|]. by split.
Qed.

(** The buffer is not used up, after a refill if need be. *)
Lemma fill d rest : reader d rest -> rest <> [] -> exists d' j pre x cur,
  (if (checkpointByteOffset d <? 0) || (nDataBytesPerChunk C <=? checkpointByteOffset d)
   then read_page C d else Some (d, 1)) = Some (d', 1) /\ rest = (x :: cur) ++ concat (drop j ps) /\
  reading d' j /\ length (pre ++ x :: cur) = N C /\
  checkpointByteOffset d' = Z.of_nat (length pre) /\ checkpointBuffer d' = Some (pre ++ x :: cur).
Proof.
  intros (j & pre & cur & -> & Hre & Hlen & Hoff & Hsome & Hbuf) Hne. pose proof (N_Z C HC). pose proof (N_pos C HC).
  rewrite Hoff. destruct (Z.ltb_spec (Z.of_nat (length pre)) 0); [lia|]. cbn [orb].
  rewrite length_app in Hlen. destruct cur as [|x cur]; cbn [length] in Hlen.
  - destruct (Z.leb_spec (nDataBytesPerChunk C) (Z.of_nat (length pre))); [|lia].
    destruct (ps !! j) as [p|] eqn:Hp; [|by rewrite (drop_ge _ _ (proj1 (lookup_ge_None ps j) Hp)) in Hne].
    destruct (read_page_ok d j p Hre Hp) as (d' & -> & Hre' & Hb' & Ho').
    assert (length p = N C) as Hl by exact (Forall_lookup_1 _ _ _ _ Hps Hp).
    destruct p as [|x p]; [cbn in Hl; lia|].
    exists d', (S j), [], x, p. rewrite (drop_S _ _ _ Hp). done.
  - destruct (Z.leb_spec (nDataBytesPerChunk C) (Z.of_nat (length pre))); [lia|].
    exists d, j, pre, x, cur. rewrite length_app. cbn [length]. by rewrite Hbuf.
Qed.

Lemma read_loop_ok n d rest : reader d rest -> (n <= length rest)%nat -> exists d',
  read_loop C n d = Some (d', take n rest) /\ reader d' (drop n rest).
Proof.
  revert d rest. induction n as [|n IH]; intros d rest Hr Hn; cbn [read_loop]; [by exists d|].
  destruct (fill d rest Hr) as (d1 & j & pre & x & cur & -> & -> & Hre & Hlen & Hoff & Hbuf); [intros ->; cbn in Hn; lia|].
  cbn [mbind option_bind truthy Z.eqb negb]. rewrite Hbuf. cbn [mbind option_bind]. rewrite Hoff.
  destruct (Z.ltb_spec (Z.of_nat (length pre)) 0); [lia|].
  rewrite Nat2Z.id, list_lookup_middle by done. cbn [mbind option_bind]. rewrite <- Hoff.
  destruct (IH _ _ (next_byte d1 j pre x cur (s32 (checkpointByteCount d1 + 1)) Hre Hlen Hoff Hbuf)) as (d' & -> & Hr').
  { cbn in Hn. lia. }
  exists d'. done.
Qed.

Lemma read_ok n d rest : reader d rest -> (n <= length rest)%nat -> exists d',
  yaffs_CheckpointRead C d (Z.of_nat n) = Some (d', take n rest) /\ reader d' (drop n rest).
Proof.
  intros Hr Hn. pose proof Hr as (_ & _ & _ & _ & _ & _ & _ & [buf Hb] & _).
  unfold yaffs_CheckpointRead. rewrite Hb, Nat2Z.id. by apply read_loop_ok.
Qed.
End Reading.
End Writing.

(** ** Opening *)

Section Opening.
Context {D : CheckpointDriver} (C : ckpt_config) {L : CheckpointDriverLaws D (nChunksPerBlock C)}.
Context (HC : config_ok C).
Context (Herase : forall f b, in_range C b -> truthy (eraseBlockInNAND f b).2 = true).

Definition is_checkpoint (d : ckpt_device) (i : Z) : Prop :=
  get_blockState d i = Some YAFFS_BLOCK_STATE_CHECKPOINT.
#[global] Instance is_checkpoint_dec d i : Decision (is_checkpoint d i).
Proof. unfold is_checkpoint. apply _. Defined.

(** The checkpoint blocks from [i] up to [k] have been erased, and nothing else has changed. *)
Record erased_to (d d' : ckpt_device) (i k : Z) : Prop := {
  er_frame : exists f bs ne nf, d' = set_space (set_blockState (set_flash d f) bs) ne nf;
  er_state j : get_blockState d' j =
    if decide (i <= j < k /\ is_checkpoint d j) then Some YAFFS_BLOCK_STATE_EMPTY else get_blockState d j;
  er_count : nErasedBlocks d <= nErasedBlocks d' <= nErasedBlocks d + (k - i);
  er_page c : page (flash d') c = None \/ page (flash d') c = page (flash d) c;
  er_erased j : i <= j < k -> is_checkpoint d j -> erased C (flash d') j
}.

Lemma erased_to_refl d i : erased_to d d i i.
Proof.
  split; [|intros j|lia|by right|lia].
  - exists (flash d), (blockState d), (nErasedBlocks d), (nFreeChunks d). by destruct d.
  - destruct (decide _); [lia | done].
Qed.

Lemma erased_to_trans d d1 d2 i j k : i <= j <= k -> erased_to d d1 i j -> erased_to d1 d2 j k -> erased_to d d2 i k.
Proof.
  intros Hijk [(f1 & b1 & e1 & c1 & ->) Hs1 He1 Hp1 Hr1] [(f2 & b2 & e2 & c2 & ->) Hs2 He2 Hp2 Hr2].
  set (d1 := set_space (set_blockState (set_flash d f1) b1) e1 c1) in *. split.
  - exists f2, b2, e2, c2. by destruct d.
  - intros x. rewrite Hs2. pose proof (Hs1 x) as Hx.
    assert (is_checkpoint d1 x <-> is_checkpoint d x /\ ~ i <= x < j) as Hiff.
    { unfold is_checkpoint at 1. rewrite Hx. case_decide; naive_solver. }
    destruct (decide (j <= x < k /\ is_checkpoint d1 x)) as [[Hjx Hc]|Hn].
    + rewrite decide_True; [done|]. split; [lia | by apply Hiff].
    + rewrite Hx. clear Hx. repeat case_decide; naive_solver lia.
  - lia.
  - intros c. destruct (Hp2 c) as [? | ->]; [by left | exact (Hp1 c)].
  - intros x Hx Hc. destruct (Z_lt_ge_dec x j) as [Hlt|Hge].
    + intros c Hcc. destruct (Hp2 c) as [? | ->]; [done|]. apply (Hr1 x); [lia | done | done].
    + apply Hr2; [lia|]. unfold is_checkpoint. rewrite Hs1. case_decide; [lia | done].
Qed.

(** One turn of the loop. *)
Lemma erase_one d i : in_range C i -> is_Some (get_blockState d i) ->
  0 <= nErasedBlocks d -> nErasedBlocks d + 1 < 2 ^ 31 -> exists d',
  erase_loop C 1 i d = Some d' /\ erased_to d d' i (i + 1).
Proof.
  intros Hi [st Hst] He0 He1. cbn [erase_loop]. rewrite Hst. cbn [mbind option_bind].
  destruct (bool_decide_reflect (st = YAFFS_BLOCK_STATE_CHECKPOINT)) as [-> | Hne].
  - pose proof (Herase (flash d) i Hi) as Hok. pose proof (law_erase (flash d) i) as Hl.
    destruct (eraseBlockInNAND (flash d) i) as [f r]. cbn [fst snd] in *. rewrite Hok. specialize (fun c => Hl c Hok).
    assert (0 <= i < Z.of_nat (length (blockState d))) as Hlen.
    { unfold get_blockState in Hst. destruct (Z.ltb_spec i 0); [done|]. apply lookup_lt_Some in Hst. lia. }
    assert (0 <= i < Z.of_nat (length (blockState (set_flash d f)))) as Hlen' by by destruct d.
    pose proof (fun j => get_put_blockState (set_flash d f) i YAFFS_BLOCK_STATE_EMPTY j Hlen') as Hput.
    destruct (Hput 0) as (d' & Hd' & Hd & _). rewrite Hd'. cbn [mbind option_bind].
    assert (forall j, get_blockState d' j = if decide (j = i) then Some YAFFS_BLOCK_STATE_EMPTY else get_blockState d j) as Hget.
    { intros j. destruct (Hput j) as (d'' & Hd'' & _ & Hj). rewrite Hd' in Hd''. injection Hd'' as <-. rewrite Hj. by destruct d. }
    eexists. split; [reflexivity|]. clear Hput Hd' Hlen'. destruct d. cbn in Hd, Hl, He0, He1. subst d'. split.
    + eexists f, _, _, _. reflexivity.
    + intros j. specialize (Hget j). cbn in Hget |- *. unfold get_blockState in *. cbn in *. rewrite Hget.
      unfold is_checkpoint, get_blockState. repeat case_decide; naive_solver lia.
    + cbn. rewrite s32_id by (unfold is_s32; lia). lia.
    + intros c. cbn. rewrite Hl. destruct (_ && _); [by left | by right].
    + intros j Hj _ c Hc. cbn. replace j with i in * by lia. rewrite Hl.
      destruct (Z.leb_spec (i * nChunksPerBlock C) c); [|lia]. destruct (Z.ltb_spec c ((i + 1) * nChunksPerBlock C)); [done | lia].
  - exists d. split; [done|]. split; [|intros j|lia|by right|].
    + exists (flash d), (blockState d), (nErasedBlocks d), (nFreeChunks d). by destruct d.
    + unfold is_checkpoint. case_decide as Hd; [|done]. replace j with i in Hd by lia. destruct Hd as [_ Hd]. congruence.
    + unfold is_checkpoint. intros j Hj Hc. replace j with i in Hc by lia. congruence.
Qed.

Lemma erase_loop_S n i d d' : erase_loop C 1 i d = Some d' -> erase_loop C (S n) i d = erase_loop C n (i + 1) d'.
Proof.
  cbn [erase_loop]. destruct (get_blockState d i); [|done]. cbn [mbind option_bind].
  match goal with |- context [@mbind option option_bind _ _ _ ?e] => destruct e end; [|done]. by intros [= ->].
Qed.

Lemma erase_loop_ok n i d : startBlock C <= i -> i + Z.of_nat n <= endBlock C + 1 ->
  (forall j, in_range C j -> is_Some (get_blockState d j)) ->
  0 <= nErasedBlocks d -> nErasedBlocks d + Z.of_nat n < 2 ^ 31 -> exists d',
  erase_loop C n i d = Some d' /\ erased_to d d' i (i + Z.of_nat n).
Proof.
  revert i d. induction n as [|n IH]; intros i d Hi Hn Hst He0 He1.
  { exists d. rewrite Z.add_0_r. split; [done | apply erased_to_refl]. }
  destruct (erase_one d i) as (d1 & Hd1 & Hr1); [unfold in_range; lia | apply Hst; unfold in_range; lia | done | lia |].
  rewrite (erase_loop_S _ _ _ _ Hd1). pose proof Hr1 as [].
  destruct (IH (i + 1) d1) as (d2 & -> & Hr2); [lia | lia | | lia | lia |].
  - intros j Hj. rewrite er_state0. case_decide; [done | by apply Hst].
  - exists d2. split; [done|]. eapply erased_to_trans; [|exact Hr1|]; [lia|].
    replace (i + Z.of_nat (S n)) with (i + 1 + Z.of_nat n) by lia. done.
Qed.

(** A device on which a checkpoint can be written: what the block states promise of the
    flash, and counts that do not overflow. *)
Record mountable (d : ckpt_device) : Prop := {
  mo_state i : in_range C i -> is_Some (get_blockState d i);
  mo_empty i : in_range C i -> is_empty d i -> erased C (flash d) i;
  mo_other i : in_range C i -> ~ is_empty d i -> ~ is_checkpoint d i -> no_checkpoint C (flash d) i;
  mo_count : 0 <= nReservedBlocks C < nErasedBlocks d /\
             nErasedBlocks d + (endBlock C - startBlock C + 1) < 2 ^ 31
}.

(** The blocks a new checkpoint can take: the erased ones, and those of the old checkpoint. *)
Definition usable (d : ckpt_device) : nat :=
  length (filter (fun i => is_empty d i \/ is_checkpoint d i) (seqZ (startBlock C) (endBlock C - startBlock C + 1))).

Lemma empties_erased n i d d1 :
  (forall j, i <= j < i + Z.of_nat n -> is_empty d1 j <-> is_empty d j \/ is_checkpoint d j) ->
  length (empties_from n i d1) = length (filter (fun j => is_empty d j \/ is_checkpoint d j) (seqZ i (Z.of_nat n))).
Proof.
  revert i. induction n as [|n IH]; intros i Hd; [done|]. rewrite seqZ_cons by lia. cbn [empties_from].
  replace (Z.succ i) with (i + 1) by lia. replace (Z.pred (Z.of_nat (S n))) with (Z.of_nat n) by lia.
  specialize (IH (i + 1) ltac:(intros j Hj; apply Hd; lia)). rewrite filter_cons.
  pose proof (Hd i ltac:(lia)) as Hi. do 2 case_decide; [|naive_solver..|done]. cbn [length]. by rewrite IH.
Qed.

Lemma erased_usable d d' : erased_to d d' (startBlock C) (endBlock C + 1) -> length (empties C d') = usable d.
Proof.
  intros []. destruct HC. unfold empties, from, usable.
  rewrite (empties_erased _ _ d); [by rewrite Z2Nat.id by lia|].
  intros j Hj. unfold is_empty. rewrite er_state0. unfold is_checkpoint. case_decide; naive_solver lia.
Qed.

Lemma erased_clean d d' : mountable d -> erased_to d d' (startBlock C) (endBlock C + 1) -> clean C d'.
Proof.
  intros [] []. split.
  - intros i Hi. rewrite er_state0. case_decide; [done | by apply mo_state0].
  - intros i Hi He. unfold is_empty in He. rewrite er_state0 in He. case_decide as Hc.
    + destruct Hc. by apply er_erased0.
    + intros c Hcc. destruct (er_page0 c) as [? | ->]; [done|]. by apply (mo_empty0 i).
  - intros i Hi He. unfold is_empty in He. rewrite er_state0 in He. case_decide as Hc; [done|].
    intros data o k q Hp. destruct (er_page0 (i * nChunksPerBlock C)) as [Hn | Hn]; rewrite Hn in Hp; [done|].
    eapply (mo_other0 i); [done | done | | exact Hp]. intros Hck. apply Hc. split; [|done]. unfold in_range in Hi. lia.
Qed.

Lemma empties_ext d d' : blockState d = blockState d' -> empties C d = empties C d'.
Proof.
  intros Hb. unfold empties, from. generalize (startBlock C) at 2 4.
  induction (Z.to_nat _) as [|n IH]; intros i; [done|]. cbn [empties_from]. rewrite (IH (i + 1)).
  assert (is_empty d i <-> is_empty d' i) by (unfold is_empty, get_blockState; by rewrite Hb).
  do 2 case_decide; naive_solver.
Qed.

(** The state that [yaffs_CheckpointOpen] sets up for a writer. *)
Lemma open_write d w buf bl : mountable d -> truthy w = true -> is_Some (checkpointBuffer d) \/ is_Some buf -> exists d',
  yaffs_CheckpointOpen C d w buf bl = Some (d', 1) /\ clean C d' /\ length (empties C d') = usable d /\
  0 < s32 (nErasedBlocks d' - nReservedBlocks C) /\ truthy (checkpointOpenForWrite d') = true /\
  streamed C d' d' [].
Proof.
  intros Hm Hw Hbuf. pose proof Hm as []. pose proof HC as []. destruct mo_count0 as [Hc1 Hc2].
  set (d1 := set_bytes (set_buffer (set_nextBlock (set_current (set_bytes (set_openForWrite (set_pageSequence d 0) w) 0
    (checkpointByteOffset d)) (-1) (-1)) (startBlock C)) (Some (replicate (N C) 0))) 0 0).
  assert (yaffs_CheckpointOpen C d w buf bl = yaffs_CheckpointErase C d1) as ->.
  { unfold yaffs_CheckpointOpen, yaffs_CheckpointSpaceOk. destruct co_functions0 as (-> & -> & -> & ->). rewrite Hw.
    rewrite s32_id by (unfold is_s32; lia).
    destruct (Z.leb_spec (nErasedBlocks d - nReservedBlocks C) 0); [lia|]. cbn [negb andb truthy Z.eqb].
    destruct d as [? ? ? ? ? ? ? ? [b|] ? ? ? ? ? ?]; cbn [set_buffer checkpointBuffer]; [done|].
    destruct Hbuf as [[? [=]] | [b ->]]. done. }
  assert (mountable d1) as Hm1 by (destruct d; by split).
  destruct (erase_loop_ok (Z.to_nat (endBlock C - startBlock C + 1)) (startBlock C) d1) as (d2 & Hd2 & He);
    [lia | lia | apply Hm1 | destruct d; cbn in *; lia | destruct d; cbn in *; lia |].
  unfold yaffs_CheckpointErase. destruct co_functions0 as (_ & _ & -> & _). rewrite Hd2. cbn [negb mbind option_bind].
  replace (startBlock C + Z.of_nat (Z.to_nat (endBlock C - startBlock C + 1))) with (endBlock C + 1) in He by lia.
  assert (erased_to d1 d2 (startBlock C) (endBlock C + 1)) as He' by done.
  eexists. split; [reflexivity|]. pose proof (erased_clean _ _ Hm1 He) as Hcl. pose proof (erased_usable _ _ He) as Hu.
  destruct He' as [(f & bs & ne & nf & ->) _ Hcnt _ _]. clear He Hd2.
  destruct d as [f0 bs0 ne0 nf0 bc sq cnt off bu w0 cc cb nb bl0 mb]. subst d1.
  cbn [set_bytes set_buffer set_nextBlock set_current set_openForWrite set_pageSequence set_space set_blockState set_flash
    set_blocksInCheckpoint checkpointByteOffset nErasedBlocks checkpointOpenForWrite checkpointByteCount] in *.
  split; [by destruct Hcl|]. split; [by etransitivity; [|exact Hu]; f_equal; apply empties_ext|]. split; [rewrite s32_id by (unfold is_s32; lia); lia|]. split; [done|].
  exists [], []. split; [done|]. split; [constructor|]. split; [pose proof (N_pos C HC); cbn; lia|].
  split; [|by cbn; rewrite Nat.sub_0_r].
  assert (blocks_for C 0 = 0%nat) as Hb0 by exact (blocks_for_mul C HC 0).
  split; [|split; [cbn [length]; by rewrite Hb0 | cbn [length]; by rewrite Nat.Div0.mod_0_l]].
  split; cbn [length]; rewrite ?Hb0; try done; [lia].
Qed.

(** The one it sets up for a reader. *)
Lemma open_read d0 d ps buf bl : on_flash C d0 (flash d) ps ->
  Z.of_nat (blocks_for C (length ps)) <= (endBlock C - startBlock C) / 16 + 2 ->
  is_Some (checkpointBuffer d) \/ is_Some buf -> is_Some bl -> exists d',
  yaffs_CheckpointOpen C d 0 buf bl = Some (d', 1) /\
  reader C d0 (flash d) ps ((endBlock C - startBlock C) / 16 + 2) d' (concat ps).
Proof.
  intros Hf Hmax Hbuf [bl' ->]. pose proof HC as []. unfold yaffs_CheckpointOpen.
  destruct co_functions0 as (-> & -> & -> & ->). cbn [orb negb truthy Z.eqb andb].
  assert (endBlock C < 2 ^ 31) by nia.
  assert (0 <= (endBlock C - startBlock C) / 16 <= 2 ^ 27)
    by (split; [apply Z.div_pos; lia | apply Z.div_le_upper_bound; lia]).
  assert (s32 (s32 (endBlock C - startBlock C) ÷ 16 + 2) = (endBlock C - startBlock C) / 16 + 2) as ->.
  { rewrite (s32_id (_ - _)) by (unfold is_s32; lia). rewrite Z.quot_div_nonneg by lia.
    apply s32_id. unfold is_s32. lia. }
  assert (blocks_for C 0 = 0%nat) as Hb0 by exact (blocks_for_mul C HC 0).
  assert (forall d1, flash d1 = flash d -> checkpointPageSequence d1 = 0 -> blocksInCheckpoint d1 = 0 ->
    checkpointNextBlock d1 = startBlock C -> checkpointCurrentBlock d1 = -1 ->
    checkpointByteOffset d1 = nDataBytesPerChunk C -> is_Some (checkpointBuffer d1) ->
    checkpointBlockList d1 = Some (replicate (Z.to_nat ((endBlock C - startBlock C) / 16 + 2)) (-1)) ->
    checkpointMaxBlocks d1 = (endBlock C - startBlock C) / 16 + 2 ->
    reader C d0 (flash d) ps ((endBlock C - startBlock C) / 16 + 2) d1 (concat ps)) as Hrd.
  { intros d1 Hfl Hsq Hin Hnb Hcb Hoff Hb Hbl Hmx. exists 0%nat, (replicate (N C) 0), [].
    split; [done|]. split; [|rewrite app_nil_r, length_replicate, Hoff, (N_Z C HC); done].
    split; [done | by rewrite Hb0 | by rewrite Hb0 | by rewrite Nat.Div0.mod_0_l | by rewrite Hfl | | done].
    eexists. split; [exact Hbl|]. rewrite length_replicate. lia. }
  destruct d as [f0 bs0 ne0 nf0 bc sq cnt off [b|] w0 cc cb nb bl0 mb]; cbn [set_buffer checkpointBuffer].
  - eexists. split; [reflexivity|]. by apply Hrd.
  - destruct Hbuf as [[? [=]] | [b ->]]. eexists. split; [reflexivity|]. by apply Hrd.
Qed.
End Opening.

(** ** The stream as a whole *)

Section RoundTrip.
Context {D : CheckpointDriver} (C : ckpt_config) {L : CheckpointDriverLaws D (nChunksPerBlock C)}.

(** Writes one after the other, each of which takes all its bytes. *)
Fixpoint write_all (tags : yaffs_ExtendedTags) (d : ckpt_device) (ws : list (list Z)) : option ckpt_device :=
  match ws with
  | [] => Some d
  | w :: ws => '(d, n) ← yaffs_CheckpointWrite C tags d w; if n =? Z.of_nat (length w) then write_all tags d ws else None
  end.

(** Reads one after the other, each of which gives as many bytes as asked for. *)
Fixpoint read_all (d : ckpt_device) (ns : list nat) : option (list Z) :=
  match ns with
  | [] => Some []
  | n :: ns =>
      '(d, xs) ← yaffs_CheckpointRead C d (Z.of_nat n);
      if (length xs =? n)%nat then ys ← read_all d ns; Some (xs ++ ys) else None
  end.

Lemma write_all_ok (HC : config_ok C) d0 (Hclean : clean C d0) tags
    (Hwrite : forall f c data t, truthy (writeChunkWithTagsToNAND f c data t).2 = true)
    (Hspace : 0 < s32 (nErasedBlocks d0 - nReservedBlocks C)) ws d bs :
  streamed C d0 d bs -> room_for C d0 (length (bs ++ concat ws)) -> exists d',
  write_all tags d ws = Some d' /\ streamed C d0 d' (bs ++ concat ws).
Proof.
  revert d bs. induction ws as [|w ws IH]; intros d bs Hs Hroom; cbn [write_all concat].
  { exists d. by rewrite app_nil_r. }
  cbn [concat] in Hroom. rewrite app_assoc in *.
  assert (exists d1, yaffs_CheckpointWrite C tags d w = Some (d1, Z.of_nat (length w)) /\ streamed C d0 d1 (bs ++ w))
    as (d1 & -> & Hs1).
  { unfold yaffs_CheckpointWrite. pose proof Hs as (ps & part & _ & _ & _ & _ & _ & ->).
    eapply (write_loop_ok C HC d0 Hclean tags Hwrite Hspace w 0 d bs); [done|].
    destruct Hroom as [Hr1 Hr2]. rewrite (length_app (bs ++ w)) in Hr1, Hr2.
    pose proof (pages_for_mono C HC (length (bs ++ w)) (length (bs ++ w) + length (concat ws)) ltac:(lia)) as Hpm.
    pose proof (blocks_for_mono C _ _ Hpm). split; lia. }
  cbn [mbind option_bind]. rewrite Z.eqb_refl. by apply IH.
Qed.

Lemma read_all_ok (HC : config_ok C) d0 f ps max ns d rest : on_flash C d0 f ps ->
  Forall (fun p => length p = N C) ps -> Z.of_nat (length ps) < 2 ^ 31 -> Z.of_nat (blocks_for C (length ps)) <= max ->
  reader C d0 f ps max d rest -> (sum_list ns <= length rest)%nat ->
  read_all d ns = Some (take (sum_list ns) rest).
Proof.
  intros Hf Hps Hq Hmax. revert d rest. induction ns as [|n ns IH]; intros d rest Hr Hn; [done|]. cbn [read_all sum_list].
  cbn in Hn. destruct (read_ok C HC d0 f ps Hf max Hps Hq Hmax n d rest Hr ltac:(lia)) as (d' & -> & Hr').
  cbn [mbind option_bind]. rewrite length_take_le, Nat.eqb_refl by lia.
  rewrite (IH d' _ Hr') by (rewrite length_drop; lia). cbn [mbind option_bind]. by rewrite take_take_drop.
Qed.

Lemma usable_pages (HC : config_ok C) d q : (blocks_for C q <= usable C d)%nat -> Z.of_nat q < 2 ^ 31.
Proof.
  intros Hq. pose proof HC as []. pose proof (K_Z C HC). pose proof (K_pos C HC).
  pose proof (length_filter (fun i => is_empty d i \/ is_checkpoint d i)
    (seqZ (startBlock C) (endBlock C - startBlock C + 1))) as Hu.
  fold (usable C d) in Hu. rewrite length_seqZ in Hu. unfold blocks_for in Hq.
  pose proof (Nat.div_mod_eq (q + K C - 1) (K C)). pose proof (Nat.mod_upper_bound (q + K C - 1) (K C) ltac:(lia)). nia.
Qed.

(** (C22) A checkpoint is read back as it was written.  On a device whose block states
    tell the truth about the flash, and where writing and erasing succeed, opening for writing succeeds and erases the previous
    checkpoint, every write takes all its bytes, and closing succeeds.  Any device later
    mounted on that flash, whatever its other state, opens for reading, and reads of
    any sizes give the bytes that were written, in order, provided that the stream fits
    in the erased blocks and in the list of blocks the reader has room for, a sixteenth
    of the device and two more. *)
Theorem checkpoint_round_trip d tags ws buf bl w :
  config_ok C -> (forall f b, in_range C b -> truthy (eraseBlockInNAND f b).2 = true) ->
  (forall f c data t, truthy (writeChunkWithTagsToNAND f c data t).2 = true) ->
  mountable C d -> truthy w = true ->
  (blocks_for C (pages_for C (length (concat ws))) <= usable C d)%nat ->
  Z.of_nat (blocks_for C (pages_for C (length (concat ws)))) <= (endBlock C - startBlock C) / 16 + 2 ->
  exists d1 d2 d3, yaffs_CheckpointOpen C d w (Some buf) bl = Some (d1, 1) /\
    write_all tags d1 ws = Some d2 /\ yaffs_CheckpointClose C tags d2 = Some (d3, 1) /\
    forall r buf' bl' ns, flash r = flash d3 -> (sum_list ns <= length (concat ws))%nat ->
      exists r1, yaffs_CheckpointOpen C r 0 (Some buf') (Some bl') = Some (r1, 1) /\
        read_all r1 ns = Some (take (sum_list ns) (concat ws)).
Proof.
  intros HC Herase Hwrite Hm Hw Hroom Hmax.
  destruct (open_write C HC Herase d w (Some buf) bl Hm Hw) as (d1 & Hd1 & Hclean & Hlen & Hspace & Hopen & Hs);
    [by right|].
  assert (room_for C d1 (length (concat ws))) as Hr.
  { split; [lia|]. by apply (usable_pages HC d). }
  destruct (write_all_ok HC d1 Hclean tags Hwrite Hspace ws d1 [] Hs Hr) as (d2 & Hd2 & Hs2).
  destruct (close_ok C HC d1 Hclean tags Hwrite Hspace d2 _ Hs2 Hr Hopen) as (d3 & ps & Hd3 & Hf & Hps & Hpages & Hbs).
  cbn [app] in Hpages, Hbs. exists d1, d2, d3. do 3 (split; [done|]). intros r buf' bl' ns Hfl Hns. rewrite <- Hfl in Hf. rewrite <- Hpages in Hmax.
  destruct (open_read C HC d1 r ps (Some buf') (Some bl') Hf Hmax) as (r1 & Hr1 & Hrd); [by right | done |].
  exists r1. split; [done|]. pose proof Hr as [_ Hq].
  erewrite read_all_ok; [| done | done | done | by rewrite Hpages | exact Hmax | exact Hrd |].
  - f_equal. rewrite <- Hbs, take_take. f_equal. lia.
  - rewrite <- Hbs, length_take in Hns. lia.
Qed.
End RoundTrip.

(** ** A flash in memory *)

Definition plain_tags (o k q : Z) : yaffs_ExtendedTags :=
  ExtendedTags 0 1 o k 0 YAFFS_ECC_RESULT_NO_ERROR 0 0 0 q 0 0 0 0 YAFFS_OBJECT_TYPE_UNKNOWN 0 0 0.

(** Pages that are not in the map are erased; blocks have two pages. *)
#[local] Instance MemoryDriver : CheckpointDriver := {|
  Flash := gmap Z (list Z * (Z * Z * Z));
  writeChunkWithTagsToNAND f c data t := (<[c := (data, (objectId t, chunkId t, sequenceNumber t))]> f, 1);
  readChunkWithTagsFromNAND f c :=
    match f !! c with
    | Some (data, (o, k, q)) => (f, data, plain_tags o k q)
    | None => (f, [], plain_tags 0xFFFFFFFF 0xFFFFFFFF 0xFFFFFFFF)
    end;
  eraseBlockInNAND f b := (delete (2 * b) (delete (2 * b + 1) f), 1);
  markNANDBlockBad f b := (f, 1)
|}.

#[local] Instance MemoryDriverLaws : CheckpointDriverLaws MemoryDriver 2.
Proof.
  refine {| page f c := (f : gmap Z _) !! c |}; cbn.
  - intros f c data t _ _. apply lookup_insert_eq.
  - intros f c data t c' Hc. by apply lookup_insert_ne.
  - intros f c c'. by destruct (f !! c) as [[? [[? ?] ?]]|].
  - intros f c data o k q ->. done.
  - intros f c ->. done.
  - intros f b c _. destruct (Z.leb_spec (b * 2) c), (Z.ltb_spec c ((b + 1) * 2)); cbn [andb].
    + destruct (Z.eq_dec c (2 * b)) as [-> | Hne]; [apply lookup_delete_eq|]. rewrite lookup_delete_ne by lia.
      replace c with (2 * b + 1) by lia. apply lookup_delete_eq.
    + by rewrite !lookup_delete_ne by lia.
    + by rewrite !lookup_delete_ne by lia.
    + by rewrite !lookup_delete_ne by lia.
Defined.

Definition memory_config : ckpt_config := CkptConfig 0 3 2 4 1 true true true true.

(** An old checkpoint in block 0, a block in use, and two erased ones. *)
Definition memory_device : ckpt_device :=
  CkptDevice
    ({[ 0 := ([9; 9; 9; 9], (1, 1, YAFFS_SEQUENCE_CHECKPOINT_DATA)); 2 := ([1; 2; 3; 4], (257, 1, 0x1000)) ]}
       : gmap Z (list Z * (Z * Z * Z)))
    [YAFFS_BLOCK_STATE_CHECKPOINT; YAFFS_BLOCK_STATE_FULL; YAFFS_BLOCK_STATE_EMPTY; YAFFS_BLOCK_STATE_EMPTY]
    2 4 1 0 0 0 None 0 0 0 0 None 0.

Lemma memory_config_ok : config_ok memory_config.
Proof. split; cbn; (done || lia). Qed.

Lemma memory_mountable : mountable memory_config memory_device.
Proof.
  assert (forall i, in_range memory_config i -> i = 0 \/ i = 1 \/ i = 2 \/ i = 3) as Hcases.
  { intros i. unfold in_range. cbn. lia. }
  split.
  - intros i [-> | [-> | [-> | ->]]]%Hcases; by eexists.
  - intros i [-> | [-> | [-> | ->]]]%Hcases He; try discriminate He; intros c Hc; cbn in Hc.
    + assert (c = 4 \/ c = 5) as [-> | ->] by lia; reflexivity.
    + assert (c = 6 \/ c = 7) as [-> | ->] by lia; reflexivity.
  - intros i [-> | [-> | [-> | ->]]]%Hcases He Hc; [destruct (Hc eq_refl) | | destruct (He eq_refl)..].
    intros data o k q Hp. vm_compute in Hp. injection Hp as _ _ _ <-. done.
  - cbn. lia.
Qed.

Lemma checkpoint_round_trip_witness :
  let ws := [[1; 2; 3; 4; 5]; [6]; [7; 8; 9; 10; 11]] in
  exists d1 d2 d3, yaffs_CheckpointOpen memory_config memory_device 1 (Some []) None = Some (d1, 1) /\
    write_all memory_config (plain_tags 0 0 0) d1 ws = Some d2 /\
    yaffs_CheckpointClose memory_config (plain_tags 0 0 0) d2 = Some (d3, 1) /\
    forall r buf' bl' ns, flash r = flash d3 -> (sum_list ns <= length (concat ws))%nat ->
      exists r1, yaffs_CheckpointOpen memory_config r 0 (Some buf') (Some bl') = Some (r1, 1) /\
        read_all memory_config r1 ns = Some (take (sum_list ns) (concat ws)).
Proof.
  apply (checkpoint_round_trip (L := MemoryDriverLaws) memory_config memory_device (plain_tags 0 0 0)
           [[1; 2; 3; 4; 5]; [6]; [7; 8; 9; 10; 11]] [] None 1).
  - exact memory_config_ok.
  - intros f b _. reflexivity.
  - intros f c data t. reflexivity.
  - exact memory_mountable.
  - reflexivity.
  - vm_compute. lia.
  - vm_compute. discriminate.
Defined.

(** When no erased block is left, a write whose last byte fills the buffer still reports
    all its bytes, the offset stays at the end of the buffer, the next write stores past
    it, and closing reports success although the last page is lost. *)
Lemma checkpoint_full_goes_unnoticed :
  (match yaffs_CheckpointOpen memory_config memory_device 1 (Some []) None with
   | Some (d1, 1) =>
       match yaffs_CheckpointWrite memory_config (plain_tags 0 0 0) d1 (replicate 28 7) with
       | Some (d2, n) => (n, checkpointByteOffset d2, yaffs_CheckpointWrite memory_config (plain_tags 0 0 0) d2 [7],
                          snd <$> yaffs_CheckpointClose memory_config (plain_tags 0 0 0) d2)
       | None => (0, 0, None, None)
       end
   | _ => (0, 0, None, None)
   end) = (28, 4, None, Some 1).
Proof. vm_compute. reflexivity. Qed.
