(* ===== verification/YaffsTnode.v ===== *)
(** * The chunk map of a YAFFS file (yaffs2/yaffs_guts.c)

    The chunks of a file are found through a tree of tnodes: blocks of words that hold
    pointers to the next level, or, at level 0, sixteen chunk numbers packed into fields of
    [tnodeWidth] bits.  Tnodes come from a free list that is filled a hundred at a time.
    The heap maps the address of each tnode to its words, and the same words are read as
    pointers or as packed fields, as the code does.  [YMALLOC] is a class: it may fail, and
    what it returns does not overlap what is in use. *)

From S2P Require Import Prelude.

Definition YAFFS_OK : Z := 1.
Definition YAFFS_FAIL : Z := 0.
Definition YAFFS_NTNODES_LEVEL0 : Z := 16.
Definition YAFFS_TNODES_LEVEL0_BITS : Z := 4.
Definition YAFFS_TNODES_LEVEL0_MASK : Z := 0xf.
Definition YAFFS_NTNODES_INTERNAL : nat := 8.
Definition YAFFS_TNODES_INTERNAL_BITS : Z := 3.
Definition YAFFS_TNODES_INTERNAL_MASK : Z := 7.
Definition YAFFS_TNODES_MAX_LEVEL : Z := 6.
Definition YAFFS_MAX_CHUNK_ID : Z := 0xFFFFF.
Definition YAFFS_ALLOCATION_NTNODES : Z := 100.

(** ** One tnode *)

(** [(dev->tnodeWidth * YAFFS_NTNODES_LEVEL0)/8], in bytes and in words *)
Definition tnode_bytes (width : Z) : Z := (width * YAFFS_NTNODES_LEVEL0) / 8.
Definition tnode_words (width : Z) : nat := Z.to_nat (tnode_bytes width / 4).

Definition map_word (tn : list Z) (i : Z) : option Z := tn !! Z.to_nat i.

(** [map[i] &= ~mask; map[i] |= (mask & bits);] *)
Definition merge_word (tn : list Z) (i mask bits : Z) : option (list Z) :=
  w ← map_word tn i;
  Some (<[Z.to_nat i := Z.lor (Z.land w (u32 (Z.lnot mask))) (Z.land mask bits)]> tn).

Section level0.
Context (tnodeWidth tnodeMask chunkGroupBits : Z).

Definition yaffs_PutLevel0Tnode (tn : list Z) (pos val : Z) : option (list Z) :=
  let pos := Z.land pos YAFFS_TNODES_LEVEL0_MASK in
  let val := Z.shiftr val chunkGroupBits in
  let bitInMap := u32 (pos * tnodeWidth) in
  let wordInMap := bitInMap / 32 in
  let bitInWord := Z.land bitInMap (32 - 1) in
  let mask := u32 (Z.shiftl tnodeMask bitInWord) in
  tn ← merge_word tn wordInMap mask (u32 (Z.shiftl val bitInWord));
  if 32 - bitInWord <? tnodeWidth then
    let bitInWord := 32 - bitInWord in
    let mask := Z.shiftr tnodeMask bitInWord in
    merge_word tn (wordInMap + 1) mask (Z.shiftr val bitInWord)
  else Some tn.

Definition yaffs_GetChunkGroupBase (tn : list Z) (pos : Z) : option Z :=
  let pos := Z.land pos YAFFS_TNODES_LEVEL0_MASK in
  let bitInMap := u32 (pos * tnodeWidth) in
  let wordInMap := bitInMap / 32 in
  let bitInWord := Z.land bitInMap (32 - 1) in
  w ← map_word tn wordInMap;
  let val := Z.shiftr w bitInWord in
  val ← (if 32 - bitInWord <? tnodeWidth then
           w ← map_word tn (wordInMap + 1);
           Some (Z.lor val (u32 (Z.shiftl w (32 - bitInWord))))
         else Some val);
  Some (u32 (Z.shiftl (Z.land val tnodeMask) chunkGroupBits)).
End level0.

(** ** The device *)

Record yaffs_Device := mkDevice {
  tnodeWidth : Z; tnodeMask : Z; chunkGroupBits : Z;
  heap : gmap Z (list Z);
  freeTnodes : Z; nFreeTnodes : Z; nTnodesCreated : Z;
  allocatedTnodeList : list (Z * Z);          (* first tnode and number of tnodes of each bunch *)
}.

Record yaffs_FileStructure := mkFileStructure { topLevel : Z; top : Z }.

(** What [YMALLOC] of a number of bytes returns; 0 is NULL. *)
Class Malloc := ymalloc : gmap Z (list Z) -> Z -> Z.

Definition set_heap (h : gmap Z (list Z)) : St yaffs_Device unit := fun d =>
  Some (tt, mkDevice (tnodeWidth d) (tnodeMask d) (chunkGroupBits d) h (freeTnodes d) (nFreeTnodes d)
              (nTnodesCreated d) (allocatedTnodeList d)).
Definition set_free (p n : Z) : St yaffs_Device unit := fun d =>
  Some (tt, mkDevice (tnodeWidth d) (tnodeMask d) (chunkGroupBits d) (heap d) p n
              (nTnodesCreated d) (allocatedTnodeList d)).
Definition set_created (n : Z) (l : list (Z * Z)) : St yaffs_Device unit := fun d =>
  Some (tt, mkDevice (tnodeWidth d) (tnodeMask d) (chunkGroupBits d) (heap d) (freeTnodes d) (nFreeTnodes d) n l).

Definition load (tn : Z) : St yaffs_Device (list Z) := d ← get_st; lift (heap d !! tn).
Definition store (tn : Z) (node : list Z) : St yaffs_Device unit :=
  _ ← load tn; d ← get_st; set_heap (<[tn := node]> (heap d)).

(** [tn->internal[i]] *)
Definition internal (tn : Z) (i : nat) : St yaffs_Device Z := node ← load tn; lift (node !! i).
Definition set_internal (tn : Z) (i : nat) (p : Z) : St yaffs_Device unit :=
  node ← load tn; _ ← lift (node !! i); store tn (<[i := p]> node).

Section tnodes.
Context `{Ma : Malloc}.

(** The new memory: [n] tnodes from [mem] on, with arbitrary contents. *)
Fixpoint add_tnodes (n : nat) (mem size : Z) (node : list Z) (h : gmap Z (list Z)) : gmap Z (list Z) :=
  match n with
  | O => h
  | S n => <[mem := node]> (add_tnodes n (mem + size) size node h)
  end.

(** [for(i = 0; i < nTnodes -1; i++)]: each tnode points to the next. *)
Fixpoint hook_tnodes (n : nat) (mem size : Z) : St yaffs_Device unit :=
  match n with
  | O => mret tt
  | S n => _ ← set_internal mem 0 (mem + size); hook_tnodes n (mem + size) size
  end.

(** [garbage] is what a word of new memory holds. *)
Context (garbage : Z).

Definition yaffs_CreateTnodes (nTnodes : Z) : St yaffs_Device Z :=
  if nTnodes <? 1 then mret YAFFS_OK else
  d ← get_st;
  let tnodeSize := tnode_bytes (tnodeWidth d) in
  let mem := ymalloc (heap d) (nTnodes * tnodeSize) in
  if mem =? 0 then mret YAFFS_FAIL else
  _ ← set_heap (add_tnodes (Z.to_nat nTnodes) mem tnodeSize (replicate (tnode_words (tnodeWidth d)) garbage) (heap d));
  _ ← hook_tnodes (Z.to_nat (nTnodes - 1)) mem tnodeSize;
  _ ← set_internal (mem + (nTnodes - 1) * tnodeSize) 0 (freeTnodes d);
  _ ← set_free mem (nFreeTnodes d + nTnodes);
  d ← get_st;
  let tnl := ymalloc (heap d) 8 in
  _ ← set_created (nTnodesCreated d + nTnodes)
        (if tnl =? 0 then allocatedTnodeList d else (mem, nTnodes) :: allocatedTnodeList d);
  mret YAFFS_OK.

Definition yaffs_GetTnodeRaw : St yaffs_Device Z :=
  d ← get_st;
  _ ← (if freeTnodes d =? 0 then yaffs_CreateTnodes YAFFS_ALLOCATION_NTNODES else mret YAFFS_OK);
  d ← get_st;
  if freeTnodes d =? 0 then mret 0 else
  next ← internal (freeTnodes d) 0;
  _ ← set_free next (nFreeTnodes d - 1);
  mret (freeTnodes d).

Definition yaffs_GetTnode : St yaffs_Device Z :=
  tn ← yaffs_GetTnodeRaw;
  if tn =? 0 then mret tn else
  d ← get_st;
  _ ← store tn (replicate (tnode_words (tnodeWidth d)) 0);
  mret tn.

Definition yaffs_FreeTnode (tn : Z) : St yaffs_Device unit :=
  if tn =? 0 then mret tt else
  d ← get_st;
  _ ← set_internal tn 0 (freeTnodes d);
  set_free tn (nFreeTnodes d + 1).

Definition yaffs_InitialiseTnodes : St yaffs_Device unit := _ ← set_free 0 0; set_created 0 [].

Fixpoint free_bunch (n : nat) (mem size : Z) (h : gmap Z (list Z)) : gmap Z (list Z) :=
  match n with
  | O => h
  | S n => delete mem (free_bunch n (mem + size) size h)
  end.

Definition yaffs_DeinitialiseTnodes : St yaffs_Device unit :=
  d ← get_st;
  _ ← set_heap (foldl (fun h '(mem, n) => free_bunch (Z.to_nat n) mem (tnode_bytes (tnodeWidth d)) h)
                  (heap d) (allocatedTnodeList d));
  _ ← set_created (nTnodesCreated d) [];
  set_free 0 0.

(** ** The tree *)

(** [while (i) { i >>= YAFFS_TNODES_INTERNAL_BITS; requiredTallness++; }] *)
Fixpoint tallness_loop (fuel : nat) (i requiredTallness : Z) : option Z :=
  match fuel with
  | O => None
  | S fuel =>
      if i =? 0 then Some requiredTallness
      else tallness_loop fuel (Z.shiftr i YAFFS_TNODES_INTERNAL_BITS) (requiredTallness + 1)
  end.
Definition tallness (chunkId : Z) : option Z := tallness_loop 12 (Z.shiftr chunkId YAFFS_TNODES_LEVEL0_BITS) 0.

(** The index of a chunk in a tnode of level [level]. *)
Definition child (chunkId : Z) (level : nat) : nat :=
  Z.to_nat (Z.land (Z.shiftr chunkId (YAFFS_TNODES_LEVEL0_BITS + (Z.of_nat level - 1) * YAFFS_TNODES_INTERNAL_BITS))
              YAFFS_TNODES_INTERNAL_MASK).

(** [while (level > 0 && tn)] *)
Fixpoint find_loop (level : nat) (tn chunkId : Z) : St yaffs_Device Z :=
  match level with
  | O => mret tn
  | S l => if tn =? 0 then mret tn else tn ← internal tn (child chunkId level); find_loop l tn chunkId
  end.

Definition sane (f : yaffs_FileStructure) (chunkId : Z) : bool :=
  negb ((topLevel f <? 0) || (YAFFS_TNODES_MAX_LEVEL <? topLevel f)) && negb (YAFFS_MAX_CHUNK_ID <? chunkId).

Definition yaffs_FindLevel0Tnode (f : yaffs_FileStructure) (chunkId : Z) : St yaffs_Device Z :=
  if negb (sane f chunkId) then mret 0 else
  requiredTallness ← lift (tallness chunkId);
  if topLevel f <? requiredTallness then mret 0
  else find_loop (Z.to_nat (topLevel f)) (top f) chunkId.

(** [for (i = fStruct->topLevel; i < requiredTallness; i++)] *)
Fixpoint grow (n : nat) (top : Z) : St yaffs_Device Z :=
  match n with
  | O => mret top
  | S n =>
      tn ← yaffs_GetTnode;
      if tn =? 0 then grow n top
      else _ ← set_internal tn 0 top; grow n tn
  end.

(** [while (l > 0 && tn)] *)
Fixpoint add_loop (level : nat) (tn chunkId passedTn : Z) : St yaffs_Device Z :=
  match level with
  | O => mret tn
  | S l =>
      if tn =? 0 then mret tn else
      let x := child chunkId level in
      old ← internal tn x;
      _ ← (if (1 <? level)%nat && (old =? 0) then new ← yaffs_GetTnode; set_internal tn x new
           else if (level =? 1)%nat then
             if negb (passedTn =? 0) then
               _ ← (if negb (old =? 0) then yaffs_FreeTnode old else mret tt);
               set_internal tn x passedTn
             else if old =? 0 then new ← yaffs_GetTnode; set_internal tn x new
             else mret tt
           else mret tt);
      tn ← internal tn x;
      add_loop l tn chunkId passedTn
  end.

Definition yaffs_AddOrFindLevel0Tnode (f : yaffs_FileStructure) (chunkId passedTn : Z) : St yaffs_Device (Z * yaffs_FileStructure) :=
  if negb (sane f chunkId) then mret (0, f) else
  requiredTallness ← lift (tallness chunkId);
  f ← (if topLevel f <? requiredTallness then
         t ← grow (Z.to_nat (requiredTallness - topLevel f)) (top f);
         mret (mkFileStructure requiredTallness t)
       else mret f);
  if 0 <? topLevel f then
    tn ← add_loop (Z.to_nat (topLevel f)) (top f) chunkId passedTn;
    mret (tn, f)
  else
    _ ← (if negb (passedTn =? 0) then
           node ← load passedTn; _ ← store (top f) node; yaffs_FreeTnode passedTn
         else mret tt);
    mret (top f, f).

(** ** Pruning *)

(** [for (i = 0; i < YAFFS_NTNODES_INTERNAL; i++)], [rec] the recursive call when
    [level > 0]; the count of children left *)
Fixpoint prune_loop (rec : option (Z -> bool -> St yaffs_Device Z)) (idx : list nat) (tn : Z) (del0 : bool) (hasData : nat) : St yaffs_Device nat :=
  match idx with
  | [] => mret hasData
  | i :: idx =>
      old ← internal tn i;
      _ ← match rec with
          | Some rec => if negb (old =? 0) then new ← rec old (if (i =? 0)%nat then del0 else true); set_internal tn i new
                        else mret tt
          | None => mret tt
          end;
      now ← internal tn i;
      prune_loop rec idx tn del0 (if negb (now =? 0) then S hasData else hasData)
  end.

Fixpoint yaffs_PruneWorker (level : nat) (tn : Z) (del0 : bool) : St yaffs_Device Z :=
  if tn =? 0 then mret tn else
  hasData ← prune_loop (match level with O => None | S l => Some (yaffs_PruneWorker l) end)
              (seq 0 YAFFS_NTNODES_INTERNAL) tn del0 0;
  if (hasData =? 0)%nat && del0 then _ ← yaffs_FreeTnode tn; mret 0 else mret tn.

(** [for (i = 1; i < YAFFS_NTNODES_INTERNAL; i++) if (tn->internal[i]) hasData++;] *)
Fixpoint count_used (idx : list nat) (tn : Z) (hasData : nat) : St yaffs_Device nat :=
  match idx with
  | [] => mret hasData
  | i :: idx => p ← internal tn i; count_used idx tn (if negb (p =? 0) then S hasData else hasData)
  end.

(** [while (fStruct->topLevel && !done)] *)
Fixpoint trim (level : nat) (tn : Z) : St yaffs_Device yaffs_FileStructure :=
  match level with
  | O => mret (mkFileStructure 0 tn)
  | S l =>
      hasData ← count_used (seq 1 (YAFFS_NTNODES_INTERNAL - 1)) tn 0;
      if (hasData =? 0)%nat then
        next ← internal tn 0; _ ← yaffs_FreeTnode tn; trim l next
      else mret (mkFileStructure (Z.of_nat level) tn)
  end.

Definition yaffs_PruneFileStructure (f : yaffs_FileStructure) : St yaffs_Device yaffs_FileStructure :=
  if 0 <? topLevel f then
    t ← yaffs_PruneWorker (Z.to_nat (topLevel f)) (top f) false;
    trim (Z.to_nat (topLevel f)) t
  else mret f.
End tnodes.

(** ** Fields of a level 0 tnode *)

(** What [yaffs_GutsInitialise] sets up: an even width from 16 on, and chunk groups when the
    numbers of the chunks are wider than that. *)
Record geometry (w mask gb : Z) : Prop := {
  geo_even : w mod 2 = 0;
  geo_width : 16 <= w <= 30;
  geo_mask : mask = 2 ^ w - 1;
  geo_group : 0 <= gb /\ w + gb <= 32;
}.

Definition node_ok (w : Z) (tn : list Z) : Prop := length tn = tnode_words w /\ Forall is_u32 tn.

Definition bit (tn : list Z) (j : Z) : bool := Z.testbit (nth (Z.to_nat (j / 32)) tn 0) (j mod 32).

Section fields.
Context (w mask gb : Z) (Hg : geometry w mask gb).

Lemma tnode_words_eq : Z.of_nat (tnode_words w) = w / 2 /\ (8 <= tnode_words w)%nat.
Proof.
  destruct Hg as [H1 H2 _ _]. unfold tnode_words, tnode_bytes, YAFFS_NTNODES_LEVEL0.
  replace (w * 16 / 8 / 4) with (w / 2).
  - pose proof (Z.div_mod w 2 ltac:(lia)). split; [apply Z2Nat.id|]; lia.
  - rewrite Z.div_div by lia. replace (w * 16) with (w / 2 * (8 * 4)); [by rewrite Z.div_mul by lia|].
    pose proof (Z.div_mod w 2 ltac:(lia)). lia.
Qed.

Lemma mask_testbit k : 0 <= k -> Z.testbit mask k = (k <? w).
Proof.
  intros Hk. destruct Hg as [_ Hw -> _]. replace (2 ^ w - 1) with (Z.ones w) by (rewrite Z.ones_equiv; lia). destruct (Z.ltb_spec k w).
  - apply Z.ones_spec_low. lia.
  - apply Z.ones_spec_high. lia.
Qed.

Lemma word_u32 tn i : Forall is_u32 tn -> is_u32 (nth i tn 0).
Proof.
  intros H. destruct (decide (i < length tn)%nat) as [Hi|Hi].
  - rewrite Forall_forall in H. apply H, list_elem_of_In, nth_In. done.
  - rewrite nth_overflow by lia. done.
Qed.

Lemma bit_above tn j : Forall is_u32 tn -> forall m, 32 <= m -> Z.testbit (nth j tn 0) m = false.
Proof. intros H m Hm. apply (testbit_above 32); [apply (word_u32 _ j H) | done]. Qed.

Lemma map_word_ok tn i : node_ok w tn -> 0 <= i < Z.of_nat (tnode_words w) -> map_word tn i = Some (nth (Z.to_nat i) tn 0).
Proof.
  intros [HL _] Hi. unfold map_word. destruct (lookup_lt_is_Some_2 tn (Z.to_nat i)) as [x Hx]; [lia|].
  by rewrite Hx, (nth_lookup_Some _ _ _ _ Hx).
Qed.

Lemma merge_word_ok tn i m bits : node_ok w tn -> 0 <= i < Z.of_nat (tnode_words w) -> is_u32 m -> is_u32 bits ->
  exists tn', merge_word tn i m bits = Some tn' /\ node_ok w tn' /\
    forall j, 0 <= j -> bit tn' j =
      if (j / 32 =? i) && Z.testbit m (j mod 32) then Z.testbit bits (j mod 32) else bit tn j.
Proof.
  intros Hn Hi Hm Hb. unfold merge_word. rewrite (map_word_ok _ _ Hn Hi). cbn [mbind option_bind].
  set (x := Z.lor _ _). destruct Hn as [HL HF]. eexists. split; [done|]. split; [split|].
  - by rewrite length_insert.
  - apply Forall_insert; [done|]. unfold x, is_u32.
    assert (0 <= Z.land (nth (Z.to_nat i) tn 0) (u32 (Z.lnot m))) as H1.
    { apply Z.land_nonneg. left. apply (word_u32 _ _ HF). }
    assert (0 <= Z.land m bits) as H2 by (apply Z.land_nonneg; left; apply Hm).
    split; [by apply Z.lor_nonneg|]. destruct (Z.lt_ge_cases x 4294967296) as [|Hge]; [done|]. exfalso.
    assert (exists k, 32 <= k /\ Z.testbit x k = true) as (k & Hk & Ht).
    { exists (Z.log2 x). split; [apply (Z.log2_le_mono (2 ^ 32)) in Hge; by rewrite Z.log2_pow2 in Hge by lia|].
      apply Z.bit_log2. lia. }
    unfold x in Ht. rewrite Z.lor_spec, !Z.land_spec, (bit_above _ _ HF), (testbit_above 32 m) in Ht by done. done.
  - intros j Hj. unfold bit. pose proof (Z.mod_pos_bound j 32 ltac:(lia)). pose proof (Z.div_pos j 32 Hj ltac:(lia)).
    destruct (Z.eqb_spec (j / 32) i) as [He|He]; cbn [andb].
    + rewrite He. rewrite (nth_lookup_Some _ _ _ x) by (apply list_lookup_insert_eq; lia).
      unfold x. rewrite Z.lor_spec, !Z.land_spec, u32_testbit, Z.lnot_spec by lia.
      rewrite (proj2 (Z.ltb_lt _ 32)) by lia. cbn [andb]. destruct (Z.testbit m (j mod 32)); cbn [negb andb].
      * by rewrite andb_false_r.
      * by rewrite andb_true_r, orb_false_r.
    + rewrite !nth_lookup, list_lookup_insert_ne by lia. done.
Qed.
Lemma shiftr_u32 x k : 0 <= k -> is_u32 x -> is_u32 (Z.shiftr x k).
Proof.
  unfold is_u32. intros Hk Hx. rewrite Z.shiftr_div_pow2 by lia. pose proof (Z.pow_pos_nonneg 2 k ltac:(lia) ltac:(lia)).
  split; [apply Z.div_pos; lia|]. apply Z.div_lt_upper_bound; nia.
Qed.

Lemma mask_u32 : is_u32 mask.
Proof.
  destruct Hg as [_ Hw -> _]. unfold is_u32. pose proof (Z.pow_le_mono_r 2 w 30 ltac:(lia) ltac:(lia)).
  pose proof (Z.pow_pos_nonneg 2 w ltac:(lia) ltac:(lia)). lia.
Qed.

(** The position of a chunk in its tnode, and the place of its field. *)
Definition slot (pos : Z) : Z := Z.land pos YAFFS_TNODES_LEVEL0_MASK.

Lemma slot_mod pos : slot pos = pos mod 16.
Proof. apply (land_pow2_mask pos 4). lia. Qed.

Lemma slot_range pos : 0 <= slot pos < 16.
Proof. rewrite slot_mod. by apply Z.mod_pos_bound. Qed.

(** The field is in one word, or it goes on in the next one. *)
Lemma field_place p : 0 <= p < 16 ->
  let b := p * w in
  u32 b = b /\ Z.land b (32 - 1) = b mod 32 /\ 0 <= b / 32 < Z.of_nat (tnode_words w) /\
  (32 - b mod 32 < w -> b / 32 + 1 < Z.of_nat (tnode_words w)).
Proof.
  intros Hp b. destruct Hg as [H1 H2 _ _]. destruct (tnode_words_eq) as [HW _].
  pose proof (Z.div_mod w 2 ltac:(lia)). pose proof (Z.div_mod b 32 ltac:(lia)). pose proof (Z.mod_pos_bound b 32 ltac:(lia)).
  assert (0 <= b /\ b + w <= 32 * (w / 2)) as [Hb1 Hb2] by (unfold b; nia).
  split; [apply u32_id; unfold is_u32; lia|]. split; [apply (land_pow2_mask b 5); lia|]. rewrite HW. lia.
Qed.

Lemma put_ok tn pos val : node_ok w tn -> is_u32 val ->
  exists tn', yaffs_PutLevel0Tnode w mask gb tn pos val = Some tn' /\ node_ok w tn' /\
    forall j, 0 <= j -> bit tn' j =
      if (slot pos * w <=? j) && (j <? slot pos * w + w) then Z.testbit val (j - slot pos * w + gb) else bit tn j.
Proof.
  intros Hn Hv. unfold yaffs_PutLevel0Tnode. change (Z.land pos YAFFS_TNODES_LEVEL0_MASK) with (slot pos).
  destruct (field_place (slot pos) (slot_range pos)) as (E1 & E2 & Hq & Hq'). set (b := slot pos * w) in *.
  rewrite E1, E2. pose proof (Z.mod_pos_bound b 32 ltac:(lia)) as Hr. set (r := b mod 32) in *. set (q := b / 32) in *.
  assert (b = 32 * q + r) as Hb by (apply Z.div_mod; lia). clearbody q r. destruct Hg as [_ Hw _ [Hgb _]].
  set (v := Z.shiftr val gb).
  assert (is_u32 v) as Hv'.
  { by apply shiftr_u32. }
  destruct (merge_word_ok tn q (u32 (Z.shiftl mask r)) (u32 (Z.shiftl v r)) Hn Hq (u32_range _) (u32_range _)) as (tn1 & -> & Hn1 & Hb1).
  cbn [mbind option_bind].
  assert (forall j, 0 <= j -> bit tn1 j =
    if (j / 32 =? q) && ((r <=? j mod 32) && (j mod 32 - r <? w)) then Z.testbit v (j - b) else bit tn j) as Hbit1.
  { intros j Hj. rewrite Hb1 by done. pose proof (Z.div_mod j 32 ltac:(lia)) as Hdm. pose proof (Z.mod_pos_bound j 32 ltac:(lia)).
    destruct (Z.eqb_spec (j / 32) q) as [He|]; [|done]. cbn [andb]. rewrite !u32_testbit, !Z.shiftl_spec by lia.
    rewrite (proj2 (Z.ltb_lt _ 32)) by lia. cbn [andb]. destruct (Z.leb_spec r (j mod 32)).
    - rewrite mask_testbit by lia. cbn [andb]. replace (j mod 32 - r) with (j - b) by lia. done.
    - by rewrite (Z.testbit_neg_r mask) by lia. }
  assert (forall j, 0 <= j -> (if (b <=? j) && (j <? b + w) then Z.testbit val (j - b + gb) else bit tn j) =
    (if (j / 32 =? q + 1) && (j mod 32 + (32 - r) <? w) then Z.testbit v (j - b) else
     if (j / 32 =? q) && ((r <=? j mod 32) && (j mod 32 - r <? w)) then Z.testbit v (j - b) else bit tn j)) as Hgoal.
  { intros j Hj. pose proof (Z.div_mod j 32 ltac:(lia)) as Hdm. pose proof (Z.mod_pos_bound j 32 ltac:(lia)).
    unfold v. destruct (Z.leb_spec b j), (Z.ltb_spec j (b + w)); cbn [andb];
      destruct (Z.eqb_spec (j / 32) (q + 1)), (Z.ltb_spec (j mod 32 + (32 - r)) w); cbn [andb];
      destruct (Z.eqb_spec (j / 32) q), (Z.leb_spec r (j mod 32)), (Z.ltb_spec (j mod 32 - r) w); cbn [andb];
      try done; try lia; rewrite Z.shiftr_spec by lia; done. }
  destruct (Z.ltb_spec (32 - r) w) as [Hlt|Hge].
  - destruct (merge_word_ok tn1 (q + 1) (Z.shiftr mask (32 - r)) (Z.shiftr v (32 - r)) Hn1) as (tn2 & -> & Hn2 & Hb2);
      [lia | apply shiftr_u32; [lia | apply mask_u32] | by apply shiftr_u32; [lia|] |].
    exists tn2. split; [done|]. split; [done|]. intros j Hj. rewrite Hgoal, Hb2, Hbit1 by done.
    pose proof (Z.div_mod j 32 ltac:(lia)) as Hdm. pose proof (Z.mod_pos_bound j 32 ltac:(lia)).
    destruct (Z.eqb_spec (j / 32) (q + 1)); [|done]. cbn [andb].
    rewrite !Z.shiftr_spec, mask_testbit by lia. replace (j mod 32 + (32 - r)) with (j - b) by lia. done.
  - exists tn1. split; [done|]. split; [done|]. intros j Hj. rewrite Hgoal, Hbit1 by done.
    pose proof (Z.mod_pos_bound j 32 ltac:(lia)).
    destruct (Z.eqb_spec (j / 32) (q + 1)), (Z.ltb_spec (j mod 32 + (32 - r)) w); done || lia.
Qed.

(** What a field holds. *)
Lemma get_ok tn pos : node_ok w tn -> exists v, yaffs_GetChunkGroupBase w mask gb tn pos = Some v /\ is_u32 v /\
  forall k, 0 <= k -> Z.testbit v k = (gb <=? k) && (k - gb <? w) && bit tn (slot pos * w + (k - gb)).
Proof.
  intros Hn. unfold yaffs_GetChunkGroupBase. change (Z.land pos YAFFS_TNODES_LEVEL0_MASK) with (slot pos).
  destruct (field_place (slot pos) (slot_range pos)) as (E1 & E2 & Hq & Hq'). set (b := slot pos * w) in *.
  rewrite E1, E2. pose proof (Z.mod_pos_bound b 32 ltac:(lia)) as Hr. set (r := b mod 32) in *. set (q := b / 32) in *.
  assert (b = 32 * q + r) as Hb by (apply Z.div_mod; lia).
  assert (0 <= b) as Hb0 by (unfold b; pose proof (slot_range pos); destruct Hg; nia). clearbody q r b.
  pose proof Hg as [_ Hw _ [Hgb Hwg]].
  rewrite (map_word_ok tn q Hn Hq). cbn [mbind option_bind]. set (x := nth (Z.to_nat q) tn 0).
  assert (forall m, 0 <= m < 32 -> Z.testbit x m = bit tn (32 * q + m)) as Hx.
  { intros m Hm. unfold bit. rewrite (Z.mul_comm 32), Z.div_add_l, (Z.div_small m), Z.add_0_r by lia.
    by rewrite Z.add_comm, Z.mod_add, Z.mod_small by lia. }
  set (val := if 32 - r <? w then _ else _).
  assert (exists y, val = Some y /\ forall k, 0 <= k < w -> Z.testbit y k = bit tn (b + k)) as (y & -> & Hy).
  { unfold val. destruct (Z.ltb_spec (32 - r) w) as [Hlt|Hge].
    - rewrite (map_word_ok tn (q + 1) Hn) by lia. cbn [mbind option_bind]. eexists. split; [done|]. intros k Hk.
      rewrite Z.lor_spec, Z.shiftr_spec, u32_testbit, Z.shiftl_spec by lia. rewrite (proj2 (Z.ltb_lt k 32)) by lia. cbn [andb].
      destruct (Z.lt_ge_cases (k + r) 32).
      + rewrite Hx, (Z.testbit_neg_r _ (k - (32 - r))), orb_false_r by lia. f_equal. lia.
      + unfold x. rewrite (bit_above tn _ (proj2 Hn)) by lia. cbn [orb]. unfold bit.
        replace (b + k) with (k - (32 - r) + (q + 1) * 32) by lia.
        by rewrite Z.div_add, Z.mod_add, Z.div_small, Z.mod_small, Z.add_0_l by lia.
    - eexists. split; [done|]. intros k Hk. rewrite Z.shiftr_spec, Hx by lia. f_equal. lia. }
  cbn [mbind option_bind]. eexists. split; [done|]. split; [apply u32_range|]. intros k Hk.
  rewrite u32_testbit, Z.shiftl_spec, Z.land_spec by lia. destruct (Z.leb_spec gb k).
  - rewrite mask_testbit by lia. cbn [andb]. destruct (Z.ltb_spec (k - gb) w); cbn [andb].
    + rewrite Hy, andb_true_r by lia. by rewrite (proj2 (Z.ltb_lt k 32)) by lia.
    + by rewrite !andb_false_r.
  - by rewrite (Z.testbit_neg_r mask), !andb_false_r by lia.
Qed.

(** The chunk group a field refers to; 0 is none. *)
Definition entry (tn : list Z) (pos : Z) : Z := default 0 (yaffs_GetChunkGroupBase w mask gb tn pos).
Definition group (chunk : Z) : Z := Z.shiftl (Z.shiftr chunk gb) gb.

Lemma entry_get tn pos : node_ok w tn -> yaffs_GetChunkGroupBase w mask gb tn pos = Some (entry tn pos).
Proof. intros Hn. unfold entry. by destruct (get_ok tn pos Hn) as (v & -> & _). Qed.

Lemma group_testbit c k : 0 <= k -> Z.testbit (group c) k = (gb <=? k) && Z.testbit c k.
Proof.
  intros Hk. destruct Hg as [_ _ _ [Hgb _]]. unfold group. rewrite Z.shiftl_spec by lia. destruct (Z.leb_spec gb k).
  - rewrite Z.shiftr_spec by lia. cbn [andb]. f_equal. lia.
  - by rewrite Z.testbit_neg_r by lia.
Qed.

(** Fields are independent of each other. *)
Lemma entry_put tn pos val : node_ok w tn -> 0 <= val < 2 ^ (w + gb) ->
  exists tn', yaffs_PutLevel0Tnode w mask gb tn pos val = Some tn' /\ node_ok w tn' /\
    forall pos', entry tn' pos' = if slot pos' =? slot pos then group val else entry tn pos'.
Proof.
  intros Hn Hv. pose proof Hg as [_ Hw _ [Hgb Hwg]].
  assert (is_u32 val) as Hv'.
  { unfold is_u32. pose proof (Z.pow_le_mono_r 2 (w + gb) 32 ltac:(lia) ltac:(lia)). lia. }
  destruct (put_ok tn pos val Hn Hv') as (tn' & E & Hn' & Hb). exists tn'. split; [done|]. split; [done|]. intros pos'.
  unfold entry. destruct (get_ok tn' pos' Hn') as (v' & -> & _ & H'), (get_ok tn pos' Hn) as (v & -> & _ & H). cbn [default].
  pose proof (slot_range pos). pose proof (slot_range pos'). apply Z.bits_inj'. intros k Hk. rewrite H' by done.
  assert (forall x, Z.testbit (if slot pos' =? slot pos then group val else x) k =
    if slot pos' =? slot pos then Z.testbit (group val) k else Z.testbit x k) as -> by (intros x; by destruct (_ =? _)).
  rewrite group_testbit, H by done. destruct (Z.leb_spec gb k); cbn [andb]; [|by destruct (_ =? _)].
  destruct (Z.ltb_spec (k - gb) w); cbn [andb].
  - rewrite Hb by nia. destruct (Z.eqb_spec (slot pos') (slot pos)) as [He|Hne].
    + rewrite He, (proj2 (Z.leb_le _ _)), (proj2 (Z.ltb_lt _ _)) by lia. cbn [andb]. f_equal. lia.
    + destruct (Z.leb_spec (slot pos * w) (slot pos' * w + (k - gb))), (Z.ltb_spec (slot pos' * w + (k - gb)) (slot pos * w + w));
        cbn [andb]; try done. exfalso. nia.
  - destruct (slot pos' =? slot pos); [|done]. symmetry. apply (testbit_above (w + gb)); lia.
Qed.

Lemma nth_replicate_0 n i : nth i (replicate n 0) 0 = 0.
Proof. revert i. induction n as [|n IH]; intros [|i]; try done. apply IH. Qed.

Definition blank : list Z := replicate (tnode_words w) 0.

Lemma blank_ok : node_ok w blank.
Proof. split; [apply length_replicate | by apply Forall_replicate]. Qed.

Lemma entry_blank pos : entry blank pos = 0.
Proof.
  unfold entry. destruct (get_ok blank pos blank_ok) as (v & -> & _ & H). cbn. apply Z.bits_inj'. intros k Hk.
  rewrite H, Z.bits_0 by done. unfold bit, blank. by rewrite nth_replicate_0, Z.bits_0, andb_false_r.
Qed.
End fields.
