(* ===== verification/YaffsTree.v ===== *)
(** * The tree of tnodes implements a map (yaffs2/yaffs_guts.c)

    The tnodes of all files and the free list partition the heap ([owned]).  A tree is read
    off the heap by recursion on its level ([nodes_at], [leaf_at], [lookup_at]), so that what
    an operation on one tree leaves alone in the others is a matter of the addresses it
    writes to. *)

From S2P Require Import Prelude YaffsTnode.

(** ** Steps *)

Definition with_heap (d : yaffs_Device) (h : gmap Z (list Z)) : yaffs_Device :=
  mkDevice (tnodeWidth d) (tnodeMask d) (chunkGroupBits d) h (freeTnodes d) (nFreeTnodes d)
    (nTnodesCreated d) (allocatedTnodeList d).

Lemma load_tnode_ok tn node d : heap d !! tn = Some node -> load tn d = Some (node, d).
Proof. intros H. unfold load. rewrite get_st_bind. unfold lift. by rewrite H. Qed.

Lemma store_tnode_ok tn old node d : heap d !! tn = Some old -> store tn node d = Some (tt, with_heap d (<[tn := node]> (heap d))).
Proof. intros H. unfold store. by rewrite (bind_some _ _ _ _ _ (load_tnode_ok _ _ _ H)). Qed.

Lemma internal_ok tn i node d : heap d !! tn = Some node -> (i < length node)%nat ->
  internal tn i d = Some (nth i node 0, d).
Proof.
  intros H Hi. unfold internal. rewrite (bind_some _ _ _ _ _ (load_tnode_ok _ _ _ H)). unfold lift.
  destruct (lookup_lt_is_Some_2 node i Hi) as [x Hx]. by rewrite Hx, (nth_lookup_Some _ _ _ _ Hx).
Qed.

Lemma set_internal_ok tn i p node d : heap d !! tn = Some node -> (i < length node)%nat ->
  set_internal tn i p d = Some (tt, with_heap d (<[tn := <[i := p]> node]> (heap d))).
Proof.
  intros H Hi. unfold set_internal. rewrite (bind_some _ _ _ _ _ (load_tnode_ok _ _ _ H)).
  destruct (lookup_lt_is_Some_2 node i Hi) as [x Hx]. unfold lift. rewrite Hx. by apply store_tnode_ok with node.
Qed.

Lemma node_insert w node i p : node_ok w node -> is_u32 p -> node_ok w (<[i := p]> node).
Proof. intros [HL HF] Hp. split; [by rewrite length_insert | by apply Forall_insert]. Qed.

Lemma nth_insert_word node i j p : (i < length node)%nat -> nth j (<[i := p]> node) 0 = if decide (i = j) then p else nth j node 0.
Proof.
  intros Hi. rewrite !nth_lookup. case_decide as Hij.
  - subst j. by rewrite list_lookup_insert_eq by done.
  - by rewrite list_lookup_insert_ne by done.
Qed.

Lemma node_long w mask gb node : geometry w mask gb -> node_ok w node -> (8 <= length node)%nat.
Proof. intros Hg [-> _]. by apply (tnode_words_eq w mask gb Hg). Qed.

(** ** Reading a tree off the heap *)

Section tree.
Context (w mask gb : Z).

Definition word_of (h : gmap Z (list Z)) (p : Z) (i : nat) : Z := nth i (default [] (h !! p)) 0.

(** The tnodes of a tree. *)
Fixpoint nodes_at (h : gmap Z (list Z)) (l : nat) (p : Z) : list Z :=
  if p =? 0 then [] else
  p :: match l with O => [] | S l => concat (map (fun i => nodes_at h l (word_of h p i)) (seq 0 YAFFS_NTNODES_INTERNAL)) end.

(** The tnode of level 0 that a chunk belongs to, 0 if there is none. *)
Fixpoint leaf_at (h : gmap Z (list Z)) (l : nat) (p c : Z) : Z :=
  match l with
  | O => p
  | S l' => if p =? 0 then 0 else leaf_at h l' (word_of h p (child c l)) c
  end.

Definition lookup_at (h : gmap Z (list Z)) (l : nat) (p c : Z) : Z :=
  let t := leaf_at h l p c in if t =? 0 then 0 else entry w mask gb (default [] (h !! t)) c.

Lemma nodes_at_0 h l : nodes_at h l 0 = [].
Proof. by destruct l. Qed.
Lemma leaf_at_0 h l c : leaf_at h l 0 c = 0.
Proof. by destruct l. Qed.

Lemma child_lt c l : (child c l < YAFFS_NTNODES_INTERNAL)%nat.
Proof.
  unfold child, YAFFS_TNODES_INTERNAL_MASK, YAFFS_NTNODES_INTERNAL.
  rewrite (land_pow2_mask _ 3) by lia. pose proof (Z.mod_pos_bound (Z.shiftr c (YAFFS_TNODES_LEVEL0_BITS + (Z.of_nat l - 1) * YAFFS_TNODES_INTERNAL_BITS)) (2 ^ 3) ltac:(lia)). lia.
Qed.

Lemma nodes_at_S h l p : p <> 0 -> nodes_at h (S l) p =
  p :: concat (map (fun i => nodes_at h l (word_of h p i)) (seq 0 YAFFS_NTNODES_INTERNAL)).
Proof. intros H. cbn [nodes_at]. by destruct (Z.eqb_spec p 0). Qed.

Lemma nodes_at_O h p : p <> 0 -> nodes_at h 0 p = [p].
Proof. intros H. cbn [nodes_at]. by destruct (Z.eqb_spec p 0). Qed.

Lemma nodes_at_head h l p : p <> 0 -> p ∈ nodes_at h l p.
Proof. intros H. destruct l; [rewrite nodes_at_O | rewrite nodes_at_S]; try done; apply elem_of_cons; by left. Qed.

Lemma nodes_at_nonzero h l p a : a ∈ nodes_at h l p -> a <> 0.
Proof.
  revert p. induction l as [|l IH]; intros p; (destruct (Z.eqb_spec p 0) as [-> |Hp]; [rewrite nodes_at_0; by intros ?%not_elem_of_nil|]).
  - rewrite nodes_at_O by done. by intros ->%list_elem_of_singleton.
  - rewrite nodes_at_S by done. intros [-> |H]%elem_of_cons; [done|].
    apply list_elem_of_In, in_concat in H as (x & Hx & Ha). apply in_map_iff in Hx as (i & <- & _).
    apply list_elem_of_In in Ha. by apply IH in Ha.
Qed.

(** The children of a tnode, one of them apart. *)
Definition others (h : gmap Z (list Z)) (l : nat) (p : Z) (x : nat) : list Z :=
  concat (map (fun i => nodes_at h l (word_of h p i)) (seq 0 x)) ++
  concat (map (fun i => nodes_at h l (word_of h p i)) (seq (S x) (YAFFS_NTNODES_INTERNAL - S x))).

Lemma nodes_at_child h l p x : p <> 0 -> (x < YAFFS_NTNODES_INTERNAL)%nat ->
  nodes_at h (S l) p ≡ₚ nodes_at h l (word_of h p x) ++ p :: others h l p x.
Proof.
  intros Hp Hx. unfold others. rewrite nodes_at_S by done.
  replace (seq 0 YAFFS_NTNODES_INTERNAL) with (seq 0 x ++ x :: seq (S x) (YAFFS_NTNODES_INTERNAL - S x)).
  - rewrite map_app, concat_app. cbn [map concat]. solve_Permutation.
  - unfold YAFFS_NTNODES_INTERNAL in *. replace 8%nat with (x + S (8 - S x))%nat at 2 by lia. by rewrite seq_app.
Qed.

(** A tree depends only on its own tnodes. *)
Lemma tree_frame h h' l p : (forall a, a ∈ nodes_at h l p -> h' !! a = h !! a) ->
  nodes_at h' l p = nodes_at h l p /\ (forall c, leaf_at h' l p c = leaf_at h l p c) /\
  (forall c, lookup_at h' l p c = lookup_at h l p c).
Proof.
  intros Hf. assert (nodes_at h' l p = nodes_at h l p /\ forall c, leaf_at h' l p c = leaf_at h l p c /\
    (leaf_at h l p c <> 0 -> leaf_at h l p c ∈ nodes_at h l p)) as [H1 H2].
  { revert p Hf. induction l as [|l IH]; intros p Hf; (destruct (Z.eqb_spec p 0) as [-> |Hp];
      [rewrite !nodes_at_0; split; [done|]; intros c; by rewrite !leaf_at_0|]).
    { rewrite !nodes_at_O by done. split; [done|]. intros c. split; [done|]. intros _. by apply list_elem_of_singleton. }
    assert (forall i, word_of h' p i = word_of h p i) as Hw.
    { intros i. unfold word_of. by rewrite Hf by (by apply nodes_at_head). }
    assert (forall i, (i < YAFFS_NTNODES_INTERNAL)%nat ->
      nodes_at h' l (word_of h p i) = nodes_at h l (word_of h p i) /\ forall c, leaf_at h' l (word_of h p i) c = leaf_at h l (word_of h p i) c /\
      (leaf_at h l (word_of h p i) c <> 0 -> leaf_at h l (word_of h p i) c ∈ nodes_at h l (word_of h p i))) as Hi.
    { intros i Hi. apply IH. intros a Ha. apply Hf. rewrite (nodes_at_child h l p i Hp Hi). apply elem_of_app. by left. }
    split.
    - rewrite !nodes_at_S by done. do 2 f_equal. apply map_ext_in. intros i Hin%in_seq. rewrite Hw. apply Hi. lia.
    - intros c. cbn [leaf_at]. destruct (Z.eqb_spec p 0); [done|]. rewrite Hw. pose proof (child_lt c (S l)) as Hc.
      destruct (Hi _ Hc) as [_ H]. destruct (H c) as [-> H']. split; [done|]. intros Hne.
      rewrite (nodes_at_child h l p _ Hp Hc). apply elem_of_app. left. by apply H'. }
  split; [done|]. split; [intros c; by apply H2|]. intros c. unfold lookup_at. destruct (H2 c) as [-> Hin].
  destruct (Z.eqb_spec (leaf_at h l p c) 0); [done|]. by rewrite Hf by (by apply Hin).
Qed.

Lemma leaf_in h l p c : leaf_at h l p c <> 0 -> leaf_at h l p c ∈ nodes_at h l p.
Proof.
  revert p. induction l as [|l IH]; intros p; (destruct (Z.eqb_spec p 0) as [-> |Hp]; [by rewrite leaf_at_0|]).
  - rewrite nodes_at_O by done. cbn. intros _. by apply list_elem_of_singleton.
  - cbn [leaf_at]. destruct (Z.eqb_spec p 0); [done|]. intros H. apply IH in H.
    rewrite (nodes_at_child h l p _ Hp (child_lt c (S l))). apply elem_of_app. by left.
Qed.

(** ** Paths *)

Lemma child_div c l : child c (S l) = Z.to_nat ((c / 16 / 8 ^ Z.of_nat l) mod 8).
Proof.
  unfold child, YAFFS_TNODES_INTERNAL_MASK, YAFFS_TNODES_LEVEL0_BITS, YAFFS_TNODES_INTERNAL_BITS.
  rewrite (land_pow2_mask _ 3), Z.shiftr_div_pow2 by lia. change (2 ^ 3) with 8. do 2 f_equal.
  replace (4 + (Z.of_nat (S l) - 1) * 3) with (4 + 3 * Z.of_nat l) by lia.
  rewrite Z.pow_add_r, <- Z.div_div, Z.pow_mul_r by lia. done.
Qed.

Lemma other_child h l p x x' a : p <> 0 -> x <> x' -> (x' < YAFFS_NTNODES_INTERNAL)%nat -> a ∈ nodes_at h l (word_of h p x') ->
  a ∈ others h l p x.
Proof.
  intros Hp Hne Hx' Ha. unfold others. apply elem_of_app. destruct (decide (x' < x)%nat); [left | right];
    apply list_elem_of_In, in_concat; exists (nodes_at h l (word_of h p x')); (split; [|by apply list_elem_of_In]);
    apply in_map_iff; exists x'; (split; [done|]); apply in_seq; lia.
Qed.

(** Chunks with the same tnode differ at most in their position in it. *)
Lemma leaf_inj h l p c c' : NoDup (nodes_at h l p) -> 0 <= c -> 0 <= c' -> leaf_at h l p c <> 0 ->
  leaf_at h l p c = leaf_at h l p c' -> (c / 16) mod 8 ^ Z.of_nat l = (c' / 16) mod 8 ^ Z.of_nat l.
Proof.
  intros Hnd Hc Hc'. revert p Hnd. induction l as [|l IH]; intros p Hnd Hne He; [by rewrite !Z.mod_1_r|].
  destruct (Z.eqb_spec p 0) as [-> |Hp]; [by rewrite leaf_at_0 in Hne|].
  cbn [leaf_at] in Hne, He. destruct (Z.eqb_spec p 0); [done|].
  pose proof (child_lt c (S l)) as Hx. pose proof (child_lt c' (S l)) as Hx'.
  rewrite (nodes_at_child h l p _ Hp Hx) in Hnd. apply NoDup_app in Hnd as (Hnd & Hdis & _).
  destruct (decide (child c (S l) = child c' (S l))) as [Heq|Hneq].
  - rewrite <- Heq in He. specialize (IH _ Hnd Hne He). rewrite !child_div in Heq.
    rewrite Nat2Z.inj_succ, Z.pow_succ_r by lia. rewrite (Z.mul_comm 8), !Z.rem_mul_r by lia. rewrite IH. do 2 f_equal.
    pose proof (Z.mod_pos_bound (c / 16 / 8 ^ Z.of_nat l) 8 ltac:(lia)).
    pose proof (Z.mod_pos_bound (c' / 16 / 8 ^ Z.of_nat l) 8 ltac:(lia)). lia.
  - exfalso. apply (Hdis _ (leaf_in _ _ _ _ Hne)). apply elem_of_cons. right. rewrite He in Hne |- *.
    by apply (other_child h l p _ (child c' (S l))), leaf_in.
Qed.

(** A tnode of level 0 can change without a change of the tree. *)
Lemma leaf_update h l p c node : NoDup (nodes_at h l p) -> leaf_at h l p c <> 0 ->
  let h' := <[leaf_at h l p c := node]> h in
  nodes_at h' l p = nodes_at h l p /\ forall c', leaf_at h' l p c' = leaf_at h l p c'.
Proof.
  revert p. induction l as [|l IH]; intros p Hnd Hne h'; [done|].
  destruct (Z.eqb_spec p 0) as [-> |Hp]; [by rewrite leaf_at_0 in Hne|].
  pose proof (child_lt c (S l)) as Hx. set (x := child c (S l)) in *.
  assert (leaf_at h (S l) p c = leaf_at h l (word_of h p x) c) as Ht.
  { cbn [leaf_at]. by destruct (Z.eqb_spec p 0). }
  unfold h'. rewrite Ht in Hne |- *. clear h' Ht.
  rewrite (nodes_at_child h l p x Hp Hx) in Hnd. apply NoDup_app in Hnd as (Hnd & Hdis & _).
  destruct (IH _ Hnd Hne) as [H1 H2]. set (t := leaf_at h l (word_of h p x) c) in *. set (h' := <[t := node]> h) in *.
  pose proof (Hdis t (leaf_in _ _ _ _ Hne)) as Ht. rewrite elem_of_cons in Ht.
  assert (forall i, word_of h' p i = word_of h p i) as Hw.
  { intros i. unfold word_of, h'. rewrite lookup_insert_ne by (intros ->; tauto). done. }
  assert (forall i, (i < YAFFS_NTNODES_INTERNAL)%nat -> nodes_at h' l (word_of h p i) = nodes_at h l (word_of h p i) /\
    forall c', leaf_at h' l (word_of h p i) c' = leaf_at h l (word_of h p i) c') as Hi.
  { intros i Hi. destruct (decide (x = i)) as [<-|Hxi]; [done|].
    destruct (tree_frame h h' l (word_of h p i)) as (? & ? & _); [|done].
    intros a Ha. unfold h'. rewrite lookup_insert_ne; [done|]. intros <-. apply Ht. right.
    by apply (other_child h l p x i). }
  split.
  - rewrite !nodes_at_S by done. do 2 f_equal. apply map_ext_in. intros i Hin%in_seq. rewrite Hw. apply Hi. lia.
  - intros c'. cbn [leaf_at]. destruct (Z.eqb_spec p 0); [done|]. rewrite Hw. apply Hi, child_lt.
Qed.

Lemma others_ext h h' l p x : (x < YAFFS_NTNODES_INTERNAL)%nat ->
  (forall i, i <> x -> (i < YAFFS_NTNODES_INTERNAL)%nat -> nodes_at h' l (word_of h' p i) = nodes_at h l (word_of h p i)) ->
  others h' l p x = others h l p x.
Proof.
  intros Hx H. unfold others. f_equal; f_equal; apply map_ext_in; intros i Hin%in_seq; apply H; lia.
Qed.

(** The subtree at place [x] is another one. *)
Lemma child_replaced h h' l p x q : p <> 0 -> (x < YAFFS_NTNODES_INTERNAL)%nat -> word_of h' p x = q ->
  (forall i, i <> x -> word_of h' p i = word_of h p i) -> (forall a, a ∈ others h l p x -> h' !! a = h !! a) ->
  nodes_at h' (S l) p ≡ₚ nodes_at h' l q ++ p :: others h l p x /\
  (forall c, leaf_at h' (S l) p c = if decide (child c (S l) = x) then leaf_at h' l q c else leaf_at h (S l) p c) /\
  (forall c, lookup_at h' (S l) p c = if decide (child c (S l) = x) then lookup_at h' l q c else lookup_at h (S l) p c).
Proof.
  intros Hp Hx Hq Hw Hf.
  assert (forall i, i <> x -> (i < YAFFS_NTNODES_INTERNAL)%nat -> nodes_at h' l (word_of h p i) = nodes_at h l (word_of h p i) /\
    (forall c, leaf_at h' l (word_of h p i) c = leaf_at h l (word_of h p i) c) /\
    (forall c, lookup_at h' l (word_of h p i) c = lookup_at h l (word_of h p i) c)) as Hi.
  { intros i Hne Hi. apply tree_frame. intros a Ha. by apply Hf, (other_child h l p x i). }
  assert (forall g c, leaf_at g (S l) p c = leaf_at g l (word_of g p (child c (S l))) c) as Hlf.
  { intros g c. cbn [leaf_at]. by destruct (Z.eqb_spec p 0). }
  split; [|split].
  - rewrite (nodes_at_child h' l p x Hp Hx), Hq, (others_ext h h' l p x Hx); [done|]. intros i Hne Hix. rewrite Hw by done. by apply Hi.
  - intros c. pose proof (child_lt c (S l)) as Hc. rewrite !Hlf. case_decide as He; [by rewrite He, Hq|]. rewrite Hw by done. by apply Hi.
  - intros c. pose proof (child_lt c (S l)) as Hc. unfold lookup_at. rewrite !Hlf. case_decide as He; [by rewrite He, Hq|].
    rewrite Hw by done. by apply Hi.
Qed.

Lemma lookup_below h l p c : p <> 0 -> lookup_at h (S l) p c = lookup_at h l (word_of h p (child c (S l))) c.
Proof. intros Hp. unfold lookup_at. cbn [leaf_at]. by destruct (Z.eqb_spec p 0). Qed.

Lemma leaf_below h l p c : p <> 0 -> leaf_at h (S l) p c = leaf_at h l (word_of h p (child c (S l))) c.
Proof. intros Hp. cbn [leaf_at]. by destruct (Z.eqb_spec p 0). Qed.

(** One subtree has changed, and still holds the same chunks. *)
Lemma subtree_changed h h' l p x : p <> 0 -> (x < YAFFS_NTNODES_INTERNAL)%nat ->
  (forall a, a ∈ p :: others h l p x -> h' !! a = h !! a) ->
  (forall c, lookup_at h' l (word_of h p x) c = lookup_at h l (word_of h p x) c) ->
  word_of h' p x = word_of h p x /\
  nodes_at h' (S l) p ≡ₚ nodes_at h' l (word_of h p x) ++ p :: others h l p x /\
  (forall c, leaf_at h' (S l) p c = if decide (child c (S l) = x) then leaf_at h' l (word_of h p x) c else leaf_at h (S l) p c) /\
  (forall c, lookup_at h' (S l) p c = lookup_at h (S l) p c).
Proof.
  intros Hp Hx Hf Hl.
  assert (forall i, word_of h' p i = word_of h p i) as Hw.
  { intros i. unfold word_of. by rewrite Hf by (apply elem_of_cons; by left). }
  destruct (child_replaced h h' l p x (word_of h p x)) as (H1 & H2 & H3); [done..| |].
  { intros a Ha. apply Hf, elem_of_cons. by right. }
  split; [done|]. split; [done|]. split; [done|]. intros c. rewrite H3. case_decide as He; [|done].
  by rewrite Hl, lookup_below, He.
Qed.

(** Clean tnodes hold nothing. *)
Lemma blank_word h p i : h !! p = Some (blank w) -> word_of h p i = 0.
Proof. intros H. unfold word_of. rewrite H. apply nth_replicate_0. Qed.

Lemma blank_nodes h l p : p <> 0 -> h !! p = Some (blank w) -> nodes_at h l p = [p].
Proof.
  intros Hp Hb. destruct l as [|l]; [by apply nodes_at_O|]. rewrite nodes_at_S by done. f_equal.
  assert (forall idx, concat (map (fun i => nodes_at h l (word_of h p i)) idx) = []) as H; [|apply H].
  induction idx as [|i idx IH]; [done|]. cbn. by rewrite (blank_word h p i Hb), nodes_at_0.
Qed.

Lemma blank_lookup h l p c : geometry w mask gb -> h !! p = Some (blank w) -> lookup_at h l p c = 0.
Proof.
  intros Hg Hb. unfold lookup_at. destruct l as [|l]; cbn [leaf_at].
  - destruct (Z.eqb_spec p 0); [done|]. rewrite Hb. by apply (entry_blank w mask gb Hg).
  - destruct (Z.eqb_spec p 0); [done|]. by rewrite (blank_word h p _ Hb), leaf_at_0.
Qed.

(** A word of a tnode is written. *)
Lemma word_insert h p x node v i : h !! p = Some node -> (x < length node)%nat ->
  word_of (<[p := <[x := v]> node]> h) p i = if decide (x = i) then v else word_of h p i.
Proof.
  intros Hnode HL. unfold word_of. rewrite lookup_insert_eq, Hnode. change (default [] (Some ?y)) with y. by apply nth_insert_word.
Qed.

(** An empty place of a tnode gets a clean subtree. *)
Lemma subtree_added h l p x node new : geometry w mask gb -> p <> 0 -> (x < YAFFS_NTNODES_INTERNAL)%nat -> h !! p = Some node ->
  (8 <= length node)%nat -> word_of h p x = 0 -> NoDup (nodes_at h (S l) p) -> new <> 0 -> new ∉ nodes_at h (S l) p ->
  h !! new = Some (blank w) ->
  let h' := <[p := <[x := new]> node]> h in
  word_of h' p x = new /\ nodes_at h' (S l) p ≡ₚ new :: nodes_at h (S l) p /\
  (forall c, leaf_at h (S l) p c <> 0 -> leaf_at h' (S l) p c = leaf_at h (S l) p c) /\
  (forall c, lookup_at h' (S l) p c = lookup_at h (S l) p c).
Proof.
  intros Hg Hp Hx Hnode HL Hx0 Hnd Hnew Hnot Hb h'. unfold YAFFS_NTNODES_INTERNAL in Hx.
  assert (new <> p) as Hne by (intros ->; apply Hnot; by apply nodes_at_head).
  pose proof (fun i => word_insert h p x node new i Hnode ltac:(lia)) as Hw. fold h' in Hw.
  assert (h' !! new = Some (blank w)) as Hb' by (unfold h'; by rewrite lookup_insert_ne).
  rewrite (nodes_at_child h l p x Hp Hx), Hx0, nodes_at_0 in *. cbn [app] in *. apply NoDup_cons in Hnd as [Hpo _].
  assert (word_of h' p x = new) as Hwx by (by rewrite Hw, decide_True).
  destruct (child_replaced h h' l p x new) as (H1 & H2 & H3); [done..| | |].
  { intros i Hi. by rewrite Hw, decide_False. }
  { intros a Ha. unfold h'. apply lookup_insert_ne. by intros <-. }
  split; [done|]. rewrite H1, (blank_nodes h' l new Hnew Hb'). split; [done|]. split.
  - intros c Hc. rewrite H2. case_decide as He; [|done]. by rewrite leaf_below, He, Hx0, leaf_at_0 in Hc.
  - intros c. rewrite H3. case_decide as He; [|done]. rewrite lookup_below, He, Hx0 by done.
    rewrite (blank_lookup h' l new c Hg Hb'). unfold lookup_at. by rewrite leaf_at_0.
Qed.

(** ** Heights *)

Lemma tallness_loop_ok fuel i r : 0 <= i < 8 ^ Z.of_nat fuel ->
  exists t, tallness_loop (S fuel) i r = Some t /\ r <= t /\ forall L : nat, t <= r + Z.of_nat L <-> i < 8 ^ Z.of_nat L.
Proof.
  revert i r. induction fuel as [|fuel IH]; intros i r Hi.
  { assert (i = 0) as -> by (cbn in Hi; lia). exists r. split; [done|]. split; [lia|]. intros L.
    pose proof (Z.pow_pos_nonneg 8 (Z.of_nat L) ltac:(lia) ltac:(lia)). lia. }
  cbn [tallness_loop]. destruct (Z.eqb_spec i 0) as [-> |Hne].
  { exists r. split; [done|]. split; [lia|]. intros L.
    pose proof (Z.pow_pos_nonneg 8 (Z.of_nat L) ltac:(lia) ltac:(lia)). lia. }
  rewrite Nat2Z.inj_succ, Z.pow_succ_r in Hi by lia.
  destruct (IH (Z.shiftr i YAFFS_TNODES_INTERNAL_BITS) (r + 1)) as (t & E & Hr & HL).
  { rewrite Z.shiftr_div_pow2 by done. change (2 ^ YAFFS_TNODES_INTERNAL_BITS) with 8.
    split; [apply Z.div_pos; lia | apply Z.div_lt_upper_bound; lia]. }
  exists t. split; [exact E|]. split; [lia|]. intros [|L]; [cbn; lia|]. specialize (HL L).
  rewrite Z.shiftr_div_pow2 in HL by done. change (2 ^ YAFFS_TNODES_INTERNAL_BITS) with 8 in HL.
  rewrite Nat2Z.inj_succ, Z.pow_succ_r by lia.
  replace (r + Z.succ (Z.of_nat L)) with (r + 1 + Z.of_nat L) by lia. rewrite HL.
  pose proof (Z.div_mod i 8 ltac:(lia)). pose proof (Z.mod_pos_bound i 8 ltac:(lia)). split; lia.
Qed.

Lemma tallness_ok c : 0 <= c <= YAFFS_MAX_CHUNK_ID ->
  exists t, tallness c = Some t /\ 0 <= t <= YAFFS_TNODES_MAX_LEVEL /\ forall L : nat, t <= Z.of_nat L <-> c / 16 < 8 ^ Z.of_nat L.
Proof.
  unfold YAFFS_MAX_CHUNK_ID. intros Hc. unfold tallness. rewrite Z.shiftr_div_pow2 by done. change (2 ^ YAFFS_TNODES_LEVEL0_BITS) with 16.
  assert (0 <= c / 16 < 8 ^ 6) as H by (split; [apply Z.div_pos; lia | apply Z.div_lt_upper_bound; lia]).
  destruct (tallness_loop_ok 11 (c / 16) 0) as (t & E & H0 & HL); [cbn in *; lia|].
  exists t. split; [exact E|]. split; [|exact HL]. split; [done|]. apply (HL 6%nat). apply H.
Qed.
End tree.

(** ** Ownership *)

(** What [YMALLOC] returns is not in use. *)
Class MallocOk (Ma : Malloc) : Prop := ymalloc_fresh h n size :
  let p := ymalloc h (n * size) in
  p = 0 \/ (0 < p /\ p + n * size <= 4294967296 /\ forall i, 0 <= i < n -> h !! (p + i * size) = None).

(** The free list from [p] on. *)
Fixpoint chain (h : gmap Z (list Z)) (p : Z) (fl : list Z) : Prop :=
  match fl with
  | [] => p = 0
  | a :: fl => p = a /\ chain h (word_of h a 0) fl
  end.

(** [U] are the tnodes in use, [fl] those of the free list. *)
Record owned (d : yaffs_Device) (U fl : list Z) : Prop := {
  ow_geo : geometry (tnodeWidth d) (tnodeMask d) (chunkGroupBits d);
  ow_nodes : forall a, a ∈ U ++ fl -> 0 < a < 4294967296 /\ exists node, heap d !! a = Some node /\ node_ok (tnodeWidth d) node;
  ow_nodup : NoDup (U ++ fl);
  ow_chain : chain (heap d) (freeTnodes d) fl;
  ow_count : nFreeTnodes d = Z.of_nat (length fl);
}.

(** The tnodes of [A] and the geometry are as before. *)
Record keeps (A : list Z) (d d' : yaffs_Device) : Prop := {
  kp_width : tnodeWidth d' = tnodeWidth d;
  kp_mask : tnodeMask d' = tnodeMask d;
  kp_group : chunkGroupBits d' = chunkGroupBits d;
  kp_heap : forall a, a ∈ A -> heap d' !! a = heap d !! a;
}.

Lemma keeps_refl A d : keeps A d d.
Proof. done. Qed.

Lemma keeps_trans A B d1 d2 d3 : keeps A d1 d2 -> keeps B d2 d3 -> (forall a, a ∈ A -> a ∈ B) -> keeps A d1 d3.
Proof.
  intros [H1 H2 H3 H4] [K1 K2 K3 K4] Hs. split; [congruence.. |]. intros a Ha. rewrite K4 by (by apply Hs). by apply H4.
Qed.

Lemma keeps_sub A B d d' : keeps B d d' -> (forall a, a ∈ A -> a ∈ B) -> keeps A d d'.
Proof. intros [H1 H2 H3 H4] Hs. split; [done.. |]. intros a Ha. by apply H4, Hs. Qed.

Lemma owned_perm d U U' fl : U ≡ₚ U' -> owned d U fl -> owned d U' fl.
Proof.
  intros Hp [H1 H2 H3 H4 H5]. split; [done | | | done | done].
  - intros a Ha. apply H2. by rewrite Hp.
  - by rewrite <- Hp.
Qed.

Lemma chain_frame h h' p fl : (forall a, a ∈ fl -> h' !! a = h !! a) -> chain h p fl -> chain h' p fl.
Proof.
  revert p. induction fl as [|a fl IH]; intros p Hf; cbn; [done|]. intros [-> Hc]. split; [done|].
  replace (word_of h' a 0) with (word_of h a 0); [apply IH; [|done]; intros b Hb; apply Hf, elem_of_cons; by right|].
  unfold word_of. by rewrite Hf by (apply elem_of_cons; by left).
Qed.

(** A tnode goes back to the free list. *)
Lemma free_tnode_ok d U fl tn : owned d (tn :: U) fl ->
  exists d', yaffs_FreeTnode tn d = Some (tt, d') /\ owned d' U (tn :: fl) /\ keeps U d d'.
Proof.
  intros [Hg Hn Hnd Hc Hk]. destruct (Hn tn) as (Htn & node & Hnode & Hok); [by apply elem_of_cons; left|].
  pose proof (node_long _ _ _ _ Hg Hok) as HL. unfold yaffs_FreeTnode. destruct (Z.eqb_spec tn 0); [lia|].
  rewrite get_st_bind, (bind_some _ _ _ _ _ (set_internal_ok tn 0 (freeTnodes d) node d Hnode ltac:(lia))).
  eexists. split; [reflexivity|]. cbn [app] in Hnd. apply NoDup_cons in Hnd as [Hnotin Hnd].
  assert (is_u32 (freeTnodes d)) as Hfr.
  { destruct fl as [|a fl]; cbn in Hc; [rewrite Hc; done|]. destruct Hc as [-> _]. unfold is_u32.
    destruct (Hn a) as [? _]; [|lia]. apply elem_of_app. right. apply elem_of_cons. by left. }
  split; [split; cbn; [done | | | | lia]|].
  - intros a Ha. assert (a ∈ (tn :: U) ++ fl) as Ha'.
    { rewrite !elem_of_app, !elem_of_cons in *. tauto. }
    destruct (Hn a Ha') as (? & node' & ? & ?). split; [done|]. destruct (decide (a = tn)) as [-> |Hne].
    + rewrite lookup_insert_eq. eexists. split; [done|]. by apply node_insert.
    + rewrite lookup_insert_ne by done. by exists node'.
  - rewrite <- Permutation_middle. by constructor.
  - split; [done|]. replace (word_of _ tn 0) with (freeTnodes d).
    + apply (chain_frame (heap d)); [|done]. intros a Ha. rewrite lookup_insert_ne; [done|].
      intros <-. apply Hnotin, elem_of_app. by right.
    + unfold word_of. rewrite lookup_insert_eq. change (default [] (Some ?x)) with x. by rewrite nth_insert_word, decide_True by (done || lia).
  - split; cbn; [done.. |]. intros a Ha. rewrite lookup_insert_ne; [done|]. intros <-. apply Hnotin, elem_of_app. by left.
Qed.

(** ** Allocation *)

Definition bunch (n : nat) (mem size : Z) : list Z := map (fun i => mem + Z.of_nat i * size) (seq 0 n).

Lemma elem_of_bunch n mem size a : a ∈ bunch n mem size <-> exists i, (i < n)%nat /\ a = mem + Z.of_nat i * size.
Proof.
  unfold bunch. rewrite list_elem_of_In, in_map_iff. setoid_rewrite in_seq. split.
  - intros (i & <- & ?). exists i. split; [lia | done].
  - intros (i & ? & ->). exists i. split; [done | lia].
Qed.

Lemma bunch_S n mem size : bunch (S n) mem size = mem :: bunch n (mem + size) size.
Proof.
  unfold bunch. cbn [seq map]. f_equal; [lia|]. rewrite <- seq_shift, map_map. apply map_ext. intros i. lia.
Qed.

Lemma bunch_NoDup n mem size : 0 < size -> NoDup (bunch n mem size).
Proof.
  intros Hs. unfold bunch. apply NoDup_fmap_2_strong; [|apply NoDup_seq]. intros i j _ _ H. nia.
Qed.

Lemma add_tnodes_lookup n mem size node h a : 0 < size ->
  add_tnodes n mem size node h !! a = if decide (a ∈ bunch n mem size) then Some node else h !! a.
Proof.
  intros Hs. revert mem. induction n as [|n IH]; intros mem; [done|]. cbn [add_tnodes]. rewrite bunch_S.
  destruct (decide (a = mem)) as [-> |Hne].
  - rewrite lookup_insert_eq, decide_True; [done|]. apply elem_of_cons. by left.
  - rewrite lookup_insert_ne by done. rewrite IH. apply decide_ext. rewrite elem_of_cons. tauto.
Qed.

(** Each of the first [n] tnodes points to the one after it. *)
Lemma hook_ok n mem size d w mask gb : geometry w mask gb -> 0 < size -> 0 < mem -> mem + Z.of_nat (S n) * size <= 4294967296 ->
  (forall a, a ∈ bunch (S n) mem size -> exists node, heap d !! a = Some node /\ node_ok w node) ->
  exists h, hook_tnodes n mem size d = Some (tt, with_heap d h) /\
    (forall a, a ∈ bunch (S n) mem size -> exists node, h !! a = Some node /\ node_ok w node) /\
    (forall a, ~ a ∈ bunch n mem size -> h !! a = heap d !! a) /\
    (forall i, (i < n)%nat -> word_of h (mem + Z.of_nat i * size) 0 = mem + (Z.of_nat i + 1) * size).
Proof.
  intros Hg Hs. revert mem d. induction n as [|n IH]; intros mem d Hm Hlim Hn; cbn [hook_tnodes].
  { exists (heap d). split; [by destruct d|]. split; [done|]. split; [done|]. lia. }
  destruct (Hn mem) as (node & Hnode & Hok); [rewrite bunch_S; apply elem_of_cons; by left|].
  pose proof (node_long _ _ _ _ Hg Hok).
  rewrite (bind_some _ _ _ _ _ (set_internal_ok mem 0 (mem + size) node d Hnode ltac:(lia))).
  set (d1 := with_heap d _).
  destruct (IH (mem + size) d1) as (h & E & H1 & H2 & H3); [lia | lia | |].
  { intros a Ha. destruct (Hn a) as (node' & Hn' & Hok'); [rewrite bunch_S; apply elem_of_cons; by right|].
    unfold d1. cbn. destruct (decide (a = mem)) as [-> |].
    - rewrite lookup_insert_eq. eexists. split; [done|]. apply node_insert; [done|]. unfold is_u32. lia.
    - rewrite lookup_insert_ne by done. by exists node'. }
  exists h. split; [exact E|].
  assert (~ mem ∈ bunch n (mem + size) size) as Hmem by (rewrite elem_of_bunch; intros (i & _ & ?); nia).
  assert (h !! mem = Some (<[0%nat := mem + size]> node)) as Hh.
  { rewrite H2 by done. unfold d1. cbn. apply lookup_insert_eq. }
  split; [|split].
  - intros a. rewrite bunch_S. intros [-> |Ha]%elem_of_cons; [|by apply H1].
    rewrite Hh. eexists. split; [done|]. apply node_insert; [done|]. unfold is_u32. lia.
  - intros a. rewrite bunch_S, elem_of_cons. intros Ha. rewrite H2 by tauto. unfold d1. cbn.
    apply lookup_insert_ne. intros ->. tauto.
  - intros [|i] Hi.
    + replace (mem + Z.of_nat 0 * size) with mem by lia. unfold word_of. rewrite Hh.
      change (default [] (Some ?x)) with x. rewrite nth_insert_word, decide_True by (done || lia). lia.
    + replace (mem + Z.of_nat (S i) * size) with (mem + size + Z.of_nat i * size) by lia. rewrite H3 by lia. lia.
Qed.

Lemma bunch_chain h n mem size fp fl : (0 < n)%nat ->
  (forall i, (i < n - 1)%nat -> word_of h (mem + Z.of_nat i * size) 0 = mem + (Z.of_nat i + 1) * size) ->
  word_of h (mem + Z.of_nat (n - 1) * size) 0 = fp -> chain h fp fl -> chain h mem (bunch n mem size ++ fl).
Proof.
  revert mem. induction n as [|n IH]; intros mem Hn Hlink Hlast Hc; [lia|]. rewrite bunch_S. cbn [app chain].
  split; [done|]. destruct n as [|n].
  - replace (mem + Z.of_nat (1 - 1) * size) with mem in Hlast by lia. by rewrite Hlast.
  - specialize (Hlink 0%nat ltac:(lia)) as H0. replace (mem + Z.of_nat 0 * size) with mem in H0 by lia.
    rewrite H0. replace (mem + (Z.of_nat 0 + 1) * size) with (mem + size) by lia. apply IH; [lia | | | done].
    + intros i Hi. specialize (Hlink (S i) ltac:(lia)).
      replace (mem + size + Z.of_nat i * size) with (mem + Z.of_nat (S i) * size) by lia. rewrite Hlink. lia.
    + rewrite <- Hlast. f_equal. replace (S (S n) - 1)%nat with (S (S n - 1)) by lia. lia.
Qed.

Section allocation.
Context `{Ma : Malloc} `{Hma : !MallocOk Ma} (garbage : Z) (Hgarbage : is_u32 garbage).

Lemma create_tnodes_ok d U fl n : owned d U fl -> 0 < n ->
  exists r d', yaffs_CreateTnodes garbage n d = Some (r, d') /\ keeps U d d' /\
    ((ymalloc (heap d) (n * tnode_bytes (tnodeWidth d)) = 0 /\ d' = d) \/
     exists fl', owned d' U fl' /\ fl' <> []).
Proof.
  intros [Hg Hn Hnd Hc Hk] Hpos. unfold yaffs_CreateTnodes. destruct (Z.ltb_spec n 1); [lia|]. rewrite get_st_bind.
  set (size := tnode_bytes (tnodeWidth d)). pose proof (ymalloc_fresh (heap d) n size) as Hfresh. cbv zeta in Hfresh.
  set (mem := ymalloc (heap d) (n * size)) in *. destruct (Z.eqb_spec mem 0) as [H0|H0].
  { exists YAFFS_FAIL, d. split; [done|]. split; [apply keeps_refl|]. by left. }
  destruct Hfresh as [|(Hm & Hlim & Hfresh)]; [done|].
  assert (0 < size) as Hs.
  { unfold size, tnode_bytes, YAFFS_NTNODES_LEVEL0. destruct Hg. apply Z.div_str_pos. lia. }
  set (node := replicate _ garbage). set (h0 := add_tnodes _ mem size node (heap d)).
  assert (node_ok (tnodeWidth d) node) as Hnode by (split; [apply length_replicate | by apply Forall_replicate]).
  rewrite (bind_some _ _ _ _ _ (eq_refl : set_heap h0 d = Some (tt, with_heap d h0))).
  assert (exists k, Z.to_nat n = S k /\ Z.to_nat (n - 1) = k) as (k & En & En') by (exists (Z.to_nat (n - 1)); lia).
  assert (forall a, a ∈ bunch (S k) mem size -> a ∉ U ++ fl) as Hdis.
  { intros a (i & Hi & ->)%elem_of_bunch Ha. destruct (Hn _ Ha) as (_ & x & Hx & _).
    rewrite Hfresh in Hx by lia. done. }
  assert (forall a, a ∈ bunch (S k) mem size -> exists node, heap (with_heap d h0) !! a = Some node /\ node_ok (tnodeWidth d) node) as Hbn.
  { intros a Ha. cbn. unfold h0. rewrite add_tnodes_lookup, En, decide_True by done. by exists node. }
  rewrite En'. destruct (hook_ok k mem size (with_heap d h0) _ _ _ Hg Hs Hm ltac:(lia) Hbn) as (h & E & H1 & H2 & H3).
  rewrite (bind_some _ _ _ _ _ E). clear E.
  assert (mem + Z.of_nat k * size ∈ bunch (S k) mem size) as Hlast by (apply elem_of_bunch; exists k; split; [lia | done]).
  destruct (H1 _ Hlast) as (last & Hl & Hlok). pose proof (node_long _ _ _ _ Hg Hlok).
  replace (mem + (n - 1) * size) with (mem + Z.of_nat k * size) by lia.
  rewrite (bind_some _ _ _ _ _ (set_internal_ok _ 0 (freeTnodes d) last (with_heap (with_heap d h0) h) Hl ltac:(lia))).
  set (h2 := <[_ := _]> _). 
  assert (forall a, a ∉ bunch (S k) mem size -> h2 !! a = heap d !! a) as Hkeep.
  { intros a Ha. unfold h2. cbn [heap with_heap]. rewrite lookup_insert_ne by (intros <-; by apply Ha).
    rewrite H2.
    - cbn. unfold h0. by rewrite add_tnodes_lookup, En, decide_False by done.
    - intros (i & Hi & ->)%elem_of_bunch. apply Ha, elem_of_bunch. exists i. split; [lia | done]. }
  rewrite (bind_some (set_free mem (nFreeTnodes d + n)) _ _ _ _ eq_refl), get_st_bind.
  rewrite (bind_some (set_created _ _) _ _ _ _ eq_refl).
  eexists YAFFS_OK, _. split; [reflexivity|]. split.
  { split; cbn; [done.. |]. intros a Ha. apply Hkeep. intros Hb. apply (Hdis _ Hb), elem_of_app. by left. }
  right. exists (bunch (S k) mem size ++ fl). split; [|by rewrite bunch_S]. split; cbn [tnodeWidth tnodeMask chunkGroupBits heap freeTnodes nFreeTnodes].
  - done.
  - intros a Ha. assert (a ∈ U ++ fl \/ a ∈ bunch (S k) mem size) as [Ha'|Ha'] by (rewrite !elem_of_app in *; tauto).
    + destruct (Hn a Ha') as (? & x & ? & ?). split; [done|]. exists x. rewrite Hkeep; [done|]. intros Hb. by apply (Hdis a Hb).
    + split; [apply elem_of_bunch in Ha' as (i & ? & ->); nia|]. unfold h2. cbn [heap with_heap].
      destruct (decide (a = mem + Z.of_nat k * size)) as [-> |Hne].
      * rewrite lookup_insert_eq. eexists. split; [done|]. apply node_insert; [done|].
        destruct fl as [|b fl]; cbn in Hc; [rewrite Hc; done|]. destruct Hc as [-> _].
        destruct (Hn b) as [? _]; [apply elem_of_app; right; apply elem_of_cons; by left|]. unfold is_u32. lia.
      * rewrite lookup_insert_ne by done. by apply H1.
  - rewrite app_assoc, (Permutation_app_comm U), <- app_assoc. apply NoDup_app. split; [by apply bunch_NoDup|]. split; done.
  - apply (bunch_chain _ _ _ _ (freeTnodes d)); [lia | | |].
    + intros i Hi. replace (S k - 1)%nat with k in Hi by lia. unfold word_of, h2. cbn [heap with_heap].
      rewrite lookup_insert_ne by nia. apply H3. lia.
    + replace (S k - 1)%nat with k by lia. unfold word_of, h2. cbn [heap with_heap]. rewrite lookup_insert_eq.
      change (default [] (Some ?x)) with x. by rewrite nth_insert_word, decide_True by (done || lia).
    + apply (chain_frame (heap d)); [|done]. intros a Ha. apply Hkeep. intros Hb. apply (Hdis a Hb), elem_of_app. by right.
  - rewrite length_app, Hk. unfold bunch. rewrite length_map, length_seq. lia.
Qed.

(** A tnode of the list, or NULL when the list is empty and there is no memory. *)
Lemma get_raw_ok d U fl : owned d U fl ->
  exists tn d', yaffs_GetTnodeRaw garbage d = Some (tn, d') /\ keeps U d d' /\
    ((tn = 0 /\ d' = d /\ nFreeTnodes d = 0) \/
     (tn <> 0 /\ nFreeTnodes d - 1 <= nFreeTnodes d' /\ exists fl', owned d' (tn :: U) fl')).
Proof.
  intros Ho. unfold yaffs_GetTnodeRaw. rewrite get_st_bind.
  set (more := if freeTnodes d =? 0 then _ else _).
  assert (exists r d1, more d = Some (r, d1) /\ keeps U d d1 /\
    ((nFreeTnodes d = 0 /\ d1 = d /\ freeTnodes d1 = 0) \/
     exists fl', owned d1 U fl' /\ fl' <> [] /\ nFreeTnodes d <= nFreeTnodes d1)) as (r & d1 & E & Hk & Hcase).
  { unfold more. destruct (Z.eqb_spec (freeTnodes d) 0) as [H0|H0].
    - assert (nFreeTnodes d = 0) as Hz.
      { rewrite (ow_count _ _ _ Ho). destruct fl as [|a fl]; [done|]. destruct (ow_chain _ _ _ Ho) as [Ha _].
        destruct (ow_nodes _ _ _ Ho a) as [Hr _]; [rewrite elem_of_app, elem_of_cons; tauto|]. lia. }
      destruct (create_tnodes_ok d U fl YAFFS_ALLOCATION_NTNODES Ho ltac:(done)) as (r & d1 & E & Hk & [[Hm ->]|(fl' & Ho' & Hne)]).
      + exists r, d. split; [done|]. split; [done|]. left. done.
      + exists r, d1. split; [done|]. split; [done|]. right. exists fl'. split; [done|]. split; [done|]. rewrite (ow_count _ _ _ Ho'). lia.
    - exists YAFFS_OK, d. split; [done|]. split; [apply keeps_refl|]. right. exists fl. split; [done|]. split; [|lia]. intros ->.
      apply H0. apply Ho. }
  rewrite (bind_some _ _ _ _ _ E), get_st_bind. destruct Hcase as [(Hm & -> & H0)|(fl' & Ho1 & Hfl & Hle)].
  { rewrite H0. exists 0, d. split; [done|]. split; [done|]. by left. }
  destruct fl' as [|a fl']; [done|]. destruct Ho1 as [Hg Hn Hnd [Ha Hc] Hct].
  destruct (Hn a) as (Har & node & Hnode & Hok); [apply elem_of_app; right; apply elem_of_cons; by left|].
  pose proof (node_long _ _ _ _ Hg Hok). rewrite Ha. destruct (Z.eqb_spec a 0); [lia|].
  rewrite (bind_some _ _ _ _ _ (internal_ok a 0 node d1 Hnode ltac:(lia))), (bind_some (set_free _ _) _ _ _ _ eq_refl).
  eexists a, _. split; [reflexivity|]. split; [by destruct Hk|]. right. split; [done|]. split; [cbn; lia|]. exists fl'.
  split; cbn; [done | | | | cbn in Hct; lia].
  - intros b Hb. apply Hn. rewrite elem_of_app, elem_of_cons in *. rewrite elem_of_app in Hb. tauto.
  - by rewrite <- Permutation_middle in Hnd.
  - unfold word_of in Hc. by rewrite Hnode in Hc.
Qed.

(** A clean tnode, or NULL. *)
Lemma get_tnode_ok d U fl : owned d U fl ->
  exists tn d', yaffs_GetTnode garbage d = Some (tn, d') /\ keeps U d d' /\
    ((tn = 0 /\ d' = d /\ nFreeTnodes d = 0) \/
     (tn <> 0 /\ nFreeTnodes d - 1 <= nFreeTnodes d' /\ (exists fl', owned d' (tn :: U) fl') /\ heap d' !! tn = Some (blank (tnodeWidth d)))).
Proof.
  intros Ho. unfold yaffs_GetTnode. destruct (get_raw_ok d U fl Ho) as (tn & d1 & E & Hk & Hcase).
  rewrite (bind_some _ _ _ _ _ E). destruct Hcase as [(-> & -> & Hm)|(Htn & Hle & fl' & Ho1)].
  { exists 0, d. split; [done|]. split; [done|]. by left. }
  destruct (Z.eqb_spec tn 0); [done|]. rewrite get_st_bind. pose proof Ho1 as [Hg Hn Hnd Hc Hct].
  destruct (Hn tn) as (Har & node & Hnode & Hok); [apply elem_of_cons; by left|].
  rewrite (bind_some _ _ _ _ _ (store_tnode_ok tn node _ d1 Hnode)). eexists tn, _. split; [reflexivity|].
  cbn [app] in Hnd. apply NoDup_cons in Hnd as [Hnot Hnd].
  assert (forall a, a ∈ U ++ fl' -> <[tn := replicate (tnode_words (tnodeWidth d1)) 0]> (heap d1) !! a = heap d1 !! a) as Hkeep.
  { intros a Ha. apply lookup_insert_ne. intros <-. by apply Hnot. }
  split; [split; cbn; try apply Hk; intros a Ha; rewrite Hkeep; [by apply Hk | apply elem_of_app; by left]|].
  right. split; [done|]. split; [done|]. split.
  - exists fl'. split; cbn; [done | | by constructor | | done].
    + intros a [-> |Ha]%elem_of_cons.
      * split; [done|]. rewrite lookup_insert_eq. eexists. split; [done|]. apply blank_ok.
      * rewrite Hkeep by done. apply Hn, elem_of_cons. by right.
    + apply (chain_frame (heap d1)); [|done]. intros a Ha. apply Hkeep, elem_of_app. by right.
  - cbn. rewrite lookup_insert_eq. unfold blank. by rewrite (kp_width _ _ _ Hk).
Qed.

(** ** Finding and adding *)

Definition dlookup (d : yaffs_Device) (l : nat) (p c : Z) : Z :=
  lookup_at (tnodeWidth d) (tnodeMask d) (chunkGroupBits d) (heap d) l p c.

Lemma dlookup_frame A d d' l p : keeps A d d' -> (forall a, a ∈ nodes_at (heap d) l p -> a ∈ A) ->
  nodes_at (heap d') l p = nodes_at (heap d) l p /\ (forall c, leaf_at (heap d') l p c = leaf_at (heap d) l p c) /\
  (forall c, dlookup d' l p c = dlookup d l p c).
Proof.
  intros [E1 E2 E3 Hh] Hs.
  destruct (tree_frame (tnodeWidth d) (tnodeMask d) (chunkGroupBits d) (heap d) (heap d') l p) as (H1 & H2 & H3).
  { intros a Ha. by apply Hh, Hs. }
  split; [done|]. split; [done|]. intros c. unfold dlookup. rewrite E1, E2, E3. apply H3.
Qed.

Lemma find_loop_ok l p c d : (forall a, a ∈ nodes_at (heap d) l p -> exists node, heap d !! a = Some node /\ (8 <= length node)%nat) ->
  find_loop l p c d = Some (leaf_at (heap d) l p c, d).
Proof.
  revert p. induction l as [|l IH]; intros p Hn; [done|]. cbn [find_loop leaf_at].
  destruct (Z.eqb_spec p 0) as [-> |Hp]; [done|]. pose proof (child_lt c (S l)) as Hx. unfold YAFFS_NTNODES_INTERNAL in Hx.
  destruct (Hn p) as (node & Hnode & HL); [by apply nodes_at_head|].
  rewrite (bind_some _ _ _ _ _ (internal_ok p (child c (S l)) node d Hnode ltac:(lia))).
  replace (nth (child c (S l)) node 0) with (word_of (heap d) p (child c (S l))).
  2:{ unfold word_of. by rewrite Hnode. }
  apply IH. intros a Ha. apply Hn. rewrite (nodes_at_child (heap d) l p _ Hp Hx). apply elem_of_app. by left.
Qed.

(** A tnode in use gets other contents. *)
Lemma owned_store d U fl p node : owned d U fl -> p ∈ U -> node_ok (tnodeWidth d) node ->
  owned (with_heap d (<[p := node]> (heap d))) U fl.
Proof.
  intros [Hg Hn Hnd Hc Hk] Hp Hok. split; cbn; [done | | done | | done].
  - intros a Ha. destruct (Hn a Ha) as (? & x & ? & ?). split; [done|]. destruct (decide (a = p)) as [-> |Hne].
    + rewrite lookup_insert_eq. by exists node.
    + rewrite lookup_insert_ne by done. by exists x.
  - apply (chain_frame (heap d)); [|done]. intros a Ha. apply lookup_insert_ne. intros <-.
    apply NoDup_app in Hnd as (_ & Hdis & _). by apply (Hdis p).
Qed.

(** The outcome of adding a path for [c] below [p]. *)
Definition added (d : yaffs_Device) (U : list Z) (l : nat) (p c r : Z) (d' : yaffs_Device) : Prop :=
  (exists fl', owned d' (nodes_at (heap d') l p ++ U) fl') /\ keeps U d d' /\
  (forall c', dlookup d' l p c' = dlookup d l p c') /\
  (forall c', leaf_at (heap d) l p c' <> 0 -> leaf_at (heap d') l p c' = leaf_at (heap d) l p c') /\ r = leaf_at (heap d') l p c /\
  (r = 0 -> nFreeTnodes d < Z.of_nat l).

Lemma add_below d U fl l p c r d' : owned d (nodes_at (heap d) (S l) p ++ U) fl -> p <> 0 ->
  let x := child c (S l) in let q := word_of (heap d) p x in
  added d (p :: others (heap d) l p x ++ U) l q c r d' -> added d U (S l) p c r d'.
Proof.
  intros Ho Hp x q ((fl' & Ho') & Hk & Hl & Hf & Hr & Hm). pose proof (child_lt c (S l)) as Hx. fold x in Hx.
  pose proof Hk as [E1 E2 E3 Hh].
  destruct (subtree_changed (tnodeWidth d) (tnodeMask d) (chunkGroupBits d) (heap d) (heap d') l p x Hp Hx) as (Hw & Hn & Hlf & Hlk).
  { intros a Ha. apply Hh. rewrite elem_of_cons, elem_of_app in *. tauto. }
  { intros c'. specialize (Hl c'). unfold dlookup in Hl. by rewrite E1, E2, E3 in Hl. }
  split; [|split; [|split; [|split; [|split]]]].
  - exists fl'. eapply owned_perm; [|exact Ho']. rewrite Hn. fold q. solve_Permutation.
  - apply (keeps_sub _ _ _ _ Hk). intros a Ha. rewrite elem_of_cons, elem_of_app. tauto.
  - intros c'. unfold dlookup. rewrite E1, E2, E3. apply Hlk.
  - intros c' Hc'. rewrite Hlf. case_decide as He; [|done]. rewrite leaf_below, He in Hc' |- * by done. by apply Hf.
  - cbn [leaf_at]. destruct (Z.eqb_spec p 0); [done|]. fold x. by rewrite Hw.
  - intros H0. specialize (Hm H0). lia.
Qed.

(** A missing child stays missing ([new = 0]) or becomes a blank tnode. *)
Lemma hook_null d U fl l p x : owned d (nodes_at (heap d) (S l) p ++ U) fl -> p <> 0 -> (x < YAFFS_NTNODES_INTERNAL)%nat ->
  word_of (heap d) p x = 0 -> set_internal p x 0 d = Some (tt, d).
Proof.
  intros Ho Hp Hx H0. unfold YAFFS_NTNODES_INTERNAL in Hx.
  destruct (ow_nodes _ _ _ Ho p) as (_ & node & Hnode & Hok).
  { apply elem_of_app. left. apply elem_of_app. left. by apply nodes_at_head. }
  pose proof (node_long _ _ _ _ (ow_geo _ _ _ Ho) Hok) as HL. rewrite (set_internal_ok p x 0 node d Hnode ltac:(lia)).
  unfold word_of in H0. rewrite Hnode in H0. change (default [] (Some ?y)) with y in H0.
  destruct (lookup_lt_is_Some_2 node x) as [v Hv]; [lia|]. rewrite (nth_lookup_Some _ _ _ _ Hv) in H0. subst v.
  rewrite (list_insert_id _ _ _ Hv), (insert_id _ _ _ Hnode). by destruct d.
Qed.

Lemma hook_new d d1 U fl l p x new : owned d (nodes_at (heap d) (S l) p ++ U) fl -> p <> 0 -> (x < YAFFS_NTNODES_INTERNAL)%nat ->
  word_of (heap d) p x = 0 -> keeps (nodes_at (heap d) (S l) p ++ U) d d1 -> new <> 0 ->
  (exists fl1, owned d1 (new :: nodes_at (heap d) (S l) p ++ U) fl1) -> heap d1 !! new = Some (blank (tnodeWidth d)) ->
  exists d2, set_internal p x new d1 = Some (tt, d2) /\ (exists fl2, owned d2 (nodes_at (heap d2) (S l) p ++ U) fl2) /\
    word_of (heap d2) p x = new /\ keeps U d d2 /\ (forall c, dlookup d2 (S l) p c = dlookup d (S l) p c) /\
    (forall c, leaf_at (heap d) (S l) p c <> 0 -> leaf_at (heap d2) (S l) p c = leaf_at (heap d) (S l) p c) /\ nFreeTnodes d2 = nFreeTnodes d1.
Proof.
  intros Ho Hp Hx H0 Hk Hnew (fl1 & Ho1) Hb.
  destruct (dlookup_frame _ d d1 (S l) p Hk) as (Hn1 & Hf1 & Hl1); [intros a Ha; apply elem_of_app; by left|].
  pose proof Hk as [E1 E2 E3 Hh]. rewrite <- Hn1 in Ho1.
  destruct (ow_nodes _ _ _ Ho1 p) as (_ & node & Hnode & Hok).
  { apply elem_of_app. left. apply elem_of_cons. right. apply elem_of_app. left. by apply nodes_at_head. }
  pose proof (node_long _ _ _ _ (ow_geo _ _ _ Ho1) Hok) as HL. unfold YAFFS_NTNODES_INTERNAL in Hx.
  rewrite (set_internal_ok p x new node d1 Hnode ltac:(lia)).
  destruct (ow_nodes _ _ _ Ho1 new) as (Hnr & _); [apply elem_of_cons; by left|].
  pose proof (ow_nodup _ _ _ Ho1) as Hnd. cbn [app] in Hnd. apply NoDup_cons in Hnd as [Hnot Hnd].
  rewrite !elem_of_app in Hnot. rewrite <- app_assoc in Hnd. apply NoDup_app in Hnd as (Hnd & Hdis & _).
  destruct (subtree_added (tnodeWidth d1) (tnodeMask d1) (chunkGroupBits d1) (heap d1) l p x node new) as (Hw & Hn & Hf & Hl).
  { apply Ho1. } { done. } { done. } { done. } { done. }
  { rewrite <- H0. unfold word_of. by rewrite Hh by (apply elem_of_app; left; by apply nodes_at_head). }
  { done. } { done. } { tauto. } { by rewrite E1. }
  eexists. split; [reflexivity|]. cbn [heap with_heap]. split; [|split; [done|split; [|split; [|split; [|done]]]]].
  - exists fl1. eapply owned_perm; [|apply (owned_store d1 (new :: nodes_at (heap d1) (S l) p ++ U) fl1 p); [done| |]].
    + rewrite Hn. solve_Permutation.
    + apply elem_of_cons. right. apply elem_of_app. left. by apply nodes_at_head.
    + apply node_insert; [done|]. unfold is_u32. lia.
  - split; cbn; [done..|]. intros a Ha. rewrite lookup_insert_ne; [apply Hh, elem_of_app; by right|].
    intros <-. apply (Hdis p); [by apply nodes_at_head|]. apply elem_of_app. by left.
  - intros c. rewrite <- Hl1. unfold dlookup. cbn. apply Hl.
  - intros c Hc. rewrite <- Hf1 in Hc |- *. by apply Hf.
Qed.

Lemma add_loop_ok l p c d U fl : owned d (nodes_at (heap d) l p ++ U) fl -> p <> 0 ->
  exists r d', add_loop garbage l p c 0 d = Some (r, d') /\ added d U l p c r d'.
Proof.
  revert p d U fl. induction l as [|l IH]; intros p d U fl Ho Hp.
  { exists p, d. split; [done|]. split; [by exists fl|]. split; [apply keeps_refl|]. done. }
  pose proof (child_lt c (S l)) as Hx. unfold YAFFS_NTNODES_INTERNAL in Hx. cbn [add_loop].
  destruct (Z.eqb_spec p 0); [done|]. change (negb (0 =? 0)) with false. cbv iota.
  destruct (ow_nodes _ _ _ Ho p) as (_ & node & Hnode & Hok).
  { apply elem_of_app. left. apply elem_of_app. left. by apply nodes_at_head. }
  pose proof (node_long _ _ _ _ (ow_geo _ _ _ Ho) Hok) as HL. set (x := child c (S l)) in *.
  rewrite (bind_some _ _ _ _ _ (internal_ok p x node d Hnode ltac:(lia))).
  assert (word_of (heap d) p x = nth x node 0) as Hw by (unfold word_of; by rewrite Hnode).
  assert (forall d1 fl1, owned d1 (nodes_at (heap d1) (S l) p ++ U) fl1 -> word_of (heap d1) p x <> 0 ->
    exists r d', (internal p x ≫= (fun tn => add_loop garbage l tn c 0)) d1 = Some (r, d') /\ added d1 U (S l) p c r d' /\
      (r = 0 -> nFreeTnodes d1 < Z.of_nat l)) as Hgo.
  { intros d1 fl1 Ho1 Hq. destruct (ow_nodes _ _ _ Ho1 p) as (_ & node1 & Hnode1 & Hok1).
    { apply elem_of_app. left. apply elem_of_app. left. by apply nodes_at_head. }
    pose proof (node_long _ _ _ _ (ow_geo _ _ _ Ho1) Hok1).
    rewrite (bind_some _ _ _ _ _ (internal_ok p x node1 d1 Hnode1 ltac:(lia))).
    assert (word_of (heap d1) p x = nth x node1 0) as Hw1 by (unfold word_of; by rewrite Hnode1). rewrite <- Hw1.
    destruct (IH (word_of (heap d1) p x) d1 (p :: others (heap d1) l p x ++ U) fl1) as (r & d' & E & Ha); [|done|].
    { eapply owned_perm; [|exact Ho1]. rewrite (nodes_at_child (heap d1) l p x Hp Hx). solve_Permutation. }
    exists r, d'. split; [exact E|]. split; [by apply (add_below d1 U fl1 l p c r d')|]. by destruct Ha as (_ & _ & _ & _ & _ & Ha). }
  rewrite <- Hw. destruct (Z.eqb_spec (word_of (heap d) p x) 0) as [H0|H0].
  - replace (if (1 <? S l)%nat && true then _ else _ : St yaffs_Device unit) with (yaffs_GetTnode garbage ≫= fun new => set_internal p x new).
    2:{ by destruct l. }
    destruct (get_tnode_ok d _ fl Ho) as (new & d1 & E & Hk & Hcase).
    destruct Hcase as [(-> & -> & Hm)|(Hnew & Hle & (fl1 & Ho1) & Hb)].
    + rewrite (bind_some _ _ d tt d).
      2:{ rewrite (bind_some _ _ _ _ _ E). by apply (hook_null d U fl l p x). }
      rewrite (bind_some _ _ _ _ _ (internal_ok p x node d Hnode ltac:(lia))), <- Hw, H0. exists 0, d.
      split; [by destruct l|]. split; [by exists fl|]. split; [apply keeps_refl|]. split; [done|].
      split; [done|]. split; [|intros _; lia]. cbn [leaf_at]. destruct (Z.eqb_spec p 0); [done|]. fold x. by rewrite H0, leaf_at_0.
    + destruct (hook_new d d1 U fl l p x new) as (d2 & Es & (fl2 & Ho2) & Hw2 & Hk2 & Hl2 & Hf2 & Hc2); [done.. | by exists fl1 | done|].
      rewrite (bind_some _ _ d tt d2).
      2:{ by rewrite (bind_some _ _ _ _ _ E). }
      destruct (Hgo d2 fl2 Ho2) as (r & d3 & Er & (Ho3 & Hk3 & Hl3 & Hf3 & Hr3 & _) & Hz3); [by rewrite Hw2|]. exists r, d3. split; [exact Er|].
      split; [done|]. split; [by apply (keeps_trans U U d d2 d3)|]. split; [|split; [|split; [done|intros H; specialize (Hz3 H); lia]]].
      * intros c'. by rewrite Hl3.
      * intros c' Hc'. rewrite <- (Hf2 _ Hc') in Hc' |- *. by apply Hf3.
  - rewrite andb_false_r. replace (if (S l =? 1)%nat then mret tt else mret tt : St yaffs_Device unit) with (mret tt : St yaffs_Device unit) by (by destruct (S l =? 1)%nat).
    rewrite ret_bind. destruct (Hgo d fl) as (r & d' & E & Ha & _); [done..|]. by exists r, d'.
Qed.

(** A new root above a tree. *)
Lemma child_0 l : child 0 l = 0%nat.
Proof. unfold child. by rewrite Z.shiftr_0_l, Z.land_0_l. Qed.

Lemma child_top c l : 0 <= c -> c / 16 < 8 ^ Z.of_nat (S l) -> child c (S l) = 0%nat <-> c / 16 < 8 ^ Z.of_nat l.
Proof.
  intros Hc Hb. rewrite child_div. rewrite Nat2Z.inj_succ, Z.pow_succ_r in Hb by lia.
  pose proof (Z.pow_pos_nonneg 8 (Z.of_nat l) ltac:(lia) ltac:(lia)) as Hpos. pose proof (Z.div_pos c 16 Hc ltac:(lia)) as Hc'.
  assert (0 <= c / 16 / 8 ^ Z.of_nat l < 8) as Hd by (split; [apply Z.div_pos; lia | apply Z.div_lt_upper_bound; lia]).
  rewrite Z.mod_small by done. split; intros H.
  - assert (c / 16 / 8 ^ Z.of_nat l = 0) as H0 by lia. apply Z.div_small_iff in H0; lia.
  - rewrite Z.div_small by lia. done.
Qed.

Lemma root_above w mask gb h l p new : geometry w mask gb -> p <> 0 -> new <> 0 -> h !! new = Some (blank w) -> new ∉ nodes_at h l p ->
  let h' := <[new := <[0%nat := p]> (blank w)]> h in
  nodes_at h' (S l) new ≡ₚ new :: nodes_at h l p /\ leaf_at h' (S l) new 0 = leaf_at h l p 0 /\
  (forall c, 0 <= c -> c / 16 < 8 ^ Z.of_nat (S l) ->
     lookup_at w mask gb h' (S l) new c = if c / 16 <? 8 ^ Z.of_nat l then lookup_at w mask gb h l p c else 0).
Proof.
  intros Hg Hp Hnew Hb Hnot h'. assert (0 < length (blank w))%nat as HL.
  { pose proof (node_long w mask gb _ Hg (blank_ok w)). lia. }
  pose proof (fun i => word_insert h new 0 (blank w) p i Hb HL) as Hw. fold h' in Hw.
  assert (others h l new 0 = []) as Hot.
  { unfold others. cbn [seq map concat app]. change (YAFFS_NTNODES_INTERNAL - 1)%nat with 7%nat. cbn [seq map concat].
    by rewrite !(blank_word w h new _ Hb), nodes_at_0. }
  destruct (tree_frame w mask gb h h' l p) as (Hn & Hf & Hl).
  { intros a Ha. unfold h'. apply lookup_insert_ne. by intros <-. }
  destruct (child_replaced w mask gb h h' l new 0 p) as (H1 & H2 & H3); [done|unfold YAFFS_NTNODES_INTERNAL; lia|by rewrite Hw| | |].
  { intros i Hi. by rewrite Hw, decide_False. }
  { rewrite Hot. intros a Ha. by apply elem_of_nil in Ha. }
  rewrite Hot in H1. split; [rewrite H1, Hn; solve_Permutation|]. split.
  - rewrite H2, decide_True; [apply Hf|apply child_0].
  - intros c Hc Hb'. rewrite H3. pose proof (child_top c l Hc Hb') as Ht. destruct (Z.ltb_spec (c / 16) (8 ^ Z.of_nat l)) as [Hlt|Hge].
    + rewrite decide_True by tauto. apply Hl.
    + rewrite decide_False by lia. by apply (blank_lookup w mask gb).
Qed.

Lemma grow_tree_ok n l p d U fl : Z.of_nat n <= nFreeTnodes d -> owned d (nodes_at (heap d) l p ++ U) fl -> p <> 0 ->
  exists p' d', grow garbage n p d = Some (p', d') /\ p' <> 0 /\ (exists fl', owned d' (nodes_at (heap d') (n + l) p' ++ U) fl') /\
    keeps U d d' /\ leaf_at (heap d') (n + l) p' 0 = leaf_at (heap d) l p 0 /\
    (forall c, 0 <= c -> c / 16 < 8 ^ Z.of_nat (n + l) ->
       dlookup d' (n + l) p' c = if c / 16 <? 8 ^ Z.of_nat l then dlookup d l p c else 0) /\
    nFreeTnodes d - Z.of_nat n <= nFreeTnodes d'.
Proof.
  revert l p d fl. induction n as [|n IH]; intros l p d fl Hm Ho Hp; cbn [grow].
  { exists p, d. split; [done|]. split; [done|]. split; [by exists fl|]. split; [apply keeps_refl|]. split; [done|]. split; [|lia].
    intros c Hc Hb. cbn [Nat.add] in Hb. by rewrite (proj2 (Z.ltb_lt (c / 16) (8 ^ Z.of_nat l))). }
  destruct (get_tnode_ok d _ fl Ho) as (new & d1 & E & Hk & [(_ & _ & Hno)|(Hnew & Hle & (fl1 & Ho1) & Hb)]); [lia|].
  rewrite (bind_some _ _ _ _ _ E). destruct (Z.eqb_spec new 0); [done|]. pose proof Hk as [E1 E2 E3 Hh].
  destruct (dlookup_frame _ d d1 l p Hk) as (Hn1 & Hf1 & Hl1); [intros a Ha; apply elem_of_app; by left|].
  pose proof (ow_geo _ _ _ Ho1) as Hg. rewrite <- E1 in Hb. pose proof (node_long _ _ _ _ Hg (blank_ok _)) as HL.
  rewrite (bind_some _ _ _ _ _ (set_internal_ok new 0 p (blank (tnodeWidth d1)) d1 Hb ltac:(lia))).
  set (d2 := with_heap _ _). pose proof (ow_nodup _ _ _ Ho1) as Hnd. cbn [app] in Hnd. apply NoDup_cons in Hnd as [Hnot Hnd].
  rewrite !elem_of_app in Hnot.
  destruct (root_above (tnodeWidth d1) (tnodeMask d1) (chunkGroupBits d1) (heap d1) l p new) as (H1 & H2 & H3); [done..| |].
  { rewrite Hn1. tauto. }
  destruct (IH (S l) new d2 fl1) as (p' & d' & Eg & Hp' & Ho' & Hk' & Hf' & Hl' & Hc'); [cbn; lia| |done|].
  { eapply owned_perm; [|apply (owned_store d1 _ fl1 new _ Ho1)].
    - cbn [heap with_heap d2]. rewrite H1, Hn1. done.
    - apply elem_of_cons. by left.
    - apply node_insert; [apply blank_ok|]. destruct (ow_nodes _ _ _ Ho p) as (? & _); [|unfold is_u32; lia].
      apply elem_of_app. left. apply elem_of_app. left. by apply nodes_at_head. }
  exists p', d'. rewrite Nat.add_succ_r in *. change (S n + l)%nat with (S (n + l)). split; [exact Eg|]. split; [done|]. split; [done|]. split; [|split; [|split; [|cbn in Hc'; lia]]].
  - apply (keeps_trans U U d d2 d'); [|done|done]. split; [done..|]. intros a Ha. cbn. rewrite lookup_insert_ne by (intros ->; tauto).
    apply Hh, elem_of_app. by right.
  - rewrite Hf'. cbn [heap with_heap d2]. by rewrite H2, Hf1.
  - intros c Hc Hb'. rewrite (Hl' c Hc Hb'), <- Hl1. destruct (Z.ltb_spec (c / 16) (8 ^ Z.of_nat (S l))) as [Hlt|Hge].
    + unfold dlookup at 1. cbn [heap with_heap d2 tnodeWidth tnodeMask chunkGroupBits]. by apply H3.
    + pose proof (Z.pow_le_mono_r 8 (Z.of_nat l) (Z.of_nat (S l)) ltac:(lia) ltac:(lia)).
      destruct (Z.ltb_spec (c / 16) (8 ^ Z.of_nat l)); [lia | done].
Qed.

(** ** The chunk map of a file *)

Definition levels (f : yaffs_FileStructure) : nat := Z.to_nat (topLevel f).
Definition file_nodes (d : yaffs_Device) (f : yaffs_FileStructure) : list Z := nodes_at (heap d) (levels f) (top f).
Definition file_map (d : yaffs_Device) (f : yaffs_FileStructure) (c : Z) : Z :=
  if c / 16 <? 8 ^ topLevel f then dlookup d (levels f) (top f) c else 0.

(** The first tnode of level 0 is always there. *)
Record file_ok (d : yaffs_Device) (f : yaffs_FileStructure) : Prop := {
  fo_level : 0 <= topLevel f <= YAFFS_TNODES_MAX_LEVEL;
  fo_first : leaf_at (heap d) (levels f) (top f) 0 <> 0;
}.

Definition chunk_id (c : Z) : Prop := 0 <= c <= YAFFS_MAX_CHUNK_ID.

Lemma fo_top d f : file_ok d f -> top f <> 0.
Proof. intros [_ Hf] Ht. rewrite Ht, leaf_at_0 in Hf. done. Qed.

Lemma levels_id d f : file_ok d f -> Z.of_nat (levels f) = topLevel f.
Proof. intros [H _]. unfold levels. lia. Qed.

Lemma sane_ok d f c : file_ok d f -> chunk_id c -> sane f c = true.
Proof.
  intros [H _] [Hc Hc']. unfold sane. rewrite (proj2 (Z.ltb_ge _ _) (proj1 H)), (proj2 (Z.ltb_ge _ _) (proj2 H)).
  by rewrite (proj2 (Z.ltb_ge _ _) Hc').
Qed.

(** Other tnodes do not matter. *)
Lemma file_frame A d d' f : keeps A d d' -> (forall a, a ∈ file_nodes d f -> a ∈ A) -> file_ok d f ->
  file_nodes d' f = file_nodes d f /\ file_ok d' f /\ (forall c, file_map d' f c = file_map d f c) /\
  (forall c, leaf_at (heap d') (levels f) (top f) c = leaf_at (heap d) (levels f) (top f) c).
Proof.
  intros Hk Hs [H1 H2]. destruct (dlookup_frame A d d' (levels f) (top f) Hk Hs) as (Hn & Hf & Hl).
  split; [done|]. split; [split; [done | by rewrite Hf]|]. split; [|done]. intros c. unfold file_map. by rewrite Hl.
Qed.

Lemma find_ok d U fl f c : owned d (file_nodes d f ++ U) fl -> file_ok d f -> chunk_id c ->
  exists r, yaffs_FindLevel0Tnode f c d = Some (r, d) /\
    ((r = 0 /\ file_map d f c = 0) \/
     (r <> 0 /\ c / 16 < 8 ^ topLevel f /\ r = leaf_at (heap d) (levels f) (top f) c /\
      exists node, heap d !! r = Some node /\ node_ok (tnodeWidth d) node /\
        file_map d f c = entry (tnodeWidth d) (tnodeMask d) (chunkGroupBits d) node c)).
Proof.
  intros Ho Hf Hc. unfold yaffs_FindLevel0Tnode. rewrite (sane_ok d f c Hf Hc). cbn [negb].
  destruct (tallness_ok c Hc) as (t & Et & Ht & HL). rewrite (bind_some _ _ d t d) by (unfold lift; by rewrite Et).
  specialize (HL (levels f)). rewrite (levels_id d f Hf) in HL. unfold file_map. destruct (Z.ltb_spec (topLevel f) t) as [Hlt|Hge].
  { exists 0. split; [done|]. left. split; [done|]. destruct (Z.ltb_spec (c / 16) (8 ^ topLevel f)); [lia | done]. }
  destruct (Z.ltb_spec (c / 16) (8 ^ topLevel f)); [|lia]. rewrite find_loop_ok.
  2:{ intros a Ha. destruct (ow_nodes _ _ _ Ho a) as (_ & node & Hn & Hok); [rewrite !elem_of_app; tauto|].
      exists node. split; [done|]. apply (node_long _ _ _ _ (ow_geo _ _ _ Ho) Hok). }
  fold (levels f). unfold dlookup, lookup_at. set (r := leaf_at _ _ _ _). exists r. split; [done|].
  destruct (Z.eqb_spec r 0) as [Hr|Hr]; [by left|]. right. split; [done|]. split; [done|]. split; [done|].
  destruct (ow_nodes _ _ _ Ho r) as (_ & node & Hn & Hok); [rewrite !elem_of_app; left; left; by apply leaf_in|].
  exists node. split; [done|]. split; [done|]. by rewrite Hn.
Qed.

Lemma add_below_file d U fl f c : owned d (file_nodes d f ++ U) fl -> file_ok d f ->
  exists r d', (if 0 <? topLevel f then tn ← add_loop garbage (Z.to_nat (topLevel f)) (top f) c 0; mret (tn, f)
                else _ ← mret tt; mret (top f, f)) d = Some ((r, f), d') /\ added d U (levels f) (top f) c r d'.
Proof.
  intros Ho Hf. pose proof (fo_top _ _ Hf) as Ht. destruct (Z.ltb_spec 0 (topLevel f)) as [Hlt|Hge].
  - destruct (add_loop_ok (levels f) (top f) c d U fl Ho Ht) as (r & d' & E & Ha). exists r, d'. split; [|done].
    by rewrite (bind_some _ _ _ _ _ E).
  - exists (top f), d. split; [done|]. unfold levels. replace (Z.to_nat (topLevel f)) with 0%nat by (destruct Hf; lia).
    split; [exists fl; unfold file_nodes, levels in Ho; by replace (Z.to_nat (topLevel f)) with 0%nat in Ho by (destruct Hf; lia)|].
    split; [apply keeps_refl|]. done.
Qed.

Lemma added_file d U f c r d' : file_ok d f -> added d U (levels f) (top f) c r d' ->
  file_ok d' f /\ forall c', file_map d' f c' = file_map d f c'.
Proof.
  intros [H1 H2] (_ & _ & Hl & Hf & _). split.
  - split; [done|]. by rewrite Hf.
  - intros c'. unfold file_map. by rewrite Hl.
Qed.

(** The tree is made tall enough. *)
Lemma grow_file d U fl f t : owned d (file_nodes d f ++ U) fl -> file_ok d f -> topLevel f < t <= YAFFS_TNODES_MAX_LEVEL ->
  t - topLevel f <= nFreeTnodes d ->
  exists p d', grow garbage (Z.to_nat (t - topLevel f)) (top f) d = Some (p, d') /\
    let f' := mkFileStructure t p in
    (exists fl', owned d' (file_nodes d' f' ++ U) fl') /\ keeps U d d' /\ file_ok d' f' /\
    (forall c, 0 <= c -> file_map d' f' c = file_map d f c) /\ nFreeTnodes d - (t - topLevel f) <= nFreeTnodes d'.
Proof.
  intros Ho Hf Ht Hm. pose proof (levels_id _ _ Hf) as Hlev.
  destruct (grow_tree_ok (Z.to_nat (t - topLevel f)) (levels f) (top f) d U fl ltac:(lia) Ho (fo_top _ _ Hf))
    as (p & d' & E & Hp & Ho' & Hk & Hf' & Hl & Hct). exists p, d'. split; [exact E|]. cbv zeta.
  replace (Z.to_nat (t - topLevel f) + levels f)%nat with (levels (mkFileStructure t p)) in * by (unfold levels; cbn; lia).
  split; [exact Ho'|]. split; [exact Hk|]. pose proof (fo_level _ _ Hf) as H0. split; [|split; [|lia]].
  - split; cbn [topLevel top]; [lia|]. rewrite Hf'. apply (fo_first _ _ Hf).
  - intros c Hc. unfold file_map. cbn [topLevel top]. replace (Z.of_nat (levels (mkFileStructure t p))) with t in Hl by (unfold levels; cbn; lia).
    pose proof (Z.pow_le_mono_r 8 (topLevel f) t ltac:(lia) ltac:(lia)).
    destruct (Z.ltb_spec (c / 16) (8 ^ t)) as [Hlt|Hge].
    + rewrite (Hl c Hc Hlt), Hlev. done.
    + destruct (Z.ltb_spec (c / 16) (8 ^ topLevel f)); [lia | done].
Qed.

Lemma add_ok d U fl f c : owned d (file_nodes d f ++ U) fl -> file_ok d f -> chunk_id c ->
  c / 16 < 8 ^ topLevel f \/ YAFFS_TNODES_MAX_LEVEL <= nFreeTnodes d ->
  exists r f' d', yaffs_AddOrFindLevel0Tnode garbage f c 0 d = Some ((r, f'), d') /\
    (exists fl', owned d' (file_nodes d' f' ++ U) fl') /\ keeps U d d' /\ file_ok d' f' /\
    (forall c', 0 <= c' -> file_map d' f' c' = file_map d f c') /\ c / 16 < 8 ^ topLevel f' /\
    r = leaf_at (heap d') (levels f') (top f') c /\ (r = 0 -> nFreeTnodes d < 2 * YAFFS_TNODES_MAX_LEVEL).
Proof.
  intros Ho Hf Hc Htall. unfold yaffs_AddOrFindLevel0Tnode. rewrite (sane_ok d f c Hf Hc). cbn [negb].
  destruct (tallness_ok c Hc) as (t & Et & Ht & HL). rewrite (bind_some _ _ d t d) by (unfold lift; by rewrite Et).
  destruct (Z.ltb_spec (topLevel f) t) as [Hlt|Hge].
  - destruct Htall as [Htall|Hm].
    { specialize (HL (levels f)). rewrite (levels_id d f Hf) in HL. lia. }
    destruct (grow_file d U fl f t Ho Hf ltac:(lia) ltac:(pose proof (fo_level _ _ Hf); lia)) as (p & d1 & E & (fl1 & Ho1) & Hk1 & Hf1 & Hl1 & Hct1).
    set (f1 := mkFileStructure t p) in *. rewrite (bind_some _ _ d f1 d1) by (by rewrite (bind_some _ _ _ _ _ E)).
    destruct (add_below_file d1 U fl1 f1 c Ho1 Hf1) as (r & d2 & E2 & Ha). exists r, f1, d2. split; [exact E2|].
    destruct (added_file _ _ _ _ _ _ Hf1 Ha) as [Hf2 Hl2]. destruct Ha as (Ho2 & Hk2 & _ & _ & Hr & Hz).
    split; [done|]. split; [by apply (keeps_trans U U d d1 d2)|]. split; [done|].
    split; [intros c' Hc'; rewrite Hl2; by apply Hl1|]. split.
    { specialize (HL (levels f1)). rewrite (levels_id d1 f1 Hf1) in HL. apply HL. cbn. lia. }
    split; [done|]. intros H0. specialize (Hz H0). rewrite (levels_id d1 f1 Hf1) in Hz. cbn in Hz. pose proof (fo_level _ _ Hf). lia.
  - rewrite ret_bind. destruct (add_below_file d U fl f c Ho Hf) as (r & d2 & E2 & Ha). exists r, f, d2. split; [exact E2|].
    destruct (added_file _ _ _ _ _ _ Hf Ha) as [Hf2 Hl2]. destruct Ha as (Ho2 & Hk2 & _ & _ & Hr & Hz).
    split; [done|]. split; [done|]. split; [done|]. split; [intros c' _; apply Hl2|]. pose proof (fo_level _ _ Hf).
    specialize (HL (levels f)). rewrite (levels_id d f Hf) in HL, Hz. split; [apply HL; lia|]. split; [done|]. intros H0. specialize (Hz H0). unfold YAFFS_TNODES_MAX_LEVEL in *. lia.
Qed.

(** A field of the tnode of [c] is written. *)
Lemma put_file d U fl f c v node : owned d (file_nodes d f ++ U) fl -> file_ok d f -> 0 <= c -> c / 16 < 8 ^ topLevel f ->
  let r := leaf_at (heap d) (levels f) (top f) c in
  r <> 0 -> heap d !! r = Some node -> 0 <= v < 2 ^ (tnodeWidth d + chunkGroupBits d) ->
  exists node', yaffs_PutLevel0Tnode (tnodeWidth d) (tnodeMask d) (chunkGroupBits d) node c v = Some node' /\
    let d' := with_heap d (<[r := node']> (heap d)) in
    owned d' (file_nodes d' f ++ U) fl /\ keeps U d d' /\ file_ok d' f /\
    (forall c', 0 <= c' -> file_map d' f c' = if c' =? c then group (chunkGroupBits d) v else file_map d f c').
Proof.
  intros Ho Hf Hc Hb r Hr Hnode Hv. pose proof (ow_geo _ _ _ Ho) as Hg.
  assert (r ∈ file_nodes d f) as Hin by (by apply leaf_in).
  destruct (ow_nodes _ _ _ Ho r) as (_ & n0 & Hn0 & Hok); [rewrite !elem_of_app; by left; left|].
  rewrite Hnode in Hn0. injection Hn0 as <-.
  destruct (entry_put _ _ _ Hg node c v Hok Hv) as (node' & E & Hok' & He). exists node'. split; [exact E|]. intros d'.
  pose proof (ow_nodup _ _ _ Ho) as Hnd. rewrite <- app_assoc in Hnd. apply NoDup_app in Hnd as (Hnd & Hdis & _).
  destruct (leaf_update (tnodeWidth d) (tnodeMask d) (chunkGroupBits d) (heap d) (levels f) (top f) c node' Hnd Hr) as [Hn Hlf]. fold r in Hn, Hlf. pose proof (levels_id _ _ Hf) as Hlev.
  split; [|split; [|split]].
  - unfold file_nodes. cbn [heap with_heap d']. rewrite Hn. apply owned_store; [done| |done]. rewrite elem_of_app. by left.
  - split; [done..|]. intros a Ha. cbn. apply lookup_insert_ne. intros <-. apply (Hdis r Hin). rewrite elem_of_app. by left.
  - destruct Hf as [H1 H2]. split; [done|]. cbn [heap with_heap d']. by rewrite Hlf.
  - intros c' Hc'. unfold file_map, dlookup, lookup_at. cbn [heap with_heap d' tnodeWidth tnodeMask chunkGroupBits]. rewrite Hlf.
    destruct (Z.eqb_spec c' c) as [-> |Hne].
    + rewrite (proj2 (Z.ltb_lt _ _) Hb). fold r. destruct (Z.eqb_spec r 0); [done|]. rewrite lookup_insert_eq.
      change (default [] (Some ?y)) with y. by rewrite He, Z.eqb_refl.
    + destruct (Z.ltb_spec (c' / 16) (8 ^ topLevel f)) as [Hb'|]; [|done]. set (r' := leaf_at _ _ _ c').
      destruct (Z.eqb_spec r' 0) as [|Hr']; [done|]. destruct (decide (r' = r)) as [Heq|Hneq]; [|by rewrite lookup_insert_ne].
      rewrite Heq, lookup_insert_eq, Hnode. change (default [] (Some ?y)) with y. rewrite He.
      destruct (Z.eqb_spec (slot c') (slot c)) as [Hs|]; [|done]. exfalso. apply Hne. rewrite !slot_mod in Hs.
      pose proof (leaf_inj _ _ _ c c' Hnd Hc Hc' Hr (eq_sym Heq)) as Hd. rewrite Hlev, !Z.mod_small in Hd by
        (split; [apply Z.div_pos; lia | done]).
      rewrite (Z.div_mod c' 16), (Z.div_mod c 16) by lia. lia.
Qed.
End allocation.
