(* ===== verification/YaffsPrune.v ===== *)
(** * Pruning the chunk map of a YAFFS file (yaffs2/yaffs_guts.c)

    A file that has shrunk gives back the tnodes that hold no chunk.  With sixteen bit
    fields pruning keeps every chunk of the file; with wider fields the code looks at a
    part of each tnode of level 0 only, and loses chunks. *)

From S2P Require Import Prelude YaffsTnode YaffsTree.

(** ** One child *)

(** The subtree at place [i] of [p] became [r]. *)
Lemma replace_child d d1 U fl1 l p i r : p <> 0 -> (i < YAFFS_NTNODES_INTERNAL)%nat ->
  owned d1 (nodes_at (heap d1) l r ++ p :: others (heap d) l p i ++ U) fl1 -> keeps (p :: others (heap d) l p i ++ U) d d1 ->
  exists d2, set_internal p i r d1 = Some (tt, d2) /\ owned d2 (nodes_at (heap d2) (S l) p ++ U) fl1 /\ keeps U d d2 /\
    (forall j, word_of (heap d2) p j = if decide (i = j) then r else word_of (heap d) p j) /\
    (forall c, leaf_at (heap d2) (S l) p c = if decide (child c (S l) = i) then leaf_at (heap d1) l r c else leaf_at (heap d) (S l) p c) /\
    (forall c, dlookup d2 (S l) p c = if decide (child c (S l) = i) then dlookup d1 l r c else dlookup d (S l) p c).
Proof.
  intros Hp Hi Ho [E1 E2 E3 Hh]. destruct (ow_nodes _ _ _ Ho p) as (_ & node & Hnode & Hok).
  { rewrite !elem_of_app, elem_of_cons. tauto. }
  pose proof (node_long _ _ _ _ (ow_geo _ _ _ Ho) Hok) as HL. unfold YAFFS_NTNODES_INTERNAL in Hi.
  rewrite (set_internal_ok p i r node d1 Hnode ltac:(lia)). eexists. split; [reflexivity|].
  pose proof (ow_nodup _ _ _ Ho) as Hnd. rewrite <- app_assoc in Hnd. apply NoDup_app in Hnd as (_ & Hdis & Hnd).
  cbn [app] in Hnd. apply NoDup_cons in Hnd as [Hnot _]. rewrite !elem_of_app in Hnot.
  assert (p ∉ nodes_at (heap d1) l r) as Hpr by (intros Ha; apply (Hdis p Ha), elem_of_cons; by left).
  assert (is_u32 r) as Hr.
  { unfold is_u32. destruct (Z.eqb_spec r 0) as [-> |Hr]; [lia|]. destruct (ow_nodes _ _ _ Ho r) as (? & _); [|lia].
    rewrite !elem_of_app. left. left. by apply nodes_at_head. }
  set (h2 := <[p := <[i := r]> node]> (heap d1)). cbn [heap with_heap].
  assert (forall a, a <> p -> h2 !! a = heap d1 !! a) as Hne by (intros a Ha; by apply lookup_insert_ne).
  assert (forall j, word_of h2 p j = if decide (i = j) then r else word_of (heap d) p j) as Hw.
  { intros j. unfold h2. rewrite (word_insert (heap d1) p i node r j Hnode ltac:(lia)). case_decide; [done|].
    unfold word_of. by rewrite Hh by (apply elem_of_cons; by left). }
  destruct (tree_frame (tnodeWidth d) (tnodeMask d) (chunkGroupBits d) (heap d1) h2 l r) as (Hn & Hf & Hl).
  { intros a Ha. apply Hne. by intros ->. }
  destruct (child_replaced (tnodeWidth d) (tnodeMask d) (chunkGroupBits d) (heap d) h2 l p i r Hp Hi) as (H1 & H2 & H3).
  { by rewrite Hw, decide_True. } { intros j Hj. by rewrite Hw, decide_False. }
  { intros a Ha. rewrite Hne by (intros ->; tauto). apply Hh. rewrite elem_of_cons, elem_of_app. tauto. }
  split; [|split; [|split; [|split]]].
  - eapply owned_perm; [|apply (owned_store d1 _ fl1 p _ Ho)].
    + rewrite H1, Hn. solve_Permutation.
    + rewrite elem_of_app, elem_of_cons. tauto.
    + by apply node_insert.
  - split; [done..|]. intros a Ha. cbn. fold h2. rewrite Hne by (intros ->; tauto). apply Hh. rewrite elem_of_cons, elem_of_app. tauto.
  - done.
  - intros c. rewrite H2. case_decide; [apply Hf | done].
  - intros c. unfold dlookup. cbn [heap with_heap tnodeWidth tnodeMask chunkGroupBits]. fold h2. rewrite E1, E2, E3, H3.
    case_decide; [apply Hl | done].
Qed.

(** ** The worker *)

(** Reading a word of a tnode in use. *)
Lemma word_ok d U fl p i : owned d U fl -> p ∈ U -> (i < YAFFS_NTNODES_INTERNAL)%nat ->
  internal p i d = Some (word_of (heap d) p i, d).
Proof.
  intros Ho Hp Hi. destruct (ow_nodes _ _ _ Ho p) as (_ & node & Hnode & Hok); [rewrite elem_of_app; by left|].
  pose proof (node_long _ _ _ _ (ow_geo _ _ _ Ho) Hok) as HL. unfold YAFFS_NTNODES_INTERNAL in Hi.
  rewrite (internal_ok p i node d Hnode ltac:(lia)). unfold word_of. by rewrite Hnode.
Qed.

(** What pruning the tree [p] into [r] does. *)
Record pruned (d : yaffs_Device) (U : list Z) (l : nat) (p : Z) (b : bool) (r : Z) (d' : yaffs_Device) : Prop := {
  pr_owned : exists fl', owned d' (nodes_at (heap d') l r ++ U) fl';
  pr_keeps : keeps U d d';
  pr_lookup : forall c, dlookup d' l r c = dlookup d l p c;
  pr_first : b = false -> r = p /\ (leaf_at (heap d) l p 0 <> 0 -> leaf_at (heap d') l r 0 <> 0);
}.

(** The places of [idx] have been worked on, the others are as they were. *)
Record partly_pruned (d : yaffs_Device) (U : list Z) (l : nat) (p : Z) (b : bool) (idx : list nat) (d' : yaffs_Device) : Prop := {
  pp_owned : exists fl', owned d' (nodes_at (heap d') l p ++ U) fl';
  pp_keeps : keeps U d d';
  pp_lookup : forall c, dlookup d' l p c = dlookup d l p c;
  pp_words : forall j, j ∉ idx -> word_of (heap d') p j = word_of (heap d) p j;
  pp_first : b = false -> leaf_at (heap d) l p 0 <> 0 -> leaf_at (heap d') l p 0 <> 0;
}.

Lemma partly_nil d U fl l p b : owned d (nodes_at (heap d) l p ++ U) fl -> partly_pruned d U l p b [] d.
Proof. intros Ho. split; [by exists fl | apply keeps_refl | done..]. Qed.

Lemma partly_cons d U l p b i idx d1 d2 : partly_pruned d U l p b [i] d1 -> partly_pruned d1 U l p b idx d2 ->
  partly_pruned d U l p b (i :: idx) d2.
Proof.
  intros [A1 A2 A3 A4 A5] [B1 B2 B3 B4 B5]. split; [done | by apply (keeps_trans U U d d1 d2) | | |].
  - intros c. by rewrite B3.
  - intros j Hj. rewrite not_elem_of_cons in Hj. rewrite B4 by tauto. apply A4. rewrite list_elem_of_singleton. tauto.
  - intros Hb Hf. by apply B5, A5.
Qed.

Section below.
Context (l : nat) (rec : Z -> bool -> St yaffs_Device Z).
Context (Hrec : forall p b d U fl, tnodeWidth d = 16 -> owned d (nodes_at (heap d) l p ++ U) fl ->
  exists r d', rec p b d = Some (r, d') /\ pruned d U l p b r d').

Lemma prune_step d U fl p b i : tnodeWidth d = 16 -> owned d (nodes_at (heap d) (S l) p ++ U) fl -> p <> 0 ->
  (i < YAFFS_NTNODES_INTERNAL)%nat ->
  exists d', (if negb (word_of (heap d) p i =? 0) then new ← rec (word_of (heap d) p i) (if (i =? 0)%nat then b else true); set_internal p i new
              else mret tt) d = Some (tt, d') /\ partly_pruned d U (S l) p b [i] d'.
Proof.
  intros Hw Ho Hp Hi. set (q := word_of (heap d) p i). destruct (Z.eqb_spec q 0) as [Hq|Hq]; cbn [negb].
  { exists d. split; [done|]. split; [by exists fl | apply keeps_refl | done..]. }
  destruct (Hrec q (if (i =? 0)%nat then b else true) d (p :: others (heap d) l p i ++ U) fl Hw) as (r & d1 & E & [[fl1 P1] P2 P3 P4]).
  { eapply owned_perm; [|exact Ho]. rewrite (nodes_at_child (heap d) l p i Hp Hi). solve_Permutation. }
  destruct (replace_child d d1 U fl1 l p i r Hp Hi P1 P2) as (d2 & Es & Ho2 & Hk2 & Hw2 & Hf2 & Hl2).
  exists d2. split; [by rewrite (bind_some _ _ _ _ _ E)|]. split.
  - by exists fl1.
  - done.
  - intros c. rewrite Hl2. case_decide as He; [|done]. rewrite P3. unfold dlookup. by rewrite lookup_below, He.
  - intros j Hj. rewrite list_elem_of_singleton in Hj. by rewrite Hw2, decide_False.
  - intros -> Hf. rewrite Hf2. case_decide as He; [|done]. rewrite child_0 in He. subst i. apply P4; [done|].
    by rewrite leaf_below, child_0 in Hf.
Qed.

Lemma prune_loop_ok idx d U fl p b n : tnodeWidth d = 16 -> owned d (nodes_at (heap d) (S l) p ++ U) fl -> p <> 0 ->
  NoDup idx -> Forall (fun i => i < YAFFS_NTNODES_INTERNAL)%nat idx ->
  exists m d', prune_loop (Some rec) idx p b n d = Some (m, d') /\ partly_pruned d U (S l) p b idx d' /\
    (n <= m)%nat /\ (m = 0%nat -> forall j, j ∈ idx -> word_of (heap d') p j = 0).
Proof.
  revert d fl n. induction idx as [|i idx IH]; intros d fl n Hw Ho Hp Hnd HF.
  { exists n, d. split; [done|]. split; [by apply (partly_nil d U fl)|]. split; [done|]. intros _ j Hj. by apply elem_of_nil in Hj. }
  apply NoDup_cons in Hnd as [Hi Hnd]. apply Forall_cons in HF as [Hlt HF]. cbn [prune_loop].
  assert (forall d0, p ∈ nodes_at (heap d0) (S l) p ++ U) as Hin by (intros d0; rewrite elem_of_app; left; by apply nodes_at_head).
  rewrite (bind_some _ _ _ _ _ (word_ok d _ fl p i Ho (Hin d) Hlt)).
  destruct (prune_step d U fl p b i Hw Ho Hp Hlt) as (d1 & E & Hp1). rewrite (bind_some _ _ _ _ _ E).
  destruct (pp_owned _ _ _ _ _ _ _ Hp1) as [fl1 Ho1]. rewrite (bind_some _ _ _ _ _ (word_ok d1 _ fl1 p i Ho1 (Hin d1) Hlt)).
  destruct (IH d1 fl1 (if negb (word_of (heap d1) p i =? 0) then S n else n)) as (m & d2 & E2 & Hp2 & Hnm & Hz); [|done..|].
  { by rewrite (kp_width _ _ _ (pp_keeps _ _ _ _ _ _ _ Hp1)). }
  exists m, d2. split; [exact E2|]. split; [by apply (partly_cons d U (S l) p b i idx d1)|].
  destruct (Z.eqb_spec (word_of (heap d1) p i) 0) as [H0|H0]; cbn [negb] in *; [|split; lia]. split; [done|].
  intros Hm j [-> |Hj]%elem_of_cons; [by rewrite (pp_words _ _ _ _ _ _ _ Hp2)|by apply Hz].
Qed.
End below.

(** At level 0 the loop counts words. *)
Lemma prune_leaf_ok idx d U fl p b n : owned d U fl -> p ∈ U -> Forall (fun i => i < YAFFS_NTNODES_INTERNAL)%nat idx ->
  exists m, prune_loop None idx p b n d = Some (m, d) /\ (n <= m)%nat /\ (m = 0%nat -> forall j, j ∈ idx -> word_of (heap d) p j = 0).
Proof.
  intros Ho Hp. revert n. induction idx as [|i idx IH]; intros n HF.
  { exists n. split; [done|]. split; [done|]. intros _ j Hj. by apply elem_of_nil in Hj. }
  apply Forall_cons in HF as [Hlt HF]. cbn [prune_loop]. rewrite (bind_some _ _ _ _ _ (word_ok d _ fl p i Ho Hp Hlt)), ret_bind.
  rewrite (bind_some _ _ _ _ _ (word_ok d _ fl p i Ho Hp Hlt)).
  destruct (IH (if negb (word_of (heap d) p i =? 0) then S n else n) HF) as (m & E & Hnm & Hz). exists m. split; [exact E|].
  destruct (Z.eqb_spec (word_of (heap d) p i) 0) as [H0|H0]; cbn [negb] in *; [|split; lia]. split; [done|].
  intros Hm j [-> |Hj]%elem_of_cons; [done|by apply Hz].
Qed.

(** With sixteen bit fields a tnode is eight words, and a tnode of zeros is a clean one. *)
Lemma empty_node d U fl p : tnodeWidth d = 16 -> owned d U fl -> p ∈ U ->
  (forall j, j ∈ seq 0 YAFFS_NTNODES_INTERNAL -> word_of (heap d) p j = 0) -> heap d !! p = Some (blank (tnodeWidth d)).
Proof.
  intros Hw Ho Hp Hz. destruct (ow_nodes _ _ _ Ho p) as (_ & node & Hnode & [HL _]); [rewrite elem_of_app; by left|].
  rewrite Hnode. f_equal. rewrite Hw in HL |- *. change (tnode_words 16) with 8%nat in HL. change (blank 16) with (replicate 8 0).
  apply (list_eq_same_length _ _ 8); [done | by rewrite HL|]. intros i x y Hi Hx Hy.
  apply lookup_replicate in Hy as [-> _]. specialize (Hz i). unfold word_of in Hz. rewrite Hnode in Hz.
  change (default [] (Some ?y)) with y in Hz. rewrite (nth_lookup_Some _ _ _ _ Hx) in Hz. apply Hz. apply elem_of_seq.
  unfold YAFFS_NTNODES_INTERNAL. lia.
Qed.

(** A tnode without data goes back to the free list, if it may. *)
Lemma prune_end d d1 U l p b n : tnodeWidth d = 16 -> p <> 0 -> partly_pruned d U l p b (seq 0 YAFFS_NTNODES_INTERNAL) d1 ->
  (n = 0%nat -> forall j, j ∈ seq 0 YAFFS_NTNODES_INTERNAL -> word_of (heap d1) p j = 0) ->
  exists r d', (if (n =? 0)%nat && b then _ ← yaffs_FreeTnode p; mret 0 else mret p) d1 = Some (r, d') /\ pruned d U l p b r d'.
Proof.
  intros Hw Hp [[fl1 Ho] Hk Hl Hwd Hf] Hz. destruct ((n =? 0)%nat && b) eqn:Hc.
  2:{ exists p, d1. split; [done|]. split; [by exists fl1 | done | done|]. intros Hb. split; [done|]. by apply Hf. }
  apply andb_prop in Hc as [Hn ->]. apply Nat.eqb_eq in Hn. pose proof (kp_width _ _ _ Hk) as Hw1. rewrite Hw in Hw1.
  assert (heap d1 !! p = Some (blank (tnodeWidth d1))) as Hb.
  { eapply empty_node; [done | exact Ho| |by apply Hz]. rewrite elem_of_app. left. by apply nodes_at_head. }
  rewrite (blank_nodes (tnodeWidth d1) (heap d1) l p Hp Hb) in Ho.
  destruct (free_tnode_ok d1 U fl1 p Ho) as (d2 & E & Ho2 & Hk2). exists 0, d2. split; [by rewrite (bind_some _ _ _ _ _ E)|].
  split; [| |intros c|done].
  - exists (p :: fl1). rewrite nodes_at_0. exact Ho2.
  - by apply (keeps_trans U U d d1 d2).
  - rewrite <- Hl. unfold dlookup. rewrite (blank_lookup _ _ _ (heap d1) l p c (ow_geo _ _ _ Ho) Hb).
    unfold lookup_at. by rewrite leaf_at_0.
Qed.

Lemma prune_worker_ok l : forall p b d U fl, tnodeWidth d = 16 -> owned d (nodes_at (heap d) l p ++ U) fl ->
  exists r d', yaffs_PruneWorker l p b d = Some (r, d') /\ pruned d U l p b r d'.
Proof.
  assert (Forall (fun i => i < YAFFS_NTNODES_INTERNAL)%nat (seq 0 YAFFS_NTNODES_INTERNAL)) as HF.
  { rewrite Forall_forall. intros i Hi%elem_of_seq. lia. }
  induction l as [|l IH]; intros p b d U fl Hw Ho; cbn [yaffs_PruneWorker];
    (destruct (Z.eqb_spec p 0) as [-> |Hp]; [exists 0, d; split; [done|]; split; [by exists fl | apply keeps_refl | done..]|]).
  - destruct (prune_leaf_ok (seq 0 YAFFS_NTNODES_INTERNAL) d _ fl p b 0 Ho) as (m & E & _ & Hz); [|done|].
    { rewrite elem_of_app. left. by apply nodes_at_head. }
    rewrite (bind_some _ _ _ _ _ E). apply prune_end; [done..| |done]. split; [by exists fl | apply keeps_refl | done..].
  - destruct (prune_loop_ok l (yaffs_PruneWorker l) IH (seq 0 YAFFS_NTNODES_INTERNAL) d U fl p b 0 Hw Ho Hp) as (m & d1 & E & Hp1 & _ & Hz);
      [apply NoDup_seq | done|].
    rewrite (bind_some _ _ _ _ _ E). by apply prune_end.
Qed.

(** ** Trimming *)

Lemma count_used_ok idx d U fl p n : owned d U fl -> p ∈ U -> Forall (fun i => i < YAFFS_NTNODES_INTERNAL)%nat idx ->
  exists m, count_used idx p n d = Some (m, d) /\ (n <= m)%nat /\ (m = 0%nat -> forall j, j ∈ idx -> word_of (heap d) p j = 0).
Proof.
  intros Ho Hp. revert n. induction idx as [|i idx IH]; intros n HF.
  { exists n. split; [done|]. split; [done|]. intros _ j Hj. by apply elem_of_nil in Hj. }
  apply Forall_cons in HF as [Hlt HF]. cbn [count_used]. rewrite (bind_some _ _ _ _ _ (word_ok d _ fl p i Ho Hp Hlt)).
  destruct (IH (if negb (word_of (heap d) p i =? 0) then S n else n) HF) as (m & E & Hnm & Hz). exists m. split; [exact E|].
  destruct (Z.eqb_spec (word_of (heap d) p i) 0) as [H0|H0]; cbn [negb] in *; [|split; lia]. split; [done|].
  intros Hm j [-> |Hj]%elem_of_cons; [done|by apply Hz].
Qed.

(** A root with its first child only can go. *)
Lemma lone_child h l p : p <> 0 -> (forall j, j ∈ seq 1 (YAFFS_NTNODES_INTERNAL - 1) -> word_of h p j = 0) ->
  nodes_at h (S l) p ≡ₚ p :: nodes_at h l (word_of h p 0) /\ leaf_at h (S l) p 0 = leaf_at h l (word_of h p 0) 0 /\
  (forall w mask gb c, 0 <= c -> c / 16 < 8 ^ Z.of_nat (S l) ->
     lookup_at w mask gb h (S l) p c = if c / 16 <? 8 ^ Z.of_nat l then lookup_at w mask gb h l (word_of h p 0) c else 0).
Proof.
  intros Hp Hz. split; [|split].
  - rewrite (nodes_at_child h l p 0 Hp) by (unfold YAFFS_NTNODES_INTERNAL; lia).
    assert (others h l p 0 = []) as ->; [|solve_Permutation]. unfold others. cbn [seq map concat app].
    cbn [YAFFS_NTNODES_INTERNAL Nat.sub seq map concat]. change (YAFFS_NTNODES_INTERNAL - 1)%nat with 7%nat in *.
    cbn [seq map concat] in *. rewrite !Hz by (rewrite !elem_of_cons; tauto). by rewrite nodes_at_0.
  - by rewrite leaf_below, child_0.
  - intros w mask gb c Hc Hb. rewrite lookup_below by done. pose proof (child_top c l Hc Hb) as Ht. pose proof (child_lt c (S l)) as Hlt.
    destruct (Z.ltb_spec (c / 16) (8 ^ Z.of_nat l)) as [Hl|Hl].
    + by rewrite (proj2 Ht Hl).
    + rewrite Hz; [unfold lookup_at; by rewrite leaf_at_0|]. apply elem_of_seq. lia.
Qed.

Lemma trim_ok l p d U fl : owned d (nodes_at (heap d) l p ++ U) fl -> leaf_at (heap d) l p 0 <> 0 ->
  exists f d', trim l p d = Some (f, d') /\ (exists fl', owned d' (file_nodes d' f ++ U) fl') /\ keeps U d d' /\
    0 <= topLevel f <= Z.of_nat l /\ leaf_at (heap d') (levels f) (top f) 0 <> 0 /\
    (forall c, 0 <= c -> c / 16 < 8 ^ Z.of_nat l -> file_map d' f c = dlookup d l p c).
Proof.
  revert p d fl. induction l as [|l IH]; intros p d fl Ho Hf.
  { exists (mkFileStructure 0 p), d. split; [done|]. split; [by exists fl|]. split; [apply keeps_refl|]. split; [done|]. split; [done|].
    intros c Hc Hb. unfold file_map. cbn [topLevel]. change (8 ^ 0) with 1. destruct (Z.ltb_spec (c / 16) 1); [done|]. cbn in Hb. lia. }
  assert (p <> 0) as Hp by (intros ->; by rewrite leaf_at_0 in Hf). cbn [trim].
  assert (p ∈ nodes_at (heap d) (S l) p ++ U) as Hin by (rewrite elem_of_app; left; by apply nodes_at_head).
  destruct (count_used_ok (seq 1 (YAFFS_NTNODES_INTERNAL - 1)) d _ fl p 0 Ho Hin) as (m & E & _ & Hz).
  { rewrite Forall_forall. intros i Hi%elem_of_seq. unfold YAFFS_NTNODES_INTERNAL in *. lia. }
  rewrite (bind_some _ _ _ _ _ E). destruct (Nat.eqb_spec m 0) as [Hm|Hm].
  2:{ exists (mkFileStructure (Z.of_nat (S l)) p), d. split; [done|]. unfold file_nodes, levels, file_map. cbn [topLevel top].
      rewrite Nat2Z.id. split; [by exists fl|]. split; [apply keeps_refl|]. split; [lia|]. split; [done|]. intros c Hc Hb.
      unfold levels. cbn [topLevel top]. rewrite (proj2 (Z.ltb_lt (c / 16) _) Hb), Nat2Z.id. done. }
  destruct (lone_child (heap d) l p Hp (Hz Hm)) as (Hn & Hlf & Hlk). set (q := word_of (heap d) p 0) in *.
  rewrite (bind_some _ _ _ _ _ (word_ok d _ fl p 0 Ho Hin ltac:(unfold YAFFS_NTNODES_INTERNAL; lia))). fold q.
  destruct (free_tnode_ok d (nodes_at (heap d) l q ++ U) fl p) as (d1 & E1 & Ho1 & Hk1).
  { eapply owned_perm; [|exact Ho]. rewrite Hn. done. }
  rewrite (bind_some _ _ _ _ _ E1). destruct (dlookup_frame _ d d1 l q Hk1) as (Hn1 & Hf1 & Hl1); [intros a Ha; rewrite elem_of_app; by left|].
  destruct (IH q d1 (p :: fl)) as (f & d2 & E2 & Ho2 & Hk2 & Htl & Hf2 & Hl2).
  { by rewrite Hn1. } { by rewrite Hf1, <- Hlf. }
  exists f, d2. split; [exact E2|]. split; [done|]. split.
  { apply (keeps_trans U U d d1 d2); [|done|done]. apply (keeps_sub _ _ _ _ Hk1). intros a Ha. rewrite elem_of_app. by right. }
  split; [lia|]. split; [done|]. intros c Hc Hb. unfold dlookup. rewrite (Hlk _ _ _ c Hc Hb).
  destruct (Z.ltb_spec (c / 16) (8 ^ Z.of_nat l)) as [Hlt|Hge].
  - by rewrite (Hl2 c Hc Hlt), Hl1.
  - unfold file_map. pose proof (Z.pow_le_mono_r 8 (topLevel f) (Z.of_nat l) ltac:(lia) ltac:(lia)).
    destruct (Z.ltb_spec (c / 16) (8 ^ topLevel f)); [lia | done].
Qed.

(** (C23) Pruning with sixteen bit fields: [yaffs_PruneFileStructure] always returns, the file
    still has every chunk it had, at the same place, the tnodes of other files are not
    touched, and every tnode is in one tree or on the free list. *)
Theorem yaffs_PruneFileStructure_keeps_chunks d U fl f :
  tnodeWidth d = 16 -> owned d (file_nodes d f ++ U) fl -> file_ok d f ->
  exists f' d', yaffs_PruneFileStructure f d = Some (f', d') /\
    (exists fl', owned d' (file_nodes d' f' ++ U) fl') /\ keeps U d d' /\ file_ok d' f' /\ topLevel f' <= topLevel f /\
    (forall c, 0 <= c -> file_map d' f' c = file_map d f c).
Proof.
  intros Hw Ho Hf. pose proof (levels_id _ _ Hf) as Hlev. pose proof (fo_level _ _ Hf) as H0.
  unfold yaffs_PruneFileStructure. destruct (Z.ltb_spec 0 (topLevel f)) as [Hlt|Hge].
  2:{ exists f, d. split; [done|]. split; [by exists fl|]. split; [apply keeps_refl|]. done. }
  destruct (prune_worker_ok (levels f) (top f) false d U fl Hw Ho) as (r & d1 & E & [[fl1 Ho1] Hk1 Hl1 Hf1]).
  rewrite (bind_some _ _ _ _ _ E). destruct (Hf1 eq_refl) as [-> Hf1'].
  destruct (trim_ok (levels f) (top f) d1 U fl1 Ho1 (Hf1' (fo_first _ _ Hf))) as (f' & d2 & E2 & Ho2 & Hk2 & Htl & Hf2 & Hl2).
  rewrite Hlev in Htl, Hl2. exists f', d2. split; [exact E2|]. split; [done|]. split; [by apply (keeps_trans U U d d1 d2)|].
  split; [split; [lia | done]|]. split; [lia|]. intros c Hc. unfold file_map at 2.
  destruct (Z.ltb_spec (c / 16) (8 ^ topLevel f)) as [Hb|Hb].
  - by rewrite (Hl2 c Hc Hb), Hl1.
  - unfold file_map. pose proof (Z.pow_le_mono_r 8 (topLevel f') (topLevel f) ltac:(lia) ltac:(lia)).
    destruct (Z.ltb_spec (c / 16) (8 ^ topLevel f')); [lia | done].
Qed.

(** ** Examples *)

(** A file of two tnodes of level 0 below a root; the second one holds at most the chunk 31. *)
Definition two_leaf_device (w v : Z) : yaffs_Device :=
  let mask := 2 ^ w - 1 in
  let put c := default [] (yaffs_PutLevel0Tnode w mask 0 (blank w) c v) in
  mkDevice w mask 0 {[ 4096 := <[0%nat := 8192]> (<[1%nat := 12288]> (blank w)); 8192 := blank w; 12288 := put 31 ]} 0 0 3 [].
Definition two_leaf_file : yaffs_FileStructure := mkFileStructure 1 4096.

Lemma two_leaf_owned w v : w ∈ [16; 18; 20; 22; 24; 26; 28; 30] -> 0 <= v < 65536 ->
  owned (two_leaf_device w v) (file_nodes (two_leaf_device w v) two_leaf_file ++ []) [] /\ file_ok (two_leaf_device w v) two_leaf_file.
Proof.
  intros Hw Hv. assert (16 <= w <= 30 /\ w mod 2 = 0) as [Hr He].
  { rewrite !elem_of_cons, elem_of_nil in Hw. destruct_or!; subst; done. }
  assert (geometry w (2 ^ w - 1) 0) as Hg by (split; [done..|lia]).
  destruct (entry_put _ _ _ Hg (blank w) 31 v (blank_ok w)) as (node & E & Hok & _).
  { pose proof (Z.pow_le_mono_r 2 16 (w + 0) ltac:(lia) ltac:(lia)). lia. }
  pose proof (node_long _ _ _ _ Hg (blank_ok w)) as HL.
  assert (two_leaf_device w v = mkDevice w (2 ^ w - 1) 0
    {[ 4096 := <[0%nat := 8192]> (<[1%nat := 12288]> (blank w)); 8192 := blank w; 12288 := node ]} 0 0 3 []) as ->.
  { unfold two_leaf_device. by rewrite E. }
  set (h := {[ 4096 := _; 8192 := _; 12288 := _ ]}).
  assert (forall i, word_of h 4096 i = if decide (0 = i)%nat then 8192 else if decide (1 = i)%nat then 12288 else 0) as Hwd.
  { intros i. unfold word_of, h. rewrite lookup_insert_eq. change (default [] (Some ?y)) with y.
    rewrite !nth_insert_word by (rewrite ?length_insert; lia). repeat case_decide; try done. apply nth_replicate_0. }
  assert (nodes_at h 1 4096 = [4096; 8192; 12288]) as Hn.
  { rewrite nodes_at_S by done. change (seq 0 YAFFS_NTNODES_INTERNAL) with [0;1;2;3;4;5;6;7]%nat. cbn [map concat]. by rewrite !Hwd. }
  unfold file_nodes. cbn [heap]. change (levels two_leaf_file) with 1%nat. change (top two_leaf_file) with 4096. rewrite Hn. split.
  - split; cbn [tnodeWidth tnodeMask chunkGroupBits heap freeTnodes nFreeTnodes app]; [done| |by vm_compute; repeat constructor; set_solver|done..].
    intros a Ha. rewrite !elem_of_cons, elem_of_nil in Ha. destruct_or!; subst; (split; [lia|]); eexists; (split; [reflexivity|]); try done.
    + apply node_insert; [apply node_insert|]; [apply blank_ok|unfold is_u32; lia..].
    + apply blank_ok.
  - split; [done|]. cbn [heap]. change (top two_leaf_file) with 4096. change (levels two_leaf_file) with 1%nat.
    by rewrite leaf_below, child_0, Hwd.
Qed.

Lemma yaffs_PruneFileStructure_keeps_chunks_witness :
  let d := two_leaf_device 16 0 in
  exists f' d', yaffs_PruneFileStructure two_leaf_file d = Some (f', d') /\ topLevel f' = 0 /\
    (forall c, 0 <= c -> file_map d' f' c = file_map d two_leaf_file c).
Proof.
  destruct (two_leaf_owned 16 0) as [Ho Hf]; [by rewrite elem_of_cons; left|lia|].
  destruct (yaffs_PruneFileStructure_keeps_chunks (two_leaf_device 16 0) [] [] two_leaf_file eq_refl Ho Hf)
    as (f' & d' & E & _ & _ & _ & _ & Hl).
  exists f', d'. split; [exact E|]. split; [|exact Hl]. vm_compute in E. injection E as <- _. reflexivity.
Defined.

(** (C36) Wider fields: with any width above sixteen bits there is a file whose chunk 31 is
    lost by [yaffs_PruneFileStructure].  The worker looks at the eight words of
    [tn->internal] also at level 0, where a tnode is longer than that. *)
Theorem yaffs_PruneFileStructure_drops_chunks w : w ∈ [18; 20; 22; 24; 26; 28; 30] ->
  let d := two_leaf_device w 1234 in
  owned d (file_nodes d two_leaf_file ++ []) [] /\ file_ok d two_leaf_file /\ file_map d two_leaf_file 31 = 1234 /\
  exists f' d', yaffs_PruneFileStructure two_leaf_file d = Some (f', d') /\ file_map d' f' 31 = 0.
Proof.
  intros Hw d. destruct (two_leaf_owned w 1234) as [Ho Hf]; [by rewrite elem_of_cons; right|lia|].
  split; [exact Ho|]. split; [exact Hf|]. unfold d. clear Ho Hf d. rewrite !elem_of_cons, elem_of_nil in Hw.
  assert (file_map (two_leaf_device w 1234) two_leaf_file 31 = 1234 /\
    match yaffs_PruneFileStructure two_leaf_file (two_leaf_device w 1234) with
    | Some (f', d') => file_map d' f' 31 = 0
    | None => False
    end) as [H1 H2] by (destruct_or!; try done; subst; split; vm_compute; reflexivity).
  split; [exact H1|]. destruct (yaffs_PruneFileStructure _ _) as [[f' d']|]; [by exists f', d'|done].
Qed.

Lemma yaffs_PruneFileStructure_drops_chunks_witness :
  exists f' d', yaffs_PruneFileStructure two_leaf_file (two_leaf_device 20 1234) = Some (f', d') /\ file_map d' f' 31 = 0.
Proof.
  destruct (yaffs_PruneFileStructure_drops_chunks 20) as (_ & _ & _ & H); [by rewrite !elem_of_cons; right; left|]. exact H.
Defined.
