(* ===== verification/YaffsBlocks.v ===== *)
(** * Blocks and chunks of a YAFFS2 device (yaffs2/yaffs_guts.c, yaffs_nand.c)

    Which chunks of the flash are in use: the table of blocks, the bitmap of chunks, taking
    a chunk for writing, deleting one, erasing or retiring a block that holds nothing any
    more, and writing a chunk to a place where it works.

    A device with its own tag functions ([dev->isYaffs2], the function pointers set).  The
    state contains that of the checkpoint stream ([YaffsCheckpt]), which shares the block
    states, the counts and the flash; the other members of [yaffs_BlockInfo] are the list
    [blockInfo].  An index outside the table and [YBUG] have no result.  Temporary buffers
    and the call that tells the VFS that its superblock is dirty are left out. *)

From S2P Require Import Prelude YaffsTags YaffsTagsCompat YaffsCheckpt.

(** ** Device *)

(** [yaffs_BlockInfo] without [blockState] *)
Record yaffs_BlockInfo := BlockInfo {
  softDeletions : Z;                           (* 10 bits, signed *)
  pagesInUse : Z;                              (* 10 bits, signed *)
  needsRetiring : bool; skipErasedCheck : bool; gcPrioritise : bool;
  chunkErrorStrikes : Z;                       (* 3 bits *)
  hasShrinkHeader : bool;
  bi_sequenceNumber : Z;
}.

Definition set_softDeletions (v : Z) (b : yaffs_BlockInfo) : yaffs_BlockInfo :=
  let (_, pu, nr, se, gc, ce, hs, sq) := b in BlockInfo v pu nr se gc ce hs sq.
Definition set_pagesInUse (v : Z) (b : yaffs_BlockInfo) : yaffs_BlockInfo :=
  let (sd, _, nr, se, gc, ce, hs, sq) := b in BlockInfo sd v nr se gc ce hs sq.
Definition set_needsRetiring (v : bool) (b : yaffs_BlockInfo) : yaffs_BlockInfo :=
  let (sd, pu, _, se, gc, ce, hs, sq) := b in BlockInfo sd pu v se gc ce hs sq.
Definition set_skipErasedCheck (v : bool) (b : yaffs_BlockInfo) : yaffs_BlockInfo :=
  let (sd, pu, nr, _, gc, ce, hs, sq) := b in BlockInfo sd pu nr v gc ce hs sq.
Definition set_sequence (v : Z) (b : yaffs_BlockInfo) : yaffs_BlockInfo :=
  let (sd, pu, nr, se, gc, ce, hs, _) := b in BlockInfo sd pu nr se gc ce hs v.

(** What is only read. *)
Record block_config := BlockConfig {
  ckpt : ckpt_config;
  internalStartBlock : Z; internalEndBlock : Z;
  blockOffset : Z; chunkOffset : Z;
  chunkBitmapStride : Z;
  nCheckpointReservedBlocks : Z;
}.

(** Counts that nothing reads. *)
Record statistics := Statistics {
  nDeletions : Z; nUnmarkedDeletions : Z; nRetiredBlocks : Z; nErasureFailures : Z;
  nBlockErasures : Z; nRetriedWrites : Z;
}.

Section Blocks.
Context {D : CheckpointDriver} (C : block_config).
Definition chunks : Z := nChunksPerBlock (ckpt C).

Record device := Device {
  ck : ckpt_device;
  blockInfo : list yaffs_BlockInfo;
  chunkBits : list Z;
  allocationBlock : Z; allocationPage : Z; allocationBlockFinder : Z;
  dev_sequenceNumber : Z; oldestDirtySequence : Z;
  currentDirtyChecker : Z; nonAggressiveSkip : Z;
  hasPendingPrioritisedGCs : bool; isCheckpointed : bool;
  stats : statistics;
}.

Definition set_ck (k : ckpt_device) (d : device) : device :=
  let (_, bi, cb, ab, ap, af, sq, od, cd, ns, hp, ic, st) := d in Device k bi cb ab ap af sq od cd ns hp ic st.
Definition set_blockInfo (bi : list yaffs_BlockInfo) (d : device) : device :=
  let (k, _, cb, ab, ap, af, sq, od, cd, ns, hp, ic, st) := d in Device k bi cb ab ap af sq od cd ns hp ic st.
Definition set_chunkBits (cb : list Z) (d : device) : device :=
  let (k, bi, _, ab, ap, af, sq, od, cd, ns, hp, ic, st) := d in Device k bi cb ab ap af sq od cd ns hp ic st.
Definition set_allocation (ab ap : Z) (d : device) : device :=
  let (k, bi, cb, _, _, af, sq, od, cd, ns, hp, ic, st) := d in Device k bi cb ab ap af sq od cd ns hp ic st.
Definition set_finder (af : Z) (d : device) : device :=
  let (k, bi, cb, ab, ap, _, sq, od, cd, ns, hp, ic, st) := d in Device k bi cb ab ap af sq od cd ns hp ic st.
Definition set_sequences (sq od : Z) (d : device) : device :=
  let (k, bi, cb, ab, ap, af, _, _, cd, ns, hp, ic, st) := d in Device k bi cb ab ap af sq od cd ns hp ic st.
Definition set_collector (cd ns : Z) (hp : bool) (d : device) : device :=
  let (k, bi, cb, ab, ap, af, sq, od, _, _, _, ic, st) := d in Device k bi cb ab ap af sq od cd ns hp ic st.
Definition set_isCheckpointed (ic : bool) (d : device) : device :=
  let (k, bi, cb, ab, ap, af, sq, od, cd, ns, hp, _, st) := d in Device k bi cb ab ap af sq od cd ns hp ic st.
Definition set_stats (g : statistics -> statistics) (d : device) : device :=
  let (k, bi, cb, ab, ap, af, sq, od, cd, ns, hp, ic, st) := d in Device k bi cb ab ap af sq od cd ns hp ic (g st).

Definition count_deletion (s : statistics) : statistics :=
  let (a, b, c, e, f, g) := s in Statistics (s32 (a + 1)) (s32 (b + 1)) c e f g.
Definition count_retired (s : statistics) : statistics :=
  let (a, b, c, e, f, g) := s in Statistics a b (s32 (c + 1)) e f g.
Definition count_failure (s : statistics) : statistics :=
  let (a, b, c, e, f, g) := s in Statistics a b c (s32 (e + 1)) f g.
Definition count_erasure (s : statistics) : statistics :=
  let (a, b, c, e, f, g) := s in Statistics a b c e (s32 (f + 1)) g.
Definition count_retries (n : Z) (s : statistics) : statistics :=
  let (a, b, c, e, f, g) := s in Statistics a b c e f (s32 (g + n)).

(** The counts shared with the checkpoint stream. *)
Definition set_counts (ne nf : Z) (d : device) : device := set_ck (set_space (ck d) ne nf) d.
Definition add_free (n : Z) : St device unit :=
  modify (fun d => set_counts (nErasedBlocks (ck d)) (s32 (nFreeChunks (ck d) + n)) d).
Definition add_erased (n : Z) : St device unit :=
  modify (fun d => set_counts (s32 (nErasedBlocks (ck d) + n)) (nFreeChunks (ck d)) d).

(** ** The table of blocks *)

(** [blk - dev->internalStartBlock]; [YBUG] when the block is not of the device *)
Definition block_index (blk : Z) : option nat :=
  if (blk <? internalStartBlock C) || (internalEndBlock C <? blk) then None
  else Some (Z.to_nat (blk - internalStartBlock C)).

Definition yaffs_GetBlockInfo (blk : Z) : St device yaffs_BlockInfo :=
  i ← lift (block_index blk); d ← get_st; lift (blockInfo d !! i).
Definition update_info (blk : Z) (g : yaffs_BlockInfo -> yaffs_BlockInfo) : St device unit :=
  i ← lift (block_index blk);
  bi ← yaffs_GetBlockInfo blk;
  modify (fun d => set_blockInfo (<[i := g bi]> (blockInfo d)) d).
Definition get_state (blk : Z) : St device yaffs_BlockState :=
  i ← lift (block_index blk); d ← get_st; lift (blockState (ck d) !! i).
Definition set_state (blk : Z) (st : yaffs_BlockState) : St device unit :=
  i ← lift (block_index blk);
  _ ← get_state blk;
  modify (fun d => set_ck (set_blockState (ck d) (<[i := st]> (blockState (ck d)))) d).

(** ** The bitmap of chunks *)

(** the place of the byte of a chunk; [yaffs_BlockBits] gives the first one of a block *)
Definition yaffs_BlockBits (blk : Z) : option Z :=
  i ← block_index blk; Some (chunkBitmapStride C * Z.of_nat i).

Definition yaffs_ClearChunkBits (blk : Z) : St device unit :=
  o ← lift (yaffs_BlockBits blk);
  d ← get_st;
  if Z.of_nat (length (chunkBits d)) <? o + chunkBitmapStride C then undefined else
  modify (fun d => set_chunkBits (take (Z.to_nat o) (chunkBits d) ++ replicate (Z.to_nat (chunkBitmapStride C)) 0 ++
                                  drop (Z.to_nat (o + chunkBitmapStride C)) (chunkBits d)) d).

(** [g] is what happens to the byte [blkBits[chunk / 8]]. *)
Definition update_byte (blk chunk : Z) (g : Z -> Z) : St device unit :=
  o ← lift (yaffs_BlockBits blk);
  d ← get_st;
  b ← lift (chunkBits d !! Z.to_nat (o + chunk / 8));
  modify (fun d => set_chunkBits (<[Z.to_nat (o + chunk / 8) := g b]> (chunkBits d)) d).

Definition yaffs_ClearChunkBit (blk chunk : Z) : St device unit :=
  update_byte blk chunk (fun b => u8 (Z.land b (Z.lnot (Z.shiftl 1 (Z.land chunk 7))))).
Definition yaffs_SetChunkBit (blk chunk : Z) : St device unit :=
  update_byte blk chunk (fun b => u8 (Z.lor b (Z.shiftl 1 (Z.land chunk 7)))).
Definition yaffs_CheckChunkBit (blk chunk : Z) : St device bool :=
  o ← lift (yaffs_BlockBits blk);
  d ← get_st;
  b ← lift (chunkBits d !! Z.to_nat (o + chunk / 8));
  mret (truthy (Z.land b (Z.shiftl 1 (Z.land chunk 7)))).

Definition yaffs_StillSomeChunkBits (blk : Z) : St device bool :=
  o ← lift (yaffs_BlockBits blk);
  d ← get_st;
  let bits := take (Z.to_nat (chunkBitmapStride C)) (drop (Z.to_nat o) (chunkBits d)) in
  if Z.of_nat (length (chunkBits d)) <? o + chunkBitmapStride C then undefined else
  mret (existsb truthy bits).

Definition yaffs_InvalidateCheckpoint : St device unit :=
  d ← get_st;
  if isCheckpointed d || (0 <? blocksInCheckpoint (ck d)) then
    '(k, _) ← lift (yaffs_CheckpointInvalidateStream (ckpt C) (ck d));
    modify (fun d => set_ck k (set_isCheckpointed false d))
  else mret tt.

(** [yaffs_InitialiseBlocks]; [infoOk] and [bitsOk] tell whether [YMALLOC] or [YMALLOC_ALT]
    gave the two arrays.  The stride it computes is that of [C]. *)
Definition yaffs_InitialiseBlocks (infoOk bitsOk : bool) : St device Z :=
  let nBlocks := s32 (internalEndBlock C - internalStartBlock C + 1) in
  _ ← modify (fun d => set_allocation (-1) (allocationPage d) d);
  if infoOk && bitsOk then
    _ ← modify (fun d =>
      set_ck (set_blockState (ck d) (replicate (Z.to_nat nBlocks) YAFFS_BLOCK_STATE_UNKNOWN))
        (set_blockInfo (replicate (Z.to_nat nBlocks) (BlockInfo 0 0 false false false 0 false 0))
           (set_chunkBits (replicate (Z.to_nat (chunkBitmapStride C * nBlocks)) 0) d)));
    mret YAFFS_OK
  else mret YAFFS_FAIL.

(** ** The flash *)

Definition yaffs_HandleChunkError (blk : Z) : St device unit :=
  bi ← yaffs_GetBlockInfo blk;
  if gcPrioritise bi then mret tt else
  let strikes := uwrap 3 (chunkErrorStrikes bi + 1) in
  _ ← update_info blk (fun b => let (sd, pu, nr, se, _, _, hs, sq) := b in
                                BlockInfo sd pu (nr || (3 <? strikes)) se true strikes hs sq);
  modify (fun d => set_collector (currentDirtyChecker d) (nonAggressiveSkip d) true d).

Definition yaffs_ReadChunkWithTagsFromNAND (chunkInNAND : Z) : St device (list Z * yaffs_ExtendedTags) :=
  d ← get_st;
  let '(f, data, t) := readChunkWithTagsFromNAND (flash (ck d)) (chunkInNAND - chunkOffset C) in
  _ ← modify (fun d => set_ck (set_flash (ck d) f) d);
  _ ← (if ecc_error (eccResult t) then yaffs_HandleChunkError (Z.quot chunkInNAND chunks) else mret tt);
  mret (data, t).

(** [tags->sequenceNumber = dev->sequenceNumber; tags->chunkUsed = 1;] *)
Definition stamp_tags (seq : Z) (t : yaffs_ExtendedTags) : yaffs_ExtendedTags :=
  {| validMarker0 := validMarker0 t; chunkUsed := 1; objectId := objectId t; chunkId := chunkId t;
     byteCount := byteCount t; eccResult := eccResult t; blockBad := blockBad t;
     chunkDeleted := chunkDeleted t; serialNumber := serialNumber t; sequenceNumber := seq;
     extraHeaderInfoAvailable := extraHeaderInfoAvailable t; extraParentObjectId := extraParentObjectId t;
     extraIsShrinkHeader := extraIsShrinkHeader t; extraShadows := extraShadows t;
     extraObjectType := extraObjectType t; extraFileLength := extraFileLength t;
     extraEquivalentObjectId := extraEquivalentObjectId t; validMarker1 := validMarker1 t |}.

Definition yaffs_WriteChunkWithTagsToNAND (chunkInNAND : Z) (data : list Z) (tags : yaffs_ExtendedTags) : St device Z :=
  d ← get_st;
  let t := stamp_tags (dev_sequenceNumber d) tags in
  if negb (yaffs_ValidateTags t) then undefined else
  let '(f, r) := writeChunkWithTagsToNAND (flash (ck d)) (chunkInNAND - chunkOffset C) data t in
  _ ← modify (fun d => set_ck (set_flash (ck d) f) d);
  mret r.

Definition yaffs_MarkBlockBad (blockNo : Z) : St device Z :=
  d ← get_st;
  let '(f, r) := markNANDBlockBad (flash (ck d)) (blockNo - blockOffset C) in
  _ ← modify (fun d => set_ck (set_flash (ck d) f) d);
  mret r.

Definition yaffs_EraseBlockInNAND (blockInNAND : Z) : St device Z :=
  _ ← modify (set_stats count_erasure);
  d ← get_st;
  let '(f, r) := eraseBlockInNAND (flash (ck d)) (blockInNAND - blockOffset C) in
  let '(f, r) := if truthy r then (f, r) else eraseBlockInNAND f (blockInNAND - blockOffset C) in
  _ ← modify (fun d => set_ck (set_flash (ck d) f) d);
  mret r.

Definition yaffs_CheckFF (buffer : list Z) : bool := forallb (fun b => b =? 0xFF) buffer.

Definition yaffs_CheckChunkErased (chunkInNAND : Z) : St device bool :=
  '(data, tags) ← yaffs_ReadChunkWithTagsFromNAND chunkInNAND;
  mret (negb (ecc_error (eccResult tags)) && (yaffs_CheckFF data && negb (truthy (chunkUsed tags)))).

(** ** Deleting *)

Definition yaffs_RetireBlock (blockInNAND : Z) : St device unit :=
  _ ← yaffs_InvalidateCheckpoint;
  _ ← yaffs_MarkBlockBad blockInNAND;
  _ ← set_state blockInNAND YAFFS_BLOCK_STATE_DEAD;
  modify (set_stats count_retired).

(** the members that are reset when the block is clean again *)
Definition clean_info (b : yaffs_BlockInfo) : yaffs_BlockInfo :=
  let (_, _, nr, _, _, ce, _, sq) := b in BlockInfo 0 0 nr true false ce false sq.

(** The check of every erased chunk that a trace flag asks for is left out. *)
Definition yaffs_BlockBecameDirty (blockNo : Z) : St device unit :=
  bi ← yaffs_GetBlockInfo blockNo;
  _ ← set_state blockNo YAFFS_BLOCK_STATE_DIRTY;
  erasedOk ← (if needsRetiring bi then mret false else
                _ ← yaffs_InvalidateCheckpoint;
                r ← yaffs_EraseBlockInNAND blockNo;
                _ ← (if truthy r then mret tt else modify (set_stats count_failure));
                mret (truthy r));
  if erasedOk : bool then
    _ ← set_state blockNo YAFFS_BLOCK_STATE_EMPTY;
    _ ← add_erased 1;
    _ ← update_info blockNo clean_info;
    yaffs_ClearChunkBits blockNo
  else
    _ ← add_free (- chunks);
    yaffs_RetireBlock blockNo.

Definition in_management (st : yaffs_BlockState) : bool :=
  match st with
  | YAFFS_BLOCK_STATE_ALLOCATING | YAFFS_BLOCK_STATE_FULL | YAFFS_BLOCK_STATE_NEEDS_SCANNING
  | YAFFS_BLOCK_STATE_COLLECTING => true
  | _ => false
  end.
Definition still_filling (st : yaffs_BlockState) : bool :=
  match st with YAFFS_BLOCK_STATE_ALLOCATING | YAFFS_BLOCK_STATE_NEEDS_SCANNING => true | _ => false end.

(** [markNAND] only matters on a YAFFS1 device. *)
Definition yaffs_DeleteChunk (chunkId : Z) : St device unit :=
  if chunkId <=? 0 then mret tt else
  let block := chunkId / chunks in
  let page := chunkId mod chunks in
  _ ← yaffs_GetBlockInfo block;
  _ ← modify (set_stats count_deletion);
  st ← get_state block;
  if in_management st then
    _ ← add_free 1;
    _ ← yaffs_ClearChunkBit block page;
    _ ← update_info block (fun b => set_pagesInUse (swrap 10 (pagesInUse b - 1)) b);
    bi ← yaffs_GetBlockInfo block;
    if (pagesInUse bi =? 0) && negb (hasShrinkHeader bi) && negb (still_filling st)
    then yaffs_BlockBecameDirty block else mret tt
  else mret tt.

Definition yaffs_SoftDeleteChunk (chunk : Z) : St device unit :=
  _ ← update_info (chunk / chunks) (fun b => set_softDeletions (swrap 10 (softDeletions b + 1)) b);
  add_free 1.

(** ** Taking a chunk *)

(** [for (i = dev->internalStartBlock; i <= dev->internalEndBlock; i++)], [n] turns to go *)
Fixpoint find_empty (n : nat) : St device Z :=
  match n with
  | O => mret (-1)
  | S n =>
      _ ← modify (fun d => set_finder (s32 (allocationBlockFinder d + 1)) d);
      _ ← modify (fun d => if (allocationBlockFinder d <? internalStartBlock C) || (internalEndBlock C <? allocationBlockFinder d)
                           then set_finder (internalStartBlock C) d else d);
      d ← get_st;
      let blk := allocationBlockFinder d in
      st ← get_state blk;
      if bool_decide (st = YAFFS_BLOCK_STATE_EMPTY) then
        _ ← set_state blk YAFFS_BLOCK_STATE_ALLOCATING;
        _ ← modify (fun d => set_sequences (u32 (dev_sequenceNumber d + 1)) (oldestDirtySequence d) d);
        d ← get_st;
        _ ← update_info blk (set_sequence (dev_sequenceNumber d));
        _ ← add_erased (-1);
        mret blk
      else find_empty n
  end.

Definition yaffs_FindBlockForAllocation : St device Z :=
  d ← get_st;
  if nErasedBlocks (ck d) <? 1 then mret (-1)
  else find_empty (Z.to_nat (internalEndBlock C - internalStartBlock C + 1)).

Definition yaffs_CheckSpaceForAllocation (d : device) : bool :=
  let checkpointBlocks := s32 (nCheckpointReservedBlocks C - blocksInCheckpoint (ck d)) in
  let checkpointBlocks := if checkpointBlocks <? 0 then 0 else checkpointBlocks in
  let reservedChunks := s32 ((nReservedBlocks (ckpt C) + checkpointBlocks) * chunks) in
  reservedChunks <? nFreeChunks (ck d).

(** The block used is that of the chunk. *)
Definition yaffs_AllocateChunk (useReserve : bool) : St device Z :=
  d ← get_st;
  _ ← (if allocationBlock d <? 0 then
         blk ← yaffs_FindBlockForAllocation; modify (set_allocation blk 0)
       else mret tt);
  d ← get_st;
  if negb useReserve && negb (yaffs_CheckSpaceForAllocation d) then mret (-1) else
  let blk := allocationBlock d in
  let page := allocationPage d in
  if 0 <=? blk then
    _ ← update_info blk (fun b => set_pagesInUse (swrap 10 (pagesInUse b + 1)) b);
    _ ← yaffs_SetChunkBit blk page;
    _ ← modify (set_allocation blk (s32 (page + 1)));
    _ ← add_free (-1);
    _ ← (if chunks <=? s32 (page + 1) then
           _ ← set_state blk YAFFS_BLOCK_STATE_FULL; modify (set_allocation (-1) (s32 (page + 1)))
         else mret tt);
    mret (s32 (blk * chunks + page))
  else mret (-1).

Definition yaffs_GetErasedChunks (d : device) : Z :=
  let n := s32 (nErasedBlocks (ck d) * chunks) in
  if 0 <? allocationBlock d then s32 (n + (chunks - allocationPage d)) else n.

(** ** Writing a chunk somewhere *)

Definition yaffs_HandleWriteChunkError (chunkInNAND : Z) (erasedOk : bool) : St device unit :=
  let blk := chunkInNAND / chunks in
  _ ← yaffs_HandleChunkError blk;
  _ ← (if erasedOk then update_info blk (set_needsRetiring true) else mret tt);
  yaffs_DeleteChunk chunkInNAND.

(** the erased check of the first chunk written to a block *)
Definition check_first (chunk : Z) (erasedOk : bool) : St device bool :=
  let blk := chunk / chunks in
  bi ← yaffs_GetBlockInfo blk;
  if skipErasedCheck bi then mret erasedOk else
  ok ← yaffs_CheckChunkErased chunk;
  bi ← yaffs_GetBlockInfo blk;
  _ ← (if ok && negb (gcPrioritise bi) then update_info blk (set_skipErasedCheck true) else mret tt);
  mret ok.

(** [do ... while (chunk >= 0 && !writeOk)]: the chunk and the number of attempts *)
Fixpoint write_new_loop (fuel : nat) (data : list Z) (tags : yaffs_ExtendedTags) (useReserve erasedOk : bool)
    (attempts : Z) : St device (Z * Z) :=
  match fuel with
  | O => undefined
  | S fuel =>
      chunk ← yaffs_AllocateChunk useReserve;
      if chunk <? 0 then mret (chunk, attempts) else
      bi ← yaffs_GetBlockInfo (chunk / chunks);
      if gcPrioritise bi then
        _ ← yaffs_DeleteChunk chunk;
        write_new_loop fuel data tags useReserve erasedOk attempts
      else
        erasedOk ← check_first chunk erasedOk;
        writeOk ← (if erasedOk : bool then yaffs_WriteChunkWithTagsToNAND chunk data tags else mret 0);
        let attempts := s32 (attempts + 1) in
        if truthy writeOk then mret (chunk, attempts) else
        _ ← yaffs_HandleWriteChunkError chunk erasedOk;
        write_new_loop fuel data tags useReserve erasedOk attempts
  end.

Definition yaffs_WriteNewChunkWithTagsToNAND (fuel : nat) (data : list Z) (tags : yaffs_ExtendedTags) (useReserve : bool)
    : St device Z :=
  _ ← yaffs_InvalidateCheckpoint;
  '(chunk, attempts) ← write_new_loop fuel data tags useReserve true 0;
  _ ← (if 1 <? attempts then modify (set_stats (count_retries (attempts - 1))) else mret tt);
  mret chunk.

(** ** Choosing a block to collect *)

(** the smallest sequence number of a full block with discarded pages *)
Fixpoint oldest_dirty (n : nat) (i : Z) (seq : Z) : St device Z :=
  match n with
  | O => mret seq
  | S n =>
      b ← yaffs_GetBlockInfo i;
      st ← get_state i;
      oldest_dirty n (i + 1)
        (if bool_decide (st = YAFFS_BLOCK_STATE_FULL) && (pagesInUse b - softDeletions b <? chunks) && (bi_sequenceNumber b <? seq)
         then bi_sequenceNumber b else seq)
  end.

Definition yaffs_BlockNotDisqualifiedFromGC (bi : yaffs_BlockInfo) : St device bool :=
  if negb (hasShrinkHeader bi) then mret true else
  d ← get_st;
  _ ← (if oldestDirtySequence d =? 0 then
         seq ← oldest_dirty (Z.to_nat (internalEndBlock C - internalStartBlock C + 1)) (internalStartBlock C) (dev_sequenceNumber d);
         modify (fun d => set_sequences (dev_sequenceNumber d) seq d)
       else mret tt);
  d ← get_st;
  mret (bi_sequenceNumber bi <=? oldestDirtySequence d).

(** [for(i = dev->internalStartBlock; i < dev->internalEndBlock && !prioritised; i++)]: the
    block found with its pages in use, and [pendingPrioritisedExist] *)
Fixpoint find_prioritised (n : nat) (i : Z) (pending : bool) : St device (option (Z * Z) * bool) :=
  match n with
  | O => mret (None, pending)
  | S n =>
      bi ← yaffs_GetBlockInfo i;
      st ← get_state i;
      let pending := pending || gcPrioritise bi in
      take ← (if bool_decide (st = YAFFS_BLOCK_STATE_FULL) && gcPrioritise bi then yaffs_BlockNotDisqualifiedFromGC bi else mret false);
      if take : bool then mret (Some (i, pagesInUse bi - softDeletions bi), pending)
      else find_prioritised n (i + 1) pending
  end.

(** [for (i = 0; i <= iterations && pagesInUse > 0 && !prioritised; i++)], [n] turns to go *)
Fixpoint find_dirtiest (n : nat) (b dirtiest pages : Z) : St device (Z * Z) :=
  match n with
  | O => mret (b, dirtiest)
  | S n =>
      if pages <=? 0 then mret (b, dirtiest) else
      let b := s32 (b + 1) in
      let b := if (b <? internalStartBlock C) || (internalEndBlock C <? b) then internalStartBlock C else b in
      bi ← yaffs_GetBlockInfo b;
      st ← get_state b;
      take ← (if bool_decide (st = YAFFS_BLOCK_STATE_FULL) && (pagesInUse bi - softDeletions bi <? pages)
              then yaffs_BlockNotDisqualifiedFromGC bi else mret false);
      if take : bool then find_dirtiest n b b (pagesInUse bi - softDeletions bi) else find_dirtiest n b dirtiest pages
  end.

Definition YAFFS_PASSIVE_GC_CHUNKS : Z := 2.

Definition gc_iterations (aggressive : bool) : Z :=
  let iterations := s32 (internalEndBlock C - internalStartBlock C + 1) in
  if aggressive then iterations else Z.min (Z.quot iterations 16) 200.

Definition yaffs_FindBlockForGarbageCollection (aggressive : bool) : St device Z :=
  d ← get_st;
  '(prioritised, pending) ←
     (if hasPendingPrioritisedGCs d then
        find_prioritised (Z.to_nat (internalEndBlock C - internalStartBlock C)) (internalStartBlock C) false
      else mret (None, true));
  _ ← (if hasPendingPrioritisedGCs d && negb pending
       then modify (fun d => set_collector (currentDirtyChecker d) (nonAggressiveSkip d) false d) else mret tt);
  let aggressive := aggressive || match prioritised with Some _ => true | None => false end in
  _ ← modify (fun d => set_collector (currentDirtyChecker d) (s32 (nonAggressiveSkip d - 1)) (hasPendingPrioritisedGCs d) d);
  d ← get_st;
  if negb aggressive && (0 <? nonAggressiveSkip d) then mret (-1) else
  '(b, dirtiest) ←
     match prioritised with
     | Some (i, _) => mret (currentDirtyChecker d, i)
     | None => find_dirtiest (Z.to_nat (gc_iterations aggressive + 1)) (currentDirtyChecker d) (-1)
                 (if aggressive then chunks else YAFFS_PASSIVE_GC_CHUNKS + 1)
     end;
  _ ← modify (fun d => set_collector b (nonAggressiveSkip d) (hasPendingPrioritisedGCs d) d);
  _ ← modify (fun d => set_sequences (dev_sequenceNumber d) 0 d);
  _ ← (if 0 <? dirtiest then modify (fun d => set_collector (currentDirtyChecker d) 4 (hasPendingPrioritisedGCs d) d) else mret tt);
  mret dirtiest.

(** ** Counting free chunks *)

Fixpoint count_free (n : nat) (b nFree : Z) : St device Z :=
  match n with
  | O => mret nFree
  | S n =>
      blk ← yaffs_GetBlockInfo b;
      st ← get_state b;
      count_free n (b + 1)
        match st with
        | YAFFS_BLOCK_STATE_EMPTY | YAFFS_BLOCK_STATE_ALLOCATING | YAFFS_BLOCK_STATE_COLLECTING
        | YAFFS_BLOCK_STATE_FULL => s32 (nFree + (chunks - pagesInUse blk + softDeletions blk))
        | _ => nFree
        end
  end.

Definition yaffs_CountFreeChunks : St device Z :=
  count_free (Z.to_nat (internalEndBlock C - internalStartBlock C + 1)) (internalStartBlock C) 0.
End Blocks.
