(* ===== verification/YaffsSpace.v ===== *)
(** * Which chunks are in use (yaffs2/yaffs_guts.c)

    The books of [YaffsBlocks]: the number of pages in use of a block is the number of its
    bits, the number of erased blocks and of free chunks are what counting gives, and no
    operation erases or overwrites a chunk in use. *)

From S2P Require Import Prelude YaffsTags YaffsTagsCompat YaffsCheckpt YaffsBlocks.

(** ** Sums over the blocks *)

Fixpoint sum_to (n : nat) (f : nat -> Z) : Z :=
  match n with
  | O => 0
  | S n => sum_to n f + f n
  end.

Lemma sum_to_ext n f g : (forall i, (i < n)%nat -> f i = g i) -> sum_to n f = sum_to n g.
Proof. induction n as [|n IH]; intros H; cbn; [done|]. rewrite IH, H by (intros; try apply H; lia). done. Qed.

Lemma sum_to_le n f g : (forall i, (i < n)%nat -> f i <= g i) -> sum_to n f <= sum_to n g.
Proof.
  induction n as [|n IH]; intros H; cbn; [lia|]. specialize (IH (fun i Hi => H i (Nat.lt_lt_succ_r _ _ Hi))).
  specialize (H n (Nat.lt_succ_diag_r n)). lia.
Qed.

(** One term has changed. *)
Lemma sum_to_change n f g i : (i < n)%nat -> (forall j, (j < n)%nat -> j <> i -> g j = f j) ->
  sum_to n g = sum_to n f - f i + g i.
Proof.
  intros Hi H. induction n as [|n IH]; [lia|]. cbn. destruct (decide (i = n)) as [-> |Hne].
  - rewrite (sum_to_ext n g f); [lia|]. intros j Hj. apply H; lia.
  - rewrite (H n) by lia. rewrite IH; [lia|lia|]. intros j Hj. apply H. lia.
Qed.

Lemma sum_to_bounds n f lo hi : (forall i, (i < n)%nat -> lo <= f i <= hi) -> lo * Z.of_nat n <= sum_to n f <= hi * Z.of_nat n.
Proof.
  induction n as [|n IH]; intros H; cbn [sum_to]; [lia|]. specialize (IH (fun i Hi => H i (Nat.lt_lt_succ_r _ _ Hi))).
  specialize (H n (Nat.lt_succ_diag_r n)). lia.
Qed.

(** ** The view of one block *)

Section Space.
Context {D : CheckpointDriver} (C : block_config).
Local Open Scope Z_scope.

Definition stride : nat := Z.to_nat (chunkBitmapStride C).
Definition nBlocks : nat := Z.to_nat (internalEndBlock C - internalStartBlock C + 1).

Definition bit_of (bits : list Z) (i : nat) (c : Z) : bool :=
  Z.testbit (nth (stride * i + Z.to_nat (c / 8)) bits 0) (c mod 8).

Definition state_of (d : device) (i : nat) : yaffs_BlockState := nth i (blockState (ck d)) YAFFS_BLOCK_STATE_UNKNOWN.
Definition info_of (d : device) (i : nat) : yaffs_BlockInfo := nth i (blockInfo d) (BlockInfo 0 0 false false false 0 false 0).
Definition used (d : device) (i : nat) (c : Z) : bool := bit_of (chunkBits d) i c.

(** The pages of a block whose bit is set. *)
Definition count_bits (u : Z -> bool) : Z := sum_to (Z.to_nat (chunks C)) (fun c => if u (Z.of_nat c) then 1 else 0).

(** What a block adds to the count of free chunks; the pages of a block that is being
    collected are deleted one by one, its soft deleted ones too. *)
Definition free_of (st : yaffs_BlockState) (b : yaffs_BlockInfo) : Z :=
  match st with
  | YAFFS_BLOCK_STATE_EMPTY | YAFFS_BLOCK_STATE_ALLOCATING | YAFFS_BLOCK_STATE_FULL => chunks C - pagesInUse b + softDeletions b
  | YAFFS_BLOCK_STATE_COLLECTING => chunks C - pagesInUse b
  | _ => 0
  end.
Definition erased_of (st : yaffs_BlockState) : Z := if bool_decide (st = YAFFS_BLOCK_STATE_EMPTY) then 1 else 0.

(** What [yaffs_GutsInitialise] sets up for a device whose first block is 0. *)
Record space_config : Prop := {
  sc_start : startBlock (ckpt C) = 0 /\ 0 <= endBlock (ckpt C);
  sc_internal : internalStartBlock C = 1 /\ internalEndBlock C = endBlock (ckpt C) + 1;
  sc_offset : blockOffset C = 1 /\ chunkOffset C = chunks C;
  sc_chunks : 0 < chunks C <= 511;
  sc_stride : chunkBitmapStride C = (chunks C + 7) / 8;
  sc_max : (internalEndBlock C + 2) * chunks C < 2147483648;
  sc_functions : has_eraseBlockInNAND (ckpt C) = true /\ has_markNANDBlockBad (ckpt C) = true;
}.

(** In these states the soft deleted pages are counted as free. *)
Definition counts_soft (st : yaffs_BlockState) : bool :=
  match st with
  | YAFFS_BLOCK_STATE_EMPTY | YAFFS_BLOCK_STATE_ALLOCATING | YAFFS_BLOCK_STATE_FULL | YAFFS_BLOCK_STATE_CHECKPOINT => true
  | _ => false
  end.

(** Only in these states can a page be in use. *)
Definition occupied (st : yaffs_BlockState) : bool :=
  match st with
  | YAFFS_BLOCK_STATE_ALLOCATING | YAFFS_BLOCK_STATE_FULL | YAFFS_BLOCK_STATE_COLLECTING => true
  | _ => false
  end.

(** One block. *)
Record block_ok (st : yaffs_BlockState) (b : yaffs_BlockInfo) (u : Z -> bool) : Prop := {
  bk_pages : pagesInUse b = count_bits u;
  bk_soft : 0 <= softDeletions b <= pagesInUse b \/ (counts_soft st = false /\ 0 <= softDeletions b);
  bk_above : forall c, chunks C <= c < 8 * chunkBitmapStride C -> u c = false;
  bk_unused : occupied st = false -> pagesInUse b = 0;
  bk_strikes : 0 <= chunkErrorStrikes b /\ (needsRetiring b = false -> chunkErrorStrikes b <= 3);
}.

(** The arrays have their lengths. *)
Record shape (d : device) : Prop := {
  sh_info : length (blockInfo d) = nBlocks;
  sh_state : length (blockState (ck d)) = nBlocks;
  sh_bits : length (chunkBits d) = (stride * nBlocks)%nat;
  sh_u8 : Forall is_u8 (chunkBits d);
}.

(** The books of the device; [x] chunks are counted as free that are not. *)
Record books (x : Z) (d : device) : Prop := {
  ac_shape : shape d;
  ac_block : forall i, (i < nBlocks)%nat -> block_ok (state_of d i) (info_of d i) (used d i);
  ac_erased : nErasedBlocks (ck d) = sum_to nBlocks (fun i => erased_of (state_of d i));
  ac_free : nFreeChunks (ck d) = sum_to nBlocks (fun i => free_of (state_of d i) (info_of d i)) + x;
}.
Definition accounted : device -> Prop := books 0.

Lemma count_bits_ext u v : (forall c, 0 <= c < chunks C -> u c = v c) -> count_bits u = count_bits v.
Proof. intros H. unfold count_bits. apply sum_to_ext. intros i Hi. rewrite H by lia. done. Qed.

Lemma count_bits_bounds u : 0 < chunks C -> 0 <= count_bits u <= chunks C.
Proof.
  intros Hc. unfold count_bits. pose proof (sum_to_bounds (Z.to_nat (chunks C)) (fun c => if u (Z.of_nat c) then 1 else 0) 0 1) as H.
  rewrite Z2Nat.id in H by lia. rewrite Z.mul_0_l, Z.mul_1_l in H. apply H. intros i _. destruct (u _); lia.
Qed.

(** One bit has changed. *)
Lemma count_bits_change u v c : 0 <= c < chunks C -> (forall c', 0 <= c' < chunks C -> c' <> c -> v c' = u c') ->
  count_bits v = count_bits u - (if u c then 1 else 0) + (if v c then 1 else 0).
Proof.
  intros Hc H. unfold count_bits.
  rewrite (sum_to_change _ (fun c => if u (Z.of_nat c) then 1 else 0) (fun c => if v (Z.of_nat c) then 1 else 0) (Z.to_nat c)) by
    (try (intros j Hj Hne; rewrite H by lia; done); lia).
  by rewrite Z2Nat.id by lia.
Qed.

Lemma count_bits_le u v : (forall c, 0 <= c < chunks C -> u c = true -> v c = true) -> count_bits u <= count_bits v.
Proof.
  intros H. apply sum_to_le. intros i Hi. specialize (H (Z.of_nat i) ltac:(lia)). destruct (u (Z.of_nat i)); [by rewrite H|]. by destruct (v _).
Qed.

Lemma count_bits_zero u c : count_bits u = 0 -> 0 <= c < chunks C -> u c = false.
Proof.
  intros H Hc. destruct (u c) eqn:E; [|done]. exfalso. set (v := fun x => if x =? c then false else u x).
  pose proof (count_bits_bounds v ltac:(lia)). assert (count_bits v = count_bits u - 1); [|lia].
  rewrite (count_bits_change u v c Hc), E; [unfold v; rewrite Z.eqb_refl; lia|].
  intros c' _ Hne. unfold v. by destruct (Z.eqb_spec c' c).
Qed.

Lemma count_bits_none u : (forall c, 0 <= c < chunks C -> u c = false) -> count_bits u = 0.
Proof.
  intros H. unfold count_bits. pose proof (sum_to_bounds (Z.to_nat (chunks C)) (fun c => if u (Z.of_nat c) then 1 else 0) 0 0) as Hb.
  cut (0 * Z.of_nat (Z.to_nat (chunks C)) <= sum_to (Z.to_nat (chunks C)) (fun c => if u (Z.of_nat c) then 1 else 0) <= 0 * Z.of_nat (Z.to_nat (chunks C))); [lia|].
  apply Hb. intros i Hi. rewrite H by lia. done.
Qed.

Lemma block_ok_ext st b u v : space_config -> (forall c, 0 <= c < 8 * chunkBitmapStride C -> u c = v c) -> block_ok st b u -> block_ok st b v.
Proof.
  intros HC H [H1 H2 H3 H4 H5]. assert (chunks C <= 8 * chunkBitmapStride C) as Hle.
  { rewrite (sc_stride HC). pose proof (Z.div_mod (chunks C + 7) 8 ltac:(lia)). pose proof (Z.mod_pos_bound (chunks C + 7) 8 ltac:(lia)). lia. }
  pose proof (sc_chunks HC). split; [|done| |done|done].
  - rewrite H1. apply count_bits_ext. intros c Hc. apply H. lia.
  - intros c Hc. rewrite <- H by lia. by apply H3.
Qed.

(** ** Changes of one block *)

(** What the operations on a block leave alone. *)
Record same_rest (d d' : device) : Prop := {
  sr_flash : flash (ck d') = flash (ck d);
  sr_block : allocationBlock d' = allocationBlock d;
  sr_page : allocationPage d' = allocationPage d;
}.

(** A count has changed by [k], as an [int] can. *)
Definition count_by (x x' k : Z) : Prop := (exists n, x' = x + k + n * 4294967296) /\ (is_s32 x -> is_s32 x').

(** Block [i] has the state [st], the information [b] and the used pages [u], and the rest is as before. *)
Record changed (i : nat) (st : yaffs_BlockState) (b : yaffs_BlockInfo) (u : Z -> bool) (ne nf : Z) (d d' : device) : Prop := {
  ch_state : forall j, state_of d' j = if decide (j = i) then st else state_of d j;
  ch_info : forall j, info_of d' j = if decide (j = i) then b else info_of d j;
  ch_used : forall j c, (j < nBlocks)%nat -> 0 <= c < 8 * chunkBitmapStride C ->
    used d' j c = if decide (j = i) then u c else used d j c;
  ch_shape : shape d';
  ch_erased : count_by (nErasedBlocks (ck d)) (nErasedBlocks (ck d')) ne;
  ch_free : count_by (nFreeChunks (ck d)) (nFreeChunks (ck d')) nf;
  ch_rest : same_rest d d';
}.

Lemma count_by_refl x : count_by x x 0.
Proof. split; [exists 0; lia | done]. Qed.
Lemma count_by_trans x y z k l : count_by x y k -> count_by y z l -> count_by x z (k + l).
Proof. intros [[n ->] H1] [[m ->] H2]. split; [exists (n + m); lia | auto]. Qed.
Lemma count_by_s32 x k : count_by x (s32 (x + k)) k.
Proof.
  unfold count_by, s32, swrap, is_s32. change (2 ^ (32 - 1)) with 2147483648. change (2 ^ 32) with 4294967296.
  pose proof (Z.div_mod (x + k + 2147483648) 4294967296 ltac:(lia)). pose proof (Z.mod_pos_bound (x + k + 2147483648) 4294967296 ltac:(lia)).
  split; [|lia]. exists (- ((x + k + 2147483648) / 4294967296)). lia.
Qed.

Lemma same_rest_trans d d1 d2 : same_rest d d1 -> same_rest d1 d2 -> same_rest d d2.
Proof. intros [] []. split; congruence. Qed.

Lemma changed_trans i st1 b1 u1 ne1 nf1 st2 b2 u2 ne2 nf2 d d1 d2 :
  changed i st1 b1 u1 ne1 nf1 d d1 -> changed i st2 b2 u2 ne2 nf2 d1 d2 -> changed i st2 b2 u2 (ne1 + ne2) (nf1 + nf2) d d2.
Proof.
  intros [A1 A2 A3 A4 A5 A6 A7] [B1 B2 B3 B4 B5 B6 B7]. split.
  - intros j. rewrite B1, A1. by destruct (decide (j = i)).
  - intros j. rewrite B2, A2. by destruct (decide (j = i)).
  - intros j c Hj Hc. rewrite B3, A3 by done. by destruct (decide (j = i)).
  - done.
  - by apply (count_by_trans _ (nErasedBlocks (ck d1))).
  - by apply (count_by_trans _ (nFreeChunks (ck d1))).
  - by apply (same_rest_trans d d1).
Qed.

Lemma changed_at i st b u ne nf d d' : changed i st b u ne nf d d' -> (i < nBlocks)%nat ->
  state_of d' i = st /\ info_of d' i = b /\ forall c, 0 <= c < 8 * chunkBitmapStride C -> used d' i c = u c.
Proof.
  intros [H1 H2 H3 _ _ _ _] Hi. rewrite H1, H2, !decide_True by done. split; [done|]. split; [done|].
  intros c Hc. by rewrite H3, decide_True.
Qed.

(** The books after a change of one block. *)
Lemma free_of_bounds st b u : space_config -> block_ok st b u -> 0 <= free_of st b <= chunks C.
Proof.
  intros HC [H1 H2 _ _ _]. pose proof (count_bits_bounds u (proj1 (sc_chunks HC))). rewrite H1 in H2. unfold free_of. rewrite H1.
  destruct H2 as [H2|[H2 _]]; destruct st; try discriminate H2; lia.
Qed.

Lemma nBlocks_max : space_config -> (Z.of_nat nBlocks + 2) * chunks C < 2147483648 /\ Z.of_nat nBlocks < 2147483648.
Proof.
  intros [H1 H2 _ H4 _ H6 _]. unfold nBlocks. nia.
Qed.

Lemma books_changed x x' i st b u ne nf d d' : space_config -> books x d -> (i < nBlocks)%nat ->
  changed i st b u ne nf d d' -> block_ok st b u -> ne = erased_of st - erased_of (state_of d i) ->
  x' = x + nf - (free_of st b - free_of (state_of d i) (info_of d i)) -> - chunks C <= x <= chunks C -> - chunks C <= x' <= chunks C ->
  books x' d'.
Proof.
  intros HC [Hs Hb He Hf] Hi [H1 H2 H3 H4 H5 H6 _] Hok Hne Hnf Hx Hx'. pose proof (nBlocks_max HC) as [Hmax Hmax'].
  assert (forall j, (j < nBlocks)%nat -> block_ok (state_of d' j) (info_of d' j) (used d' j)) as Hb'.
  { intros j Hj. rewrite H1, H2. destruct (decide (j = i)) as [-> |Hne'].
    - apply (block_ok_ext _ _ u); [done| |done]. intros c Hc. by rewrite H3, decide_True.
    - apply (block_ok_ext _ _ (used d j)); [done| |by apply Hb]. intros c Hc. by rewrite H3, decide_False. }
  assert (forall s : yaffs_BlockState, 0 <= erased_of s <= 1) as Her by (intros s; unfold erased_of; case_bool_decide; lia).
  split; [done|done| |].
  - pose proof (sum_to_bounds nBlocks (fun j => erased_of (state_of d j)) 0 1 (fun j _ => Her _)) as Hbd.
    pose proof (sum_to_bounds nBlocks (fun j => erased_of (state_of d' j)) 0 1 (fun j _ => Her _)) as Hbd'.
    rewrite (sum_to_change _ (fun j => erased_of (state_of d j)) (fun j => erased_of (state_of d' j)) i Hi) in * by
      (intros j _ Hj; by rewrite H1, decide_False).
    rewrite H1, decide_True in * by done. destruct H5 as [[n Hn] Hr]. unfold is_s32 in Hr. lia.
  - pose proof (sum_to_bounds nBlocks (fun j => free_of (state_of d j) (info_of d j)) 0 (chunks C)
      (fun j Hj => free_of_bounds _ _ _ HC (Hb j Hj))) as Hbd.
    pose proof (sum_to_bounds nBlocks (fun j => free_of (state_of d' j) (info_of d' j)) 0 (chunks C)
      (fun j Hj => free_of_bounds _ _ _ HC (Hb' j Hj))) as Hbd'.
    rewrite (sum_to_change _ (fun j => free_of (state_of d j) (info_of d j)) (fun j => free_of (state_of d' j) (info_of d' j)) i Hi) in * by
      (intros j _ Hj; by rewrite H1, H2, !decide_False).
    rewrite H1, H2, !decide_True in * by done. destruct H6 as [[n Hn] Hr]. unfold is_s32 in Hr. lia.
Qed.

(** ** The operations on one block *)

Definition blk (i : nat) : Z := internalStartBlock C + Z.of_nat i.

Context (HC : space_config).

Lemma block_index_ok i : (i < nBlocks)%nat -> block_index C (blk i) = Some i.
Proof.
  intros Hi. unfold block_index, blk, nBlocks in *. pose proof HC as [_ H2 _ _ _ _ _].
  destruct (Z.ltb_spec (internalStartBlock C + Z.of_nat i) (internalStartBlock C)); [lia|].
  destruct (Z.ltb_spec (internalEndBlock C) (internalStartBlock C + Z.of_nat i)); [lia|]. cbn. f_equal. lia.
Qed.

Lemma get_info_ok d i : shape d -> (i < nBlocks)%nat -> yaffs_GetBlockInfo C (blk i) d = Some (info_of d i, d).
Proof.
  intros Hs Hi. unfold yaffs_GetBlockInfo. rewrite (lift_bind _ _ _ _ (block_index_ok i Hi)), get_st_bind. unfold lift.
  destruct (lookup_lt_is_Some_2 (blockInfo d) i) as [b Hb]; [by rewrite (sh_info d Hs)|]. rewrite Hb. cbn. unfold info_of.
  by rewrite (nth_lookup_Some _ _ _ _ Hb).
Qed.

Lemma get_state_ok d i : shape d -> (i < nBlocks)%nat -> get_state C (blk i) d = Some (state_of d i, d).
Proof.
  intros Hs Hi. unfold get_state. rewrite (lift_bind _ _ _ _ (block_index_ok i Hi)), get_st_bind. unfold lift.
  destruct (lookup_lt_is_Some_2 (blockState (ck d)) i) as [b Hb]; [by rewrite (sh_state d Hs)|]. rewrite Hb. cbn. unfold state_of.
  by rewrite (nth_lookup_Some _ _ _ _ Hb).
Qed.

Lemma nth_list_insert {A} (l : list A) i j x y : (i < length l)%nat -> nth j (<[i := x]> l) y = if decide (j = i) then x else nth j l y.
Proof.
  intros Hi. rewrite !nth_lookup. case_decide as Hij.
  - subst j. by rewrite list_lookup_insert_eq by done.
  - by rewrite list_lookup_insert_ne by done.
Qed.

Lemma update_info_ok d i g : shape d -> (i < nBlocks)%nat ->
  runs (update_info C (blk i) g) d (fun _ => changed i (state_of d i) (g (info_of d i)) (used d i) 0 0 d).
Proof.
  intros Hs Hi. unfold update_info. apply (runs_lift _ _ _ _ _ (block_index_ok i Hi)).
  eapply runs_bind, runs_eq; [by apply get_info_ok|]. eexists _, _. split; [reflexivity|]. pose proof Hs as [H1 H2 H3 H4].
  destruct d as [k bi cb ab ap af sq od cd ns hp ic s]. cbn in *. split.
  - intros j. by destruct (decide (j = i)) as [-> |].
  - intros j. unfold info_of. cbn. by rewrite nth_list_insert by lia.
  - intros j c Hj Hc. by destruct (decide (j = i)) as [-> |].
  - split; cbn; [by rewrite length_insert | done..].
  - apply count_by_refl.
  - apply count_by_refl.
  - done.
Qed.

Lemma set_state_ok d i st : shape d -> (i < nBlocks)%nat ->
  runs (set_state C (blk i) st) d (fun _ => changed i st (info_of d i) (used d i) 0 0 d).
Proof.
  intros Hs Hi. unfold set_state. apply (runs_lift _ _ _ _ _ (block_index_ok i Hi)).
  eapply runs_bind, runs_eq; [by apply get_state_ok|]. eexists _, _. split; [reflexivity|]. pose proof Hs as [H1 H2 H3 H4].
  destruct d as [k bi cb ab ap af sq od cd ns hp ic s]. destruct k. cbn in *. split.
  - intros j. unfold state_of. cbn. by rewrite nth_list_insert by lia.
  - intros j. by destruct (decide (j = i)) as [-> |].
  - intros j c Hj Hc. by destruct (decide (j = i)) as [-> |].
  - split; cbn; [done | by rewrite length_insert | done..].
  - apply count_by_refl.
  - apply count_by_refl.
  - done.
Qed.

Lemma add_free_ok d i n : shape d -> runs (add_free n) d (fun _ => changed i (state_of d i) (info_of d i) (used d i) 0 n d).
Proof.
  intros Hs. eexists _, _. split; [reflexivity|]. destruct Hs as [H1 H2 H3 H4].
  destruct d as [k bi cb ab ap af sq od cd ns hp ic s]. destruct k. cbn in *.
  split; [intros j; by destruct (decide (j = i)) as [-> |]..|split; done|apply count_by_refl|apply count_by_s32|done].
Qed.

Lemma add_erased_ok d i n : shape d -> runs (add_erased n) d (fun _ => changed i (state_of d i) (info_of d i) (used d i) n 0 d).
Proof.
  intros Hs. eexists _, _. split; [reflexivity|]. destruct Hs as [H1 H2 H3 H4].
  destruct d as [k bi cb ab ap af sq od cd ns hp ic s]. destruct k. cbn in *.
  split; [intros j; by destruct (decide (j = i)) as [-> |]..|split; done|apply count_by_s32|apply count_by_refl|done].
Qed.

Lemma BlockBits_ok i : (i < nBlocks)%nat -> yaffs_BlockBits C (blk i) = Some (Z.of_nat (stride * i)).
Proof.
  intros Hi. unfold yaffs_BlockBits. rewrite (block_index_ok i Hi). cbn. f_equal. unfold stride. pose proof (sc_stride HC).
  pose proof (sc_chunks HC). pose proof (Z.div_pos (chunks C + 7) 8 ltac:(lia) ltac:(lia)). lia.
Qed.

(** ** The bits *)

Lemma stride_id : Z.of_nat stride = chunkBitmapStride C /\ chunks C <= 8 * chunkBitmapStride C.
Proof.
  unfold stride. pose proof (sc_stride HC) as H. pose proof (sc_chunks HC). pose proof (Z.div_mod (chunks C + 7) 8 ltac:(lia)).
  pose proof (Z.mod_pos_bound (chunks C + 7) 8 ltac:(lia)). lia.
Qed.

(** The byte of a page, and which pages share it. *)
Lemma byte_range i c : (i < nBlocks)%nat -> 0 <= c < 8 * chunkBitmapStride C ->
  (Z.to_nat (c / 8) < stride)%nat /\ (stride * i + Z.to_nat (c / 8) < stride * nBlocks)%nat.
Proof.
  intros Hi Hc. pose proof stride_id as [Hs _]. assert (0 <= c / 8 < chunkBitmapStride C) as H.
  { split; [apply Z.div_pos; lia | apply Z.div_lt_upper_bound; lia]. }
  split; [lia|]. nia.
Qed.

Lemma byte_inj i c j c' : (i < nBlocks)%nat -> (j < nBlocks)%nat -> 0 <= c < 8 * chunkBitmapStride C -> 0 <= c' < 8 * chunkBitmapStride C ->
  (stride * i + Z.to_nat (c / 8) = stride * j + Z.to_nat (c' / 8))%nat -> i = j /\ c / 8 = c' / 8.
Proof.
  intros Hi Hj Hc Hc' He. destruct (byte_range i c Hi Hc) as [H1 _], (byte_range j c' Hj Hc') as [H2 _].
  pose proof (Z.div_pos c 8 ltac:(lia) ltac:(lia)). pose proof (Z.div_pos c' 8 ltac:(lia) ltac:(lia)).
  assert (i = j) as -> by nia. split; [done|]. lia.
Qed.

Lemma update_byte_ok d i c g : shape d -> (i < nBlocks)%nat -> 0 <= c < 8 * chunkBitmapStride C ->
  let b := nth (stride * i + Z.to_nat (c / 8)) (chunkBits d) 0 in is_u8 (g b) ->
  runs (update_byte C (blk i) c g) d (fun _ => changed i (state_of d i) (info_of d i)
    (fun c' => if c' / 8 =? c / 8 then Z.testbit (g b) (c' mod 8) else used d i c') 0 0 d).
Proof.
  intros Hs Hi Hc b Hb. destruct (byte_range i c Hi Hc) as [Hq Hr]. pose proof (Z.div_pos c 8 ltac:(lia) ltac:(lia)) as Hc8.
  unfold update_byte. apply (runs_lift _ _ _ _ _ (BlockBits_ok i Hi)), runs_get.
  replace (Z.to_nat (Z.of_nat (stride * i) + c / 8)) with (stride * i + Z.to_nat (c / 8))%nat by lia.
  destruct (lookup_lt_is_Some_2 (chunkBits d) (stride * i + Z.to_nat (c / 8))) as [b' Hb']; [by rewrite (sh_bits d Hs)|].
  apply (runs_lift _ _ _ _ _ Hb'). assert (b' = b) as -> by (unfold b; by rewrite (nth_lookup_Some _ _ _ _ Hb')).
  eexists _, _. split; [reflexivity|]. pose proof Hs as [H1 H2 H3 H4].
  assert (forall j c', (j < nBlocks)%nat -> 0 <= c' < 8 * chunkBitmapStride C ->
    bit_of (<[(stride * i + Z.to_nat (c / 8))%nat := g b]> (chunkBits d)) j c' =
    if decide (j = i) then (if c' / 8 =? c / 8 then Z.testbit (g b) (c' mod 8) else used d i c') else used d j c') as Hbits.
  { intros j c' Hj Hc'. unfold used, bit_of. rewrite nth_list_insert by (rewrite H3; lia).
    case_decide as Heq.
    - destruct (byte_inj j c' i c Hj Hi Hc' Hc Heq) as [-> He]. by rewrite decide_True, He, Z.eqb_refl.
    - case_decide as Hji; [|done]. subst j. destruct (Z.eqb_spec (c' / 8) (c / 8)) as [He|]; [|done]. by rewrite He in Heq. }
  destruct d as [k bi cb ab ap af sq od cd ns hp ic s]. cbn in *. split.
  - intros j. by destruct (decide (j = i)) as [-> |].
  - intros j. by destruct (decide (j = i)) as [-> |].
  - exact Hbits.
  - split; cbn; [done | done | by rewrite length_insert | by apply Forall_insert].
  - apply count_by_refl.
  - apply count_by_refl.
  - done.
Qed.

Lemma changed_used i st b u v ne nf d d' : (forall c, 0 <= c < 8 * chunkBitmapStride C -> u c = v c) ->
  changed i st b u ne nf d d' -> changed i st b v ne nf d d'.
Proof.
  intros H [H1 H2 H3 H4 H5 H6 H7]. split; [done|done| |done..]. intros j c Hj Hc. rewrite H3 by done. case_decide; [by apply H | done].
Qed.

(** The page number of a bit. *)
Lemma same_chunk_bit c c' : c' / 8 = c / 8 -> (c' mod 8 =? c mod 8) = (c' =? c).
Proof.
  intros H. pose proof (Z.div_mod c 8 ltac:(lia)). pose proof (Z.div_mod c' 8 ltac:(lia)).
  destruct (Z.eqb_spec (c' mod 8) (c mod 8)), (Z.eqb_spec c' c); try done; exfalso; [|subst]; lia.
Qed.

Lemma land_7_mod c : Z.land c 7 = c mod 8.
Proof. by apply (Z.land_ones c 3). Qed.

Lemma bit_mask k m : 0 <= k -> 0 <= m -> Z.testbit (Z.shiftl 1 k) m = (m =? k).
Proof.
  intros Hk Hm. rewrite Z.shiftl_spec by done. destruct (Z.eqb_spec m k) as [-> |Hne].
  - by rewrite Z.sub_diag.
  - destruct (Z.lt_ge_cases m k); [by rewrite Z.testbit_neg_r by lia|]. apply (Z.bits_above_log2 1 (m - k)); [lia|]. cbn. lia.
Qed.

Lemma clear_bit_ok d i c : shape d -> (i < nBlocks)%nat -> 0 <= c < 8 * chunkBitmapStride C ->
  runs (yaffs_ClearChunkBit C (blk i) c) d (fun _ => changed i (state_of d i) (info_of d i) (fun c' => if c' =? c then false else used d i c') 0 0 d).
Proof.
  intros Hs Hi Hc. pose proof (Z.mod_pos_bound c 8 ltac:(lia)) as Hm. unfold yaffs_ClearChunkBit. rewrite land_7_mod.
  eapply runs_weaken; [apply update_byte_ok; [done..|apply u8_range]|]. intros [] d'. apply changed_used. intros c' Hc'.
  pose proof (Z.mod_pos_bound c' 8 ltac:(lia)) as Hm'. destruct (Z.eqb_spec (c' / 8) (c / 8)) as [He|He].
  - rewrite u8_testbit, Z.land_spec, Z.lnot_spec, bit_mask, (same_chunk_bit c c' He) by lia.
    rewrite (proj2 (Z.ltb_lt (c' mod 8) 8)) by lia. destruct (Z.eqb_spec c' c) as [-> |Hne]; cbn [negb andb]; [apply andb_false_r|].
    rewrite andb_true_r. unfold used, bit_of. by rewrite He.
  - destruct (Z.eqb_spec c' c) as [-> |]; [done | done].
Qed.

Lemma set_bit_ok d i c : shape d -> (i < nBlocks)%nat -> 0 <= c < 8 * chunkBitmapStride C ->
  runs (yaffs_SetChunkBit C (blk i) c) d (fun _ => changed i (state_of d i) (info_of d i) (fun c' => if c' =? c then true else used d i c') 0 0 d).
Proof.
  intros Hs Hi Hc. pose proof (Z.mod_pos_bound c 8 ltac:(lia)) as Hm. unfold yaffs_SetChunkBit. rewrite land_7_mod.
  eapply runs_weaken; [apply update_byte_ok; [done..|apply u8_range]|]. intros [] d'. apply changed_used. intros c' Hc'.
  pose proof (Z.mod_pos_bound c' 8 ltac:(lia)) as Hm'. destruct (Z.eqb_spec (c' / 8) (c / 8)) as [He|He].
  - rewrite u8_testbit, Z.lor_spec, bit_mask, (same_chunk_bit c c' He) by lia.
    rewrite (proj2 (Z.ltb_lt (c' mod 8) 8)) by lia. destruct (Z.eqb_spec c' c) as [-> |Hne]; cbn [negb andb]; [apply orb_true_r|].
    rewrite orb_false_r. unfold used, bit_of. by rewrite He.
  - destruct (Z.eqb_spec c' c) as [-> |]; [done | done].
Qed.

Lemma check_bit_ok d i c : shape d -> (i < nBlocks)%nat -> 0 <= c < 8 * chunkBitmapStride C ->
  yaffs_CheckChunkBit C (blk i) c d = Some (used d i c, d).
Proof.
  intros Hs Hi Hc. destruct (byte_range i c Hi Hc) as [Hq Hr]. pose proof (Z.div_pos c 8 ltac:(lia) ltac:(lia)) as Hc8.
  unfold yaffs_CheckChunkBit. rewrite (lift_bind _ _ _ _ (BlockBits_ok i Hi)), get_st_bind.
  replace (Z.to_nat (Z.of_nat (stride * i) + c / 8)) with (stride * i + Z.to_nat (c / 8))%nat by lia.
  destruct (lookup_lt_is_Some_2 (chunkBits d) (stride * i + Z.to_nat (c / 8))) as [b Hb]; [by rewrite (sh_bits d Hs)|].
  rewrite (lift_bind _ _ _ _ Hb). unfold mret, St_ret. do 2 f_equal. rewrite land_7_mod. 
  pose proof (Z.mod_pos_bound c 8 ltac:(lia)). rewrite (truthy_land_bit _ _ (c mod 8)) by (try rewrite Z.shiftl_1_l; lia).
  unfold used, bit_of. by rewrite (nth_lookup_Some _ _ _ _ Hb).
Qed.

(** [memset(blkBits, 0, dev->chunkBitmapStride)] *)
Lemma nth_zeroed (l : list Z) o n k : (o + n <= length l)%nat ->
  nth k (take o l ++ replicate n 0 ++ drop (o + n) l) 0 = if decide (o <= k < o + n)%nat then 0 else nth k l 0.
Proof.
  intros H. rewrite !nth_lookup. case_decide as Hk.
  - rewrite lookup_app_r by (rewrite length_take; lia). rewrite lookup_app_l by (rewrite length_take, length_replicate; lia).
    rewrite length_take. rewrite lookup_replicate_2 by lia. done.
  - destruct (decide (k < o)%nat) as [Hlt|Hge].
    + rewrite lookup_app_l by (rewrite length_take; lia). by rewrite lookup_take_lt by lia.
    + rewrite lookup_app_r by (rewrite length_take; lia). rewrite lookup_app_r by (rewrite length_take, length_replicate; lia).
      rewrite lookup_drop, length_take, length_replicate. do 2 f_equal. lia.
Qed.

Lemma clear_chunk_bits_ok d i : shape d -> (i < nBlocks)%nat ->
  runs (yaffs_ClearChunkBits C (blk i)) d (fun _ => changed i (state_of d i) (info_of d i) (fun _ => false) 0 0 d).
Proof.
  intros Hs Hi. unfold yaffs_ClearChunkBits. apply (runs_lift _ _ _ _ _ (BlockBits_ok i Hi)), runs_get.
  pose proof stride_id as [Hst _]. pose proof Hs as [H1 H2 H3 H4]. assert (stride * i + stride <= stride * nBlocks)%nat as Hle by nia.
  rewrite (proj2 (Z.ltb_ge _ _)) by (rewrite H3; lia). eexists _, _. split; [reflexivity|].
  replace (Z.to_nat (Z.of_nat (stride * i))) with (stride * i)%nat by lia.
  replace (Z.to_nat (Z.of_nat (stride * i) + chunkBitmapStride C)) with (stride * i + stride)%nat by lia. fold stride.
  destruct d as [k bi cb ab ap af sq od cd ns hp ic s]. cbn in *. split.
  - intros j. by destruct (decide (j = i)) as [-> |].
  - intros j. by destruct (decide (j = i)) as [-> |].
  - intros j c Hj Hc. unfold used, bit_of. cbn. destruct (byte_range j c Hj Hc) as [Hq _].
    rewrite nth_zeroed by (rewrite H3; lia). destruct (decide (j = i)) as [-> |Hne].
    + rewrite decide_True by lia. apply Z.bits_0.
    + rewrite decide_False; [done|]. nia.
  - split; cbn; [done | done | |].
    + rewrite !length_app, length_take, length_replicate, length_drop, H3. lia.
    + apply Forall_app. split; [by apply Forall_take|]. apply Forall_app. split; [|by apply Forall_drop].
      apply Forall_replicate. done.
  - apply count_by_refl.
  - apply count_by_refl.
  - done.
Qed.
End Space.
