(* ===== verification/YaffsChunks.v ===== *)
(** * Taking, writing and deleting chunks (yaffs2/yaffs_guts.c)

    The operations of [YaffsBlocks] keep the books of [YaffsSpace], give out chunks that
    were free, and never touch the page of a chunk in use, whatever the flash answers. *)

From S2P Require Import Prelude YaffsTags YaffsTagsCompat YaffsCheckpt YaffsBlocks YaffsSpace.

(** What the drivers promise beside the laws of [YaffsCheckpt]: erasing a block or marking
    it bad, successful or not, leaves the pages of other blocks alone. *)
Class BlockDriverLaws (D : CheckpointDriver) (n : Z) {L : CheckpointDriverLaws D n} := {
  law_erase_other f b c : ~ b * n <= c < (b + 1) * n -> page (eraseBlockInNAND f b).1 c = page f c;
  law_bad_other f b c : ~ b * n <= c < (b + 1) * n -> page (markNANDBlockBad f b).1 c = page f c;
}.

Section Chunks.
Context {D : CheckpointDriver} (C : block_config) (HC : space_config C).
Context {L : CheckpointDriverLaws D (chunks C)} {BL : BlockDriverLaws D (chunks C)}.

(** The page of the flash where page [p] of block [i] is, and its chunk number. *)
Definition page_at (i : nat) (p : Z) : Z := Z.of_nat i * chunks C + p.
Definition chunk_at (i : nat) (p : Z) : Z := blk C i * chunks C + p.

Lemma chunk_page i p : chunk_at i p - chunkOffset C = page_at i p.
Proof. unfold chunk_at, page_at, blk. pose proof (sc_internal C HC). pose proof (sc_offset C HC). nia. Qed.

(** Every page in use, but those of [E], is still in use and unchanged. *)
Definition kept (E : nat -> Z -> Prop) (d d' : device) : Prop := forall i p, (i < nBlocks C)%nat -> 0 <= p < chunks C ->
  used C d i p = true -> ~ E i p -> used C d' i p = true /\ page (flash (ck d')) (page_at i p) = page (flash (ck d)) (page_at i p).
Definition none (i : nat) (p : Z) : Prop := False.

Lemma kept_refl E d : kept E d d.
Proof. done. Qed.
Lemma kept_trans E d d1 d2 : kept E d d1 -> kept E d1 d2 -> kept E d d2.
Proof.
  intros H1 H2 i p Hi Hp Hu HE. destruct (H1 i p Hi Hp Hu HE) as [Hu1 Hp1]. destruct (H2 i p Hi Hp Hu1 HE) as [Hu2 Hp2].
  split; [done | congruence].
Qed.
Lemma kept_none E d d' : kept none d d' -> kept E d d'.
Proof. intros H i p Hi Hp Hu _. apply H; [done..|intros []]. Qed.

(** ** The flash *)

Definition with_flash (f : Flash) (d : device) : device := set_ck (set_flash (ck d) f) d.

Lemma books_flash x f d : books C x d -> books C x (with_flash f d).
Proof.
  intros [[H1 H2 H3 H4] Hb He Hf]. destruct d as [k bi cb ab ap af sq od cd ns hp ic s]. destruct k. by split; [split|..].
Qed.

(** ** The checkpoint is dropped *)

Record invalidated (d d' : device) : Prop := {
  iv_state : forall j, state_of d' j = state_of d j \/
    (state_of d j = YAFFS_BLOCK_STATE_CHECKPOINT /\ (state_of d' j = YAFFS_BLOCK_STATE_EMPTY \/ state_of d' j = YAFFS_BLOCK_STATE_DEAD));
  iv_info : blockInfo d' = blockInfo d;
  iv_bits : chunkBits d' = chunkBits d;
  iv_alloc : allocationBlock d' = allocationBlock d /\ allocationPage d' = allocationPage d;
  iv_pages : forall i p, (i < nBlocks C)%nat -> 0 <= p < chunks C -> state_of d i <> YAFFS_BLOCK_STATE_CHECKPOINT ->
    page (flash (ck d')) (page_at i p) = page (flash (ck d)) (page_at i p);
  iv_clean : forall i p, (i < nBlocks C)%nat -> 0 <= p < chunks C -> state_of d i <> state_of d' i -> state_of d' i = YAFFS_BLOCK_STATE_EMPTY ->
    page (flash (ck d')) (page_at i p) = None;
}.

Lemma invalidated_refl d : invalidated d d.
Proof. split; [by left | done..]. Qed.
Lemma invalidated_trans d d1 d2 : invalidated d d1 -> invalidated d1 d2 -> invalidated d d2.
Proof.
  intros [A1 A2 A3 A4 A5 A6] [B1 B2 B3 B4 B5 B6]. split; [|congruence|congruence|intuition congruence| |].
  - intros j. destruct (A1 j) as [Ha|[Ha Ha']], (B1 j) as [Hb|[Hb Hb']]; [left; congruence|right; split; [congruence|done]|right; split; [done|]..].
    + rewrite Hb. tauto.
    + destruct Ha'; congruence.
  - intros i p Hi Hp Hn. rewrite B5; [by apply A5|done|done|]. destruct (A1 i) as [-> |[? ?]]; done.
  - intros i p Hi Hp Hne He. destruct (decide (state_of d1 i = state_of d2 i)) as [Heq|Hneq]; [|by apply B6].
    rewrite B5; [apply A6; congruence|done|done|congruence].
Qed.

(** A page of another block. *)
Lemma other_block i j p : 0 <= p < chunks C -> i <> j -> ~ Z.of_nat j * chunks C <= page_at i p < (Z.of_nat j + 1) * chunks C.
Proof. unfold page_at. intros Hp Hne H. nia. Qed.

Lemma get_state_ck d i : shape C d -> (i < nBlocks C)%nat -> get_blockState (ck d) (Z.of_nat i) = Some (state_of d i).
Proof.
  intros Hs Hi. unfold get_blockState. destruct (Z.ltb_spec (Z.of_nat i) 0); [lia|]. rewrite Nat2Z.id.
  destruct (lookup_lt_is_Some_2 (blockState (ck d)) i) as [b Hb]; [by rewrite (sh_state C d Hs)|]. rewrite Hb. unfold state_of.
  by rewrite (nth_lookup_Some _ _ _ _ Hb).
Qed.

Lemma changed_ck d i st ne ne' nf nf' : shape C d -> (i < nBlocks C)%nat ->
  count_by (nErasedBlocks (ck d)) ne' ne -> count_by (nFreeChunks (ck d)) nf' nf ->
  changed C i st (info_of d i) (used C d i) ne nf d (set_ck (set_space (set_blockState (ck d) (<[i := st]> (blockState (ck d)))) ne' nf') d).
Proof.
  intros [H1 H2 H3 H4] Hi Hne Hnf. destruct d as [k bi cb ab ap af sq od cd ns hp ic s]. destruct k. cbn in *. split.
  - intros j. unfold state_of. cbn. by rewrite nth_list_insert by lia.
  - intros j. by destruct (decide (j = i)) as [-> |].
  - intros j c Hj Hc. by destruct (decide (j = i)) as [-> |].
  - split; cbn; [done | by rewrite length_insert | done..].
  - done.
  - done.
  - done.
Qed.

(** A checkpoint block [i] gets the state [st] on the flash [f]. *)
Lemma drop_checkpoint x d f i st ne ne' nf nf' : books C x d -> - chunks C <= x <= chunks C -> (i < nBlocks C)%nat ->
  state_of d i = YAFFS_BLOCK_STATE_CHECKPOINT -> count_by (nErasedBlocks (ck d)) ne' ne -> count_by (nFreeChunks (ck d)) nf' nf ->
  (st = YAFFS_BLOCK_STATE_EMPTY /\ ne = 1 /\ nf = chunks C) \/ (st = YAFFS_BLOCK_STATE_DEAD /\ ne = 0 /\ nf = 0) ->
  (forall c, ~ Z.of_nat i * chunks C <= c < (Z.of_nat i + 1) * chunks C -> page f c = page (flash (ck d)) c) ->
  (st = YAFFS_BLOCK_STATE_EMPTY -> forall p, 0 <= p < chunks C -> page f (page_at i p) = None) ->
  let d' := set_ck (set_space (set_blockState (set_flash (ck d) f) (<[i := st]> (blockState (ck d)))) ne' nf') d in
  books C x d' /\ invalidated d d'.
Proof.
  intros Hb Hx Hi Hst Hne Hnf Hcase Hpage Hclean d'. pose proof (books_flash x f d Hb) as Hbf.
  assert (changed C i st (info_of (with_flash f d) i) (used C (with_flash f d) i) ne nf (with_flash f d) d') as Hch.
  { pose proof (changed_ck (with_flash f d) i st ne ne' nf nf' (ac_shape C x _ Hbf) Hi) as H. unfold d'.
    destruct d as [k bi cb ab ap af sq od cd ns hp ic s]. destruct k. by apply H. }
  pose proof (ac_block C x _ Hbf i Hi) as [B1 B2 B3 B4 B5].
  assert (state_of (with_flash f d) i = YAFFS_BLOCK_STATE_CHECKPOINT) as Hst' by (destruct d as [k ? ? ? ? ? ? ? ? ? ? ? ?]; by destruct k).
  specialize (B4 ltac:(by rewrite Hst')). rewrite Hst' in B2. destruct B2 as [B2|[B2 _]]; [|discriminate B2]. split.
  - apply (books_changed C x x i st (info_of (with_flash f d) i) (used C (with_flash f d) i) ne nf (with_flash f d)); [done..| | | |done|done].
    + split; [done|by left|done| |done]. by destruct Hcase as [(-> & _)|(-> & _)].
    + rewrite Hst'. destruct Hcase as [(-> & -> & _)|(-> & -> & _)]; done.
    + rewrite Hst'. unfold free_of. destruct Hcase as [(-> & _ & ->)|(-> & _ & ->)]; lia.
  - destruct Hch as [H1 _ _ _ _ _ [Hfl _ _]].
    replace (flash (ck (with_flash f d))) with f in Hfl by (destruct d as [k ? ? ? ? ? ? ? ? ? ? ? ?]; by destruct k). split.
    + intros j. rewrite H1. case_decide as Hj; [subst j; right|left; destruct d as [k ? ? ? ? ? ? ? ? ? ? ? ?]; by destruct k].
      split; [done|]. destruct Hcase as [(-> & _)|(-> & _)]; [by left|by right].
    + by destruct d.
    + by destruct d.
    + by destruct d.
    + intros j p Hj Hp Hn. rewrite Hfl. apply Hpage, other_block; [done|]. intros ->. by apply Hn.
    + intros j p Hj Hp Hne' He'. rewrite Hfl, H1 in *. destruct (decide (j = i)) as [-> |]; [by apply Hclean|].
      exfalso. apply Hne'. destruct d as [k ? ? ? ? ? ? ? ? ? ? ? ?]. by destruct k.
Qed.

Lemma put_state_ck k i st : (i < length (blockState k))%nat ->
  put_blockState k (Z.of_nat i) st = Some (set_blockState k (<[i := st]> (blockState k))).
Proof.
  intros Hi. unfold put_blockState. destruct (Z.ltb_spec (Z.of_nat i) 0); [lia|].
  destruct (Z.leb_spec (Z.of_nat (length (blockState k))) (Z.of_nat i)); [lia|]. cbn. by rewrite Nat2Z.id.
Qed.

Lemma erase_step x d i : books C x d -> - chunks C <= x <= chunks C -> (i < nBlocks C)%nat ->
  exists k, erase_loop (ckpt C) 1 (Z.of_nat i) (ck d) = Some k /\ books C x (set_ck k d) /\ invalidated d (set_ck k d).
Proof.
  intros Hb Hx Hi. pose proof (ac_shape C x d Hb) as Hs. cbn [erase_loop]. rewrite (get_state_ck d i Hs Hi). cbn [mbind option_bind].
  case_bool_decide as Hst.
  2:{ exists (ck d). split; [done|]. replace (set_ck (ck d) d) with d by (by destruct d). split; [done | apply invalidated_refl]. }
  pose proof (law_erase_other (flash (ck d)) (Z.of_nat i)) as Hpe. pose proof (law_erase (flash (ck d)) (Z.of_nat i)) as Hce. destruct (eraseBlockInNAND (flash (ck d)) (Z.of_nat i)) as [f r].
  cbn [fst snd] in Hpe, Hce. assert (i < length (blockState (ck d)))%nat as Hlen by (by rewrite (sh_state C d Hs)).
  assert (blockState (set_flash (ck d) f) = blockState (ck d)) as Hbs by (by destruct (ck d)).
  destruct (truthy r) eqn:Hr.
  - rewrite put_state_ck by (by rewrite Hbs). cbn [mbind option_bind]. rewrite Hbs. eexists. split; [reflexivity|].
    apply (drop_checkpoint x d f i YAFFS_BLOCK_STATE_EMPTY 1 _ (chunks C) _ Hb Hx Hi Hst).
    + replace (nErasedBlocks (set_blockState _ _)) with (nErasedBlocks (ck d)) by (by destruct (ck d)). apply count_by_s32.
    + replace (nFreeChunks (set_blockState _ _)) with (nFreeChunks (ck d)) by (by destruct (ck d)). apply count_by_s32.
    + by left.
    + exact Hpe.
    + intros _ p Hp. rewrite Hce by done. unfold page_at. destruct (Z.leb_spec (Z.of_nat i * chunks C) (Z.of_nat i * chunks C + p)); [|lia].
      destruct (Z.ltb_spec (Z.of_nat i * chunks C + p) ((Z.of_nat i + 1) * chunks C)); [done | lia].
  - pose proof (sc_functions C HC) as [_ ->]. cbn [negb]. replace (flash (set_flash (ck d) f)) with f by (by destruct (ck d)).
    pose proof (law_bad_other f (Z.of_nat i)) as Hpb. destruct (markNANDBlockBad f (Z.of_nat i)) as [f' r']. cbn [fst] in Hpb.
    assert (set_flash (set_flash (ck d) f) f' = set_flash (ck d) f') as -> by (by destruct (ck d)).
    assert (blockState (set_flash (ck d) f') = blockState (ck d)) as Hbs' by (by destruct (ck d)).
    rewrite put_state_ck by (by rewrite Hbs'). cbn [mbind option_bind]. rewrite Hbs'. eexists. split; [reflexivity|].
    pose proof (drop_checkpoint x d f' i YAFFS_BLOCK_STATE_DEAD 0 _ 0 _ Hb Hx Hi Hst (count_by_refl _) (count_by_refl _)) as H.
    replace (set_space (set_blockState (set_flash (ck d) f') _) _ _) with
      (set_blockState (set_flash (ck d) f') (<[i := YAFFS_BLOCK_STATE_DEAD]> (blockState (ck d)))) in H by (by destruct (ck d)).
    apply H; [by right| |done]. intros c Hc. by rewrite Hpb, Hpe.
Qed.

Lemma set_ck_ck k d : ck (set_ck k d) = k.
Proof. by destruct d. Qed.
Lemma set_ck_twice k k' d : set_ck k (set_ck k' d) = set_ck k d.
Proof. by destruct d. Qed.

Lemma erase_loop_books n i x d : books C x d -> - chunks C <= x <= chunks C -> (i + n <= nBlocks C)%nat ->
  exists k, erase_loop (ckpt C) n (Z.of_nat i) (ck d) = Some k /\ books C x (set_ck k d) /\ invalidated d (set_ck k d).
Proof.
  revert i d. induction n as [|n IH]; intros i d Hb Hx Hi.
  { exists (ck d). split; [done|]. replace (set_ck (ck d) d) with d by (by destruct d). split; [done | apply invalidated_refl]. }
  destruct (erase_step x d i Hb Hx ltac:(lia)) as (k1 & E1 & Hb1 & Hv1). rewrite (erase_loop_S _ _ _ _ _ E1).
  destruct (IH (S i) (set_ck k1 d) Hb1 Hx ltac:(lia)) as (k2 & E2 & Hb2 & Hv2).
  rewrite set_ck_ck, Nat2Z.inj_succ in E2. unfold Z.succ in E2. rewrite set_ck_twice in Hb2, Hv2.
  exists k2. split; [done|]. split; [done|]. by apply (invalidated_trans d (set_ck k1 d)).
Qed.

Lemma invalidate_ok x d : books C x d -> - chunks C <= x <= chunks C ->
  runs (yaffs_InvalidateCheckpoint C) d (fun _ d' => books C x d' /\ invalidated d d').
Proof.
  intros Hb Hx. unfold yaffs_InvalidateCheckpoint. apply runs_get.
  destruct (isCheckpointed d || _); [|apply runs_ret; split; [done | apply invalidated_refl]].
  unfold yaffs_CheckpointInvalidateStream, yaffs_CheckpointErase.
  assert (forall k, books C x (set_ck k d) -> invalidated d (set_ck k d) ->
    books C x (set_ck k (set_isCheckpointed false d)) /\ invalidated d (set_ck k (set_isCheckpointed false d))) as Hfin.
  { intros k [[K1 K2 K3 K4] K5 K6 K7] [J1 J2 J3 J4 J5 J6]. destruct d. split; [by split; [split|..] | by split]. }
  destruct (truthy _).
  2:{ eapply runs_lift; [reflexivity|]. eexists _, _. split; [reflexivity|]. apply Hfin; replace (set_ck (ck d) d) with d by (by destruct d);
      [done | apply invalidated_refl]. }
  pose proof (sc_functions C HC) as [-> _]. cbn [negb]. pose proof (sc_start C HC) as [Hst He]. pose proof (sc_internal C HC) as [Hi1 Hi2].
  destruct (erase_loop_books (nBlocks C) 0 x d Hb Hx ltac:(lia)) as (k & E & Hb' & Hv').
  rewrite Hst. replace (Z.to_nat (endBlock (ckpt C) - 0 + 1)) with (nBlocks C) by (unfold nBlocks; rewrite Hi1, Hi2; lia).
  change (Z.of_nat 0) with 0 in E. rewrite E. cbn [mbind option_bind]. eapply runs_lift; [reflexivity|].
  eexists _, _. split; [reflexivity|]. apply Hfin.
  - destruct Hb' as [[K1 K2 K3 K4] K5 K6 K7]. destruct d, k. by split; [split|..].
  - destruct Hv' as [J1 J2 J3 J4 J5 J6]. destruct d, k. by split.
Qed.

(** ** A block is worked on *)

(** Outside block [i] nothing happens, except that a checkpoint may be dropped. *)
Record beyond (i : nat) (d d' : device) : Prop := {
  by_state : forall j, j <> i -> state_of d' j = state_of d j \/
    (state_of d j = YAFFS_BLOCK_STATE_CHECKPOINT /\ (state_of d' j = YAFFS_BLOCK_STATE_EMPTY \/ state_of d' j = YAFFS_BLOCK_STATE_DEAD));
  by_info : forall j, j <> i -> info_of d' j = info_of d j;
  by_used : forall j c, j <> i -> (j < nBlocks C)%nat -> 0 <= c < 8 * chunkBitmapStride C -> used C d' j c = used C d j c;
  by_alloc : allocationBlock d' = allocationBlock d /\ allocationPage d' = allocationPage d;
  by_pages : forall j p, j <> i -> (j < nBlocks C)%nat -> 0 <= p < chunks C -> state_of d j <> YAFFS_BLOCK_STATE_CHECKPOINT ->
    page (flash (ck d')) (page_at j p) = page (flash (ck d)) (page_at j p);
  by_clean : forall j p, j <> i -> (j < nBlocks C)%nat -> 0 <= p < chunks C -> state_of d j <> state_of d' j ->
    state_of d' j = YAFFS_BLOCK_STATE_EMPTY -> page (flash (ck d')) (page_at j p) = None;
}.

Lemma beyond_refl i d : beyond i d d.
Proof. split; [by left | done..]. Qed.

Lemma beyond_trans i d d1 d2 : beyond i d d1 -> beyond i d1 d2 -> beyond i d d2.
Proof.
  intros [A1 A2 A3 A4 A5 A6] [B1 B2 B3 B4 B5 B6]. split; [| | |intuition congruence| |].
  - intros j Hj. destruct (A1 j Hj) as [Ha|[Ha Ha']], (B1 j Hj) as [Hb|[Hb Hb']];
      [left; congruence|right; split; [congruence|done]|right; split; [done|]..].
    + rewrite Hb. tauto.
    + destruct Ha'; congruence.
  - intros j Hj. by rewrite B2, A2.
  - intros j c Hj Hn Hc. by rewrite B3, A3.
  - intros j p Hj Hn Hp Hne. rewrite B5; [by apply A5|done..|]. destruct (A1 j Hj) as [-> |[? ?]]; done.
  - intros j p Hj Hn Hp Hne He. destruct (decide (state_of d1 j = state_of d2 j)) as [Heq|Hneq]; [|by apply B6].
    rewrite B5; [apply A6; congruence|done..|congruence].
Qed.

Lemma beyond_changed i st b u ne nf d d' : changed C i st b u ne nf d d' -> beyond i d d'.
Proof.
  intros [H1 H2 H3 _ _ _ [Hf Ha Hp]].
  split; [intros j Hj; left; by rewrite H1, decide_False|intros j Hj; by rewrite H2, decide_False| | | |].
  - intros j c Hj Hn Hc. by rewrite H3, decide_False.
  - done.
  - intros j p Hj Hn Hp' _. by rewrite Hf.
  - intros j p Hj Hn Hp' Hne. destruct Hne. by rewrite H1, decide_False.
Qed.

Lemma beyond_invalidated i d d' : invalidated d d' -> beyond i d d'.
Proof.
  intros [A1 A2 A3 A4 A5 A6]. split; [done| | |done|intros j p _; apply A5|intros j p _; apply A6].
  - intros j Hj. unfold info_of. by rewrite A2.
  - intros j c Hj Hn Hc. unfold used. by rewrite A3.
Qed.

(** The flash of block [i] changes. *)
Lemma beyond_flash i f d : (forall c, ~ Z.of_nat i * chunks C <= c < (Z.of_nat i + 1) * chunks C -> page f c = page (flash (ck d)) c) ->
  beyond i d (with_flash f d).
Proof.
  intros H. destruct d as [k bi cb ab ap af sq od cd ns hp ic s]. destruct k. cbn in H. split; cbn; [by left | done.. | |done].
  intros j p Hj Hn Hp _. by apply H, other_block.
Qed.

(** What stays when only the flash changes. *)
Lemma with_flash_same f d : blockInfo (with_flash f d) = blockInfo d /\ chunkBits (with_flash f d) = chunkBits d /\
  blockState (ck (with_flash f d)) = blockState (ck d) /\ flash (ck (with_flash f d)) = f.
Proof. destruct d as [k ? ? ? ? ? ? ? ? ? ? ? ?]. by destruct k. Qed.

Record same_tables (d d' : device) : Prop := {
  tb_info : blockInfo d' = blockInfo d;
  tb_bits : chunkBits d' = chunkBits d;
  tb_state : blockState (ck d') = blockState (ck d);
}.

Lemma same_tables_of d d' : same_tables d d' -> (forall j, state_of d' j = state_of d j) /\ (forall j, info_of d' j = info_of d j) /\
  (forall j c, used C d' j c = used C d j c).
Proof. intros [H1 H2 H3]. unfold state_of, info_of, used. by rewrite H1, H2, H3. Qed.

Lemma books_stats x g d : books C x d -> books C x (set_stats g d).
Proof. intros [[H1 H2 H3 H4] Hb He Hf]. destruct d. by split; [split|..]. Qed.

Lemma erase_nand_ok x d i : books C x d -> (i < nBlocks C)%nat ->
  runs (yaffs_EraseBlockInNAND C (blk C i)) d (fun r d' => books C x d' /\ same_tables d d' /\ beyond i d d' /\
    (truthy r = true -> forall p, 0 <= p < chunks C -> page (flash (ck d')) (page_at i p) = None)).
Proof.
  intros Hb Hi. unfold yaffs_EraseBlockInNAND. apply runs_modify, runs_get.
  replace (blk C i - blockOffset C) with (Z.of_nat i) by (unfold blk; pose proof (sc_internal C HC); pose proof (sc_offset C HC); lia).
  set (d1 := set_stats _ d). assert (books C x d1) as Hb1 by (by apply books_stats).
  assert (forall f r, (forall c, ~ Z.of_nat i * chunks C <= c < (Z.of_nat i + 1) * chunks C -> page f c = page (flash (ck d1)) c) ->
    (truthy r = true -> forall p, 0 <= p < chunks C -> page f (page_at i p) = None) ->
    runs (modify (fun d => set_ck (set_flash (ck d) f) d) ≫= (fun _ => mret r)) d1 (fun r d' => books C x d' /\ same_tables d d' /\ beyond i d d' /\
    (truthy r = true -> forall p, 0 <= p < chunks C -> page (flash (ck d')) (page_at i p) = None))) as Hfin.
  { intros f r Hpe Hce. apply runs_modify, runs_ret. fold (with_flash f d1). destruct (with_flash_same f d1) as (F1 & F2 & F3 & F4).
    split; [by apply books_flash|]. split; [split; [rewrite F1|rewrite F2|rewrite F3]; by destruct d|]. rewrite F4. split; [|done].
    apply (beyond_trans i d d1); [destruct d; split; [by left | done..] | by apply beyond_flash]. }
  assert (forall f r f', eraseBlockInNAND f' (Z.of_nat i) = (f, r) -> truthy r = true -> forall p, 0 <= p < chunks C -> page f (page_at i p) = None) as Hcl.
  { intros f r f' E Hr p Hp. pose proof (law_erase f' (Z.of_nat i) (page_at i p)) as Hc. rewrite E in Hc. cbn in Hc. rewrite Hc by done.
    unfold page_at. destruct (Z.leb_spec (Z.of_nat i * chunks C) (Z.of_nat i * chunks C + p)); [|lia].
    destruct (Z.ltb_spec (Z.of_nat i * chunks C + p) ((Z.of_nat i + 1) * chunks C)); [done | lia]. }
  pose proof (law_erase_other (flash (ck d1)) (Z.of_nat i)) as Hpe. destruct (eraseBlockInNAND (flash (ck d1)) (Z.of_nat i)) as [f r] eqn:E.
  cbn [fst] in Hpe. destruct (truthy r) eqn:Hr; [apply Hfin; [done | by apply (Hcl f r _ E)]|].
  pose proof (law_erase_other f (Z.of_nat i)) as Hpe'. destruct (eraseBlockInNAND f (Z.of_nat i)) as [f' r'] eqn:E'. cbn [fst] in Hpe'.
  apply Hfin; [intros c Hc; by rewrite Hpe', Hpe | by apply (Hcl f' r' _ E')].
Qed.

Lemma mark_bad_ok x d i : books C x d -> (i < nBlocks C)%nat ->
  runs (yaffs_MarkBlockBad C (blk C i)) d (fun _ d' => books C x d' /\ same_tables d d' /\ beyond i d d').
Proof.
  intros Hb Hi. unfold yaffs_MarkBlockBad. apply runs_get.
  replace (blk C i - blockOffset C) with (Z.of_nat i) by (unfold blk; pose proof (sc_internal C HC); pose proof (sc_offset C HC); lia).
  pose proof (law_bad_other (flash (ck d)) (Z.of_nat i)) as Hpb. destruct (markNANDBlockBad (flash (ck d)) (Z.of_nat i)) as [f r].
  cbn [fst] in Hpb. apply runs_modify, runs_ret. fold (with_flash f d). destruct (with_flash_same f d) as (F1 & F2 & F3 & F4).
  split; [by apply books_flash|]. split; [by split|]. by apply beyond_flash.
Qed.

(** Block [i] has the state [st], the information [b] and no page in use. *)
Record vacant (i : nat) (st : yaffs_BlockState) (b : yaffs_BlockInfo) (d : device) : Prop := {
  vc_state : state_of d i = st;
  vc_info : info_of d i = b;
  vc_pages : pagesInUse b = 0 /\ (softDeletions b = 0 \/ (counts_soft st = false /\ 0 <= softDeletions b));
  vc_used : forall c, 0 <= c < 8 * chunkBitmapStride C -> used C d i c = false;
  vc_strikes : 0 <= chunkErrorStrikes b /\ (needsRetiring b = false -> chunkErrorStrikes b <= 3);
}.

Lemma vacant_block_ok i st b d : vacant i st b d -> block_ok C st b (used C d i).
Proof.
  intros [_ _ [H1 H2] H3 H4]. pose proof (stride_id C HC) as [_ Hs]. split; [|destruct H2 as [H2|H2]; [left; lia|by right]| |done|done].
  - rewrite H1. symmetry. apply count_bits_none. intros c Hc. apply H3. lia.
  - intros c Hc. apply H3. pose proof (sc_chunks C HC). lia.
Qed.

Lemma vacant_of d i : accounted C d -> (i < nBlocks C)%nat -> pagesInUse (info_of d i) = 0 -> vacant i (state_of d i) (info_of d i) d.
Proof.
  intros Hb Hi Hp. destruct (ac_block C 0 d Hb i Hi) as [B1 B2 B3 _ B5]. pose proof (stride_id C HC) as [_ Hs].
  split; [done|done|split; [done|destruct B2 as [B2|B2]; [left; lia|by right]]| |done].
  intros c Hc. destruct (decide (c < chunks C)) as [Hlt|Hge]; [|apply B3; lia]. apply (count_bits_zero C); [congruence | lia].
Qed.

Lemma vacant_tables i st b d d' : vacant i st b d -> same_tables d d' -> vacant i st b d'.
Proof.
  intros [H1 H2 H3 H4 H5] Ht. destruct (same_tables_of d d' Ht) as (T1 & T2 & T3). split; [by rewrite T1|by rewrite T2|done| |done].
  intros c Hc. rewrite T3. by apply H4.
Qed.

Lemma vacant_invalidated i st b d d' : st <> YAFFS_BLOCK_STATE_CHECKPOINT -> vacant i st b d -> invalidated d d' -> vacant i st b d'.
Proof.
  intros Hn [H1 H2 H3 H4 H5] [A1 A2 A3 _ _ _]. split; [destruct (A1 i) as [-> |[? ?]]; congruence|unfold info_of; by rewrite A2|done| |done].
  intros c Hc. unfold used. rewrite A3. by apply H4.
Qed.

Lemma vacant_changed i st b st' b' u d d' ne nf : changed C i st' b' u ne nf d d' -> (i < nBlocks C)%nat ->
  pagesInUse b' = 0 /\ (softDeletions b' = 0 \/ (counts_soft st' = false /\ 0 <= softDeletions b')) -> (forall c, 0 <= c < 8 * chunkBitmapStride C -> u c = false) -> vacant i st b d ->
  chunkErrorStrikes b' = chunkErrorStrikes b /\ needsRetiring b' = needsRetiring b -> vacant i st' b' d'.
Proof.
  intros Hch Hi Hb Hu [_ _ _ _ Hs] [Hs1 Hs2]. destruct (changed_at C _ _ _ _ _ _ _ _ Hch Hi) as (H1 & H2 & H3).
  split; [done|done|done| |by rewrite Hs1, Hs2].
  intros c Hc. rewrite H3 by done. by apply Hu.
Qed.

(** A state in which the soft deleted pages are not counted. *)
Lemma vacant_soft i st b d st' : vacant i st b d -> counts_soft st' = false ->
  pagesInUse b = 0 /\ (softDeletions b = 0 \/ (counts_soft st' = false /\ 0 <= softDeletions b)).
Proof. intros [_ _ [H1 [H2|[_ H2]]] _ _] Hst; (split; [done|]); [by left | by right]. Qed.

Lemma retire_ok d i b : accounted C d -> (i < nBlocks C)%nat -> vacant i YAFFS_BLOCK_STATE_DIRTY b d ->
  runs (yaffs_RetireBlock C (blk C i)) d (fun _ d' => accounted C d' /\ vacant i YAFFS_BLOCK_STATE_DEAD b d' /\ beyond i d d').
Proof.
  intros Hb Hi Hv. pose proof (sc_chunks C HC) as Hch. unfold yaffs_RetireBlock.
  eapply runs_cut; [apply (invalidate_ok 0 d Hb); lia|]. intros [] d1 [Hb1 Hiv].
  eapply runs_cut; [apply (mark_bad_ok 0 d1 i Hb1 Hi)|]. intros r d2 (Hb2 & Ht2 & Hy2).
  assert (vacant i YAFFS_BLOCK_STATE_DIRTY b d2) as Hv2.
  { apply (vacant_tables _ _ _ d1); [|done]. by apply (vacant_invalidated _ _ _ d). }
  eapply runs_cut; [apply (set_state_ok C HC d2 i YAFFS_BLOCK_STATE_DEAD (ac_shape C 0 d2 Hb2) Hi)|]. intros [] d3 Hch3.
  eexists _, _. split; [reflexivity|]. pose proof Hv2 as [V1 V2 V3 V4 V5]. rewrite V2 in Hch3.
  assert (vacant i YAFFS_BLOCK_STATE_DEAD b d3) as Hv3 by (by apply (vacant_changed _ YAFFS_BLOCK_STATE_DIRTY b _ _ _ _ _ _ _ Hch3)).
  split; [|split].
  - apply books_stats. apply (books_changed C 0 0 i _ _ _ _ _ d2 d3 HC Hb2 Hi Hch3); rewrite ?V1, ?V2; [|done|cbn;lia|lia|lia].
    destruct (vacant_block_ok i YAFFS_BLOCK_STATE_DIRTY b d2) as [W1 W2 W3 _ W5]; [by split|]. split; [done| |done|intros _; exact (proj1 V3)|done].
    destruct W2 as [W2|[_ W2]]; [by left | by right].
  - destruct Hv3 as [U1 U2 U3 U4 U5]. destruct d3. by split.
  - apply (beyond_trans i d d1); [by apply beyond_invalidated|]. apply (beyond_trans i d1 d2 _ Hy2).
    apply (beyond_trans i d2 d3); [by apply (beyond_changed _ _ _ _ _ _ _ _ Hch3)|]. destruct d3. split; [by left | done..].
Qed.

(** The erased block is taken back. *)
Lemma clean_up_ok d i b : books C (chunks C) d -> (i < nBlocks C)%nat -> vacant i YAFFS_BLOCK_STATE_DIRTY b d ->
  runs (_ ← set_state C (blk C i) YAFFS_BLOCK_STATE_EMPTY; _ ← add_erased 1; _ ← update_info C (blk C i) clean_info;
        yaffs_ClearChunkBits C (blk C i)) d
    (fun _ d' => accounted C d' /\ vacant i YAFFS_BLOCK_STATE_EMPTY (clean_info b) d' /\ beyond i d d' /\ flash (ck d') = flash (ck d)).
Proof.
  intros Hb Hi [V1 V2 V3 V4 V5]. pose proof (sc_chunks C HC) as Hc.
  eapply runs_cut; [apply (set_state_ok C HC d i _ (ac_shape C _ d Hb) Hi)|]. intros [] d1 H1.
  destruct (changed_at C _ _ _ _ _ _ _ _ H1 Hi) as (S1 & I1 & U1).
  eapply runs_cut; [apply (add_erased_ok C d1 i 1 (ch_shape C _ _ _ _ _ _ _ _ H1))|]. intros [] d2 H2. rewrite S1, I1 in H2.
  destruct (changed_at C _ _ _ _ _ _ _ _ H2 Hi) as (S2 & I2 & U2).
  eapply runs_cut; [apply (update_info_ok C HC d2 i _ (ch_shape C _ _ _ _ _ _ _ _ H2) Hi)|]. intros [] d3 H3. rewrite S2, I2 in H3.
  destruct (changed_at C _ _ _ _ _ _ _ _ H3 Hi) as (S3 & I3 & U3).
  eapply runs_weaken; [apply (clear_chunk_bits_ok C HC d3 i (ch_shape C _ _ _ _ _ _ _ _ H3) Hi)|]. intros [] d4 H4. rewrite S3, I3, V2 in H4.
  pose proof (changed_trans C _ _ _ _ _ _ _ _ _ _ _ _ _ _ (changed_trans C _ _ _ _ _ _ _ _ _ _ _ _ _ _ (changed_trans C _ _ _ _ _ _ _ _ _ _ _ _ _ _ H1 H2) H3) H4) as H.
  assert (vacant i YAFFS_BLOCK_STATE_EMPTY (clean_info b) d4) as Hv.
  { apply (vacant_changed _ YAFFS_BLOCK_STATE_DIRTY b _ _ _ d _ _ _ H); [done|destruct b; split; [done|by left]|done|by split|by destruct b]. }
  split; [|split; [done|split; [by apply (beyond_changed _ _ _ _ _ _ _ _ H)|by destruct H as [_ _ _ _ _ _ [? _ _]]]]].
  apply (books_changed C (chunks C) 0 i _ _ _ _ _ d d4 HC Hb Hi H); rewrite ?V1, ?V2; [|done| |lia|lia].
  - pose proof (vacant_block_ok _ _ _ _ Hv) as Hok. apply (block_ok_ext C _ _ (used C d4 i)); [done| |done].
    intros c Hcc. by destruct Hv as [_ _ _ -> _].
  - destruct b. cbn. lia.
Qed.

Lemma dirty_ok d i : accounted C d -> (i < nBlocks C)%nat -> pagesInUse (info_of d i) = 0 ->
  state_of d i = YAFFS_BLOCK_STATE_FULL \/ state_of d i = YAFFS_BLOCK_STATE_COLLECTING ->
  runs (yaffs_BlockBecameDirty C (blk C i)) d (fun _ d' => accounted C d' /\ beyond i d d' /\
    ((vacant i YAFFS_BLOCK_STATE_EMPTY (clean_info (info_of d i)) d' /\ needsRetiring (info_of d i) = false /\
      forall p, 0 <= p < chunks C -> page (flash (ck d')) (page_at i p) = None) \/
     vacant i YAFFS_BLOCK_STATE_DEAD (info_of d i) d')).
Proof.
  intros Hb Hi Hp Hst. pose proof (sc_chunks C HC) as Hc. pose proof (vacant_of d i Hb Hi Hp) as Hv. set (b := info_of d i) in *.
  unfold yaffs_BlockBecameDirty. eapply runs_bind, runs_eq; [apply (get_info_ok C HC d i (ac_shape C 0 d Hb) Hi)|]. fold b.
  eapply runs_cut; [apply (set_state_ok C HC d i _ (ac_shape C 0 d Hb) Hi)|]. intros [] d1 H1. fold b in H1.
  assert (vacant i YAFFS_BLOCK_STATE_DIRTY b d1) as Hv1 by
    (by apply (vacant_changed _ _ _ _ _ _ _ _ _ _ H1 Hi (vacant_soft _ _ _ _ YAFFS_BLOCK_STATE_DIRTY Hv eq_refl) (vc_used _ _ _ _ Hv) Hv)).
  assert (books C (chunks C) d1) as Hb1.
  { apply (books_changed C 0 (chunks C) i _ _ _ _ _ d d1 HC Hb Hi H1); [| | |lia|lia].
    - destruct (vacant_block_ok _ _ _ _ Hv) as [W1 W2 W3 _ W5]. split; [done| |done|intros _; exact Hp|done].
      destruct W2 as [W2|[_ W2]]; [by left | by right].
    - by destruct Hst as [-> | ->].
    - destruct Hv as [_ _ [Q1 Q2] _ _]. fold b. unfold free_of. rewrite Q1. destruct Hst as [Hst|Hst]; rewrite Hst in *; [|lia].
      destruct Q2 as [Q2|[Q2 _]]; [lia|discriminate Q2]. }
  eapply runs_cut with (P := fun ok d3 => books C (chunks C) d3 /\ vacant i YAFFS_BLOCK_STATE_DIRTY b d3 /\ beyond i d1 d3 /\
    (ok = true -> needsRetiring b = false /\ forall p, 0 <= p < chunks C -> page (flash (ck d3)) (page_at i p) = None)).
  - destruct (needsRetiring b) eqn:Hnr; [apply runs_ret; split; [done|split; [done|split; [apply beyond_refl|done]]]|].
    eapply runs_cut; [apply (invalidate_ok (chunks C) d1 Hb1); lia|]. intros [] d2 [Hb2 Hiv].
    eapply runs_cut; [apply (erase_nand_ok (chunks C) d2 i Hb2 Hi)|]. intros r d3 (Hb3 & Ht3 & Hy3 & Hcl).
    assert (vacant i YAFFS_BLOCK_STATE_DIRTY b d3) as Hv3.
    { apply (vacant_tables _ _ _ d2); [|done]. by apply (vacant_invalidated _ _ _ d1). }
    assert (beyond i d1 d3) as Hy13 by (apply (beyond_trans i d1 d2); [by apply beyond_invalidated|done]).
    destruct (truthy r) eqn:Hr.
    + apply runs_ret. split; [done|]. split; [done|]. split; [done|]. intros _. split; [done|]. by apply Hcl.
    + apply runs_modify, runs_ret. split; [by apply books_stats|]. split; [destruct Hv3; destruct d3; by split|]. split; [|done].
      apply (beyond_trans i d1 d3 _ Hy13). destruct d3. split; [by left | done..].
  - intros ok d3 (Hb3 & Hv3 & Hy3 & Hcl). assert (beyond i d d3) as Hyd by (apply (beyond_trans i d d1 _ (beyond_changed _ _ _ _ _ _ _ _ H1) Hy3)).
    destruct ok.
    + eapply runs_weaken; [apply (clean_up_ok d3 i b Hb3 Hi Hv3)|]. intros [] d4 (Hb4 & Hv4 & Hy4 & Hf4). split; [done|].
      split; [by apply (beyond_trans i d d3)|]. left. destruct (Hcl eq_refl) as [Hn Hcl']. split; [done|]. split; [done|]. intros p Hpp. rewrite Hf4. by apply Hcl'.
    + pose proof Hv3 as [V1 V2 V3 V4 V5]. eapply runs_cut; [apply (add_free_ok C d3 i (- chunks C) (ac_shape C _ d3 Hb3))|]. intros [] d4 H4.
      rewrite V1, V2 in H4. assert (vacant i YAFFS_BLOCK_STATE_DIRTY b d4) as Hv4 by (by apply (vacant_changed _ YAFFS_BLOCK_STATE_DIRTY b _ _ _ _ _ _ _ H4)).
      assert (accounted C d4) as Hb4.
      { apply (books_changed C (chunks C) 0 i _ _ _ _ _ d3 d4 HC Hb3 Hi H4); rewrite ?V1, ?V2; [|cbn; lia|cbn; lia|lia|lia].
        apply (vacant_block_ok i YAFFS_BLOCK_STATE_DIRTY b d3). by split. }
      eapply runs_weaken; [apply (retire_ok d4 i b Hb4 Hi Hv4)|]. intros [] d5 (Hb5 & Hv5 & Hy5). split; [done|]. split; [|by right].
      apply (beyond_trans i d d3 _ Hyd), (beyond_trans i d3 d4 _ (beyond_changed _ _ _ _ _ _ _ _ H4) Hy5).
Qed.

(** ** The device as a whole *)

(** The block chunks are taken from, and its next page. *)
Definition allocation_ok (d : device) : Prop := allocationBlock d < 0 \/ exists i, (i < nBlocks C)%nat /\ allocationBlock d = blk C i /\
  state_of d i = YAFFS_BLOCK_STATE_ALLOCATING /\ 0 <= allocationPage d < chunks C /\
  forall p, allocationPage d <= p < chunks C -> used C d i p = false.

Definition managed (d : device) : Prop := accounted C d /\ allocation_ok d.

(** The pages that will be written next are erased. *)
Definition fresh (d : device) (i : nat) (p : Z) : Prop :=
  state_of d i = YAFFS_BLOCK_STATE_EMPTY \/ (allocationBlock d = blk C i /\ allocationPage d <= p).
Definition clean (d : device) : Prop := forall i p, (i < nBlocks C)%nat -> 0 <= p < chunks C -> fresh d i p ->
  page (flash (ck d)) (page_at i p) = None.

Lemma blk_inj i j : blk C i = blk C j -> i = j.
Proof. unfold blk. lia. Qed.
Lemma blk_pos i : 0 < blk C i.
Proof. unfold blk. pose proof (sc_internal C HC). lia. Qed.

Lemma in_bits p : 0 <= p < chunks C -> 0 <= p < 8 * chunkBitmapStride C.
Proof. pose proof (stride_id C HC). lia. Qed.

(** Work on another block than the one chunks are taken from. *)
Lemma allocation_beyond i d d' : beyond i d d' -> allocation_ok d -> (allocationBlock d = blk C i -> False) -> allocation_ok d'.
Proof.
  intros [B1 _ B3 [B4 B5] _ _] [Ha|(j & Hj & Ha & Hs & Hp & Hu)] Hne; [left; by rewrite B4|]. right. exists j. rewrite B4, B5.
  assert (j <> i) as Hji by (intros ->; by apply Hne). split; [done|]. split; [done|]. split; [|split; [done|]].
  - destruct (B1 j Hji) as [-> |[H _]]; [done|congruence].
  - intros p Hpp. rewrite B3 by (try done; apply in_bits; lia). by apply Hu.
Qed.

(** Block [i] is not fresh afterwards, or its pages are erased. *)
Lemma clean_beyond i d d' : beyond i d d' -> allocation_ok d -> (allocationBlock d = blk C i -> False) ->
  (forall p, 0 <= p < chunks C -> state_of d' i = YAFFS_BLOCK_STATE_EMPTY -> page (flash (ck d')) (page_at i p) = None) -> clean d -> clean d'.
Proof.
  intros [B1 _ _ [B4 B5] B6 B7] Hal Hne Hi Hc j p Hj Hp Hfr. unfold fresh in Hfr. rewrite B4, B5 in Hfr.
  destruct (decide (j = i)) as [-> |Hji]; [destruct Hfr as [Hfr|[Hfr _]]; [by apply Hi|by destruct Hne]|].
  destruct (decide (state_of d j = state_of d' j)) as [He|He].
  - rewrite B6; [|done..|].
    + apply Hc; [done|done|]. unfold fresh. by rewrite He.
    + rewrite He. destruct Hfr as [-> |[Hfr _]]; [done|]. rewrite <- He.
      destruct Hal as [Ha|(k & Hk & Ha & Hs & _)]; [pose proof (blk_pos j); lia|]. rewrite Hfr in Ha. apply blk_inj in Ha as ->. by rewrite Hs.
  - destruct (B1 j Hji) as [Hb|[Hb Hb']]; [by destruct He|]. destruct Hfr as [Hfr|[Hfr _]]; [by apply B7|].
    destruct Hal as [Ha|(k & Hk & Ha & Hs & _)]; [pose proof (blk_pos j); lia|]. rewrite Hfr in Ha. apply blk_inj in Ha as ->. congruence.
Qed.

(** Checkpoint blocks have no page in use. *)
Lemma used_not_checkpoint d i p : accounted C d -> (i < nBlocks C)%nat -> 0 <= p < chunks C -> used C d i p = true ->
  state_of d i <> YAFFS_BLOCK_STATE_CHECKPOINT /\ state_of d i <> YAFFS_BLOCK_STATE_EMPTY.
Proof.
  intros Hb Hi Hp Hu. destruct (ac_block C 0 d Hb i Hi) as [B1 _ _ B4 _].
  assert (pagesInUse (info_of d i) <> 0) as Hne by (rewrite B1; intros H; by rewrite (count_bits_zero C _ p H Hp) in Hu).
  split; intros Hs; apply Hne, B4; by rewrite Hs.
Qed.

Lemma kept_beyond i d d' : accounted C d -> beyond i d d' ->
  (forall p, 0 <= p < chunks C -> used C d i p = true -> used C d' i p = true /\ page (flash (ck d')) (page_at i p) = page (flash (ck d)) (page_at i p)) ->
  kept none d d'.
Proof.
  intros Hb [_ _ B3 _ B5 _] Hi j p Hj Hp Hu _. destruct (decide (j = i)) as [-> |Hne]; [by apply Hi|].
  rewrite B3 by (try done; by apply in_bits). split; [done|]. apply B5; [done..|]. by apply (used_not_checkpoint d j p Hb).
Qed.

(** ** Deleting a chunk *)

Lemma swrap_10 x : -512 <= x < 512 -> swrap 10 x = x.
Proof. intros H. unfold swrap. change (2 ^ (10 - 1)) with 512. change (2 ^ 10) with 1024. rewrite Z.mod_small; lia. Qed.

Lemma chunk_at_div i p : 0 <= p < chunks C -> chunk_at i p / chunks C = blk C i /\ chunk_at i p mod chunks C = p /\ 0 < chunk_at i p.
Proof.
  intros Hp. pose proof (blk_pos i). unfold chunk_at. split; [|split; [|nia]].
  - rewrite Z.div_add_l by lia. rewrite Z.div_small by done. lia.
  - rewrite Z.add_comm, Z.mod_add by lia. by apply Z.mod_small.
Qed.

(** The page is freed; the block has [b]. *)
Lemma release_ok d i p : accounted C d -> (i < nBlocks C)%nat -> 0 <= p < chunks C -> used C d i p = true ->
  (in_management (state_of d i) = true /\ state_of d i <> YAFFS_BLOCK_STATE_NEEDS_SCANNING) ->
  (counts_soft (state_of d i) = true -> softDeletions (info_of d i) < pagesInUse (info_of d i)) ->
  let b := set_pagesInUse (pagesInUse (info_of d i) - 1) (info_of d i) in let u := fun q => if q =? p then false else used C d i q in
  runs (_ ← add_free 1; _ ← yaffs_ClearChunkBit C (blk C i) p;
        update_info C (blk C i) (fun b => set_pagesInUse (swrap 10 (pagesInUse b - 1)) b)) d
    (fun _ d' => accounted C d' /\ changed C i (state_of d i) b u 0 1 d d' /\ 0 <= pagesInUse b).
Proof.
  intros Hb Hi Hp Hu Hst Hsoft b u. pose proof (sc_chunks C HC) as Hc. destruct (ac_block C 0 d Hb i Hi) as [B1 B2 B3 B4 B5].
  assert (count_bits C u = pagesInUse (info_of d i) - 1) as Hcnt.
  { rewrite B1, (count_bits_change C (used C d i) u p Hp), Hu.
    - unfold u. rewrite Z.eqb_refl. lia.
    - intros q _ Hne. unfold u. by destruct (Z.eqb_spec q p). }
  pose proof (count_bits_bounds C u ltac:(lia)) as Hbd. pose proof (count_bits_bounds C (used C d i) ltac:(lia)) as Hbd'.
  assert (pagesInUse b = pagesInUse (info_of d i) - 1 /\ softDeletions b = softDeletions (info_of d i)) as [Hpg Hsf] by (unfold b; by destruct (info_of d i)).
  eapply runs_cut; [apply (add_free_ok C d i 1 (ac_shape C 0 d Hb))|]. intros [] d1 H1.
  destruct (changed_at C _ _ _ _ _ _ _ _ H1 Hi) as (S1 & I1 & U1).
  eapply runs_cut; [apply (clear_bit_ok C HC d1 i p (ch_shape C _ _ _ _ _ _ _ _ H1) Hi (in_bits p Hp))|]. intros [] d2 H2.
  rewrite S1, I1 in H2. apply (changed_used C _ _ _ _ u) in H2; [|intros c Hcc; unfold u; by rewrite U1].
  destruct (changed_at C _ _ _ _ _ _ _ _ H2 Hi) as (S2 & I2 & U2).
  eapply runs_weaken; [apply (update_info_ok C HC d2 i _ (ch_shape C _ _ _ _ _ _ _ _ H2) Hi)|]. intros [] d3 H3. rewrite S2, I2 in H3.
  apply (changed_used C _ _ _ _ u) in H3; [|done].
  replace (set_pagesInUse (swrap 10 _) _) with b in H3 by (unfold b; f_equal; symmetry; apply swrap_10; lia).
  pose proof (changed_trans C _ _ _ _ _ _ _ _ _ _ _ _ _ _ (changed_trans C _ _ _ _ _ _ _ _ _ _ _ _ _ _ H1 H2) H3) as H.
  split; [|split; [exact H|lia]].
  apply (books_changed C 0 0 i _ _ _ _ _ d d3 HC Hb Hi H); [|lia| |lia|lia].
  - split; [by rewrite Hpg| | | |unfold b; by destruct (info_of d i)].
    + rewrite Hpg, Hsf. clear Hst. destruct (counts_soft (state_of d i)).
      * left. specialize (Hsoft eq_refl). destruct B2 as [B2|[B2 _]]; [lia|discriminate B2].
      * right. split; [done|]. lia.
    + intros c Hcc. unfold u. destruct (Z.eqb_spec c p); [done|]. by apply B3.
    + intros Hs. destruct Hst as [Hst ?]. by destruct (state_of d i).
  - rewrite <- Hsf in *. unfold free_of. rewrite Hsf, Hpg. destruct Hst as [Hst Hns]. destruct (state_of d i); try done; lia.
Qed.

(** ** How long the flash can refuse *)

(** The strikes a block can still take, twice, and one when it is due to be collected. *)
Definition wear (b : yaffs_BlockInfo) : Z :=
  if needsRetiring b then 0 else 2 * (4 - chunkErrorStrikes b) + (if gcPrioritise b then 1 else 0).

(** An upper bound of the pages of block [i] that can be tried before the block is retired. *)
Definition weight (d : device) (i : nat) : Z :=
  let W := chunks C * wear (info_of d i) in
  match state_of d i with
  | YAFFS_BLOCK_STATE_EMPTY | YAFFS_BLOCK_STATE_CHECKPOINT => chunks C + W
  | YAFFS_BLOCK_STATE_ALLOCATING => (if allocationBlock d =? blk C i then chunks C - allocationPage d else 0) + W
  | YAFFS_BLOCK_STATE_FULL | YAFFS_BLOCK_STATE_COLLECTING => W
  | _ => 0
  end.
Definition life (d : device) : Z := sum_to (nBlocks C) (weight d).

Lemma wear_bounds st b u : block_ok C st b u -> 0 <= wear b <= 9.
Proof. intros [_ _ _ _ [H1 H2]]. unfold wear. destruct (needsRetiring b); [lia|]. specialize (H2 eq_refl). destruct (gcPrioritise b); lia. Qed.

Lemma weight_bounds d i : managed d -> (i < nBlocks C)%nat -> 0 <= weight d i <= 10 * chunks C.
Proof.
  intros [Hb Ha] Hi. pose proof (wear_bounds _ _ _ (ac_block C 0 d Hb i Hi)) as Hw. pose proof (sc_chunks C HC) as Hc. unfold weight.
  assert (0 <= chunks C * wear (info_of d i) <= 9 * chunks C) as HW by nia.
  destruct (state_of d i) eqn:Hst; try lia. destruct (Z.eqb_spec (allocationBlock d) (blk C i)) as [He|He]; [|lia].
  destruct Ha as [Ha|(j & _ & _ & _ & Hp & _)]; [pose proof (blk_pos i)|]; lia.
Qed.

Lemma life_bounds d : managed d -> 0 <= life d <= 10 * chunks C * Z.of_nat (nBlocks C).
Proof.
  intros Hm. unfold life. pose proof (sum_to_bounds (nBlocks C) (weight d) 0 (10 * chunks C) (fun i Hi => weight_bounds d i Hm Hi)) as H. lia.
Qed.

(** Outside block [i], whatever happens there. *)
Lemma weight_beyond i d d' j : managed d -> (j < nBlocks C)%nat -> j <> i -> beyond i d d' -> weight d' j <= weight d j.
Proof.
  intros Hm Hj Hne [B1 B2 _ [B4 B5] _ _]. pose proof (weight_bounds d j Hm Hj) as Hw. unfold weight in *. rewrite B2, B4, B5 by done.
  destruct (B1 j Hne) as [-> |[Hs [-> | ->]]]; [lia|rewrite Hs in *; lia..].
Qed.

(** Block [i] is neither retired nor due to be collected any more. *)
Lemma wear_clean b : needsRetiring b = false -> gcPrioritise b = true -> wear (clean_info b) + 1 = wear b.
Proof. intros H1 H2. destruct b. cbn in *. unfold wear. cbn. rewrite H1, H2. lia. Qed.

(** A block that is not filled any more. *)
Definition closed (st : yaffs_BlockState) : Prop := st = YAFFS_BLOCK_STATE_FULL \/ st = YAFFS_BLOCK_STATE_COLLECTING.

(** The block with one page less, unless it is taken back. *)
Definition one_less (b : yaffs_BlockInfo) : yaffs_BlockInfo := set_pagesInUse (pagesInUse b - 1) b.
Definition taken_back (i : nat) (d : device) : Prop :=
  (state_of d i = YAFFS_BLOCK_STATE_EMPTY \/ state_of d i = YAFFS_BLOCK_STATE_DEAD) /\ forall q, 0 <= q < chunks C -> used C d i q = false.

(** What deleting page [p] of block [i] does. *)
Record released (i : nat) (p : Z) (d d' : device) : Prop := {
  dl_managed : managed d';
  dl_kept : kept (fun j q => j = i /\ q = p) d d';
  dl_gone : forall j q, (j < nBlocks C)%nat -> 0 <= q < chunks C -> used C d' j q = true -> used C d j q = true /\ ~ (j = i /\ q = p);
  dl_clean : clean d -> clean d';
  dl_alloc : allocationBlock d' = allocationBlock d /\ allocationPage d' = allocationPage d;
  dl_life : gcPrioritise (info_of d i) = true -> life d' <= life d;
  dl_others : forall j, j <> i -> closed (state_of d j) -> state_of d' j = state_of d j /\ info_of d' j = info_of d j;
  dl_soft : forall j, (j < nBlocks C)%nat -> softDeletions (info_of d' j) <= softDeletions (info_of d j);
}.
Definition deleted (i : nat) (p : Z) (d d' : device) : Prop := released i p d d' /\
  (taken_back i d' \/ (state_of d' i = state_of d i /\ info_of d' i = one_less (info_of d i) /\
    (pagesInUse (info_of d i) = 1 -> hasShrinkHeader (info_of d i) = true \/ still_filling (state_of d i) = true))).

(** The page is freed, nothing else happens. *)
Lemma released_only d d1 i p : managed d -> (i < nBlocks C)%nat -> 0 <= p < chunks C -> used C d i p = true -> accounted C d1 ->
  changed C i (state_of d i) (one_less (info_of d i)) (fun q => if q =? p then false else used C d i q) 0 1 d d1 ->
  released i p d d1.
Proof.
  intros [Hb Ha] Hi Hp Hu Hb1 H. pose proof H as [H1 H2 H3 _ _ _ [Hfl Hab Hap]].
  assert (forall j, state_of d1 j = state_of d j) as Hst by (intros j; rewrite H1; by destruct (decide (j = i)) as [-> |]). split.
  - split; [done|]. destruct Ha as [Ha|(j & Hj & Ha & Hs & Hpg & Hus)]; [left; lia|]. right. exists j. rewrite Hab, Hap, Hst.
    split; [done|]. split; [done|]. split; [done|]. split; [done|]. intros q Hq. rewrite H3 by (try done; apply in_bits; lia).
    destruct (decide (j = i)) as [-> |]; [|by apply Hus]. destruct (q =? p); [done|by apply Hus].
  - intros j q Hj Hq Huq Hne. rewrite H3 by (try done; by apply in_bits). rewrite Hfl. split; [|done].
    destruct (decide (j = i)) as [-> |]; [|done]. destruct (Z.eqb_spec q p); [|done]. by destruct Hne.
  - intros j q Hj Hq. rewrite H3 by (try done; by apply in_bits). destruct (decide (j = i)) as [-> |Hne]; [|by intros ?; split; [|intros [? _]]].
    destruct (Z.eqb_spec q p); [done|]. intros ?. split; [done|]. by intros [_ ?].
  - intros Hc j q Hj Hq Hfr. rewrite Hfl. apply Hc; [done|done|]. unfold fresh in *. by rewrite Hst, Hab, Hap in Hfr.
  - done.
  - intros _. apply sum_to_le. intros j Hj. unfold weight. rewrite Hst, Hab, Hap, H2. destruct (decide (j = i)) as [-> |]; [|done]. by destruct (info_of d i).
  - intros j Hne _. rewrite Hst, H2. by rewrite decide_False.
  - intros j _. rewrite H2. destruct (decide (j = i)) as [-> |]; [|done]. by destruct (info_of d i).
Qed.

(** The block is taken back as well. *)
Lemma released_dirty d d1 d2 i p : released i p d d1 -> (i < nBlocks C)%nat -> pagesInUse (info_of d1 i) = 0 -> state_of d1 i <> YAFFS_BLOCK_STATE_ALLOCATING ->
  accounted C d2 -> beyond i d1 d2 ->
  ((vacant i YAFFS_BLOCK_STATE_EMPTY (clean_info (info_of d1 i)) d2 /\ needsRetiring (info_of d1 i) = false /\ forall p, 0 <= p < chunks C -> page (flash (ck d2)) (page_at i p) = None) \/
     vacant i YAFFS_BLOCK_STATE_DEAD (info_of d1 i) d2) ->
  closed (state_of d1 i) -> gcPrioritise (info_of d1 i) = gcPrioritise (info_of d i) ->
  (forall j, j <> i -> state_of d1 j = state_of d j /\ info_of d1 j = info_of d j) -> released i p d d2 /\ taken_back i d2.
Proof.
  intros [[Hb1 Ha1] Hk Hg Hcl Hal Hlf Hot Hsf] Hi Hp0 Hst Hb2 Hy Hcase Hfc Hgc Hsame.
  assert (allocationBlock d1 = blk C i -> False) as Hne.
  { intros He. destruct Ha1 as [Ha1|(j & Hj & Ha1 & Hs & _)]; [pose proof (blk_pos i); lia|]. rewrite He in Ha1. apply blk_inj in Ha1 as ->. by apply Hst. }
  assert (exists st b, vacant i st b d2) as (st & b & Hv) by (destruct Hcase as [[? _]|?]; eauto).
  pose proof (vacant_of d1 i Hb1 Hi Hp0) as Hv1. assert (kept none d1 d2) as Hk2.
  { apply (kept_beyond i d1 d2 Hb1 Hy). intros q Hq Huq. by rewrite (vc_used _ _ _ _ Hv1) in Huq by (by apply in_bits). }
  split; [split|split; [destruct Hcase as [[[? _ _ _ _] _]|[? _ _ _ _]]; [by left|by right]|intros q Hq; by apply (vc_used _ _ _ _ Hv), in_bits]].
  - split; [done|]. by apply (allocation_beyond i d1 d2).
  - apply (kept_trans _ d d1 d2 Hk). by apply kept_none.
  - intros j q Hj Hq Huq. apply Hg; [done|done|]. destruct (decide (j = i)) as [-> |Hji].
    + by rewrite (vc_used _ _ _ _ Hv) in Huq by (by apply in_bits).
    + by rewrite (by_used _ _ _ Hy) in Huq by (try done; by apply in_bits).
  - intros Hc. apply (clean_beyond i d1 d2 Hy Ha1 Hne); [|by apply Hcl]. intros q Hq He.
    destruct Hcase as [(_ & _ & Hpn)|[Hd _ _ _ _]]; [by apply Hpn|congruence].
  - destruct (by_alloc _ _ _ Hy) as (-> & ->). done.
  - intros Hg1. transitivity (life d1); [|by apply Hlf]. rewrite <- Hgc in Hg1. apply sum_to_le. intros j Hj.
    destruct (decide (j = i)) as [-> |Hji]; [|by apply (weight_beyond i)]. pose proof (weight_bounds d1 i (conj Hb1 Ha1) Hi) as Hw.
    destruct Hcase as [([W1 W2 _ _ _] & Hn & _)|[W1 W2 _ _ _]]; unfold weight in *; rewrite W1, ?W2; [|destruct Hfc as [E|E]; rewrite E in *; lia].
    pose proof (wear_clean _ Hn Hg1). destruct Hfc as [E|E]; rewrite E; nia.
  - intros j Hji Hc. destruct (Hsame j Hji) as [Hsj Hij]. rewrite (by_info _ _ _ Hy j Hji), Hij. split; [|done].
    destruct (by_state _ _ _ Hy j Hji) as [-> |[Hs _]]; [done|]. rewrite Hsj in Hs. destruct Hc as [Hc|Hc]; congruence.
  - intros j Hj. destruct (decide (j = i)) as [-> |Hji]; [|rewrite (by_info _ _ _ Hy j Hji); by apply Hsf]. transitivity (softDeletions (info_of d1 i)); [|by apply Hsf].
    destruct Hcase as [([_ -> _ _ _] & _)|[_ -> _ _ _]]; [|done]. destruct (ac_block C 0 d1 Hb1 i Hi) as [_ [B2|[_ B2]] _ _ _]; destruct (info_of d1 i); cbn in *; lia.
Qed.

(** The end of [yaffs_DeleteChunk], with [d] the state before and [d1] the page freed. *)
Lemma delete_rest_ok d d1 i p : managed d -> (i < nBlocks C)%nat -> 0 <= p < chunks C -> used C d i p = true ->
  (in_management (state_of d i) = true /\ state_of d i <> YAFFS_BLOCK_STATE_NEEDS_SCANNING) -> accounted C d1 ->
  changed C i (state_of d i) (one_less (info_of d i)) (fun q => if q =? p then false else used C d i q) 0 1 d d1 ->
  runs (bi ← yaffs_GetBlockInfo C (blk C i);
        if (pagesInUse bi =? 0) && negb (hasShrinkHeader bi) && negb (still_filling (state_of d i))
        then yaffs_BlockBecameDirty C (blk C i) else mret tt) d1 (fun _ d' => deleted i p d d').
Proof.
  intros Hm Hi Hp Hu Hst Hb1 H1. pose proof (released_only d d1 i p Hm Hi Hp Hu Hb1 H1) as Hdel.
  destruct (changed_at C _ _ _ _ _ _ _ _ H1 Hi) as (S1 & I1 & _). pose proof H1 as [C1 C2 _ _ _ _ _].
  eapply runs_bind, runs_eq; [apply (get_info_ok C HC d1 i (ac_shape C 0 d1 Hb1) Hi)|].
  destruct (_ && _ && _) eqn:Hcond.
  - apply andb_prop in Hcond as [[H0 _]%andb_prop Hf]. apply Z.eqb_eq in H0. assert (closed (state_of d1 i)) as Hs1.
    { rewrite S1. destruct Hst as [Hst _]. destruct (state_of d i); try done; [by left | by right]. }
    eapply runs_weaken; [apply (dirty_ok d1 i Hb1 Hi H0 Hs1)|]. intros _ d2 (Hb2 & Hy2 & Hcase).
    destruct (released_dirty d d1 d2 i p Hdel Hi H0) as [Hr Ht]; try done; [destruct Hs1 as [-> | ->]; done|by rewrite I1; destruct (info_of d i)| |].
    { intros j Hj. by rewrite C1, C2, !decide_False. }
    split; [done|by left].
  - apply runs_ret. split; [done|]. right. split; [done|]. split; [done|]. intros Hone. rewrite I1 in Hcond.
    destruct (info_of d i) as [? pu ? ? ? ? hs ?]. cbn in *. subst pu. destruct hs; [by left|]. right. by destruct (still_filling (state_of d i)).
Qed.

Lemma delete_ok d i p : managed d -> (i < nBlocks C)%nat -> 0 <= p < chunks C -> used C d i p = true ->
  (in_management (state_of d i) = true /\ state_of d i <> YAFFS_BLOCK_STATE_NEEDS_SCANNING) ->
  (counts_soft (state_of d i) = true -> softDeletions (info_of d i) < pagesInUse (info_of d i)) ->
  runs (yaffs_DeleteChunk C (chunk_at i p)) d (fun _ d' => deleted i p d d').
Proof.
  intros [Hb Ha] Hi Hp Hu Hst Hsoft. destruct (chunk_at_div i p Hp) as (E1 & E2 & E3). unfold yaffs_DeleteChunk.
  rewrite (proj2 (Z.leb_gt _ _) E3), E1, E2. eapply runs_bind, runs_eq; [apply (get_info_ok C HC d i (ac_shape C 0 d Hb) Hi)|]. apply runs_modify.
  set (d0 := set_stats _ d). assert (managed d0) as Hm0 by (split; [by apply books_stats|by destruct d]).
  assert (state_of d0 = state_of d /\ info_of d0 = info_of d /\ used C d0 = used C d) as (S0 & I0 & U0) by (by destruct d).
  eapply runs_bind, runs_eq; [apply (get_state_ok C HC d0 i (ac_shape C 0 d0 (proj1 Hm0)) Hi)|]. rewrite <- S0, <- I0, <- U0 in *.
  rewrite (proj1 Hst). eapply runs_weaken with (P := fun _ d' => deleted i p d0 d').
  2:{ intros _ d' [[D1 D2 D3 D4 D5 D6 D7 D8] D9]. destruct d. by split; [split|]. }
  destruct (release_ok d0 i p (proj1 Hm0) Hi Hp Hu Hst Hsoft) as ([] & d1 & Er & Hb1 & H1 & _).
  destruct (delete_rest_ok d0 d1 i p Hm0 Hi Hp Hu Hst Hb1 H1) as (y & d2 & E & Hd2). exists y, d2. split; [|done]. rewrite <- E.
  unfold mbind, St_bind in Er |- *. destruct (add_free 1 d0) as [[? ?]|]; [|done]. cbn in Er |- *.
  destruct (yaffs_ClearChunkBit C (blk C i) p d3) as [[? ?]|]; [|done]. cbn in Er |- *. by rewrite Er.
Qed.

(** ** A block to take chunks from *)

Lemma blk_range i : (i < nBlocks C)%nat -> internalStartBlock C <= blk C i <= internalEndBlock C.
Proof. unfold blk, nBlocks. lia. Qed.
Lemma blk_of b : internalStartBlock C <= b <= internalEndBlock C -> exists i, (i < nBlocks C)%nat /\ b = blk C i.
Proof. intros H. exists (Z.to_nat (b - internalStartBlock C)). unfold blk, nBlocks. lia. Qed.

(** Block [j], which was empty, is the one that is filled next. *)
Record opened (j : nat) (d d' : device) : Prop := {
  op_books : accounted C d';
  op_block : (j < nBlocks C)%nat /\ state_of d j = YAFFS_BLOCK_STATE_EMPTY;
  op_state : forall i, state_of d' i = if decide (i = j) then YAFFS_BLOCK_STATE_ALLOCATING else state_of d i;
  op_info : exists s, forall i, info_of d' i = if decide (i = j) then set_sequence s (info_of d j) else info_of d i;
  op_used : forall i c, (i < nBlocks C)%nat -> 0 <= c < 8 * chunkBitmapStride C -> used C d' i c = used C d i c;
  op_flash : flash (ck d') = flash (ck d);
  op_alloc : allocationBlock d' = allocationBlock d /\ allocationPage d' = allocationPage d;
}.

(** Only members that the tables do not use differ. *)
Record same_books (d d' : device) : Prop := {
  sb_ck : ck d' = ck d;
  sb_info : blockInfo d' = blockInfo d;
  sb_bits : chunkBits d' = chunkBits d;
  sb_alloc : allocationBlock d' = allocationBlock d /\ allocationPage d' = allocationPage d;
}.

Lemma changed_books i d d' : same_books d d' -> shape C d -> changed C i (state_of d i) (info_of d i) (used C d i) 0 0 d d'.
Proof.
  intros [E1 E2 E3 E4] [H1 H2 H3 H4]. unfold state_of, info_of, used in *.
  split; unfold state_of, info_of, used; rewrite ?E1, ?E2, ?E3.
  - intros j. by destruct (decide (j = i)) as [-> |].
  - intros j. by destruct (decide (j = i)) as [-> |].
  - intros j c _ _. by destruct (decide (j = i)) as [-> |].
  - by split; rewrite ?E1, ?E2, ?E3.
  - apply count_by_refl.
  - apply count_by_refl.
  - destruct E4. by split; rewrite ?E1.
Qed.

(** The empty block [j] is opened. *)
Lemma open_block_ok d j : accounted C d -> (j < nBlocks C)%nat -> state_of d j = YAFFS_BLOCK_STATE_EMPTY ->
  runs (_ ← set_state C (blk C j) YAFFS_BLOCK_STATE_ALLOCATING;
        _ ← modify (fun d => set_sequences (u32 (dev_sequenceNumber d + 1)) (oldestDirtySequence d) d);
        d ← get_st;
        _ ← update_info C (blk C j) (set_sequence (dev_sequenceNumber d));
        _ ← add_erased (-1);
        mret (blk C j)) d (fun r d' => r = blk C j /\ opened j d d').
Proof.
  intros Hb Hj Hst. pose proof (sc_chunks C HC) as Hc.
  eapply runs_cut; [apply (set_state_ok C HC d j _ (ac_shape C 0 d Hb) Hj)|]. intros [] d1 H1. apply runs_modify, runs_get.
  destruct (changed_at C _ _ _ _ _ _ _ _ H1 Hj) as (S1 & I1 & U1). set (d2 := set_sequences _ _ d1).
  assert (same_books d1 d2) as Hsb by (by destruct d1).
  pose proof (changed_books j d1 d2 Hsb (ch_shape C _ _ _ _ _ _ _ _ H1)) as H2. rewrite S1, I1 in H2. apply (changed_used C _ _ _ _ _ _ _ _ _ U1) in H2.
  destruct (changed_at C _ _ _ _ _ _ _ _ H2 Hj) as (S2 & I2 & U2).
  eapply runs_cut; [apply (update_info_ok C HC d2 j _ (ch_shape C _ _ _ _ _ _ _ _ H2) Hj)|]. intros [] d3 H3. rewrite S2, I2 in H3.
  apply (changed_used C _ _ _ _ _ _ _ _ _ U2) in H3. destruct (changed_at C _ _ _ _ _ _ _ _ H3 Hj) as (S3 & I3 & U3).
  eapply runs_cut; [apply (add_erased_ok C d3 j (-1) (ch_shape C _ _ _ _ _ _ _ _ H3))|]. intros [] d4 H4. rewrite S3, I3 in H4.
  apply (changed_used C _ _ _ _ _ _ _ _ _ U3) in H4. apply runs_ret. split; [done|].
  pose proof (changed_trans C _ _ _ _ _ _ _ _ _ _ _ _ _ _ (changed_trans C _ _ _ _ _ _ _ _ _ _ _ _ _ _ (changed_trans C _ _ _ _ _ _ _ _ _ _ _ _ _ _ H1 H2) H3) H4) as H.
  pose proof H as [T1 T2 T3 _ _ _ [T7 T8 T9]]. split; [|done|done|by eexists| |done|done].
  - apply (books_changed C 0 0 j _ _ _ _ _ d d4 HC Hb Hj H); rewrite ?Hst; [|done| |lia|lia].
    + destruct (ac_block C 0 d Hb j Hj) as [B1 B2 B3 B4 B5]. rewrite Hst in B2. destruct (info_of d j). cbn in *.
      split; cbn; [done|destruct B2 as [?|[? _]]; [by left|done]|done|done|done].
    + destruct (info_of d j). cbn. lia.
  - intros i c Hi Hcc. rewrite T3 by done. by destruct (decide (i = j)) as [-> |].
Qed.
End Chunks.
