(* ===== verification/YaffsWrite.v ===== *)
(** * Taking a chunk (yaffs2/yaffs_guts.c)

    [yaffs_AllocateChunk] gives out a page that was free, from the block that is being
    filled or from an erased one; the books stay right and no chunk in use is harmed. *)

From S2P Require Import Prelude YaffsTags YaffsTagsCompat YaffsCheckpt YaffsBlocks YaffsSpace YaffsChunks.

Section Write.
Context {D : CheckpointDriver} (C : block_config) (HC : space_config C).
Context {L : CheckpointDriverLaws D (chunks C)} {BL : BlockDriverLaws D (chunks C)}.

(** ** An empty block *)

Lemma same_books_of d d' : same_books d d' -> accounted C d ->
  accounted C d' /\ state_of d' = state_of d /\ info_of d' = info_of d /\ used C d' = used C d.
Proof.
  intros [E1 E2 E3 E4] [[H1 H2 H3 H4] Hb He Hf]. unfold state_of, info_of, used in *. rewrite E1, E2, E3. split; [|done].
  split; unfold state_of, info_of, used; rewrite ?E1, ?E2, ?E3; [by split; rewrite ?E1, ?E2, ?E3|done..].
Qed.

Lemma opened_same_books j d d1 d2 : accounted C d -> same_books d d1 -> opened C j d1 d2 -> opened C j d d2.
Proof.
  intros Hb Hs [O1 O2 O3 O4 O5 O6 O7]. destruct (same_books_of d d1 Hs Hb) as (_ & S1 & I1 & U1). destruct Hs as [E1 _ _ [E4 E5]].
  rewrite S1, I1, U1, E1, E4, E5 in *. by split.
Qed.

(** The finder goes to the next block, around the end. *)
Definition next_finder (d : device) : device :=
  let d := set_finder (s32 (allocationBlockFinder d + 1)) d in
  if (allocationBlockFinder d <? internalStartBlock C) || (internalEndBlock C <? allocationBlockFinder d)
  then set_finder (internalStartBlock C) d else d.

Lemma nBlocks_pos : (0 < nBlocks C)%nat.
Proof. unfold nBlocks. pose proof (sc_internal C HC). pose proof (sc_start C HC). lia. Qed.

Lemma set_finder_finder f d : allocationBlockFinder (set_finder f d) = f.
Proof. by destruct d. Qed.
Lemma same_books_finder f d : same_books d (set_finder f d).
Proof. by destruct d. Qed.

Lemma next_finder_ok d : same_books d (next_finder d) /\
  exists k, (k < nBlocks C)%nat /\ allocationBlockFinder (next_finder d) = blk C k /\
    forall k0, (k0 < nBlocks C)%nat -> allocationBlockFinder d = blk C k0 -> k = ((k0 + 1) mod nBlocks C)%nat.
Proof.
  unfold next_finder. rewrite !set_finder_finder. set (f := s32 _). pose proof (sc_internal C HC) as [Hi1 Hi2]. pose proof (sc_start C HC) as [_ He].
  pose proof nBlocks_pos as Hpos. pose proof (sc_max C HC) as Hmax. pose proof (sc_chunks C HC) as Hch.
  assert (forall k0, (k0 < nBlocks C)%nat -> allocationBlockFinder d = blk C k0 -> f = blk C k0 + 1) as Hf.
  { intros k0 Hk0 E. unfold f. rewrite E. apply s32_id. pose proof (blk_range C k0 Hk0). unfold is_s32. nia. }
  destruct ((f <? internalStartBlock C) || (internalEndBlock C <? f)) eqn:Hout.
  - split; [by destruct d|]. exists 0%nat. rewrite set_finder_finder. split; [done|]. split; [unfold blk; lia|]. intros k0 Hk0 E.
    specialize (Hf k0 Hk0 E). apply orb_true_iff in Hout. rewrite !Z.ltb_lt in Hout. unfold blk, nBlocks in *.
    replace (k0 + 1)%nat with (nBlocks C) by (unfold nBlocks; lia). by rewrite Nat.Div0.mod_same.
  - split; [apply same_books_finder|]. rewrite set_finder_finder. apply orb_false_iff in Hout as [H1 H2]. rewrite Z.ltb_ge in H1, H2.
    destruct (blk_of C f ltac:(lia)) as (k & Hk & Ek). exists k. split; [done|]. split; [done|]. intros k0 Hk0 E.
    specialize (Hf k0 Hk0 E). rewrite Ek in Hf. unfold blk in Hf. rewrite Nat.mod_small; lia.
Qed.

Lemma find_empty_ok n d k0 : accounted C d -> (k0 < nBlocks C)%nat -> allocationBlockFinder d = blk C k0 ->
  runs (find_empty C n) d (fun r d' => (r = -1 /\ same_books d d' /\ forall m, (1 <= m <= n)%nat -> state_of d ((k0 + m) mod nBlocks C) <> YAFFS_BLOCK_STATE_EMPTY) \/
    exists j, r = blk C j /\ opened C j d d').
Proof.
  revert d k0. induction n as [|n IH]; intros d k0 Hb Hk0 E0; cbn [find_empty].
  { apply runs_ret. left. split; [done|]. split; [done|]. lia. }
  apply runs_modify, runs_modify, runs_get. match goal with |- runs _ ?s _ => change s with (next_finder d) end.
  destruct (next_finder_ok d) as (Hsb & k & Hk & Ek & Hnext). specialize (Hnext k0 Hk0 E0).
  destruct (same_books_of d _ Hsb Hb) as (Hb1 & S1 & I1 & U1). rewrite Ek.
  eapply runs_bind, runs_eq; [apply (get_state_ok C HC _ k (ac_shape C 0 _ Hb1) Hk)|]. case_bool_decide as Hst.
  - eapply runs_weaken; [apply (open_block_ok C HC _ k Hb1 Hk Hst)|]. intros r d2 [-> Ho]. right. exists k. split; [done|].
    by apply (opened_same_books k d (next_finder d)).
  - eapply runs_weaken; [apply (IH (next_finder d) k Hb1 Hk Ek)|]. intros r d2 [(-> & Hs2 & Hall)|(j & -> & Ho)].
    + left. split; [done|]. split; [by destruct Hsb, Hs2 as [? ? ? []]; split; intuition congruence|]. intros m Hm.
      destruct (decide (m = 1)%nat) as [-> |Hne]; [by rewrite <- Hnext, <- S1|]. rewrite <- S1.
      specialize (Hall (m - 1)%nat ltac:(lia)). rewrite Hnext in Hall. rewrite Nat.Div0.add_mod_idemp_l in Hall.
      by replace (k0 + 1 + (m - 1))%nat with (k0 + m)%nat in Hall by lia.
    + right. exists j. split; [done|]. by apply (opened_same_books j d (next_finder d)).
Qed.

(** With an erased block one is found. *)
Lemma find_block_ok d : accounted C d ->
  runs (yaffs_FindBlockForAllocation C) d (fun r d' => (r = -1 /\ d' = d /\ nErasedBlocks (ck d) = 0) \/ exists j, r = blk C j /\ opened C j d d').
Proof.
  intros Hb. pose proof (ac_erased C 0 d Hb) as He. unfold yaffs_FindBlockForAllocation. apply runs_get.
  assert (0 <= nErasedBlocks (ck d)) as Hge.
  { rewrite He. pose proof (sum_to_bounds (nBlocks C) (fun i => erased_of (state_of d i)) 0 1) as H. rewrite Z.mul_0_l in H. apply H.
    intros i _. unfold erased_of. case_bool_decide; lia. }
  destruct (Z.ltb_spec (nErasedBlocks (ck d)) 1) as [Hlt|Hge1]; [apply runs_ret; left; split; [done|]; split; [done|lia]|].
  fold (nBlocks C). pose proof nBlocks_pos as Hpos. destruct (nBlocks C) as [|n] eqn:En; [lia|]. cbn [find_empty].
  apply runs_modify, runs_modify, runs_get. match goal with |- runs _ ?s _ => change s with (next_finder d) end.
  destruct (next_finder_ok d) as (Hsb & k & Hk & Ek & _). destruct (same_books_of d _ Hsb Hb) as (Hb1 & S1 & I1 & U1). rewrite Ek.
  eapply runs_bind, runs_eq; [apply (get_state_ok C HC _ k (ac_shape C 0 _ Hb1) Hk)|]. case_bool_decide as Hst.
  - eapply runs_weaken; [apply (open_block_ok C HC _ k Hb1 Hk Hst)|]. intros r d2 [-> Ho]. right. exists k. split; [done|].
    by apply (opened_same_books k d (next_finder d)).
  - eapply runs_weaken; [apply (find_empty_ok n (next_finder d) k Hb1 Hk Ek)|]. intros r d2 [(-> & Hs2 & Hall)|(j & -> & Ho)].
    2:{ right. exists j. split; [done|]. by apply (opened_same_books j d (next_finder d)). }
    exfalso. assert (forall j, (j < S n)%nat -> state_of d j <> YAFFS_BLOCK_STATE_EMPTY) as Hno.
    { intros j Hj. rewrite <- S1. destruct (decide (j = k)) as [-> |Hjk]; [done|]. rewrite En in Hall, Hk.
      specialize (Hall (if decide (k < j)%nat then j - k else S n + j - k)%nat). case_decide as Hlt.
      - replace (k + (j - k))%nat with j in Hall by lia. rewrite Nat.mod_small in Hall by lia. apply Hall. lia.
      - replace (k + (S n + j - k))%nat with (j + 1 * S n)%nat in Hall by lia. rewrite Nat.Div0.mod_add, Nat.mod_small in Hall by lia. apply Hall. lia. }
    assert (sum_to (S n) (fun i => erased_of (state_of d i)) = 0) as H0; [|lia].
    pose proof (sum_to_bounds (S n) (fun i => erased_of (state_of d i)) 0 0) as H. cut (0 * Z.of_nat (S n) <= sum_to (S n) (fun i => erased_of (state_of d i)) <= 0 * Z.of_nat (S n)); [lia|].
    apply H. intros i Hi. unfold erased_of. rewrite bool_decide_eq_false_2 by (by apply Hno). lia.
Qed.

(** ** Taking a chunk *)

(** Nothing visible has happened. *)
Record settled (d d' : device) : Prop := {
  st_managed : managed C d';
  st_used : forall i p, (i < nBlocks C)%nat -> 0 <= p < chunks C -> used C d' i p = used C d i p;
  st_flash : flash (ck d') = flash (ck d);
  st_clean : clean C d -> clean C d';
  st_life : life C d' <= life C d;
  st_closed : forall j, closed (state_of d j) -> state_of d' j = state_of d j /\ info_of d' j = info_of d j;
  st_soft : forall j, softDeletions (info_of d' j) = softDeletions (info_of d j);
}.

(** Page [p] of block [i] has been taken. *)
Record taken (i : nat) (p : Z) (d d' : device) : Prop := {
  tk_managed : managed C d';
  tk_range : (i < nBlocks C)%nat /\ 0 <= p < chunks C;
  tk_free : used C d i p = false;
  tk_used : forall j q, (j < nBlocks C)%nat -> 0 <= q < chunks C -> used C d' j q = if decide (j = i /\ q = p) then true else used C d j q;
  tk_flash : flash (ck d') = flash (ck d);
  tk_clean : clean C d -> page (flash (ck d)) (page_at C i p) = None /\ clean C d';
  tk_state : state_of d' i = YAFFS_BLOCK_STATE_ALLOCATING \/ state_of d' i = YAFFS_BLOCK_STATE_FULL;
  tk_soft : 0 <= softDeletions (info_of d' i) < pagesInUse (info_of d' i);
  tk_life : life C d' + 1 <= life C d;
  tk_closed : forall j, closed (state_of d j) -> j <> i /\ state_of d' j = state_of d j /\ info_of d' j = info_of d j;
  tk_softs : forall j, softDeletions (info_of d' j) = softDeletions (info_of d j);
}.

Lemma settled_refl d : managed C d -> settled d d.
Proof. by split. Qed.

Lemma settled_taken i p d d1 d2 : settled d d1 -> taken i p d1 d2 -> taken i p d d2.
Proof.
  intros [S1 S2 S3 S4 S5 S6 S7] [T1 T2 T3 T4 T5 T6 T7 T8 T9 T10 T11]. destruct T2 as [Ti Tp].
  split; [done|done|by rewrite <- S2| | | |done|done|lia| |intros j; by rewrite T11].
  - intros j q Hj Hq. rewrite T4 by done. case_decide; [done|]. by apply S2.
  - by rewrite T5.
  - intros Hc. rewrite <- S3. by apply T6, S4.
  - intros j Hj. destruct (S6 j Hj) as [<- <-]. apply T10. by rewrite (proj1 (S6 j Hj)).
Qed.

(** Where chunks are taken from does not matter to the tables. *)
Lemma books_allocation x a b d : books C x d -> books C x (set_allocation a b d).
Proof. intros [[] ]. destruct d. by split; [split|..]. Qed.
Lemma allocation_tables a b d : state_of (set_allocation a b d) = state_of d /\ info_of (set_allocation a b d) = info_of d /\
  used C (set_allocation a b d) = used C d /\ flash (ck (set_allocation a b d)) = flash (ck d) /\
  allocationBlock (set_allocation a b d) = a /\ allocationPage (set_allocation a b d) = b.
Proof. by destruct d. Qed.

(** A block is open, if there is one. *)
Lemma opened_settled j d d1 : managed C d -> allocationBlock d < 0 -> opened C j d d1 -> settled d (set_allocation (blk C j) 0 d1).
Proof.
  intros [Hb _] Hneg [O1 [Oj Os] O3 O4 O5 O6 O7]. pose proof (sc_chunks C HC) as Hc. set (d2 := set_allocation _ _ d1).
  assert (state_of d2 = state_of d1 /\ info_of d2 = info_of d1 /\ used C d2 = used C d1 /\ flash (ck d2) = flash (ck d1) /\ allocationBlock d2 = blk C j /\ allocationPage d2 = 0)
    as (S2 & I2 & U2 & F2 & A2 & P2) by (by destruct d1).
  assert (accounted C d2) as Hb2 by (destruct O1 as [[] ]; destruct d1; by split; [split|..]).
  split.
  - split; [done|]. right. exists j. rewrite A2, P2, S2, O3, decide_True by done. split; [done|]. split; [done|]. split; [done|]. split; [lia|].
    intros p Hp. rewrite U2, O5 by (try done; apply (in_bits C HC); lia). destruct (used C d j p) eqn:Hu; [|done].
    by destruct (used_not_checkpoint C d j p Hb Oj ltac:(lia) Hu).
  - intros i p Hi Hp. rewrite U2. apply O5; [done|]. by apply (in_bits C HC).
  - by rewrite F2.
  - intros Hcl i p Hi Hp Hfr. rewrite F2, O6. apply Hcl; [done|done|]. left. destruct Hfr as [Hfr|[Hfr _]].
    + rewrite S2, O3 in Hfr. by destruct (decide (i = j)).
    + rewrite A2 in Hfr. by apply blk_inj in Hfr as ->.
  - destruct O4 as [s O4]. apply sum_to_le. intros i Hi. unfold weight. rewrite S2, I2, A2, P2, O3, O4. pose proof (blk_pos C HC i) as Hbi.
    destruct (Z.eqb_spec (allocationBlock d) (blk C i)); [lia|]. destruct (decide (i = j)) as [-> |Hne].
    + rewrite Os, Z.eqb_refl. replace (wear (set_sequence s (info_of d j))) with (wear (info_of d j)) by (by destruct (info_of d j)). lia.
    + destruct (Z.eqb_spec (blk C j) (blk C i)) as [E|_]; [by apply blk_inj in E as ->|done].
  - destruct O4 as [s O4]. intros i Hcl. rewrite S2, I2, O3, O4. destruct (decide (i = j)) as [-> |]; [|done]. rewrite Os in Hcl. by destruct Hcl.
  - destruct O4 as [s O4]. intros i. rewrite I2, O4. destruct (decide (i = j)) as [-> |]; [|done]. by destruct (info_of d j).
Qed.

Lemma reopen_ok d : managed C d ->
  runs (if allocationBlock d <? 0 then b ← yaffs_FindBlockForAllocation C; modify (set_allocation b 0) else mret tt) d
    (fun _ d' => settled d d' /\ (allocationBlock d' < 0 -> nErasedBlocks (ck d') = 0)).
Proof.
  intros [Hb Ha]. destruct (Z.ltb_spec (allocationBlock d) 0) as [Hneg|Hpos]; [|apply runs_ret; split; [by apply settled_refl|lia]].
  eapply runs_cut; [apply (find_block_ok d Hb)|]. intros r d1 [(-> & -> & He)|(j & -> & Ho)]; (eexists _, _; split; [reflexivity|]).
  - assert (books C 0 (set_allocation (-1) 0 d)) as Hb1 by (destruct Hb as [[] ]; destruct d; by split; [split|..]).
    split; [|by destruct d]. split; [split; [done|left; by destruct d]|by destruct d..| | |by destruct d|by destruct d]. 2:{
      apply sum_to_le. intros i Hi. unfold weight. destruct (allocation_tables (-1) 0 d) as (-> & -> & _ & _ & -> & ->). pose proof (blk_pos C HC i).
      destruct (Z.eqb_spec (-1) (blk C i)), (Z.eqb_spec (allocationBlock d) (blk C i)); lia. }
    intros Hcl i p Hi Hp Hfr. destruct Hfr as [Hfr|[Hfr _]].
    + replace (flash (ck (set_allocation (-1) 0 d))) with (flash (ck d)) by (by destruct d). apply Hcl; [done|done|]. left. by destruct d.
    + pose proof (blk_pos C HC i). replace (allocationBlock (set_allocation (-1) 0 d)) with (-1) in Hfr by (by destruct d). lia.
  - split; [by apply (opened_settled j d d1)|]. pose proof (blk_pos C HC j). replace (allocationBlock _) with (blk C j) by (by destruct d1). lia.
Qed.

(** The page is marked; one free chunk too many is counted. *)
Lemma mark_page_ok d i p : accounted C d -> (i < nBlocks C)%nat -> 0 <= p < chunks C -> used C d i p = false ->
  state_of d i = YAFFS_BLOCK_STATE_ALLOCATING ->
  let b := set_pagesInUse (pagesInUse (info_of d i) + 1) (info_of d i) in let u := fun q => if q =? p then true else used C d i q in
  runs (_ ← update_info C (blk C i) (fun b => set_pagesInUse (swrap 10 (pagesInUse b + 1)) b); yaffs_SetChunkBit C (blk C i) p) d
    (fun _ d' => books C 1 d' /\ changed C i YAFFS_BLOCK_STATE_ALLOCATING b u 0 0 d d' /\ 0 <= softDeletions b < pagesInUse b).
Proof.
  intros Hb Hi Hp Hu Hst b u. pose proof (sc_chunks C HC) as Hc. destruct (ac_block C 0 d Hb i Hi) as [B1 B2 B3 B4 B5].
  rewrite Hst in B2. destruct B2 as [B2|[B2 _]]; [|discriminate B2].
  assert (count_bits C u = pagesInUse (info_of d i) + 1) as Hcnt.
  { rewrite B1, (count_bits_change C (used C d i) u p Hp), Hu.
    - unfold u. rewrite Z.eqb_refl. lia.
    - intros q _ Hne. unfold u. by destruct (Z.eqb_spec q p). }
  pose proof (count_bits_bounds C u ltac:(lia)) as Hbd. pose proof (count_bits_bounds C (used C d i) ltac:(lia)) as Hbd'.
  assert (pagesInUse b = pagesInUse (info_of d i) + 1 /\ softDeletions b = softDeletions (info_of d i)) as [Hpg Hsf] by (unfold b; by destruct (info_of d i)).
  eapply runs_cut; [apply (update_info_ok C HC d i _ (ac_shape C 0 d Hb) Hi)|]. intros [] d1 H1.
  replace (set_pagesInUse (swrap 10 _) _) with b in H1 by (unfold b; f_equal; symmetry; apply swrap_10; lia). rewrite Hst in H1.
  destruct (changed_at C _ _ _ _ _ _ _ _ H1 Hi) as (S1 & I1 & U1).
  eapply runs_weaken; [apply (set_bit_ok C HC d1 i p (ch_shape C _ _ _ _ _ _ _ _ H1) Hi (in_bits C HC p Hp))|]. intros [] d2 H2.
  rewrite S1, I1 in H2. apply (changed_used C _ _ _ _ u) in H2; [|intros c Hcc; unfold u; by rewrite U1].
  pose proof (changed_trans C _ _ _ _ _ _ _ _ _ _ _ _ _ _ H1 H2) as H. split; [|split; [exact H|lia]].
  apply (books_changed C 0 1 i _ _ _ _ _ d d2 HC Hb Hi H); rewrite ?Hst; [|done| |lia|lia].
  - split; [by rewrite Hpg|left; lia| |done|unfold b; by destruct (info_of d i)]. intros c Hcc. unfold u. destruct (Z.eqb_spec c p); [lia|]. by apply B3.
  - unfold free_of. lia.
Qed.

(** What makes a page taken. *)
Lemma taken_intro d dd i p b : (i < nBlocks C)%nat -> 0 <= p < chunks C -> allocationBlock d = blk C i -> allocationPage d = p ->
  (forall q, p <= q < chunks C -> used C d i q = false) -> accounted C dd -> flash (ck dd) = flash (ck d) ->
  (forall j q, (j < nBlocks C)%nat -> 0 <= q < 8 * chunkBitmapStride C -> used C dd j q =
     if decide (j = i) then (if q =? p then true else used C d i q) else used C d j q) ->
  info_of dd i = b -> 0 <= softDeletions b < pagesInUse b -> (forall j, j <> i -> state_of dd j = state_of d j) ->
  (forall j, j <> i -> info_of dd j = info_of d j) -> b = set_pagesInUse (pagesInUse (info_of d i) + 1) (info_of d i) -> state_of d i = YAFFS_BLOCK_STATE_ALLOCATING ->
  (state_of dd i = YAFFS_BLOCK_STATE_ALLOCATING /\ allocationBlock dd = blk C i /\ allocationPage dd = p + 1 /\ p + 1 < chunks C) \/
   (state_of dd i = YAFFS_BLOCK_STATE_FULL /\ allocationBlock dd = -1) -> taken i p d dd.
Proof.
  intros Hi Hp Hab Hap Hfree Hbd Hfl Hud Hid Hsoft Hsd Hjd Hwb Hsi Hcase. split.
  - split; [done|]. destruct Hcase as [(Hs & A1 & A2 & A3)|[_ A1]]; [right|left; lia]. exists i. rewrite A1, A2. split; [done|]. split; [done|].
    split; [done|]. split; [lia|]. intros q Hq. rewrite Hud, decide_True by (try done; apply (in_bits C HC); lia).
    destruct (Z.eqb_spec q p); [lia|]. apply Hfree. lia.
  - done.
  - apply Hfree. lia.
  - intros j q Hj Hq. rewrite Hud by (try done; by apply (in_bits C HC)). destruct (decide (j = i)) as [-> |Hne].
    + destruct (Z.eqb_spec q p) as [-> |]; [by rewrite decide_True|by rewrite decide_False by (by intros [_ ?])].
    + by rewrite decide_False by (by intros [? _]).
  - done.
  - intros Hcl. split; [apply Hcl; [done|done|]; right; split; [done|lia]|]. intros j q Hj Hq Hfr. rewrite Hfl. apply Hcl; [done|done|].
    destruct Hfr as [Hfr|[Hfr Hfr2]].
    + destruct (decide (j = i)) as [-> |Hne]; [destruct Hcase as [[? _]|[? _]]; congruence|]. left. by rewrite <- Hsd.
    + destruct Hcase as [(_ & A1 & A2 & _)|[_ A1]]; [|pose proof (blk_pos C HC j); lia]. rewrite A1 in Hfr. apply blk_inj in Hfr as <-.
      right. split; [done|]. lia.
  - destruct Hcase as [[? _]|[? _]]; [by left|by right].
  - by rewrite Hid.
  - assert (wear b = wear (info_of d i)) as Hwb' by (rewrite Hwb; by destruct (info_of d i)).
    unfold life. rewrite (sum_to_change (nBlocks C) (weight C d) (weight C dd) i Hi).
    + unfold weight. rewrite Hsi, Hab, Z.eqb_refl, Hid, Hwb', Hap. destruct Hcase as [(-> & -> & -> & _)|[-> _]]; rewrite ?Z.eqb_refl; lia.
    + intros j Hj Hne. unfold weight. rewrite (Hsd j Hne), (Hjd j Hne), Hab. pose proof (blk_pos C HC j).
      destruct (Z.eqb_spec (blk C i) (blk C j)) as [E|_]; [by apply blk_inj in E as ->|].
      destruct Hcase as [(_ & -> & _)|[_ ->]]; [|by destruct (Z.eqb_spec (-1) (blk C j)); [lia|]].
      destruct (Z.eqb_spec (blk C i) (blk C j)) as [E|_]; [by apply blk_inj in E as ->|done].
  - intros j Hj. assert (j <> i) as Hne by (intros ->; rewrite Hsi in Hj; by destruct Hj). split; [done|]. by rewrite Hsd, Hjd.
  - intros j. destruct (decide (j = i)) as [-> |Hne]; [rewrite Hid, Hwb; by destruct (info_of d i)|by rewrite Hjd].
Qed.

(** The rest of [yaffs_AllocateChunk], with [d] the state before and [d2] the page marked. *)
Lemma close_page_ok d d2 i p b : managed C d -> (i < nBlocks C)%nat -> allocationBlock d = blk C i -> allocationPage d = p -> 0 <= p < chunks C ->
  (forall q, p <= q < chunks C -> used C d i q = false) -> books C 1 d2 ->
  changed C i YAFFS_BLOCK_STATE_ALLOCATING b (fun q => if q =? p then true else used C d i q) 0 0 d d2 -> 0 <= softDeletions b < pagesInUse b ->
  b = set_pagesInUse (pagesInUse (info_of d i) + 1) (info_of d i) -> state_of d i = YAFFS_BLOCK_STATE_ALLOCATING ->
  runs (_ ← modify (set_allocation (blk C i) (s32 (p + 1))); _ ← add_free (-1);
        _ ← (if chunks C <=? s32 (p + 1) then _ ← set_state C (blk C i) YAFFS_BLOCK_STATE_FULL; modify (set_allocation (-1) (s32 (p + 1))) else mret tt);
        mret (s32 (blk C i * chunks C + p))) d2 (fun r d' => r = chunk_at C i p /\ taken i p d d').
Proof.
  intros [Hb Ha] Hi Hab Hap Hp Hfree Hb2 H2 Hsoft Hwb Hsi. pose proof (sc_chunks C HC) as Hc. pose proof (sc_max C HC) as Hmax.
  pose proof (blk_range C i Hi) as Hbr. pose proof (blk_pos C HC i) as Hbp.
  assert (s32 (p + 1) = p + 1) as -> by (apply s32_id; unfold is_s32; lia).
  assert (s32 (blk C i * chunks C + p) = chunk_at C i p) as ->.
  { apply s32_id. pose proof (Z.mul_le_mono_nonneg_r (blk C i) (internalEndBlock C) (chunks C)).
    pose proof (Z.mul_nonneg_nonneg (blk C i) (chunks C)). unfold is_s32, chunk_at. lia. }
  destruct (changed_at C _ _ _ _ _ _ _ _ H2 Hi) as (S2 & I2 & U2). apply runs_modify. set (d3 := set_allocation _ _ d2).
  destruct (allocation_tables (blk C i) (p + 1) d2) as (T1 & T2 & T3 & T4 & T5 & T6). fold d3 in T1, T2, T3, T4, T5, T6.
  pose proof (books_allocation 1 (blk C i) (p + 1) d2 Hb2) as Hb3. fold d3 in Hb3.
  eapply runs_cut; [apply (add_free_ok C d3 i (-1) (ac_shape C 1 d3 Hb3))|]. intros [] d4 H4. rewrite T1, T2, S2, I2 in H4.
  pose proof (ac_block C 1 d3 Hb3 i Hi) as Hok3. rewrite T1, T2, S2, I2 in Hok3.
  assert (accounted C d4) as Hb4.
  { apply (books_changed C 1 0 i _ _ _ _ _ d3 d4 HC Hb3 Hi H4); rewrite ?T1, ?T2, ?S2, ?I2; [done|lia|lia|lia|lia]. }
  pose proof H2 as [_ _ Q3 _ _ _ [Q7 _ _]]. pose proof H2 as [Q1 Q2 _ _ _ _ _]. pose proof H4 as [R1 R2 R3 _ _ _ [R7 R8 R9]].
  assert (forall j q, (j < nBlocks C)%nat -> 0 <= q < 8 * chunkBitmapStride C -> used C d4 j q =
    if decide (j = i) then (if q =? p then true else used C d i q) else used C d j q) as Hu4.
  { intros j q Hj Hq. rewrite R3, T3 by done. destruct (decide (j = i)) as [-> |Hne]; rewrite Q3 by done; [by rewrite decide_True|by rewrite decide_False]. }
  destruct (changed_at C _ _ _ _ _ _ _ _ H4 Hi) as (S4 & I4 & _). destruct (Z.leb_spec (chunks C) (p + 1)) as [Hfull|Hmore].
  - eapply runs_cut with (P := fun _ d' => taken i p d d'); [|intros _ d' Ht; by apply runs_ret].
    eapply runs_cut; [apply (set_state_ok C HC d4 i _ (ac_shape C 0 d4 Hb4) Hi)|]. intros [] d5 H5. rewrite I4 in H5.
    eexists _, _. split; [reflexivity|]. destruct (allocation_tables (-1) (p + 1) d5) as (V1 & V2 & V3 & V4 & V5 & V6).
    pose proof H5 as [W1 W2 W3 _ _ _ [W7 _ _]]. apply (taken_intro d _ i p b); try done.
    + apply books_allocation, (books_changed C 0 0 i _ _ _ _ _ d4 d5 HC Hb4 Hi H5); rewrite ?S4, ?I4; [|done|cbn; lia|lia|lia].
      apply (block_ok_ext C _ _ (used C d3 i)); [done| |].
      * intros c Hcc. rewrite R3 by done. by rewrite decide_True.
      * destruct Hok3 as [B1 B2 B3 _ B5]. split; [done|left; lia|done|done|done].
    + by rewrite V4, W7, R7, T4.
    + intros j q Hj Hq. rewrite V3, W3 by done.
      destruct (decide (j = i)) as [-> |Hne]; rewrite Hu4 by done; [by rewrite decide_True|by rewrite decide_False].
    + by rewrite V2, W2, decide_True.
    + intros j Hj. by rewrite V1, W1, decide_False, R1, decide_False, T1, Q1, decide_False.
    + intros j Hj. by rewrite V2, W2, decide_False, R2, decide_False, T2, Q2, decide_False.
    + right. by rewrite V1, W1, decide_True.
  - apply runs_ret. split; [done|]. apply (taken_intro d _ i p b); try done.
    + by rewrite R7, T4.
    + intros j Hj. by rewrite R1, decide_False, T1, Q1, decide_False.
    + intros j Hj. by rewrite R2, decide_False, T2, Q2, decide_False.
    + left. by rewrite R8, R9.
Qed.

Lemma allocate_ok d useReserve : managed C d ->
  runs (yaffs_AllocateChunk C useReserve) d (fun r d' =>
    (r = -1 /\ settled d d' /\ (useReserve = true -> nErasedBlocks (ck d') = 0)) \/ exists i p, r = chunk_at C i p /\ taken i p d d').
Proof.
  intros Hm. unfold yaffs_AllocateChunk. apply runs_get. eapply runs_cut; [apply (reopen_ok d Hm)|]. intros [] d1 [Hs He]. apply runs_get.
  destruct (negb useReserve && _) eqn:Hsp.
  { apply runs_ret. left. split; [done|]. split; [done|]. intros ->. done. }
  destruct (Z.leb_spec 0 (allocationBlock d1)) as [Hpos|Hneg]; [|apply runs_ret; left; split; [done|]; split; [done|]; intros _; by apply He].
  pose proof (st_managed d d1 Hs) as Hm1. pose proof Hm1 as [Hb1 [Hneg|(i & Hi & Hab & Hst & Hpg & Hfree)]]; [lia|].
  set (p := allocationPage d1) in *. rewrite Hab. pose proof (Hfree p ltac:(lia)) as Hu.
  destruct (mark_page_ok d1 i p Hb1 Hi Hpg Hu Hst) as ([] & d2 & E & Hb2 & H2 & Hsoft).
  destruct (close_page_ok d1 d2 i p _ Hm1 Hi Hab eq_refl Hpg Hfree Hb2 H2 Hsoft eq_refl Hst) as (r & d3 & E3 & -> & Ht).
  exists (chunk_at C i p), d3. split; [|right; exists i, p; split; [done|]; by apply (settled_taken i p d d1)]. rewrite <- E3.
  unfold mbind, St_bind in E |- *. destruct (update_info C (blk C i) _ d1) as [[? ?]|]; [|done]. cbn in E |- *. by rewrite E.
Qed.
End Write.
