(* ===== verification/YaffsRetry.v ===== *)
(** * Writing a chunk where it works (yaffs2/yaffs_guts.c)

    [yaffs_WriteNewChunkWithTagsToNAND] takes pages until one can be written.  Whatever the
    flash answers, the loop ends, no chunk in use is harmed, and the pages that were tried
    in vain are given back. *)

From S2P Require Import Prelude YaffsTags YaffsTagsCompat YaffsCheckpt YaffsBlocks YaffsSpace YaffsChunks YaffsWrite.

Section Retry.
Context {D : CheckpointDriver} (C : block_config) (HC : space_config C).
Context {L : CheckpointDriverLaws D (chunks C)} {BL : BlockDriverLaws D (chunks C)}.

(** ** Marks *)

(** Block [i] may have been marked, and the flash was read; nothing else has happened. *)
Record flagged (i : nat) (d d' : device) : Prop := {
  fg_managed : managed C d';
  fg_state : forall j, state_of d' j = state_of d j;
  fg_used : forall j q, (j < nBlocks C)%nat -> 0 <= q < chunks C -> used C d' j q = used C d j q;
  fg_pages : forall c, page (flash (ck d')) c = page (flash (ck d)) c;
  fg_alloc : allocationBlock d' = allocationBlock d /\ allocationPage d' = allocationPage d;
  fg_life : life C d' <= life C d;
  fg_other : forall j, j <> i -> info_of d' j = info_of d j;
  fg_info : softDeletions (info_of d' i) = softDeletions (info_of d i) /\ pagesInUse (info_of d' i) = pagesInUse (info_of d i) /\
    hasShrinkHeader (info_of d' i) = hasShrinkHeader (info_of d i);
}.

Lemma flagged_refl i d : managed C d -> flagged i d d.
Proof. by split. Qed.
Lemma flagged_trans i d d1 d2 : flagged i d d1 -> flagged i d1 d2 -> flagged i d d2.
Proof.
  intros [A1 A2 A3 A4 A5 A6 A7 A8] [B1 B2 B3 B4 B5 B6 B7 B8].
  split; [done|intros j; by rewrite B2|intros j q Hj Hq; by rewrite B3, A3|intros c; by rewrite B4|intuition congruence|lia|
    intros j Hj; by rewrite B7, A7|intuition congruence].
Qed.

Lemma flagged_clean i d d' : flagged i d d' -> clean C d -> clean C d'.
Proof. intros [_ S1 _ P1 [A1 A2] _ _ _] Hc j q Hj Hq Hf. rewrite P1. apply Hc; [done..|]. unfold fresh in *. by rewrite S1, A1, A2 in Hf. Qed.

Lemma flagged_soft i d d' j : flagged i d d' -> softDeletions (info_of d' j) = softDeletions (info_of d j).
Proof. intros [_ _ _ _ _ _ F7 F8]. destruct (decide (j = i)) as [-> |Hne]; [apply F8|by rewrite F7]. Qed.

Lemma flagged_same i d d' : managed C d -> same_books d d' -> flagged i d d'.
Proof.
  intros [Hb Ha] Hs. destruct (same_books_of C d d' Hs Hb) as (Hb' & S' & I' & U'). destruct Hs as [Ek _ _ [E1 E2]].
  split; [|by intros j; rewrite S'|by intros; rewrite U'|by rewrite Ek|done| |by intros; rewrite I'|by rewrite I'].
  - split; [done|]. destruct Ha as [Ha|(j & Ha)]; [left; by rewrite E1|right; exists j; by rewrite E1, E2, S', U'].
  - unfold life. rewrite (sum_to_ext _ (weight C d') (weight C d)); [done|]. intros j _. unfold weight. by rewrite S', I', E1, E2.
Qed.

(** What a flash that has changed leaves. *)
Lemma with_flash_tables f d : state_of (with_flash f d) = state_of d /\ info_of (with_flash f d) = info_of d /\ used C (with_flash f d) = used C d /\
  allocationBlock (with_flash f d) = allocationBlock d /\ allocationPage (with_flash f d) = allocationPage d /\ flash (ck (with_flash f d)) = f.
Proof. destruct (with_flash_same f d) as (F1 & F2 & F3 & F4). unfold state_of, info_of, used. rewrite F1, F2, F3. by destruct d. Qed.

Lemma managed_flash f d : managed C d -> managed C (with_flash f d) /\ life C (with_flash f d) = life C d.
Proof.
  intros [Hb Ha]. destruct (with_flash_tables f d) as (S1 & I1 & U1 & A1 & A2 & _). split.
  - split; [by apply books_flash|]. destruct Ha as [Ha|(j & Ha)]; [left; by rewrite A1|right; exists j; by rewrite A1, A2, S1, U1].
  - unfold life. apply sum_to_ext. intros j _. unfold weight. by rewrite S1, I1, A1, A2.
Qed.

Lemma flagged_flash i f d : managed C d -> (forall c, page f c = page (flash (ck d)) c) -> flagged i d (with_flash f d).
Proof.
  intros Hm Hf. destruct (with_flash_tables f d) as (S1 & I1 & U1 & A1 & A2 & F1). destruct (managed_flash f d Hm) as [Hm' Hl].
  split; [done|intros; by rewrite S1|intros; by rewrite U1|by rewrite F1|done|lia|intros; by rewrite I1|by rewrite I1].
Qed.

(** The information of the block changes in a way that brings it nearer to its end. *)
Definition worn (b b' : yaffs_BlockInfo) : Prop :=
  (softDeletions b' = softDeletions b /\ pagesInUse b' = pagesInUse b /\ hasShrinkHeader b' = hasShrinkHeader b) /\
  (0 <= chunkErrorStrikes b' /\ (needsRetiring b' = false -> chunkErrorStrikes b' <= 3)) /\ wear b' <= wear b.

Lemma flag_ok i d g : managed C d -> (i < nBlocks C)%nat -> worn (info_of d i) (g (info_of d i)) ->
  runs (update_info C (blk C i) g) d (fun _ d' => flagged i d d' /\ info_of d' i = g (info_of d i)).
Proof.
  intros [Hb Ha] Hi ((W1 & W2 & Wh) & W3 & W4). pose proof (sc_chunks C HC) as Hc.
  eapply runs_weaken; [apply (update_info_ok C HC d i g (ac_shape C 0 d Hb) Hi)|]. intros [] d' Hch.
  destruct (changed_at C _ _ _ _ _ _ _ _ Hch Hi) as (S1 & I1 & U1). pose proof Hch as [C1 C2 C3 _ _ _ [C7 C8 C9]].
  assert (forall j, state_of d' j = state_of d j) as Hs by (intros j; rewrite C1; by destruct (decide (j = i)) as [-> |]).
  assert (forall j q, (j < nBlocks C)%nat -> 0 <= q < chunks C -> used C d' j q = used C d j q) as Hu.
  { intros j q Hj Hq. rewrite C3 by (try done; by apply (in_bits C HC)). by destruct (decide (j = i)) as [-> |]. }
  split; [|done]. split; [|done|done|by rewrite C7|done| |intros j Hj; by rewrite C2, decide_False|by rewrite I1].
  - split.
    + destruct (ac_block C 0 d Hb i Hi) as [B1 B2 B3 B4 B5].
      apply (books_changed C 0 0 i _ _ _ _ _ d d' HC Hb Hi Hch); [|lia|unfold free_of; rewrite W1, W2; lia|lia|lia].
      split; [by rewrite W2|by rewrite W1, W2|done|by rewrite W2|done].
    + destruct Ha as [Ha|(j & Hj & Hab & Hst & Hpg & Hfree)]; [left; by rewrite C8|]. right. exists j. rewrite C8, C9, Hs.
      split; [done|]. split; [done|]. split; [done|]. split; [done|]. intros q Hq. rewrite Hu by (try done; lia). by apply Hfree.
  - apply sum_to_le. intros j Hj. unfold weight. rewrite Hs, C8, C9, C2.
    destruct (decide (j = i)) as [-> |]; [|done]. assert (chunks C * wear (g (info_of d i)) <= chunks C * wear (info_of d i)) by nia.
    destruct (state_of d i); lia.
Qed.

Lemma managed_info i d : managed C d -> (i < nBlocks C)%nat -> yaffs_GetBlockInfo C (blk C i) d = Some (info_of d i, d).
Proof. intros [Hb _] Hi. by apply (get_info_ok C HC d i (ac_shape C 0 d Hb)). Qed.
Lemma managed_strikes i d : managed C d -> (i < nBlocks C)%nat ->
  0 <= chunkErrorStrikes (info_of d i) /\ (needsRetiring (info_of d i) = false -> chunkErrorStrikes (info_of d i) <= 3).
Proof. intros [Hb _] Hi. exact (bk_strikes C _ _ _ (ac_block C 0 d Hb i Hi)). Qed.

(** A strike. *)
Lemma worn_strike b : 0 <= chunkErrorStrikes b /\ (needsRetiring b = false -> chunkErrorStrikes b <= 3) -> gcPrioritise b = false ->
  worn b (let (sd, pu, nr, se, _, _, hs, sq) := b in
          BlockInfo sd pu (nr || (3 <? uwrap 3 (chunkErrorStrikes b + 1))) se true (uwrap 3 (chunkErrorStrikes b + 1)) hs sq).
Proof.
  intros [H1 H2] Hg. destruct b as [sd pu nr se gc ce hs sq]. cbn in *. subst gc. unfold worn, wear. cbn.
  assert (0 <= uwrap 3 (ce + 1) < 8) as Hr by (unfold uwrap; change (2 ^ 3) with 8; apply Z.mod_pos_bound; lia).
  destruct nr; cbn; [split; [done|]; split; [split; [lia|done]|lia]|]. specialize (H2 eq_refl).
  assert (uwrap 3 (ce + 1) = ce + 1) as -> by (unfold uwrap; change (2 ^ 3) with 8; apply Z.mod_small; lia).
  split; [done|]. destruct (Z.ltb_spec 3 (ce + 1)); split; try split; try done; lia.
Qed.

Lemma worn_flag v b : 0 <= chunkErrorStrikes b /\ (needsRetiring b = false -> chunkErrorStrikes b <= 3) -> worn b (set_skipErasedCheck v b).
Proof. intros H. destruct b. unfold worn, wear. cbn in *. split; [done|]. split; [done|lia]. Qed.
Lemma worn_retire b : 0 <= chunkErrorStrikes b /\ (needsRetiring b = false -> chunkErrorStrikes b <= 3) -> worn b (set_needsRetiring true b).
Proof.
  intros [H1 H2]. destruct b as [sd pu nr se gc ce hs sq]. unfold worn, wear. cbn in *. split; [done|]. split; [done|].
  destruct nr; [done|]. specialize (H2 eq_refl). destruct gc; lia.
Qed.

Lemma handle_error_ok i d : managed C d -> (i < nBlocks C)%nat ->
  runs (yaffs_HandleChunkError C (blk C i)) d (fun _ d' => flagged i d d' /\ gcPrioritise (info_of d' i) = true).
Proof.
  intros Hm Hi. unfold yaffs_HandleChunkError. eapply runs_bind, runs_eq; [by apply managed_info|].
  destruct (gcPrioritise (info_of d i)) eqn:Hg; [apply runs_ret; split; [by apply flagged_refl|done]|].
  eapply runs_cut; [apply (flag_ok i d _ Hm Hi (worn_strike _ (managed_strikes i d Hm Hi) Hg))|]. intros [] d1 (Ha1 & I1).
  eexists _, _. split; [reflexivity|]. set (d2 := set_collector _ _ _ _). assert (same_books d1 d2) as Hsb by (by destruct d1).
  split; [apply (flagged_trans i d d1 _ Ha1), (flagged_same i d1 d2 (fg_managed _ _ _ Ha1) Hsb)|].
  unfold info_of in *. rewrite (sb_info _ _ Hsb), I1. by destruct (nth i _ _).
Qed.

Lemma chunk_quot i p : 0 <= p < chunks C -> Z.quot (chunk_at C i p) (chunks C) = blk C i.
Proof. intros Hp. destruct (chunk_at_div C HC i p Hp) as (E & _ & Hpos). rewrite Z.quot_div_nonneg by lia. done. Qed.

(** Reading changes no page. *)
Lemma read_nand_ok i p d : managed C d -> (i < nBlocks C)%nat -> 0 <= p < chunks C ->
  let r := readChunkWithTagsFromNAND (flash (ck d)) (page_at C i p) in
  runs (yaffs_ReadChunkWithTagsFromNAND C (chunk_at C i p)) d (fun x d' => x = (r.1.2, r.2) /\ flagged i d d').
Proof.
  intros Hm Hi Hp r. unfold yaffs_ReadChunkWithTagsFromNAND. apply runs_get. rewrite (chunk_page C HC). fold r.
  pose proof (law_read (flash (ck d)) (page_at C i p)) as Hr. fold r in Hr. destruct r as [[f data] t]. cbn [fst snd] in Hr |- *.
  apply runs_modify. fold (with_flash f d). pose proof (flagged_flash i f d Hm Hr) as Hf. rewrite (chunk_quot i p Hp). destruct (ecc_error _).
  - eapply runs_cut; [apply (handle_error_ok i _ (fg_managed _ _ _ Hf) Hi)|]. intros [] d2 [F2 _]. apply runs_ret. split; [done|].
    by apply (flagged_trans i d (with_flash f d)).
  - by apply runs_ret.
Qed.

Lemma check_first_ok i p d erasedOk : managed C d -> (i < nBlocks C)%nat -> 0 <= p < chunks C ->
  runs (check_first C (chunk_at C i p) erasedOk) d (fun _ d' => flagged i d d').
Proof.
  intros Hm Hi Hp. unfold check_first. rewrite (proj1 (chunk_at_div C HC i p Hp)).
  eapply runs_bind, runs_eq; [by apply managed_info|]. destruct (skipErasedCheck _); [by apply runs_ret, flagged_refl|].
  unfold yaffs_CheckChunkErased. eapply runs_cut with (P := fun _ d' => flagged i d d').
  { eapply runs_cut; [apply (read_nand_ok i p d Hm Hi Hp)|]. intros [data t] d1 [_ H1]. by apply runs_ret. }
  intros ok d1 F1. pose proof (fg_managed _ _ _ F1) as Hm1. eapply runs_bind, runs_eq; [by apply managed_info|]. destruct (_ && _); [|by apply runs_ret].
  eapply runs_cut; [apply (flag_ok i d1 _ Hm1 Hi), worn_flag, (managed_strikes i d1 Hm1 Hi)|]. intros [] d2 [F2 _].
  apply runs_ret. by apply (flagged_trans i d d1).
Qed.

(** ** One attempt *)

(** The device [dm] while page [p] of block [i] is tried, which was taken from [d]. *)
Record attempt (i : nat) (p : Z) (d dm : device) : Prop := {
  at_managed : managed C dm;
  at_range : (i < nBlocks C)%nat /\ 0 <= p < chunks C;
  at_free : used C d i p = false;
  at_used : forall j q, (j < nBlocks C)%nat -> 0 <= q < chunks C -> used C dm j q = if decide (j = i /\ q = p) then true else used C d j q;
  at_pages : forall j q, (j < nBlocks C)%nat -> 0 <= q < chunks C -> ~ (j = i /\ q = p) ->
    page (flash (ck dm)) (page_at C j q) = page (flash (ck d)) (page_at C j q);
  at_clean : clean C d -> clean C dm;
  at_state : state_of dm i = YAFFS_BLOCK_STATE_ALLOCATING \/ state_of dm i = YAFFS_BLOCK_STATE_FULL;
  at_soft : 0 <= softDeletions (info_of dm i) < pagesInUse (info_of dm i);
  at_life : life C dm + 1 <= life C d;
  at_closed : forall j, closed (state_of d j) -> j <> i /\ state_of dm j = state_of d j /\ info_of dm j = info_of d j;
  at_softs : forall j, softDeletions (info_of dm j) = softDeletions (info_of d j);
}.

Lemma attempt_taken i p d dm : taken C i p d dm -> attempt i p d dm.
Proof. intros [T1 T2 T3 T4 T5 T6 T7 T8 T9 T10 T11]. split; try done; [by rewrite T5|]. intros Hc. by apply T6. Qed.

(** The page is in use, so it is not one of those to be written next. *)
Lemma attempt_not_fresh i p d dm : attempt i p d dm -> fresh C dm i p -> False.
Proof.
  intros [[_ Ha] [Hi Hp] _ Hu _ _ Hs _ _ _ _] [Hf|[Hf Hf']]; [destruct Hs; congruence|].
  destruct Ha as [Ha|(j & Hj & Hab & _ & _ & Hfree)]; [pose proof (blk_pos C HC i); lia|]. rewrite Hf in Hab. apply blk_inj in Hab as <-.
  specialize (Hfree p ltac:(lia)). rewrite Hu, decide_True in Hfree by done. done.
Qed.

Lemma attempt_flagged i p d dm d' : attempt i p d dm -> flagged i dm d' -> attempt i p d d'.
Proof.
  intros [H1 [Hi Hp] H3 H4 H5 H6 H7 H8 H9 H10 H11] Hf. pose proof Hf as [F1 F2 F3 F4 F5 F6 F7 (F8 & F9 & _)].
  split; [done|done|done| | | |by rewrite F2|by rewrite F8, F9|lia| |].
  - intros j q Hj Hq. by rewrite F3, H4.
  - intros j q Hj Hq Hne. rewrite F4. by apply H5.
  - intros Hc. by apply (flagged_clean i dm d' Hf), H6.
  - intros j Hj. destruct (H10 j Hj) as (Hne & Hsj & Hij). split; [done|]. by rewrite F2, F7.
  - intros j. by rewrite (flagged_soft i dm d' j Hf).
Qed.

(** The flash changes, of the pages at most the one that is tried. *)
Lemma attempt_flash i p d dm f : attempt i p d dm ->
  (forall c, c <> page_at C i p -> page f c = page (flash (ck dm)) c) -> attempt i p d (with_flash f dm).
Proof.
  intros Hat Hf. pose proof Hat as [H1 [Hi Hp] H3 H4 H5 H6 H7 H8 H9 H10 H11]. destruct (with_flash_tables f dm) as (S1 & I1 & U1 & A1 & A2 & F1).
  destruct (managed_flash f dm H1) as [Hm' Hl].
  assert (forall j q, (j < nBlocks C)%nat -> 0 <= q < chunks C -> ~ (j = i /\ q = p) -> page f (page_at C j q) = page (flash (ck dm)) (page_at C j q)) as Hpg.
  { intros j q Hj Hq Hne. apply Hf. unfold page_at. intros E. apply Hne. assert (Z.of_nat j = Z.of_nat i) by nia. split; [lia|nia]. }
  split; [done|done|done|by rewrite U1| | |by rewrite S1|by rewrite I1|lia|by rewrite S1, I1|by rewrite I1].
  - intros j q Hj Hq Hne. rewrite F1, Hpg by done. by apply H5.
  - intros Hc j q Hj Hq Hfr. assert (fresh C dm j q) as Hfr' by (unfold fresh in *; by rewrite S1, A1, A2 in Hfr). rewrite F1, Hpg; [by apply H6|done..|].
    intros [-> ->]. by apply (attempt_not_fresh i p d dm).
Qed.

Lemma write_nand_ok i p d dm data tags : attempt i p d dm -> yaffs_ValidateTags tags = true ->
  runs (yaffs_WriteChunkWithTagsToNAND C (chunk_at C i p) data tags) dm (fun r d' => attempt i p d d' /\
    (page (flash (ck dm)) (page_at C i p) = None -> truthy r = true ->
     page (flash (ck d')) (page_at C i p) = Some (data, (objectId tags, chunkId tags, dev_sequenceNumber d')))).
Proof.
  intros Hat Ht. unfold yaffs_WriteChunkWithTagsToNAND. apply runs_get. rewrite (chunk_page C HC).
  change (yaffs_ValidateTags (stamp_tags (dev_sequenceNumber dm) tags)) with (yaffs_ValidateTags tags). rewrite Ht. cbn [negb].
  set (t := stamp_tags _ _). pose proof (law_write (flash (ck dm)) (page_at C i p) data t) as Hw.
  pose proof (law_write_other (flash (ck dm)) (page_at C i p) data t) as Ho. destruct (writeChunkWithTagsToNAND _ _ _ _) as [f r]. cbn [fst snd] in Hw, Ho.
  apply runs_modify, runs_ret. fold (with_flash f dm). destruct (with_flash_same f dm) as (_ & _ & _ & ->).
  split; [by apply attempt_flash|]. intros Hn Hr. rewrite (Hw Hn Hr). by destruct dm.
Qed.

(** ** An attempt in vain *)

(** The chunks in use are what they were. *)
Record spared (d d' : device) : Prop := {
  sp_managed : managed C d';
  sp_used : forall i p, (i < nBlocks C)%nat -> 0 <= p < chunks C -> used C d' i p = used C d i p;
  sp_pages : forall i p, (i < nBlocks C)%nat -> 0 <= p < chunks C -> used C d i p = true ->
    page (flash (ck d')) (page_at C i p) = page (flash (ck d)) (page_at C i p);
  sp_clean : clean C d -> clean C d';
  sp_closed : forall j, closed (state_of d j) -> state_of d' j = state_of d j /\ info_of d' j = info_of d j;
  sp_soft : forall j, (j < nBlocks C)%nat -> softDeletions (info_of d' j) <= softDeletions (info_of d j);
}.

Lemma spared_settled d d' : settled C d d' -> spared d d'.
Proof. intros [S1 S2 S3 S4 S5 S6 S7]. split; [done|done|by rewrite S3|done|done|]. intros j _. by rewrite S7. Qed.
Lemma spared_trans d d1 d2 : spared d d1 -> spared d1 d2 -> spared d d2.
Proof.
  intros [A1 A2 A3 A4 A5 A6] [B1 B2 B3 B4 B5 B6]. split; [done| | |auto| |].
  - intros i p Hi Hp. by rewrite B2, A2.
  - intros i p Hi Hp Hu. rewrite B3, A3 by (try done; by rewrite A2). done.
  - intros j Hj. destruct (A5 j Hj) as [<- <-]. apply B5. by rewrite (proj1 (A5 j Hj)).
  - intros j Hj. specialize (A6 j Hj). specialize (B6 j Hj). lia.
Qed.

Lemma give_back_ok i p d dm : attempt i p d dm -> gcPrioritise (info_of dm i) = true ->
  runs (yaffs_DeleteChunk C (chunk_at C i p)) dm (fun _ d' => spared d d' /\ life C d' + 1 <= life C d).
Proof.
  intros Hat Hg. pose proof Hat as [Hm [Hi Hp] H3 H4 H5 H6 H7 H8 H9 H10 H11].
  eapply runs_weaken; [apply (delete_ok C HC dm i p Hm Hi Hp)|].
  - by rewrite H4, decide_True.
  - destruct H7 as [-> | ->]; done.
  - intros _. lia.
  - intros _ d' [[D1 D2 D3 D4 _ D6 D7 D8] _]. split; [|specialize (D6 Hg); lia]. split; [done| | |auto| |].
    + intros j q Hj Hq. destruct (used C d' j q) eqn:Hu'.
      * destruct (D3 j q Hj Hq Hu') as [Hu Hne]. rewrite H4, decide_False in Hu by done. done.
      * destruct (used C d j q) eqn:Hu; [|done]. assert (~ (j = i /\ q = p)) as Hne by (intros [-> ->]; congruence).
        destruct (D2 j q Hj Hq) as [Hc _]; [by rewrite H4, decide_False|done|congruence].
    + intros j q Hj Hq Hu. assert (~ (j = i /\ q = p)) as Hne by (intros [-> ->]; congruence).
      destruct (D2 j q Hj Hq) as [_ Hpg]; [by rewrite H4, decide_False|done|]. rewrite Hpg. by apply H5.
    + intros j Hj. destruct (H10 j Hj) as (Hne & <- & <-). apply D7; [done|]. by rewrite (proj1 (proj2 (H10 j Hj))).
    + intros j Hj. rewrite <- (H11 j). by apply D8.
Qed.

Lemma handle_write_error_ok i p d dm erasedOk : attempt i p d dm ->
  runs (yaffs_HandleWriteChunkError C (chunk_at C i p) erasedOk) dm (fun _ d' => spared d d' /\ life C d' + 1 <= life C d).
Proof.
  intros Hat. pose proof (at_range _ _ _ _ Hat) as [Hi Hp]. unfold yaffs_HandleWriteChunkError. rewrite (proj1 (chunk_at_div C HC i p Hp)).
  eapply runs_cut; [apply (handle_error_ok i dm (at_managed _ _ _ _ Hat) Hi)|]. intros [] d1 [F1 G1].
  pose proof (attempt_flagged i p d dm d1 Hat F1) as Ha1. pose proof (fg_managed _ _ _ F1) as Hm1. destruct erasedOk; [|by apply give_back_ok].
  eapply runs_cut; [apply (flag_ok i d1 _ Hm1 Hi), worn_retire, (managed_strikes i d1 Hm1 Hi)|]. intros [] d2 [F2 I2].
  apply give_back_ok; [by apply (attempt_flagged i p d d1)|]. rewrite I2. by destruct (info_of d1 i).
Qed.

(** ** The loop *)

(** The chunk is written. *)
Record written (i : nat) (p : Z) (data : list Z) (tags : yaffs_ExtendedTags) (d d' : device) : Prop := {
  wr_managed : managed C d';
  wr_range : (i < nBlocks C)%nat /\ 0 <= p < chunks C;
  wr_free : used C d i p = false;
  wr_used : forall j q, (j < nBlocks C)%nat -> 0 <= q < chunks C -> used C d' j q = if decide (j = i /\ q = p) then true else used C d j q;
  wr_pages : forall j q, (j < nBlocks C)%nat -> 0 <= q < chunks C -> used C d j q = true ->
    page (flash (ck d')) (page_at C j q) = page (flash (ck d)) (page_at C j q);
  wr_clean : clean C d -> clean C d' /\
    page (flash (ck d')) (page_at C i p) = Some (data, (objectId tags, chunkId tags, dev_sequenceNumber d'));
  wr_closed : forall j, closed (state_of d j) -> j <> i /\ state_of d' j = state_of d j /\ info_of d' j = info_of d j;
  wr_soft : forall j, (j < nBlocks C)%nat -> softDeletions (info_of d' j) <= softDeletions (info_of d j);
  wr_block : softDeletions (info_of d' i) < pagesInUse (info_of d' i);
}.

Lemma written_spared i p data tags d d1 d2 : spared d d1 -> written i p data tags d1 d2 -> written i p data tags d d2.
Proof.
  intros [S1 S2 S3 S4 S5 S6] [W1 W2 W3 W4 W5 W6 W7 W8 W9]. destruct W2 as [Hi Hp]. split; [done|done|by rewrite <- S2| | |auto| | |done].
  - intros j q Hj Hq. rewrite W4 by done. case_decide; [done|]. by apply S2.
  - intros j q Hj Hq Hu. rewrite W5, S3 by (try done; by rewrite S2). done.
  - intros j Hj. destruct (S5 j Hj) as [<- <-]. apply W7. by rewrite (proj1 (S5 j Hj)).
  - intros j Hj. specialize (S6 j Hj). specialize (W8 j Hj). lia.
Qed.

Lemma written_attempt i p data tags d dm : attempt i p d dm ->
  (clean C d -> page (flash (ck dm)) (page_at C i p) = Some (data, (objectId tags, chunkId tags, dev_sequenceNumber dm))) -> written i p data tags d dm.
Proof.
  intros [H1 H2 H3 H4 H5 H6 H7 H8 H9 H10 H11] Hpg. split; [done|done|done|done| |auto|done|intros j _; by rewrite H11|lia]. intros j q Hj Hq Hu. apply H5; [done..|]. intros [-> ->]. congruence.
Qed.

Definition outcome (data : list Z) (tags : yaffs_ExtendedTags) (useReserve : bool) (d : device) (r : Z) (d' : device) : Prop :=
  (r = -1 /\ spared d d' /\ (useReserve = true -> nErasedBlocks (ck d') = 0)) \/ exists i p, r = chunk_at C i p /\ written i p data tags d d'.

Lemma outcome_spared data tags useReserve d d1 r d2 : spared d d1 -> outcome data tags useReserve d1 r d2 -> outcome data tags useReserve d r d2.
Proof.
  intros Hs [(-> & H1 & H2)|(i & p & -> & Hw)]; [left; split; [done|]; split; [by apply (spared_trans d d1)|done]|].
  right. exists i, p. split; [done|]. by apply (written_spared i p data tags d d1).
Qed.

Lemma write_new_loop_ok fuel data tags useReserve erasedOk attempts d : managed C d -> yaffs_ValidateTags tags = true -> life C d < Z.of_nat fuel ->
  runs (write_new_loop C fuel data tags useReserve erasedOk attempts) d (fun r d' => outcome data tags useReserve d r.1 d').
Proof.
  intros Hm Ht. revert d erasedOk attempts Hm. induction fuel as [|fuel IH]; intros d erasedOk attempts Hm Hl.
  { pose proof (life_bounds C HC d Hm). lia. }
  cbn [write_new_loop]. eapply runs_cut; [apply (allocate_ok C HC d useReserve Hm)|]. intros chunk d1 [(-> & Hs & He)|(i & p & -> & Hta)].
  { apply runs_ret. left. split; [done|]. split; [by apply spared_settled|done]. }
  pose proof (attempt_taken i p d d1 Hta) as Ha1. destruct (chunk_at_div C HC i p (proj2 (at_range _ _ _ _ Ha1))) as (E1 & _ & E3).
  destruct (Z.ltb_spec (chunk_at C i p) 0); [lia|]. rewrite E1. pose proof Ha1 as [Hm1 [Hi Hp] _ _ _ _ _ _ _ _ _].
  eapply runs_bind, runs_eq; [by apply managed_info|].
  assert (forall m e a dm, runs m dm (fun _ d' => spared d d' /\ life C d' + 1 <= life C d) ->
    runs (m ≫= fun _ : unit => write_new_loop C fuel data tags useReserve e a) dm (fun r d' => outcome data tags useReserve d r.1 d')) as Hnext.
  { intros m e a dm Hrun. eapply runs_cut; [exact Hrun|]. intros _ d2 [Hs2 Hl2]. eapply runs_weaken; [apply (IH d2 e a (sp_managed _ _ Hs2)); lia|].
    intros r d3 Ho. by apply (outcome_spared data tags useReserve d d2). }
  destruct (gcPrioritise (info_of d1 i)) eqn:Hg; [by apply Hnext, give_back_ok|].
  eapply runs_cut; [apply (check_first_ok i p d1 erasedOk Hm1 Hi Hp)|]. intros e2 d2 F2. pose proof (attempt_flagged i p d d1 d2 Ha1 F2) as Ha2.
  eapply runs_cut with (P := fun w d3 => attempt i p d d3 /\ (truthy w = true -> clean C d ->
    page (flash (ck d3)) (page_at C i p) = Some (data, (objectId tags, chunkId tags, dev_sequenceNumber d3)))).
  { destruct e2; [|by apply runs_ret]. eapply runs_weaken; [apply (write_nand_ok i p d d2 data tags Ha2 Ht)|]. intros w d3 [Ha3 P3]. split; [done|].
    intros Hw Hc. apply P3; [|done]. rewrite (fg_pages _ _ _ F2), (tk_flash C _ _ _ _ Hta). by apply (tk_clean C _ _ _ _ Hta). }
  intros w d3 [Ha3 P3]. destruct (truthy w) eqn:Hw.
  { apply runs_ret. right. exists i, p. split; [done|]. apply written_attempt; [done|]. by apply P3. }
  by apply Hnext, handle_write_error_ok.
Qed.

(** Dropping the checkpoint harms no chunk. *)
Lemma spared_invalidated d d' : managed C d -> accounted C d' -> invalidated C d d' -> spared d d'.
Proof.
  intros [Hb Ha] Hb' [I1 I2 I3 [I4 I5] I6 I7].
  assert (used C d' = used C d) as Hu by (unfold used; by rewrite I3).
  assert (forall j, state_of d j = YAFFS_BLOCK_STATE_ALLOCATING -> state_of d' j = YAFFS_BLOCK_STATE_ALLOCATING) as Hal.
  { intros j Hj. destruct (I1 j) as [-> |[? _]]; [done|congruence]. }
  split.
  - split; [done|]. destruct Ha as [Ha|(j & Hj & Hab & Hst & Hrest)]; [left; by rewrite I4|right; exists j; rewrite I4, I5, Hu; auto].
  - intros i p _ _. by rewrite Hu.
  - intros i p Hi Hp Hui. apply I6; [done..|]. by apply (used_not_checkpoint C d i p).
  - intros Hc i p Hi Hp Hfr. destruct (decide (state_of d i = state_of d' i)) as [He|He].
    + assert (fresh C d i p) as Hfr' by (unfold fresh in *; by rewrite He, <- I4, <- I5). rewrite I6; [by apply Hc|done..|].
      destruct Hfr' as [-> |[Hf _]]; [done|]. destruct Ha as [Ha|(j & Hj & Hab & Hst & _)]; [pose proof (blk_pos C HC i); lia|].
      rewrite Hf in Hab. apply blk_inj in Hab as ->. by rewrite Hst.
    + destruct (I1 i) as [Hi1|[Hi1 _]]; [by destruct He|]. destruct Hfr as [Hfr|[Hf _]]; [by apply I7|].
      rewrite I4 in Hf. destruct Ha as [Ha|(j & Hj & Hab & Hst & _)]; [pose proof (blk_pos C HC i); lia|].
      rewrite Hf in Hab. apply blk_inj in Hab as ->. congruence.
  - intros j Hj. unfold info_of. rewrite I2. split; [|done]. destruct (I1 j) as [-> |[Hs _]]; [done|]. rewrite Hs in Hj. by destruct Hj.
  - intros j _. unfold info_of. by rewrite I2.
Qed.

(** Enough turns: every block can be filled at most ten times before it is retired. *)
Definition write_fuel : nat := Z.to_nat (10 * chunks C * Z.of_nat (nBlocks C) + 1).

Lemma write_new_ok data tags useReserve d : managed C d -> yaffs_ValidateTags tags = true ->
  runs (yaffs_WriteNewChunkWithTagsToNAND C write_fuel data tags useReserve) d (outcome data tags useReserve d).
Proof.
  intros Hm Ht. pose proof (sc_chunks C HC) as Hc. unfold yaffs_WriteNewChunkWithTagsToNAND.
  eapply runs_cut; [apply (invalidate_ok C HC 0 d (proj1 Hm)); lia|]. intros _ d1 [Hb1 Hv1].
  pose proof (spared_invalidated d d1 Hm Hb1 Hv1) as Hs1. pose proof (life_bounds C HC d1 (sp_managed _ _ Hs1)) as Hl.
  eapply runs_cut; [apply (write_new_loop_ok write_fuel data tags useReserve true 0 d1 (sp_managed _ _ Hs1) Ht); unfold write_fuel; lia|].
  intros [r attempts] d2 Ho. apply (outcome_spared data tags useReserve d d1 r d2 Hs1) in Ho. cbn [fst] in Ho.
  destruct (1 <? attempts); [|by apply runs_ret]. apply runs_modify, runs_ret.
  assert (forall d3, d3 = set_stats (count_retries (attempts - 1)) d2 -> managed C d2 -> managed C d3) as Hst.
  { intros d3 -> [Hb2 Ha2]. split; [by apply books_stats|by destruct d2]. }
  destruct Ho as [(-> & [S1 S2 S3 S4 S5 S6] & H5)|(i & p & -> & [W1 W2 W3 W4 W5 W6 W7 W8 W9])]; [left|right; exists i, p]; (split; [done|]).
  - split; [|by destruct d2]. split; [by eapply Hst|by destruct d2..].
  - split; [by eapply Hst|done|done|by destruct d2..].
Qed.
End Retry.
