(* ===== verification/YaffsFile.v ===== *)
(** * The chunks of a file (yaffs2/yaffs_guts.c)

    Finding, reading, writing and moving the data chunks of a file: the tree of
    [YaffsTnode] says in which group of chunks a chunk of the file is, the tags on the
    flash ([YaffsBlocks]) say which chunk of the group it is.

    A YAFFS2 device.  The objects are a map from object numbers, for the hash table that
    [yaffs_FindObjectByNumber] searches; of an object only the members used here are kept.
    The cache of chunks and the directories are not part of this model. *)

From S2P Require Import Prelude YaffsTags YaffsTagsCompat YaffsCheckpt YaffsBlocks YaffsTnode.

(** ** State *)

Record yaffs_Object := Object {
  isFile : bool;                               (* variantType == YAFFS_OBJECT_TYPE_FILE *)
  isDeleted : bool;                            (* deleted *)
  obj_chunkId : Z; obj_serial : Z;             (* the chunk of the header; 8 bits *)
  nDataChunks : Z;
  fileVariant : yaffs_FileStructure;
}.

Definition set_nDataChunks (n : Z) (ob : yaffs_Object) : yaffs_Object :=
  let (f, d, c, s, _, v) := ob in Object f d c s n v.
Definition set_fileVariant (v : yaffs_FileStructure) (ob : yaffs_Object) : yaffs_Object :=
  let (f, d, c, s, n, _) := ob in Object f d c s n v.
Definition set_header (c s : Z) (ob : yaffs_Object) : yaffs_Object :=
  let (f, d, _, _, n, v) := ob in Object f d c s n v.

Section Files.
Context {D : CheckpointDriver} {Ma : Malloc} (C : block_config) (garbage : Z).

Record system := System {
  blocks : device;
  tnodes : YaffsTnode.yaffs_Device;
  objects : gmap Z yaffs_Object;
  isDoingGC : bool;
  nGCCopies : Z;
}.

Definition set_blocks (d : device) (s : system) : system := let (_, t, o, g, n) := s in System d t o g n.
Definition set_tnodes (t : YaffsTnode.yaffs_Device) (s : system) : system := let (d, _, o, g, n) := s in System d t o g n.
Definition set_objects (o : gmap Z yaffs_Object) (s : system) : system := let (d, t, _, g, n) := s in System d t o g n.
Definition set_gc (g : bool) (n : Z) (s : system) : system := let (d, t, o, _, _) := s in System d t o g n.

Definition on_blocks {A} (m : St device A) : St system A := fun s => '(x, d) ← m (blocks s); Some (x, set_blocks d s).
Definition on_tnodes {A} (m : St YaffsTnode.yaffs_Device A) : St system A :=
  fun s => '(x, t) ← m (tnodes s); Some (x, set_tnodes t s).

Definition get_object (o : Z) : St system yaffs_Object := s ← get_st; lift (objects s !! o).
Definition put_object (o : Z) (ob : yaffs_Object) : St system unit := modify (fun s => set_objects (<[o := ob]> (objects s)) s).

(** The entry of a level 0 tnode for a chunk of a file. *)
Definition get_entry (tn chunkInInode : Z) : St YaffsTnode.yaffs_Device Z :=
  d ← get_st; node ← load tn;
  lift (yaffs_GetChunkGroupBase (tnodeWidth d) (tnodeMask d) (chunkGroupBits d) node chunkInInode).
Definition put_entry (tn chunkInInode val : Z) : St YaffsTnode.yaffs_Device unit :=
  d ← get_st; node ← load tn;
  node ← lift (yaffs_PutLevel0Tnode (tnodeWidth d) (tnodeMask d) (chunkGroupBits d) node chunkInInode val);
  store tn node.

(** ** Finding a chunk *)

Definition yaffs_TagsMatch (tags : yaffs_ExtendedTags) (oid chunkInObject : Z) : bool :=
  (chunkId tags =? u32 chunkInObject) && (objectId tags =? u32 oid) && negb (truthy (chunkDeleted tags)).

(** [for (j = 0; theChunk && j < dev->chunkGroupSize; j++)], [n] turns to go; the chunk
    with its tags, or nothing for -1 *)
Fixpoint find_in_group (n : nat) (theChunk oid chunkInInode : Z) : St device (option (Z * yaffs_ExtendedTags)) :=
  match n with
  | O => mret None
  | S n =>
      if theChunk =? 0 then mret None else
      b ← yaffs_CheckChunkBit C (theChunk / chunks C) (theChunk mod chunks C);
      r ← (if b : bool then
             '(_, tags) ← yaffs_ReadChunkWithTagsFromNAND C theChunk;
             mret (if yaffs_TagsMatch tags oid chunkInInode then Some tags else None)
           else mret None);
      match r with
      | Some tags => mret (Some (theChunk, tags))
      | None => find_in_group n (theChunk + 1) oid chunkInInode
      end
  end.

Definition yaffs_FindChunkInGroup (theChunk oid chunkInInode : Z) : St system (option (Z * yaffs_ExtendedTags)) :=
  s ← get_st;
  on_blocks (find_in_group (Z.to_nat (Z.shiftl 1 (chunkGroupBits (tnodes s)))) theChunk oid chunkInInode).

Definition yaffs_FindChunkInFile (oid chunkInInode : Z) : St system (option (Z * yaffs_ExtendedTags)) :=
  ob ← get_object oid;
  tn ← on_tnodes (yaffs_FindLevel0Tnode (fileVariant ob) chunkInInode);
  if tn =? 0 then mret None else
  theChunk ← on_tnodes (get_entry tn chunkInInode);
  yaffs_FindChunkInGroup theChunk oid chunkInInode.

Definition yaffs_FindAndDeleteChunkInFile (oid chunkInInode : Z) : St system (option (Z * yaffs_ExtendedTags)) :=
  ob ← get_object oid;
  tn ← on_tnodes (yaffs_FindLevel0Tnode (fileVariant ob) chunkInInode);
  if tn =? 0 then mret None else
  theChunk ← on_tnodes (get_entry tn chunkInInode);
  r ← yaffs_FindChunkInGroup theChunk oid chunkInInode;
  match r with
  | Some _ => _ ← on_tnodes (put_entry tn chunkInInode 0); mret r
  | None => mret None
  end.

(** what the buffer holds afterwards *)
Definition yaffs_ReadChunkDataFromObject (oid chunkInInode : Z) : St system (list Z) :=
  r ← yaffs_FindChunkInFile oid chunkInInode;
  match r with
  | Some (chunkInNAND, _) => '(data, _) ← on_blocks (yaffs_ReadChunkWithTagsFromNAND C chunkInNAND); mret data
  | None => mret (replicate (Z.to_nat (nDataBytesPerChunk (ckpt C))) 0)
  end.

(** ** Putting a chunk into a file *)

(** The serial numbers only matter on a YAFFS1 device. *)
Definition yaffs_PutChunkIntoFile (oid chunkInInode chunkInNAND inScan : Z) : St system Z :=
  ob ← get_object oid;
  if negb (isFile ob) then
    if inScan =? 0 then undefined else _ ← on_blocks (yaffs_DeleteChunk C chunkInNAND); mret YAFFS_OK
  else
  '(tn, f) ← on_tnodes (yaffs_AddOrFindLevel0Tnode garbage (fileVariant ob) chunkInInode 0);
  _ ← put_object oid (set_fileVariant f ob);
  if tn =? 0 then mret YAFFS_FAIL else
  existing ← on_tnodes (get_entry tn chunkInInode);
  drop ← (if negb (inScan =? 0) && negb (existing =? 0) then
            existing ← (if 0 <? inScan then
                          _ ← on_blocks (yaffs_ReadChunkWithTagsFromNAND C chunkInNAND);
                          r ← yaffs_FindChunkInFile oid chunkInInode;
                          mret (match r with Some (n, _) => n | None => -1 end)
                        else mret existing);
            if 0 <? inScan then _ ← on_blocks (yaffs_DeleteChunk C existing); mret None
            else _ ← on_blocks (yaffs_DeleteChunk C chunkInNAND); mret (Some YAFFS_OK)
          else mret None);
  match drop with
  | Some r => mret r
  | None =>
      ob ← get_object oid;
      _ ← (if existing =? 0 then put_object oid (set_nDataChunks (s32 (nDataChunks ob + 1)) ob) else mret tt);
      _ ← on_tnodes (put_entry tn chunkInInode chunkInNAND);
      mret YAFFS_OK
  end.

(** ** Writing a chunk of a file *)

Definition data_tags (oid chunkInInode serial nBytes : Z) : yaffs_ExtendedTags :=
  ExtendedTags 0xAAAAAAAA 0 (u32 oid) (u32 chunkInInode) (u32 nBytes) YAFFS_ECC_RESULT_UNKNOWN 0 0 (u32 serial) 0 0 0 0 0 0 0 0 0x55555555.

(** [yaffs_WriteChunkDataToObject] after its call of [yaffs_CheckGarbageCollection] *)
Definition write_chunk_data (fuel : nat) (oid chunkInInode : Z) (buffer : list Z) (nBytes : Z) (useReserve : bool) : St system Z :=
  prev ← yaffs_FindChunkInFile oid chunkInInode;
  let serial := match prev with Some (_, t) => serialNumber t + 1 | None => 1 end in
  newChunkId ← on_blocks (yaffs_WriteNewChunkWithTagsToNAND C fuel buffer (data_tags oid chunkInInode serial nBytes) useReserve);
  _ ← (if 0 <=? newChunkId then
         _ ← yaffs_PutChunkIntoFile oid chunkInInode newChunkId 0;
         match prev with
         | Some (prevChunkId, _) => on_blocks (yaffs_DeleteChunk C prevChunkId)
         | None => mret tt
         end
       else mret tt);
  mret newChunkId.

(** ** Collecting a block *)

(** [oh->shadowsObject = -1; oh->isShrink = 0;] in the bytes of a [yaffs_ObjectHeader] *)
Definition clear_shrink (buffer : list Z) : option (list Z) :=
  if Z.of_nat (length buffer) <? 512 then None
  else Some (take 504 buffer ++ [255; 255; 255; 255; 0; 0; 0; 0] ++ drop 512 buffer).

(** [tags.serialNumber++], and for a header the extra members are cleared *)
Definition copy_tags (t : yaffs_ExtendedTags) : yaffs_ExtendedTags :=
  let header := chunkId t =? 0 in
  {| validMarker0 := validMarker0 t; chunkUsed := chunkUsed t; objectId := objectId t; chunkId := chunkId t;
     byteCount := byteCount t; eccResult := eccResult t; blockBad := blockBad t;
     chunkDeleted := chunkDeleted t; serialNumber := u32 (serialNumber t + 1); sequenceNumber := sequenceNumber t;
     extraHeaderInfoAvailable := extraHeaderInfoAvailable t; extraParentObjectId := extraParentObjectId t;
     extraIsShrinkHeader := if header then 0 else extraIsShrinkHeader t;
     extraShadows := if header then 0 else extraShadows t;
     extraObjectType := extraObjectType t; extraFileLength := extraFileLength t;
     extraEquivalentObjectId := extraEquivalentObjectId t; validMarker1 := validMarker1 t |}.

(** A chunk of the block is copied or dropped, then deleted.  Whether [retVal] stays
    [YAFFS_OK], and the object that [gcCleanupList] gets. *)
Definition collect_chunk (fuel : nat) (oldChunk : Z) : St system (bool * option Z) :=
  '(buffer, tags) ← on_blocks (yaffs_ReadChunkWithTagsFromNAND C oldChunk);
  s ← get_st;
  r ← match objects s !! objectId tags with
      | None => mret (true, None)
      | Some ob =>
          if isDeleted ob && negb (chunkId tags =? 0) then
            let n := s32 (nDataChunks ob - 1) in
            _ ← put_object (objectId tags) (set_nDataChunks n ob);
            mret (true, if n <=? 0 then Some (objectId tags) else None)
          else
            _ ← modify (fun s => set_gc (isDoingGC s) (s32 (nGCCopies s + 1)) s);
            buffer ← lift (if chunkId tags =? 0 then clear_shrink buffer else Some buffer);
            newChunk ← on_blocks (yaffs_WriteNewChunkWithTagsToNAND C fuel buffer (copy_tags tags) true);
            if newChunk <? 0 then mret (false, None) else
            _ ← (if chunkId tags =? 0 then put_object (objectId tags) (set_header newChunk (u8 (serialNumber (copy_tags tags))) ob)
                 else _ ← yaffs_PutChunkIntoFile (objectId tags) (s32 (chunkId tags)) newChunk 0; mret tt);
            mret (true, None)
      end;
  _ ← on_blocks (yaffs_DeleteChunk C oldChunk);
  mret r.

(** [for (chunkInBlock = 0, oldChunk = ...; ...; chunkInBlock++, oldChunk++)], [n] turns to
    go: [retVal == YAFFS_OK] and [gcCleanupList] *)
Fixpoint collect_loop (fuel n : nat) (block chunkInBlock : Z) (ok : bool) (cleanups : list Z) : St system (bool * list Z) :=
  match n with
  | O => mret (ok, cleanups)
  | S n =>
      some ← on_blocks (yaffs_StillSomeChunkBits C block);
      if negb some then mret (ok, cleanups) else
      b ← on_blocks (yaffs_CheckChunkBit C block chunkInBlock);
      '(ok1, o) ← (if b : bool then collect_chunk fuel (block * chunks C + chunkInBlock) else mret (true, None));
      collect_loop fuel n block (chunkInBlock + 1) (ok && ok1) (cleanups ++ option_list o)
  end.

Definition clear_hasShrinkHeader (b : yaffs_BlockInfo) : yaffs_BlockInfo :=
  let (sd, pu, nr, se, gc, ce, _, sq) := b in BlockInfo sd pu nr se gc ce false sq.

(** the block is marked; its state before *)
Definition begin_collect (block : Z) : St device yaffs_BlockState :=
  st ← get_state C block;
  _ ← set_state C block YAFFS_BLOCK_STATE_COLLECTING;
  _ ← update_info C block clear_hasShrinkHeader;
  bi ← yaffs_GetBlockInfo C block;
  _ ← add_free (- softDeletions bi);
  mret st.

(** [yaffs_GarbageCollectBlock] up to the deletion of the objects in [gcCleanupList], which
    is returned with whether [retVal] is [YAFFS_OK] *)
Definition collect_block (fuel : nat) (block : Z) : St system (bool * list Z) :=
  st ← on_blocks (begin_collect block);
  _ ← modify (fun s => set_gc true (nGCCopies s) s);
  some ← on_blocks (yaffs_StillSomeChunkBits C block);
  if bool_decide (st = YAFFS_BLOCK_STATE_CHECKPOINT) || negb some then
    _ ← on_blocks (yaffs_BlockBecameDirty C block); mret (true, [])
  else collect_loop fuel (Z.to_nat (chunks C)) block 0 true [].

(** one turn of the loop of [yaffs_CheckGarbageCollection]: the block that is chosen, and
    what collecting it gave *)
Definition collect_some (fuel : nat) : St system (Z * (bool * list Z)) :=
  s ← get_st;
  let adjust := s32 (nCheckpointReservedBlocks C - blocksInCheckpoint (ck (blocks s))) in
  let adjust := if adjust <? 0 then 0 else adjust in
  let aggressive := nErasedBlocks (ck (blocks s)) <? s32 (nReservedBlocks (ckpt C) + adjust) in
  block ← on_blocks (yaffs_FindBlockForGarbageCollection C aggressive);
  r ← (if 0 <? block then collect_block fuel block else mret (true, []));
  mret (block, r).
End Files.
