(* ===== verification/YaffsStore.v ===== *)
(** * What a file holds (yaffs2/yaffs_guts.c)

    The operations of [YaffsFile] against an abstract view: every file is a map from chunk
    numbers to contents. *)

From S2P Require Import Prelude YaffsTags YaffsTagsCompat YaffsCheckpt YaffsBlocks YaffsSpace YaffsChunks YaffsWrite YaffsRetry.
From S2P Require Import YaffsTnode YaffsTree YaffsFile.

(** What the drivers promise about the tags of a page that has been written: the markers
    are set, and a YAFFS2 page is not marked deleted. *)
Class FileDriverLaws (D : CheckpointDriver) (n : Z) {L : CheckpointDriverLaws D n} := {
  law_read_deleted f c x : page f c = Some x -> chunkDeleted (readChunkWithTagsFromNAND f c).2 = 0;
  law_read_valid f c x : page f c = Some x -> yaffs_ValidateTags (readChunkWithTagsFromNAND f c).2 = true;
}.

Section Store.
Context {D : CheckpointDriver} (C : block_config) (HC : space_config C).
Context {L : CheckpointDriverLaws D (chunks C)} {BL : BlockDriverLaws D (chunks C)} {FL : FileDriverLaws D (chunks C)}.

(** ** Groups of chunks *)

Section Groups.
Context (gb : Z) (Hgb : 0 <= gb) (Hdiv : (2 ^ gb | chunks C)).

Lemma group_div x : group gb x = x / 2 ^ gb * 2 ^ gb.
Proof. unfold group. by rewrite Z.shiftr_div_pow2, Z.shiftl_mul_pow2. Qed.

Lemma group_page i p : 0 <= p < chunks C ->
  exists q, group gb (chunk_at C i p) = chunk_at C i q /\ 0 <= q <= p /\ p < q + 2 ^ gb <= chunks C.
Proof.
  intros Hp. pose proof (Z.pow_pos_nonneg 2 gb ltac:(lia) Hgb) as Hpos. destruct Hdiv as [k Hk]. exists (p / 2 ^ gb * 2 ^ gb).
  rewrite group_div. unfold chunk_at. rewrite Hk, Z.mul_assoc, Z.div_add_l by lia.
  pose proof (Z.div_mod p (2 ^ gb) ltac:(lia)) as Hd. pose proof (Z.mod_pos_bound p (2 ^ gb) Hpos) as Hm.
  pose proof (Z.div_pos p (2 ^ gb) ltac:(lia) Hpos) as Hq. assert (p / 2 ^ gb < k) as Hlt by (apply Z.div_lt_upper_bound; lia).
  assert (p / 2 ^ gb * 2 ^ gb + 2 ^ gb <= k * 2 ^ gb) by nia. split; [lia|]. lia.
Qed.

Lemma group_pos i p : 0 <= p < chunks C -> 0 < group gb (chunk_at C i p).
Proof. intros Hp. destruct (group_page i p Hp) as (q & -> & Hq & Hr). apply (chunk_at_div C HC). lia. Qed.
End Groups.

Lemma chunk_at_inj i p j q : 0 <= p < chunks C -> 0 <= q < chunks C -> chunk_at C i p = chunk_at C j q -> i = j /\ p = q.
Proof.
  intros Hp Hq E. destruct (chunk_at_div C HC i p Hp) as (E1 & E2 & _). destruct (chunk_at_div C HC j q Hq) as (E3 & E4 & _).
  rewrite E in E1, E2. split; [apply (blk_inj C); congruence|congruence].
Qed.

(** ** Searching a group *)

(** Page [p] of block [i] is in use and holds chunk [c] of object [o]. *)
Definition holds_at (d : device) (i : nat) (p : Z) (o c : Z) (data : list Z) : Prop :=
  used C d i p = true /\ exists sq, page (flash (ck d)) (page_at C i p) = Some (data, (o, c, sq)).

Lemma match_holds d i p o c o' c' data : is_u32 o -> is_u32 c -> holds_at d i p o' c' data ->
  yaffs_TagsMatch (readChunkWithTagsFromNAND (flash (ck d)) (page_at C i p)).2 o c = true <-> o' = o /\ c' = c.
Proof.
  intros Ho Hc [_ [sq Hpg]]. destruct (law_read_page _ _ _ _ _ _ Hpg) as [_ [= E1 E2 _]]. unfold yaffs_TagsMatch.
  rewrite (law_read_deleted _ _ _ Hpg), E1, E2, (u32_id o), (u32_id c) by done. cbn [truthy Z.eqb negb]. rewrite andb_true_r, andb_true_iff, !Z.eqb_eq. tauto.
Qed.

(** Every page in use holds a chunk. *)
Definition filled (d : device) : Prop := forall i p, (i < nBlocks C)%nat -> 0 <= p < chunks C -> used C d i p = true ->
  exists o c data, holds_at d i p o c data.

Lemma flagged_holds i d d' j q o c data : flagged C i d d' -> (j < nBlocks C)%nat -> 0 <= q < chunks C ->
  holds_at d' j q o c data <-> holds_at d j q o c data.
Proof. intros [_ _ F3 F4 _ _ _ _] Hj Hq. unfold holds_at. by rewrite F3, F4. Qed.
Lemma flagged_filled i d d' : flagged C i d d' -> filled d -> filled d'.
Proof.
  intros Hf H j q Hj Hq Hu. rewrite (fg_used _ _ _ _ Hf) in Hu by done. destruct (H j q Hj Hq Hu) as (o & c & data & Hh).
  exists o, c, data. by apply (flagged_holds i d d').
Qed.

Lemma find_in_group_ok n d i q o c p data : managed C d -> filled d -> (i < nBlocks C)%nat -> is_u32 o -> is_u32 c ->
  0 <= q <= p -> p < q + Z.of_nat n <= chunks C -> holds_at d i p o c data ->
  (forall p' data', 0 <= p' < chunks C -> holds_at d i p' o c data' -> p' = p) ->
  runs (find_in_group C n (chunk_at C i q) o c) d (fun r d' => (exists t, r = Some (chunk_at C i p, t)) /\ flagged C i d d').
Proof.
  intros Hm Hfl Hi Ho Hc. revert d q Hm Hfl. induction n as [|n IH]; intros d q Hm Hfl Hq Hn Hh Huniq; [lia|]. cbn [find_in_group].
  assert (0 <= q < chunks C) as Hqr by lia. destruct (chunk_at_div C HC i q Hqr) as (E1 & E2 & E3).
  destruct (Z.eqb_spec (chunk_at C i q) 0); [lia|]. rewrite E1, E2.
  eapply runs_bind, runs_eq; [apply (check_bit_ok C HC d i q (ac_shape C 0 d (proj1 Hm)) Hi (in_bits C HC q Hqr))|].
  assert (forall d', flagged C i d d' -> q <> p ->
    runs (find_in_group C n (chunk_at C i q + 1) o c) d' (fun r d2 => (exists t, r = Some (chunk_at C i p, t)) /\ flagged C i d d2)) as Hnext.
  { intros d' Hf Hne. replace (chunk_at C i q + 1) with (chunk_at C i (q + 1)) by (unfold chunk_at; lia).
    eapply runs_weaken; [apply (IH d' (q + 1) (fg_managed _ _ _ _ Hf)); [by apply (flagged_filled i d)|lia|lia|by apply (flagged_holds i d); [|done|lia|]|]|].
    - intros p' data' Hp' Hh'. apply (Huniq p' data' Hp'). by apply (flagged_holds i d d').
    - intros r d2 [Hr Hf2]. split; [done|]. by apply (flagged_trans C i d d'). }
  destruct (used C d i q) eqn:Hu.
  2:{ apply runs_bind, runs_ret, Hnext; [by apply flagged_refl|]. intros ->. destruct Hh. congruence. }
  destruct (Hfl i q Hi Hqr Hu) as (o' & c' & data' & Hh').
  eapply runs_cut with (P := fun x d' => flagged C i d d' /\ if decide (q = p) then exists t, x = Some t else x = None).
  { eapply runs_cut; [apply (read_nand_ok C HC i q d Hm Hi Hqr)|]. intros [buf tags] d1 [[= _ ->] Hf]. apply runs_ret. split; [done|].
    pose proof (match_holds d i q o c o' c' data' Ho Hc Hh') as Hmt. destruct (decide (q = p)) as [-> |Hne].
    - destruct Hh as [_ [sq Hpg]]. destruct Hh' as [_ [sq' Hpg']]. rewrite Hpg in Hpg'. injection Hpg' as <- <- <- <-. rewrite (proj2 Hmt) by done. by eexists.
    - destruct (yaffs_TagsMatch _ _ _); [|done]. destruct (proj1 Hmt eq_refl) as [-> ->]. destruct Hne. by apply (Huniq q data'). }
  intros x d1 [Hf Hx]. destruct (decide (q = p)) as [-> |Hne].
  - destruct Hx as [t ->]. apply runs_ret. split; [by eexists|done].
  - rewrite Hx. by apply Hnext.
Qed.
End Store.

(** ** The trees of all files *)

Section Trees.
Context `{Ma : Malloc} `{Hma : !MallocOk Ma} (garbage : Z) (Hgarbage : is_u32 garbage).

Definition nodes_of (t : YaffsTnode.yaffs_Device) (ob : yaffs_Object) : list Z :=
  if isFile ob then file_nodes t (fileVariant ob) else [].
Definition all_nodes (t : YaffsTnode.yaffs_Device) (m : gmap Z yaffs_Object) : list Z :=
  concat (map (fun x => nodes_of t x.2) (map_to_list m)).

(** A file that has not been deleted. *)
Definition live (m : gmap Z yaffs_Object) (o : Z) (ob : yaffs_Object) : Prop :=
  m !! o = Some ob /\ isFile ob = true /\ isDeleted ob = false.

Record trees (t : YaffsTnode.yaffs_Device) (m : gmap Z yaffs_Object) : Prop := {
  tr_owned : exists fl, owned t (all_nodes t m) fl;
  tr_files : forall o ob, live m o ob -> file_ok t (fileVariant ob);
}.

Lemma all_nodes_take t m o ob : m !! o = Some ob -> all_nodes t m ≡ₚ nodes_of t ob ++ all_nodes t (delete o m).
Proof. intros Hm. unfold all_nodes. by rewrite <- (map_to_list_delete m o ob Hm). Qed.
Lemma all_nodes_split t m o ob : m !! o = Some ob -> isFile ob = true ->
  all_nodes t m ≡ₚ file_nodes t (fileVariant ob) ++ all_nodes t (delete o m).
Proof. intros Hm Hf. rewrite (all_nodes_take t m o ob Hm). unfold nodes_of at 1. by rewrite Hf. Qed.

Lemma all_nodes_keep t t' m : keeps (all_nodes t m) t t' -> all_nodes t' m = all_nodes t m.
Proof.
  unfold all_nodes. intros Hk. assert (forall l, (forall x, x ∈ l -> x ∈ map_to_list m) ->
    concat (map (fun x => nodes_of t' x.2) l) = concat (map (fun x => nodes_of t x.2) l)) as H; [|by apply H].
  induction l as [|x l IH]; intros Hl; [done|]. cbn [map concat]. rewrite IH by (intros y Hy; apply Hl; by right). f_equal.
  unfold nodes_of. destruct (isFile x.2) eqn:Hf; [|done]. apply (dlookup_frame _ t t' _ _ Hk). intros a Ha.
  apply list_elem_of_In, in_concat. exists (nodes_of t x.2). split; [|apply list_elem_of_In; unfold nodes_of; by rewrite Hf].
  apply in_map_iff. exists x. split; [done|]. apply list_elem_of_In, Hl. by left.
Qed.

(** The members of the other files are among those kept. *)
Lemma all_nodes_in t m o ob : m !! o = Some ob -> isFile ob = true -> forall a, a ∈ file_nodes t (fileVariant ob) -> a ∈ all_nodes t m.
Proof. intros Hm Hf a Ha. rewrite (all_nodes_split t m o ob Hm Hf). apply elem_of_app. by left. Qed.

(** The tree of one file changes, the others do not. *)
Lemma trees_update t t' m o ob ob' fl : trees t m -> live m o ob -> owned t' (file_nodes t' (fileVariant ob') ++ all_nodes t (delete o m)) fl ->
  keeps (all_nodes t (delete o m)) t t' -> file_ok t' (fileVariant ob') -> isFile ob' = true ->
  trees t' (<[o := ob']> m) /\
  (forall o2 ob2, o2 <> o -> live m o2 ob2 -> forall c, file_map t' (fileVariant ob2) c = file_map t (fileVariant ob2) c).
Proof.
  intros [_ Hfiles] (Hm & Hf & Hd) Ho Hk Hok Hf'. pose proof (all_nodes_keep t t' (delete o m) Hk) as Hn.
  assert (forall o2 ob2, o2 <> o -> live m o2 ob2 -> file_ok t' (fileVariant ob2) /\ forall c, file_map t' (fileVariant ob2) c = file_map t (fileVariant ob2) c) as Hother.
  { intros o2 ob2 Hne Hl. pose proof Hl as (Hm2 & Hf2 & Hd2).
    destruct (file_frame _ t t' (fileVariant ob2) Hk) as (_ & Hok2 & Hmap2 & _); [|by apply (Hfiles o2)|done].
    apply (all_nodes_in t (delete o m) o2); [by rewrite lookup_delete_ne|done]. }
  split; [|intros o2 ob2 Hne Hl; by apply (Hother o2)]. split.
  - exists fl. apply (owned_perm t' (file_nodes t' (fileVariant ob') ++ all_nodes t (delete o m))); [|done].
    rewrite (all_nodes_split t' (<[o := ob']> m) o ob') by (try done; apply lookup_insert_eq). by rewrite delete_insert_eq, Hn.
  - intros o2 ob2 (Hm2 & Hf2 & Hd2). destruct (decide (o2 = o)) as [-> |Hne].
    + rewrite lookup_insert_eq in Hm2. by injection Hm2 as <-.
    + rewrite lookup_insert_ne in Hm2 by done. by apply (Hother o2).
Qed.

(** The entry of a chunk is in the tnode found for it. *)
Lemma leaf_entry t U fl f c : owned t (file_nodes t f ++ U) fl -> file_ok t f -> c / 16 < 8 ^ topLevel f ->
  let r := leaf_at (heap t) (levels f) (top f) c in r <> 0 ->
  exists node, heap t !! r = Some node /\ get_entry r c t = Some (file_map t f c, t).
Proof.
  intros Ho Hf Hb r Hr. destruct (ow_nodes _ _ _ Ho r) as (_ & node & Hn & Hok); [rewrite !elem_of_app; left; left; by apply leaf_in|].
  exists node. split; [done|]. unfold get_entry. rewrite get_st_bind, (bind_some _ _ _ _ _ (load_tnode_ok r node t Hn)). unfold lift.
  rewrite (entry_get _ _ _ (ow_geo _ _ _ Ho) node c Hok). cbn. unfold file_map, dlookup, lookup_at. rewrite (proj2 (Z.ltb_lt _ _) Hb). fold r.
  destruct (Z.eqb_spec r 0); [done|]. by rewrite Hn.
Qed.

(** Finding the group of a chunk. *)
Lemma find_entry_ok t m o ob c : trees t m -> live m o ob -> chunk_id c ->
  exists r, yaffs_FindLevel0Tnode (fileVariant ob) c t = Some (r, t) /\
    ((r = 0 /\ file_map t (fileVariant ob) c = 0) \/ (r <> 0 /\ get_entry r c t = Some (file_map t (fileVariant ob) c, t))).
Proof.
  intros [[fl Ho] Hfiles] Hl Hc. pose proof Hl as (Hm & Hf & _). apply (owned_perm _ _ _ _ (all_nodes_split t m o ob Hm Hf)) in Ho.
  destruct (find_ok t _ fl (fileVariant ob) c Ho (Hfiles o ob Hl) Hc) as (r & E & [Hr|(Hr & Hb & Hleaf & _)]); exists r; (split; [done|]); [by left|].
  right. split; [done|]. rewrite Hleaf in *. by destruct (leaf_entry t _ fl (fileVariant ob) c Ho (Hfiles o ob Hl) Hb Hr) as (node & _ & He).
Qed.

(** There are tnodes for the path to a chunk, or the path is there. *)
Definition roomy (t : YaffsTnode.yaffs_Device) (ob : yaffs_Object) (c : Z) : Prop :=
  file_map t (fileVariant ob) c <> 0 \/ 2 * YAFFS_TNODES_MAX_LEVEL <= nFreeTnodes t.

(** A chunk gets its entry; [n] is its number in the flash. *)
Lemma put_entry_ok t m o ob c n : trees t m -> live m o ob -> chunk_id c -> roomy t ob c -> 0 <= n < 2 ^ (tnodeWidth t + chunkGroupBits t) ->
  exists r f t1 t2, yaffs_AddOrFindLevel0Tnode garbage (fileVariant ob) c 0 t = Some ((r, f), t1) /\ r <> 0 /\
    get_entry r c t1 = Some (file_map t (fileVariant ob) c, t1) /\ put_entry r c n t1 = Some (tt, t2) /\
    (tnodeWidth t2 = tnodeWidth t /\ chunkGroupBits t2 = chunkGroupBits t) /\
    (forall ob', isFile ob' = true -> isDeleted ob' = false -> fileVariant ob' = f -> trees t2 (<[o := ob']> m)) /\
    (forall c', 0 <= c' -> file_map t2 f c' = if c' =? c then group (chunkGroupBits t) n else file_map t (fileVariant ob) c') /\
    (forall o2 ob2, o2 <> o -> live m o2 ob2 -> forall c', file_map t2 (fileVariant ob2) c' = file_map t (fileVariant ob2) c').
Proof.
  intros Htr Hl Hc Hroom Hn. pose proof Htr as [[fl Ho] Hfiles]. pose proof Hl as (Hm & Hf & Hd). pose proof (Hfiles o ob Hl) as Hok.
  apply (owned_perm _ _ _ _ (all_nodes_split t m o ob Hm Hf)) in Ho. set (U := all_nodes t (delete o m)) in *.
  assert (c / 16 < 8 ^ topLevel (fileVariant ob) \/ YAFFS_TNODES_MAX_LEVEL <= nFreeTnodes t) as Htall.
  { destruct Hroom as [Hne|Hfree]; [left|right; unfold YAFFS_TNODES_MAX_LEVEL in *; lia]. unfold file_map in Hne. by destruct (Z.ltb_spec (c / 16) (8 ^ topLevel (fileVariant ob))). }
  destruct (add_ok garbage Hgarbage t U fl (fileVariant ob) c Ho Hok Hc Htall) as (r & f & t1 & E1 & (fl1 & Ho1) & Hk1 & Hok1 & Hmap1 & Hb & Hr & Hz).
  assert (r <> 0) as Hr0.
  { intros H0. destruct Hroom as [Hne|Hfree]; [|specialize (Hz H0); lia]. apply Hne. rewrite <- Hmap1 by apply Hc. unfold file_map, dlookup, lookup_at.
    rewrite (proj2 (Z.ltb_lt _ _) Hb), <- Hr, H0. done. }
  rewrite Hr in Hr0. destruct (leaf_entry t1 U fl1 f c Ho1 Hok1 Hb Hr0) as (node & Hnode & Hge). rewrite Hmap1 in Hge by apply Hc.
  pose proof Hk1 as [W1 W2 W3 _]. rewrite <- W1, <- W3 in Hn.
  destruct (put_file t1 U fl1 f c n node Ho1 Hok1 (proj1 Hc) Hb Hr0 Hnode Hn) as (node' & E2 & Ho2 & Hk2 & Hok2 & Hmap2).
  set (t2 := with_heap t1 _) in *. pose proof (keeps_trans U U t t1 t2 Hk1 Hk2) as Hk. specialize (Hk (fun a Ha => Ha)).
  exists r, f, t1, t2. split; [done|]. rewrite Hr. split; [done|]. split; [done|]. split.
  { unfold put_entry. rewrite get_st_bind, (bind_some _ _ _ _ _ (load_tnode_ok _ node t1 Hnode)), (lift_bind _ _ _ _ E2).
    unfold store. by rewrite (bind_some _ _ _ _ _ (load_tnode_ok _ node t1 Hnode)). }
  split; [by destruct Hk|]. split; [|split].
  - intros ob' Hf' Hd' Hv. by apply (trees_update t t2 m o ob ob' fl1 Htr Hl); rewrite ?Hv.
  - intros c' Hc'. rewrite Hmap2, W3 by done. destruct (c' =? c); [done|]. by apply Hmap1.
  - apply (trees_update t t2 m o ob (set_fileVariant f ob) fl1 Htr Hl); rewrite ?Hv; try done; by destruct ob.
Qed.
End Trees.
