(* ===== verification/YaffsContent.v ===== *)
(** * Reading and writing the chunks of a file (yaffs2/yaffs_guts.c)

    The abstract view of the files of a device: every chunk of a file has a content or is a
    hole.  [YaffsFile]'s operations read and change exactly that. *)

From S2P Require Import Prelude YaffsTags YaffsTagsCompat YaffsCheckpt YaffsBlocks YaffsSpace YaffsChunks YaffsWrite YaffsRetry.
From S2P Require Import YaffsTnode YaffsTree YaffsFile YaffsStore.

Section Content.
Context {D : CheckpointDriver} (C : block_config) (HC : space_config C).
Context {L : CheckpointDriverLaws D (chunks C)} {BL : BlockDriverLaws D (chunks C)} {FL : FileDriverLaws D (chunks C)}.

Definition in_flash (i : nat) (p : Z) : Prop := (i < nBlocks C)%nat /\ 0 <= p < chunks C.
Definition data_chunk (c : Z) : Prop := 1 <= c <= YAFFS_MAX_CHUNK_ID.

(** Data of a deleted object. *)
Definition dead (f : Flash) (m : gmap Z yaffs_Object) (i : nat) (p : Z) : bool :=
  match page f (page_at C i p) with
  | Some (_, (o, c, _)) => negb (c =? 0) && match m !! o with Some ob => isDeleted ob | None => false end
  | None => false
  end.
Definition soft (d : device) (m : gmap Z yaffs_Object) (i : nat) (p : Z) : bool := used C d i p && dead (flash (ck d)) m i p.

(** The flash is in order: of the pages in use at most those of deleted objects are counted
    as soft deleted. *)
Record tidy (d : device) (m : gmap Z yaffs_Object) : Prop := {
  td_managed : managed C d;
  td_clean : clean C d;
  td_filled : filled C d;
  td_header : forall i p o data, in_flash i p -> holds_at C d i p o 0 data -> 512 <= Z.of_nat (length data);
  td_soft : forall i, (i < nBlocks C)%nat -> state_of d i = YAFFS_BLOCK_STATE_ALLOCATING \/ state_of d i = YAFFS_BLOCK_STATE_FULL ->
    softDeletions (info_of d i) <= count_bits C (soft d m i);
  td_tags : forall i p o c data ob, in_flash i p -> holds_at C d i p o c data -> c <> 0 -> m !! o = Some ob -> isDeleted ob = false ->
    isFile ob = true /\ data_chunk c;
}.

(** The system is in order, whatever the trees say of the flash. *)
Record base (s : system) : Prop := {
  bs_tidy : tidy (blocks s) (objects s);
  bs_trees : trees (tnodes s) (objects s);
  bs_numbers : forall o ob, objects s !! o = Some ob -> is_u32 o;
  bs_group : (2 ^ chunkGroupBits (tnodes s) | chunks C) /\
    (internalEndBlock C + 1) * chunks C <= 2 ^ (tnodeWidth (tnodes s) + chunkGroupBits (tnodes s));
}.

(** The trees know every chunk of a live file that the tags announce, and there is one of each. *)
Record placed (s : system) : Prop := {
  pl_place : forall i p o ob c data, in_flash i p -> holds_at C (blocks s) i p o c data -> live (objects s) o ob -> data_chunk c ->
    file_map (tnodes s) (fileVariant ob) c = group (chunkGroupBits (tnodes s)) (chunk_at C i p);
  pl_unique : forall i p j q o ob c data data', in_flash i p -> in_flash j q -> holds_at C (blocks s) i p o c data ->
    holds_at C (blocks s) j q o c data' -> live (objects s) o ob -> data_chunk c -> i = j /\ p = q;
}.

(** Every entry of the trees leads to a chunk. *)
Record linked (s : system) : Prop := {
  lk_placed : placed s;
  lk_found : forall o ob c, live (objects s) o ob -> data_chunk c -> file_map (tnodes s) (fileVariant ob) c <> 0 ->
    exists i p data, in_flash i p /\ holds_at C (blocks s) i p o c data;
}.

(** Chunk [c] of the file [o]: what it holds, or nothing for a hole. *)
Definition content (s : system) (o c : Z) (v : option (list Z)) : Prop :=
  match v with
  | Some data => exists i p, in_flash i p /\ holds_at C (blocks s) i p o c data
  | None => forall ob, objects s !! o = Some ob -> file_map (tnodes s) (fileVariant ob) c = 0
  end.

(** ** Looking around *)

(** Only marks on blocks may have changed. *)
Definition touched (s s' : system) : Prop :=
  tnodes s' = tnodes s /\ objects s' = objects s /\ exists i, flagged C i (blocks s) (blocks s').

Lemma flagged_soft_pages i d d' m j : flagged C i d d' -> (j < nBlocks C)%nat -> count_bits C (soft d' m j) = count_bits C (soft d m j).
Proof.
  intros Hf Hj. apply count_bits_ext. intros q Hq. unfold soft, dead. by rewrite (fg_used _ _ _ _ Hf), (fg_pages _ _ _ _ Hf).
Qed.

Lemma flagged_tidy i d d' m : flagged C i d d' -> tidy d m -> tidy d' m.
Proof.
  intros Hf [T1 T2 T3 T4 T5 T6]. split.
  - by apply (fg_managed _ _ _ _ Hf).
  - by apply (flagged_clean C i d d').
  - by apply (flagged_filled C i d d').
  - intros j q o data [Hj Hq] Hh. apply (T4 j q o data); [done|]. by apply (flagged_holds C i d d').
  - intros j Hj Hs. rewrite (fg_state _ _ _ _ Hf) in Hs. rewrite (flagged_soft C i d d' j Hf), (flagged_soft_pages i d d' m j Hf Hj). by apply T5.
  - intros j q o c data ob [Hj Hq] Hh. apply (T6 j q o c data ob); [done|]. by apply (flagged_holds C i d d').
Qed.

Lemma touched_base s s' : touched s s' -> base s -> base s'.
Proof. intros (Et & Eo & i & Hf) [B1 B2 B3 B4]. rewrite <- Et, <- Eo in *. split; [|done..]. by apply (flagged_tidy i (blocks s)). Qed.

Lemma touched_holds s s' i p o c data : touched s s' -> in_flash i p -> holds_at C (blocks s') i p o c data <-> holds_at C (blocks s) i p o c data.
Proof. intros (_ & _ & j & Hf) [Hi Hp]. by apply (flagged_holds C j). Qed.

(** The trees, the objects and what the pages hold are the same. *)
Definition same_view (s s' : system) : Prop := tnodes s' = tnodes s /\ objects s' = objects s /\
  forall i p o c data, in_flash i p -> holds_at C (blocks s') i p o c data <-> holds_at C (blocks s) i p o c data.

Lemma touched_view s s' : touched s s' -> same_view s s'.
Proof. intros Ht. pose proof Ht as (Et & Eo & _). split; [done|]. split; [done|]. intros i p o c data Hr. by apply touched_holds. Qed.

Lemma view_placed s s' : same_view s s' -> placed s -> placed s'.
Proof.
  intros (Et & Eo & Hh) [L2 L3]. rewrite <- Et, <- Eo in *. split.
  - intros i p o ob c data Hr H. apply (L2 i p o ob c data Hr). by apply Hh.
  - intros i p j q o ob c data data' Hr Hr' H H'. apply (L3 i p j q o ob c data data' Hr Hr'); by apply Hh.
Qed.

Lemma view_linked s s' : same_view s s' -> linked s -> linked s'.
Proof.
  intros Hv [Hp L1]. split; [by apply (view_placed s s')|]. destruct Hv as (Et & Eo & Hh). rewrite <- Et, <- Eo in *.
  intros o ob c Hl Hc Hm. destruct (L1 o ob c Hl Hc Hm) as (i & p & data & Hr & H). exists i, p, data. split; [done|]. by apply Hh.
Qed.

Lemma view_content s s' o c v : same_view s s' -> content s o c v -> content s' o c v.
Proof.
  intros (Et & Eo & Hh). destruct v as [data|]; cbn; [|by rewrite Et, Eo]. intros (i & p & Hr & H). exists i, p. split; [done|]. by apply Hh.
Qed.

Lemma runs_blocks {A} (m : St device A) s Q : runs m (blocks s) (fun x d => Q x (set_blocks d s)) -> runs (on_blocks m) s Q.
Proof. intros (x & d & E & H). exists x, (set_blocks d s). unfold on_blocks. by rewrite E. Qed.
Lemma runs_blocks_cut {A B} (m : St device A) (f : A -> St system B) s P Q :
  runs m (blocks s) P -> (forall x d, P x d -> runs (f x) (set_blocks d s) Q) -> runs (on_blocks m ≫= f) s Q.
Proof. intros Hm Hf. apply runs_bind, runs_blocks, (runs_weaken _ _ _ _ Hm). intros x d H. by apply Hf. Qed.
Lemma tnodes_eq {A} (m : St YaffsTnode.yaffs_Device A) s x t : m (tnodes s) = Some (x, t) -> on_tnodes m s = Some (x, set_tnodes t s).
Proof. intros E. unfold on_tnodes. by rewrite E. Qed.
Lemma set_tnodes_same s : set_tnodes (tnodes s) s = s.
Proof. by destruct s. Qed.
Lemma touched_blocks s d i : flagged C i (blocks s) d -> touched s (set_blocks d s).
Proof. intros Hf. destruct s. split; [done|]. split; [done|]. by exists i. Qed.
Lemma touched_refl s : managed C (blocks s) -> touched s s.
Proof. intros Hm. split; [done|]. split; [done|]. exists 0%nat. by apply flagged_refl. Qed.
Lemma get_object_ok s o ob : objects s !! o = Some ob -> get_object o s = Some (ob, s).
Proof. intros H. unfold get_object, lift. rewrite get_st_bind. by rewrite H. Qed.

Lemma chunk_u32 c : data_chunk c -> is_u32 c /\ chunk_id c.
Proof. unfold data_chunk, chunk_id, is_u32, YAFFS_MAX_CHUNK_ID. lia. Qed.

Lemma find_file_ok s o ob c v : base s -> placed s -> live (objects s) o ob -> data_chunk c -> content s o c v ->
  runs (yaffs_FindChunkInFile C o c) s (fun r s' => touched s s' /\
    match v with
    | Some data => exists i p t, r = Some (chunk_at C i p, t) /\ in_flash i p /\ holds_at C (blocks s) i p o c data /\ flagged C i (blocks s) (blocks s')
    | None => r = None
    end).
Proof.
  intros Hb Hlk Hl Hc Hv. pose proof Hb as [Htd Htr Hnum [Hdiv _]]. pose proof Htd as [Hm _ Hfill _ _ _]. pose proof Hl as (Hob & Hf & Hd).
  destruct (chunk_u32 c Hc) as [Hcu Hci]. pose proof (Hnum o ob Hob) as Hou. unfold yaffs_FindChunkInFile.
  eapply runs_bind, runs_eq; [by apply get_object_ok|].
  destruct (find_entry_ok (tnodes s) (objects s) o ob c Htr Hl Hci) as (r & E & Hcase).
  eapply runs_bind, runs_eq; [by apply tnodes_eq|]. rewrite set_tnodes_same.
  assert (0 <= chunkGroupBits (tnodes s)) as Hgb by (destruct Htr as [[fl Ho] _]; apply (ow_geo _ _ _ Ho)).
  destruct v as [data|]; cbn in Hv.
  - destruct Hv as (i & p & Hr & Hh). pose proof (pl_place s Hlk i p o ob c data Hr Hh Hl Hc) as Hmap.
    pose proof Hr as [Hi Hp]. pose proof (group_pos C HC _ Hgb Hdiv i p Hp) as Hgp.
    destruct Hcase as [[_ H0]|[Hr0 Hge]]; [lia|]. destruct (Z.eqb_spec r 0); [done|].
    eapply runs_bind, runs_eq; [by apply tnodes_eq|]. rewrite set_tnodes_same. unfold yaffs_FindChunkInGroup. apply runs_get.
    destruct (group_page C _ Hgb Hdiv i p Hp) as (q & Eq & Hq1 & Hq2). rewrite Hmap, Eq, Z.shiftl_mul_pow2, Z.mul_1_l by done.
    apply runs_blocks. eapply runs_weaken; [apply (find_in_group_ok C HC _ (blocks s) i q o c p data Hm Hfill Hi Hou Hcu Hq1)|].
    + pose proof (Z.pow_nonneg 2 (chunkGroupBits (tnodes s)) ltac:(lia)). lia.
    + done.
    + intros p' data' Hp' Hh'. by destruct (pl_unique s Hlk i p' i p o ob c data' data (conj Hi Hp') Hr Hh' Hh Hl Hc).
    + intros x d' [[t ->] Hfl]. split; [by apply (touched_blocks s d' i)|]. exists i, p, t. split; [done|]. split; [done|]. split; [done|]. by destruct s.
  - specialize (Hv ob Hob). destruct Hcase as [[-> _]|[Hr0 Hge]].
    + apply runs_ret. split; [by apply touched_refl|done].
    + destruct (Z.eqb_spec r 0); [done|]. eapply runs_bind, runs_eq; [by apply tnodes_eq|]. rewrite set_tnodes_same, Hv.
      unfold yaffs_FindChunkInGroup. apply runs_get, runs_blocks. pose proof (Z.pow_pos_nonneg 2 (chunkGroupBits (tnodes s)) ltac:(lia) Hgb) as Hpos.
      rewrite Z.shiftl_mul_pow2, Z.mul_1_l by done. destruct (Z.to_nat (2 ^ chunkGroupBits (tnodes s))) as [|k] eqn:Ek; [lia|]. cbn [find_in_group Z.eqb].
      apply runs_ret. split; [|done]. apply (touched_blocks s _ 0%nat). by apply flagged_refl.
Qed.

(** ** Reading *)

Lemma read_file_ok s o ob c v : base s -> linked s -> live (objects s) o ob -> data_chunk c -> content s o c v ->
  runs (yaffs_ReadChunkDataFromObject C o c) s (fun data s' =>
    data = default (replicate (Z.to_nat (nDataBytesPerChunk (ckpt C))) 0) v /\ base s' /\ linked s' /\ objects s' = objects s /\
    forall o' c' v', content s o' c' v' -> content s' o' c' v').
Proof.
  intros Hb Hlk Hl Hc Hv. unfold yaffs_ReadChunkDataFromObject.
  eapply runs_cut; [apply (find_file_ok s o ob c v Hb (lk_placed s Hlk) Hl Hc Hv)|]. intros r s1 [Ht1 Hr].
  pose proof (touched_base s s1 Ht1 Hb) as Hb1. pose proof (view_linked s s1 (touched_view s s1 Ht1) Hlk) as Hlk1. pose proof Ht1 as (_ & Eo1 & _).
  destruct v as [data|].
  - destruct Hr as (i & p & t & -> & Hin & Hh & _). pose proof Hin as [Hi Hp]. pose proof (td_managed _ _ (bs_tidy s1 Hb1)) as Hm1.
    eapply runs_blocks_cut; [apply (read_nand_ok C HC i p (blocks s1) Hm1 Hi Hp)|]. intros [buf tags] d2 [[= -> _] Hf]. apply runs_ret.
    pose proof (proj2 (touched_holds s s1 i p o c data Ht1 Hin) Hh) as [_ [sq Hpg]]. destruct (law_read_page _ _ _ _ _ _ Hpg) as [Hdata _].
    pose proof (touched_blocks s1 d2 i Hf) as Ht2. pose proof Ht2 as (_ & Eo2 & _). split; [done|]. split; [by apply (touched_base s1)|].
    split; [by apply (view_linked s1), Hlk1; apply touched_view|]. split; [congruence|]. intros o' c' v' Hv'. by apply (view_content s1), (view_content s); [apply touched_view..|].
  - rewrite Hr. apply runs_ret. split; [done|]. split; [done|]. split; [done|]. split; [done|]. intros o' c' v'. by apply view_content, touched_view.
Qed.
End Content.
