(* ===== verification/YaffsUpdate.v ===== *)
(** * A chunk of a file is replaced (yaffs2/yaffs_guts.c)

    What writing a chunk, dropping one and pointing a tree at it do to the view of
    [YaffsContent]. *)

From S2P Require Import Prelude YaffsTags YaffsTagsCompat YaffsCheckpt YaffsBlocks YaffsSpace YaffsChunks YaffsWrite YaffsRetry.
From S2P Require Import YaffsTnode YaffsTree YaffsFile YaffsStore YaffsContent.

Section Update.
Context {D : CheckpointDriver} (C : block_config) (HC : space_config C).
Context {L : CheckpointDriverLaws D (chunks C)} {BL : BlockDriverLaws D (chunks C)} {FL : FileDriverLaws D (chunks C)}.

(** ** The flash *)

Lemma holds_at_det d i p o c data o' c' data' : holds_at C d i p o c data -> holds_at C d i p o' c' data' -> o' = o /\ c' = c /\ data' = data.
Proof. intros [_ [sq H]] [_ [sq' H']]. rewrite H in H'. injection H' as <- <- <- <-. done. Qed.

Lemma count_used d i : managed C d -> (i < nBlocks C)%nat -> pagesInUse (info_of d i) = count_bits C (used C d i).
Proof. intros [Hb _] Hi. apply (bk_pages _ _ _ _ (ac_block C 0 d Hb i Hi)). Qed.

(** A block with a page in use is filled, full or being collected. *)
Lemma used_occupied d i p : managed C d -> in_flash C i p -> used C d i p = true -> occupied (state_of d i) = true.
Proof.
  intros Hm [Hi Hp] Hu. destruct (occupied (state_of d i)) eqn:Ho; [done|]. pose proof (count_used d i Hm Hi) as Hc.
  rewrite (bk_unused _ _ _ _ (ac_block C 0 d (proj1 Hm) i Hi) Ho) in Hc. by rewrite (count_bits_zero C _ p (eq_sym Hc) Hp) in Hu.
Qed.

(** The soft deleted pages after a change: those of a block that has some are still there. *)
Lemma soft_after d d' m m' i : managed C d -> managed C d' -> (i < nBlocks C)%nat ->
  (forall j, (j < nBlocks C)%nat -> state_of d j = YAFFS_BLOCK_STATE_ALLOCATING \/ state_of d j = YAFFS_BLOCK_STATE_FULL ->
     softDeletions (info_of d j) <= count_bits C (soft C d m j)) ->
  state_of d' i = YAFFS_BLOCK_STATE_ALLOCATING \/ state_of d' i = YAFFS_BLOCK_STATE_FULL ->
  (state_of d i = YAFFS_BLOCK_STATE_COLLECTING -> state_of d' i = YAFFS_BLOCK_STATE_COLLECTING \/ occupied (state_of d' i) = false) ->
  softDeletions (info_of d' i) <= softDeletions (info_of d i) ->
  (count_bits C (used C d i) = 0 -> softDeletions (info_of d' i) <= 0) ->
  (forall p, 0 <= p < chunks C -> soft C d m i p = true -> soft C d' m' i p = true) ->
  softDeletions (info_of d' i) <= count_bits C (soft C d' m' i).
Proof.
  intros Hm Hm' Hi Hsoft Hst Hcol Hle Hzero Hkeep. pose proof (count_bits_bounds C (soft C d' m' i) (proj1 (sc_chunks C HC))) as Hb.
  destruct (decide (count_bits C (used C d i) = 0)) as [H0|H0]; [specialize (Hzero H0); lia|].
  assert (occupied (state_of d i) = true) as Hocc.
  { destruct (occupied (state_of d i)) eqn:Ho; [done|]. destruct H0. rewrite <- (count_used d i Hm Hi).
    apply (bk_unused _ _ _ _ (ac_block C 0 d (proj1 Hm) i Hi) Ho). }
  transitivity (count_bits C (soft C d m i)); [|by apply count_bits_le].
  transitivity (softDeletions (info_of d i)); [done|]. apply Hsoft; [done|].
  destruct (state_of d i) eqn:Hs; try discriminate Hocc; [by left|by right|]. destruct (Hcol eq_refl) as [Hc|Hc]; rewrite ?Hc in *; destruct Hst as [Hst|Hst]; try done; by rewrite Hst in Hc.
Qed.

(** Where a block has no page in use nothing is soft deleted. *)
Lemma soft_none d i : managed C d -> (i < nBlocks C)%nat -> state_of d i = YAFFS_BLOCK_STATE_ALLOCATING \/ state_of d i = YAFFS_BLOCK_STATE_FULL ->
  count_bits C (used C d i) = 0 -> softDeletions (info_of d i) <= 0.
Proof.
  intros Hm Hi Hst H0. rewrite <- (count_used d i Hm Hi) in H0. destruct (ac_block C 0 d (proj1 Hm) i Hi) as [_ [B|[B _]] _ _ _]; [lia|].
  destruct Hst as [Hst|Hst]; rewrite Hst in B; discriminate B.
Qed.

Lemma soft_page d m i p : soft C d m i p = true <-> used C d i p = true /\ dead C (flash (ck d)) m i p = true.
Proof. unfold soft. apply andb_true_iff. Qed.

(** *** A chunk is written *)

Lemma written_holds i p data tags d d' j q o c data' : clean C d -> written C i p data tags d d' -> in_flash C j q ->
  holds_at C d' j q o c data' <->
  (j = i /\ q = p /\ o = objectId tags /\ c = chunkId tags /\ data' = data) \/ holds_at C d j q o c data'.
Proof.
  intros Hcl [_ [Hi Hp] W3 W4 W5 W6 _ _ _] [Hj Hq]. destruct (W6 Hcl) as [_ Hpg]. unfold holds_at. rewrite (W4 j q Hj Hq).
  destruct (decide (j = i /\ q = p)) as [[-> ->]|Hne].
  - rewrite Hpg, W3. split; [intros [_ [sq [= <- <- <- <-]]]; by left|]. intros [(_ & _ & -> & -> & ->)|[? _]]; [|done]. split; [done|by eexists].
  - split.
    + intros [Hu [sq H]]. right. rewrite W5 in H by done. split; [done|by eexists].
    + intros [(-> & -> & _)|[Hu [sq H]]]; [by destruct Hne|]. rewrite W5 by done. split; [done|by eexists].
Qed.

Lemma written_tidy i p data tags d d' m : tidy C d m -> written C i p data tags d d' ->
  (chunkId tags = 0 -> 512 <= Z.of_nat (length data)) ->
  (forall ob, chunkId tags <> 0 -> m !! objectId tags = Some ob -> isDeleted ob = false -> isFile ob = true /\ data_chunk (chunkId tags)) ->
  tidy C d' m.
Proof.
  intros [T1 T2 T3 T4 T5 T6] Hw Hlen Htag. pose proof Hw as [W1 [Hi Hp] W3 W4 W5 W6 W7 W8 W9].
  pose proof (fun j q o c data' => written_holds i p data tags d d' j q o c data' T2 Hw) as Hh. destruct (W6 T2) as [W6a W6b]. split; [done|done| | | |].
  - intros j q Hj Hq Hu. rewrite W4 in Hu by done. destruct (decide (j = i /\ q = p)) as [[-> ->]|Hne].
    + exists (objectId tags), (chunkId tags), data. apply Hh; [done|]. by left.
    + destruct (T3 j q Hj Hq Hu) as (o & c & data' & H). exists o, c, data'. apply Hh; [done|]. by right.
  - intros j q o data' Hr H. apply Hh in H as [(_ & _ & _ & H0 & ->)|H]; [by apply Hlen|by apply (T4 j q o)|done].
  - intros j Hj Hst. apply (soft_after d d' m m j T1 W1 Hj T5 Hst).
    + intros Hc. left. by destruct (W7 j (or_intror Hc)) as (_ & -> & _).
    + by apply W8.
    + intros H0. destruct (decide (j = i)) as [-> |Hne].
      * assert (pagesInUse (info_of d' i) = 1); [|lia]. rewrite (count_used d' i W1 Hi), (count_bits_change C (used C d i) (used C d' i) p Hp), H0, W3.
        -- rewrite W4, decide_True by done. done.
        -- intros q Hq Hqp. rewrite W4, decide_False by (try done; by intros [_ ?]). done.
      * apply (soft_none d' j W1 Hj Hst). rewrite <- H0. apply count_bits_ext. intros q Hq. by rewrite W4, decide_False by (try done; by intros [? _]).
    + intros q Hq [Hu Hd]%soft_page. apply soft_page. unfold dead. rewrite W5 by done. split; [|done]. rewrite W4 by done. by case_decide.
  - intros j q o c data' ob Hr H Hc Hob Hdel. apply Hh in H as [(_ & _ & -> & -> & _)|H]; [by apply Htag|by apply (T6 j q o c data' ob)|done].
Qed.

(** *** Nothing visible happens *)

Record calm (d d' : device) : Prop := {
  cm_managed : managed C d';
  cm_used : forall i p, (i < nBlocks C)%nat -> 0 <= p < chunks C -> used C d' i p = used C d i p;
  cm_pages : forall i p, (i < nBlocks C)%nat -> 0 <= p < chunks C -> used C d i p = true ->
    page (flash (ck d')) (page_at C i p) = page (flash (ck d)) (page_at C i p);
  cm_clean : clean C d -> clean C d';
  cm_state : forall j, state_of d j = YAFFS_BLOCK_STATE_COLLECTING -> state_of d' j = YAFFS_BLOCK_STATE_COLLECTING \/ occupied (state_of d' j) = false;
  cm_soft : forall j, (j < nBlocks C)%nat -> softDeletions (info_of d' j) <= softDeletions (info_of d j);
}.

Lemma calm_spared d d' : spared C d d' -> calm d d'.
Proof. intros [S1 S2 S3 S4 S5 S6]. split; try done. intros j Hj. left. by destruct (S5 j (or_intror Hj)) as [-> _]. Qed.

Lemma calm_holds d d' j q o c data : calm d d' -> in_flash C j q -> holds_at C d' j q o c data <-> holds_at C d j q o c data.
Proof.
  intros [_ S2 S3 _ _ _] [Hj Hq]. unfold holds_at. rewrite S2 by done. split; intros [Hu [sq H]]; (split; [done|exists sq]); by rewrite S3 in *.
Qed.

Lemma calm_tidy d d' m : tidy C d m -> calm d d' -> tidy C d' m.
Proof.
  intros [T1 T2 T3 T4 T5 T6] Hs. pose proof Hs as [S1 S2 S3 S4 S5 S6].
  pose proof (fun j q o c data => calm_holds d d' j q o c data Hs) as Hh. split; [done|by apply S4| | | |].
  - intros j q Hj Hq Hu. rewrite S2 in Hu by done. destruct (T3 j q Hj Hq Hu) as (o & c & data & H). exists o, c, data. by apply Hh.
  - intros j q o data Hr H. apply (T4 j q o data Hr). by apply Hh.
  - intros j Hj Hst. apply (soft_after d d' m m j T1 S1 Hj T5 Hst (S5 j) (S6 j Hj)).
    + intros H0. apply (soft_none d' j S1 Hj Hst). rewrite <- H0. apply count_bits_ext. intros q Hq. by apply S2.
    + intros q Hq [Hu Hd]%soft_page. apply soft_page. unfold dead. by rewrite S2, S3.
  - intros j q o c data ob Hr H. apply (T6 j q o c data ob Hr). by apply Hh.
Qed.

(** *** A chunk is deleted *)

Lemma deleted_holds i p d d' j q o c data : in_flash C i p -> used C d i p = true -> deleted C i p d d' -> in_flash C j q ->
  holds_at C d' j q o c data <-> holds_at C d j q o c data /\ ~ (j = i /\ q = p).
Proof.
  intros [Hi Hp] Hu [[_ D2 D3 _ _ _ _ _] _] [Hj Hq]. unfold holds_at. split.
  - intros [Hu' [sq H]]. destruct (D3 j q Hj Hq Hu') as [Huj Hne]. split; [|done]. destruct (D2 j q Hj Hq Huj Hne) as [_ E]. rewrite E in H. split; [done|by eexists].
  - intros [[Huj [sq H]] Hne]. destruct (D2 j q Hj Hq Huj Hne) as [Hu' E]. split; [done|exists sq]. by rewrite E.
Qed.

Lemma deleted_tidy i p d d' m : tidy C d m -> in_flash C i p -> used C d i p = true -> deleted C i p d d' ->
  dead C (flash (ck d)) m i p = false \/ state_of d i = YAFFS_BLOCK_STATE_COLLECTING -> tidy C d' m.
Proof.
  intros [T1 T2 T3 T4 T5 T6] Hr0 Hu0 Hd Hdead. pose proof Hd as [[D1 D2 D3 D4 D5 D6 D7 D8] D9].
  pose proof (fun j q o c data => deleted_holds i p d d' j q o c data Hr0 Hu0 Hd) as Hh. pose proof Hr0 as [Hi Hp]. split; [done|by apply D4| | | |].
  - intros j q Hj Hq Hu. destruct (D3 j q Hj Hq Hu) as [Huj Hne]. destruct (T3 j q Hj Hq Huj) as (o & c & data & H). exists o, c, data. by apply Hh.
  - intros j q o data Hr [H _]%Hh; [|done]. by apply (T4 j q o data Hr).
  - intros j Hj Hst. assert (state_of d j = YAFFS_BLOCK_STATE_COLLECTING -> state_of d' j = YAFFS_BLOCK_STATE_COLLECTING \/ occupied (state_of d' j) = false) as Hcol.
    { intros Hc. destruct (decide (j = i)) as [-> |Hne]; [|left; by destruct (D7 j Hne (or_intror Hc)) as [-> _]].
      destruct D9 as [[[-> | ->] _]|(-> & _)]; auto. }
    apply (soft_after d d' m m j T1 D1 Hj T5 Hst Hcol (D8 j Hj)).
    + intros H0. apply (soft_none d' j D1 Hj Hst). pose proof (count_bits_bounds C (used C d' j) (proj1 (sc_chunks C HC))).
      assert (count_bits C (used C d' j) <= count_bits C (used C d j)); [|lia]. apply count_bits_le. intros q Hq Hu. by apply (D3 j q Hj Hq Hu).
    + intros q Hq [Hu Hdd]%soft_page. assert (~ (j = i /\ q = p)) as Hne.
      { intros [-> ->]. destruct Hdead as [Hdead|Hc]; [congruence|]. destruct (Hcol Hc) as [E|E]; destruct Hst as [Hst|Hst]; rewrite Hst in E; discriminate E. }
      destruct (D2 j q Hj Hq Hu Hne) as [Hu' E]. apply soft_page. split; [done|]. unfold dead. by rewrite E.
  - intros j q o c data ob Hr [H _]%Hh; [|done]. by apply (T6 j q o c data ob Hr).
Qed.

(** A chunk that is not soft deleted can be deleted. *)
Lemma delete_live_ok i p d m : tidy C d m -> in_flash C i p -> used C d i p = true ->
  dead C (flash (ck d)) m i p = false \/ state_of d i = YAFFS_BLOCK_STATE_COLLECTING ->
  runs (yaffs_DeleteChunk C (chunk_at C i p)) d (fun _ d' => deleted C i p d d').
Proof.
  intros [T1 T2 T3 T4 T5 T6] Hr Hu Hdead. pose proof Hr as [Hi Hp]. pose proof (used_occupied d i p T1 Hr Hu) as Hocc.
  apply (delete_ok C HC d i p T1 Hi Hp Hu); [destruct (state_of d i); try discriminate Hocc; done|]. intros Hcs.
  assert (state_of d i = YAFFS_BLOCK_STATE_ALLOCATING \/ state_of d i = YAFFS_BLOCK_STATE_FULL) as Hst by (destruct (state_of d i); try discriminate Hocc; try discriminate Hcs; auto).
  destruct Hdead as [Hdead|Hc]; [|by rewrite Hc in Hcs]. specialize (T5 i Hi Hst). rewrite (count_used d i T1 Hi).
  set (u := fun q => if q =? p then true else soft C d m i q).
  assert (count_bits C u = count_bits C (soft C d m i) + 1) as E.
  { rewrite (count_bits_change C (soft C d m i) u p Hp).
    - unfold u. rewrite Z.eqb_refl. unfold soft. rewrite Hdead, andb_false_r. lia.
    - intros q _ Hne. unfold u. by destruct (Z.eqb_spec q p). }
  assert (count_bits C u <= count_bits C (used C d i)); [|lia]. apply count_bits_le. intros q Hq. unfold u.
  destruct (Z.eqb_spec q p) as [-> |]; [done|]. intros H. apply soft_page in H. tauto.
Qed.

(** ** The trees *)

Context `{Ma : Malloc} `{Hma : !MallocOk Ma} (garbage : Z) (Hgarbage : is_u32 garbage).

(** Chunk [c] of the file [o] gets an entry for chunk [n] of the flash. *)
Record entered (o : Z) (ob : yaffs_Object) (c n : Z) (t : YaffsTnode.yaffs_Device) (m : gmap Z yaffs_Object)
    (t' : YaffsTnode.yaffs_Device) (m' : gmap Z yaffs_Object) : Prop := {
  en_geometry : tnodeWidth t' = tnodeWidth t /\ chunkGroupBits t' = chunkGroupBits t;
  en_trees : trees t' m';
  en_object : exists ob', m' = <[o := ob']> m /\ isFile ob' = true /\ isDeleted ob' = false /\
    forall c', 0 <= c' -> file_map t' (fileVariant ob') c' = if c' =? c then group (chunkGroupBits t) n else file_map t (fileVariant ob) c';
  en_others : forall o2 ob2, o2 <> o -> live m o2 ob2 -> forall c', file_map t' (fileVariant ob2) c' = file_map t (fileVariant ob2) c';
}.

Lemma put_chunk_ok s o ob c n : trees (tnodes s) (objects s) -> live (objects s) o ob -> chunk_id c -> roomy (tnodes s) ob c ->
  0 <= n < 2 ^ (tnodeWidth (tnodes s) + chunkGroupBits (tnodes s)) ->
  runs (yaffs_PutChunkIntoFile C garbage o c n 0) s (fun r s' => r = YAFFS_OK /\ blocks s' = blocks s /\
    entered o ob c n (tnodes s) (objects s) (tnodes s') (objects s')).
Proof.
  intros Htr Hl Hc Hroom Hn. pose proof Hl as (Hob & Hf & Hd). unfold yaffs_PutChunkIntoFile.
  eapply runs_bind, runs_eq; [by apply get_object_ok|]. rewrite Hf. cbn [negb].
  destruct (put_entry_ok garbage Hgarbage (tnodes s) (objects s) o ob c n Htr Hl Hc Hroom Hn)
    as (r & f & t1 & t2 & E1 & Hr & E2 & E3 & Hg & Htr2 & Hmap & Hoth).
  eapply runs_bind, runs_eq; [by apply tnodes_eq|]. apply runs_modify. destruct (Z.eqb_spec r 0); [done|].
  set (ob1 := set_fileVariant f ob). set (s1 := set_objects _ _).
  assert (tnodes s1 = t1 /\ blocks s1 = blocks s /\ objects s1 = <[o := ob1]> (objects s)) as (Et1 & Eb1 & Eo1) by (by destruct s).
  eapply runs_bind, runs_eq; [apply tnodes_eq; by rewrite Et1|]. rewrite <- Et1, set_tnodes_same. cbn [Z.eqb negb andb]. apply runs_bind, runs_ret.
  assert (objects s1 !! o = Some ob1) as Hob1 by (by rewrite Eo1, lookup_insert_eq).
  eapply runs_bind, runs_eq; [by apply get_object_ok|].
  assert (forall ob' s2, isFile ob' = true -> isDeleted ob' = false -> fileVariant ob' = f -> blocks s2 = blocks s -> tnodes s2 = t1 ->
    objects s2 = <[o := ob']> (objects s) ->
    runs (_ ← on_tnodes (put_entry r c n); mret YAFFS_OK) s2 (fun r s' => r = YAFFS_OK /\ blocks s' = blocks s /\
    entered o ob c n (tnodes s) (objects s) (tnodes s') (objects s'))) as Hfin.
  { intros ob' s2 Hf' Hd' Hv' Eb2 Et2 Eo2. eapply runs_bind, runs_eq; [apply tnodes_eq; by rewrite Et2|]. apply runs_ret. split; [done|].
    assert (tnodes (set_tnodes t2 s2) = t2 /\ blocks (set_tnodes t2 s2) = blocks s /\ objects (set_tnodes t2 s2) = <[o := ob']> (objects s))
      as (F1 & F2 & F3) by (by destruct s2). rewrite F1, F2, F3. split; [done|]. split; [done|by apply Htr2| |done].
    exists ob'. split; [done|]. split; [done|]. split; [done|]. by rewrite Hv'. }
  destruct (file_map _ _ _ =? 0).
  - apply runs_modify. apply (Hfin (set_nDataChunks (s32 (nDataChunks ob1 + 1)) ob1)); unfold ob1; try (by destruct ob); destruct s1; cbn in *; try done.
    by rewrite Eo1, insert_insert_eq.
  - apply runs_bind, runs_ret. apply (Hfin ob1); unfold ob1; by destruct ob.
Qed.

(** ** Replacing a chunk *)

(** Page [p] of block [i] holds chunk [c] of the object [o] now, and the pages of [old] hold
    nothing any more. *)
Definition replaced (i : nat) (p o c : Z) (data : list Z) (old : nat -> Z -> Prop) (d d' : device) : Prop :=
  forall j q o' c' data', in_flash C j q -> holds_at C d' j q o' c' data' <->
    (j = i /\ q = p /\ o' = o /\ c' = c /\ data' = data) \/ (holds_at C d j q o' c' data' /\ ~ old j q).

Section Relink.
Context (s s' : system) (o : Z) (ob : yaffs_Object) (c : Z) (data : list Z) (i : nat) (p : Z) (old : nat -> Z -> Prop).
Context (Hlk : placed C s) (Hl : live (objects s) o ob) (Hc : data_chunk c) (Hr : in_flash C i p).
Context (Hold : forall j q, in_flash C j q -> old j q <-> exists data', holds_at C (blocks s) j q o c data').
Context (Hrep : replaced i p o c data old (blocks s) (blocks s')).
Context (Hen : entered o ob c (chunk_at C i p) (tnodes s) (objects s) (tnodes s') (objects s')).

(** Other chunks stay where they are. *)
Lemma other_stays j q o2 c2 data2 : in_flash C j q -> ~ (o2 = o /\ c2 = c) -> holds_at C (blocks s) j q o2 c2 data2 -> holds_at C (blocks s') j q o2 c2 data2.
Proof.
  intros Hjq Hne Hh. apply Hrep; [done|]. right. split; [done|]. intros [data' Hh']%(Hold j q Hjq). apply Hne.
  by destruct (holds_at_det _ _ _ _ _ _ _ _ _ Hh' Hh) as (-> & -> & _).
Qed.

(** What is found afterwards is the new chunk or another one that was there. *)
Lemma found_later j q o2 c2 data2 : in_flash C j q -> holds_at C (blocks s') j q o2 c2 data2 ->
  (j = i /\ q = p /\ o2 = o /\ c2 = c /\ data2 = data) \/ (holds_at C (blocks s) j q o2 c2 data2 /\ ~ (o2 = o /\ c2 = c)).
Proof.
  intros Hjq [H|[Hh Hno]]%(Hrep j q o2 c2 data2 Hjq); [by left|]. right. split; [done|]. intros [-> ->]. apply Hno, Hold; [done|]. by eexists.
Qed.

(** The entry of a chunk of a live file. *)
Lemma entry_later o2 ob2 c2 : live (objects s') o2 ob2 -> 0 <= c2 -> exists ob0, live (objects s) o2 ob0 /\
  file_map (tnodes s') (fileVariant ob2) c2 =
  if decide (o2 = o /\ c2 = c) then group (chunkGroupBits (tnodes s)) (chunk_at C i p) else file_map (tnodes s) (fileVariant ob0) c2.
Proof.
  intros (Hm2 & Hf2 & Hd2) Hc2. destruct Hen as [_ _ (ob' & Em & Hf' & Hd' & Hmap) Hoth]. rewrite Em in Hm2. destruct (decide (o2 = o)) as [-> |Hne].
  - rewrite lookup_insert_eq in Hm2. injection Hm2 as <-. exists ob. split; [done|]. rewrite Hmap by done.
    destruct (Z.eqb_spec c2 c) as [-> |Hcc]; [by rewrite decide_True|by rewrite decide_False by (by intros [_ ?])].
  - rewrite lookup_insert_ne in Hm2 by done. exists ob2. split; [by split|]. rewrite decide_False by (by intros [? _]). by apply (Hoth o2).
Qed.

Lemma replaced_placed : placed C s'.
Proof.
  pose proof Hen as [[_ Hgb] _ _ _]. pose proof Hlk as [L2 L3]. split.
  - intros j q o2 ob2 c2 data2 Hjq Hh Hl2 Hc2. rewrite Hgb. destruct (found_later j q o2 c2 data2 Hjq Hh) as [(-> & -> & -> & -> & _)|[Hh0 Hne]].
    + destruct (entry_later o ob2 c Hl2 ltac:(unfold data_chunk in Hc; lia)) as (ob0 & _ & ->). by rewrite decide_True.
    + destruct (entry_later o2 ob2 c2 Hl2 ltac:(unfold data_chunk in Hc2; lia)) as (ob0 & Hl0 & ->). rewrite decide_False by done. by apply (L2 j q o2 ob0 c2 data2).
  - intros j q j' q' o2 ob2 c2 data2 data2' Hjq Hjq' Hh Hh' Hl2 Hc2.
    destruct (found_later j q o2 c2 data2 Hjq Hh) as [(-> & -> & E1 & E2 & _)|[Hh0 Hne]];
      destruct (found_later j' q' o2 c2 data2' Hjq' Hh') as [(-> & -> & E3 & E4 & _)|[Hh0' Hne']]; try done.
    + by destruct Hne'.
    + by destruct Hne.
    + destruct (entry_later o2 ob2 c2 Hl2 ltac:(unfold data_chunk in Hc2; lia)) as (ob0 & Hl0 & _). by apply (L3 j q j' q' o2 ob0 c2 data2 data2').
Qed.

Lemma relinked : linked C s -> linked C s'.
Proof.
  intros [_ L1]. split; [apply replaced_placed|].
  intros o2 ob2 c2 Hl2 Hc2 Hm. destruct (entry_later o2 ob2 c2 Hl2 ltac:(unfold data_chunk in Hc2; lia)) as (ob0 & Hl0 & E). rewrite E in Hm.
  destruct (decide (o2 = o /\ c2 = c)) as [[-> ->]|Hne].
  - exists i, p, data. split; [done|]. apply Hrep; [done|]. by left.
  - destruct (L1 o2 ob0 c2 Hl0 Hc2 Hm) as (j & q & data2 & Hjq & Hh). exists j, q, data2. split; [done|]. by apply other_stays.
Qed.

Lemma content_later o2 ob2 c2 v : live (objects s) o2 ob2 -> data_chunk c2 -> content C s o2 c2 v ->
  content C s' o2 c2 (if decide (o2 = o /\ c2 = c) then Some data else v).
Proof.
  intros Hl2 Hc2 Hv. destruct (decide (o2 = o /\ c2 = c)) as [[-> ->]|Hne].
  { exists i, p. split; [done|]. apply Hrep; [done|]. by left. }
  destruct v as [data2|].
  - destruct Hv as (j & q & Hjq & Hh). exists j, q. split; [done|]. by apply other_stays.
  - cbn in *. intros ob3 Hob3. destruct Hl2 as (Hm2 & Hf2 & Hd2). destruct Hen as [_ _ (ob' & Em & Hf' & Hd' & Hmap) Hoth]. rewrite Em in Hob3.
    destruct (decide (o2 = o)) as [-> |Hoo].
    + rewrite lookup_insert_eq in Hob3. injection Hob3 as <-. rewrite Hmap by (unfold data_chunk in Hc2; lia).
      destruct (Z.eqb_spec c2 c) as [-> |]; [by destruct Hne|]. apply Hv. by destruct Hl.
    + rewrite lookup_insert_ne in Hob3 by done. assert (ob3 = ob2) as -> by congruence. rewrite (Hoth o2 ob2 Hoo) by (by split). by apply Hv.
Qed.
End Relink.
End Update.
