(* ===== verification/YaffsFileWrite.v ===== *)
(** * Writing a chunk of a file (yaffs2/yaffs_guts.c)

    [yaffs_WriteChunkDataToObject]: the new content is written elsewhere, the tree is
    pointed at it, and the old chunk is dropped. *)

From S2P Require Import Prelude YaffsTags YaffsTagsCompat YaffsCheckpt YaffsBlocks YaffsSpace YaffsChunks YaffsWrite YaffsRetry.
From S2P Require Import YaffsTnode YaffsTree YaffsFile YaffsStore YaffsContent YaffsUpdate.

Section FileWrite.
Context {D : CheckpointDriver} (C : block_config) (HC : space_config C).
Context {L : CheckpointDriverLaws D (chunks C)} {BL : BlockDriverLaws D (chunks C)} {FL : FileDriverLaws D (chunks C)}.
Context `{Ma : Malloc} `{Hma : !MallocOk Ma} (garbage : Z) (Hgarbage : is_u32 garbage).

(** Objects that differ in other members than these. *)
Definition kind (ob : yaffs_Object) : bool * bool := (isFile ob, isDeleted ob).
Definition same_kind (m m' : gmap Z yaffs_Object) : Prop := forall o, kind <$> m' !! o = kind <$> m !! o.

Lemma same_kind_lookup m m' o ob' : same_kind m m' -> m' !! o = Some ob' -> exists ob, m !! o = Some ob /\ isFile ob = isFile ob' /\ isDeleted ob = isDeleted ob'.
Proof. intros Hk H. specialize (Hk o). rewrite H in Hk. cbn in Hk. destruct (m !! o) as [ob|]; [|done]. exists ob. injection Hk as E1 E2. done. Qed.

Lemma dead_kind f m m' i p : same_kind m m' -> dead C f m' i p = dead C f m i p.
Proof.
  intros Hk. unfold dead. destruct (page f (page_at C i p)) as [[? [[o c] ?]]|]; [|done]. f_equal. specialize (Hk o).
  destruct (m !! o), (m' !! o); try discriminate Hk; [|done]. by injection Hk.
Qed.

Lemma tidy_kind d m m' : same_kind m m' -> tidy C d m -> tidy C d m'.
Proof.
  intros Hk [T1 T2 T3 T4 T5 T6]. split; [done|done|done|done| |].
  - intros i Hi Hs. rewrite (count_bits_ext C (soft C d m' i) (soft C d m i)); [by apply T5|]. intros q Hq. unfold soft. by rewrite (dead_kind _ m m').
  - intros i p o c data ob' Hr Hh Hc Hob Hd. destruct (same_kind_lookup m m' o ob' Hk Hob) as (ob & Hob0 & Ef & Ed). rewrite <- Ef.
    apply (T6 i p o c data ob); try done. congruence.
Qed.

Lemma insert_kind m o ob ob' : m !! o = Some ob -> kind ob' = kind ob -> same_kind m (<[o := ob']> m).
Proof. intros Hm Hk o2. destruct (decide (o2 = o)) as [-> |Hne]; [by rewrite lookup_insert_eq, Hm; cbn; f_equal|by rewrite lookup_insert_ne]. Qed.

(** Chunk numbers fit in the trees. *)
Lemma chunk_fits s i p : base C s -> in_flash C i p -> 0 <= chunk_at C i p < 2 ^ (tnodeWidth (tnodes s) + chunkGroupBits (tnodes s)).
Proof.
  intros [_ _ _ [_ Hmax]] [Hi Hp]. destruct (chunk_at_div C HC i p Hp) as (_ & _ & Hpos). split; [lia|].
  pose proof (blk_range C i Hi) as Hb. unfold chunk_at. pose proof (Z.mul_le_mono_nonneg_r (blk C i) (internalEndBlock C) (chunks C)). lia.
Qed.

(** A page that holds data of a live file is not soft deleted. *)
Lemma live_not_dead d m i p o ob c data : live m o ob -> holds_at C d i p o c data -> dead C (flash (ck d)) m i p = false.
Proof. intros (Hm & _ & Hd) [_ [sq H]]. unfold dead. rewrite H, Hm, Hd. apply andb_false_r. Qed.

Lemma entered_kind o ob c n t m t' m' : live m o ob -> entered o ob c n t m t' m' -> same_kind m m'.
Proof. intros (Hm & Hf & Hd) [_ _ (ob' & -> & Hf' & Hd' & _) _]. apply (insert_kind m o ob ob' Hm). unfold kind. congruence. Qed.

Lemma entered_base s s' o ob c n : base C s -> live (objects s) o ob -> entered o ob c n (tnodes s) (objects s) (tnodes s') (objects s') ->
  tidy C (blocks s') (objects s') -> base C s'.
Proof.
  intros [B1 B2 B3 [B4 B5]] Hl Hen Ht. pose proof Hen as [[G1 G2] E2 _ _]. split; [done|done| |by rewrite G1, G2].
  intros o2 ob2 H2. destruct (same_kind_lookup _ _ o2 ob2 (entered_kind o ob c n _ _ _ _ Hl Hen) H2) as (ob0 & H0 & _). by apply (B3 o2 ob0).
Qed.

(** ** The new chunk replaces the old one *)

(** The tree is pointed at the chunk just written. *)
Lemma point_ok s d2 o ob c i p data tags : base C s -> live (objects s) o ob -> data_chunk c -> roomy (tnodes s) ob c ->
  written C i p data tags (blocks s) d2 -> objectId tags = o -> chunkId tags = c ->
  runs (yaffs_PutChunkIntoFile C garbage o c (chunk_at C i p) 0) (set_blocks d2 s) (fun r s' => r = YAFFS_OK /\ blocks s' = d2 /\ base C s' /\
    entered o ob c (chunk_at C i p) (tnodes s) (objects s) (tnodes s') (objects s')).
Proof.
  intros Hb Hl Hc Hroom Hw Eo Ec. pose proof Hb as [Htd Htr _ _]. pose proof Hw as [_ Hip _ _ _ _ _ _ _]. pose proof Hl as (_ & Hf & _).
  assert (tidy C d2 (objects s)) as Htd2.
  { apply (written_tidy C HC i p data tags (blocks s)); [done|done| |]; rewrite ?Eo, ?Ec; unfold data_chunk in Hc; [lia|]. destruct Hl as (Hm & _).
    intros ob0 _ Hm0 _. rewrite Hm in Hm0. injection Hm0 as <-. done. }
  assert (tnodes (set_blocks d2 s) = tnodes s /\ objects (set_blocks d2 s) = objects s /\ blocks (set_blocks d2 s) = d2) as (Et & Em & Eb) by (by destruct s).
  eapply runs_weaken; [apply (put_chunk_ok C garbage Hgarbage (set_blocks d2 s) o ob c (chunk_at C i p)); rewrite ?Et, ?Em; [done|done|by apply chunk_u32|done|by apply chunk_fits]|].
  intros r s3 (-> & Eb3 & Hen). rewrite Et, Em in Hen. rewrite Eb in Eb3. split; [done|]. split; [done|]. split; [|done].
  apply (entered_base s s3 o ob c (chunk_at C i p)); [done..|]. rewrite Eb3. by apply (tidy_kind d2 (objects s)), Htd2; apply (entered_kind o ob c _ _ _ _ _ Hl Hen).
Qed.

(** A chunk is dropped. *)
Lemma drop_ok s i p : base C s -> in_flash C i p -> used C (blocks s) i p = true ->
  dead C (flash (ck (blocks s))) (objects s) i p = false \/ state_of (blocks s) i = YAFFS_BLOCK_STATE_COLLECTING ->
  runs (on_blocks (yaffs_DeleteChunk C (chunk_at C i p))) s (fun _ s' => base C s' /\ tnodes s' = tnodes s /\ objects s' = objects s /\
    deleted C i p (blocks s) (blocks s')).
Proof.
  intros [B1 B2 B3 B4] Hip Hu Hd. apply runs_blocks. eapply runs_weaken; [apply (delete_live_ok C HC i p (blocks s) (objects s) B1 Hip Hu Hd)|].
  intros [] d' Hdel. pose proof (deleted_tidy C HC i p (blocks s) d' (objects s) B1 Hip Hu Hdel Hd) as Ht. destruct s. split; [by split|done].
Qed.

(** The new chunk is there and the old one, if any, is gone. *)
Lemma written_deleted i p data tags d d2 d4 i0 p0 : clean C d -> written C i p data tags d d2 -> in_flash C i0 p0 -> used C d i0 p0 = true ->
  deleted C i0 p0 d2 d4 -> replaced C i p (objectId tags) (chunkId tags) data (fun j q => j = i0 /\ q = p0) d d4.
Proof.
  intros Hcl Hw Hr0 Hu0 Hd j q o' c' data' Hjq. pose proof Hw as [_ [Hi Hp] Hfree Hu2 _ _ _ _ _]. destruct Hr0 as [Hi0 Hp0].
  assert (used C d2 i0 p0 = true) as Hu02 by (rewrite Hu2 by done; by case_decide).
  rewrite (deleted_holds C i0 p0 d2 d4 j q o' c' data' (conj Hi0 Hp0) Hu02 Hd Hjq), (written_holds C i p data tags d d2 j q o' c' data' Hcl Hw Hjq).
  split; [tauto|]. intros [H|H]; [|tauto]. split; [by left|]. destruct H as (Ej & Eq & _). intros [Ei Ep]. rewrite <- Ei, <- Ep, Ej, Eq in Hu0. congruence.
Qed.
Lemma written_replaced i p data tags d d2 : clean C d -> written C i p data tags d d2 ->
  replaced C i p (objectId tags) (chunkId tags) data (fun _ _ => False) d d2.
Proof. intros Hcl Hw j q o' c' data' Hjq. rewrite (written_holds C i p data tags d d2 j q o' c' data' Hcl Hw Hjq). tauto. Qed.

(** The view afterwards. *)
Definition updated (o c : Z) (data : list Z) (s s' : system) : Prop := placed C s' /\ (linked C s -> linked C s') /\
  forall o' ob' c' v', live (objects s) o' ob' -> data_chunk c' -> content C s o' c' v' ->
    content C s' o' c' (if decide (o' = o /\ c' = c) then Some data else v').

Lemma replaced_updated s s' o ob c data i p old : placed C s -> live (objects s) o ob -> data_chunk c -> in_flash C i p ->
  (forall j q, in_flash C j q -> old j q <-> exists data', holds_at C (blocks s) j q o c data') ->
  replaced C i p o c data old (blocks s) (blocks s') -> entered o ob c (chunk_at C i p) (tnodes s) (objects s) (tnodes s') (objects s') ->
  updated o c data s s'.
Proof.
  intros Hlk Hl Hc Hip Hold Hrep Hen. split; [by apply (replaced_placed C s s' o ob c data i p old)|]. split; [by apply (relinked C s s' o ob c data i p old)|].
  intros o' ob' c' v'. by apply (content_later C s s' o ob c data i p old).
Qed.

(** The old chunk of a chunk that the tree knows. *)
Lemma old_found s o ob c i0 p0 data0 : placed C s -> live (objects s) o ob -> data_chunk c -> in_flash C i0 p0 -> holds_at C (blocks s) i0 p0 o c data0 ->
  forall j q, in_flash C j q -> j = i0 /\ q = p0 <-> exists data', holds_at C (blocks s) j q o c data'.
Proof.
  intros Hlk Hl Hc Hr0 Hh0 j q Hjq. split; [intros [-> ->]; by exists data0|]. intros [data' Hh'].
  by apply (pl_unique C s Hlk j q i0 p0 o ob c data' data0).
Qed.
Lemma old_none s o ob c : base C s -> placed C s -> live (objects s) o ob -> data_chunk c -> content C s o c None ->
  forall j q, in_flash C j q -> False <-> exists data', holds_at C (blocks s) j q o c data'.
Proof.
  intros Hb Hlk Hl Hc Hv j q Hjq. split; [done|]. intros [data' Hh']. pose proof (pl_place C s Hlk j q o ob c data' Hjq Hh' Hl Hc) as E.
  destruct Hl as (Hm & _). rewrite (Hv ob Hm) in E. destruct Hb as [_ [[fl Ho] _] _ [Hdiv _]]. pose proof (geo_group _ _ _ (ow_geo _ _ _ Ho)) as [Hgb _].
  pose proof (group_pos C HC _ Hgb Hdiv j q (proj2 Hjq)). lia.
Qed.

(** The tree is pointed at the chunk just written, then the old one is dropped. *)
Lemma switch_ok s d2 o ob c v (prev : option (Z * yaffs_ExtendedTags)) i p data tags : base C s -> placed C s -> live (objects s) o ob -> data_chunk c ->
  roomy (tnodes s) ob c -> content C s o c v ->
  match v with
  | Some data0 => exists i0 p0 t, prev = Some (chunk_at C i0 p0, t) /\ in_flash C i0 p0 /\ holds_at C (blocks s) i0 p0 o c data0
  | None => prev = None
  end -> written C i p data tags (blocks s) d2 -> objectId tags = o -> chunkId tags = c ->
  runs (_ ← yaffs_PutChunkIntoFile C garbage o c (chunk_at C i p) 0;
        match prev with Some (prevChunkId, _) => on_blocks (yaffs_DeleteChunk C prevChunkId) | None => mret tt end) (set_blocks d2 s)
    (fun _ s' => base C s' /\ same_kind (objects s) (objects s') /\ updated o c data s s').
Proof.
  intros Hb Hlk Hl Hc Hroom Hv Hprev Hw Eo Ec. pose proof Hw as [_ Hip _ _ _ _ _ _ _]. pose proof (td_clean _ _ _ (bs_tidy C s Hb)) as Hcl.
  eapply runs_cut; [apply (point_ok s d2 o ob c i p data tags Hb Hl Hc Hroom Hw Eo Ec)|]. intros r s3 (_ & Eb3 & Hb3 & Hen).
  pose proof (entered_kind o ob c _ _ _ _ _ Hl Hen) as Hk3. destruct v as [data0|].
  + destruct Hprev as (i0 & p0 & t & -> & Hr0 & Hh0). pose proof Hh0 as [Hu0 _].
    assert (holds_at C d2 i0 p0 o c data0) as Hh2 by (apply (written_holds C i p data tags (blocks s) d2); [done..|by right]).
    eapply runs_weaken; [apply (drop_ok s3 i0 p0 Hb3 Hr0); rewrite Eb3; [apply Hh2|left]|].
    * rewrite (dead_kind _ _ _ _ _ Hk3). by apply (live_not_dead d2 _ i0 p0 o ob c data0).
    * intros [] s4 (Hb4 & Et4 & Em4 & Hd4). rewrite <- Et4, <- Em4, Eb3 in *. split; [done|]. split; [done|].
      apply (replaced_updated s s4 o ob c data i p (fun j q => j = i0 /\ q = p0)); [done..|by apply (old_found s o ob c i0 p0 data0)| |done].
      rewrite <- Eo, <- Ec. by apply (written_deleted i p data tags (blocks s) d2).
  + rewrite Hprev. apply runs_ret. split; [done|]. split; [done|].
    apply (replaced_updated s s3 o ob c data i p (fun _ _ => False)); [done..|apply (old_none s o ob c); [done..]| |done].
    rewrite Eb3, <- Eo, <- Ec. by apply written_replaced.
Qed.

(** ** The whole operation *)

Lemma calm_view s d' : calm C (blocks s) d' -> same_view C s (set_blocks d' s).
Proof. intros Hs. destruct s. split; [done|]. split; [done|]. intros i p o c data Hr. by apply calm_holds. Qed.
Lemma calm_base s d' : base C s -> calm C (blocks s) d' -> base C (set_blocks d' s).
Proof. intros [B1 B2 B3 B4] Hs. destruct s as [d t m g n]. split; [by apply (calm_tidy C HC d)|done..]. Qed.

Lemma content_total s o ob c : linked C s -> live (objects s) o ob -> data_chunk c -> exists v, content C s o c v.
Proof.
  intros Hlk Hl Hc. destruct (decide (file_map (tnodes s) (fileVariant ob) c = 0)) as [H0|Hne].
  - exists None. intros ob' Hob'. destruct Hl as (Hm & _). rewrite Hm in Hob'. by injection Hob' as <-.
  - destruct (lk_found C s Hlk o ob c Hl Hc Hne) as (i & p & data & Hr & Hh). exists (Some data), i, p. done.
Qed.

Lemma write_file_ok s o ob c data nBytes useReserve : base C s -> linked C s -> live (objects s) o ob -> data_chunk c -> roomy (tnodes s) ob c ->
  runs (write_chunk_data C garbage (write_fuel C) o c data nBytes useReserve) s (fun r s' => base C s' /\
    same_kind (objects s) (objects s') /\
    ((r = -1 /\ (useReserve = true -> nErasedBlocks (ck (blocks s')) = 0) /\ linked C s' /\ forall o' c' v', content C s o' c' v' -> content C s' o' c' v') \/
     (0 < r /\ updated o c data s s'))).
Proof.
  intros Hb Hlk Hl Hc Hroom. destruct (content_total s o ob c Hlk Hl Hc) as [v Hv]. unfold write_chunk_data.
  eapply runs_cut; [apply (find_file_ok C HC s o ob c v Hb (lk_placed C s Hlk) Hl Hc Hv)|]. intros prev s1 [Ht1 Hprev].
  pose proof (touched_view C s s1 Ht1) as Hv1. pose proof (touched_base C s s1 Ht1 Hb) as Hb1. pose proof (view_linked C s s1 Hv1 Hlk) as Hlk1.
  pose proof Ht1 as (Et1 & Em1 & _). assert (live (objects s1) o ob) as Hl1 by (by rewrite Em1).
  assert (roomy (tnodes s1) ob c) as Hroom1 by (by rewrite Et1).
  set (serial := match prev with Some (_, t) => serialNumber t + 1 | None => 1 end). set (tags := data_tags o c serial nBytes).
  eapply runs_blocks_cut; [apply (write_new_ok C HC data tags useReserve (blocks s1) (td_managed _ _ _ (bs_tidy _ _ Hb1))); done|]. intros n d2 Hout.
  destruct Hout as [(-> & Hs & He)|(i & p & -> & Hw)].
  - apply runs_bind, runs_ret, runs_ret. apply calm_spared in Hs. pose proof (calm_view s1 d2 Hs) as Hv2. split; [by apply calm_base|].
    split; [intros o2; by destruct Hv2 as (_ & -> & _); rewrite Em1|]. left. split; [done|].
    split; [by destruct s1|]. split; [by apply (view_linked C s1)|]. intros o' c' v' H. by apply (view_content C s1), (view_content C s).
  - pose proof Hw as [_ Hip _ _ _ _ _ _ _]. destruct (chunk_at_div C HC i p (proj2 Hip)) as (_ & _ & Hpos).
    destruct (Z.leb_spec 0 (chunk_at C i p)); [|lia]. destruct (chunk_u32 c Hc) as [Hcu _]. pose proof (bs_numbers C s Hb o ob (proj1 Hl)) as Hou.
    assert (objectId tags = o /\ chunkId tags = c) as [Eo Ec] by (split; [apply u32_id, Hou|apply u32_id, Hcu]).
    eapply runs_cut; [apply (switch_ok s1 d2 o ob c v prev i p data tags Hb1 (lk_placed C s1 Hlk1) Hl1 Hc Hroom1 (view_content C s s1 o c v Hv1 Hv)); try done|].
    + destruct v as [data0|]; [|done]. destruct Hprev as (i0 & p0 & t & Ep & Hr0 & Hh0 & _). exists i0, p0, t. split; [done|]. split; [done|].
      by apply (touched_holds C s s1).
    + intros [] s4 (Hb4 & Hk4 & Hpl4 & Hlk4 & Hc4). apply runs_ret. rewrite Em1 in *. split; [done|]. split; [done|]. right. split; [lia|]. split; [done|]. split; [by intros _; apply Hlk4|].
      intros o' ob' c' v' Hl' Hcc Hv'. apply (Hc4 o' ob'); [done..|]. by apply (view_content C s).
Qed.
End FileWrite.
