(* ===== verification/YaffsCollect.v ===== *)
(** * Collecting a block (yaffs2/yaffs_guts.c)

    [yaffs_GarbageCollectBlock] moves what is still needed out of a block and erases it. *)

From S2P Require Import Prelude YaffsTags YaffsTagsCompat YaffsCheckpt YaffsBlocks YaffsSpace YaffsChunks YaffsWrite YaffsRetry.
From S2P Require Import YaffsTnode YaffsTree YaffsFile YaffsStore YaffsContent YaffsUpdate YaffsFileWrite.

Section Collect.
Context {D : CheckpointDriver} (C : block_config) (HC : space_config C).
Context {L : CheckpointDriverLaws D (chunks C)} {BL : BlockDriverLaws D (chunks C)} {FL : FileDriverLaws D (chunks C)}.

(** ** Is a page of the block in use? *)

Lemma bits_zero b : is_u8 b -> (forall k, 0 <= k < 8 -> Z.testbit b k = false) -> b = 0.
Proof.
  intros Hb H. apply Z.bits_inj'. intros k Hk. rewrite Z.bits_0. destruct (decide (k < 8)) as [Hlt|Hge]; [by apply H|].
  unfold is_u8 in Hb. rewrite <- (Z.mod_small b (2 ^ 8)) by lia. apply Z.mod_pow2_bits_high. lia.
Qed.

Lemma byte_bit b : is_u8 b -> b <> 0 -> exists k, 0 <= k < 8 /\ Z.testbit b k = true.
Proof.
  intros Hb Hne. destruct (existsb (fun k => Z.testbit b k) (seqZ 0 8)) eqn:E.
  - apply existsb_exists in E as (k & Hk & Ht). apply list_elem_of_In, elem_of_seqZ in Hk. exists k. split; [lia|done].
  - destruct Hne. apply bits_zero; [done|]. intros k Hk. destruct (Z.testbit b k) eqn:Ht; [|done]. rewrite <- E. symmetry. apply existsb_exists.
    exists k. split; [|done]. apply list_elem_of_In, elem_of_seqZ. lia.
Qed.

Lemma still_some_ok d i : shape C d -> (i < nBlocks C)%nat ->
  exists b, yaffs_StillSomeChunkBits C (blk C i) d = Some (b, d) /\ (b = true <-> exists q, 0 <= q < 8 * chunkBitmapStride C /\ used C d i q = true).
Proof.
  intros Hs Hi. pose proof (stride_id C HC) as [Hst _]. pose proof Hs as [_ _ H3 H4]. pose proof (sc_chunks C HC) as Hc.
  unfold yaffs_StillSomeChunkBits. rewrite (lift_bind _ _ _ _ (BlockBits_ok C HC i Hi)), get_st_bind.
  destruct (Z.ltb_spec (Z.of_nat (length (chunkBits d))) (Z.of_nat (stride C * i) + chunkBitmapStride C)) as [Hlt|Hge]; [nia|].
  eexists. split; [reflexivity|]. rewrite existsb_exists, Nat2Z.id. fold (stride C). split.
  - intros (b & Hin & Ht). apply list_elem_of_In, list_elem_of_lookup in Hin as [k Hk]. apply lookup_take_Some in Hk as [Hk Hlt]. rewrite lookup_drop in Hk.
    assert (is_u8 b) as Hu by (by apply (Forall_lookup_1 _ _ _ _ H4 Hk)).
    destruct (byte_bit b Hu) as (j & Hj & Hb); [intros ->; discriminate Ht|].
    exists (8 * Z.of_nat k + j). split; [lia|]. unfold used, bit_of. rewrite (Z.mul_comm 8), Z.div_add_l, (Z.div_small j), Z.add_0_r, Nat2Z.id by lia.
    rewrite Z.add_comm, Z.mod_add, Z.mod_small by lia. by rewrite (nth_lookup_Some _ _ _ _ Hk).
  - intros (q & Hq & Hu). destruct (byte_range C HC i q Hi Hq) as [Hk Hr]. unfold used, bit_of in Hu.
    destruct (lookup_lt_is_Some_2 (chunkBits d) (stride C * i + Z.to_nat (q / 8))) as [b Hb]; [lia|]. rewrite (nth_lookup_Some _ _ _ _ Hb) in Hu.
    exists b. split.
    + apply list_elem_of_In, list_elem_of_lookup. exists (Z.to_nat (q / 8)). rewrite lookup_take, lookup_drop. by rewrite decide_True.
    + unfold truthy. destruct (Z.eqb_spec b 0) as [-> |]; [by rewrite Z.bits_0 in Hu|done].
Qed.

(** ** What the files hold *)

Lemma blocks_set d s : blocks (set_blocks d s) = d.
Proof. by destruct s. Qed.

Definition preserved (s s' : system) : Prop := linked C s' /\
  forall o ob c v, live (objects s) o ob -> data_chunk c -> content C s o c v -> content C s' o c v.

(** The same, unless a chunk was lost. *)
Definition kept (ok : bool) (s s' : system) : Prop := placed C s' /\ (ok = true -> linked C s -> preserved s s').

(** Objects that differ at most in counts and in their header. *)
Definition same_files (m m' : gmap Z yaffs_Object) : Prop := forall o,
  (fun ob => (kind ob, fileVariant ob)) <$> m' !! o = (fun ob => (kind ob, fileVariant ob)) <$> m !! o.

Lemma same_files_refl m : same_files m m.
Proof. done. Qed.
Lemma same_files_kind m m' : same_files m m' -> same_kind m m'.
Proof. intros H o. specialize (H o). destruct (m !! o), (m' !! o); try discriminate H; [|done]. cbn in *. injection H as E1 E2 _. unfold kind. congruence. Qed.
Lemma same_files_insert m o ob ob' : m !! o = Some ob -> kind ob' = kind ob -> fileVariant ob' = fileVariant ob -> same_files m (<[o := ob']> m).
Proof.
  intros Hm Hk Hv o2. destruct (decide (o2 = o)) as [-> |Hne]; [rewrite lookup_insert_eq, Hm; cbn; congruence|by rewrite lookup_insert_ne].
Qed.
Lemma same_files_live m m' o ob : same_files m m' -> live m o ob -> exists ob', live m' o ob' /\ fileVariant ob' = fileVariant ob.
Proof.
  intros H (Hm & Hf & Hd). specialize (H o). rewrite Hm in H. destruct (m' !! o) as [ob'|] eqn:E; [|discriminate H]. exists ob'. injection H as E1 E2 E3.
  split; [|done]. by split; [|split; congruence].
Qed.
Lemma same_files_sym m m' : same_files m m' -> same_files m' m.
Proof. intros H o. by rewrite H. Qed.

Lemma trees_insert t m o ob ob' : trees t m -> m !! o = Some ob -> kind ob' = kind ob -> fileVariant ob' = fileVariant ob -> trees t (<[o := ob']> m).
Proof.
  intros [[fl Ho] Hf] Hm Hk Hv. split.
  - exists fl. apply (owned_perm t (all_nodes t m)); [|done]. rewrite (all_nodes_take t m o ob Hm), (all_nodes_take t (<[o := ob']> m) o ob') by apply lookup_insert_eq.
    rewrite delete_insert_eq. unfold nodes_of. injection Hk as -> _. by rewrite Hv.
  - intros o2 ob2 Hl. destruct (same_files_live _ _ o2 ob2 (same_files_sym _ _ (same_files_insert m o ob ob' Hm Hk Hv)) Hl) as (ob3 & Hl3 & <-). by apply (Hf o2).
Qed.

Lemma base_object s o ob ob' : base C s -> objects s !! o = Some ob -> kind ob' = kind ob -> fileVariant ob' = fileVariant ob ->
  base C (set_objects (<[o := ob']> (objects s)) s).
Proof.
  intros [B1 B2 B3 B4] Hm Hk Hv. destruct s as [d t m g n]. cbn in *. split; cbn; [|by apply (trees_insert t m o ob)| |done].
  - by apply (tidy_kind C d m), B1; apply (insert_kind m o ob ob').
  - intros o2 ob2 H2. destruct (decide (o2 = o)) as [-> |Hne]; [by apply (B3 o ob)|]. rewrite lookup_insert_ne in H2 by done. by apply (B3 o2 ob2).
Qed.

(** No data of live files appear. *)
Lemma fewer_placed s s' : tnodes s' = tnodes s -> same_files (objects s) (objects s') ->
  (forall i p o ob c data, in_flash C i p -> live (objects s) o ob -> data_chunk c -> holds_at C (blocks s') i p o c data -> holds_at C (blocks s) i p o c data) ->
  placed C s -> placed C s'.
Proof.
  intros Et Hsf Hh [L2 L3]. pose proof (same_files_sym _ _ Hsf) as Hsf'. split.
  - intros i p o ob' c data Hr H Hl' Hc. destruct (same_files_live _ _ o ob' Hsf' Hl') as (ob & Hl & Ev). rewrite Et, <- Ev.
    apply (L2 i p o ob c data); try done. by apply (Hh i p o ob).
  - intros i p j q o ob' c data data' Hr Hr' H H' Hl' Hc. destruct (same_files_live _ _ o ob' Hsf' Hl') as (ob & Hl & _).
    apply (L3 i p j q o ob c data data'); try done; by apply (Hh _ _ o ob).
Qed.

(** The data of the live files are where they were. *)
Lemma same_data ok s s' : tnodes s' = tnodes s -> same_files (objects s) (objects s') ->
  (forall i p o ob c data, in_flash C i p -> live (objects s) o ob -> data_chunk c -> holds_at C (blocks s') i p o c data <-> holds_at C (blocks s) i p o c data) ->
  placed C s -> kept ok s s'.
Proof.
  intros Et Hsf Hh Hpl. pose proof (same_files_sym _ _ Hsf) as Hsf'.
  assert (placed C s') as Hpl' by (apply (fewer_placed s); try done; intros; by apply (Hh _ _ _ ob)). split; [done|]. intros _ [_ L1]. split; [split; [done|]|].
  - intros o ob' c Hl' Hc Hm. destruct (same_files_live _ _ o ob' Hsf' Hl') as (ob & Hl & Ev). rewrite Et, <- Ev in Hm.
    destruct (L1 o ob c Hl Hc Hm) as (i & p & data & Hr & H). exists i, p, data. split; [done|]. by apply (Hh i p o ob).
  - intros o ob c v Hl Hc Hv. destruct v as [data|].
    + destruct Hv as (i & p & Hr & H). exists i, p. split; [done|]. by apply (Hh i p o ob).
    + intros ob' Hob'. destruct (same_files_live _ _ o ob Hsf Hl) as (ob2 & (Hm2 & _) & Ev). rewrite Hm2 in Hob'. injection Hob' as <-. rewrite Et, Ev. apply Hv, Hl.
Qed.

Lemma view_kept ok s s' : same_view C s s' -> placed C s -> kept ok s s'.
Proof.
  intros Hv Hpl. split; [by apply (view_placed C s)|]. intros _ Hlk. split; [by apply (view_linked C s)|]. intros o ob c v _ _. by apply view_content.
Qed.

(** A chunk is copied: the view is the same. *)
Lemma updated_kept ok s s' o ob c data i p : base C s -> placed C s -> live (objects s) o ob -> data_chunk c -> in_flash C i p ->
  holds_at C (blocks s) i p o c data -> updated C o c data s s' -> kept ok s s'.
Proof.
  intros Hb Hlk Hl Hc Hr Hh (Hpl' & Hlk' & Hup). split; [done|]. intros _ Hlks. split; [by apply Hlk'|]. intros o' ob' c' v' Hl' Hc' Hv'. specialize (Hup o' ob' c' v' Hl' Hc' Hv').
  destruct (decide (o' = o /\ c' = c)) as [[-> ->]|]; [|done]. destruct v' as [data'|].
  - destruct Hv' as (j & q & Hjq & Hh'). destruct (pl_unique C s Hlk i p j q o ob c data data' Hr Hjq Hh Hh' Hl Hc) as [<- <-].
    by destruct (holds_at_det C _ _ _ _ _ _ _ _ _ Hh Hh') as (_ & _ & ->).
  - destruct (proj2 (old_none C HC s o ob c Hb Hlk Hl Hc Hv' i p Hr)). by exists data.
Qed.

(** ** One chunk *)

Context `{Ma : Malloc} `{Hma : !MallocOk Ma} (garbage : Z) (Hgarbage : is_u32 garbage).

(** The block is being collected and has pages in use. *)
Definition collecting (i : nat) (d : device) : Prop :=
  state_of d i = YAFFS_BLOCK_STATE_COLLECTING /\ hasShrinkHeader (info_of d i) = false /\ 0 < pagesInUse (info_of d i).

(** The chunk in page [p] of block [i] can go: [s2] is the state before it is deleted. *)
Record moved (i : nat) (p : Z) (ok : bool) (s s2 : system) : Prop := {
  mv_base : base C s2;
  mv_kind : same_kind (objects s) (objects s2);
  mv_used : forall q, 0 <= q < chunks C -> used C (blocks s2) i q = used C (blocks s) i q;
  mv_block : state_of (blocks s2) i = state_of (blocks s) i /\ info_of (blocks s2) i = info_of (blocks s) i;
  mv_data : placed C s -> forall s3, tnodes s3 = tnodes s2 -> objects s3 = objects s2 ->
    deleted C i p (blocks s2) (blocks s3) -> kept ok s s3;
}.

(** The pages of the live files, when a page of another one is deleted. *)
Lemma drop_others s d m' s2 s3 i p o c data : in_flash C i p -> holds_at C d i p o c data -> tnodes s3 = tnodes s2 -> objects s3 = objects s2 ->
  tnodes s2 = tnodes s -> objects s2 = m' -> same_files (objects s) m' -> blocks s2 = d ->
  (forall j q o2 ob2 c2 data2, in_flash C j q -> live (objects s) o2 ob2 -> data_chunk c2 ->
     (holds_at C d j q o2 c2 data2 <-> holds_at C (blocks s) j q o2 c2 data2)) ->
  (forall ob, live (objects s) o ob -> c = 0) -> deleted C i p (blocks s2) (blocks s3) -> placed C s -> kept true s s3.
Proof.
  intros Hr Hh Et3 Em3 Et2 Em2 Hsf Eb2 Hd Hdead Hdel Hlk. apply (same_data true s s3); [congruence|by rewrite Em3, Em2| |done].
  intros j q o2 ob2 c2 data2 Hjq Hl2 Hc2. rewrite Eb2 in Hdel. rewrite (deleted_holds C i p d (blocks s3) j q o2 c2 data2 Hr (proj1 Hh) Hdel Hjq).
  rewrite (Hd j q o2 ob2 c2 data2 Hjq Hl2 Hc2). split; [tauto|]. intros H. split; [done|]. intros [-> ->].
  apply (Hd i p o2 ob2 c2 data2 Hr Hl2 Hc2) in H. destruct (holds_at_det C _ _ _ _ _ _ _ _ _ Hh H) as (-> & -> & _).
  specialize (Hdead ob2 Hl2). unfold data_chunk in Hc2. lia.
Qed.

(** The object is unknown, or its data are not wanted any more. *)
Lemma moved_dropped s i p o c data m' : base C s -> in_flash C i p -> holds_at C (blocks s) i p o c data -> (forall ob, live (objects s) o ob -> c = 0) ->
  same_files (objects s) m' -> base C (set_objects m' s) -> moved i p true s (set_objects m' s).
Proof.
  intros Hb Hr Hh Hdead Hsf Hb'. split; [done|by destruct s; apply same_files_kind|by destruct s|by destruct s|]. intros Hlk s3 Et3 Em3 Hdel.
  apply (drop_others s (blocks s) m' (set_objects m' s) s3 i p o c data); try done; by destruct s.
Qed.

(** Writing the copy leaves the block alone. *)
Lemma written_block i j q data tags d d2 : written C j q data tags d d2 -> (i < nBlocks C)%nat -> state_of d i = YAFFS_BLOCK_STATE_COLLECTING ->
  (forall p', 0 <= p' < chunks C -> used C d2 i p' = used C d i p') /\ state_of d2 i = state_of d i /\ info_of d2 i = info_of d i.
Proof.
  intros [_ [Hj Hq] _ W4 _ _ W7 _ _] Hi Hs. destruct (W7 i (or_intror Hs)) as (Hne & S & I). split; [|done]. intros p' Hp'.
  rewrite W4, decide_False; [done|by intros [? _]|done|done].
Qed.

(** A header is copied. *)
Lemma moved_header s i p o data data' tags ob ob' j q d2 : base C s -> in_flash C i p -> holds_at C (blocks s) i p o 0 data ->
  state_of (blocks s) i = YAFFS_BLOCK_STATE_COLLECTING -> objects s !! o = Some ob -> kind ob' = kind ob -> fileVariant ob' = fileVariant ob ->
  512 <= Z.of_nat (length data') -> objectId tags = o -> chunkId tags = 0 -> written C j q data' tags (blocks s) d2 ->
  moved i p true s (set_objects (<[o := ob']> (objects s)) (set_blocks d2 s)).
Proof.
  intros Hb Hr Hh Hst Hob Hk Hv Hlen Eo Ec Hw. pose proof (td_clean _ _ _ (bs_tidy C s Hb)) as Hcl.
  assert (base C (set_blocks d2 s)) as Hb2.
  { destruct Hb as [B1 B2 B3 B4]. pose proof (written_tidy C HC j q data' tags (blocks s) d2 (objects s) B1 Hw (fun _ => Hlen) ltac:(congruence)) as Ht.
    destruct s. by split. }
  destruct (written_block i j q data' tags (blocks s) d2 Hw (proj1 Hr) Hst) as (Hu & Hs & Hi).
  assert (holds_at C d2 i p o 0 data) as Hh2 by (apply (written_holds C j q data' tags (blocks s) d2); [done..|by right]).
  split; [|destruct s; by apply (insert_kind _ o ob)|by destruct s|by destruct s|].
  - replace (objects s) with (objects (set_blocks d2 s)) by (by destruct s). apply (base_object (set_blocks d2 s) o ob ob' Hb2); [by destruct s|done|done].
  - intros Hlk s3 Et3 Em3 Hdel. apply (drop_others s d2 (<[o := ob']> (objects s)) (set_objects (<[o := ob']> (objects s)) (set_blocks d2 s)) s3 i p o 0 data);
      try done; try (by destruct s); [by apply (same_files_insert _ o ob)|].
    intros j' q' o2 ob2 c2 data2 Hjq Hl2 Hc2. rewrite (written_holds C j q data' tags (blocks s) d2 j' q' o2 c2 data2 Hcl Hw Hjq). split; [|by right].
    intros [(_ & _ & _ & E & _)|H]; [|done]. unfold data_chunk in Hc2. lia.
Qed.

(** A chunk of a live file is copied and the tree is pointed at the copy. *)
Lemma moved_data s s2 i p o ob c data tags j q d2 : base C s -> in_flash C i p -> holds_at C (blocks s) i p o c data ->
  state_of (blocks s) i = YAFFS_BLOCK_STATE_COLLECTING -> live (objects s) o ob -> data_chunk c ->
  objectId tags = o -> chunkId tags = c -> written C j q data tags (blocks s) d2 -> base C s2 -> blocks s2 = d2 ->
  entered o ob c (chunk_at C j q) (tnodes s) (objects s) (tnodes s2) (objects s2) -> moved i p true s s2.
Proof.
  intros Hb Hr Hh Hst Hl Hc Eo Ec Hw Hb2 Eb2 Hen. pose proof (td_clean _ _ _ (bs_tidy C s Hb)) as Hcl. pose proof Hw as [_ Hjq _ _ _ _ _ _ _].
  destruct (written_block i j q data tags (blocks s) d2 Hw (proj1 Hr) Hst) as (Hu & Hs & Hi).
  split; [done|by apply (entered_kind o ob c _ _ _ _ _ Hl Hen)|by rewrite Eb2|by rewrite Eb2|]. intros Hlk s3 Et3 Em3 Hdel. rewrite Eb2 in Hdel.
  apply (updated_kept true s s3 o ob c data i p); [done..|].
  apply (replaced_updated C s s3 o ob c data j q (fun j' q' => j' = i /\ q' = p)); [done..|by apply (old_found C s o ob c i p data)| |by rewrite Et3, Em3].
  rewrite <- Eo, <- Ec. by apply (written_deleted C j q data tags (blocks s) d2 (blocks s3) i p Hcl Hw Hr (proj1 Hh)).
Qed.

(** The copy could not be written. *)
Lemma moved_failed s i p d2 : base C s -> in_flash C i p -> used C (blocks s) i p = true -> state_of (blocks s) i = YAFFS_BLOCK_STATE_COLLECTING -> spared C (blocks s) d2 ->
  moved i p false s (set_blocks d2 s).
Proof.
  intros Hb Hr Hu Hst Hs. pose proof Hr as [Hi Hp]. pose proof (calm_base C HC s d2 Hb (calm_spared C _ _ Hs)) as Hb2. pose proof Hs as [_ S2 _ _ S5 _]. destruct (S5 i (or_intror Hst)) as [E1 E2].
  split; [done|by destruct s|destruct s; by intros; apply S2|by destruct s|]. intros Hpl s3 Et3 Em3 Hdel. split; [|done].
  rewrite blocks_set in Hdel. assert (tnodes (set_blocks d2 s) = tnodes s /\ objects (set_blocks d2 s) = objects s) as [Et Em] by (by destruct s).
  apply (fewer_placed s s3); [congruence|by rewrite Em3, Em| |done]. intros j q o ob c data Hjq _ _ Hh.
  apply (deleted_holds C i p d2 (blocks s3) j q o c data Hr ltac:(rewrite S2; done) Hdel Hjq) in Hh as [Hh _].
  by apply (calm_holds C (blocks s) d2 j q o c data (calm_spared C _ _ Hs) Hjq).
Qed.

(** The tree has an entry for a chunk that is there. *)
Lemma placed_entry s i p o ob c data : base C s -> placed C s -> in_flash C i p -> holds_at C (blocks s) i p o c data -> live (objects s) o ob -> data_chunk c ->
  file_map (tnodes s) (fileVariant ob) c <> 0.
Proof.
  intros Hb Hpl Hr Hh Hl Hc H0. apply (old_none C HC s o ob c Hb Hpl Hl Hc) with (j := i) (q := p); [|done|by exists data].
  intros ob' Hm'. destruct Hl as (Hm & _). congruence.
Qed.

(** The chunk is copied, dropped or lost. *)
Lemma move_ok s i p o c data tags : base C s -> placed C s -> in_flash C i p -> holds_at C (blocks s) i p o c data ->
  state_of (blocks s) i = YAFFS_BLOCK_STATE_COLLECTING -> objectId tags = o -> chunkId tags = c -> yaffs_ValidateTags tags = true ->
  runs match objects s !! objectId tags with
       | None => mret (true, None)
       | Some ob =>
          if isDeleted ob && negb (chunkId tags =? 0) then
            _ ← put_object (objectId tags) (set_nDataChunks (s32 (nDataChunks ob - 1)) ob);
            mret (true, if s32 (nDataChunks ob - 1) <=? 0 then Some (objectId tags) else None)
          else
            _ ← modify (fun s => set_gc (isDoingGC s) (s32 (nGCCopies s + 1)) s);
            buffer ← lift (if chunkId tags =? 0 then clear_shrink data else Some data);
            newChunk ← on_blocks (yaffs_WriteNewChunkWithTagsToNAND C (write_fuel C) buffer (copy_tags tags) true);
            if newChunk <? 0 then mret (false, None) else
            _ ← (if chunkId tags =? 0 then put_object (objectId tags) (set_header newChunk (u8 (serialNumber (copy_tags tags))) ob)
                 else _ ← yaffs_PutChunkIntoFile C garbage (objectId tags) (s32 (chunkId tags)) newChunk 0; mret tt);
            mret (true, None)
       end s (fun (r : bool * option Z) s2 => moved i p r.1 s s2).
Proof.
  intros Hb Hpl Hr Hh Hst Eo Ec Hval. rewrite Eo, Ec. destruct (objects s !! o) as [ob|] eqn:Hob.
  2:{ apply runs_ret. replace s with (set_objects (objects s) s) at 2 by (by destruct s).
      apply (moved_dropped s i p o c data); try done; [|by destruct s]. intros ob (Hm & _). congruence. }
  destruct (isDeleted ob && negb (c =? 0)) eqn:Hdc.
  { apply andb_prop in Hdc as [Hdel _]. apply runs_modify, runs_ret. assert (objects s !! o = Some ob) as Hob' by done.
    apply (moved_dropped s i p o c data); try done; [|apply (same_files_insert _ o ob); by try destruct ob|apply (base_object s o ob); by try destruct ob].
    intros ob2 (Hm & _ & Hd). congruence. }
  apply runs_modify. set (s1 := set_gc _ _ s). assert (base C s1) as Hb1 by (destruct Hb; by destruct s).
  assert (blocks s1 = blocks s /\ tnodes s1 = tnodes s /\ objects s1 = objects s) as (Eb & Et & Em) by (by destruct s).
  assert (forall ok s2, moved i p ok s1 s2 -> moved i p ok s s2) as Hgc.
  { intros ok s2 [M1 M2 M3 M4 M5]. rewrite Eb, Em in *. split; try done. intros Hp s3 Et3 Em3 Hdel.
    destruct (M5) with (s3 := s3) as [Hpl3 Hk3]; [destruct Hp; destruct s; by split|done..|]. split; [done|]. intros Hok Hlk.
    destruct (Hk3 Hok) as [Hlk3 Hc3]; [destruct Hlk as [[? ?] ?]; destruct s; by split|]. split; [done|]. rewrite Em in Hc3. intros o' ob' c' v' Hl' Hc' Hv'.
    apply (Hc3 o' ob'); [done..|]. by destruct s. }
  rewrite <- Eb in Hh, Hst. rewrite <- Em in Hob. pose proof (td_managed _ _ _ (bs_tidy _ _ Hb1)) as Hm1.
  assert (exists buffer, (if c =? 0 then clear_shrink data else Some data) = Some buffer /\
    ((c = 0 /\ 512 <= Z.of_nat (length buffer)) \/ (c <> 0 /\ buffer = data))) as (buffer & Ebuf & Hbuf).
  { destruct (Z.eqb_spec c 0) as [Hc0|Hc0]; [|exists data; split; [done|by right]]. rewrite Hc0 in Hh.
    pose proof (td_header _ _ _ (bs_tidy C s1 Hb1) i p o data Hr Hh) as Hlen. unfold clear_shrink.
    destruct (Z.ltb_spec (Z.of_nat (length data)) 512); [lia|]. eexists. split; [reflexivity|]. left. split; [done|].
    rewrite !length_app, length_take, length_drop. cbn [length]. lia. }
  apply (runs_lift _ _ _ _ _ Ebuf).
  eapply runs_blocks_cut; [apply (write_new_ok C HC buffer (copy_tags tags) true (blocks s1) Hm1); done|]. intros n d2 [(-> & Hs & _)|(j & q & -> & Hw)].
  { apply runs_ret, Hgc. apply moved_failed; try done. apply Hh. }
  pose proof Hw as [_ Hjq _ _ _ _ _ _ _]. destruct (chunk_at_div C HC j q (proj2 Hjq)) as (_ & _ & Hpos).
  destruct (Z.ltb_spec (chunk_at C j q) 0); [lia|]. destruct Hbuf as [[-> Hlen]|[Hc0 ->]].
  - cbn [Z.eqb]. apply runs_modify, runs_ret, Hgc. replace (objects (set_blocks d2 s1)) with (objects s1) by (by destruct s1).
    apply (moved_header s1 i p o data buffer (copy_tags tags) ob _ j q d2); try done; by destruct ob.
  - destruct (Z.eqb_spec c 0); [done|]. rewrite andb_true_r in Hdc. destruct (td_tags _ _ _ (bs_tidy C s1 Hb1) i p o c data ob Hr Hh Hc0 Hob Hdc) as [Hf Hc].
    assert (live (objects s1) o ob) as Hl by (by split). assert (s32 c = c) as -> by (apply s32_id; unfold data_chunk, YAFFS_MAX_CHUNK_ID in Hc; unfold is_s32; lia).
    assert (roomy (tnodes s1) ob c) as Hroom by (rewrite Et; left; apply (placed_entry s i p o ob c data); rewrite <- ?Em, <- ?Eb; done).
    eapply runs_cut with (P := fun _ s2 => moved i p true s1 s2); [|intros [] s2 Hmv; by apply runs_ret, Hgc].
    eapply runs_cut; [apply (point_ok C HC garbage Hgarbage s1 d2 o ob c j q data (copy_tags tags) Hb1 Hl Hc Hroom Hw); done|].
    intros r s2 (_ & Eb2 & Hb2 & Hen). apply runs_ret. by apply (moved_data s1 s2 i p o ob c data (copy_tags tags) j q d2).
Qed.

Lemma collect_chunk_ok s i p : base C s -> placed C s -> in_flash C i p -> used C (blocks s) i p = true -> collecting i (blocks s) ->
  runs (collect_chunk C garbage (write_fuel C) (chunk_at C i p)) s (fun r s' => base C s' /\ same_kind (objects s) (objects s') /\
    (forall q, 0 <= q < chunks C -> used C (blocks s') i q = true -> used C (blocks s) i q = true /\ q <> p) /\
    (taken_back C i (blocks s') \/ collecting i (blocks s')) /\ kept r.1 s s').
Proof.
  intros Hb Hpl Hr Hu (Hst & Hsh & Hpg). pose proof Hr as [Hi Hp]. pose proof (bs_tidy C s Hb) as Htd.
  destruct (td_filled _ _ _ Htd i p Hi Hp Hu) as (o & c & data & Hh). unfold collect_chunk.
  eapply runs_blocks_cut; [apply (read_nand_ok C HC i p (blocks s) (td_managed _ _ _ Htd) Hi Hp)|]. intros [buffer tags] d1 [[= -> ->] Hf].
  set (t := (readChunkWithTagsFromNAND _ _).2). set (s1 := set_blocks d1 s). pose proof (touched_blocks C s d1 i Hf) as Ht1. fold s1 in Ht1.
  pose proof (touched_base C s s1 Ht1 Hb) as Hb1. pose proof (touched_view C s s1 Ht1) as Hv1. pose proof Ht1 as (_ & Em1 & _). apply runs_get.
  assert (blocks s1 = d1) as Eb1 by (by destruct s). pose proof Hf as [_ F2 F3 _ _ _ _ (F8 & F9 & F10)].
  destruct Hh as [_ [sq Hpage]]. destruct (law_read_page _ _ _ _ _ _ Hpage) as [Hdata [= Eo Ec _]]. pose proof (law_read_valid _ _ _ Hpage) as Hval. rewrite Hdata.
  assert (holds_at C (blocks s1) i p o c data) as Hh1 by (apply (touched_holds C s s1); [done..|]; split; [done|by exists sq]).
  eapply runs_cut with (P := fun (r : bool * option Z) s2 => moved i p r.1 s1 s2);
    [apply (move_ok s1 i p o c data t); try done; [by apply (view_placed C s)|by rewrite Eb1, F2]|].
  intros [ok cl] s2 [M1 M2 M3 [M4 M5] M6]. cbn [fst] in M6. rewrite Eb1, ?F2 in *.
  eapply runs_cut; [apply (drop_ok C HC s2 i p M1 Hr); [by rewrite M3, F3|right; by rewrite M4]|]. intros [] s3 (Hb3 & Et3 & Em3 & Hdel). apply runs_ret.
  split; [done|]. split; [intros o2; by rewrite Em3, M2, Em1|]. pose proof Hdel as [[_ _ D3 _ _ _ _ _] D9]. split.
  { intros q Hq Huq. destruct (D3 i q Hi Hq Huq) as [Hu2 Hne]. rewrite M3, F3 in Hu2 by done. split; [done|]. intros ->. by apply Hne. }
  split.
  { destruct D9 as [D9|(D9 & D10 & D11)]; [by left|]. right. unfold collecting. rewrite D9, D10, M4, M5 in *. split; [done|].
    unfold one_less. rewrite <- F9, <- F10 in *. destruct (info_of d1 i) as [sd pu nr se gc ce hs sqn]. cbn in *. split; [done|].
    destruct (decide (pu = 1)) as [Epu|]; [|lia]. destruct (D11 Epu) as [E|E]; [congruence|]. rewrite Hst in E. discriminate E. }
  destruct (M6 (view_placed C s s1 Hv1 Hpl) s3 Et3 Em3 Hdel) as [Hpl3 Hk3]. split; [done|].
  intros Hok Hlk. destruct (Hk3 Hok (view_linked C s s1 Hv1 Hlk)) as [Hlk3 Hc3]. split; [done|]. rewrite Em1 in Hc3.
  intros o' ob' c' v' Hl' Hc' Hv'. apply (Hc3 o' ob'); [done..|]. by apply (view_content C s).
Qed.

(** ** The loop *)

Lemma preserved_refl s : linked C s -> preserved s s.
Proof. done. Qed.
Lemma preserved_trans s s1 s2 : same_kind (objects s) (objects s1) -> preserved s s1 -> (linked C s1 -> preserved s1 s2) -> preserved s s2.
Proof.
  intros Hk [L1 H1] H2. destruct (H2 L1) as [L2 H2']. split; [done|]. intros o ob c v (Hm & Hf & Hd) Hc Hv. specialize (Hk o). rewrite Hm in Hk.
  destruct (objects s1 !! o) as [ob1|] eqn:E1; [|discriminate Hk]. cbn in Hk. injection Hk as Ef Ed.
  apply (H2' o ob1); [split; [done|split; congruence]|done|]. by apply (H1 o ob).
Qed.

(** The block has no page in use exactly when it has been taken back. *)
Lemma some_left i d : managed C d -> (i < nBlocks C)%nat -> taken_back C i d \/ collecting i d ->
  exists b, yaffs_StillSomeChunkBits C (blk C i) d = Some (b, d) /\ if b then collecting i d else taken_back C i d.
Proof.
  intros Hm Hi Hc. destruct (still_some_ok d i (ac_shape C 0 d (proj1 Hm)) Hi) as (b & E & Hb). exists b. split; [done|].
  destruct (ac_block C 0 d (proj1 Hm) i Hi) as [B1 _ B3 _ _]. destruct b, Hc as [Hc|Hc]; try done.
  - destruct (proj1 Hb eq_refl) as (q & Hq & Hu). destruct (decide (q < chunks C)); [|rewrite B3 in Hu by lia; done].
    destruct Hc as [_ Hc]. rewrite Hc in Hu by lia. done.
  - destruct Hc as (_ & _ & Hpg). rewrite B1, count_bits_none in Hpg; [lia|]. intros q Hq. destruct (used C d i q) eqn:Hu; [|done].
    discriminate (proj2 Hb). exists q. split; [by apply (in_bits C HC)|done].
Qed.

Lemma collect_loop_ok i n k ok cleanups s : base C s -> placed C s -> (i < nBlocks C)%nat -> taken_back C i (blocks s) \/ collecting i (blocks s) ->
  0 <= k -> k + Z.of_nat n = chunks C -> (forall q, 0 <= q < k -> used C (blocks s) i q = false) ->
  runs (collect_loop C garbage (write_fuel C) n (blk C i) k ok cleanups) s (fun r s' => base C s' /\ same_kind (objects s) (objects s') /\
    taken_back C i (blocks s') /\ kept r.1 s s' /\ (r.1 = true -> ok = true)).
Proof.
  intros Hb Hpl Hi. revert k ok cleanups s Hb Hpl. induction n as [|n IH]; intros k ok cleanups s Hb Hpl Hst Hk Hn Hdone; cbn [collect_loop];
    pose proof (td_managed _ _ _ (bs_tidy _ _ Hb)) as Hm.
  { apply runs_ret. split; [done|]. split; [done|]. split; [|done]. destruct Hst as [Hst|(_ & _ & Hpg)]; [done|].
    rewrite (count_used C _ i Hm Hi), count_bits_none in Hpg; [lia|]. intros q Hq. apply Hdone. lia. }
  destruct (some_left i (blocks s) Hm Hi Hst) as (b & E & Hbst).
  eapply runs_blocks_cut; [eapply runs_eq with (Q := fun x d => x = b /\ d = blocks s); [exact E|done]|]. intros x d [-> ->].
  replace (set_blocks (blocks s) s) with s by (by destruct s). destruct b; cbn [negb]; [|by apply runs_ret].
  assert (0 <= k < chunks C) as Hkr by lia.
  eapply runs_blocks_cut; [eapply runs_eq with (Q := fun x d => x = used C (blocks s) i k /\ d = blocks s);
    [apply (check_bit_ok C HC _ i k (ac_shape C 0 _ (proj1 Hm)) Hi (in_bits C HC k Hkr))|done]|]. intros x d [-> ->].
  replace (set_blocks (blocks s) s) with s by (by destruct s).
  eapply runs_cut with (P := fun (r : bool * option Z) s1 => base C s1 /\ same_kind (objects s) (objects s1) /\
    (taken_back C i (blocks s1) \/ collecting i (blocks s1)) /\ (forall q, 0 <= q < k + 1 -> used C (blocks s1) i q = false) /\
    kept r.1 s s1).
  - destruct (used C (blocks s) i k) eqn:Hu.
    + eapply runs_weaken; [apply (collect_chunk_ok s i k Hb Hpl (conj Hi Hkr) Hu Hbst)|]. intros r s1 (Hb1 & Hk1 & Hu1 & Hst1 & Hp1).
      split; [done|]. split; [done|]. split; [done|]. split; [|done]. intros q Hq. destruct (used C (blocks s1) i q) eqn:Huq; [|done].
      destruct (Hu1 q ltac:(lia) Huq) as [Hus Hne]. rewrite Hdone in Hus by lia. done.
    + apply runs_ret. split; [done|]. split; [done|]. split; [done|]. split; [|done]. intros q Hq. destruct (decide (q = k)) as [-> |]; [done|]. apply Hdone. lia.
  - intros [ok1 o1] s1 (Hb1 & Hk1 & Hst1 & Hdone1 & Hpl1 & Hp1). cbn [fst] in Hp1.
    eapply runs_weaken; [apply (IH (k + 1) (ok && ok1) _ s1 Hb1 Hpl1 Hst1); [lia|lia|done]|]. intros [r cl] s2 (Hb2 & Hk2 & Hst2 & [Hpl2 Hp2] & Hrok). cbn [fst] in *.
    split; [done|]. split; [intros o; by rewrite Hk2, Hk1|]. split; [done|]. split; [split; [done|]|intros Hr; by destruct (andb_prop _ _ (Hrok Hr))].
    intros Hr Hlk. destruct (andb_prop _ _ (Hrok Hr)) as [_ Hok1]. apply (preserved_trans s s1 s2 Hk1 (Hp1 Hok1 Hlk) (Hp2 Hr)).
Qed.

(** ** The whole block *)

(** The block is marked. *)
Lemma calm_begin d d' i nf : managed C d -> (i < nBlocks C)%nat -> state_of d i = YAFFS_BLOCK_STATE_FULL -> accounted C d' ->
  changed C i YAFFS_BLOCK_STATE_COLLECTING (clear_hasShrinkHeader (info_of d i)) (used C d i) 0 nf d d' -> calm C d d'.
Proof.
  intros [Hb Ha] Hi Hst Hb' [H1 H2 H3 _ _ _ [Hf Hab Hap]].
  assert (forall j q, (j < nBlocks C)%nat -> 0 <= q < chunks C -> used C d' j q = used C d j q) as Hu.
  { intros j q Hj Hq. rewrite H3 by (try done; by apply (in_bits C HC)). by destruct (decide (j = i)) as [-> |]. }
  assert (forall j, state_of d j <> YAFFS_BLOCK_STATE_FULL -> state_of d' j = state_of d j) as Hs.
  { intros j Hj. rewrite H1. by destruct (decide (j = i)) as [-> |]. }
  split.
  - split; [done|]. destruct Ha as [Ha|(j & Hj & Ha & Hsj & Hp & Hfree)]; [left; lia|]. right. exists j. rewrite Hab, Hap, Hs by congruence.
    split; [done|]. split; [done|]. split; [done|]. split; [done|]. intros q Hq. rewrite Hu by (try done; lia). by apply Hfree.
  - done.
  - intros j q _ _ _. by rewrite Hf.
  - intros Hc j q Hj Hq Hfr. rewrite Hf. apply Hc; [done..|]. unfold fresh in *. rewrite Hab, Hap, H1 in Hfr. destruct (decide (j = i)) as [-> |]; [|done].
    destruct Hfr as [Hfr|Hfr]; [discriminate Hfr|by right].
  - intros j Hj. left. rewrite Hs; congruence.
  - intros j _. rewrite H2. destruct (decide (j = i)) as [-> |]; [|done]. by destruct (info_of d i).
Qed.

(** A block without pages in use is erased or retired. *)
Lemma calm_dirty d d' i : managed C d -> (i < nBlocks C)%nat -> state_of d i = YAFFS_BLOCK_STATE_COLLECTING -> pagesInUse (info_of d i) = 0 ->
  accounted C d' -> beyond C i d d' ->
  (vacant C i YAFFS_BLOCK_STATE_EMPTY (clean_info (info_of d i)) d' /\ needsRetiring (info_of d i) = false /\
     forall p, 0 <= p < chunks C -> page (flash (ck d')) (page_at C i p) = None) \/ vacant C i YAFFS_BLOCK_STATE_DEAD (info_of d i) d' ->
  calm C d d' /\ taken_back C i d'.
Proof.
  intros [Hb Ha] Hi Hst Hp0 Hb' Hy Hcase. assert (allocationBlock d = blk C i -> False) as Hne.
  { intros He. destruct Ha as [Ha|(j & Hj & Ha & Hs & _)]; [pose proof (blk_pos C HC i); lia|]. rewrite He in Ha. apply blk_inj in Ha as ->. congruence. }
  assert (exists st b, vacant C i st b d' /\ (st = YAFFS_BLOCK_STATE_EMPTY \/ st = YAFFS_BLOCK_STATE_DEAD)) as (st & b & Hv & Hse)
    by (destruct Hcase as [[? _]|?]; eauto).
  pose proof (vacant_of C HC d i Hb Hi Hp0) as Hv0. pose proof Hy as [Y1 Y2 Y3 Y4 Y5 Y6]. pose proof Hv as [V1 V2 _ V4 _]. split; [split|].
  - split; [done|]. by apply (allocation_beyond C HC i d d').
  - intros j q Hj Hq. apply (in_bits C HC) in Hq. destruct (decide (j = i)) as [-> |Hji]; [|by apply Y3]. by rewrite V4, (vc_used _ _ _ _ _ Hv0).
  - intros j q Hj Hq Hu. destruct (decide (j = i)) as [-> |Hji]; [rewrite (vc_used _ _ _ _ _ Hv0) in Hu by (by apply (in_bits C HC)); done|].
    apply Y5; [done..|]. by apply (used_not_checkpoint C d j q Hb).
  - intros Hc. apply (clean_beyond C HC i d d' Hy Ha Hne); [|done]. intros q Hq He. destruct Hcase as [(_ & _ & Hpn)|[Hd _ _ _ _]]; [by apply Hpn|congruence].
  - intros j Hj. destruct (decide (j = i)) as [-> |Hji]; [right; rewrite V1; by destruct Hse as [-> | ->]|].
    left. destruct (Y1 j Hji) as [-> |[Hs _]]; [done|congruence].
  - intros j Hj. destruct (decide (j = i)) as [-> |Hji]; [|by rewrite Y2]. destruct (ac_block C 0 d Hb i Hi) as [_ B2 _ _ _].
    destruct Hcase as [([_ -> _ _ _] & _)|[_ -> _ _ _]]; [|done]. destruct (info_of d i). cbn in *. lia.
  - split; [rewrite V1; done|]. intros q Hq. by apply V4, (in_bits C HC).
Qed.

Lemma set_blocks_twice d d' s : set_blocks d (set_blocks d' s) = set_blocks d s.
Proof. by destruct s. Qed.

Lemma begin_ok d i : managed C d -> (i < nBlocks C)%nat -> state_of d i = YAFFS_BLOCK_STATE_FULL ->
  runs (begin_collect C (blk C i)) d (fun st d' => st = YAFFS_BLOCK_STATE_FULL /\
    calm C d d' /\ state_of d' i = YAFFS_BLOCK_STATE_COLLECTING /\ info_of d' i = clear_hasShrinkHeader (info_of d i)).
Proof.
  intros Hm Hi Hst. pose proof Hm as [Hb _]. set (b := clear_hasShrinkHeader (info_of d i)). pose proof (sc_chunks C HC) as Hc. unfold begin_collect.
  eapply runs_bind, runs_eq; [apply (get_state_ok C HC d i (ac_shape C 0 d Hb) Hi)|].
  eapply runs_cut; [apply (set_state_ok C HC d i _ (ac_shape C 0 d Hb) Hi)|]. intros [] d1 H1. destruct (changed_at C _ _ _ _ _ _ _ _ H1 Hi) as (S1 & I1 & U1).
  eapply runs_cut; [apply (update_info_ok C HC d1 i _ (ch_shape C _ _ _ _ _ _ _ _ H1) Hi)|]. intros [] d2 H2. rewrite S1, I1 in H2. fold b in H2.
  apply (changed_used C _ _ _ _ _ _ _ _ _ U1) in H2. destruct (changed_at C _ _ _ _ _ _ _ _ H2 Hi) as (S2 & I2 & U2).
  eapply runs_bind, runs_eq; [apply (get_info_ok C HC d2 i (ch_shape C _ _ _ _ _ _ _ _ H2) Hi)|]. rewrite I2.
  eapply runs_cut; [apply (add_free_ok C d2 i (- softDeletions b) (ch_shape C _ _ _ _ _ _ _ _ H2))|]. intros [] d3 H3. rewrite S2, I2 in H3.
  apply (changed_used C _ _ _ _ _ _ _ _ _ U2) in H3.
  pose proof (changed_trans C _ _ _ _ _ _ _ _ _ _ _ _ _ _ (changed_trans C _ _ _ _ _ _ _ _ _ _ _ _ _ _ H1 H2) H3) as H.
  destruct (changed_at C _ _ _ _ _ _ _ _ H Hi) as (S3 & I3 & _). apply runs_ret. split; [done|]. split; [|done].
  eapply (calm_begin d d3 i _ Hm Hi Hst); [|exact H].
  destruct (ac_block C 0 d Hb i Hi) as [B1 B2 B3 B4 B5].
  assert (softDeletions b = softDeletions (info_of d i) /\ pagesInUse b = pagesInUse (info_of d i)) as [Eb1 Eb2] by (unfold b; by destruct (info_of d i)).
  apply (books_changed C 0 0 i _ _ _ _ _ d d3 HC Hb Hi H); rewrite ?Hst; [|done|unfold free_of; lia|lia|lia].
  split; [by rewrite Eb2|rewrite Eb1, Eb2; destruct B2 as [B2|[B2 _]]; [by left|by rewrite Hst in B2]|done|done|unfold b; by destruct (info_of d i)].
Qed.

Lemma collect_block_ok s i : base C s -> placed C s -> (i < nBlocks C)%nat -> state_of (blocks s) i = YAFFS_BLOCK_STATE_FULL ->
  runs (collect_block C garbage (write_fuel C) (blk C i)) s (fun r s' => base C s' /\ same_kind (objects s) (objects s') /\
    taken_back C i (blocks s') /\ kept r.1 s s').
Proof.
  intros Hb Hpl Hi Hst. pose proof (td_managed _ _ _ (bs_tidy _ _ Hb)) as Hm. unfold collect_block.
  eapply runs_blocks_cut; [apply (begin_ok (blocks s) i Hm Hi Hst)|]. intros st d1 (-> & Hcalm & Hs1 & Hi1). apply runs_modify.
  set (s1 := set_gc _ _ _). assert (blocks s1 = d1 /\ objects s1 = objects s) as [Eb1 Em1] by (by destruct s).
  assert (base C s1) as Hb1 by (destruct (calm_base C HC s d1 Hb Hcalm); destruct s; by split).
  assert (kept true s s1) as [Hpl1 Hp1] by (apply view_kept; [|done]; destruct (calm_view C s d1 Hcalm) as (? & ? & ?); destruct s; by split).
  pose proof (td_managed _ _ _ (bs_tidy _ _ Hb1)) as Hm1. rewrite <- Eb1 in Hs1, Hi1.
  destruct (still_some_ok (blocks s1) i (ac_shape C 0 _ (proj1 Hm1)) Hi) as (b & E & Hbit).
  eapply runs_blocks_cut; [eapply runs_eq with (Q := fun x d => x = b /\ d = blocks s1); [exact E|done]|]. intros x d [-> ->].
  replace (set_blocks (blocks s1) s1) with s1 by (by destruct s1). rewrite bool_decide_eq_false_2 by done. cbn [orb].
  pose proof (count_used C _ i Hm1 Hi) as Hpages. destruct b; cbn [negb].
  - assert (collecting i (blocks s1)) as Hcol.
    { split; [done|]. split; [rewrite Hi1; by destruct (info_of (blocks s) i)|]. destruct (proj1 Hbit eq_refl) as (q & Hq & Hu).
      destruct (ac_block C 0 _ (proj1 Hm1) i Hi) as [_ _ B3 _ _]. destruct (decide (q < chunks C)); [|rewrite B3 in Hu by lia; done].
      pose proof (count_bits_bounds C (used C (blocks s1) i) (proj1 (sc_chunks C HC))). destruct (decide (pagesInUse (info_of (blocks s1) i) = 0)) as [H0|]; [|lia].
      rewrite H0 in Hpages. rewrite (count_bits_zero C _ q (eq_sym Hpages)) in Hu by lia. done. }
    pose proof (sc_chunks C HC). eapply runs_weaken; [apply (collect_loop_ok i (Z.to_nat (chunks C)) 0 true [] s1 Hb1 Hpl1 Hi (or_intror Hcol)); lia|].
    intros r s2 (Hb2 & Hk2 & Htb & [Hpl2 Hp2] & _). rewrite Em1 in Hk2. split; [done|]. split; [done|]. split; [done|]. split; [done|]. intros Hr Hlk.
    apply (preserved_trans s s1 s2); [by rewrite Em1|by apply Hp1|by apply Hp2].
  - assert (pagesInUse (info_of (blocks s1) i) = 0) as H0.
    { rewrite Hpages. apply count_bits_none. intros q Hq. destruct (used C (blocks s1) i q) eqn:Hu; [|done]. discriminate (proj2 Hbit).
      exists q. split; [by apply (in_bits C HC)|done]. }
    eapply runs_blocks_cut; [apply (dirty_ok C HC (blocks s1) i (proj1 Hm1) Hi H0); by right|]. intros [] d2 (Hb2 & Hy & Hcase). apply runs_ret.
    destruct (calm_dirty (blocks s1) d2 i Hm1 Hi Hs1 H0 Hb2 Hy Hcase) as [Hcalm2 Htb]. split; [by apply (calm_base C HC s1)|].
    split; [intros o; rewrite <- Em1; by destruct s1|]. split; [by rewrite blocks_set|].
    destruct (view_kept true s1 (set_blocks d2 s1) (calm_view C s1 d2 Hcalm2) Hpl1) as [Hpl2 Hp2]. split; [done|]. intros _ Hlk.
    apply (preserved_trans s s1); [by rewrite Em1|by apply Hp1|by apply Hp2].
Qed.
End Collect.
