(* ===== verification/YaffsChoose.v ===== *)
(** * Choosing a block to collect (yaffs2/yaffs_guts.c)

    [yaffs_FindBlockForGarbageCollection] finds a full block that is worth collecting, or
    none, and leaves the books and the flash alone. *)

From S2P Require Import Prelude YaffsTags YaffsTagsCompat YaffsCheckpt YaffsBlocks YaffsSpace YaffsChunks YaffsWrite YaffsRetry.
From S2P Require Import YaffsTnode YaffsTree YaffsFile YaffsStore YaffsContent YaffsUpdate.

Section Choose.
Context {D : CheckpointDriver} (C : block_config) (HC : space_config C).
Context {L : CheckpointDriverLaws D (chunks C)}.

(** Only members that the choice uses may differ. *)
Definition tuned (d d' : device) : Prop :=
  ck d' = ck d /\ blockInfo d' = blockInfo d /\ chunkBits d' = chunkBits d /\ allocationBlock d' = allocationBlock d /\ allocationPage d' = allocationPage d.

Lemma tuned_refl d : tuned d d.
Proof. done. Qed.
Lemma tuned_trans d d1 d2 : tuned d d1 -> tuned d1 d2 -> tuned d d2.
Proof. unfold tuned. intuition congruence. Qed.
Lemma tuned_sequences d a b : tuned d (set_sequences a b d).
Proof. by destruct d. Qed.
Lemma tuned_collector d a b c : tuned d (set_collector a b c d).
Proof. by destruct d. Qed.

Lemma tuned_state d d' i : tuned d d' -> state_of d' i = state_of d i.
Proof. intros (H & _). unfold state_of. by rewrite H. Qed.
Lemma tuned_info d d' i : tuned d d' -> info_of d' i = info_of d i.
Proof. intros (_ & H & _). unfold info_of. by rewrite H. Qed.
Lemma tuned_shape d d' : tuned d d' -> shape C d -> shape C d'.
Proof. intros (H1 & H2 & H3 & _) [S1 S2 S3 S4]. split; congruence. Qed.

Lemma tuned_managed d d' : tuned d d' -> managed C d -> managed C d'.
Proof.
  destruct d, d'. intros (H1 & H2 & H3 & H4 & H5) [[[S1 S2 S3 S4] Hb He Hf] Ha]. cbn in *. subst. split; [|exact Ha]. split; [by split|exact Hb|exact He|exact Hf].
Qed.
Lemma tuned_calm d d' : tuned d d' -> managed C d -> calm C d d'.
Proof.
  intros Ht Hm. pose proof (tuned_managed d d' Ht Hm) as Hm'. pose proof Ht as (H1 & H2 & H3 & H4 & H5). split.
  - done.
  - intros i p _ _. unfold used. by rewrite H3.
  - intros i p _ _ _. by rewrite H1.
  - intros Hc i p Hi Hp. rewrite H1. unfold fresh, state_of. rewrite H1, H4, H5. by apply Hc.
  - intros j Hj. left. by rewrite (tuned_state d d' j Ht).
  - intros j _. by rewrite (tuned_info d d' j Ht).
Qed.

(** ** The loops *)

Lemma oldest_dirty_ok d n k seq : shape C d -> (k + n <= nBlocks C)%nat -> runs (oldest_dirty C n (blk C k) seq) d (fun _ d' => d' = d).
Proof.
  intros Hs. revert k seq. induction n as [|n IH]; intros k seq Hk; cbn [oldest_dirty]; [by apply runs_ret|].
  eapply runs_bind, runs_eq; [apply (get_info_ok C HC d k Hs); lia|]. eapply runs_bind, runs_eq; [apply (get_state_ok C HC d k Hs); lia|].
  replace (blk C k + 1) with (blk C (S k)) by (unfold blk; lia). apply IH. lia.
Qed.

Lemma not_disqualified_ok d bi : shape C d -> runs (yaffs_BlockNotDisqualifiedFromGC C bi) d (fun _ d' => tuned d d').
Proof.
  intros Hs. unfold yaffs_BlockNotDisqualifiedFromGC. destruct (hasShrinkHeader bi); cbn [negb]; [|by apply runs_ret]. apply runs_get.
  eapply runs_cut with (P := fun _ d' => tuned d d'); [|intros [] d1 Ht; by apply runs_get, runs_ret].
  destruct (_ =? 0); [|by apply runs_ret]. eapply runs_cut.
  - replace (internalStartBlock C) with (blk C 0) at 2 by (unfold blk; lia). apply (oldest_dirty_ok d (nBlocks C) 0 _ Hs). lia.
  - intros seq d1 ->. eexists _, _. split; [reflexivity|]. apply tuned_sequences.
Qed.

(** A block that may be collected. *)
Definition collectable (d : device) (b : Z) : Prop := exists i, (i < nBlocks C)%nat /\ b = blk C i /\ state_of d i = YAFFS_BLOCK_STATE_FULL /\
  (gcPrioritise (info_of d i) = true \/ pagesInUse (info_of d i) - softDeletions (info_of d i) < Z.max (chunks C) (YAFFS_PASSIVE_GC_CHUNKS + 1)).

Lemma collectable_tuned d d' b : tuned d d' -> collectable d' b -> collectable d b.
Proof. intros Ht (i & Hi & -> & Hs & Hp). exists i. rewrite (tuned_state d d' i Ht) in Hs. rewrite (tuned_info d d' i Ht) in Hp. done. Qed.

Lemma find_prioritised_ok n : forall k pending d, shape C d -> (k + n <= nBlocks C)%nat ->
  runs (find_prioritised C n (blk C k) pending) d (fun r d' => tuned d d' /\ forall b pages, r.1 = Some (b, pages) -> collectable d b).
Proof.
  induction n as [|n IH]; intros k pending d Hs Hk; cbn [find_prioritised]; [by apply runs_ret|]. assert (k < nBlocks C)%nat as Hlt by lia.
  eapply runs_bind, runs_eq; [apply (get_info_ok C HC d k Hs Hlt)|]. eapply runs_bind, runs_eq; [apply (get_state_ok C HC d k Hs Hlt)|].
  eapply runs_cut with (P := fun (take : bool) d' => tuned d d' /\ (take = true -> collectable d (blk C k))).
  { destruct (bool_decide _ && _) eqn:E; [|by apply runs_ret]. apply andb_prop in E as [E1 E2]. apply bool_decide_eq_true in E1.
    eapply runs_weaken; [apply (not_disqualified_ok d _ Hs)|]. intros take d' Ht. split; [done|]. intros _. exists k. by auto. }
  intros take d1 [Ht Hc]. destruct take.
  - apply runs_ret. split; [done|]. intros b pages [= <- _]. by apply Hc.
  - replace (blk C k + 1) with (blk C (S k)) by (unfold blk; lia).
    eapply runs_weaken; [apply (IH (S k) _ d1 (tuned_shape d d1 Ht Hs)); lia|]. intros r d2 [Ht2 Hr]. split; [by apply (tuned_trans d d1)|].
    intros b pages E. by apply (collectable_tuned d d1), (Hr b pages).
Qed.

Lemma find_dirtiest_ok n : forall b dirtiest pages d, shape C d -> pages <= Z.max (chunks C) (YAFFS_PASSIVE_GC_CHUNKS + 1) -> dirtiest <= 0 \/ collectable d dirtiest ->
  runs (find_dirtiest C n b dirtiest pages) d (fun r d' => tuned d d' /\ (r.2 <= 0 \/ collectable d r.2)).
Proof.
  induction n as [|n IH]; intros b dirtiest pages d Hs Hp Hd; cbn [find_dirtiest]; [by apply runs_ret|].
  destruct (Z.leb_spec pages 0); [by apply runs_ret|]. set (b' := if (s32 (b + 1) <? internalStartBlock C) || (internalEndBlock C <? s32 (b + 1)) then internalStartBlock C else s32 (b + 1)).
  assert (internalStartBlock C <= b' <= internalEndBlock C) as Hb'.
  { unfold b'. pose proof (sc_internal C HC). pose proof (sc_start C HC).
    destruct (Z.ltb_spec (s32 (b + 1)) (internalStartBlock C)), (Z.ltb_spec (internalEndBlock C) (s32 (b + 1))); cbn [orb]; lia. }
  clearbody b'. destruct (blk_of C b' Hb') as (k & Hk & ->).
  eapply runs_bind, runs_eq; [apply (get_info_ok C HC d k Hs Hk)|]. eapply runs_bind, runs_eq; [apply (get_state_ok C HC d k Hs Hk)|].
  eapply runs_cut with (P := fun (take : bool) d' => tuned d d' /\
    (take = true -> pagesInUse (info_of d k) - softDeletions (info_of d k) < pages /\ collectable d (blk C k))).
  { destruct (bool_decide _ && _) eqn:E; [|by apply runs_ret]. apply andb_prop in E as [E1 E2%Z.ltb_lt]. apply bool_decide_eq_true in E1.
    eapply runs_weaken; [apply (not_disqualified_ok d _ Hs)|]. intros take d' Ht. split; [done|]. intros _. split; [done|]. exists k. do 3 (split; [done|]). right. lia. }
  intros take d1 [Ht Hc].
  assert (forall (r : Z * Z) d2, tuned d1 d2 /\ (r.2 <= 0 \/ collectable d1 r.2) -> tuned d d2 /\ (r.2 <= 0 \/ collectable d r.2)) as Hback.
  { intros r d2 [Ht2 Hr]. split; [by apply (tuned_trans d d1)|]. destruct Hr as [Hr|Hr]; [by left|right]. by apply (collectable_tuned d d1). }
  assert (forall x, collectable d x -> collectable d1 x) as Hfwd.
  { intros x (i & Hi & -> & Hst & Hpg). exists i. by rewrite (tuned_state d d1 i Ht), (tuned_info d d1 i Ht). }
  destruct take.
  - destruct (Hc eq_refl) as [Hlt Hco]. eapply runs_weaken; [apply (IH (blk C k) (blk C k) _ d1 (tuned_shape d d1 Ht Hs)); [lia|right; by apply Hfwd]|]. exact Hback.
  - eapply runs_weaken; [apply (IH (blk C k) dirtiest pages d1 (tuned_shape d d1 Ht Hs) Hp)|exact Hback]. destruct Hd as [Hd|Hd]; [by left|right; by apply Hfwd].
Qed.

Lemma choose_ok d aggressive : shape C d ->
  runs (yaffs_FindBlockForGarbageCollection C aggressive) d (fun r d' => tuned d d' /\ (r <= 0 \/ collectable d r)).
Proof.
  intros Hs. unfold yaffs_FindBlockForGarbageCollection. apply runs_get.
  eapply runs_cut with (P := fun (r : option (Z * Z) * bool) d' => tuned d d' /\ forall b pages, r.1 = Some (b, pages) -> collectable d b).
  { destruct (hasPendingPrioritisedGCs d); [|by apply runs_ret]. replace (internalStartBlock C) with (blk C 0) at 2 by (unfold blk; lia).
    apply find_prioritised_ok; [done|]. unfold nBlocks. lia. }
  intros [prio pending] d1 [Ht1 Hprio]. cbn [fst] in Hprio.
  eapply runs_cut with (P := fun _ d' => tuned d d').
  { destruct (_ && _); [|by apply runs_ret]. eexists _, _. split; [reflexivity|]. apply (tuned_trans d d1); [done|apply tuned_collector]. }
  intros [] d2 Ht2. apply runs_modify, runs_get. set (d3 := set_collector _ _ _ d2).
  assert (tuned d d3) as Ht3 by (apply (tuned_trans d d2); [done|apply tuned_collector]). clearbody d3.
  destruct (_ && _); [apply runs_ret; split; [done|]; left; lia|].
  eapply runs_cut with (P := fun r d' => tuned d d' /\ (r.2 <= 0 \/ collectable d r.2)).
  { destruct prio as [[i pages]|]; [apply runs_ret; split; [done|]; right; by apply (Hprio i pages)|].
    eapply runs_weaken; [apply find_dirtiest_ok; [by apply (tuned_shape d)| |left; lia]|].
    - destruct (aggressive || false); lia.
    - intros r d4 [Ht4 Hr]. split; [by apply (tuned_trans d d3)|]. destruct Hr as [Hr|Hr]; [by left|right]. by apply (collectable_tuned d d3). }
  intros [b dirtiest] d4 [Ht4 Hd]. cbn [snd] in Hd. apply runs_modify, runs_modify. set (d5 := set_sequences _ _ _).
  assert (tuned d d5) as Ht5 by (apply (tuned_trans d d4 _ Ht4), (tuned_trans _ (set_collector b (nonAggressiveSkip d4) (hasPendingPrioritisedGCs d4) d4)); [apply tuned_collector|apply tuned_sequences]).
  destruct (0 <? dirtiest); [apply runs_modify|apply runs_bind, runs_ret]; apply runs_ret; (split; [|done]); [|done].
  apply (tuned_trans d d5 _ Ht5), tuned_collector.
Qed.
End Choose.
