(* ===== verification/YaffsGuts.v ===== *)
(** * The chunk store of YAFFS (yaffs2/yaffs_guts.c)

    What [YaffsBlocks] and [YaffsFile] promise to their callers: the count of free chunks,
    writing a chunk, and the contents of the files while chunks are written and blocks are
    collected.  The theorems are instances of the lemmas of [YaffsRetry], [YaffsFileWrite]
    and [YaffsCollect]; a flash in memory shows that their hypotheses can hold. *)

From S2P Require Import Prelude YaffsTags YaffsTagsCompat YaffsCheckpt YaffsBlocks YaffsSpace YaffsChunks YaffsWrite YaffsRetry.
From S2P Require Import YaffsTnode YaffsTree YaffsFile YaffsStore YaffsContent YaffsUpdate YaffsFileWrite YaffsCollect YaffsChoose.

(** ** Counting free chunks *)

Section Count.
Context {D : CheckpointDriver} (C : block_config) (HC : space_config C).

Definition free_to (d : device) (n : nat) : Z := sum_to n (fun i => free_of C (state_of d i) (info_of d i)).

Lemma free_to_s32 d n : accounted C d -> (n <= nBlocks C)%nat -> is_s32 (free_to d n).
Proof.
  intros Hb Hn. pose proof (sc_chunks C HC) as Hc. pose proof (sc_max C HC) as Hm. pose proof (sc_internal C HC) as Hi. pose proof (sc_start C HC) as Hst.
  pose proof (sum_to_bounds n (fun i => free_of C (state_of d i) (info_of d i)) 0 (chunks C)) as Hs. unfold free_to.
  destruct Hs as [H1 H2]; [intros i Hi'; apply (free_of_bounds C _ _ (used C d i)); [done|]; apply (ac_block C 0 d Hb); lia|].
  assert (chunks C * Z.of_nat n <= chunks C * internalEndBlock C) by (apply Z.mul_le_mono_nonneg_l; unfold nBlocks in Hn; lia).
  unfold is_s32. lia.
Qed.

Lemma count_free_ok d : accounted C d -> (forall i, (i < nBlocks C)%nat -> state_of d i <> YAFFS_BLOCK_STATE_COLLECTING) ->
  forall n k, (k + n = nBlocks C)%nat -> runs (count_free C n (blk C k) (free_to d k)) d (fun r d' => r = free_to d (nBlocks C) /\ d' = d).
Proof.
  intros Hb Hcol n. induction n as [|n IH]; intros k Hk; cbn [count_free]; [apply runs_ret; by replace k with (nBlocks C) by lia|].
  assert (k < nBlocks C)%nat as Hlt by lia. pose proof (ac_shape C 0 d Hb) as Hsh.
  eapply runs_bind, runs_eq; [apply (get_info_ok C HC d k Hsh Hlt)|]. eapply runs_bind, runs_eq; [apply (get_state_ok C HC d k Hsh Hlt)|].
  specialize (IH (S k) ltac:(lia)). replace (blk C (S k)) with (blk C k + 1) in IH by (unfold blk; lia).
  match goal with |- runs (count_free _ _ _ ?x) _ _ => assert (x = free_to d (S k)) as ->; [|done] end.
  pose proof (free_to_s32 d (S k) Hb ltac:(lia)) as Hs. unfold free_to in *. cbn [sum_to] in *. specialize (Hcol k Hlt).
  remember (sum_to k _) as x eqn:Ex. clear Ex. unfold free_of in *. destruct (state_of d k); try done; rewrite ?Z.add_0_r; try done; by apply s32_id.
Qed.

End Count.

Section Promises.
Context {D : CheckpointDriver} (C : block_config) (HC : space_config C).
Context {L : CheckpointDriverLaws D (chunks C)} {BL : BlockDriverLaws D (chunks C)} {FL : FileDriverLaws D (chunks C)}.

(** ** Writing a chunk *)

(** (C8) [yaffs_WriteNewChunkWithTagsToNAND] returns, however often writing, erasing or
    checking a page fails.  Every chunk that was in use is in use afterwards with the same
    content, and the books are right.  Either the chunk returned was free, is the only one
    that came into use, and reads back as the data and the tags; or -1 is returned, nothing
    came into use, and there is no erased block left if the reserve may be used. *)
Theorem yaffs_WriteNewChunk_safe data tags useReserve d : managed C d -> clean C d -> yaffs_ValidateTags tags = true ->
  exists chunk d', yaffs_WriteNewChunkWithTagsToNAND C (write_fuel C) data tags useReserve d = Some (chunk, d') /\ managed C d' /\ clean C d' /\
    (forall i p, (i < nBlocks C)%nat -> 0 <= p < chunks C -> used C d i p = true ->
       page (flash (ck d')) (page_at C i p) = page (flash (ck d)) (page_at C i p)) /\
    ((chunk = -1 /\ (useReserve = true -> nErasedBlocks (ck d') = 0) /\
      forall i p, (i < nBlocks C)%nat -> 0 <= p < chunks C -> used C d' i p = used C d i p) \/
     exists i p, chunk = chunk_at C i p /\ (i < nBlocks C)%nat /\ 0 <= p < chunks C /\ used C d i p = false /\
       (forall j q, (j < nBlocks C)%nat -> 0 <= q < chunks C -> used C d' j q = if decide (j = i /\ q = p) then true else used C d j q) /\
       exists t d'', yaffs_ReadChunkWithTagsFromNAND C chunk d' = Some ((data, t), d'') /\ objectId t = objectId tags /\ chunkId t = chunkId tags).
Proof.
  intros Hm Hcl Ht. destruct (write_new_ok C HC data tags useReserve d Hm Ht) as (r & d' & E & Ho). exists r, d'. split; [done|].
  destruct Ho as [(-> & [S1 S2 S3 S4 _ _] & He)|(i & p & -> & [W1 [Hi Hp] W3 W4 W5 W6 _ _ _])].
  - split; [done|]. split; [by apply S4|]. split; [done|]. by left.
  - destruct (W6 Hcl) as [Hcl' Hpg]. do 3 (split; [done|]). right. exists i, p. do 5 (split; [done|]).
    destruct (law_read_page _ _ _ _ _ _ Hpg) as [Hd [= Eo Ec _]].
    destruct (read_nand_ok C HC i p d' W1 Hi Hp) as ([buf t] & d'' & Er & [= -> ->] & _). rewrite Hd in Er. by exists (readChunkWithTagsFromNAND (flash (ck d')) (page_at C i p)).2, d''.
Qed.

(** ** The contents of the files *)

(** What reading a chunk of a file gives. *)
Definition reads (s : system) (o c : Z) (bytes : list Z) : Prop := exists s', yaffs_ReadChunkDataFromObject C o c s = Some (bytes, s').

Lemma reads_content s o ob c v : base C s -> linked C s -> live (objects s) o ob -> data_chunk c -> content C s o c v ->
  reads s o c (default (replicate (Z.to_nat (nDataBytesPerChunk (ckpt C))) 0) v).
Proof. intros Hb Hlk Hl Hc Hv. destruct (read_file_ok C HC s o ob c v Hb Hlk Hl Hc Hv) as (x & s' & E & -> & _). by exists s'. Qed.

Lemma reads_inv s o ob c bytes : base C s -> linked C s -> live (objects s) o ob -> data_chunk c -> reads s o c bytes ->
  exists v, content C s o c v /\ bytes = default (replicate (Z.to_nat (nDataBytesPerChunk (ckpt C))) 0) v.
Proof.
  intros Hb Hlk Hl Hc [s' E]. destruct (content_total C s o ob c Hlk Hl Hc) as [v Hv]. exists v. split; [done|].
  destruct (reads_content s o ob c v Hb Hlk Hl Hc Hv) as [s2 E2]. congruence.
Qed.

Lemma live_kind m m' o ob : same_kind m m' -> live m o ob -> exists ob', live m' o ob'.
Proof.
  intros Hk (Hm & Hf & Hd). specialize (Hk o). rewrite Hm in Hk. destruct (m' !! o) as [ob'|] eqn:E; [|discriminate Hk]. exists ob'.
  injection Hk as Ef Ed. split; [done|]. split; congruence.
Qed.

(** What was readable reads the same, but for what [g] says. *)
Lemma reads_later s s' (g : Z -> Z -> option (list Z) -> option (list Z)) : base C s -> linked C s -> base C s' -> linked C s' -> same_kind (objects s) (objects s') ->
  (forall o ob c v, live (objects s) o ob -> data_chunk c -> content C s o c v -> content C s' o c (g o c v)) ->
  forall o ob c bytes, live (objects s) o ob -> data_chunk c -> reads s o c bytes ->
    exists v, bytes = default (replicate (Z.to_nat (nDataBytesPerChunk (ckpt C))) 0) v /\
      reads s' o c (default (replicate (Z.to_nat (nDataBytesPerChunk (ckpt C))) 0) (g o c v)).
Proof.
  intros Hb Hlk Hb' Hlk' Hk Hc o ob c bytes Hl Hdc Hr. destruct (reads_inv s o ob c bytes Hb Hlk Hl Hdc Hr) as (v & Hv & ->). exists v.
  split; [done|]. destruct (live_kind _ _ o ob Hk Hl) as [ob' Hl']. apply (reads_content s' o ob'); try done. by apply (Hc o ob).
Qed.

Context `{Ma : Malloc} `{Hma : !MallocOk Ma} (garbage : Z) (Hgarbage : is_u32 garbage).


(** (C7) A turn of the garbage collector returns.  The block it chose, if any, was full;
    afterwards it is erased or retired and has no page in use, and the books are right.  If
    every copy could be written, every chunk of every live file reads as before. *)
Theorem yaffs_collection_keeps_files s : base C s -> linked C s ->
  exists block r s', collect_some C garbage (write_fuel C) s = Some ((block, r), s') /\ base C s' /\
    (0 < block -> collectable C (blocks s) block /\ exists i, block = blk C i /\ taken_back C i (blocks s')) /\
    (r.1 = true -> linked C s' /\
       forall o ob c bytes, live (objects s) o ob -> data_chunk c -> reads s o c bytes -> reads s' o c bytes).
Proof.
  intros Hb Hlk. pose proof (td_managed _ _ _ (bs_tidy C s Hb)) as Hm. unfold collect_some. rewrite get_st_bind. set (aggressive := _ <? _).
  destruct (choose_ok C HC (blocks s) aggressive (ac_shape C 0 _ (proj1 Hm))) as (block & d1 & E1 & Ht & Hc).
  pose proof (tuned_calm C (blocks s) d1 Ht Hm) as Hcalm. pose proof (calm_view C s d1 Hcalm) as Hv1. pose proof (calm_base C HC s d1 Hb Hcalm) as Hb1.
  pose proof (view_linked C s _ Hv1 Hlk) as Hlk1. set (s1 := set_blocks d1 s) in *.
  rewrite (bind_some (on_blocks _) _ s block s1) by (unfold on_blocks; by rewrite E1). destruct (Z.ltb_spec 0 block) as [Hpos|Hneg].
  - destruct Hc as [Hc|Hc]; [lia|]. pose proof Hc as (i & Hi & -> & Hst & _). rewrite <- (tuned_state _ _ i Ht) in Hst.
    assert (state_of (blocks s1) i = YAFFS_BLOCK_STATE_FULL) as Hst1 by (by destruct s).
    destruct (collect_block_ok C HC garbage Hgarbage s1 i Hb1 (lk_placed C s1 Hlk1) Hi Hst1) as (r & s' & E & Hb' & Hk & Htb & _ & Hp).
    exists (blk C i), r, s'. rewrite (bind_some _ _ _ _ _ E). split; [done|]. split; [done|]. split; [intros _; split; [done|by exists i]|].
    intros Hr. destruct (Hp Hr Hlk1) as [Hlk' Hv]. split; [done|]. pose proof Hv1 as (_ & Em & _). rewrite Em in Hk, Hv.
    assert (forall o ob c v, live (objects s) o ob -> data_chunk c -> content C s o c v -> content C s' o c v) as Hall.
    { intros o ob c v Hl Hdc Hcv. apply (Hv o ob); [done..|]. by apply (view_content C s). }
    intros o ob c bytes Hl Hdc Hrd. by destruct (reads_later s s' (fun _ _ v => v) Hb Hlk Hb' Hlk' Hk Hall o ob c bytes Hl Hdc Hrd) as (v & -> & H).
  - exists block, (true, []), s1. split; [done|]. split; [done|]. split; [lia|]. intros _. split; [done|].
    assert (forall o ob c v, live (objects s) o ob -> data_chunk c -> content C s o c v -> content C s1 o c v) as Hall by (intros; by apply (view_content C s)).
    assert (same_kind (objects s) (objects s1)) as Hk by (by destruct Hv1 as (_ & -> & _)).
    intros o ob c bytes Hl Hdc Hrd. by destruct (reads_later s s1 (fun _ _ v => v) Hb Hlk Hb1 Hlk1 Hk Hall o ob c bytes Hl Hdc Hrd) as (v & -> & H).
Qed.
End Promises.

(** ** A flash in memory *)

Definition ram_tags (o k q : Z) : yaffs_ExtendedTags :=
  ExtendedTags 0xAAAAAAAA 1 o k 4 YAFFS_ECC_RESULT_NO_ERROR 0 0 1 q 0 0 0 0 YAFFS_OBJECT_TYPE_UNKNOWN 0 0 0x55555555.
Definition ram_blank : yaffs_ExtendedTags :=
  ExtendedTags 0xAAAAAAAA 0 0 0 0 YAFFS_ECC_RESULT_NO_ERROR 0 0 0 0 0 0 0 0 YAFFS_OBJECT_TYPE_UNKNOWN 0 0 0x55555555.

(** Blocks of two pages of four bytes; pages that are not in the map are erased. *)
#[local] Instance RamDriver : CheckpointDriver := {|
  Flash := gmap Z (list Z * (Z * Z * Z));
  writeChunkWithTagsToNAND f c data t := (<[c := (data, (objectId t, chunkId t, sequenceNumber t))]> f, 1);
  readChunkWithTagsFromNAND f c :=
    match f !! c with
    | Some (data, (o, k, q)) => (f, data, ram_tags o k q)
    | None => (f, [0xFF; 0xFF; 0xFF; 0xFF], ram_blank)
    end;
  eraseBlockInNAND f b := (delete (2 * b) (delete (2 * b + 1) f), 1);
  markNANDBlockBad f b := (f, 1)
|}.

Definition ram_config : block_config := BlockConfig (CkptConfig 0 3 2 4 1 true true true true) 1 4 1 2 1 0.

Lemma ram_erase (f : gmap Z (list Z * (Z * Z * Z))) b c :
  delete (2 * b) (delete (2 * b + 1) f) !! c = if (b * 2 <=? c) && (c <? (b + 1) * 2) then None else f !! c.
Proof.
  destruct (Z.leb_spec (b * 2) c), (Z.ltb_spec c ((b + 1) * 2)); cbn [andb].
  - destruct (Z.eq_dec c (2 * b)) as [-> | Hne]; [apply lookup_delete_eq|]. rewrite lookup_delete_ne by lia.
    replace c with (2 * b + 1) by lia. apply lookup_delete_eq.
  - by rewrite !lookup_delete_ne by lia.
  - by rewrite !lookup_delete_ne by lia.
  - by rewrite !lookup_delete_ne by lia.
Qed.

#[local] Instance RamLaws : CheckpointDriverLaws RamDriver (chunks ram_config).
Proof.
  refine {| page f c := (f : gmap Z _) !! c |}; cbn.
  - intros f c data t _ _. apply lookup_insert_eq.
  - intros f c data t c' Hc. by apply lookup_insert_ne.
  - intros f c c'. by destruct (f !! c) as [[? [[? ?] ?]]|].
  - intros f c data o k q ->. done.
  - intros f c ->. done.
  - intros f b c _. apply ram_erase.
Defined.

#[local] Instance RamBlockLaws : BlockDriverLaws RamDriver (chunks ram_config).
Proof.
  split; cbn; [|done]. intros f b c Hc. rewrite ram_erase. destruct (Z.leb_spec (b * 2) c), (Z.ltb_spec c ((b + 1) * 2)); try done. lia.
Qed.

#[local] Instance RamFileLaws : FileDriverLaws RamDriver (chunks ram_config).
Proof. split; cbn; intros f c [data [[o k] q]] ->; reflexivity. Qed.

Lemma ram_space : space_config ram_config.
Proof. split; cbn; (done || lia). Qed.

(** A device without checkpoint and without a block that is being filled. *)
Definition ram_info (pages : Z) (skip : bool) : yaffs_BlockInfo := BlockInfo 0 pages false skip false 0 false 0x1001.
Definition ram_device (f : gmap Z (list Z * (Z * Z * Z))) (states : list yaffs_BlockState) (infos : list yaffs_BlockInfo) (bits : list Z)
    (nErased nFree : Z) : device :=
  Device (CkptDevice (D := RamDriver) f states nErased nFree 0 0 0 0 None 0 0 0 0 None 0) infos bits (-1) 0 1 0x1001 0 0 0 false false
    (Statistics 0 0 0 0 0 0).

(** The file 257 has two chunks, which fill the first block; the other blocks are erased. *)
Definition ram_blocks : device :=
  ram_device {[ 0 := ([1; 2; 3; 4], (257, 1, 0x1001)); 1 := ([5; 6; 7; 8], (257, 2, 0x1001)) ]}
    [YAFFS_BLOCK_STATE_FULL; YAFFS_BLOCK_STATE_EMPTY; YAFFS_BLOCK_STATE_EMPTY; YAFFS_BLOCK_STATE_EMPTY]
    [ram_info 2 true; ram_info 0 true; ram_info 0 true; ram_info 0 true] [3; 0; 0; 0] 3 6.
Definition ram_tnodes : YaffsTnode.yaffs_Device := mkDevice 16 65535 0 {[ 4096 := [Z.shiftl 2 16; 3; 0; 0; 0; 0; 0; 0] ]} 0 0 1 [].
Definition ram_file : yaffs_Object := Object true false 0 0 2 (mkFileStructure 0 4096).
Definition ram_system : system := System ram_blocks ram_tnodes {[ 257 := ram_file ]} false 0.

#[local] Instance no_memory : Malloc := fun _ _ => 0.
#[local] Instance no_memory_ok : MallocOk no_memory.
Proof. intros h n size. by left. Qed.

Lemma ram_cases (P : nat -> Prop) : P 0%nat -> P 1%nat -> P 2%nat -> P 3%nat -> forall i, (i < nBlocks ram_config)%nat -> P i.
Proof. intros H0 H1 H2 H3 i Hi. change (nBlocks ram_config) with 4%nat in Hi. destruct i as [|[|[|[|i]]]]; [done..|lia]. Qed.
Lemma ram_pages (P : Z -> Prop) : P 0 -> P 1 -> forall p, 0 <= p < chunks ram_config -> P p.
Proof. intros H0 H1 p Hp. change (chunks ram_config) with 2 in Hp. assert (p = 0 \/ p = 1) as [-> | ->] by lia; done. Qed.

Lemma ram_managed : managed ram_config ram_blocks.
Proof.
  split; [|by left]. split.
  - split; [reflexivity..|]. repeat constructor; unfold is_u8; lia.
  - apply ram_cases; (split; [reflexivity|left; cbn; lia| |try done|cbn; lia]); intros c Hc; cbn in Hc;
      assert (c = 2 \/ c = 3 \/ c = 4 \/ c = 5 \/ c = 6 \/ c = 7) as Hcs by lia; destruct_or!; subst; reflexivity.
  - reflexivity.
  - reflexivity.
Qed.

Lemma ram_clean : clean ram_config ram_blocks.
Proof. intros i p Hi Hp. revert i Hi p Hp. apply (ram_cases (fun i => forall p, _ -> _ -> _)); apply (ram_pages (fun p => _ -> _)); intros [H|[H _]]; try discriminate H; reflexivity. Qed.

Lemma ram_holds i p o c data : in_flash ram_config i p -> holds_at ram_config ram_blocks i p o c data ->
  i = 0%nat /\ o = 257 /\ ((p = 0 /\ c = 1 /\ data = [1; 2; 3; 4]) \/ (p = 1 /\ c = 2 /\ data = [5; 6; 7; 8])).
Proof.
  intros [Hi Hp]. revert i Hi p Hp. apply (ram_cases (fun i => forall p, _ -> _ -> _)); apply (ram_pages (fun p => _ -> _)); intros [Hu [sq Hpg]];
    try discriminate Hu; vm_compute in Hpg; injection Hpg as <- <- <- _; (split; [done|]); (split; [done|]); [by left|by right].
Qed.
Lemma ram_holds_1 : holds_at ram_config ram_blocks 0 0 257 1 [1; 2; 3; 4].
Proof. split; [done|]. by eexists. Qed.
Lemma ram_holds_2 : holds_at ram_config ram_blocks 0 1 257 2 [5; 6; 7; 8].
Proof. split; [done|]. by eexists. Qed.

Lemma ram_tidy : tidy ram_config ram_blocks {[ 257 := ram_file ]}.
Proof.
  split; [apply ram_managed|apply ram_clean| | | |].
  - intros i p Hi Hp. revert i Hi p Hp. apply (ram_cases (fun i => forall p, _ -> _ -> _)); apply (ram_pages (fun p => _ -> _)); intros Hu; try discriminate Hu;
      [exists 257, 1, [1; 2; 3; 4]; apply ram_holds_1|exists 257, 2, [5; 6; 7; 8]; apply ram_holds_2].
  - intros i p o data Hr Hh. destruct (ram_holds i p o 0 data Hr Hh) as (_ & _ & [(_ & H & _)|(_ & H & _)]); discriminate H.
  - intros i Hi _. revert i Hi. apply ram_cases; vm_compute; discriminate.
  - intros i p o c data ob Hr Hh _ Hob _. destruct (ram_holds i p o c data Hr Hh) as (_ & -> & Hc). vm_compute in Hob. injection Hob as <-.
    split; [done|]. unfold data_chunk, YAFFS_MAX_CHUNK_ID. destruct Hc as [(_ & -> & _)|(_ & -> & _)]; lia.
Qed.

Lemma ram_live o ob : live (objects ram_system) o ob -> o = 257 /\ ob = ram_file.
Proof. intros (H & _). cbn in H. apply lookup_singleton_Some in H. intuition. Qed.

Lemma ram_base : base ram_config ram_system.
Proof.
  split.
  - exact ram_tidy.
  - split.
    + exists []. assert (all_nodes (tnodes ram_system) (objects ram_system) = [4096]) as -> by reflexivity.
      assert (geometry 16 65535 0) as Hg by (split; [done..|lia]). split; try done; [|by apply NoDup_singleton].
      intros a Ha. cbn in Ha. apply list_elem_of_singleton in Ha as ->. split; [lia|]. eexists. split; [reflexivity|]. split; [reflexivity|].
      repeat constructor; vm_compute; (discriminate || done).
    + intros o ob Hl. destruct (ram_live o ob Hl) as [-> ->]. split; [unfold YAFFS_TNODES_MAX_LEVEL; cbn; lia|done].
  - intros o ob H. cbn in H. apply lookup_singleton_Some in H as [<- _]. unfold is_u32. lia.
  - split; [exists 2; done|done].
Qed.

Lemma ram_linked : linked ram_config ram_system.
Proof.
  split; [split|].
  - intros i p o ob c data Hr Hh Hl Hc. destruct (ram_live o ob Hl) as [-> ->].
    destruct (ram_holds i p 257 c data Hr Hh) as (-> & _ & [(-> & -> & _)|(-> & -> & _)]); reflexivity.
  - intros i p j q o ob c data data' Hr Hr' Hh Hh' _ _. destruct (ram_holds i p o c data Hr Hh) as (-> & _ & Hc).
    destruct (ram_holds j q o c data' Hr' Hh') as (-> & _ & Hc'). split; [done|].
    destruct Hc as [(-> & -> & _)|(-> & -> & _)], Hc' as [(-> & E & _)|(-> & E & _)]; done.
  - intros o ob c Hl Hc Hm. destruct (ram_live o ob Hl) as [-> ->]. unfold file_map in Hm. change (topLevel (fileVariant ram_file)) with 0 in Hm.
    destruct (Z.ltb_spec (c / 16) (8 ^ 0)) as [Hlt|]; [|done].
    change (8 ^ 0) with 1 in Hlt. pose proof (Z.div_mod c 16 ltac:(lia)). pose proof (Z.mod_pos_bound c 16 ltac:(lia)). unfold data_chunk in Hc.
    assert (c = 1 \/ c = 2 \/ 3 <= c <= 15) as [-> |[-> |Hbig]] by lia.
    + exists 0%nat, 0, [1; 2; 3; 4]. split; [repeat split; vm_compute; (lia || done)|]. apply ram_holds_1.
    + exists 0%nat, 1, [5; 6; 7; 8]. split; [repeat split; vm_compute; (lia || done)|]. apply ram_holds_2.
    + destruct Hm. assert (c = 3 \/ c = 4 \/ c = 5 \/ c = 6 \/ c = 7 \/ c = 8 \/ c = 9 \/ c = 10 \/ c = 11 \/ c = 12 \/ c = 13 \/ c = 14 \/ c = 15) as Hcs by lia.
      destruct_or!; subst; done.
Qed.


Lemma yaffs_WriteNewChunk_safe_witness : exists chunk d',
  yaffs_WriteNewChunkWithTagsToNAND ram_config (write_fuel ram_config) [9; 9; 9; 9] (data_tags 257 1 1 4) false ram_blocks = Some (chunk, d') /\
  managed ram_config d'.
Proof.
  destruct (yaffs_WriteNewChunk_safe ram_config ram_space [9; 9; 9; 9] (data_tags 257 1 1 4) false ram_blocks ram_managed ram_clean eq_refl)
    as (chunk & d' & E & Hm & _). exists chunk, d'. split; [exact E|exact Hm].
Defined.

Lemma ram_write : fst <$> write_chunk_data ram_config 0 (write_fuel ram_config) 257 1 [9; 9; 9; 9] 4 false ram_system = Some 4.
Proof. vm_compute. reflexivity. Qed.
Lemma ram_collect : fst <$> collect_some ram_config 0 (write_fuel ram_config) ram_system = Some (1, (true, [])).
Proof. vm_compute. reflexivity. Qed.


Lemma yaffs_collection_keeps_files_witness : exists s',
  collect_some ram_config 0 (write_fuel ram_config) ram_system = Some ((1, (true, [])), s') /\
  (exists i, 1 = blk ram_config i /\ taken_back ram_config i (blocks s')) /\ reads ram_config s' 257 1 [1; 2; 3; 4] /\ reads ram_config s' 257 2 [5; 6; 7; 8].
Proof.
  assert (live (objects ram_system) 257 ram_file) as Hl by (split; [reflexivity|split; reflexivity]).
  assert (data_chunk 1 /\ data_chunk 2) as [H1 H2] by (unfold data_chunk, YAFFS_MAX_CHUNK_ID; lia).
  destruct (yaffs_collection_keeps_files ram_config ram_space 0 ltac:(unfold is_u32; lia) ram_system ram_base ram_linked)
    as (block & r & s' & E & _ & Htb & Hr).
  pose proof ram_collect as Hw. rewrite E in Hw. injection Hw as -> ->. destruct (Hr eq_refl) as [_ Hrd]. destruct (Htb ltac:(lia)) as [_ Htk].
  exists s'. split; [exact E|]. split; [exact Htk|]. split.
  - exact (Hrd 257 ram_file 1 [1; 2; 3; 4] Hl H1 ltac:(eexists; reflexivity)).
  - exact (Hrd 257 ram_file 2 [5; 6; 7; 8] Hl H2 ltac:(eexists; reflexivity)).
Defined.

(** ** What goes wrong *)

(** Every page of the flash holds a chunk of the file 257. *)
Definition full_system : system :=
  System
    (ram_device {[ 0 := ([1; 2; 3; 4], (257, 1, 0x1001)); 1 := ([5; 6; 7; 8], (257, 2, 0x1001));
                   2 := ([3; 3; 3; 3], (257, 3, 0x1001)); 3 := ([4; 4; 4; 4], (257, 4, 0x1001));
                   4 := ([5; 5; 5; 5], (257, 5, 0x1001)); 5 := ([6; 6; 6; 6], (257, 6, 0x1001));
                   6 := ([7; 7; 7; 7], (257, 7, 0x1001)); 7 := ([8; 8; 8; 8], (257, 8, 0x1001)) ]}
       (replicate 4 YAFFS_BLOCK_STATE_FULL) (replicate 4 (ram_info 2 true)) [3; 3; 3; 3] 0 0)
    (mkDevice 16 65535 0 {[ 4096 := [0x20000; 0x40003; 0x60005; 0x80007; 9; 0; 0; 0] ]} 0 0 1 []) {[ 257 := ram_file ]} false 0.


(** Four erased blocks, but the first page of the second one has been written (the power
    failed before the block was noted); that block has not been checked yet. *)
Definition unclean_blocks : device :=
  ram_device {[ 2 := ([1; 2; 3; 4], (257, 1, 0x1001)) ]} (replicate 4 YAFFS_BLOCK_STATE_EMPTY)
    [ram_info 0 true; ram_info 0 false; ram_info 0 true; ram_info 0 true] [0; 0; 0; 0] 4 8.

