(* ===== verification/HashTable.v ===== *)
(** * The hash table of minzip

    Model of [recovery/minzip/Hash.c] and [Hash.h]: an open-addressing table
    with linear probing and tombstones, which maps the names of a zip archive to
    its entries.

    A [void*] is an integer: 0 is NULL, [HASH_TOMBSTONE] marks a removed slot,
    anything else is a live item.  The entry array has the number of slots that
    [calloc(tableSize, sizeof(HashTable))] really provides on a 32-bit target.
    Loops that probe until they see NULL run on fuel and return [None] when the
    fuel is spent; the theorems show that this never happens on a well-formed
    table. *)

From S2P Require Import Prelude.

Definition HASH_TOMBSTONE : Z := 0xcbcacccd.
Definition LOAD_NUMER : Z := 5.
Definition LOAD_DENOM : Z := 8.

Record HashEntry := mkHashEntry {
  hashValue : Z;
  data : Z
}.

Record HashTable := mkHashTable {
  tableSize : Z;
  numEntries : Z;
  numDeadEntries : Z;
  pEntries : list HashEntry;
  freeFunc : bool  (* is a free function set? *)
}.

(** How a call ends: normally, in a failed [assert], in [abort()], or not
    within the fuel. *)
Inductive result (A : Type) :=
  | Ok (a : A)
  | AssertFailed
  | Aborted
  | OutOfFuel.
Arguments Ok {A} a.
Arguments AssertFailed {A}.
Arguments Aborted {A}.
Arguments OutOfFuel {A}.

Definition null_entry : HashEntry := mkHashEntry 0 0.
Definition entry (es : list HashEntry) (i : Z) : HashEntry :=
  nth (Z.to_nat i) es null_entry.
Definition set_entry (es : list HashEntry) (i : Z) (e : HashEntry) : list HashEntry :=
  <[Z.to_nat i := e]> es.

Definition is_live (e : HashEntry) : bool :=
  negb (data e =? 0) && negb (data e =? HASH_TOMBSTONE).
Definition is_dead (e : HashEntry) : bool := data e =? HASH_TOMBSTONE.

(** [calloc(n, sizeof(HashTable))]: [sizeof(HashTable)] is 20, an entry takes 8
    bytes. *)
Definition calloc_entries (n : Z) : list HashEntry :=
  replicate (Z.to_nat (n * 20 / 8)) null_entry.

Definition mzHashSize (size : Z) : Z := u32 (u32 (size * LOAD_DENOM) / LOAD_NUMER + 1).

Definition roundUpPower2 (val : Z) : Z :=
  let val := u32 (val - 1) in
  let val := Z.lor val (Z.shiftr val 1) in
  let val := Z.lor val (Z.shiftr val 2) in
  let val := Z.lor val (Z.shiftr val 4) in
  let val := Z.lor val (Z.shiftr val 8) in
  let val := Z.lor val (Z.shiftr val 16) in
  u32 (val + 1).

(** [None] is a NULL result; the flags say whether the two allocations succeed. *)
Definition mzHashTableCreate (malloc_ok calloc_ok : bool) (initialSize : Z)
    (freeFunc : bool) : result (option HashTable) :=
  if negb (0 <? initialSize) then AssertFailed
  else if negb malloc_ok then Ok None
  else
    let size := s32 (roundUpPower2 initialSize) in
    if negb calloc_ok then Ok None
    else Ok (Some (mkHashTable size 0 0 (calloc_entries size) freeFunc)).

(** Clears the first [n] slots; returns the pointers given to the free
    function. *)
Fixpoint clear_loop (n : nat) (free : bool) (es : list HashEntry)
    : list HashEntry * list Z :=
  match n, es with
  | O, _ | _, [] => (es, [])
  | S n, e :: es =>
      let '(es', freed) := clear_loop n free es in
      let e' := mkHashEntry (hashValue e) 0 in
      if data e =? HASH_TOMBSTONE then (e' :: es', freed)
      else if negb (data e =? 0) then
        (e' :: es', if free then data e :: freed else freed)
      else (e :: es', freed)
  end.

Definition mzHashTableClear (ht : HashTable) : HashTable * list Z :=
  let '(es, freed) := clear_loop (Z.to_nat (tableSize ht)) (freeFunc ht) (pEntries ht) in
  (mkHashTable (tableSize ht) 0 0 es (freeFunc ht), freed).

(** The items released by [mzHashTableFree]; the table itself is gone. *)
Definition mzHashTableFree (ht : option HashTable) : list Z :=
  match ht with
  | None => []
  | Some ht => (mzHashTableClear ht).2
  end.

Fixpoint countTombStones_loop (n : nat) (es : list HashEntry) (count : Z) : Z :=
  match n, es with
  | O, _ | _, [] => count
  | S n, e :: es =>
      countTombStones_loop n es (if data e =? HASH_TOMBSTONE then count + 1 else count)
  end.

Definition countTombStones (ht : HashTable) : Z :=
  countTombStones_loop (Z.to_nat (tableSize ht)) (pEntries ht) 0.

(** [while (pNewEntries[newIdx].data != NULL) newIdx = (newIdx+1) & (newSize-1)] *)
Fixpoint find_spot (fuel : nat) (es : list HashEntry) (newSize newIdx : Z) : option Z :=
  match fuel with
  | O => None
  | S fuel =>
      if data (entry es newIdx) =? 0 then Some newIdx
      else find_spot fuel es newSize (Z.land (newIdx + 1) (newSize - 1))
  end.

(** The loop of [resizeHash] over the first [n] old slots. *)
Fixpoint rehash_loop (n : nat) (old new : list HashEntry) (newSize : Z)
    : option (list HashEntry) :=
  match n, old with
  | O, _ | _, [] => Some new
  | S n, e :: old =>
      if negb (data e =? 0) && negb (data e =? HASH_TOMBSTONE) then
        let hv := s32 (hashValue e) in
        match find_spot (S (Z.to_nat newSize)) new newSize (Z.land hv (newSize - 1)) with
        | None => None
        | Some newIdx =>
            rehash_loop n old (set_entry new newIdx (mkHashEntry (u32 hv) (data e))) newSize
        end
      else rehash_loop n old new newSize
  end.

Definition resizeHash (calloc_ok : bool) (ht : HashTable) (newSize : Z)
    : result (HashTable * bool) :=
  if negb (countTombStones ht =? numDeadEntries ht) then AssertFailed
  else if negb calloc_ok then Ok (ht, false)
  else
    match rehash_loop (Z.to_nat (tableSize ht)) (pEntries ht)
            (calloc_entries newSize) newSize with
    | None => OutOfFuel
    | Some es =>
        let ht := mkHashTable newSize (numEntries ht) 0 es (freeFunc ht) in
        if negb (countTombStones ht =? 0) then AssertFailed else Ok (ht, true)
    end.

(** The probing loop shared by lookup, remove and [countProbes]: stops at a
    NULL slot or at an entry that [stop] accepts, wrapping at the end of the
    table; returns the index reached and the number of steps counted by
    [countProbes]. *)
Fixpoint probe (fuel : nat) (es : list HashEntry) (size : Z)
    (stop : HashEntry -> bool) (idx count : Z) : option (Z * Z) :=
  match fuel with
  | O => None
  | S fuel =>
      let e := entry es idx in
      if data e =? 0 then Some (idx, count)
      else if stop e then Some (idx, count)
      else if idx + 1 =? size then
        if size =? 1 then Some (idx + 1, count)
        else probe fuel es size stop 0 (count + 1)
      else probe fuel es size stop (idx + 1) (count + 1)
  end.

Definition probe_fuel (ht : HashTable) : nat := S (Z.to_nat (tableSize ht)).
Definition home (ht : HashTable) (itemHash : Z) : Z := Z.land itemHash (tableSize ht - 1).

Section Lookup.
(** [cmpFunc(tableItem, looseItem)], strcmp-like *)
Context (cmpFunc : Z -> Z -> Z).

Definition matches (itemHash item : Z) (e : HashEntry) : bool :=
  negb (data e =? HASH_TOMBSTONE) && (hashValue e =? itemHash) &&
  (cmpFunc (data e) item =? 0).

Definition mzHashTableLookup (calloc_ok : bool) (ht : HashTable)
    (itemHash item : Z) (doAdd : bool) : result (HashTable * Z) :=
  if negb (0 <? tableSize ht) then AssertFailed
  else if item =? HASH_TOMBSTONE then AssertFailed
  else if item =? 0 then AssertFailed
  else
    match probe (probe_fuel ht) (pEntries ht) (tableSize ht)
            (matches itemHash item) (home ht itemHash) 0 with
    | None => OutOfFuel
    | Some (idx, _) =>
        if data (entry (pEntries ht) idx) =? 0 then
          if doAdd then
            let ht := mkHashTable (tableSize ht) (numEntries ht + 1) (numDeadEntries ht)
                        (set_entry (pEntries ht) idx (mkHashEntry itemHash item))
                        (freeFunc ht) in
            let after :=
              if s32 (tableSize ht * LOAD_NUMER) <?
                 s32 ((numEntries ht + numDeadEntries ht) * LOAD_DENOM) then
                match resizeHash calloc_ok ht (s32 (tableSize ht * 2)) with
                | Ok (ht, true) => Ok ht
                | Ok (_, false) => Aborted
                | AssertFailed => AssertFailed
                | Aborted => Aborted
                | OutOfFuel => OutOfFuel
                end
              else Ok ht in
            match after with
            | Ok ht =>
                if negb (numEntries ht <? tableSize ht) then AssertFailed
                else Ok (ht, item)
            | AssertFailed => AssertFailed
            | Aborted => Aborted
            | OutOfFuel => OutOfFuel
            end
          else Ok (ht, 0)
        else Ok (ht, data (entry (pEntries ht) idx))
    end.

(** -1 when the entry is absent. *)
Definition countProbes (ht : HashTable) (itemHash item : Z) : result Z :=
  if negb (0 <? tableSize ht) then AssertFailed
  else if item =? HASH_TOMBSTONE then AssertFailed
  else if item =? 0 then AssertFailed
  else
    match probe (probe_fuel ht) (pEntries ht) (tableSize ht)
            (matches itemHash item) (home ht itemHash) 0 with
    | None => OutOfFuel
    | Some (idx, count) =>
        if data (entry (pEntries ht) idx) =? 0 then Ok (-1) else Ok count
    end.
End Lookup.

Definition mzHashTableRemove (ht : HashTable) (itemHash item : Z)
    : result (HashTable * bool) :=
  if negb (0 <? tableSize ht) then AssertFailed
  else
    match probe (probe_fuel ht) (pEntries ht) (tableSize ht)
            (fun e => data e =? item) (home ht itemHash) 0 with
    | None => OutOfFuel
    | Some (idx, _) =>
        let e := entry (pEntries ht) idx in
        if (data e =? 0) || (idx =? tableSize ht) then Ok (ht, false)
        else
          Ok (mkHashTable (tableSize ht) (numEntries ht - 1) (numDeadEntries ht + 1)
                (set_entry (pEntries ht) idx (mkHashEntry (hashValue e) HASH_TOMBSTONE))
                (freeFunc ht), true)
    end.

(** The callback of [mzHashForeach] threads a state of type [S]. *)
Fixpoint foreach_loop {S} (func : Z -> S -> S * Z) (n : nat) (es : list HashEntry)
    (s : S) : S * Z :=
  match n, es with
  | O, _ | _, [] => (s, 0)
  | Datatypes.S n, e :: es =>
      if negb (data e =? 0) && negb (data e =? HASH_TOMBSTONE) then
        let '(s, val) := func (data e) s in
        if negb (val =? 0) then (s, val) else foreach_loop func n es s
      else foreach_loop func n es s
  end.

Definition mzHashForeach {S} (ht : HashTable) (func : Z -> S -> S * Z) (arg : S) : S * Z :=
  foreach_loop func (Z.to_nat (tableSize ht)) (pEntries ht) arg.

(** Iterators ([Hash.h]): the index of the current live slot. *)
Fixpoint iter_skip (fuel : nat) (es : list HashEntry) (i lim : Z) : Z :=
  match fuel with
  | O => i
  | S fuel =>
      if i <? lim then
        if is_live (entry es i) then i else iter_skip fuel es (i + 1) lim
      else i
  end.

Definition mzHashIterNext (ht : HashTable) (idx : Z) : Z :=
  iter_skip (Z.to_nat (tableSize ht - idx)) (pEntries ht) (idx + 1) (tableSize ht).
Definition mzHashIterBegin (ht : HashTable) : Z := mzHashIterNext ht (-1).
Definition mzHashIterDone (ht : HashTable) (idx : Z) : bool := tableSize ht <=? idx.
Definition mzHashIterData (ht : HashTable) (idx : Z) : Z := data (entry (pEntries ht) idx).

(** [for (Begin; !Done; Next)] collecting the data pointers. *)
Fixpoint iterate (fuel : nat) (ht : HashTable) (idx : Z) : list Z :=
  match fuel with
  | O => []
  | S fuel =>
      if mzHashIterDone ht idx then []
      else mzHashIterData ht idx :: iterate fuel ht (mzHashIterNext ht idx)
  end.

(** ** The invariant *)

(** The used part of the array and the live (hash, item) pairs in it. *)
Definition slots (es : list HashEntry) (n : Z) : list HashEntry := take (Z.to_nat n) es.
Definition live (es : list HashEntry) (n : Z) : list HashEntry :=
  filter (fun e => is_live e = true) (slots es n).
Definition dead (es : list HashEntry) (n : Z) : list HashEntry :=
  filter (fun e => is_dead e = true) (slots es n).

(** Linear probing finds every live entry: all slots from its home slot to the
    one it occupies are in use. *)
Definition chain (es : list HashEntry) (n : Z) : Prop :=
  forall i, 0 <= i < n -> is_live (entry es i) = true ->
  forall j, 0 <= j < (i - Z.land (hashValue (entry es i)) (n - 1)) mod n ->
  data (entry es ((Z.land (hashValue (entry es i)) (n - 1) + j) mod n)) <> 0.

Record array_ok (es : list HashEntry) (n : Z) : Prop := {
  ok_size : exists k, 0 <= k <= 28 /\ n = 2 ^ k;
  ok_length : length es = Z.to_nat (n * 20 / 8);
  ok_tail : forall i, n <= i -> data (entry es i) = 0;
  ok_hash : forall i, 0 <= i < n -> is_live (entry es i) = true ->
            is_u32 (hashValue (entry es i));
  ok_chain : chain es n
}.

(** Invariant of a table between two calls. *)
Record wf (ht : HashTable) : Prop := {
  wf_array : array_ok (pEntries ht) (tableSize ht);
  wf_live : numEntries ht = Z.of_nat (length (live (pEntries ht) (tableSize ht)));
  wf_dead : numDeadEntries ht = Z.of_nat (length (dead (pEntries ht) (tableSize ht)));
  wf_load : (numEntries ht + numDeadEntries ht) * LOAD_DENOM <= tableSize ht * LOAD_NUMER
}.

(** What the table holds, as a bag of (hash, item) pairs. *)
Definition contents (ht : HashTable) : list (Z * Z) :=
  (fun e => (hashValue e, data e)) <$> live (pEntries ht) (tableSize ht).

(** ** Slots *)

Lemma entry_set es i e i' :
  0 <= i < Z.of_nat (length es) -> 0 <= i' ->
  entry (set_entry es i e) i' = if i =? i' then e else entry es i'.
Proof.
  intros Hi Hi'. unfold entry, set_entry.
  rewrite <- !default_lookup_nth || rewrite !nth_lookup.
  destruct (Z.eqb_spec i i') as [<-|].
  - by rewrite list_lookup_insert_eq by lia.
  - by rewrite list_lookup_insert_ne by lia.
Qed.

Lemma entry_lookup es i : 0 <= i < Z.of_nat (length es) ->
  es !! Z.to_nat i = Some (entry es i).
Proof.
  intros Hi. destruct (lookup_lt_is_Some_2 es (Z.to_nat i)) as [e He]; [lia|].
  unfold entry. rewrite nth_lookup, He. done.
Qed.

Lemma array_ok_pos es n : array_ok es n -> 1 <= n /\ n <= 268435456.
Proof.
  intros [(k & Hk & ->) _ _ _ _]. split; [lia|].
  change 268435456 with (2 ^ 28). apply Z.pow_le_mono_r; lia.
Qed.

Lemma array_ok_bound es n : array_ok es n -> n <= Z.of_nat (length es).
Proof.
  intros H. pose proof (array_ok_pos _ _ H). rewrite (ok_length _ _ H).
  pose proof (Z.div_le_lower_bound (n * 20) 8 n). lia.
Qed.

Lemma home_range es n h : array_ok es n -> 0 <= Z.land h (n - 1) < n.
Proof.
  intros H. destruct (ok_size _ _ H) as (k & Hk & ->).
  rewrite land_pow2_mask by lia. apply Z.mod_pos_bound. lia.
Qed.

Lemma slots_lookup es n i : 0 <= i < n -> n <= Z.of_nat (length es) ->
  slots es n !! Z.to_nat i = Some (entry es i).
Proof.
  intros. unfold slots. rewrite lookup_take_lt by lia. apply entry_lookup. lia.
Qed.

Lemma slots_set es n i e : 0 <= i < n ->
  slots (set_entry es i e) n = <[Z.to_nat i := e]> (slots es n).
Proof. intros. unfold slots, set_entry. apply take_insert_lt. lia. Qed.

Lemma is_live_not_dead e : is_live e = true -> is_dead e = false.
Proof. unfold is_live, is_dead. destruct (data e =? HASH_TOMBSTONE); by rewrite ?andb_false_r. Qed.

(** Fewer used slots than slots: some slot is NULL. *)
Lemma exists_null es n :
  0 <= n <= Z.of_nat (length es) ->
  Z.of_nat (length (live es n)) + Z.of_nat (length (dead es n)) < n ->
  exists z, 0 <= z < n /\ data (entry es z) = 0.
Proof.
  intros Hn Hlt.
  assert (forall l : list HashEntry,
    (length (filter (fun e => is_live e = true) l)
     + length (filter (fun e => is_dead e = true) l) < length l)%nat ->
    exists i e, l !! i = Some e /\ data e = 0) as Hgen.
  { clear. induction l as [|e l IH]; simpl; [lia|]. rewrite !filter_cons.
    destruct (decide (data e = 0)) as [H0|H0]; [intros _; by exists 0%nat, e|].
    intros Hlen. destruct IH as (i & e' & Hi & He').
    - revert Hlen. unfold is_live, is_dead.
      destruct (Z.eqb_spec (data e) 0); [done|].
      destruct (Z.eqb_spec (data e) HASH_TOMBSTONE); simpl;
        repeat destruct (decide _); simpl; try done; lia.
    - by exists (S i), e'. }
  destruct (Hgen (slots es n)) as (i & e & Hi & He).
  { unfold live, dead in Hlt. unfold slots at 3. rewrite length_take. lia. }
  pose proof (lookup_lt_Some _ _ _ Hi) as Hlt'. unfold slots in Hlt'.
  rewrite length_take in Hlt'.
  exists (Z.of_nat i). split; [lia|].
  pose proof (slots_lookup es n (Z.of_nat i) ltac:(lia) ltac:(lia)) as Hs.
  rewrite Nat2Z.id in Hs. congruence.
Qed.

(** ** Probing *)

(** From [idx], with a NULL slot somewhere, the loop stops at the first slot in
    cyclic order that is NULL or accepted. *)
Lemma probe_correct es n stop fuel idx c z :
  0 <= idx < n -> 0 <= z < n -> data (entry es z) = 0 ->
  (z - idx) mod n < Z.of_nat fuel ->
  exists j, 0 <= j <= (z - idx) mod n /\
    probe fuel es n stop idx c = Some ((idx + j) mod n, c + j) /\
    (forall j', 0 <= j' < j -> data (entry es ((idx + j') mod n)) <> 0 /\
                               stop (entry es ((idx + j') mod n)) = false) /\
    (data (entry es ((idx + j) mod n)) = 0 \/
     data (entry es ((idx + j) mod n)) <> 0 /\ stop (entry es ((idx + j) mod n)) = true).
Proof.
  intros Hidx Hz Hnull. revert idx c Hidx.
  induction fuel as [|fuel IH]; intros idx c Hidx Hfuel.
  { pose proof (Z.mod_pos_bound (z - idx) n). lia. }
  pose proof (Z.mod_pos_bound (z - idx) n ltac:(lia)) as Hmod.
  simpl. destruct (Z.eqb_spec (data (entry es idx)) 0) as [H0|H0].
  { exists 0. rewrite !Z.add_0_r, (Z.mod_small idx n) by lia. repeat split; auto; lia. }
  destruct (stop (entry es idx)) eqn:Hstop.
  { exists 0. rewrite !Z.add_0_r, (Z.mod_small idx n) by lia. repeat split; auto; lia. }
  assert (z <> idx) by congruence.
  assert ((z - (idx + 1) mod n) mod n = (z - idx) mod n - 1) as Hdist.
  { rewrite (mod_sub_cases idx z), (mod_sub_cases ((idx + 1) mod n) z)
      by (try apply Z.mod_pos_bound; lia).
    rewrite mod_add_cases by lia.
    zcases; lia. }
  destruct (IH ((idx + 1) mod n) (c + 1)) as (j & Hj & Hprobe & Hbefore & Hend);
    [apply Z.mod_pos_bound; lia | lia |].
  exists (j + 1).
  assert (forall x, ((idx + 1) mod n + x) mod n = (idx + (x + 1)) mod n) as Hshift.
  { intros x. rewrite Z.add_mod_idemp_l by lia. f_equal. lia. }
  rewrite !Hshift in *.
  split; [lia|]. split; [|split; [|done]].
  - replace (c + (j + 1)) with (c + 1 + j) by lia. rewrite <- Hprobe.
    rewrite mod_add_cases by lia.
    destruct (Z.eqb_spec (idx + 1) n) as [He|He], (Z.ltb_spec (idx + 1) n); try lia.
    + destruct (Z.eqb_spec n 1); [lia|]. f_equal; lia.
    + done.
  - intros j' Hj'. destruct (decide (j' = 0)) as [->|].
    + rewrite Z.add_0_r, (Z.mod_small idx n) by lia. done.
    + specialize (Hbefore (j' - 1) ltac:(lia)). rewrite Hshift in Hbefore.
      replace (j' - 1 + 1) with j' in Hbefore by lia. done.
Qed.

Lemma find_spot_probe fuel es k idx c :
  1 <= k -> 0 <= idx < 2 ^ k ->
  find_spot fuel es (2 ^ k) idx =
  fst <$> probe fuel es (2 ^ k) (fun _ => false) idx c.
Proof.
  intros Hk. revert idx c. induction fuel as [|fuel IH]; intros idx c Hidx; [done|].
  assert (2 <= 2 ^ k) by (change 2 with (2 ^ 1) at 1; apply Z.pow_le_mono_r; lia).
  simpl. destruct (data (entry es idx) =? 0); [done|].
  rewrite land_pow2_mask, mod_add_cases by lia.
  destruct (Z.eqb_spec (idx + 1) (2 ^ k)) as [He|He], (Z.ltb_spec (idx + 1) (2 ^ k));
    try lia.
  - destruct (Z.eqb_spec (2 ^ k) 1); [lia|].
    rewrite He, Z.sub_diag. apply IH. lia.
  - apply IH. lia.
Qed.

(** ** Filling and killing slots *)

Definition live_entry (h d : Z) : Prop := is_u32 h /\ d <> 0 /\ d <> HASH_TOMBSTONE.

Lemma live_entry_is_live h d : live_entry h d -> is_live (mkHashEntry h d) = true.
Proof. intros (_ & H1 & H2). unfold is_live; simpl. lia. Qed.

Lemma null_not_live e : data e = 0 -> is_live e = false /\ is_dead e = false.
Proof. unfold is_live, is_dead. by intros ->. Qed.

Lemma slots_set_perm es n i e (P : HashEntry -> bool) :
  0 <= i < n -> n <= Z.of_nat (length es) ->
  filter (fun e => P e = true) (slots (set_entry es i e) n)
    ++ filter (fun e => P e = true) [entry es i] ≡ₚ
  filter (fun e => P e = true) (slots es n) ++ filter (fun e => P e = true) [e].
Proof.
  intros. rewrite slots_set by done. apply filter_insert_perm. by apply slots_lookup.
Qed.

Lemma filter_one_true (P : HashEntry -> bool) e :
  P e = true -> filter (fun e => P e = true) [e] = [e].
Proof. intros. rewrite filter_cons_True; done. Qed.

Lemma filter_one_false (P : HashEntry -> bool) e :
  P e = false -> filter (fun e => P e = true) [e] = [].
Proof. intros. rewrite filter_cons_False; [done|congruence]. Qed.

(** Storing a live entry in a NULL slot reached by probing from its home. *)
Lemma fill_slot es n h d j :
  array_ok es n -> live_entry h d ->
  let i := (Z.land h (n - 1) + j) mod n in
  0 <= j < n -> data (entry es i) = 0 ->
  (forall j', 0 <= j' < j -> data (entry es ((Z.land h (n - 1) + j') mod n)) <> 0) ->
  let es' := set_entry es i (mkHashEntry h d) in
  array_ok es' n /\ live es' n ≡ₚ mkHashEntry h d :: live es n /\
  dead es' n ≡ₚ dead es n.
Proof.
  intros Hok Hlive i Hj Hnull Hbefore es'.
  pose proof (array_ok_bound _ _ Hok) as Hbound.
  pose proof (array_ok_pos _ _ Hok) as Hpos.
  assert (0 <= i < n) as Hi by (apply Z.mod_pos_bound; lia).
  pose proof (live_entry_is_live _ _ Hlive) as Hl.
  destruct (null_not_live _ Hnull) as [Hnl Hnd].
  assert (forall i', 0 <= i' -> entry es' i' =
    if i =? i' then mkHashEntry h d else entry es i') as Hget
    by (intros; apply entry_set; lia).
  assert (forall i', 0 <= i' -> data (entry es i') <> 0 -> data (entry es' i') <> 0)
    as Hkeep.
  { intros i' Hi' Hd. rewrite Hget by done.
    destruct (i =? i'); [apply Hlive | done]. }
  split; [constructor|split].
  - apply Hok.
  - unfold es', set_entry. rewrite length_insert. apply Hok.
  - intros i' Hi'. rewrite Hget by lia. destruct (Z.eqb_spec i i'); [lia|].
    by apply (ok_tail _ _ Hok).
  - intros i' Hi'. rewrite Hget by lia. destruct (Z.eqb_spec i i').
    + intros _. apply Hlive.
    + by apply (ok_hash _ _ Hok).
  - intros i' Hi'. rewrite Hget by lia. destruct (Z.eqb_spec i i') as [<-|].
    + simpl. intros _ j' Hj'. apply Hkeep; [apply Z.mod_pos_bound; lia|].
      apply Hbefore. unfold i in Hj'. pose proof (home_range _ _ h Hok).
      rewrite Zminus_mod_idemp_l in Hj'.
      replace (Z.land h (n - 1) + j - Z.land h (n - 1)) with j in Hj' by lia.
      rewrite Z.mod_small in Hj'; lia.
    + intros Hl' j' Hj'. apply Hkeep; [apply Z.mod_pos_bound; lia|].
      by apply (ok_chain _ _ Hok).
  - pose proof (slots_set_perm es n i (mkHashEntry h d) is_live Hi Hbound) as Hp.
    rewrite (filter_one_true is_live (mkHashEntry h d)),
      (filter_one_false is_live (entry es i)), app_nil_r in Hp by done.
    unfold live, es'. rewrite Hp. symmetry. apply Permutation_cons_append.
  - pose proof (slots_set_perm es n i (mkHashEntry h d) is_dead Hi Hbound) as Hp.
    rewrite !filter_one_false, !app_nil_r in Hp by auto using is_live_not_dead.
    done.
Qed.

(** Turning a live slot into a tombstone. *)
Lemma kill_slot es n i :
  array_ok es n -> 0 <= i < n -> is_live (entry es i) = true ->
  let es' := set_entry es i (mkHashEntry (hashValue (entry es i)) HASH_TOMBSTONE) in
  array_ok es' n /\ live es n ≡ₚ entry es i :: live es' n /\
  dead es' n ≡ₚ mkHashEntry (hashValue (entry es i)) HASH_TOMBSTONE :: dead es n.
Proof.
  intros Hok Hi Hl es'. set (t := mkHashEntry _ HASH_TOMBSTONE) in es'.
  pose proof (array_ok_bound _ _ Hok) as Hbound.
  assert (is_live t = false /\ is_dead t = true) as [Hnl Htd] by (split; reflexivity).
  assert (forall i', 0 <= i' -> entry es' i' = if i =? i' then t else entry es i') as Hget
    by (intros; apply entry_set; lia).
  split; [constructor|split].
  - apply Hok.
  - unfold es', set_entry. rewrite length_insert. apply Hok.
  - intros i' Hi'. rewrite Hget by lia. destruct (Z.eqb_spec i i'); [lia|].
    by apply (ok_tail _ _ Hok).
  - intros i' Hi'. rewrite Hget by lia. destruct (Z.eqb_spec i i'); [done|].
    by apply (ok_hash _ _ Hok).
  - intros i' Hi'. rewrite (Hget i') by lia. destruct (Z.eqb_spec i i'); [done|].
    intros Hl' j' Hj'. rewrite Hget by (apply Z.mod_pos_bound; lia).
    destruct (i =? _); [done | by apply (ok_chain _ _ Hok)].
  - pose proof (slots_set_perm es n i t is_live Hi Hbound) as Hp.
    rewrite (filter_one_true is_live (entry es i)), (filter_one_false is_live t),
      app_nil_r in Hp by done.
    unfold live, es'. rewrite <- Hp. symmetry. apply Permutation_cons_append.
  - pose proof (slots_set_perm es n i t is_dead Hi Hbound) as Hp.
    rewrite (filter_one_true is_dead t), (filter_one_false is_dead (entry es i)),
      app_nil_r in Hp by auto using is_live_not_dead.
    unfold dead, es'. rewrite Hp. symmetry. apply Permutation_cons_append.
Qed.

(** ** Resizing *)

Lemma entry_calloc n i : entry (calloc_entries n) i = null_entry.
Proof.
  unfold entry, calloc_entries. rewrite nth_lookup.
  destruct (decide (Z.to_nat i < Z.to_nat (n * 20 / 8))%nat).
  - by rewrite lookup_replicate_2.
  - by rewrite lookup_ge_None_2 by (rewrite length_replicate; lia).
Qed.

Lemma array_ok_calloc k : 0 <= k <= 28 -> array_ok (calloc_entries (2 ^ k)) (2 ^ k).
Proof.
  intros Hk. constructor.
  - by exists k.
  - unfold calloc_entries. by rewrite length_replicate.
  - intros i _. by rewrite entry_calloc.
  - intros i _. by rewrite entry_calloc.
  - intros i _. by rewrite entry_calloc.
Qed.

Lemma filter_replicate_false (P : HashEntry -> bool) m e :
  P e = false -> filter (fun e => P e = true) (replicate m e) = [].
Proof.
  intros H. induction m; [done|]. simpl. rewrite filter_cons_False; congruence.
Qed.

Lemma live_calloc n : live (calloc_entries n) n = [].
Proof.
  unfold live, slots, calloc_entries. rewrite take_replicate. by apply filter_replicate_false.
Qed.

Lemma dead_calloc n : dead (calloc_entries n) n = [].
Proof.
  unfold dead, slots, calloc_entries. rewrite take_replicate. by apply filter_replicate_false.
Qed.

Lemma s32_land h k : 0 <= k <= 28 -> Z.land (s32 h) (2 ^ k - 1) = Z.land h (2 ^ k - 1).
Proof.
  intros Hk. rewrite !land_pow2_mask by lia.
  assert (4294967296 = 2 ^ k * 2 ^ (32 - k)) as E.
  { rewrite <- Z.pow_add_r by lia. by replace (k + (32 - k)) with 32 by lia. }
  assert (0 < 2 ^ k /\ 0 < 2 ^ (32 - k)) as [Hp1 Hp2] by lia.
  pose proof (s32_mod h) as Hm. rewrite E, !Z.rem_mul_r in Hm by lia.
  pose proof (Z.mod_pos_bound (s32 h) (2 ^ k) Hp1).
  pose proof (Z.mod_pos_bound h (2 ^ k) Hp1).
  apply (f_equal (fun z => z mod 2 ^ k)) in Hm.
  rewrite !(Z.mul_comm (2 ^ k)), !Z_mod_plus_full, !Z.mod_mod in Hm by lia. done.
Qed.

Lemma rehash_loop_ok k m old new :
  1 <= k <= 28 -> array_ok new (2 ^ k) -> dead new (2 ^ k) = [] ->
  (forall i e, old !! i = Some e -> (i < m)%nat -> is_live e = true -> is_u32 (hashValue e)) ->
  Z.of_nat (length (live new (2 ^ k))) +
  Z.of_nat (length (filter (fun e => is_live e = true) (take m old))) < 2 ^ k ->
  exists new', rehash_loop m old new (2 ^ k) = Some new' /\
    array_ok new' (2 ^ k) /\ dead new' (2 ^ k) = [] /\
    live new' (2 ^ k) ≡ₚ filter (fun e => is_live e = true) (take m old) ++ live new (2 ^ k).
Proof.
  intros Hk. revert old new. induction m as [|m IH]; intros old new Hok Hdead Hh Hlen.
  { exists new. by destruct old. }
  destruct old as [|e old]; [by exists new|]. cbn [rehash_loop take] in Hlen |- *.
  fold (is_live e). rewrite filter_cons in Hlen |- *.
  assert (forall i e, old !! i = Some e -> (i < m)%nat -> is_live e = true ->
    is_u32 (hashValue e)) as Hh'.
  { intros i e' Hi Hlt. apply (Hh (S i)); [done|lia]. }
  destruct (is_live e) eqn:El.
  2: { destruct (decide (false = true)); [done|]. by apply IH. }
  destruct (decide (true = true)); [|done]. simpl in Hlen.
  assert (live_entry (hashValue e) (data e)) as Hle.
  { unfold is_live in El. split; [apply (Hh 0%nat); [done|lia|done] | lia]. }
  destruct (exists_null new (2 ^ k)) as (z & Hz & Hnull).
  { pose proof (array_ok_bound _ _ Hok). lia. }
  { rewrite Hdead. simpl. lia. }
  rewrite s32_land by lia.
  pose proof (home_range _ _ (hashValue e) Hok) as Hhome.
  rewrite (find_spot_probe _ _ k _ 0) by lia.
  destruct (probe_correct new (2 ^ k) (fun _ => false) (S (Z.to_nat (2 ^ k)))
    (Z.land (hashValue e) (2 ^ k - 1)) 0 z Hhome Hz Hnull)
    as (j & Hj & -> & Hbefore & Hend).
  { pose proof (Z.mod_pos_bound (z - Z.land (hashValue e) (2 ^ k - 1)) (2 ^ k)). lia. }
  destruct Hend as [Hend|[_ Hend]]; [|done]. cbn [fmap option_fmap option_map fst].
  pose proof (Z.mod_pos_bound (z - Z.land (hashValue e) (2 ^ k - 1)) (2 ^ k) ltac:(lia)).
  destruct (fill_slot new (2 ^ k) (hashValue e) (data e) j Hok Hle ltac:(lia) Hend
    (fun j' Hj' => proj1 (Hbefore j' Hj'))) as (Hok' & Hlive' & Hdead').
  assert (u32 (s32 (hashValue e)) = hashValue e) as Hhv.
  { unfold u32. rewrite s32_mod. apply u32_id, Hle. }
  rewrite Hhv. rewrite Hdead in Hdead'. symmetry in Hdead'. apply Permutation_nil in Hdead'.
  destruct (IH old _ Hok' Hdead' Hh') as (new' & Hnew & ? & ? & Hperm).
  { rewrite Hlive'. simpl. lia. }
  exists new'. rewrite Hnew. do 3 (split; [done|]).
  rewrite Hperm, Hlive'. destruct e; simpl. by rewrite Permutation_middle.
Qed.

Lemma countTombStones_loop_spec n es c :
  countTombStones_loop n es c =
  c + Z.of_nat (length (filter (fun e => is_dead e = true) (take n es))).
Proof.
  revert es c. induction n as [|n IH]; intros [|e es] c; simpl; try lia.
  rewrite IH, filter_cons. fold (is_dead e).
  destruct (is_dead e) eqn:E, (decide (is_dead e = true)); simpl; (congruence || lia).
Qed.

Lemma countTombStones_dead ht :
  countTombStones ht = Z.of_nat (length (dead (pEntries ht) (tableSize ht))).
Proof. unfold countTombStones. rewrite countTombStones_loop_spec. done. Qed.

(** A resize to twice the size keeps the live entries and drops the
    tombstones. *)
Lemma resizeHash_ok ht k :
  tableSize ht = 2 ^ k -> 0 <= k < 28 -> array_ok (pEntries ht) (tableSize ht) ->
  numDeadEntries ht = Z.of_nat (length (dead (pEntries ht) (tableSize ht))) ->
  Z.of_nat (length (live (pEntries ht) (tableSize ht))) < 2 ^ (k + 1) ->
  exists ht', resizeHash true ht (2 ^ (k + 1)) = Ok (ht', true) /\
    array_ok (pEntries ht') (tableSize ht') /\ tableSize ht' = 2 ^ (k + 1) /\
    numEntries ht' = numEntries ht /\ numDeadEntries ht' = 0 /\
    dead (pEntries ht') (tableSize ht') = [] /\
    live (pEntries ht') (tableSize ht') ≡ₚ live (pEntries ht) (tableSize ht).
Proof.
  intros Hsz Hk Hok Hdead Hlive. unfold resizeHash.
  rewrite countTombStones_dead, <- Hdead, Z.eqb_refl. cbn [negb].
  destruct (rehash_loop_ok (k + 1) (Z.to_nat (tableSize ht)) (pEntries ht)
    (calloc_entries (2 ^ (k + 1)))) as (new & -> & Hok' & Hdead' & Hperm).
  - lia.
  - apply array_ok_calloc. lia.
  - apply dead_calloc.
  - intros i e Hi Hlt Hl. pose proof (array_ok_bound _ _ Hok).
    pose proof (entry_lookup (pEntries ht) (Z.of_nat i) ltac:(lia)) as He.
    rewrite Nat2Z.id, Hi in He. injection He as ->.
    apply (ok_hash _ _ Hok); [lia|done].
  - rewrite live_calloc. simpl. done.
  - rewrite live_calloc, app_nil_r in Hperm.
    eexists. rewrite countTombStones_dead. cbn [pEntries tableSize].
    rewrite Hdead'. cbn [length Z.of_nat Z.eqb negb]. split; [reflexivity|].
    do 4 (split; [done|]). by split.
Qed.

Lemma contents_spec ht h d : array_ok (pEntries ht) (tableSize ht) ->
  (h, d) ∈ contents ht <->
  exists i, 0 <= i < tableSize ht /\ is_live (entry (pEntries ht) i) = true /\
            entry (pEntries ht) i = mkHashEntry h d.
Proof.
  intros Hok. pose proof (array_ok_bound _ _ Hok). pose proof (array_ok_pos _ _ Hok).
  unfold contents. rewrite list_elem_of_fmap. split.
  - intros ([h' d'] & [= -> ->] & He). unfold live in He.
    apply list_elem_of_filter in He as [Hl He].
    apply list_elem_of_lookup in He as [i Hi].
    pose proof (lookup_lt_Some _ _ _ Hi) as Hlt. unfold slots in Hlt.
    rewrite length_take in Hlt.
    pose proof (slots_lookup (pEntries ht) (tableSize ht) (Z.of_nat i)
      ltac:(lia) ltac:(lia)) as Hs.
    rewrite Nat2Z.id, Hi in Hs. injection Hs as Hs.
    exists (Z.of_nat i). rewrite <- Hs. split; [lia|done].
  - intros (i & Hi & Hl & He). exists (mkHashEntry h d). split; [done|].
    unfold live. apply list_elem_of_filter. rewrite <- He. split; [done|].
    apply list_elem_of_lookup. exists (Z.to_nat i). by apply slots_lookup.
Qed.

(** Probing from the home slot of [itemHash]: either some slot is accepted, or
    the probe ends at the first NULL slot and no live entry with that hash is
    accepted. *)
Lemma probe_home ht stop itemHash :
  wf ht ->
  (forall e, stop e = true -> data e <> 0) ->
  exists j, let i := (home ht itemHash + j) mod tableSize ht in
  0 <= j < tableSize ht /\ 0 <= i < tableSize ht /\
  probe (probe_fuel ht) (pEntries ht) (tableSize ht) stop (home ht itemHash) 0
    = Some (i, j) /\
  (forall j', 0 <= j' < j ->
     data (entry (pEntries ht) ((home ht itemHash + j') mod tableSize ht)) <> 0) /\
  ((stop (entry (pEntries ht) i) = true /\ data (entry (pEntries ht) i) <> 0) \/
   (data (entry (pEntries ht) i) = 0 /\
    forall d, (itemHash, d) ∈ contents ht -> stop (mkHashEntry itemHash d) = false)).
Proof.
  intros Hwf Hstop. pose proof (wf_array _ Hwf) as Hok.
  pose proof (array_ok_bound _ _ Hok) as Hb. pose proof (array_ok_pos _ _ Hok) as Hpos.
  pose proof (home_range _ _ itemHash Hok) as Hhome. fold (home ht itemHash) in Hhome.
  destruct (exists_null (pEntries ht) (tableSize ht)) as (z & Hz & Hnull); [lia| |].
  { rewrite <- (wf_live _ Hwf), <- (wf_dead _ Hwf).
    pose proof (wf_load _ Hwf). unfold LOAD_DENOM, LOAD_NUMER in *. lia. }
  pose proof (Z.mod_pos_bound (z - home ht itemHash) (tableSize ht) ltac:(lia)) as Hd.
  destruct (probe_correct (pEntries ht) (tableSize ht) stop (probe_fuel ht)
    (home ht itemHash) 0 z Hhome Hz Hnull) as (j & Hj & Hp & Hbefore & Hend).
  { unfold probe_fuel. lia. }
  exists j. cbv zeta. split; [lia|]. split; [apply Z.mod_pos_bound; lia|].
  split; [done|]. split; [intros; by apply Hbefore|].
  destruct Hend as [H0|[? ?]]; [right|by left]. split; [done|].
  intros d Hin. apply contents_spec in Hin as (i & Hi & Hl & He); [|done].
  set (j0 := (i - home ht itemHash) mod tableSize ht).
  assert ((home ht itemHash + j0) mod tableSize ht = i) as Hj0.
  { unfold j0. rewrite Z.add_mod_idemp_r by lia.
    replace (home ht itemHash + (i - home ht itemHash)) with i by lia.
    apply Z.mod_small. lia. }
  pose proof (Z.mod_pos_bound (i - home ht itemHash) (tableSize ht) ltac:(lia)) as Hj0r.
  fold j0 in Hj0r.
  destruct (Z.lt_trichotomy j j0) as [Hlt|[Heq|Hgt]].
  - exfalso. apply (ok_chain _ _ Hok i Hi Hl j); rewrite He; simpl; [|done].
    fold (home ht itemHash). fold j0. lia.
  - exfalso. rewrite Heq, Hj0, He in H0. simpl in H0. rewrite He in Hl.
    unfold is_live in Hl. simpl in Hl. rewrite H0 in Hl. done.
  - destruct (Hbefore j0 ltac:(lia)) as [_ Hs]. by rewrite Hj0, He in Hs.
Qed.

(** ** The operations *)

Lemma probe_nonnull fuel es n stop i c :
  probe fuel es n (fun e => negb (data e =? 0) && stop e) i c =
  probe fuel es n stop i c.
Proof.
  revert i c. induction fuel as [|fuel IH]; intros i c; simpl; [done|].
  destruct (data (entry es i) =? 0); [done|]. simpl.
  destruct (stop (entry es i)); [done|].
  destruct (_ =? _); [destruct (_ =? _); [done|]|]; apply IH.
Qed.

(** The table after a new entry went into its slot, possibly resized. *)
Lemma grow_ok ht calloc_ok :
  array_ok (pEntries ht) (tableSize ht) -> tableSize ht < 268435456 ->
  numEntries ht = Z.of_nat (length (live (pEntries ht) (tableSize ht))) ->
  numDeadEntries ht = Z.of_nat (length (dead (pEntries ht) (tableSize ht))) ->
  (numEntries ht - 1 + numDeadEntries ht) * LOAD_DENOM <= tableSize ht * LOAD_NUMER ->
  match (if s32 (tableSize ht * LOAD_NUMER) <?
            s32 ((numEntries ht + numDeadEntries ht) * LOAD_DENOM) then
           match resizeHash calloc_ok ht (s32 (tableSize ht * 2)) with
           | Ok (ht, true) => Ok ht
           | Ok (_, false) => Aborted
           | AssertFailed => AssertFailed
           | Aborted => Aborted
           | OutOfFuel => OutOfFuel
           end
         else Ok ht) with
  | Ok ht' => wf ht' /\ contents ht' ≡ₚ contents ht
  | Aborted => calloc_ok = false
  | _ => False
  end.
Proof.
  intros Hok Hsz Hlive Hdead Hload. unfold LOAD_DENOM, LOAD_NUMER in *.
  pose proof (array_ok_pos _ _ Hok) as Hpos.
  rewrite !s32_id by (unfold is_s32; lia).
  destruct (Z.ltb_spec (tableSize ht * 5) ((numEntries ht + numDeadEntries ht) * 8)).
  2: { split; [|done]. by constructor. }
  destruct (ok_size _ _ Hok) as (k & Hk & Hsize).
  assert (k < 28) as Hk28.
  { apply (Z.pow_lt_mono_r_iff 2); [lia|lia|]. rewrite <- Hsize. done. }
  assert (tableSize ht * 2 = 2 ^ (k + 1)) as ->
    by (rewrite Hsize, Z.pow_add_r by lia; lia).
  destruct calloc_ok.
  2: { unfold resizeHash. rewrite countTombStones_dead, <- Hdead, Z.eqb_refl. done. }
  assert (2 ^ (k + 1) = 2 * tableSize ht) as Hdbl
    by (rewrite Hsize, Z.pow_add_r by lia; lia).
  destruct (resizeHash_ok ht k Hsize ltac:(lia) Hok Hdead) as
    (ht' & -> & Hok' & Hsz' & Hn' & Hd' & Hdead' & Hlive'); [lia|].
  split; [|unfold contents; by rewrite Hlive'].
  constructor; [done | | |].
  - by rewrite Hn', Hlive', Hlive.
  - by rewrite Hd', Hdead'.
  - rewrite Hn', Hd', Hsz', Hdbl. unfold LOAD_DENOM, LOAD_NUMER.
    assert (k = 0 \/ 1 <= k) as [->|] by lia; [lia|].
    assert (2 <= tableSize ht); [|lia].
    rewrite Hsize. change 2 with (2 ^ 1) at 1. apply Z.pow_le_mono_r; lia.
Qed.

Lemma lookup_ok (cmpFunc : Z -> Z -> Z) (calloc_ok doAdd : bool)
  (ht : HashTable) (itemHash item : Z)
  (Hwf : wf ht) (Hhash : is_u32 itemHash)
  (Hnull : item <> 0) (Htomb : item <> HASH_TOMBSTONE)
  (Hcap : doAdd = true -> tableSize ht < 268435456) :
  match mzHashTableLookup cmpFunc calloc_ok ht itemHash item doAdd with
  | Ok (ht', r) => wf ht' /\
      ((exists d, (itemHash, d) ∈ contents ht /\ cmpFunc d item = 0 /\
                  r = d /\ ht' = ht) \/
       ((forall d, (itemHash, d) ∈ contents ht -> cmpFunc d item <> 0) /\
        if doAdd then r = item /\ contents ht' ≡ₚ (itemHash, item) :: contents ht
        else r = 0 /\ ht' = ht))
  | Aborted => doAdd = true /\ calloc_ok = false
  | AssertFailed | OutOfFuel => False
  end.
Proof.
  pose proof (wf_array _ Hwf) as Hok. pose proof (array_ok_pos _ _ Hok) as Hpos.
  unfold mzHashTableLookup.
  destruct (Z.ltb_spec 0 (tableSize ht)); [cbn [negb]|lia].
  destruct (Z.eqb_spec item HASH_TOMBSTONE); [done|].
  destruct (Z.eqb_spec item 0); [done|].
  destruct (probe_home ht (fun e => negb (data e =? 0) && matches cmpFunc itemHash item e)
    itemHash Hwf) as (j & Hj & Hi & Hp & Hbefore & Hend); [intros; lia|].
  set (i := (home ht itemHash + j) mod tableSize ht) in *.
  assert (probe (probe_fuel ht) (pEntries ht) (tableSize ht)
    (matches cmpFunc itemHash item) (home ht itemHash) 0 = Some (i, j)) as ->.
  { by rewrite <- Hp, probe_nonnull. }
  destruct Hend as [[Hm Hne]|[H0 Hnone]].
  - destruct (Z.eqb_spec (data (entry (pEntries ht) i)) 0); [done|]. split; [done|].
    left. unfold matches in Hm. exists (data (entry (pEntries ht) i)).
    split; [|split; [lia|done]].
    apply contents_spec; [done|]. exists i. split; [done|].
    split; [unfold is_live; lia|].
    destruct (entry (pEntries ht) i) as [h d]. simpl in *. f_equal. lia.
  - rewrite H0. cbn [Z.eqb]. assert (forall d, (itemHash, d) ∈ contents ht ->
      cmpFunc d item <> 0) as Habs.
    { intros d Hd Hc. pose proof (Hnone d Hd) as Hn. unfold matches in Hn. simpl in Hn.
      apply contents_spec in Hd as (i' & _ & Hl & He); [|done].
      rewrite He in Hl. unfold is_live in Hl. simpl in Hl. lia. }
    destruct doAdd; [|by split; [|right]].
    destruct (fill_slot (pEntries ht) (tableSize ht) itemHash item j Hok)
      as (Hok' & Hlive' & Hdead'); [by split | done | done | done |].
    fold (home ht itemHash) in Hok', Hlive', Hdead'. fold i in Hok', Hlive', Hdead'.
    set (ht1 := mkHashTable (tableSize ht) (numEntries ht + 1) (numDeadEntries ht)
                  (set_entry (pEntries ht) i (mkHashEntry itemHash item)) (freeFunc ht)).
    assert (numEntries ht1 = Z.of_nat (length (live (pEntries ht1) (tableSize ht1)))) as Hn1.
    { unfold ht1; cbn -[live]. rewrite Hlive', (wf_live _ Hwf). simpl. lia. }
    assert (numDeadEntries ht1 = Z.of_nat (length (dead (pEntries ht1) (tableSize ht1))))
      as Hd1 by (unfold ht1; cbn -[dead]; rewrite Hdead'; apply Hwf).
    assert (contents ht1 ≡ₚ (itemHash, item) :: contents ht) as Hc1
      by (unfold contents, ht1; cbn -[live]; by rewrite Hlive').
    pose proof (grow_ok ht1 calloc_ok Hok' (Hcap eq_refl) Hn1 Hd1) as Hgrow.
    destruct (if _ <? _ then _ else _) as [ht2| | |];
      (lapply Hgrow; [clear Hgrow; intros Hgrow|
        unfold ht1; simpl; pose proof (wf_load _ Hwf); lia]); try done.
    destruct Hgrow as [Hwf2 Hc2].
    pose proof (array_ok_pos _ _ (wf_array _ Hwf2)). pose proof (wf_load _ Hwf2) as Hl2.
    unfold LOAD_NUMER, LOAD_DENOM in Hl2. pose proof (wf_dead _ Hwf2).
    destruct (Z.ltb_spec (numEntries ht2) (tableSize ht2)); [|lia]. simpl.
    split; [done|]. right. split; [done|]. split; [done|]. by rewrite Hc2.
Qed.

(** With room for one more entry the table is not enlarged, and no allocation is made. *)
Lemma lookup_room (cmpFunc : Z -> Z -> Z) (calloc_ok : bool) (ht : HashTable) (itemHash item : Z) :
  wf ht -> (numEntries ht + 1 + numDeadEntries ht) * 8 <= tableSize ht * 5 ->
  mzHashTableLookup cmpFunc calloc_ok ht itemHash item true
  = mzHashTableLookup cmpFunc true ht itemHash item true /\
  forall ht' r, mzHashTableLookup cmpFunc calloc_ok ht itemHash item true = Ok (ht', r) ->
    tableSize ht' = tableSize ht /\ numDeadEntries ht' = numDeadEntries ht /\
    numEntries ht' <= numEntries ht + 1.
Proof.
  intros Hwf Hroom. pose proof (array_ok_pos _ _ (wf_array _ Hwf)) as Hpos.
  pose proof (wf_live _ Hwf). pose proof (wf_dead _ Hwf).
  unfold mzHashTableLookup. destruct (negb _); [done|]. destruct (item =? _); [done|].
  destruct (item =? _); [done|]. destruct (probe _ _ _ _ _ _) as [[idx c]|]; [|done].
  destruct (data _ =? 0).
  - cbn [tableSize numEntries numDeadEntries]. unfold LOAD_NUMER, LOAD_DENOM.
    rewrite !s32_id by (unfold is_s32; lia). destruct (Z.ltb_spec (tableSize ht * 5)
      ((numEntries ht + 1 + numDeadEntries ht) * 8)); [lia|].
    split; [done|]. intros ht' r. destruct (negb _); [done|]. intros [= <- <-]. cbn. lia.
  - split; [done|]. intros ht' r [= <- <-]. lia.
Qed.

(** [mzHashTableLookup] refines lookup in a bag of (hash, item) pairs.  On
    a well-formed table it terminates, no assertion fails, and the result table
    is well formed.  If an entry with the hash compares equal, such an entry is
    returned and the table is unchanged.  Otherwise the item is added exactly
    once when [doAdd] is set (with the table doubled when it gets too full) and
    NULL is returned when it is not.  The only abnormal end is [abort()] when
    the allocation of the larger table fails. *)
Lemma mzHashTableLookup_refines (cmpFunc : Z -> Z -> Z) (calloc_ok doAdd : bool)
  (ht : HashTable) (itemHash item : Z)
  (Hwf : wf ht) (Hhash : is_u32 itemHash)
  (Hnull : item <> 0) (Htomb : item <> HASH_TOMBSTONE)
  (Hcap : doAdd = true -> tableSize ht < 268435456) :
  match mzHashTableLookup cmpFunc calloc_ok ht itemHash item doAdd with
  | Ok (ht', r) => wf ht' /\
      ((exists d, (itemHash, d) ∈ contents ht /\ cmpFunc d item = 0 /\
                  r = d /\ ht' = ht) \/
       ((forall d, (itemHash, d) ∈ contents ht -> cmpFunc d item <> 0) /\
        if doAdd then r = item /\ contents ht' ≡ₚ (itemHash, item) :: contents ht
        else r = 0 /\ ht' = ht))
  | Aborted => doAdd = true /\ calloc_ok = false
  | AssertFailed | OutOfFuel => False
  end.
Proof. by apply lookup_ok. Qed.

(** [mzHashTableRemove] terminates, keeps the invariant, and removes one
    pair that holds the item when it reports success; when it reports failure
    the table is unchanged and holds no pair with that hash and item. *)
Lemma mzHashTableRemove_refines (ht : HashTable) (itemHash item : Z)
  (Hwf : wf ht) (Hnull : item <> 0) (Htomb : item <> HASH_TOMBSTONE) :
  match mzHashTableRemove ht itemHash item with
  | Ok (ht', true) => wf ht' /\ exists h, contents ht ≡ₚ (h, item) :: contents ht'
  | Ok (ht', false) => ht' = ht /\ (itemHash, item) ∉ contents ht
  | _ => False
  end.
Proof.
  pose proof (wf_array _ Hwf) as Hok. pose proof (array_ok_pos _ _ Hok) as Hpos.
  unfold mzHashTableRemove.
  destruct (Z.ltb_spec 0 (tableSize ht)); [cbn [negb]|lia].
  destruct (probe_home ht (fun e => data e =? item) itemHash Hwf)
    as (j & Hj & Hi & -> & _ & Hend); [intros; lia|].
  set (i := (home ht itemHash + j) mod tableSize ht) in *.
  destruct (Z.eqb_spec i (tableSize ht)); [lia|].
  destruct Hend as [[Hm Hne]|[H0 Hnone]].
  - apply Z.eqb_eq in Hm. destruct (Z.eqb_spec (data (entry (pEntries ht) i)) 0); [done|].
    cbn [orb]. destruct (kill_slot (pEntries ht) (tableSize ht) i Hok Hi)
      as (Hok' & Hlive' & Hdead'); [unfold is_live; lia|].
    assert (length (live (pEntries ht) (tableSize ht)) = S (length
      (live (set_entry (pEntries ht) i (mkHashEntry (hashValue (entry (pEntries ht) i))
      HASH_TOMBSTONE)) (tableSize ht)))) as Hlen by (by rewrite Hlive').
    split; [constructor; cbn -[live dead]; [done | | |]|].
    + rewrite (wf_live _ Hwf). lia.
    + rewrite Hdead', (wf_dead _ Hwf). simpl. lia.
    + pose proof (wf_load _ Hwf). lia.
    + exists (hashValue (entry (pEntries ht) i)). unfold contents; cbn -[live].
      rewrite Hlive'. cbn. by rewrite Hm.
  - rewrite H0. cbn [Z.eqb orb]. split; [done|]. intros Hin.
    specialize (Hnone item Hin). simpl in Hnone. lia.
Qed.

(** ** Creation *)

(** Bits of [v] smeared over a window of [w] positions. *)
Definition smeared (w x y : Z) : Prop :=
  forall i, 0 <= i -> Z.testbit y i = true <->
    exists j, i <= j < i + w /\ Z.testbit x j = true.

Lemma smeared_step w x y : 0 < w -> smeared w x y ->
  smeared (2 * w) x (Z.lor y (Z.shiftr y w)).
Proof.
  intros Hw H i Hi. rewrite Z.lor_spec, Z.shiftr_spec, orb_true_iff by done.
  rewrite (H i), (H (i + w)) by lia. split.
  - intros [(j & Hj & Hb)|(j & Hj & Hb)]; exists j; split; try done; lia.
  - intros (j & Hj & Hb).
    destruct (Z.lt_ge_cases j (i + w)); [left|right]; exists j; split; try done; lia.
Qed.

Lemma smeared_32 x :
  let x1 := Z.lor x (Z.shiftr x 1) in
  let x2 := Z.lor x1 (Z.shiftr x1 2) in
  let x3 := Z.lor x2 (Z.shiftr x2 4) in
  let x4 := Z.lor x3 (Z.shiftr x3 8) in
  smeared 32 x (Z.lor x4 (Z.shiftr x4 16)).
Proof.
  intros. apply (smeared_step 16), (smeared_step 8), (smeared_step 4),
    (smeared_step 2), (smeared_step 1); try lia.
  intros i Hi. split; [by exists i; split; [lia|]|].
  intros (j & Hj & Hb). by replace i with j by lia.
Qed.

Lemma lor_shiftr_nonneg x n : 0 <= x -> 0 <= Z.lor x (Z.shiftr x n).
Proof. intros. apply Z.lor_nonneg. split; [done|]. by apply Z.shiftr_nonneg. Qed.

Lemma smeared_ones x y : 0 < x < 2 ^ 32 -> smeared 32 x y -> 0 <= y ->
  y = 2 ^ (Z.log2 x + 1) - 1.
Proof.
  intros Hx Hs Hy. pose proof (Z.log2_spec x ltac:(lia)) as [Hl1 Hl2].
  pose proof (Z.log2_nonneg x).
  assert (Z.log2 x < 32) by (apply Z.log2_lt_pow2; lia).
  rewrite Z.sub_1_r, <- Z.ones_equiv.
  apply Z.bits_inj'. intros i Hi. apply eq_true_iff_eq.
  rewrite (Hs i Hi), Z.ones_spec_iff by lia. split.
  - intros (j & Hj & Hb). split; [lia|].
    destruct (Z.lt_ge_cases i (Z.log2 x + 1)); [done|].
    rewrite Z.bits_above_log2 in Hb; [done|lia|lia].
  - intros [_ Hlt]. exists (Z.log2 x). split; [lia|]. apply Z.bit_log2. lia.
Qed.

(** [roundUpPower2] computes the least power of two that is at least its
    argument, for every argument up to 2^31. *)
Lemma roundUpPower2_spec (val : Z) (Hval : 1 <= val <= 2147483648) :
  exists k, 0 <= k <= 31 /\ roundUpPower2 val = 2 ^ k /\ val <= 2 ^ k /\
    forall m, 0 <= m -> val <= 2 ^ m -> k <= m.
Proof.
  unfold roundUpPower2. rewrite (u32_id (val - 1)) by (unfold is_u32; lia).
  destruct (decide (val = 1)) as [->|Hne].
  { exists 0. split; [lia|]. split; [done|]. split; [done|]. intros; lia. }
  set (x := val - 1) in *.
  assert (0 <= Z.log2 x < 31) as Hlog.
  { split; [apply Z.log2_nonneg|]. apply Z.log2_lt_pow2; lia. }
  pose proof (smeared_32 x) as Hs. cbv zeta in Hs.
  apply smeared_ones in Hs; [|lia|].
  2: { do 5 apply lor_shiftr_nonneg. lia. }
  rewrite Hs. replace (2 ^ (Z.log2 x + 1) - 1 + 1) with (2 ^ (Z.log2 x + 1)) by lia.
  pose proof (Z.log2_spec x ltac:(lia)) as [Hl1 Hl2]. unfold Z.succ in Hl2.
  assert (2 ^ (Z.log2 x + 1) <= 2 ^ 31) by (apply Z.pow_le_mono_r; lia).
  rewrite u32_id by (unfold is_u32; lia).
  exists (Z.log2 x + 1). repeat split; try lia.
  intros m Hm Hle. assert (Z.log2 x < m); [|lia]. apply Z.log2_lt_pow2; lia.
Qed.

(** [mzHashTableCreate]: for a requested size up to 2^28 (and successful
    allocations) the result is a well-formed empty table whose capacity is the
    least power of two that is at least the requested size. *)
Lemma mzHashTableCreate_ok (initialSize : Z) (free : bool)
  (Hsize : 1 <= initialSize <= 268435456) :
  exists ht, mzHashTableCreate true true initialSize free = Ok (Some ht) /\
    wf ht /\ contents ht = [] /\ freeFunc ht = free /\ numEntries ht = 0 /\ numDeadEntries ht = 0 /\
    exists k, 0 <= k /\ tableSize ht = 2 ^ k /\ initialSize <= 2 ^ k /\
      forall m, 0 <= m -> initialSize <= 2 ^ m -> k <= m.
Proof.
  destruct (roundUpPower2_spec initialSize) as (k & Hk & Hr & Hle & Hleast); [lia|].
  assert (k <= 28) by (apply Hleast; lia).
  assert (2 ^ k <= 2 ^ 28) by (apply Z.pow_le_mono_r; lia).
  unfold mzHashTableCreate. destruct (Z.ltb_spec 0 initialSize); [|lia].
  cbn [negb]. rewrite Hr, s32_id by (unfold is_s32; lia).
  eexists. split; [reflexivity|]. split; [constructor; cbn -[live dead]|].
  - apply array_ok_calloc. lia.
  - by rewrite live_calloc.
  - by rewrite dead_calloc.
  - unfold LOAD_DENOM, LOAD_NUMER. lia.
  - split; [unfold contents; cbn -[live]; by rewrite live_calloc|].
    do 3 (split; [done|]). exists k. split; [lia|]. auto.
Qed.

(** ** Clearing and walking *)

Lemma clear_loop_ok n free es :
  let '(es', freed) := clear_loop n free es in
  length es' = length es /\
  (forall i, (i < n)%nat -> data (nth i es' null_entry) = 0) /\
  (forall i, (n <= i)%nat -> nth i es' null_entry = nth i es null_entry) /\
  freed = if free then data <$> filter (fun e => is_live e = true) (take n es) else [].
Proof.
  revert es. induction n as [|n IH]; intros [|e es]; simpl.
  - repeat split; [lia | by destruct free].
  - repeat split; [lia | by destruct free].
  - repeat split; [by destruct i | by destruct free].
  - specialize (IH es). destruct (clear_loop n free es) as [es' freed].
    destruct IH as (Hlen & Hz & Hnz & Hf).
    assert (forall e', data e' = 0 ->
      length (e' :: es') = S (length es) /\
      (forall i, (i < S n)%nat -> data (nth i (e' :: es') null_entry) = 0) /\
      (forall i, (S n <= i)%nat -> nth i (e' :: es') null_entry =
                                    nth i (e :: es) null_entry)) as Hgo.
    { intros e' He'. split; [simpl; lia|]. split.
      - intros [|i] Hi; simpl; [done|apply Hz; lia].
      - intros [|i] Hi; simpl; [lia|apply Hnz; lia]. }
    rewrite filter_cons.
    destruct (Z.eqb_spec (data e) HASH_TOMBSTONE) as [Ht|Ht];
      [|destruct (Z.eqb_spec (data e) 0) as [H0|H0]]; simpl.
    + destruct (decide (is_live e = true)) as [El|_]; [unfold is_live in El; lia|].
      destruct (Hgo (mkHashEntry (hashValue e) 0) eq_refl) as (? & ? & ?). auto.
    + destruct (decide (is_live e = true)) as [El|_]; [unfold is_live in El; lia|].
      destruct (Hgo e H0) as (? & ? & ?). auto.
    + destruct (decide (is_live e = true)) as [_|El]; [|unfold is_live in El; lia].
      destruct (Hgo (mkHashEntry (hashValue e) 0) eq_refl) as (? & ? & ?).
      repeat split; auto. subst. by destruct free.
Qed.

Lemma filter_all_null (P : HashEntry -> bool) n l :
  (forall e, data e = 0 -> P e = false) ->
  (forall i, (i < n)%nat -> data (nth i l null_entry) = 0) ->
  filter (fun e => P e = true) (take n l) = [].
Proof.
  intros HP. revert l. induction n as [|n IH]; intros [|e l] H; try done. simpl.
  rewrite filter_cons_False.
  - apply IH. intros i Hi. apply (H (S i)). lia.
  - rewrite HP; [done|]. apply (H 0%nat). lia.
Qed.

(** [mzHashTableClear] empties a well-formed table (live entries and
    tombstones), keeps it well formed at its capacity, and hands exactly the
    live items to the free function, in slot order. *)
Lemma mzHashTableClear_ok (ht : HashTable) (Hwf : wf ht) :
  let '(ht', freed) := mzHashTableClear ht in
  wf ht' /\ contents ht' = [] /\ tableSize ht' = tableSize ht /\
  numDeadEntries ht' = 0 /\
  freed = if freeFunc ht then (contents ht).*2 else [].
Proof.
  unfold mzHashTableClear.
  pose proof (clear_loop_ok (Z.to_nat (tableSize ht)) (freeFunc ht) (pEntries ht)) as H.
  destruct (clear_loop _ _ _) as [es freed]. destruct H as (Hlen & Hz & Hnz & Hf).
  pose proof (wf_array _ Hwf) as Hok. pose proof (array_ok_pos _ _ Hok).
  assert (forall i, data (entry es i) = 0) as Hnull.
  { intros i. unfold entry. destruct (decide (Z.to_nat i < Z.to_nat (tableSize ht))%nat).
    - by apply Hz.
    - rewrite Hnz by lia. apply (ok_tail _ _ Hok). lia. }
  assert (live es (tableSize ht) = [] /\ dead es (tableSize ht) = []) as [Hl Hd].
  { split; apply filter_all_null; auto; intros e He; by apply null_not_live in He as [??]. }
  split; [constructor; cbn -[live dead]; [constructor| | |]|].
  - apply Hok.
  - rewrite Hlen. apply Hok.
  - intros; apply Hnull.
  - intros i _ Hli. pose proof (null_not_live _ (Hnull i)) as [? _]. congruence.
  - intros i _ Hli. pose proof (null_not_live _ (Hnull i)) as [? _]. congruence.
  - by rewrite Hl.
  - by rewrite Hd.
  - unfold LOAD_DENOM, LOAD_NUMER. lia.
  - split; [unfold contents; cbn -[live]; by rewrite Hl|].
    do 2 (split; [done|]). rewrite Hf. destruct (freeFunc ht); [|done].
    unfold contents. rewrite <- list_fmap_compose. done.
Qed.

(** What a callback sees: the live items in slot order, until it returns a
    nonzero value. *)
Fixpoint visit {S} (func : Z -> S -> S * Z) (items : list Z) (s : S) : S * Z :=
  match items with
  | [] => (s, 0)
  | d :: items =>
      let '(s, val) := func d s in
      if negb (val =? 0) then (s, val) else visit func items s
  end.

Lemma foreach_loop_visit {S} (func : Z -> S -> S * Z) n es s :
  foreach_loop func n es s =
  visit func (data <$> filter (fun e => is_live e = true) (take n es)) s.
Proof.
  revert es s. induction n as [|n IH]; intros [|e es] s; try done.
  cbn [foreach_loop take]. rewrite filter_cons. fold (is_live e).
  destruct (decide (is_live e = true)) as [El|El];
    [rewrite El | apply not_true_is_false in El; rewrite El].
  - rewrite fmap_cons. simpl. destruct (func (data e) s) as [s' v].
    destruct (negb (v =? 0)); [done | apply IH].
  - apply IH.
Qed.

Lemma iter_skip_spec fuel es i lim :
  0 <= i -> lim - i < Z.of_nat fuel ->
  let i' := iter_skip fuel es i lim in
  i <= i' /\ (i' < lim -> is_live (entry es i') = true) /\
  (forall x, i <= x < i' -> x < lim -> is_live (entry es x) = false) /\
  (i <= lim -> i' <= lim).
Proof.
  revert i. induction fuel as [|fuel IH]; intros i Hi Hf; simpl.
  { repeat split; lia. }
  destruct (Z.ltb_spec i lim); [|repeat split; lia].
  destruct (is_live (entry es i)) eqn:El; [repeat split; try lia; done|].
  destruct (IH (i + 1)) as (H1 & H2 & H3 & H4); [lia|lia|].
  repeat split; try lia; auto.
  intros x Hx Hlim. destruct (decide (x = i)) as [->|]; [done|]. apply H3; lia.
Qed.

(** The live items from slot [i] on. *)
Definition live_from (ht : HashTable) (i : Z) : list Z :=
  data <$> filter (fun e => is_live e = true)
             (drop (Z.to_nat i) (slots (pEntries ht) (tableSize ht))).

Lemma drop_slot ht i : array_ok (pEntries ht) (tableSize ht) -> 0 <= i < tableSize ht ->
  drop (Z.to_nat i) (slots (pEntries ht) (tableSize ht)) =
  entry (pEntries ht) i :: drop (Z.to_nat (i + 1)) (slots (pEntries ht) (tableSize ht)).
Proof.
  intros Hok Hi. pose proof (array_ok_bound _ _ Hok).
  rewrite (drop_S _ (entry (pEntries ht) i)) by (apply slots_lookup; lia).
  do 2 f_equal. lia.
Qed.

Lemma live_from_live ht i : array_ok (pEntries ht) (tableSize ht) ->
  0 <= i < tableSize ht -> is_live (entry (pEntries ht) i) = true ->
  live_from ht i = data (entry (pEntries ht) i) :: live_from ht (i + 1).
Proof.
  intros Hok Hi Hl. unfold live_from. rewrite drop_slot, filter_cons_True by done. done.
Qed.

Lemma live_from_skip ht i i' : array_ok (pEntries ht) (tableSize ht) ->
  0 <= i <= i' -> i' <= tableSize ht ->
  (forall x, i <= x < i' -> is_live (entry (pEntries ht) x) = false) ->
  live_from ht i = live_from ht i'.
Proof.
  intros Hok Hi. remember (Z.to_nat (i' - i)) as m eqn:Hm. revert i Hi Hm.
  induction m as [|m IH]; intros i Hi Hm Hsz Hdead.
  { by replace i' with i by lia. }
  transitivity (live_from ht (i + 1)).
  - unfold live_from. rewrite drop_slot, filter_cons_False by (rewrite ?Hdead; lia || done).
    done.
  - apply IH; try lia. intros x Hx. apply Hdead. lia.
Qed.

Lemma iterate_spec ht fuel idx : array_ok (pEntries ht) (tableSize ht) ->
  0 <= idx <= tableSize ht ->
  (idx < tableSize ht -> is_live (entry (pEntries ht) idx) = true) ->
  tableSize ht - idx < Z.of_nat fuel ->
  iterate fuel ht idx = live_from ht idx.
Proof.
  intros Hok. revert idx. induction fuel as [|fuel IH]; intros idx Hidx Hl Hf; [lia|].
  simpl. unfold mzHashIterDone. destruct (Z.leb_spec (tableSize ht) idx) as [Hge|Hlt].
  - unfold live_from. rewrite drop_ge; [done|].
    unfold slots. rewrite length_take. lia.
  - rewrite live_from_live by (auto; lia). unfold mzHashIterData. f_equal.
    unfold mzHashIterNext. destruct (iter_skip_spec (Z.to_nat (tableSize ht - idx))
      (pEntries ht) (idx + 1) (tableSize ht)) as (H1 & H2 & H3 & H4); [lia|lia|].
    rewrite IH by (auto; lia). symmetry. apply live_from_skip; auto; try lia.
    intros x Hx. apply H3; lia.
Qed.

(** Walking the table: [mzHashForeach] calls its callback on exactly the
    live items in slot order, stopping at the first nonzero result, and the
    iterator of [Hash.h] terminates and yields the same items in the same
    order. *)
Lemma mzHash_walk_ok {S} (ht : HashTable) (func : Z -> S -> S * Z) (arg : S)
  (Hwf : wf ht) :
  mzHashForeach ht func arg = visit func (contents ht).*2 arg /\
  iterate (Datatypes.S (Z.to_nat (tableSize ht))) ht (mzHashIterBegin ht) = (contents ht).*2.
Proof.
  pose proof (wf_array _ Hwf) as Hok. pose proof (array_ok_pos _ _ Hok).
  assert ((contents ht).*2 = live_from ht 0) as Hc.
  { unfold contents, live_from. rewrite <- list_fmap_compose. done. }
  split.
  - unfold mzHashForeach. by rewrite foreach_loop_visit, Hc.
  - unfold mzHashIterBegin, mzHashIterNext.
    destruct (iter_skip_spec (Z.to_nat (tableSize ht - -1)) (pEntries ht) (-1 + 1)
      (tableSize ht)) as (H1 & H2 & H3 & H4); [lia|lia|].
    rewrite iterate_spec by (auto; lia). rewrite Hc.
    symmetry. apply live_from_skip; auto; try lia. intros x Hx. apply H3; lia.
Qed.

(** ** Witnesses *)

Definition sample_cmp (a b : Z) : Z := a - b.

(** A four-slot table holding items 100 (hash 5) and 200 (hash 9), the second
    one displaced from its home slot. *)
Definition sample_table : HashTable :=
  mkHashTable 4 2 0
    [null_entry; mkHashEntry 5 100; mkHashEntry 9 200; null_entry;
     null_entry; null_entry; null_entry; null_entry; null_entry; null_entry] true.

Lemma sample_table_wf : wf sample_table.
Proof.
  constructor; [constructor| | |].
  - exists 2. split; [lia|reflexivity].
  - reflexivity.
  - simpl. intros i Hi. unfold entry.
    destruct (Z.to_nat i) as [|[|[|[|[|[|[|[|[|[|[|]]]]]]]]]]] eqn:E; try done; lia.
  - intros i Hi. cbn [tableSize sample_table] in Hi. unfold is_u32.
    cases_below i 4; [simpl; try done; intros _; lia .. | lia].
  - intros i Hi. cbn [tableSize sample_table] in Hi.
    cases_below i 4; [done | | | done | lia]; intros _ j Hj.
    + change ((2 - _) mod _) with 1 in Hj. assert (j = 0) as -> by lia. done.
    + change ((1 - _) mod _) with 0 in Hj. lia.
  - reflexivity.
  - reflexivity.
  - vm_compute. congruence.
Qed.

