(* ===== verification/Zip.v ===== *)
(** * The archive reader of minzip: opening an archive (minzip/Zip.c, Bits.h)

    An archive is mapped into memory and its central directory is read into an array of
    entries, sorted by name, and into the hash table of [HashTable].  Pointers are 32-bit
    addresses whose additions wrap; a read outside the mapping is a fault, and an entry
    refers to its name by a pointer into the mapping.  [char] is unsigned, as on ARM.

    The second half shows what the checks of [parseZipArchive] are worth: which faults
    remain possible on an arbitrary file, and what holds of every archive it accepts. *)

From stdpp Require Import sorting.
From S2P Require Import Prelude HashTable.

Definition CENSIG : Z := 0x02014b50.
Definition CENHDR : Z := 46.
Definition CENVEM : Z := 4.
Definition CENHOW : Z := 10.
Definition CENTIM : Z := 12.
Definition CENCRC : Z := 16.
Definition CENSIZ : Z := 20.
Definition CENLEN : Z := 24.
Definition CENNAM : Z := 28.
Definition CENEXT : Z := 30.
Definition CENCOM : Z := 32.
Definition CENATX : Z := 38.
Definition CENOFF : Z := 42.
Definition ENDSIG : Z := 0x06054b50.
Definition ENDHDR : Z := 22.
Definition ENDSUB : Z := 8.
Definition ENDOFF : Z := 16.
Definition LOCSIG : Z := 0x04034b50.
Definition LOCHDR : Z := 30.
Definition LOCNAM : Z := 26.
Definition LOCEXT : Z := 28.
Definition STORED : Z := 0.
Definition DEFLATED : Z := 8.
Definition CENVEM_UNIX : Z := Z.shiftl 3 8.
Definition PATH_MAX : Z := 4096.

(** How a call ends: with a value, with an access at an address that is not the
    program's, in [abort()] or a failed [assert], or not within the fuel. *)
Inductive outcome (A : Type) :=
  | Ret (a : A)
  | Fault (p : Z)
  | Halt
  | NoFuel.
Arguments Ret {A} a.
Arguments Fault {A} p.
Arguments Halt {A}.
Arguments NoFuel {A}.

#[global] Instance outcome_bind : MBind outcome := fun A B k m =>
  match m with Ret a => k a | Fault p => Fault p | Halt => Halt | NoFuel => NoFuel end.

(** What a call of the hash table gives its caller. *)
Definition of_result {A} (r : result A) : outcome A :=
  match r with Ok x => Ret x | AssertFailed | Aborted => Halt | OutOfFuel => NoFuel end.

(** ** Memory *)

Record MemMapping := mkMemMapping { addr : Z; mem : list Z }.
Definition length_ (m : MemMapping) : Z := Z.of_nat (length (mem m)).

Definition get1 (m : MemMapping) (p : Z) : outcome Z :=
  if (addr m <=? p) && (p <? addr m + length_ m)
  then Ret (nth (Z.to_nat (p - addr m)) (mem m) 0) else Fault p.

Definition get2LE (m : MemMapping) (pSrc : Z) : outcome Z :=
  b0 ← get1 m pSrc; b1 ← get1 m (u32 (pSrc + 1));
  Ret (u16 (Z.lor b0 (Z.shiftl b1 8))).

Definition get4LE (m : MemMapping) (pSrc : Z) : outcome Z :=
  b0 ← get1 m pSrc; b1 ← get1 m (u32 (pSrc + 1));
  b2 ← get1 m (u32 (pSrc + 2)); b3 ← get1 m (u32 (pSrc + 3));
  Ret (u32 (Z.lor (Z.lor (Z.lor b0 (Z.shiftl b1 8)) (Z.shiftl b2 16)) (Z.shiftl b3 24))).

(** [strncmp] on two strings of the mapping. *)
Fixpoint strncmp (m : MemMapping) (n : nat) (p q : Z) : outcome Z :=
  match n with
  | O => Ret 0
  | S n =>
      x ← get1 m p; y ← get1 m q;
      if negb (x =? y) then Ret (x - y)
      else if x =? 0 then Ret 0
      else strncmp m n (u32 (p + 1)) (u32 (q + 1))
  end.

(** ** Entries *)

Record ZipEntry := mkZipEntry {
  fileNameLen : Z; fileName : Z; offset : Z; compLen : Z; uncompLen : Z; compression : Z;
  modTime : Z; crc32 : Z; versionMadeBy : Z; externalFileAttributes : Z
}.
Definition zero_entry : ZipEntry := mkZipEntry 0 0 0 0 0 0 0 0 0 0.
Definition sizeof_ZipEntry : Z := 40.

(** The characters an entry's name points to. *)
Definition name (m : MemMapping) (e : ZipEntry) : list Z :=
  take (Z.to_nat (fileNameLen e)) (drop (Z.to_nat (fileName e - addr m)) (mem m)).

Fixpoint memcmp (n : nat) (xs ys : list Z) : Z :=
  match n, xs, ys with
  | S n, x :: xs, y :: ys => if x =? y then memcmp n xs ys else x - y
  | _, _, _ => 0
  end.

Definition hashcmpZipEntry (m : MemMapping) (entry1 entry2 : ZipEntry) : Z :=
  if negb (fileNameLen entry1 =? fileNameLen entry2)
  then s32 (fileNameLen entry1 - fileNameLen entry2)
  else memcmp (Z.to_nat (fileNameLen entry1)) (name m entry1) (name m entry2).

(** [str] is the characters of the C string, without the terminating zero. *)
Definition hashcmpZipName (m : MemMapping) (entry : ZipEntry) (str : list Z) : Z :=
  let nameLen := Z.of_nat (length str) in
  if negb (fileNameLen entry =? nameLen) then s32 (fileNameLen entry - nameLen)
  else memcmp (Z.to_nat nameLen) (name m entry) str.

Definition computeHash (str : list Z) : Z :=
  foldl (fun hash c => u32 (hash * 31 + c)) 2 str.

(** [for (i = 0; i < fileNameLen; ++i)] *)
Fixpoint valid_chars (m : MemMapping) (n : nat) (p : Z) : outcome bool :=
  match n with
  | O => Ret true
  | S n =>
      c ← get1 m p;
      if (c <? 32) || (127 <=? c) then Ret false else valid_chars m n (u32 (p + 1))
  end.

Definition validFilename (m : MemMapping) (fileName fileNameLen : Z) : outcome bool :=
  if PATH_MAX <=? fileNameLen then Ret false
  else valid_chars m (Z.to_nat fileNameLen) fileName.

(** ** Parsing *)

(** [safe_iop.h] is not part of the sources: an addition with a check for overflow, for
    addresses and for [long].  [None] and [false] report the overflow. *)
Class SafeIop := {
  safe_add_uintptr : Z -> Z -> option Z;
  safe_add_long : Z -> Z -> bool;
}.
Class SafeIopOk (iop : SafeIop) : Prop := {
  safe_add_uintptr_ok a b : is_u32 a -> is_u32 b ->
    safe_add_uintptr a b = if a + b <? 4294967296 then Some (a + b) else None;
  safe_add_long_ok a b : is_s32 a -> is_s32 b ->
    safe_add_long a b = (-2147483648 <=? a + b) && (a + b <? 2147483648);
}.

(** [while (ptr >= pMap->addr)] *)
Fixpoint find_eocd (fuel : nat) (m : MemMapping) (ptr : Z) : outcome Z :=
  match fuel with
  | O => NoFuel
  | S fuel =>
      if addr m <=? ptr then
        c ← get1 m ptr;
        hit ← (if c =? Z.land ENDSIG 0xff then sig ← get4LE m ptr; Ret (sig =? ENDSIG) else Ret false);
        if hit : bool then Ret ptr else find_eocd fuel m (u32 (ptr - 1))
      else Ret ptr
  end.

Definition entry_ref (es : list ZipEntry) (i : Z) : outcome ZipEntry :=
  if i <? 0 then Fault 0
  else match es !! Z.to_nat i with Some e => Ret e | None => Fault 0 end.

(** [while (low <= high)]; the value of [high] at its end *)
Fixpoint bsearch (fuel : nat) (m : MemMapping) (es : list ZipEntry) (fName fNameLen low high : Z)
    : outcome Z :=
  match fuel with
  | O => NoFuel
  | S fuel =>
      if low <=? high then
        let mid := low + Z.quot (high - low) 2 in
        e ← entry_ref es mid;
        let diffLen := if fileNameLen e <? fNameLen then fileNameLen e else fNameLen in
        diff ← strncmp m (Z.to_nat diffLen) (fileName e) fName;
        let diff := if diff =? 0 then s32 (fileNameLen e - fNameLen) else diff in
        if diff <? 0 then bsearch fuel m es fName fNameLen (mid + 1) high
        else if 0 <? diff then bsearch fuel m es fName fNameLen low (mid - 1)
        else Ret mid
      else Ret high
  end.

(** [memmove(pEntries + dst, pEntries + src, n * sizeof(ZipEntry))] *)
Definition memmove_entries (es : list ZipEntry) (dst src n : Z) : outcome (list ZipEntry) :=
  let (d, s) := (Z.to_nat dst, Z.to_nat src) in
  let k := Z.to_nat n in
  if (dst + n <=? Z.of_nat (length es)) && (src + n <=? Z.of_nat (length es)) then
    Ret (take d es ++ take k (drop s es) ++ drop (d + k) es)
  else Fault 0.

Definition store_entry (es : list ZipEntry) (i : Z) (e : ZipEntry) : list ZipEntry := <[Z.to_nat i := e]> es.

(** The index where an entry with the given name goes, with the later ones moved up. *)
Definition make_room (m : MemMapping) (es : list ZipEntry) (i fName fNameLen : Z)
    : outcome (list ZipEntry * Z) :=
  if 0 <? i then
    high ← bsearch (S (Z.to_nat i)) m es fName fNameLen 0 (i - 1);
    let target := u32 (high + 1) in
    if negb (target <=? i) then Halt
    else if negb (target =? i) then
      es ← memmove_entries es (target + 1) target (i - target); Ret (es, target)
    else Ret (es, target)
  else Ret (es, 0).

Section parse.
Context `{iop : SafeIop}.

(** The rest of a round: the local header and the place of the data; [e] is what has been
    stored in the entry so far. *)
Definition check_local (m : MemMapping) (es : list ZipEntry) (target : Z) (e : ZipEntry)
    (localHdrOffset next : Z) : outcome (list ZipEntry * option Z) :=
  match safe_add_uintptr (addr m) localHdrOffset with
  | None => Ret (store_entry es target e, None)
  | Some localHdr =>
      if u32 (addr m + length_ m) <? u32 (localHdr + LOCHDR) then Ret (store_entry es target e, None) else
      sig ← get4LE m localHdr;
      if negb (sig =? LOCSIG) then Ret (store_entry es target e, None) else
      nam ← get2LE m (u32 (localHdr + LOCNAM));
      ext ← get2LE m (u32 (localHdr + LOCEXT));
      let e := mkZipEntry (fileNameLen e) (fileName e) (s32 (u32 (localHdrOffset + LOCHDR + nam + ext)))
                 (compLen e) (uncompLen e) (compression e) (modTime e) (crc32 e) (versionMadeBy e)
                 (externalFileAttributes e) in
      let es := store_entry es target e in
      if negb (safe_add_long (offset e) (compLen e)) then Ret (es, None)
      else if length_ m <? u32 (u32 (offset e) + u32 (compLen e)) then Ret (es, None)
      else Ret (es, Some next)
  end.

(** One round of the loop over the central directory: the array, and the next [ptr] or
    [None] for [goto bail]. *)
Definition parse_entry (m : MemMapping) (es : list ZipEntry) (i ptr : Z)
    : outcome (list ZipEntry * option Z) :=
  let limit := u32 (addr m + length_ m) in
  if limit <? u32 (ptr + CENHDR) then Ret (es, None) else
  sig ← get4LE m ptr;
  if negb (sig =? CENSIG) then Ret (es, None) else
  localHdrOffset ← get4LE m (u32 (ptr + CENOFF));
  fNameLen ← get2LE m (u32 (ptr + CENNAM));
  extraLen ← get2LE m (u32 (ptr + CENEXT));
  commentLen ← get2LE m (u32 (ptr + CENCOM));
  let fName := u32 (ptr + CENHDR) in
  if limit <? u32 (fName + fNameLen) then Ret (es, None) else
  valid ← validFilename m fName fNameLen;
  if negb valid then Ret (es, None) else
  '(es, target) ← make_room m es i fName fNameLen;
  pEntry ← entry_ref es target;
  siz ← get4LE m (u32 (ptr + CENSIZ));
  len ← get4LE m (u32 (ptr + CENLEN));
  how ← get2LE m (u32 (ptr + CENHOW));
  tim ← get4LE m (u32 (ptr + CENTIM));
  crc ← get4LE m (u32 (ptr + CENCRC));
  vem ← get2LE m (u32 (ptr + CENVEM));
  let e := mkZipEntry fNameLen fName (offset pEntry) (s32 siz) (s32 len) how (s32 tim) (s32 crc) vem
             (externalFileAttributes pEntry) in
  if negb (Z.land vem 0xff00 =? 0) && negb (Z.land vem 0xff00 =? CENVEM_UNIX)
  then Ret (store_entry es target e, None) else
  atx ← get4LE m (u32 (ptr + CENATX));
  let e := mkZipEntry fNameLen fName (offset pEntry) (s32 siz) (s32 len) how (s32 tim) (s32 crc) vem
             (s32 atx) in
  check_local m es target e localHdrOffset
    (u32 (ptr + (CENHDR + fNameLen + extraLen + commentLen))).

(** [for (i = 0; i < numEntries; i++)], [n] rounds from [i] on *)
Fixpoint parse_entries (n : nat) (m : MemMapping) (es : list ZipEntry) (i ptr : Z)
    : outcome (list ZipEntry * bool) :=
  match n with
  | O => Ret (es, true)
  | S n =>
      '(es, next) ← parse_entry m es i ptr;
      match next with
      | None => Ret (es, false)
      | Some ptr => parse_entries n m es (i + 1) ptr
      end
  end.

Record ZipArchive := mkZipArchive {
  fd : Z; numEntries : Z;
  pEntries : Z;              (* the address of the array *)
  entries : list ZipEntry;   (* its contents *)
  pHash : option HashTable; map : option MemMapping
}.

(** The entry at an address of the array. *)
Definition entry_at (base : Z) (es : list ZipEntry) (p : Z) : ZipEntry :=
  nth (Z.to_nat ((p - base) / sizeof_ZipEntry)) es zero_entry.

(** What the allocator answers: the address of the array (0 for NULL), the two blocks of
    the hash table, and the larger array a lookup may ask for. *)
Record Alloc := mkAlloc { calloc_entries_at : Z; hash_malloc : bool; hash_calloc : bool; grow_calloc : bool }.

Definition addEntryToHashTable (al : Alloc) (m : MemMapping) (base : Z) (es : list ZipEntry)
    (ht : HashTable) (i : Z) : outcome HashTable :=
  let pEntry := base + sizeof_ZipEntry * i in
  let itemHash := computeHash (name m (entry_at base es pEntry)) in
  '(ht, _) ← of_result (mzHashTableLookup
      (fun d item => hashcmpZipEntry m (entry_at base es d) (entry_at base es item))
      (grow_calloc al) ht itemHash pEntry true);
  Ret ht.

Fixpoint add_entries (n : nat) (al : Alloc) (m : MemMapping) (base : Z) (es : list ZipEntry)
    (ht : HashTable) (i : Z) : outcome HashTable :=
  match n with
  | O => Ret ht
  | S n => ht ← addEntryToHashTable al m base es ht i; add_entries n al m base es ht (i + 1)
  end.

(** From the allocation of the array on: [n] headers at [ptr]. *)
Definition read_directory (al : Alloc) (pArchive : ZipArchive) (m : MemMapping) (n ptr : Z)
    : outcome (ZipArchive * bool) :=
  let base := calloc_entries_at al in
  pHash ← of_result (mzHashTableCreate (hash_malloc al) (hash_calloc al) (mzHashSize n) false);
  let stop es := Ret (mkZipArchive (fd pArchive) n base es None (map pArchive), false) in
  match pHash with
  | None => stop (replicate (Z.to_nat n) zero_entry)
  | Some ht =>
      if base =? 0 then stop [] else
      '(es, ok) ← parse_entries (Z.to_nat n) m (replicate (Z.to_nat n) zero_entry) 0 ptr;
      if negb ok then stop es else
      ht ← add_entries (Z.to_nat n) al m base es ht 0;
      Ret (mkZipArchive (fd pArchive) n base es (Some ht) (map pArchive), true)
  end.

(** The archive with what has been filled in, and the result. *)
Definition parseZipArchive (al : Alloc) (pArchive : ZipArchive) (m : MemMapping) : outcome (ZipArchive * bool) :=
  let bail := Ret (mkZipArchive (fd pArchive) (numEntries pArchive) (pEntries pArchive)
                     (entries pArchive) None (map pArchive), false) in
  val ← get4LE m (addr m);
  if val =? ENDSIG then bail else if negb (val =? LOCSIG) then bail else
  ptr ← find_eocd (S (length (mem m))) m (u32 (addr m + length_ m - ENDHDR));
  if ptr <? addr m then bail else
  n ← get2LE m (u32 (ptr + ENDSUB));
  cdOffset ← get4LE m (u32 (ptr + ENDOFF));
  if (n =? 0) || (length_ m <=? cdOffset) then bail
  else read_directory al pArchive m n (u32 (addr m + cdOffset)).

(** The descriptor is closed, the mapping released and the blocks freed; the field of the
    mapping keeps its value. *)
Definition mzCloseZipArchive (pArchive : ZipArchive) : ZipArchive :=
  mkZipArchive (-1) (numEntries pArchive) 0 [] None (map pArchive).

(** [opened] is the result of [open], [mapped] that of [sysMapFileInShmem]. *)
Definition mzOpenZipArchive (al : Alloc) (opened errno : Z) (mapped : option MemMapping)
    : outcome (ZipArchive * Z) :=
  let pArchive := mkZipArchive opened 0 0 [] None None in
  if opened <? 0 then
    Ret (mzCloseZipArchive pArchive, if truthy errno then errno else -1)
  else match mapped with
  | None => Ret (mzCloseZipArchive pArchive, -1)
  | Some m =>
      if length_ m <? ENDHDR then Ret (mzCloseZipArchive pArchive, -1) else
      '(pArchive, ok) ← parseZipArchive al pArchive m;
      if negb ok then Ret (mzCloseZipArchive pArchive, -1)
      else Ret (mkZipArchive (fd pArchive) (numEntries pArchive) (pEntries pArchive) (entries pArchive)
                  (pHash pArchive) (Some m), 0)
  end.

(** The address of the entry, 0 for NULL; [at_] is the address of the string. *)
Definition mzFindZipEntry (pArchive : ZipArchive) (entryName : list Z) (at_ : Z) : outcome Z :=
  match pHash pArchive, map pArchive with
  | Some ht, Some m =>
      '(_, p) ← of_result (mzHashTableLookup
          (fun d _ => hashcmpZipName m (entry_at (pEntries pArchive) (entries pArchive) d) entryName)
          false ht (computeHash entryName) at_ false);
      Ret p
  | _, _ => Fault 0
  end.

Definition mzGetZipEntryAt (pArchive : ZipArchive) (index : Z) : Z :=
  if index <? numEntries pArchive then pEntries pArchive + sizeof_ZipEntry * index else 0.
Definition mzGetZipEntryIndex (pArchive : ZipArchive) (pEntry : Z) : Z :=
  (pEntry - pEntries pArchive) / sizeof_ZipEntry.

Definition mzIsZipEntrySymlink (pEntry : ZipEntry) : bool :=
  if Z.land (versionMadeBy pEntry) 0xff00 =? CENVEM_UNIX
  then Z.land (u32 (Z.shiftr (externalFileAttributes pEntry) 16)) 0xF000 =? 0xA000
  else false.
End parse.

(** ** Reading *)

(** A file of up to 1 GB, mapped away from both ends of the address space. *)
Record mapped_ok (m : MemMapping) : Prop := {
  mo_u8 : Forall is_u8 (mem m);
  mo_low : 0 < addr m;
  mo_length : length_ m <= 1073741824;
  mo_high : addr m + length_ m + 262144 <= 4294967296;
}.

Definition in_map (m : MemMapping) (p n : Z) : Prop := addr m <= p /\ 0 <= n /\ p + n <= addr m + length_ m.
Definition bytes_from (m : MemMapping) (p n : Z) : list Z :=
  take (Z.to_nat n) (drop (Z.to_nat (p - addr m)) (mem m)).
Definition val2 (m : MemMapping) (p : Z) : Z := le_val (bytes_from m p 2).
Definition val4 (m : MemMapping) (p : Z) : Z := le_val (bytes_from m p 4).

Section reading.
Context (m : MemMapping) (Hm : mapped_ok m).

Lemma in_map_sub p n q k : in_map m p n -> p <= q -> 0 <= k -> q + k <= p + n -> in_map m q k.
Proof. unfold in_map. lia. Qed.

Lemma length_bytes_from p n : in_map m p n -> length (bytes_from m p n) = Z.to_nat n.
Proof. unfold in_map, bytes_from, length_. intros. rewrite length_take, length_drop. lia. Qed.

Lemma bytes_from_u8 p n : Forall is_u8 (bytes_from m p n).
Proof. apply Forall_take, Forall_drop, Hm. Qed.

(** The first byte of a region, and the rest. *)
Lemma get1_cons p n : in_map m p n -> 0 < n -> exists c,
  is_u8 c /\ get1 m p = Ret c /\ bytes_from m p n = c :: bytes_from m (p + 1) (n - 1).
Proof.
  intros [H1 [H2 H3]] Hn. unfold length_ in *.
  destruct (lookup_lt_is_Some_2 (mem m) (Z.to_nat (p - addr m))) as [c Hc]; [lia|].
  exists c. split; [by eapply Forall_lookup_1; [apply Hm|]|]. split.
  - unfold get1, length_. rewrite (proj2 (Z.leb_le _ _)), (proj2 (Z.ltb_lt _ _)) by lia.
    cbn [andb]. by rewrite (nth_lookup_Some _ _ _ _ Hc).
  - unfold bytes_from. rewrite (drop_S _ _ _ Hc).
    replace (Z.to_nat n) with (S (Z.to_nat (n - 1))) by lia.
    replace (Z.to_nat (p + 1 - addr m)) with (S (Z.to_nat (p - addr m))) by lia. done.
Qed.

Lemma in_map_u32 p n k : in_map m p n -> 0 <= k < 262144 -> u32 (p + k) = p + k.
Proof. intros [? [? ?]] ?. destruct Hm. apply u32_id. unfold is_u32. lia. Qed.

Lemma bytes_from_nil p : bytes_from m p 0 = [].
Proof. done. Qed.

Lemma get2LE_ok p : in_map m p 2 -> get2LE m p = Ret (val2 m p).
Proof.
  intros H. destruct (get1_cons p 2 H) as (b0 & H0 & E0 & V0); [lia|].
  destruct (get1_cons (p + 1) 1) as (b1 & H1 & E1 & V1); [by eapply in_map_sub; [apply H|lia..] | lia |].
  unfold get2LE. rewrite (in_map_u32 p 2 1) by (done || lia). rewrite E0. cbn [mbind outcome_bind].
  rewrite E1. cbn [mbind outcome_bind]. f_equal.
  unfold val2. rewrite V0. change (2 - 1) with 1. rewrite V1. change (1 - 1) with 0. rewrite bytes_from_nil.
  cbn [le_val]. rewrite Z.mul_0_r, Z.add_0_r. bitwise. rewrite byte_cons_testbit by done.
  destruct (Z.ltb_spec i 8).
  - rewrite (Z.testbit_neg_r b1), orb_false_r by lia. by rewrite (proj2 (Z.ltb_lt i 16)) by lia.
  - rewrite (testbit_above 8 b0) by done. cbn [orb]. destruct (Z.ltb_spec i 16); [done|].
    by rewrite (testbit_above 8 b1) by (done || lia).
Qed.

Lemma byte_off b n : is_u8 b -> n < 0 \/ 8 <= n -> Z.testbit b n = false.
Proof. intros Hb [?|?]; [by apply Z.testbit_neg_r | by apply (testbit_above 8)]. Qed.

Ltac off_bits b0 :=
  match goal with Hi : 0 <= ?i |- _ =>
    repeat match goal with |- context [Z.testbit ?b (i - ?k)] =>
      rewrite (byte_off b (i - k)) by (done || lia) end;
    rewrite ?(byte_off b0 i) by (done || lia);
    rewrite ?orb_false_r, ?orb_false_l, ?andb_false_r;
    rewrite ?(proj2 (Z.ltb_lt i 32)) by lia; cbn [andb]; try done; f_equal; lia
  end.

Lemma get4LE_ok p : in_map m p 4 -> get4LE m p = Ret (val4 m p).
Proof.
  intros H. destruct (get1_cons p 4 H) as (b0 & H0 & E0 & V0); [lia|].
  destruct (get1_cons (p + 1) 3) as (b1 & H1 & E1 & V1); [by eapply in_map_sub; [apply H|lia..] | lia |].
  destruct (get1_cons (p + 2) 2) as (b2 & H2 & E2 & V2); [by eapply in_map_sub; [apply H|lia..] | lia |].
  destruct (get1_cons (p + 3) 1) as (b3 & H3 & E3 & V3); [by eapply in_map_sub; [apply H|lia..] | lia |].
  unfold get4LE. rewrite (in_map_u32 p 4 1), (in_map_u32 p 4 2), (in_map_u32 p 4 3) by (done || lia).
  rewrite E0. cbn [mbind outcome_bind]. rewrite E1. cbn [mbind outcome_bind]. rewrite E2.
  cbn [mbind outcome_bind]. rewrite E3. cbn [mbind outcome_bind]. f_equal.
  unfold val4. rewrite V0. change (4 - 1) with 3. rewrite V1. change (3 - 1) with 2.
  rewrite <- Z.add_assoc. change (1 + 1) with 2. rewrite V2. change (2 - 1) with 1.
  rewrite <- Z.add_assoc. change (2 + 1) with 3. rewrite V3. change (1 - 1) with 0. rewrite bytes_from_nil.
  bitwise. rewrite word_testbit by done.
  destruct (Z.ltb_spec i 8); [|destruct (Z.ltb_spec (i - 8) 8); [|destruct (Z.ltb_spec (i - 8 - 8) 8);
    [|destruct (Z.ltb_spec (i - 8 - 8 - 8) 8)]]].
  all: off_bits b0.
Qed.
End reading.

(** ** Names and their order *)

Fixpoint lex (xs ys : list Z) : comparison :=
  match xs, ys with
  | [], [] => Eq
  | [], _ => Lt
  | _, [] => Gt
  | x :: xs, y :: ys => match x ?= y with Eq => lex xs ys | c => c end
  end.
Definition name_le (xs ys : list Z) : Prop := lex xs ys <> Gt.

Lemma lex_refl xs : lex xs xs = Eq.
Proof. induction xs as [|x xs IH]; cbn; [done|]. by rewrite Z.compare_refl. Qed.

Lemma lex_eq xs ys : lex xs ys = Eq -> xs = ys.
Proof.
  revert ys. induction xs as [|x xs IH]; intros [|y ys]; cbn; try done.
  destruct (Z.compare_spec x y) as [-> | |]; try done. intros H. by rewrite (IH ys).
Qed.

Lemma lex_flip xs ys : lex ys xs = CompOpp (lex xs ys).
Proof.
  revert ys. induction xs as [|x xs IH]; intros [|y ys]; cbn; try done.
  rewrite (Z.compare_antisym x y). by destruct (x ?= y); cbn.
Qed.

Lemma name_lex_trans xs ys zs : lex xs ys = Lt -> name_le ys zs -> lex xs zs = Lt.
Proof.
  unfold name_le. revert ys zs. induction xs as [|x xs IH]; intros [|y ys] [|z zs]; cbn; try done.
  destruct (Z.compare_spec x y) as [-> | |]; try done.
  - destruct (Z.compare_spec y z); try done. apply IH.
  - intros _. destruct (Z.compare_spec y z) as [-> | |]; try done.
    + by rewrite (proj2 (Z.compare_lt_iff x z)).
    + by rewrite (proj2 (Z.compare_lt_iff x z)) by lia.
Qed.

Lemma lex_trans_le xs ys zs : name_le xs ys -> lex ys zs = Lt -> lex xs zs = Lt.
Proof.
  unfold name_le. revert ys zs. induction xs as [|x xs IH]; intros [|y ys] [|z zs]; cbn; try done.
  destruct (Z.compare_spec x y) as [-> | |]; try done.
  - destruct (Z.compare_spec y z); try done. apply IH.
  - intros _. destruct (Z.compare_spec y z) as [-> | |]; try done; intros _.
    + by rewrite (proj2 (Z.compare_lt_iff x z)).
    + by rewrite (proj2 (Z.compare_lt_iff x z)) by lia.
Qed.

Lemma name_le_trans xs ys zs : name_le xs ys -> name_le ys zs -> name_le xs zs.
Proof.
  intros H1 H2. destruct (lex xs ys) eqn:E; [|by unfold name_le; rewrite (name_lex_trans _ _ _ E H2)|done].
  by rewrite (lex_eq _ _ E).
Qed.

Lemma name_le_flip xs ys : lex xs ys = Gt -> name_le ys xs.
Proof. intros H. unfold name_le. by rewrite lex_flip, H. Qed.

#[global] Instance name_le_po : PreOrder name_le.
Proof.
  split; [intros xs; unfold name_le; by rewrite lex_refl | intros xs ys zs; apply name_le_trans].
Qed.

(** The sign of an [int], as [lex] orders. *)
Definition sign (d : Z) : comparison := d ?= 0.

Definition printable (c : Z) : Prop := 32 <= c < 127.

Section names.
Context (m : MemMapping) (Hm : mapped_ok m).

(** The comparison of the binary search: [strncmp] over the shorter length, then the
    lengths. *)
Lemma strncmp_lex n p q a b : n = Z.min a b -> in_map m p a -> in_map m q b ->
  Forall printable (bytes_from m p a) -> a < 4096 -> b < 4096 ->
  exists d, strncmp m (Z.to_nat n) p q = Ret d /\
    sign (if d =? 0 then s32 (a - b) else d) = lex (bytes_from m p a) (bytes_from m q b).
Proof.
  remember (Z.to_nat n) as k eqn:Ek. revert n p q a b Ek.
  induction k as [|k IH]; intros n p q a b Ek Hn Hp Hq Hpr Ha Hb.
  { exists 0. split; [done|]. cbn. assert (a = 0 \/ b = 0) as Hz by (unfold in_map in *; lia).
    rewrite s32_id by (unfold is_s32, in_map in *; lia). unfold sign.
    destruct (decide (a = 0)) as [-> |]; [|destruct Hz as [? | ->]; [done|]].
    - rewrite bytes_from_nil. destruct (decide (b = 0)) as [-> |]; [done|].
      destruct (get1_cons m Hm q b) as (c & _ & _ & ->); [done | unfold in_map in *; lia |].
      cbn. apply Z.compare_lt_iff. unfold in_map in *. lia.
    - rewrite bytes_from_nil.
      destruct (get1_cons m Hm p a) as (c & _ & _ & ->); [done | unfold in_map in *; lia |].
      cbn. apply Z.compare_gt_iff. unfold in_map in *. lia. }
  destruct (get1_cons m Hm p a) as (x & Hx & Ex & Vx); [done | lia |].
  destruct (get1_cons m Hm q b) as (y & Hy & Ey & Vy); [done | lia |].
  rewrite Vx in Hpr. apply Forall_cons in Hpr as [Hxp Hpr]. rewrite Vx, Vy.
  cbn [strncmp lex]. rewrite Ex. cbn [mbind outcome_bind]. rewrite Ey. cbn [mbind outcome_bind].
  destruct (Z.eqb_spec x y) as [<- |Hne]; cbn [negb].
  - destruct (Z.eqb_spec x 0) as [-> |]; [unfold printable in Hxp; lia|].
    rewrite (in_map_u32 m Hm p a 1), (in_map_u32 m Hm q b 1) by (done || lia). rewrite Z.compare_refl.
    destruct (IH (n - 1) (p + 1) (q + 1) (a - 1) (b - 1)) as (d & Ed & Hd).
    1-2: lia. 1-2: unfold in_map in *; lia. 1: done. 1-2: lia.
    exists d. split; [done|]. rewrite <- Hd. replace (a - 1 - (b - 1)) with (a - b) by lia. done.
  - exists (x - y). split; [done|]. destruct (Z.eqb_spec (x - y) 0); [lia|].
    unfold sign. rewrite <- Z.compare_sub. destruct (Z.compare_spec x y); [lia | done | done].
Qed.

Lemma valid_chars_ok n p : in_map m p n ->
  valid_chars m (Z.to_nat n) p =
  Ret (forallb (fun c => negb ((c <? 32) || (127 <=? c))) (bytes_from m p n)).
Proof.
  remember (Z.to_nat n) as k eqn:Ek. revert n p Ek. induction k as [|k IH]; intros n p Ek Hp.
  { cbn. assert (n = 0) as -> by (unfold in_map in *; lia). done. }
  destruct (get1_cons m Hm p n) as (c & Hc & Ec & ->); [done | lia |].
  cbn [valid_chars forallb]. rewrite Ec. cbn [mbind outcome_bind].
  destruct ((c <? 32) || (127 <=? c)); [done|]. cbn [negb andb].
  rewrite (in_map_u32 m Hm p n 1) by (done || lia). apply IH; [lia | unfold in_map in *; lia].
Qed.

Lemma validFilename_ok n p : in_map m p n ->
  exists b, validFilename m p n = Ret b /\ (b = true <-> n < 4096 /\ Forall printable (bytes_from m p n)).
Proof.
  intros Hp. unfold validFilename, PATH_MAX. destruct (Z.leb_spec 4096 n).
  { exists false. split; [done|]. split; [done | lia]. }
  rewrite valid_chars_ok by done. eexists. split; [done|].
  rewrite forallb_forall, Forall_forall. setoid_rewrite <- list_elem_of_In.
  setoid_rewrite negb_true_iff. setoid_rewrite orb_false_iff.
  setoid_rewrite Z.ltb_ge. setoid_rewrite Z.leb_gt. unfold printable.
  split; [intros H'; split; [done|]; intros x Hx; specialize (H' x Hx); lia
         | intros [_ H'] x Hx; specialize (H' x Hx); lia].
Qed.

(** An entry whose name has been checked. *)
Record named (e : ZipEntry) : Prop := {
  nm_in : in_map m (fileName e) (fileNameLen e);
  nm_short : fileNameLen e < 4096;
  nm_chars : Forall printable (name m e);
}.

Definition entry_le (e f : ZipEntry) : Prop := name_le (name m e) (name m f).
Definition sorted : list ZipEntry -> Prop := StronglySorted entry_le.

Lemma names_sorted_lookup l j k e f : sorted l -> (j <= k)%nat -> l !! j = Some e -> l !! k = Some f -> entry_le e f.
Proof.
  intros Hs. revert j k. induction Hs as [|x l _ IH Hx]; intros j k Hjk Hj Hk; [done|].
  destruct j as [|j], k as [|k]; cbn in Hj, Hk; simplify_eq.
  - unfold entry_le. reflexivity.
  - by eapply Forall_lookup_1.
  - lia.
  - apply (IH j k); done || lia.
Qed.

Lemma sorted_insert l t e : sorted l -> Forall (fun f => entry_le f e) (take t l) ->
  Forall (entry_le e) (drop t l) -> sorted (take t l ++ e :: drop t l).
Proof.
  intros Hs. revert t. induction Hs as [|x l Hl IH Hx]; intros t Ht Hd.
  { rewrite take_nil, drop_nil. repeat constructor. }
  destruct t as [|t]; cbn [take drop app] in *.
  - constructor; [by constructor | done].
  - apply Forall_cons in Ht as [Hxe Ht]. constructor; [by apply IH|].
    apply Forall_app_2; [by apply Forall_take|]. constructor; [done | by apply Forall_drop].
Qed.

Section search.
Context (es : list ZipEntry) (i : Z) (fName fNameLen : Z).
Context (Hi : 0 <= i <= Z.of_nat (length es)).
Context (Hn : Forall named (take (Z.to_nat i) es)) (Hs : sorted (take (Z.to_nat i) es)).
Context (Hf : in_map m fName fNameLen) (Hl : fNameLen < 4096).
Context (Hc : Forall printable (bytes_from m fName fNameLen)).

Lemma entry_ref_ok j : 0 <= j < i -> exists e, entry_ref es j = Ret e /\
  take (Z.to_nat i) es !! Z.to_nat j = Some e /\ named e.
Proof.
  intros Hj. unfold entry_ref. destruct (Z.ltb_spec j 0); [lia|].
  destruct (lookup_lt_is_Some_2 es (Z.to_nat j)) as [e He]; [lia|]. rewrite He.
  assert (take (Z.to_nat i) es !! Z.to_nat j = Some e) as Ht by (rewrite lookup_take_lt; [done | lia]).
  exists e. split; [done|]. split; [done|]. by eapply Forall_lookup_1.
Qed.

Lemma bsearch_ok fuel low high : 0 <= low -> high < i -> low <= high + 1 -> high + 1 - low < Z.of_nat fuel ->
  let new := bytes_from m fName fNameLen in
  (forall j e, Z.of_nat j < low -> take (Z.to_nat i) es !! j = Some e -> lex (name m e) new = Lt) ->
  (forall j e, high < Z.of_nat j -> take (Z.to_nat i) es !! j = Some e -> lex (name m e) new = Gt) ->
  exists h, bsearch fuel m es fName fNameLen low high = Ret h /\ -1 <= h < i /\
    (forall j e, Z.of_nat j <= h -> take (Z.to_nat i) es !! j = Some e -> name_le (name m e) new) /\
    (forall j e, h < Z.of_nat j -> take (Z.to_nat i) es !! j = Some e -> name_le new (name m e)).
Proof.
  intros Hlow Hhigh Hlh Hfuel new. revert low high Hlow Hhigh Hlh Hfuel.
  induction fuel as [|fuel IH]; intros low high Hlow Hhigh Hlh Hfuel Hlt Hgt; [lia|].
  cbn [bsearch]. destruct (Z.leb_spec low high).
  2:{ exists high. split; [done|]. split; [lia|]. split.
      - intros j e Hj He. unfold name_le. rewrite (Hlt j e); [done | lia | done].
      - intros j e Hj He. apply name_le_flip, (Hgt j e); done. }
  rewrite Z.quot_div_nonneg by lia. set (mid := low + (high - low) / 2).
  assert (low <= mid <= high).
  { pose proof (Z.div_pos (high - low) 2). pose proof (Z.div_le_upper_bound (high - low) 2 (high - low)). lia. }
  destruct (entry_ref_ok mid) as (e & Er & Et & [Hin Hsh Hch]); [lia|]. rewrite Er. cbn [mbind outcome_bind].
  destruct (strncmp_lex (Z.min (fileNameLen e) fNameLen) (fileName e) fName (fileNameLen e) fNameLen)
    as (d & Ed & Hd); try done.
  replace (if fileNameLen e <? fNameLen then fileNameLen e else fNameLen)
    with (Z.min (fileNameLen e) fNameLen) by (zcases; lia).
  rewrite Ed. cbn [mbind outcome_bind]. set (diff := if d =? 0 then _ else d) in *.
  change (bytes_from m (fileName e) (fileNameLen e)) with (name m e) in Hd. fold new in Hd. unfold sign in Hd.
  destruct (Z.ltb_spec diff 0); [|destruct (Z.ltb_spec 0 diff)].
  - apply IH; try lia; [|done]. rewrite (proj2 (Z.compare_lt_iff diff 0)) in Hd by done.
    intros j f Hj Hjf. apply lex_trans_le with (name m e); [|done].
    apply (names_sorted_lookup _ j (Z.to_nat mid) f e Hs); [lia | done | done].
  - apply IH; try lia; [done|]. rewrite (proj2 (Z.compare_gt_iff diff 0)) in Hd by done.
    intros j f Hj Hjf. rewrite lex_flip, (name_lex_trans new (name m e) (name m f)); [done | by rewrite lex_flip, <- Hd |].
    apply (names_sorted_lookup _ (Z.to_nat mid) j e f Hs); [lia | done | done].
  - assert (diff = 0) as E0 by lia. rewrite E0 in Hd. cbn in Hd. symmetry in Hd. apply lex_eq in Hd.
    exists mid. split; [done|]. split; [lia|]. rewrite <- Hd. split; intros j f Hj Hjf.
    + apply (names_sorted_lookup _ j (Z.to_nat mid) f e Hs); [lia | done | done].
    + apply (names_sorted_lookup _ (Z.to_nat mid) j e f Hs); [lia | done | done].
Qed.
End search.
End names.

(** ** One header of the central directory *)

(** The array with [e] put at [t] among the first [i] entries. *)
Definition placed (es : list ZipEntry) (i t : nat) (e : ZipEntry) : list ZipEntry :=
  take t (take i es) ++ e :: drop t (take i es) ++ drop (S i) es.

Lemma store_placed es i e : (i < length es)%nat -> <[i := e]> es = placed es i i e.
Proof.
  intros Hi. unfold placed. rewrite take_take, Nat.min_id, drop_ge by (rewrite length_take; lia).
  cbn [app]. by apply insert_take_drop.
Qed.

Lemma memmove_placed es i t e : (t < i < length es)%nat ->
  exists es', memmove_entries es (Z.of_nat t + 1) (Z.of_nat t) (Z.of_nat i - Z.of_nat t) = Ret es' /\
    length es' = length es /\ <[t := e]> es' = placed es i t e.
Proof.
  intros H. unfold memmove_entries.
  rewrite (proj2 (Z.leb_le _ _)), (proj2 (Z.leb_le _ _)) by lia. cbn [andb].
  replace (Z.to_nat (Z.of_nat t + 1)) with (S t) by lia. rewrite Nat2Z.id.
  replace (Z.to_nat (Z.of_nat i - Z.of_nat t)) with (i - t)%nat by lia.
  eexists. split; [done|]. split.
  { rewrite !length_app, !length_take, !length_drop. lia. }
  destruct (lookup_lt_is_Some_2 es t) as [x Hx]; [lia|].
  rewrite (take_S_r _ _ _ Hx), <- app_assoc, insert_app_r_alt by (rewrite length_take; lia).
  rewrite length_take, Nat.min_l, Nat.sub_diag by lia. cbn [app insert list_insert].
  unfold placed. rewrite take_take, Nat.min_l by lia. f_equal. f_equal.
  replace (S t + (i - t))%nat with (S i) by lia. f_equal.
  by rewrite skipn_firstn_comm.
Qed.

Section directory.
Context (m : MemMapping) (Hm : mapped_ok m).

Lemma make_room_ok es i fName fNameLen : 0 <= i < Z.of_nat (length es) ->
  Forall (named m) (take (Z.to_nat i) es) -> sorted m (take (Z.to_nat i) es) ->
  in_map m fName fNameLen -> fNameLen < 4096 -> Forall printable (bytes_from m fName fNameLen) ->
  let new := bytes_from m fName fNameLen in
  i < 65536 ->
  exists es' t, make_room m es i fName fNameLen = Ret (es', t) /\ 0 <= t <= i /\ length es' = length es /\
    (forall e, <[Z.to_nat t := e]> es' = placed es (Z.to_nat i) (Z.to_nat t) e) /\
    Forall (fun f => name_le (name m f) new) (take (Z.to_nat t) (take (Z.to_nat i) es)) /\
    Forall (fun f => name_le new (name m f)) (drop (Z.to_nat t) (take (Z.to_nat i) es)).
Proof.
  intros Hi Hn Hs Hf Hl Hc new Hi16. unfold make_room. destruct (Z.ltb_spec 0 i).
  2:{ assert (i = 0) as -> by lia. exists es, 0. split; [done|]. split; [lia|]. split; [done|].
      split; [|done]. intros e. apply (store_placed es 0). lia. }
  destruct (bsearch_ok m Hm es i fName fNameLen) with (fuel := S (Z.to_nat i)) (low := 0) (high := i - 1)
    as (h & -> & Hh & Hle & Hge); try done; try lia.
  { intros j e Hj He. apply lookup_lt_Some in He. rewrite length_take in He. lia. }
  cbn [mbind outcome_bind]. rewrite u32_id by (unfold is_u32; lia).
  rewrite (proj2 (Z.leb_le (h + 1) i)) by lia. cbn [negb].
  assert (Forall (fun f => name_le (name m f) new) (take (Z.to_nat (h + 1)) (take (Z.to_nat i) es))) as H1.
  { apply Forall_lookup_2. intros j e Hj.
    pose proof (lookup_lt_Some _ _ _ Hj) as Hlt. rewrite length_take in Hlt.
    rewrite lookup_take_lt in Hj by lia. apply (Hle j); [lia | done]. }
  assert (Forall (fun f => name_le new (name m f)) (drop (Z.to_nat (h + 1)) (take (Z.to_nat i) es))) as H2.
  { apply Forall_lookup_2. intros j e Hj. rewrite lookup_drop in Hj.
    apply (Hge (Z.to_nat (h + 1) + j)%nat); [lia | done]. }
  destruct (Z.eqb_spec (h + 1) i) as [E|E]; cbn [negb].
  - exists es, (h + 1). split; [done|]. split; [lia|]. split; [done|]. split; [|done].
    rewrite E. intros e. apply store_placed. lia.
  - destruct (memmove_placed es (Z.to_nat i) (Z.to_nat (h + 1)) zero_entry) as (es' & E' & HL & _); [lia|].
    rewrite !Z2Nat.id in E' by lia. rewrite E'. cbn [mbind outcome_bind].
    exists es', (h + 1). split; [done|]. split; [lia|]. split; [done|]. split; [|done].
    intros e. destruct (memmove_placed es (Z.to_nat i) (Z.to_nat (h + 1)) e) as (es2 & E2 & _ & H'); [lia|].
    rewrite !Z2Nat.id in E2 by lia. rewrite E' in E2. by injection E2 as ->.
Qed.

Lemma get4_at p n k : in_map m p n -> 0 <= k < 262144 -> k + 4 <= n ->
  get4LE m (u32 (p + k)) = Ret (val4 m (p + k)).
Proof.
  intros H ? ?. rewrite (in_map_u32 m Hm p n) by (done || lia).
  apply get4LE_ok; [done|]. by eapply in_map_sub; [apply H|lia..].
Qed.

Lemma get2_at p n k : in_map m p n -> 0 <= k < 262144 -> k + 2 <= n ->
  get2LE m (u32 (p + k)) = Ret (val2 m (p + k)).
Proof.
  intros H ? ?. rewrite (in_map_u32 m Hm p n) by (done || lia).
  apply get2LE_ok; [done|]. by eapply in_map_sub; [apply H|lia..].
Qed.

Lemma val4_u32 p : is_u32 (val4 m p).
Proof.
  unfold val4, is_u32. pose proof (le_val_range _ (bytes_from_u8 m Hm p 4)) as H.
  assert (length (bytes_from m p 4) <= 4)%nat by (unfold bytes_from; rewrite length_take; lia).
  assert (256 ^ Z.of_nat (length (bytes_from m p 4)) <= 256 ^ 4) by (apply Z.pow_le_mono_r; lia). lia.
Qed.

Lemma val2_u16 p : is_u16 (val2 m p).
Proof.
  unfold val2, is_u16. pose proof (le_val_range _ (bytes_from_u8 m Hm p 2)) as H.
  assert (length (bytes_from m p 2) <= 2)%nat by (unfold bytes_from; rewrite length_take; lia).
  assert (256 ^ Z.of_nat (length (bytes_from m p 2)) <= 256 ^ 2) by (apply Z.pow_le_mono_r; lia). lia.
Qed.

(** The entry a header describes, where the next one starts, and when it is accepted. *)
Definition local_at (ptr : Z) : Z := addr m + val4 m (ptr + CENOFF).

Definition cen_entry (ptr : Z) : ZipEntry :=
  mkZipEntry (val2 m (ptr + CENNAM)) (ptr + CENHDR)
    (val4 m (ptr + CENOFF) + LOCHDR + val2 m (local_at ptr + LOCNAM) + val2 m (local_at ptr + LOCEXT))
    (s32 (val4 m (ptr + CENSIZ))) (s32 (val4 m (ptr + CENLEN))) (val2 m (ptr + CENHOW))
    (s32 (val4 m (ptr + CENTIM))) (s32 (val4 m (ptr + CENCRC))) (val2 m (ptr + CENVEM))
    (s32 (val4 m (ptr + CENATX))).

Definition cen_next (ptr : Z) : Z :=
  ptr + CENHDR + val2 m (ptr + CENNAM) + val2 m (ptr + CENEXT) + val2 m (ptr + CENCOM).

Record cen_ok (ptr : Z) : Prop := {
  ck_in : in_map m ptr CENHDR;
  ck_sig : val4 m ptr = CENSIG;
  ck_named : named m (cen_entry ptr);
  ck_vem : Z.land (versionMadeBy (cen_entry ptr)) 0xff00 = 0 \/
           Z.land (versionMadeBy (cen_entry ptr)) 0xff00 = CENVEM_UNIX;
  ck_local : in_map m (local_at ptr) LOCHDR;
  ck_locsig : val4 m (local_at ptr) = LOCSIG;
  ck_data : 0 <= offset (cen_entry ptr) + compLen (cen_entry ptr) <= length_ m;
}.

(** A call that ends in a value with [P], or in an access to one of the last thirty
    addresses with [F]. *)
Definition safe {A} (P : A -> Prop) (F : Prop) (o : outcome A) : Prop :=
  match o with Ret x => P x | Fault p => 4294967266 <= p < 4294967296 /\ F | Halt | NoFuel => False end.

Section entry.
Context `{iop : SafeIop} `{Hiop : !SafeIopOk iop}.

(** The checks on the place of the data. *)
Lemma data_checks off siz : 0 <= off < 1073741824 + 262144 -> is_s32 siz ->
  (safe_add_long off siz = true /\ u32 (u32 off + u32 siz) <= length_ m) <-> 0 <= off + siz <= length_ m.
Proof.
  intros Ho Hs. pose proof (mo_length _ Hm). rewrite safe_add_long_ok by (done || unfold is_s32; lia).
  unfold is_s32 in Hs. rewrite andb_true_iff, Z.leb_le, Z.ltb_lt.
  rewrite (u32_id off) by (unfold is_u32; lia). unfold u32. rewrite Z.add_mod_idemp_r by done.
  destruct (decide (0 <= off + siz)).
  - rewrite (Z.mod_small (off + siz)) by lia. lia.
  - rewrite <- (Z.mod_unique (off + siz) 4294967296 (-1) (off + siz + 4294967296)) by lia.
    unfold length_ in *. lia.
Qed.

Definition with_offset (e : ZipEntry) (off : Z) : ZipEntry :=
  mkZipEntry (fileNameLen e) (fileName e) off (compLen e) (uncompLen e) (compression e) (modTime e)
    (crc32 e) (versionMadeBy e) (externalFileAttributes e).

Lemma get4LE_outside p : addr m + length_ m <= p -> get4LE m p = Fault p.
Proof.
  intros H. unfold get4LE. assert (get1 m p = Fault p) as ->; [|done].
  unfold get1. by rewrite (proj2 (Z.ltb_ge p _)), andb_false_r by lia.
Qed.

Lemma check_local_ok es t e lho next : (Z.to_nat t < length es)%nat -> is_u32 lho -> is_s32 (compLen e) ->
  let local := addr m + lho in
  let off := lho + LOCHDR + val2 m (local + LOCNAM) + val2 m (local + LOCEXT) in
  let ok := in_map m local LOCHDR /\ val4 m local = LOCSIG /\ 0 <= off + compLen e <= length_ m in
  safe (fun '(es', r) => length es' = length es /\
      match r with
      | None => ~ ok
      | Some next' => ok /\ next' = next /\ es' = <[Z.to_nat t := with_offset e off]> es
      end) (~ ok) (check_local m es t e lho next).
Proof.
  intros Ht Hl Hs local off ok. pose proof Hm as [_ Hlo Hlen Hhi]. unfold check_local, LOCHDR.
  assert (0 <= length_ m) by (unfold length_; lia). unfold is_u32 in Hl.
  rewrite safe_add_uintptr_ok by (unfold is_u32; lia). fold local.
  assert (forall e, length (store_entry es t e) = length es) as HL by (intros; apply length_insert).
  destruct (Z.ltb_spec local 4294967296).
  2:{ cbn. split; [apply HL|]. unfold ok, in_map. lia. }
  rewrite (u32_id (addr m + length_ m)) by (unfold is_u32; lia).
  destruct (decide (local + 30 < 4294967296)).
  2:{ unfold u32 at 1. rewrite <- (Z.mod_unique (local + 30) 4294967296 1 (local + 30 - 4294967296)) by lia.
      destruct (Z.ltb_spec (addr m + length_ m) (local + 30 - 4294967296)).
      { cbn. split; [apply HL|]. unfold ok, in_map, LOCHDR. lia. }
      rewrite get4LE_outside by lia. cbn. split; [lia|]. unfold ok, in_map, LOCHDR. lia. }
  rewrite u32_id by (unfold is_u32; lia). destruct (Z.ltb_spec (addr m + length_ m) (local + 30)).
  { cbn. split; [apply HL|]. unfold ok, in_map, LOCHDR. lia. }
  assert (in_map m local 30) as Hin by (unfold in_map; lia).
  rewrite (get4LE_ok m Hm local) by (eapply in_map_sub; [apply Hin|lia..]). cbn [mbind outcome_bind].
  destruct (Z.eqb_spec (val4 m local) LOCSIG); cbn [negb].
  2:{ cbn. split; [apply HL|]. unfold ok. naive_solver. }
  rewrite !(get2_at local 30) by (done || unfold LOCNAM, LOCEXT; lia). cbn [mbind outcome_bind offset compLen].
  pose proof (val2_u16 (local + LOCNAM)). pose proof (val2_u16 (local + LOCEXT)). unfold is_u16 in *.
  fold LOCHDR. fold off. assert (0 <= off < 1073741824 + 262144) by (unfold off, LOCHDR; lia).
  rewrite (u32_id off), (s32_id off) by (unfold is_u32, is_s32; lia).
  pose proof (data_checks off (compLen e) ltac:(lia) Hs) as Hd.
  destruct (safe_add_long off (compLen e)) eqn:Ea; cbn [negb].
  2:{ cbn. split; [apply HL|]. unfold ok. intros (_ & _ & H'). apply Hd in H'. naive_solver. }
  destruct (Z.ltb_spec (length_ m) (u32 (u32 off + u32 (compLen e)))) as [Hc|Hc].
  { cbn. split; [apply HL|]. unfold ok. intros (_ & _ & H'). apply Hd in H' as [_ H']. lia. }
  cbn. split; [apply HL|]. split; [|done]. unfold ok. split; [done|]. split; [done|]. by apply Hd.
Qed.

(** Where an entry has been put. *)
Definition put (es es' : list ZipEntry) (i : Z) (e : ZipEntry) : Prop :=
  exists t, (t <= Z.to_nat i)%nat /\ es' = placed es (Z.to_nat i) t e /\
    Forall (fun f => entry_le m f e) (take t (take (Z.to_nat i) es)) /\
    Forall (entry_le m e) (drop t (take (Z.to_nat i) es)).

Ltac fields ptr Hin :=
  rewrite ?(get4_at ptr CENHDR) by (exact Hin || (unfold CENOFF, CENSIZ, CENLEN, CENTIM, CENCRC, CENATX, CENHDR; lia));
  rewrite ?(get2_at ptr CENHDR) by (exact Hin || (unfold CENNAM, CENEXT, CENCOM, CENHOW, CENVEM, CENHDR; lia));
  cbn [mbind outcome_bind].

Lemma parse_entry_ok es i ptr :
  0 <= i < Z.of_nat (length es) -> i < 65536 ->
  Forall (named m) (take (Z.to_nat i) es) -> sorted m (take (Z.to_nat i) es) ->
  addr m <= ptr <= addr m + length_ m + 200000 ->
  safe (fun '(es', r) => length es' = length es /\
      match r with
      | None => ~ cen_ok ptr
      | Some next => cen_ok ptr /\ next = cen_next ptr /\ put es es' i (cen_entry ptr)
      end) (~ cen_ok ptr) (parse_entry m es i ptr).
Proof.
  intros Hi Hi16 Hn Hs Hp. pose proof Hm as [_ Hlo Hlen Hhi]. unfold parse_entry.
  assert (0 <= length_ m) by (unfold length_; lia).
  rewrite (u32_id (addr m + length_ m)), (u32_id (ptr + CENHDR)) by (unfold is_u32, CENHDR; lia).
  destruct (Z.ltb_spec (addr m + length_ m) (ptr + CENHDR)).
  { cbn. split; [done|]. intros [[? [? ?]]]. lia. }
  assert (in_map m ptr CENHDR) as Hin by (unfold in_map, CENHDR in *; lia).
  rewrite (get4LE_ok m Hm ptr) by (eapply in_map_sub; [apply Hin|unfold CENHDR; lia..]).
  cbn [mbind outcome_bind].
  destruct (Z.eqb_spec (val4 m ptr) CENSIG); cbn [negb].
  2:{ cbn. split; [done|]. by intros []. }
  fields ptr Hin. pose proof (val2_u16 (ptr + CENNAM)) as Hnam.
  pose proof (val2_u16 (ptr + CENEXT)) as Hext. pose proof (val2_u16 (ptr + CENCOM)) as Hcom.
  unfold is_u16 in *. set (fnl := val2 m (ptr + CENNAM)) in *.
  rewrite (u32_id (ptr + CENHDR + fnl)) by (unfold is_u32, CENHDR in *; lia).
  destruct (Z.ltb_spec (addr m + length_ m) (ptr + CENHDR + fnl)).
  { cbn. split; [done|]. intros [_ _ [[? [? Hb]] _ _] _ _ _]. cbn in Hb. fold fnl in Hb. lia. }
  assert (in_map m (ptr + CENHDR) fnl) as Hinn by (unfold in_map, CENHDR in *; lia).
  destruct (validFilename_ok m Hm fnl (ptr + CENHDR) Hinn) as (valid & -> & Hv). cbn [mbind outcome_bind].
  destruct valid; cbn [negb].
  2:{ cbn. split; [done|]. intros [_ _ [_ Hb1 Hb2] _ _ _]. cbn in Hb1, Hb2.
      assert (false = true) by (by apply Hv). done. }
  destruct (proj1 Hv eq_refl) as [Hsh Hpr].
  destruct (make_room_ok es i (ptr + CENHDR) fnl) as (es1 & t & -> & Ht & HL1 & Hput & Hle & Hge); try done.
  cbn [mbind outcome_bind].
  assert (exists old, entry_ref es1 t = Ret old) as [old ->].
  { unfold entry_ref. destruct (Z.ltb_spec t 0); [lia|].
    destruct (lookup_lt_is_Some_2 es1 (Z.to_nat t)) as [old ->]; [lia|]. by exists old. }
  cbn [mbind outcome_bind].
  assert (forall e, length (store_entry es1 t e) = length es) as HL by (intros; unfold store_entry; rewrite length_insert; lia).
  destruct (negb _ && negb _) eqn:Evem.
  { cbn. split; [apply HL|]. intros [_ _ _ Hvem _ _ _]. cbn in Hvem.
    apply andb_true_iff in Evem as [E1 E2]. apply negb_true_iff, Z.eqb_neq in E1.
    apply negb_true_iff, Z.eqb_neq in E2. tauto. }
  set (e1 := mkZipEntry fnl _ _ _ _ _ _ _ _ _).
  pose proof (check_local_ok es1 t e1 (val4 m (ptr + CENOFF))
    (u32 (ptr + (CENHDR + fnl + val2 m (ptr + CENEXT) + val2 m (ptr + CENCOM))))) as Hk.
  cbv zeta in Hk. fold (local_at ptr) in Hk. specialize (Hk ltac:(lia) (val4_u32 _) (s32_range _)).
  destruct (check_local _ _ _ _ _ _) as [[es' r]|p| |]; cbn in Hk |- *; try done.
  2:{ destruct Hk as [? Hk]. split; [done|]. intros [_ _ _ _ K1 K2 K3]. apply Hk. done. }
  destruct Hk as [HL' Hk]. split; [lia|]. destruct r as [next|].
  2:{ intros [_ _ _ _ K1 K2 K3]. apply Hk. done. }
  destruct Hk as ((Hk1 & Hk2 & Hk3) & -> & Hes).
  split; [split; try done|].
  { apply andb_false_iff in Evem. cbn. rewrite !negb_false_iff, !Z.eqb_eq in Evem. done. }
  split.
  { rewrite u32_id by (unfold is_u32, CENHDR in *; lia). unfold cen_next. fold fnl. lia. }
  exists (Z.to_nat t). split; [lia|]. rewrite Hes, Hput. done.
Qed.

(** What the headers from [ptr] on describe, in the order of the directory. *)
Fixpoint directory (n : nat) (ptr : Z) : list ZipEntry :=
  match n with O => [] | S n => cen_entry ptr :: directory n (cen_next ptr) end.
Fixpoint directory_ok (n : nat) (ptr : Z) : Prop :=
  match n with O => True | S n => cen_ok ptr /\ directory_ok n (cen_next ptr) end.

Lemma put_prefix es es' i e : 0 <= i < Z.of_nat (length es) -> put es es' i e ->
  length es' = length es /\ exists t,
    take (Z.to_nat (i + 1)) es' = take t (take (Z.to_nat i) es) ++ e :: drop t (take (Z.to_nat i) es) /\
    Forall (fun f => entry_le m f e) (take t (take (Z.to_nat i) es)) /\
    Forall (entry_le m e) (drop t (take (Z.to_nat i) es)).
Proof.
  intros Hi (t & Ht & -> & H1 & H2). unfold placed. split.
  { rewrite length_app, length_cons, length_app, !length_take, !length_drop, !length_take. lia. }
  exists t. split; [|done]. rewrite app_comm_cons, app_assoc.
  rewrite take_app_length'; [done|].
  rewrite length_app, length_cons, length_take, length_drop, !length_take. lia.
Qed.

Lemma parse_entries_ok n es i ptr :
  0 <= i -> i + Z.of_nat n = Z.of_nat (length es) -> Z.of_nat (length es) <= 65536 ->
  Forall (named m) (take (Z.to_nat i) es) -> sorted m (take (Z.to_nat i) es) ->
  addr m <= ptr <= addr m + length_ m + 200000 ->
  safe (fun '(es', ok) => length es' = length es /\
      if ok : bool then directory_ok n ptr /\ Forall (named m) es' /\ sorted m es' /\
        es' ≡ₚ directory n ptr ++ take (Z.to_nat i) es
      else ~ directory_ok n ptr) (~ directory_ok n ptr) (parse_entries n m es i ptr).
Proof.
  revert es i ptr. induction n as [|n IH]; intros es i ptr Hi Hn H16 Hnm Hs Hp; cbn [parse_entries].
  { cbn. rewrite take_ge in Hnm, Hs |- * by lia. done. }
  pose proof (parse_entry_ok es i ptr) as H. specialize (H ltac:(lia) ltac:(lia) Hnm Hs Hp).
  destruct (parse_entry m es i ptr) as [[es1 [next|]]|p| |]; cbn [mbind outcome_bind safe] in H |- *; try done.
  - destruct H as (HL & Hc & -> & Hput).
    destruct (put_prefix es es1 i (cen_entry ptr) ltac:(lia) Hput) as (_ & t & Ht & H1 & H2).
    specialize (IH es1 (i + 1) (cen_next ptr)).
    assert (addr m <= cen_next ptr <= addr m + length_ m + 200000) as Hnext.
    { destruct Hc as [_ _ [[? [? Hb]] _ _] _ _ _]. cbn in Hb. unfold cen_next.
      pose proof (val2_u16 (ptr + CENNAM)). pose proof (val2_u16 (ptr + CENEXT)).
      pose proof (val2_u16 (ptr + CENCOM)). unfold is_u16, CENHDR in *. lia. }
    assert (take (Z.to_nat (i + 1)) es1 ≡ₚ cen_entry ptr :: take (Z.to_nat i) es) as HP.
    { rewrite Ht. rewrite <- Permutation_middle. by rewrite take_drop. }
    rewrite HL in IH. specialize (IH ltac:(lia) ltac:(lia) H16).
    assert (Forall (named m) (take (Z.to_nat (i + 1)) es1)) as Hnm1.
    { rewrite HP. constructor; [apply Hc | done]. }
    assert (sorted m (take (Z.to_nat (i + 1)) es1)) as Hs1 by (rewrite Ht; by apply sorted_insert).
    specialize (IH Hnm1 Hs1 Hnext).
    destruct (parse_entries n m es1 (i + 1) (cen_next ptr)) as [[es2 [|]]|p| |];
      cbn [safe directory_ok directory] in IH |- *; try tauto.
    destruct IH as (? & ? & ? & ? & IH). do 4 (split; [done|]).
    rewrite IH, HP. cbn [app]. by rewrite <- Permutation_middle.
  - destruct H as [HL H]. split; [done|]. cbn. tauto.
  - cbn. tauto.
Qed.
End entry.
End directory.

(** ** The index by name *)

Section index.
Context (m : MemMapping) (es : list ZipEntry) (base : Z).
Context (Hn : Forall (named m) es) (Hbase : 0 < base) (Halign : base mod 8 = 0).

Lemma memcmp_zero n xs ys : length xs = n -> length ys = n -> memcmp n xs ys = 0 <-> xs = ys.
Proof.
  revert xs ys. induction n as [|n IH]; intros [|x xs] [|y ys] Hx Hy; try discriminate; [done|].
  cbn [memcmp]. destruct (Z.eqb_spec x y) as [-> |].
  - rewrite IH by (cbn in *; lia). split; congruence.
  - split; [lia | congruence].
Qed.

Lemma named_length e : named m e -> length (name m e) = Z.to_nat (fileNameLen e).
Proof. intros [H _ _]. by apply (length_bytes_from m). Qed.

Lemma hashcmpZipEntry_zero e f : named m e -> named m f ->
  hashcmpZipEntry m e f = 0 <-> name m e = name m f.
Proof.
  intros He Hf. pose proof (named_length e He) as HLe. pose proof (named_length f Hf) as HLf.
  destruct He as [[? [? _]] ? _], Hf as [[? [? _]] ? _].
  unfold hashcmpZipEntry. destruct (Z.eqb_spec (fileNameLen e) (fileNameLen f)) as [E|E]; cbn [negb].
  - apply memcmp_zero; congruence.
  - rewrite s32_id by (unfold is_s32; lia). split; [lia|]. intros H'. rewrite H' in HLe. lia.
Qed.

Lemma hashcmpZipName_zero e str : named m e -> Z.of_nat (length str) < 2147483648 ->
  hashcmpZipName m e str = 0 <-> name m e = str.
Proof.
  intros He Hstr. pose proof (named_length e He) as HLe. destruct He as [[? [? _]] ? _].
  unfold hashcmpZipName. destruct (Z.eqb_spec (fileNameLen e) (Z.of_nat (length str))) as [E|E]; cbn [negb].
  - apply memcmp_zero; lia.
  - rewrite s32_id by (unfold is_s32; lia). split; [lia|]. intros H'. rewrite H' in HLe. lia.
Qed.

Lemma computeHash_u32 str : is_u32 (computeHash str).
Proof.
  unfold computeHash. assert (is_u32 2) as H by (unfold is_u32; lia). revert H.
  generalize 2. induction str as [|c str IH]; intros h Hh; cbn [foldl]; auto.
Qed.

Definition entry_addr (k : nat) : Z := base + sizeof_ZipEntry * Z.of_nat k.

Lemma entry_at_addr k e : es !! k = Some e -> entry_at base es (entry_addr k) = e.
Proof.
  intros H. unfold entry_at, entry_addr.
  replace (base + sizeof_ZipEntry * Z.of_nat k - base) with (Z.of_nat k * sizeof_ZipEntry) by lia.
  rewrite Z.div_mul, Nat2Z.id by done. by rewrite (nth_lookup_Some _ _ _ _ H).
Qed.

Lemma entry_addr_live k : entry_addr k <> 0 /\ entry_addr k <> HASH_TOMBSTONE.
Proof.
  unfold entry_addr, sizeof_ZipEntry, HASH_TOMBSTONE. split; [lia|]. intros H.
  pose proof (Z.div_mod base 8 ltac:(done)). lia.
Qed.

(** The entry at [k] is the first one with its name. *)
Definition first_named (k : nat) (e : ZipEntry) : Prop :=
  es !! k = Some e /\ forall j f, (j < k)%nat -> es !! j = Some f -> name m f <> name m e.

(** The table holds the first entry of each name among the first [i]. *)
Definition indexed (ht : HashTable) (i : nat) : Prop :=
  forall h d, (h, d) ∈ contents ht <->
    exists k e, (k < i)%nat /\ first_named k e /\ h = computeHash (name m e) /\ d = entry_addr k.

Lemma first_exists k e : es !! k = Some e ->
  exists j f, (j <= k)%nat /\ first_named j f /\ name m f = name m e.
Proof.
  revert e. induction k as [k IH] using lt_wf_ind; intros e He.
  destruct (decide (Exists (fun f => name m f = name m e) (take k es))) as [H|H].
  - apply Exists_exists in H as (f & Hf & E). apply list_elem_of_lookup in Hf as [j Hj].
    pose proof (lookup_lt_Some _ _ _ Hj) as Hlt. rewrite length_take in Hlt.
    rewrite lookup_take_lt in Hj by lia.
    destruct (IH j ltac:(lia) f Hj) as (j' & f' & ? & ? & E'). exists j', f'.
    split; [lia|]. split; [done | congruence].
  - exists k, e. split; [done|]. split; [|done]. split; [done|]. intros j f Hj Hf E. apply H.
    apply Exists_exists. exists f. split; [|done].
    apply list_elem_of_lookup. exists j. by rewrite lookup_take_lt.
Qed.

Lemma add_entry_indexed al ht i e : wf ht -> indexed ht i -> es !! i = Some e ->
  (HashTable.numEntries ht + 1 + numDeadEntries ht) * 8 <= tableSize ht * 5 -> tableSize ht < 268435456 ->
  exists ht', addEntryToHashTable al m base es ht (Z.of_nat i) = Ret ht' /\ wf ht' /\ indexed ht' (S i) /\
    tableSize ht' = tableSize ht /\ numDeadEntries ht' = numDeadEntries ht /\
    HashTable.numEntries ht' <= HashTable.numEntries ht + 1.
Proof.
  intros Hwf Hix He Hroom Hcap. unfold addEntryToHashTable. fold (entry_addr i).
  rewrite (entry_at_addr i e He). destruct (entry_addr_live i) as [Hnz Hnt].
  set (cmp := fun d item => hashcmpZipEntry m (entry_at base es d) (entry_at base es item)).
  destruct (lookup_room cmp (grow_calloc al) ht (computeHash (name m e)) (entry_addr i) Hwf Hroom) as [E Hsize].
  rewrite E in Hsize |- *.
  pose proof (lookup_ok cmp true true ht (computeHash (name m e)) (entry_addr i) Hwf (computeHash_u32 _)
    Hnz Hnt (fun _ => Hcap)) as Hl.
  destruct (mzHashTableLookup cmp true ht _ _ true) as [[ht' r]| | |]; try done; [|by destruct Hl].
  destruct (Hsize ht' r eq_refl) as (? & ? & ?). cbn [of_result mbind outcome_bind].
  exists ht'. split; [done|]. destruct Hl as [Hwf' Hl]. split; [done|]. split; [|done].
  assert (named m e) as Hne by (by eapply Forall_lookup_1).
  assert (forall h d, (h, d) ∈ contents ht -> cmp d (entry_addr i) = 0 ->
    exists k f, (k < i)%nat /\ es !! k = Some f /\ name m f = name m e) as Hdup.
  { intros h d Hd Hc. apply Hix in Hd as (k & f & Hk & [Hf _] & _ & ->).
    unfold cmp in Hc. rewrite (entry_at_addr k f Hf), (entry_at_addr i e He) in Hc.
    apply hashcmpZipEntry_zero in Hc; [by exists k, f | by eapply Forall_lookup_1 | done]. }
  destruct Hl as [(d & Hd & Hc & _ & ->) | (Hno & _ & HP)].
  - destruct (Hdup _ _ Hd Hc) as (k & f & Hk & Hf & Ef). intros h d'. rewrite (Hix h d').
    split; intros (k' & e' & Hk' & Hfirst & -> & ->); exists k', e'.
    + split; [lia | done].
    + split; [|done]. destruct (decide (k' = i)) as [-> |]; [|lia].
      destruct Hfirst as [He' Hfirst]. rewrite He in He'. injection He' as <-. by destruct (Hfirst k f Hk Hf).
  - intros h d. rewrite HP, elem_of_cons, (Hix h d). split.
    + intros [[= -> ->]|(k & f & Hk & Hr)]; [|exists k, f; split; [lia | done]].
      exists i, e. split; [lia|]. split; [|done]. split; [done|]. intros j f Hj Hf E'.
      destruct (first_exists j f Hf) as (j' & f' & Hj' & Hfirst & E'').
      assert ((computeHash (name m e), entry_addr j') ∈ contents ht) as Hin.
      { apply Hix. exists j', f'. split; [lia|]. split; [done|]. split; [congruence | done]. }
      apply (Hno _ Hin). unfold cmp. destruct Hfirst as [Hf' _].
      rewrite (entry_at_addr j' f' Hf'), (entry_at_addr i e He).
      apply hashcmpZipEntry_zero; [by eapply Forall_lookup_1 | done | congruence].
    + intros (k & f & Hk & Hfirst & -> & ->). destruct (decide (k = i)) as [-> |].
      * left. destruct Hfirst as [Hf _]. rewrite He in Hf. by injection Hf as <-.
      * right. exists k, f. split; [lia | done].
Qed.

Lemma add_entries_indexed al n ht i : wf ht -> indexed ht i -> (i + n = length es)%nat ->
  (HashTable.numEntries ht + Z.of_nat n + numDeadEntries ht) * 8 <= tableSize ht * 5 -> tableSize ht < 268435456 ->
  exists ht', add_entries n al m base es ht (Z.of_nat i) = Ret ht' /\ wf ht' /\ indexed ht' (length es).
Proof.
  revert ht i. induction n as [|n IH]; intros ht i Hwf Hix Hl Hroom Hcap; cbn [add_entries].
  { exists ht. replace (length es) with i by lia. done. }
  destruct (lookup_lt_is_Some_2 es i) as [e He]; [lia|].
  destruct (add_entry_indexed al ht i e) as (ht1 & -> & Hwf1 & Hix1 & Hs1 & Hd1 & Hn1); try (done || lia).
  cbn [mbind outcome_bind]. replace (Z.of_nat i + 1) with (Z.of_nat (S i)) by lia.
  apply IH; try (done || lia).
Qed.

(** Looking a name up. *)
Lemma find_indexed ht str at_ : wf ht -> indexed ht (length es) -> Z.of_nat (length str) < 2147483648 ->
  at_ <> 0 -> at_ <> HASH_TOMBSTONE ->
  exists p, of_result (mzHashTableLookup (fun d _ => hashcmpZipName m (entry_at base es d) str)
      false ht (computeHash str) at_ false) = Ret (ht, p) /\
    ((exists k e, first_named k e /\ name m e = str /\ p = entry_addr k) \/
     (p = 0 /\ forall e, e ∈ es -> name m e <> str)).
Proof.
  intros Hwf Hix Hstr H0 Ht.
  pose proof (lookup_ok (fun d _ => hashcmpZipName m (entry_at base es d) str) false false ht
    (computeHash str) at_ Hwf (computeHash_u32 _) H0 Ht) as Hl.
  lapply Hl; [clear Hl; intros Hl | done].
  destruct (mzHashTableLookup _ _ _ _ _ _) as [[ht' r]| | |]; try done; [|by destruct Hl].
  destruct Hl as [_ [(d & Hd & Hc & -> & ->) | (Hno & -> & ->)]]; cbn [of_result].
  - exists d. split; [done|]. left. apply Hix in Hd as (k & e & Hk & Hfirst & _ & ->).
    exists k, e. split; [done|]. split; [|done]. destruct Hfirst as [He _].
    rewrite (entry_at_addr k e He) in Hc. apply hashcmpZipName_zero in Hc; [done| |done].
    by eapply Forall_lookup_1.
  - exists 0. split; [done|]. right. split; [done|]. intros e He E.
    apply list_elem_of_lookup in He as [k He].
    destruct (first_exists k e He) as (j & f & Hj & Hfirst & Ef).
    assert ((computeHash str, entry_addr j) ∈ contents ht) as Hin.
    { apply Hix. exists j, f. pose proof (lookup_lt_Some _ _ _ He).
      split; [lia|]. split; [done|]. split; [congruence | done]. }
    apply (Hno _ Hin). destruct Hfirst as [Hf _]. rewrite (entry_at_addr j f Hf).
    apply hashcmpZipName_zero; [by eapply Forall_lookup_1 | done | congruence].
Qed.
End index.

(** ** The archive *)

Section archive.
Context (m : MemMapping) (Hm : mapped_ok m) (Hlen : ENDHDR <= length_ m).

Definition is_eocd (p : Z) : Prop := in_map m p ENDHDR /\ val4 m p = ENDSIG.
Definition last_eocd (p : Z) : Prop := is_eocd p /\ forall q, is_eocd q -> q <= p.

(** What the end of the central directory at [p] says. *)
Definition total (p : Z) : nat := Z.to_nat (val2 m (p + ENDSUB)).
Definition start (p : Z) : Z := addr m + val4 m (p + ENDOFF).

Record archive_at (p : Z) : Prop := {
  aa_first : val4 m (addr m) = LOCSIG;
  aa_eocd : last_eocd p;
  aa_some : (0 < total p)%nat;
  aa_start : start p < addr m + length_ m;
  aa_directory : directory_ok m (total p) (start p);
}.

Lemma val4_first p c : in_map m p 4 -> get1 m p = Ret c -> val4 m p mod 256 = c.
Proof.
  intros H Hc. destruct (get1_cons m Hm p 4 H ltac:(lia)) as (c' & Hu & E & V).
  rewrite Hc in E. injection E as <-. unfold val4. rewrite V. cbn [le_val].
  rewrite (Z.mul_comm 256), Z_mod_plus_full. by apply Z.mod_small.
Qed.

Lemma find_eocd_ok fuel ptr : addr m - 1 <= ptr <= addr m + length_ m - ENDHDR ->
  ptr - addr m + 1 < Z.of_nat fuel -> (forall q, is_eocd q -> q <= ptr) ->
  exists p, find_eocd fuel m ptr = Ret p /\
    (last_eocd p \/ p < addr m /\ forall q, ~ is_eocd q).
Proof.
  pose proof Hm as [_ Hlo _ Hhi].
  revert ptr. induction fuel as [|fuel IH]; intros ptr Hp Hf Hq; cbn [find_eocd].
  { lia. }
  unfold ENDHDR in *. destruct (Z.leb_spec (addr m) ptr).
  2:{ exists ptr. split; [done|]. right. split; [done|]. intros q Hq'. pose proof (Hq q Hq').
      destruct Hq' as [[? _] _]. lia. }
  assert (in_map m ptr 22) as Hin by (unfold in_map; lia).
  assert (in_map m ptr 4) as Hin4 by (unfold in_map in *; lia).
  destruct (get1_cons m Hm ptr 4 Hin4 ltac:(lia)) as (c & _ & Hc & _). rewrite Hc. cbn [mbind outcome_bind].
  assert ((if c =? Z.land ENDSIG 255 then sig ← get4LE m ptr; Ret (sig =? ENDSIG) else Ret false)
    = Ret (val4 m ptr =? ENDSIG)) as ->.
  { destruct (Z.eqb_spec c (Z.land ENDSIG 255)) as [-> |Hne].
    - by rewrite (get4LE_ok m Hm ptr Hin4).
    - destruct (Z.eqb_spec (val4 m ptr) ENDSIG) as [E|]; [|done].
      rewrite <- (val4_first ptr c Hin4 Hc), E in Hne. by destruct Hne. }
  cbn [mbind outcome_bind]. destruct (Z.eqb_spec (val4 m ptr) ENDSIG).
  - exists ptr. split; [done|]. left. split; [|done]. done.
  - rewrite u32_id by (unfold is_u32; lia). apply IH; [lia | lia |].
    intros q Hq'. pose proof (Hq q Hq'). destruct (decide (q = ptr)) as [-> |]; [|lia].
    by destruct Hq'.
Qed.

(** What is known of an archive that has been parsed. *)
Record parsed (al : Alloc) (p : Z) (ar : ZipArchive) : Prop := {
  pa_count : numEntries ar = Z.of_nat (total p) /\ length (entries ar) = total p;
  pa_base : pEntries ar = calloc_entries_at al;
  pa_named : Forall (named m) (entries ar);
  pa_sorted : sorted m (entries ar);
  pa_perm : entries ar ≡ₚ directory m (total p) (start p);
  pa_hash : exists ht, pHash ar = Some ht /\ wf ht /\
              indexed m (entries ar) (pEntries ar) ht (length (entries ar));
}.

(** The allocations succeed, and the allocator aligns what it returns. *)
Definition alloc_ok (al : Alloc) : Prop :=
  0 < calloc_entries_at al /\ hash_malloc al = true /\ hash_calloc al = true.
Definition aligned (al : Alloc) : Prop := 0 <= calloc_entries_at al /\ calloc_entries_at al mod 8 = 0.

Lemma create_for n : 0 < n < 65536 ->
  exists ht, mzHashTableCreate true true (mzHashSize n) false = Ok (Some ht) /\ wf ht /\ contents ht = [] /\
    (HashTable.numEntries ht + n + numDeadEntries ht) * 8 <= tableSize ht * 5 /\ tableSize ht < 268435456.
Proof.
  intros Hn. unfold mzHashSize, LOAD_DENOM, LOAD_NUMER.
  rewrite (u32_id (n * 8)) by (unfold is_u32; lia).
  pose proof (Z.div_pos (n * 8) 5). pose proof (Z.div_mod (n * 8) 5 ltac:(done)).
  pose proof (Z.mod_pos_bound (n * 8) 5). rewrite u32_id by (unfold is_u32; lia).
  destruct (mzHashTableCreate_ok (n * 8 / 5 + 1) false) as (ht & E & Hwf & Hc & _ & K0 & K1 & k & Hk & Hs & Hle & Hleast);
    [lia|].
  exists ht. split; [done|]. split; [done|]. split; [done|]. rewrite K0, K1, Hs. split; [lia|].
  assert (k <= 17) by (apply Hleast; lia).
  apply Z.le_lt_trans with (2 ^ 17); [apply Z.pow_le_mono_r; lia | done].
Qed.

Context `{iop : SafeIop} `{Hiop : !SafeIopOk iop}.

Definition failed (al : Alloc) : Prop := ~ alloc_ok al \/ forall p, ~ archive_at p.

(** From the end of the central directory on. *)
Lemma parse_directory_ok al n ptr : aligned al -> 0 < n < 65536 -> addr m <= ptr < addr m + length_ m ->
  alloc_ok al -> exists ht, mzHashTableCreate (hash_malloc al) (hash_calloc al) (mzHashSize n) false = Ok (Some ht) /\
  safe (fun '(es, ok) => if ok : bool then
      length es = Z.to_nat n /\ directory_ok m (Z.to_nat n) ptr /\ Forall (named m) es /\ sorted m es /\
      es ≡ₚ directory m (Z.to_nat n) ptr /\
      exists ht', add_entries (Z.to_nat n) al m (calloc_entries_at al) es ht 0 = Ret ht' /\ wf ht' /\
        indexed m es (calloc_entries_at al) ht' (length es)
    else ~ directory_ok m (Z.to_nat n) ptr) (~ directory_ok m (Z.to_nat n) ptr)
    (parse_entries (Z.to_nat n) m (replicate (Z.to_nat n) zero_entry) 0 ptr).
Proof.
  intros [_ Hal] Hn Hp (Hb & Hma & Hca). rewrite Hma, Hca.
  destruct (create_for n Hn) as (ht & E & Hwf & Hc & Hroom & Hcap). exists ht. split; [done|].
  pose proof (parse_entries_ok m Hm (Z.to_nat n) (replicate (Z.to_nat n) zero_entry) 0 ptr) as H.
  rewrite length_replicate in H. change (Z.to_nat 0) with 0%nat in H. rewrite take_0 in H.
  specialize (H ltac:(lia) ltac:(lia) ltac:(lia) (Forall_nil_2 _) (SSorted_nil _) ltac:(lia)).
  destruct (parse_entries _ _ _ _ _) as [[es [|]]|q| |]; cbn [safe] in H |- *; try done; [|tauto].
  destruct H as (HL & Hd & Hnm & Hs & HP). rewrite app_nil_r in HP. do 5 (split; [done|]).
  destruct (add_entries_indexed m es (calloc_entries_at al) Hnm Hb Hal al (Z.to_nat n) ht 0)
    as (ht' & Ea & Hwf' & Hix'); try (done || lia).
  { intros h d. rewrite Hc. split; [by intros ?%not_elem_of_nil | intros (k & ? & Hk & _); lia]. }
  by exists ht'.
Qed.

Lemma alloc_fails al n : aligned al -> 0 < n < 65536 -> ~ alloc_ok al ->
  exists r, mzHashTableCreate (hash_malloc al) (hash_calloc al) (mzHashSize n) false = Ok r /\
    (r = None \/ calloc_entries_at al = 0).
Proof.
  intros [Ha _] Hn Hno. destruct (create_for n Hn) as (ht & E & _). unfold mzHashTableCreate in *.
  destruct (negb (0 <? mzHashSize n)); [done|]. cbn [negb] in E. unfold alloc_ok in Hno.
  destruct (hash_malloc al), (hash_calloc al); cbn [negb]; try (eexists; split; [done|]; by left).
  eexists. split; [done|]. right. destruct (decide (calloc_entries_at al = 0)); [done|]. exfalso. apply Hno.
  split; [lia | done].
Qed.

Lemma read_directory_ok al ar p : aligned al -> 0 < val2 m (p + ENDSUB) -> start p < addr m + length_ m ->
  safe (fun '(ar', ok) => fd ar' = fd ar /\ map ar' = map ar /\
      if ok : bool then directory_ok m (total p) (start p) /\ parsed al p ar'
      else ~ alloc_ok al \/ ~ directory_ok m (total p) (start p))
    (~ directory_ok m (total p) (start p))
    (read_directory al ar m (val2 m (p + ENDSUB)) (start p)).
Proof.
  intros Hal Hn0 Hst. unfold read_directory. pose proof (val2_u16 m Hm (p + ENDSUB)) as Hn16.
  pose proof (val4_u32 m Hm (p + ENDOFF)) as Hcd. unfold is_u16, is_u32 in *.
  set (n := val2 m (p + ENDSUB)) in *.
  destruct (decide (0 < calloc_entries_at al /\ hash_malloc al = true /\ hash_calloc al = true)) as [Hok|Hno].
  2:{ destruct (alloc_fails al n Hal ltac:(lia) Hno) as (r & -> & Hr). cbn [of_result mbind outcome_bind].
      destruct r as [ht|]; [destruct Hr as [|Hr]; [done|]; rewrite Hr|].
      all: cbn; do 2 (split; [done|]); by left. }
  destruct (parse_directory_ok al n (start p) Hal ltac:(lia) ltac:(unfold start in *; lia) Hok) as (ht & -> & H).
  cbn [of_result mbind outcome_bind]. destruct Hok as [Hb _].
  destruct (Z.eqb_spec (calloc_entries_at al) 0); [lia|].
  destruct (parse_entries _ _ _ _ _) as [[es [|]]|q| |]; cbn [safe mbind outcome_bind negb] in H |- *; try done.
  2:{ split; [done|]. split; [done|]. by right. }
  destruct H as (HL & Hd & Hnm & Hs & HP & ht' & -> & Hwf' & Hix'). cbn.
  do 2 (split; [done|]). split; [done|]. split; cbn; try done.
  - unfold total. fold n. split; [lia | done].
  - by exists ht'.
Qed.

(** The result of [parseZipArchive] on any file. *)
Lemma parseZipArchive_ok al ar : aligned al ->
  safe (fun '(ar', ok) => fd ar' = fd ar /\ map ar' = map ar /\
      if ok : bool then exists p, archive_at p /\ parsed al p ar' else failed al)
    (forall p, ~ archive_at p) (parseZipArchive al ar m).
Proof.
  intros Hal. pose proof Hm as [_ Hlo Hmax Hhi]. unfold parseZipArchive. pose proof Hlen as Hlen'.
  unfold ENDHDR in Hlen'. rewrite (get4LE_ok m Hm (addr m)) by (unfold in_map; lia). cbn [mbind outcome_bind].
  assert (forall (P : Prop), (forall p, archive_at p -> P) -> ~ P ->
    safe (fun '(ar', ok) => fd ar' = fd ar /\ map ar' = map ar /\
      if ok : bool then exists p, archive_at p /\ parsed al p ar' else failed al) (forall p, ~ archive_at p)
      (Ret (mkZipArchive (fd ar) (numEntries ar) (pEntries ar) (entries ar) None (map ar), false))) as Hbail.
  { intros P HP HnP. do 2 (split; [done|]). right. intros p Hp. by apply HnP, (HP p). }
  destruct (Z.eqb_spec (val4 m (addr m)) ENDSIG) as [E|_].
  { apply (Hbail (val4 m (addr m) = LOCSIG)); [by intros p []|]. by rewrite E. }
  destruct (Z.eqb_spec (val4 m (addr m)) LOCSIG) as [Hfirst|E]; cbn [negb].
  2:{ apply (Hbail (val4 m (addr m) = LOCSIG)); [by intros p [] | done]. }
  rewrite u32_id by (unfold is_u32, ENDHDR; lia).
  destruct (find_eocd_ok (S (length (mem m))) (addr m + length_ m - ENDHDR)) as (p & -> & Hp).
  1,2: unfold length_, ENDHDR in *; lia.
  { intros q [[_ [_ Hq]] _]. lia. }
  cbn [mbind outcome_bind]. destruct Hp as [Hlast | [Hout Hnone]].
  2:{ rewrite (proj2 (Z.ltb_lt _ _) Hout). apply (Hbail (exists q, is_eocd q)); [|by intros [q Hq]; apply (Hnone q)].
      intros q [_ [H1 _] _ _ _]. by exists q. }
  pose proof Hlast as [[Hin _] _]. assert (addr m <= p) by (apply Hin).
  rewrite (proj2 (Z.ltb_ge p (addr m))) by done. unfold ENDHDR in Hin.
  rewrite (get2_at m Hm p 22 ENDSUB) by (done || unfold ENDSUB; lia). cbn [mbind outcome_bind].
  rewrite (get4_at m Hm p 22 ENDOFF) by (done || unfold ENDOFF; lia). cbn [mbind outcome_bind].
  assert (forall q, archive_at q -> archive_at p) as Huniq.
  { intros q Hq. replace p with q; [done|]. destruct Hq as [_ [Hq1 Hq2] _ _ _].
    destruct Hlast as [Hp1 Hp2]. pose proof (Hq2 p Hp1). pose proof (Hp2 q Hq1). lia. }
  pose proof (val2_u16 m Hm (p + ENDSUB)) as Hn16. pose proof (val4_u32 m Hm (p + ENDOFF)) as Hcd.
  unfold is_u16, is_u32 in *.
  destruct (Z.eqb_spec (val2 m (p + ENDSUB)) 0) as [E0|Hn0]; cbn [orb].
  { apply (Hbail (0 < total p)%nat); [|unfold total; lia]. intros q Hq. by destruct (Huniq q Hq). }
  destruct (Z.leb_spec (length_ m) (val4 m (p + ENDOFF))).
  { apply (Hbail (start p < addr m + length_ m)); [|unfold start; lia]. intros q Hq. by destruct (Huniq q Hq). }
  rewrite u32_id by (unfold is_u32; lia). fold (start p).
  assert (forall q, archive_at q -> directory_ok m (total p) (start p)) as Hdir
    by (intros q Hq; by destruct (Huniq q Hq)).
  pose proof (read_directory_ok al ar p Hal ltac:(lia) ltac:(unfold start; lia)) as H'.
  destruct (read_directory _ _ _ _ _) as [[ar' [|]]|q| |]; cbn [safe] in H' |- *; try done.
  - destruct H' as (? & ? & ? & ?). do 2 (split; [done|]). exists p. split; [|done].
    split; try done; [unfold total; lia | unfold start; lia].
  - destruct H' as (? & ? & H'). do 2 (split; [done|]). destruct H' as [H'|H']; [by left|].
    right. intros q Hq. by apply H', (Hdir q).
  - destruct H' as [? H']. split; [done|]. intros q' Hq. by apply H', (Hdir q').
Qed.
End archive.

(** An entry whose name and data lie in the mapping.  The data are those of a file when
    [compLen] is not negative. *)
Record entry_in (m : MemMapping) (e : ZipEntry) : Prop := {
  ei_named : named m e;
  ei_offset : LOCHDR <= offset e;
  ei_data : 0 <= offset e + compLen e <= length_ m;
  ei_s32 : is_s32 (compLen e);
}.

Lemma directory_in m n ptr : mapped_ok m -> directory_ok m n ptr -> Forall (entry_in m) (directory m n ptr).
Proof.
  intros Hm. revert ptr. induction n as [|n IH]; intros ptr; cbn [directory directory_ok]; [by constructor|].
  intros [Hc Hd]. constructor; [|by apply IH]. split; try apply Hc; [|apply s32_range].
  cbn. pose proof (val4_u32 m Hm (ptr + CENOFF)). pose proof (val2_u16 m Hm (local_at m ptr + LOCNAM)).
  pose proof (val2_u16 m Hm (local_at m ptr + LOCEXT)). unfold is_u32, is_u16 in *. lia.
Qed.

Section open.
Context `{iop : SafeIop} `{Hiop : !SafeIopOk iop}.

Lemma open_ok al opened errno m : mapped_ok m -> aligned al -> 0 <= opened ->
  safe (fun '(ar, err) =>
      if decide (err = 0)
      then fd ar = opened /\ map ar = Some m /\ exists p, archive_at m p /\ parsed m al p ar
      else err = -1 /\ fd ar = -1 /\ pEntries ar = 0 /\ pHash ar = None /\ map ar = None /\ failed m al)
    (forall p, ~ archive_at m p) (mzOpenZipArchive al opened errno (Some m)).
Proof.
  intros Hm Hal Hfd. unfold mzOpenZipArchive. destruct (Z.ltb_spec opened 0); [lia|].
  destruct (Z.ltb_spec (length_ m) ENDHDR) as [Hs|Hlen].
  { cbn. do 5 (split; [done|]). right. intros p [_ [[[? [? ?]] _] _] _ _ _]. lia. }
  pose proof (parseZipArchive_ok m Hm Hlen al (mkZipArchive opened 0 0 [] None None) Hal) as H'.
  destruct (parseZipArchive _ _ _) as [[ar [|]]|q| |]; cbn [safe mbind outcome_bind negb] in H' |- *; try done.
  - destruct H' as (Hfd' & Hmap & p & Hp & [? ? ? ? ? ?]). cbn. split; [done|]. split; [done|].
    exists p. split; [done|]. by split.
  - destruct H' as (Hfd' & Hmap & Hf). cbn in *. by rewrite Hmap.
Qed.

(** (C4) Opening an archive, on every file of up to 1 GB.  If the call succeeds, the file
    has a central directory whose headers all pass the checks, and the array holds
    exactly the entries they describe, sorted by name, each with its name and its data
    inside the mapping; the hash table maps each name to its first entry.  If it fails,
    everything is closed, and either an allocation failed or the file has no such
    directory.  No assertion fails and every loop ends.  The only reads outside the
    mapping are at the last thirty addresses of the address space. *)
Theorem mzOpenZipArchive_sound al opened errno m : mapped_ok m -> aligned al -> 0 <= opened ->
  match mzOpenZipArchive al opened errno (Some m) with
  | Ret (ar, err) =>
      err = 0 /\ fd ar = opened /\ map ar = Some m /\
        (exists p, archive_at m p /\ parsed m al p ar) /\ Forall (entry_in m) (entries ar)
      \/ err = -1 /\ fd ar = -1 /\ pEntries ar = 0 /\ pHash ar = None /\ map ar = None /\
        (alloc_ok al -> forall p, ~ archive_at m p)
  | Fault q => 4294967296 - LOCHDR <= q < 4294967296 /\ forall p, ~ archive_at m p
  | Halt | NoFuel => False
  end.
Proof.
  intros Hm Hal Hfd. pose proof (open_ok al opened errno m Hm Hal Hfd) as H.
  destruct (mzOpenZipArchive _ _ _ _) as [[ar err]|q| |]; cbn [safe] in H; try done.
  destruct (decide (err = 0)) as [-> |].
  - left. destruct H as (? & ? & p & Hp & Hpa). do 3 (split; [done|]). split; [by exists p|].
    rewrite (pa_perm _ _ _ _ Hpa). apply directory_in; [done | apply Hp].
  - right. destruct H as (? & ? & ? & ? & ? & [Hf|Hf]); do 5 (split; [done|]); intros Ha; [by destruct Hf | done].
Qed.

(** (C24) In an archive that has been opened, [mzFindZipEntry] returns the first entry with
    the given name, and NULL exactly when there is none; this is the composition of the
    parser, the sorted array and the hash table. *)
Theorem mzFindZipEntry_finds al opened errno m ar str at_ : mapped_ok m -> aligned al -> 0 <= opened ->
  mzOpenZipArchive al opened errno (Some m) = Ret (ar, 0) ->
  Z.of_nat (length str) < 2147483648 -> at_ <> 0 -> at_ <> HASH_TOMBSTONE ->
  exists p, mzFindZipEntry ar str at_ = Ret p /\
    ((exists k e, entries ar !! k = Some e /\ name m e = str /\
        (forall j f, (j < k)%nat -> entries ar !! j = Some f -> name m f <> str) /\
        p = mzGetZipEntryAt ar (Z.of_nat k) /\ entry_at (pEntries ar) (entries ar) p = e) \/
     (p = 0 /\ forall e, e ∈ entries ar -> name m e <> str)).
Proof.
  intros Hm Hal Hfd Ho Hstr H0 Ht. pose proof (open_ok al opened errno m Hm Hal Hfd) as H. rewrite Ho in H.
  cbn [safe] in H. destruct (decide (0 = 0)) as [_|]; [|done].
  destruct H as (_ & Hmap & p & Hp & [[Hc HL] Hb Hn Hs HP (ht & Hh & Hwf & Hix)]).
  unfold mzFindZipEntry. rewrite Hh, Hmap.
  destruct (find_indexed m (entries ar) (pEntries ar) Hn ht str at_ Hwf Hix Hstr H0 Ht) as (q & -> & Hq).
  cbn [mbind outcome_bind]. exists q. split; [done|].
  destruct Hq as [(k & e & [Hk Hfirst] & <- & ->)|Hq]; [left|by right].
  exists k, e. split; [done|]. split; [done|]. split; [done|].
  pose proof (lookup_lt_Some _ _ _ Hk). split; [|by apply entry_at_addr].
  unfold mzGetZipEntryAt, entry_addr. rewrite Hc. by rewrite (proj2 (Z.ltb_lt _ _)) by lia.
Qed.
End open.

(** ** The format *)

(** A file of an archive: its name, what is stored for it and how, and its attributes. *)
Record member := mkMember {
  mb_name : list Z; mb_stored : list Z; mb_how : Z; mb_length : Z; mb_time : Z; mb_crc : Z;
  mb_madeBy : Z; mb_attributes : Z
}.

Definition len16 (l : list Z) : list Z := le_bytes 2 (Z.of_nat (length l)).
Definition len32 (l : list Z) : list Z := le_bytes 4 (Z.of_nat (length l)).

Definition local_header (f : member) : list Z :=
  le_bytes 4 LOCSIG ++ le_bytes 2 20 ++ le_bytes 2 0 ++ le_bytes 2 (mb_how f) ++ le_bytes 4 (mb_time f) ++
  le_bytes 4 (mb_crc f) ++ len32 (mb_stored f) ++ le_bytes 4 (mb_length f) ++
  len16 (mb_name f) ++ le_bytes 2 0.
Definition local_part (f : member) : list Z := local_header f ++ mb_name f ++ mb_stored f.

Definition central_header (f : member) (off : Z) : list Z :=
  le_bytes 4 CENSIG ++ le_bytes 2 (mb_madeBy f) ++ le_bytes 2 20 ++ le_bytes 2 0 ++ le_bytes 2 (mb_how f) ++
  le_bytes 4 (mb_time f) ++ le_bytes 4 (mb_crc f) ++ len32 (mb_stored f) ++ le_bytes 4 (mb_length f) ++
  len16 (mb_name f) ++ le_bytes 2 0 ++ le_bytes 2 0 ++ le_bytes 2 0 ++ le_bytes 2 0 ++
  le_bytes 4 (mb_attributes f) ++ le_bytes 4 off.

(** The headers for files whose local parts start at [off]. *)
Fixpoint central_part (fs : list member) (off : Z) : list Z :=
  match fs with
  | [] => []
  | f :: fs => central_header f off ++ mb_name f ++ central_part fs (off + Z.of_nat (length (local_part f)))
  end.

Definition end_header (fs : list member) (size off : Z) : list Z :=
  le_bytes 4 ENDSIG ++ le_bytes 2 0 ++ le_bytes 2 0 ++ le_bytes 2 (Z.of_nat (length fs)) ++
  le_bytes 2 (Z.of_nat (length fs)) ++ le_bytes 4 size ++ le_bytes 4 off ++ le_bytes 2 0.

Definition zip_image (fs : list member) : list Z :=
  let locals := concat (local_part <$> fs) in
  let centrals := central_part fs 0 in
  locals ++ centrals ++ end_header fs (Z.of_nat (length centrals)) (Z.of_nat (length locals)).

(** ** Witnesses *)

(** Plain additions with the check. *)
#[global] Instance plain_iop : SafeIop := {
  safe_add_uintptr x y := if x + y <? 4294967296 then Some (x + y) else None;
  safe_add_long x y := (-2147483648 <=? x + y) && (x + y <? 2147483648);
}.
#[global] Instance plain_iop_ok : SafeIopOk plain_iop.
Proof. by split. Qed.

(** Two stored files, [b] and [a/c]. *)
Definition sample_files : list member :=
  [mkMember [98] [1; 2; 3] STORED 3 0 0 0 0; mkMember [97; 47; 99] [7; 8] STORED 2 0 0 0 0].
Definition sample_map : MemMapping := mkMemMapping 0x40000000 (zip_image sample_files).
Definition sample_alloc : Alloc := mkAlloc 0x1000 true true true.
Definition sample_archive : ZipArchive :=
  match mzOpenZipArchive sample_alloc 3 0 (Some sample_map) with
  | Ret (ar, _) => ar | _ => mkZipArchive (-1) 0 0 [] None None
  end.

Lemma sample_map_ok : mapped_ok sample_map.
Proof. split; [apply u8_list_check; vm_compute; reflexivity | vm_compute; (reflexivity || congruence) ..]. Qed.

Lemma mzOpenZipArchive_sound_witness :
  match mzOpenZipArchive sample_alloc 3 0 (Some sample_map) with
  | Ret (ar, err) =>
      err = 0 /\ fd ar = 3 /\ map ar = Some sample_map /\
        (exists p, archive_at sample_map p /\ parsed sample_map sample_alloc p ar) /\
        Forall (entry_in sample_map) (entries ar)
      \/ err = -1 /\ fd ar = -1 /\ pEntries ar = 0 /\ pHash ar = None /\ map ar = None /\
        (alloc_ok sample_alloc -> forall p, ~ archive_at sample_map p)
  | Fault q => 4294967296 - LOCHDR <= q < 4294967296 /\ forall p, ~ archive_at sample_map p
  | Halt | NoFuel => False
  end.
Proof.
  apply (mzOpenZipArchive_sound sample_alloc 3 0 sample_map sample_map_ok); [split; [vm_compute; congruence | reflexivity] | lia].
Defined.

Lemma mzFindZipEntry_finds_witness :
  exists p, mzFindZipEntry sample_archive [98] 0x2000 = Ret p /\
    ((exists k e, entries sample_archive !! k = Some e /\ name sample_map e = [98] /\
        (forall j f, (j < k)%nat -> entries sample_archive !! j = Some f -> name sample_map f <> [98]) /\
        p = mzGetZipEntryAt sample_archive (Z.of_nat k) /\
        entry_at (pEntries sample_archive) (entries sample_archive) p = e) \/
     (p = 0 /\ forall e, e ∈ entries sample_archive -> name sample_map e <> [98])).
Proof.
  apply (mzFindZipEntry_finds sample_alloc 3 0 sample_map sample_archive [98] 0x2000 sample_map_ok).
  - split; [vm_compute; congruence | reflexivity].
  - lia.
  - vm_compute. reflexivity.
  - vm_compute. reflexivity.
  - lia.
  - vm_compute. congruence.
Defined.
