(* ===== verification/ZipExtract.v ===== *)
(** * Reading and extracting the entries of an archive (minzip/Zip.c, DirUtil.c)

    The kernel answers system calls: its answer to a call is any function of the calls
    made before it, so the theorems hold for every file system and for every pattern of
    errors.  A negative answer is [-errno].  The descriptor of the archive reads from the
    file that was mapped; zlib is a class with its documented behaviour as laws.

    [processFunction] with its cookie is a state transformer; buffers of the caller and
    of the stack have a size, and storing outside them is a fault. *)

From S2P Require Import Prelude HashTable Zip.

(** ** System calls *)

Definition path := list Z.

Inductive event :=
  | ERead (pos count : Z)
  | EWrite (fd : Z) (data : list Z)
  | ECreat (p : path) (mode : Z)
  | EClose (fd : Z)
  | ESymlink (target p : path)
  | EStat (p : path)
  | EMkdir (p : path) (mode : Z)
  | EUtime (p : path)
  | EMalloc (size : Z)
  | ECallback (p : path).

(** The answer to a call, after the calls of the list (the last one first). *)
Class Kernel := answer : list event -> event -> Z.

Definition EINTR : Z := 4.
Definition ENOENT : Z := 2.

(** The calls made so far, the position of the archive's descriptor, and [errno]. *)
Record world := mkWorld { log : list event; pos : Z; errno : Z }.

Definition M (A : Type) : Type := world -> outcome (A * world).
#[global] Instance M_ret : MRet M := fun A x w => Ret (x, w).
#[global] Instance M_bind : MBind M := fun A B k c w => '(x, w) ← c w; k x w.
Definition fault {A} (p : Z) : M A := fun _ => Fault p.
Definition halt {A} : M A := fun _ => Halt.
Definition no_fuel {A} : M A := fun _ => NoFuel.
Definition lift {A} (o : outcome A) : M A := fun w => x ← o; Ret (x, w).
Definition get_pos : M Z := fun w => Ret (pos w, w).
Definition get_errno : M Z := fun w => Ret (errno w, w).
Definition seek (p : Z) : M unit := fun w => Ret (tt, mkWorld (log w) p (errno w)).

Section kernel.
Context `{K : Kernel}.

(** The world after a call, when the answer is [n]. *)
Definition after (e : event) (n : Z) (w : world) : world :=
  mkWorld (e :: log w) (pos w) (if n <? 0 then - n else errno w).

Definition call (e : event) : M Z := fun w =>
  let n := answer (log w) e in Ret (n, after e n w).

(** [read(fd, buf, count)] into a buffer of [size] bytes, from a file: at most what the
    kernel is willing to give and what the file has.  The result and the bytes read. *)
Definition read (file : list Z) (size count : Z) : M (Z * list Z) := fun w =>
  let e := ERead (pos w) count in
  let n := answer (log w) e in
  if n <? 0 then Ret ((-1, []), after e n w) else
  let bytes := take (Z.to_nat (Z.min n count)) (drop (Z.to_nat (pos w)) file) in
  if size <? Z.of_nat (length bytes) then Fault 0
  else Ret ((Z.of_nat (length bytes), bytes),
            mkWorld (e :: log w) (pos w + Z.of_nat (length bytes)) (errno w)).
End kernel.

(** ** zlib *)

Definition Z_OK : Z := 0.
Definition Z_STREAM_END : Z := 1.
Definition Z_BUF_ERROR : Z := -5.

(** [inflate] on the bytes at [next_in], with room for [avail_out] bytes: the result, the
    number of bytes it took, and what it wrote. *)
Class Zlib := {
  z_state : Type;
  z_init : z_state;                     (* after a successful [inflateInit2] *)
  inflateInit2_ok : bool;
  inflate : z_state -> list Z -> Z -> Z * z_state * nat * list Z;
  crc : Z -> list Z -> Z;               (* [crc32] *)
}.

(** The documented behaviour, on a stream that [decode] accepts: what is consumed and
    produced are prefixes of the stream and of its data; as long as there is input (or
    all of it has been consumed) and room, the call makes progress, filling the room or
    taking all the input, and it reports the end when both are complete. *)
Class ZlibOk (Zl : Zlib) := {
  decode : list Z -> option (list Z);
  inflating : z_state -> list Z -> list Z -> Prop;
  inflating_init : inflating z_init [] [];
  inflate_ok z J D I inp rest out avail c z' k more :
    decode J = Some D -> inflating z I out -> J = I ++ inp ++ rest -> (inp <> [] \/ rest = []) -> 0 < avail ->
    inflate z inp avail = (c, z', k, more) ->
    inflating z' (I ++ take k inp) (out ++ more) /\ (k <= length inp)%nat /\ Z.of_nat (length more) <= avail /\
    ((c = Z_STREAM_END /\ I ++ take k inp = J /\ out ++ more = D) \/
     (c = Z_OK /\ (0 < k + length more)%nat /\ (out ++ more) `prefix_of` D /\
      (k = length inp \/ Z.of_nat (length more) = avail)));
  crc_app x xs ys : crc (crc x xs) ys = crc x (xs ++ ys);
}.

(** ** The contents of an entry *)

Definition BUFSIZE : Z := 32 * 1024.

Section contents.
Context `{K : Kernel} `{Zl : Zlib}.
(** The file the archive's descriptor refers to. *)
Context (file : list Z).

Section process.
Context {S : Type} (processFunction : list Z -> S -> M (bool * S)).

(** [while (bytesLeft > 0)] *)
Fixpoint stored_loop (fuel : nat) (bytesLeft : Z) (cookie : S) : M (bool * S) :=
  match fuel with
  | O => no_fuel
  | Datatypes.S fuel =>
      if 0 <? bytesLeft then
        let count := if BUFSIZE <? bytesLeft then BUFSIZE else bytesLeft in
        '(n, buf) ← read file BUFSIZE count;
        if (n <? 0) || negb (n =? count) then mret (false, cookie) else
        '(ret, cookie) ← processFunction buf cookie;
        if negb ret then mret (false, cookie) else stored_loop fuel (bytesLeft - count) cookie
      else mret (true, cookie)
  end.

Definition processStoredEntry (pEntry : ZipEntry) (cookie : S) : M (bool * S) :=
  let bytesLeft := u32 (compLen pEntry) in
  stored_loop (Datatypes.S (Datatypes.S (Z.to_nat (bytesLeft / BUFSIZE)))) bytesLeft cookie.

(** [if (zstream.avail_in == 0)]: what remains to be read, and the input; [None] is
    [goto z_bail] *)
Definition refill (compRemaining : Z) (next_in : list Z) : M (option (Z * list Z)) :=
  if (length next_in =? 0)%nat then
    let getSize := if BUFSIZE <? compRemaining then BUFSIZE else compRemaining in
    '(cc, buf) ← read file BUFSIZE (u32 getSize);
    if negb (cc =? getSize) then mret None
    else if getSize <? 0 then fault 0   (* [avail_in] is past the buffer *)
    else mret (Some (compRemaining - getSize, buf))
  else mret (Some (compRemaining, next_in)).

(** [do ... while (zerr == Z_OK)]; [next_in] is the input that is left in [readBuf], and
    [procBuf] what has been written to the other buffer.  [None] is [goto z_bail],
    otherwise the value of [total_out]. *)
Fixpoint inflate_loop (fuel : nat) (z : z_state) (compRemaining : Z) (next_in procBuf : list Z)
    (total_out : Z) (cookie : S) : M (option Z * S) :=
  match fuel with
  | O => no_fuel
  | Datatypes.S fuel =>
      filled ← refill compRemaining next_in;
      match filled with
      | None => mret (None, cookie)
      | Some (compRemaining, next_in) =>
          let '(zerr, z, k, more) := inflate z next_in (BUFSIZE - Z.of_nat (length procBuf)) in
          if negb (zerr =? Z_OK) && negb (zerr =? Z_STREAM_END) then mret (None, cookie) else
          let next_in := drop k next_in in
          let procBuf := procBuf ++ more in
          let total_out := u32 (total_out + Z.of_nat (length more)) in
          let avail_out := BUFSIZE - Z.of_nat (length procBuf) in
          '(ok, procBuf, cookie) ←
            (if (avail_out =? 0) || ((zerr =? Z_STREAM_END) && negb (avail_out =? BUFSIZE)) then
               '(ret, cookie) ← processFunction procBuf cookie; mret (ret, [], cookie)
             else mret (true, procBuf, cookie));
          if negb ok then mret (None, cookie)
          else if zerr =? Z_OK then inflate_loop fuel z compRemaining next_in procBuf total_out cookie
          else mret (Some total_out, cookie)
      end
  end.

Definition processDeflatedEntry (fuel : nat) (pEntry : ZipEntry) (cookie : S) : M (bool * S) :=
  '(result, cookie) ←
    (if negb inflateInit2_ok then mret (-1, cookie)
     else '(r, cookie) ← inflate_loop fuel z_init (compLen pEntry) [] [] 0 cookie;
          mret (match r with Some total_out => s32 total_out | None => -1 end, cookie));
  mret (result =? uncompLen pEntry, cookie).

Definition mzProcessZipEntryContents (fuel : nat) (pEntry : ZipEntry) (cookie : S) : M (bool * S) :=
  oldOff ← get_pos;
  seek (offset pEntry) ;;
  r ← (if compression pEntry =? STORED then processStoredEntry pEntry cookie
       else if compression pEntry =? DEFLATED then processDeflatedEntry fuel pEntry cookie
       else mret (false, cookie));
  seek oldOff ;;
  mret r.
End process.

Definition crcProcessFunction (data : list Z) (cookie : Z) : M (bool * Z) := mret (true, crc cookie data).

Definition mzIsZipEntryIntact (fuel : nat) (pEntry : ZipEntry) : M bool :=
  '(ret, c) ← mzProcessZipEntryContents crcProcessFunction fuel pEntry (crc 0 []);
  mret (ret && (c =? u32 (crc32 pEntry))).

(** A buffer, and how far it has been filled: [args->buf] points to [b_at]. *)
Record buffer := mkBuffer { b_mem : list Z; b_at : Z; b_len : Z }.

Definition store (b : list Z) (at_ : Z) (data : list Z) : M (list Z) :=
  if (0 <=? at_) && (at_ + Z.of_nat (length data) <=? Z.of_nat (length b))
  then mret (take (Z.to_nat at_) b ++ data ++ drop (Z.to_nat at_ + length data) b)
  else fault 0.

Definition copyProcessFunction (data : list Z) (args : buffer) : M (bool * buffer) :=
  let dataLen := Z.of_nat (length data) in
  if dataLen <=? b_len args then
    m ← store (b_mem args) (b_at args) data;
    mret (true, mkBuffer m (b_at args + dataLen) (b_len args - dataLen))
  else mret (false, args).

(** The result, and the buffer. *)
Definition mzReadZipEntry (fuel : nat) (pEntry : ZipEntry) (buf : list Z) (bufLen : Z) : M (bool * list Z) :=
  '(ret, args) ← mzProcessZipEntryContents copyProcessFunction fuel pEntry (mkBuffer buf 0 bufLen);
  mret (ret, b_mem args).

Definition bufferProcessFunction (data : list Z) (bec : buffer) : M (bool * buffer) :=
  let dataLen := Z.of_nat (length data) in
  m ← store (b_mem bec) (b_at bec) data;
  mret (true, mkBuffer m (b_at bec + dataLen) (s32 (b_len bec - dataLen))).

Definition mzExtractZipEntryToBuffer (fuel : nat) (pEntry : ZipEntry) (buf : list Z) : M (bool * list Z) :=
  '(ret, bec) ← mzProcessZipEntryContents bufferProcessFunction fuel pEntry (mkBuffer buf 0 (uncompLen pEntry));
  mret (negb (negb ret || negb (b_len bec =? 0)), b_mem bec).

(** [while (true)] *)
Fixpoint write_loop (fuel : nat) (fd : Z) (data : list Z) (soFar : Z) : M bool :=
  match fuel with
  | O => no_fuel
  | Datatypes.S fuel =>
      n ← call (EWrite fd (drop (Z.to_nat soFar) data));
      if n <=? 0 then
        err ← get_errno;
        if negb (err =? EINTR) then mret false else write_loop fuel fd data soFar
      else
        let soFar := soFar + n in
        if soFar =? Z.of_nat (length data) then mret true
        else if Z.of_nat (length data) <? soFar then mret false
        else write_loop fuel fd data soFar
  end.

Definition writeProcessFunction (fuel : nat) (data : list Z) (fd : Z) : M (bool * Z) :=
  ok ← write_loop fuel fd data 0; mret (ok, fd).

Definition mzExtractZipEntryToFile (fuel : nat) (pEntry : ZipEntry) (fd : Z) : M bool :=
  '(ret, _) ← mzProcessZipEntryContents (writeProcessFunction fuel) fuel pEntry fd;
  mret ret.
End contents.

(** ** Directories *)

Inductive DirStatus := DMISSING | DDIR | DILLEGAL.

Definition slash : Z := 47.

Section directories.
Context `{K : Kernel}.

(** The answer to [stat] is negative, or the type bits of [st_mode]. *)
Definition S_IFDIR : Z := 0x4000.

Definition getPathDirStatus (p : path) : M DirStatus :=
  n ← call (EStat p);
  if 0 <=? n then mret (if n =? S_IFDIR then DDIR else DILLEGAL)
  else if negb (n =? - ENOENT) then mret DILLEGAL
  else mret DMISSING.

(** [while (c != cpath && *c != '/') c--], from index [c] *)
Fixpoint last_slash (cpath : path) (c : nat) : nat :=
  match c with
  | O => O
  | S c' => if nth c cpath 0 =? slash then c else last_slash cpath c'
  end.

(** The loop that skips slashes and the one that looks for the next slash, on the
    characters from [p] on: how many are passed *)
Fixpoint slashes (s : path) : nat :=
  match s with c :: s => if c =? slash then S (slashes s) else O | [] => O end.
Fixpoint component (s : path) : nat :=
  match s with c :: s => if c =? slash then O else S (component s) | [] => O end.

(** The walk from the root, with [p] the index in [cpath]. *)
Fixpoint make_levels (fuel : nat) (cpath : path) (p : nat) (mode : Z) (timestamp : bool) : M Z :=
  match fuel with
  | O => no_fuel
  | S fuel =>
      let p := (p + slashes (drop p cpath))%nat in
      if (length cpath <=? p)%nat then mret 0 else
      let p := (p + component (drop p cpath))%nat in
      let level := take p cpath in
      ds ← getPathDirStatus level;
      match ds with
      | DILLEGAL => mret (-1)
      | DDIR => make_levels fuel cpath p mode timestamp
      | DMISSING =>
          err ← call (EMkdir level mode);
          if negb (err =? 0) then mret (-1)
          else if timestamp then
            err ← call (EUtime level);
            if negb (err =? 0) then mret (-1) else make_levels fuel cpath p mode timestamp
          else make_levels fuel cpath p mode timestamp
      end
  end.

(** [timestamp] says whether one is given. *)
Definition dirCreateHierarchy (p : path) (mode : Z) (timestamp stripFileName : bool) : M Z :=
  if (length p =? 0)%nat then mret (-1) else
  block ← call (EMalloc (Z.of_nat (length p) + 2));
  if block =? 0 then mret (-1) else
  let c := last_slash p (length p - 1) in
  if stripFileName && (c =? 0)%nat then mret (-1) else
  let cpath := if stripFileName then take (S c) p else p ++ [slash] in
  ds ← getPathDirStatus cpath;
  match ds with
  | DDIR => mret 0
  | DILLEGAL => mret (-1)
  | DMISSING => make_levels (S (length cpath)) cpath 0 mode timestamp
  end.
End directories.

(** ** Extraction *)

Definition MZ_EXTRACT_FILES_ONLY : Z := 1.
Definition MZ_EXTRACT_DRY_RUN : Z := 2.
Definition UNZIP_DIRMODE : Z := 0x1ed.   (* 0755 *)
Definition UNZIP_FILEMODE : Z := 0x1a4.  (* 0644 *)

(** [buf] is [None] for NULL; its length is [bufLen]. *)
Record MzPathHelper := mkMzPathHelper {
  targetDir : path; zpath : path; pbuf : option (list Z); targetDirLen : Z; zipDirLen : Z
}.

Section extract.
Context `{K : Kernel} `{Zl : Zlib}.
Context (m : MemMapping).

(** [realloc]: the first bytes are those of the old block, the others arbitrary. *)
Definition realloc (old : option (list Z)) (size : Z) : M (option (list Z)) :=
  block ← call (EMalloc size);
  if block =? 0 then mret None
  else let b := default [] old in mret (Some (take (Z.to_nat size) b ++ replicate (Z.to_nat size - length b) 170)).

(** The C string at the start of a buffer. *)
Fixpoint c_string (b : list Z) : path :=
  match b with c :: b => if c =? 0 then [] else c :: c_string b | [] => [] end.

Definition targetEntryPath (helper : MzPathHelper) (pEntry : ZipEntry) : M (MzPathHelper * option path) :=
  let firstTime := match pbuf helper with None => true | Some _ => false end in
  let bufLen := match pbuf helper with None => 0 | Some b => Z.of_nat (length b) end in
  let rest := fileNameLen pEntry - zipDirLen helper in
  let needLen := s32 (targetDirLen helper + 1 + rest + 1) in
  grown ←
    (if bufLen <? needLen then
       newBuf ← realloc (pbuf helper) (s32 (needLen * 2)); mret newBuf
     else mret (pbuf helper));
  match grown with
  | None => mret (helper, None)
  | Some b =>
      '(b, tlen) ←
        (if firstTime then
           b ← store b 0 (targetDir helper);
           if (targetDirLen helper =? 0) || negb (bool_decide (last (targetDir helper) = Some slash))
           then b ← store b (targetDirLen helper) [slash]; mret (b, targetDirLen helper + 1)
           else mret (b, targetDirLen helper)
         else mret (b, targetDirLen helper));
      b ← store b tlen (drop (Z.to_nat (zipDirLen helper)) (name m pEntry));
      b ← store b (tlen + rest) [0];
      mret (mkMzPathHelper (targetDir helper) (zpath helper) (Some b) tlen (zipDirLen helper),
            Some (c_string b))
  end.

(** [strncmp] of two strings given by their characters. *)
Fixpoint strncmp_chars (n : nat) (xs ys : list Z) : Z :=
  match n with
  | O => 0
  | S n =>
      let (x, y) := (nth 0 xs 0, nth 0 ys 0) in
      if negb (x =? y) then x - y else if x =? 0 then 0 else strncmp_chars n (tail xs) (tail ys)
  end.

(** How the body of the loop ends: with the callback and the next entry, with [break], or
    with [ok = false; break]. *)
Inductive next := Go | Stop | Fail.

Definition extract_dir (flags : Z) (timestamp : bool) (targetFile : path) : M next :=
  if negb (truthy (Z.land flags MZ_EXTRACT_FILES_ONLY)) then
    ret ← dirCreateHierarchy targetFile UNZIP_DIRMODE timestamp false;
    mret (if negb (ret =? 0) then Fail else Go)
  else mret Go.

Definition extract_symlink (fuel : nat) (pEntry : ZipEntry) (targetFile : path) : M next :=
  if uncompLen pEntry =? 0 then mret Fail else
  let size := u32 (uncompLen pEntry + 1) in
  block ← call (EMalloc size);
  if block =? 0 then mret Fail else
  '(ok, linkTarget) ← mzReadZipEntry (mem m) fuel pEntry (replicate (Z.to_nat size) 170) (uncompLen pEntry);
  if negb ok then mret Fail else
  linkTarget ← store linkTarget (uncompLen pEntry) [0];
  ret ← call (ESymlink (c_string linkTarget) targetFile);
  mret (if negb (ret =? 0) then Fail else Go).

(** The inner variable [ok] hides the one that is returned. *)
Definition extract_regular (fuel : nat) (timestamp : bool) (pEntry : ZipEntry) (targetFile : path) : M next :=
  fd ← call (ECreat targetFile UNZIP_FILEMODE);
  if fd <? 0 then mret Fail else
  ok ← mzExtractZipEntryToFile (mem m) fuel pEntry fd;
  call (EClose fd) ;;
  if negb ok then mret Stop else
  if timestamp then
    ret ← call (EUtime targetFile);
    mret (if negb (ret =? 0) then Stop else Go)
  else mret Go.

Definition extract_file (fuel : nat) (flags : Z) (timestamp : bool) (pEntry : ZipEntry) (targetFile : path) : M next :=
  ret ← dirCreateHierarchy targetFile UNZIP_DIRMODE timestamp true;
  if negb (ret =? 0) then mret Fail
  else if negb (truthy (Z.land flags MZ_EXTRACT_FILES_ONLY)) && mzIsZipEntrySymlink pEntry
  then extract_symlink fuel pEntry targetFile
  else extract_regular fuel timestamp pEntry targetFile.

(** The body of the loop for an entry that begins with [zpath]. *)
Definition extract_entry (fuel : nat) (flags : Z) (timestamp callback : bool) (helper : MzPathHelper)
    (pEntry : ZipEntry) : M (MzPathHelper * next) :=
  '(helper, target) ← targetEntryPath helper pEntry;
  match target with
  | None => mret (helper, Fail)
  | Some targetFile =>
      let done := if callback then call (ECallback targetFile) else mret 0 in
      if truthy (Z.land flags MZ_EXTRACT_DRY_RUN) then done ;; mret (helper, Go) else
      c ← lift (get1 m (u32 (fileName pEntry + u32 (fileNameLen pEntry - 1))));
      r ← (if c =? slash then extract_dir flags timestamp targetFile
           else extract_file fuel flags timestamp pEntry targetFile);
      match r with
      | Go => done ;; mret (helper, Go)
      | r => mret (helper, r)
      end
  end.

(** [for (i = 0; i < pArchive->numEntries; i++)]; the value of [ok] *)
Fixpoint extract_loop (fuel : nat) (flags : Z) (timestamp callback : bool) (es : list ZipEntry)
    (helper : MzPathHelper) (seenMatch : bool) : M bool :=
  match es with
  | [] => mret true
  | pEntry :: es =>
      let skip := if seenMatch then mret true
                  else extract_loop fuel flags timestamp callback es helper seenMatch in
      let zipDirLen := Z.of_nat (length (zpath helper)) in
      if fileNameLen pEntry <? zipDirLen then skip
      else if negb (strncmp_chars (length (zpath helper)) (name m pEntry) (zpath helper) =? 0) then skip
      else
        '(helper, r) ← extract_entry fuel flags timestamp callback helper pEntry;
        match r with
        | Go => extract_loop fuel flags timestamp callback es helper true
        | Stop => mret true
        | Fail => mret false
        end
  end.

(** [zipDir] with a slash at its end, unless it is empty. *)
Definition canonical (zipDir : path) : path :=
  if (0 <? length zipDir)%nat && negb (bool_decide (last zipDir = Some slash)) then zipDir ++ [slash] else zipDir.

Definition mzExtractRecursive (fuel : nat) (es : list ZipEntry) (zipDir tDir : path) (flags : Z)
    (timestamp callback : bool) : M bool :=
  if bool_decide (head zipDir = Some slash) then mret false
  else if negb (bool_decide (head tDir = Some slash)) then mret false
  else
    block ← call (EMalloc (Z.of_nat (length zipDir) + 2));
    if block =? 0 then mret false else
    let zp := canonical zipDir in
    let helper := mkMzPathHelper tDir zp None (Z.of_nat (length tDir)) (Z.of_nat (length zp)) in
    extract_loop fuel flags timestamp callback es helper false.
End extract.

(** ** Computations *)

Lemma bind_ret {A B} (c : M A) (k : A -> M B) w x w' : c w = Ret (x, w') -> (c ≫= k) w = k x w'.
Proof. intros H. unfold mbind, M_bind. by rewrite H. Qed.

Lemma bind_inv {A B} (c : M A) (k : A -> M B) w y w'' : (c ≫= k) w = Ret (y, w'') ->
  exists x w', c w = Ret (x, w') /\ k x w' = Ret (y, w'').
Proof. unfold mbind, M_bind. destruct (c w) as [[x w']|p| |]; try discriminate. intros H. by exists x, w'. Qed.

(** The data at [off] in the file, [n] bytes. *)
Definition slice (file : list Z) (off n : Z) : list Z := take (Z.to_nat n) (drop (Z.to_nat off) file).

Lemma length_slice file off n : 0 <= off -> 0 <= n -> off + n <= Z.of_nat (length file) ->
  Z.of_nat (length (slice file off n)) = n.
Proof. intros. unfold slice. rewrite length_take, length_drop. lia. Qed.

Lemma slice_app file off n k : 0 <= off -> 0 <= n -> 0 <= k -> off + n + k <= Z.of_nat (length file) ->
  slice file off n ++ slice file (off + n) k = slice file off (n + k).
Proof.
  intros. unfold slice. rewrite (Z2Nat.inj_add n k), (Z2Nat.inj_add off n) by lia.
  by rewrite <- drop_drop, take_take_drop.
Qed.

Section delivery.
Context `{K : Kernel} `{Zl : Zlib}.
(** Regular files: a read is not cut short and does not fail. *)
Definition reads_ok : Prop := forall l p n, n <= answer l (ERead p n).
Context (Hreads : reads_ok).
Context (file : list Z).

Lemma read_full size count w : 0 <= pos w -> 0 <= count <= size -> pos w + count <= Z.of_nat (length file) ->
  read file size count w =
  Ret ((count, slice file (pos w) count), mkWorld (ERead (pos w) count :: log w) (pos w + count) (errno w)).
Proof.
  intros Hp Hc Hf. unfold read. pose proof (Hreads (log w) (pos w) count).
  destruct (Z.ltb_spec (answer (log w) (ERead (pos w) count)) 0); [lia|].
  rewrite Z.min_r by done. fold (slice file (pos w) count).
  rewrite length_slice by lia. destruct (Z.ltb_spec size count); [lia | done].
Qed.

(** A function that takes the data [D] piece by piece; [Inv d s l] says that it has taken
    [d] when its cookie is [s] and the calls [l] have been made. *)
Context {S : Type} (f : list Z -> S -> M (bool * S)) (D : list Z) (Inv : list Z -> S -> list event -> Prop).
Definition consumer : Prop :=
  (forall d s l p n, Inv d s l -> Inv d s (ERead p n :: l)) /\
  forall d chunk s w, Inv d s (log w) -> chunk <> [] -> Z.of_nat (length chunk) <= BUFSIZE ->
    (d ++ chunk) `prefix_of` D ->
    exists s' w', f chunk s w = Ret ((true, s'), w') /\ pos w' = pos w /\ Inv (d ++ chunk) s' (log w').
Context (Hf : consumer).

Lemma stored_loop_ok fuel d n s w : Inv d s (log w) -> 0 <= n -> 0 <= pos w ->
  pos w + n <= Z.of_nat (length file) -> d ++ slice file (pos w) n = D ->
  n <= BUFSIZE * (Z.of_nat fuel - 1) ->
  exists s' w', stored_loop file f fuel n s w = Ret ((true, s'), w') /\ Inv D s' (log w').
Proof.
  destruct Hf as [Hr Hc]. revert d n s w. induction fuel as [|fuel IH]; intros d n s w Hi Hn Hp Hl HD Hfu.
  { unfold BUFSIZE in *. lia. }
  cbn [stored_loop]. destruct (Z.ltb_spec 0 n).
  2:{ assert (n = 0) as -> by lia. exists s, w. split; [done|].
      unfold slice in HD. cbn in HD. rewrite app_nil_r in HD. by subst d. }
  set (count := if BUFSIZE <? n then BUFSIZE else n).
  assert (0 < count <= BUFSIZE /\ count <= n) as Hco by (unfold count; zcases; unfold BUFSIZE in *; lia).
  erewrite bind_ret by (apply read_full; lia). cbn beta iota.
  destruct (Z.ltb_spec count 0); [lia|]. rewrite Z.eqb_refl. cbn [orb negb].
  destruct (Hc d (slice file (pos w) count) s (mkWorld (ERead (pos w) count :: log w) (pos w + count) (errno w)))
    as (s1 & w1 & E1 & Hp1 & Hi1).
  { by apply Hr. }
  { intros E. pose proof (length_slice file (pos w) count). rewrite E in *. cbn in *. lia. }
  { rewrite length_slice; lia. }
  { rewrite <- HD. exists (slice file (pos w + count) (n - count)). rewrite <- app_assoc, slice_app by lia.
    do 2 f_equal. lia. }
  erewrite bind_ret by exact E1. cbn beta iota. cbn [negb]. cbn in Hp1.
  apply IH with (d := d ++ slice file (pos w) count); try (done || lia).
  - rewrite Hp1, <- app_assoc, slice_app by lia. rewrite <- HD. do 2 f_equal. lia.
  - clear - Hfu Hco H. unfold count, BUFSIZE in *. zcases; lia.
Qed.

Lemma processStoredEntry_ok e s w : Inv [] s (log w) -> 0 <= compLen e < 2147483648 -> 0 <= pos w ->
  pos w + compLen e <= Z.of_nat (length file) -> slice file (pos w) (compLen e) = D ->
  exists s' w', processStoredEntry file f e s w = Ret ((true, s'), w') /\ Inv D s' (log w').
Proof.
  intros Hi Hn Hp Hl HD. unfold processStoredEntry. rewrite u32_id by (unfold is_u32; lia).
  apply stored_loop_ok with (d := []); try (done || lia).
  pose proof (Z.div_mod (compLen e) BUFSIZE ltac:(done)). pose proof (Z.mod_pos_bound (compLen e) BUFSIZE ltac:(done)).
  pose proof (Z.div_pos (compLen e) BUFSIZE ltac:(lia) ltac:(done)). unfold BUFSIZE in *. lia.
Qed.

(** ** Inflating *)

Context `{Hz : !ZlibOk Zl}.

Lemma refill_ok d inp n s w : Inv d s (log w) -> 0 <= n -> 0 <= pos w -> pos w + n <= Z.of_nat (length file) ->
  exists n' inp' w', refill file n inp w = Ret (Some (n', inp'), w') /\
    0 <= n' /\ 0 <= pos w' /\ pos w' + n' <= Z.of_nat (length file) /\ Inv d s (log w') /\
    inp' ++ slice file (pos w') n' = inp ++ slice file (pos w) n /\
    (inp' <> [] \/ slice file (pos w') n' = []).
Proof.
  intros Hi Hn Hp Hl. destruct Hf as [Hr _]. unfold refill.
  destruct (Nat.eqb_spec (length inp) 0) as [E|E].
  2:{ exists n, inp, w. do 5 (split; [done|]). split; [done|]. left. by intros ->. }
  apply nil_length_inv in E as ->. cbv zeta. set (size := if BUFSIZE <? n then BUFSIZE else n).
  assert (0 <= size <= BUFSIZE /\ size <= n /\ (0 < n -> 0 < size)) as (Hs1 & Hs2 & Hs3)
    by (unfold size; zcases; unfold BUFSIZE in *; lia).
  rewrite u32_id by (unfold is_u32, BUFSIZE in *; lia).
  erewrite bind_ret by (apply read_full; lia). cbn beta iota. rewrite Z.eqb_refl. cbn [negb].
  destruct (Z.ltb_spec size 0); [lia|].
  eexists _, _, _. split; [reflexivity|]. cbn [pos log]. do 3 (split; [lia|]). split; [by apply Hr|].
  rewrite slice_app by lia. split; [cbn [app]; f_equal; lia|].
  destruct (decide (n = 0)) as [-> |].
  - right. unfold slice. replace (0 - size) with 0 by lia. done.
  - left. intros E. pose proof (length_slice file (pos w) size). rewrite E in *. cbn in *. lia.
Qed.

Lemma prefix_length_le {A} (xs ys : list A) : xs `prefix_of` ys -> (length xs <= length ys)%nat.
Proof. apply prefix_length. Qed.

(** What happens to a full or final output buffer. *)
Lemma hand_on last d chunk s w : Inv d s (log w) -> Z.of_nat (length chunk) <= BUFSIZE ->
  (d ++ chunk) `prefix_of` D ->
  let avail_out := BUFSIZE - Z.of_nat (length chunk) in
  exists s' w' d' b',
    (if (avail_out =? 0) || (last && negb (avail_out =? BUFSIZE)) then
       '(ret, s) ← f chunk s; mret (ret, [], s)
     else mret (true, chunk, s)) w = Ret ((true, b', s'), w') /\
    pos w' = pos w /\ Inv d' s' (log w') /\ d' ++ b' = d ++ chunk /\ Z.of_nat (length b') < BUFSIZE /\
    (last = true -> d' = d ++ chunk).
Proof.
  intros Hi Hl Hp av. destruct Hf as [_ Hc].
  destruct ((av =? 0) || (last && negb (av =? BUFSIZE))) eqn:E.
  - assert (chunk <> []) as Hne. { intros ->. unfold av in E. cbn in E. by destruct last. }
    destruct (Hc d chunk s w Hi Hne Hl Hp) as (s' & w' & E' & Hp' & Hi').
    exists s', w', (d ++ chunk), []. erewrite bind_ret by exact E'. by rewrite app_nil_r.
  - exists s, w, d, chunk. do 4 (split; [done|]). apply orb_false_iff in E as [E1 E2].
    apply Z.eqb_neq in E1. unfold av in *. split; [lia|]. intros ->. cbn in E2.
    apply negb_false_iff, Z.eqb_eq in E2. assert (length chunk = 0%nat) as H0 by lia.
    apply nil_length_inv in H0 as ->. by rewrite app_nil_r.
Qed.

(** The state of the loop: [I] has been consumed, [inp] is in the input buffer, [n] bytes
    are still to be read; [d] has been handed on and [b] is in the output buffer. *)
Lemma inflate_loop_ok J fuel z I inp n d b s w :
  decode J = Some D -> Z.of_nat (length D) < 4294967296 ->
  inflating z I (d ++ b) -> Inv d s (log w) -> 0 <= n -> 0 <= pos w -> pos w + n <= Z.of_nat (length file) ->
  J = I ++ inp ++ slice file (pos w) n -> (d ++ b) `prefix_of` D -> Z.of_nat (length b) < BUFSIZE ->
  (length (inp ++ slice file (pos w) n) + length D - length (d ++ b) < fuel)%nat ->
  exists s' w', inflate_loop file f fuel z n inp b (Z.of_nat (length (d ++ b))) s w
    = Ret ((Some (Z.of_nat (length D)), s'), w') /\ Inv D s' (log w').
Proof.
  intros HJ HDl. revert z I inp n d b s w.
  induction fuel as [|fuel IH]; intros z I inp n d b s w Hinf Hi Hn Hp Hl HJe Hpre Hb Hfu; [lia|].
  cbn [inflate_loop].
  destruct (refill_ok d inp n s w Hi Hn Hp Hl) as (n1 & inp1 & w1 & E & Hn1 & Hp1 & Hl1 & Hi1 & Hs1 & Hor).
  erewrite bind_ret by exact E. cbn beta iota. rewrite <- Hs1 in HJe, Hfu.
  destruct (inflate z inp1 (BUFSIZE - Z.of_nat (length b))) as [[[c z'] k] more] eqn:Einf.
  destruct (inflate_ok z J D I inp1 (slice file (pos w1) n1) (d ++ b)
    (BUFSIZE - Z.of_nat (length b)) c z' k more HJ Hinf HJe Hor ltac:(lia) Einf)
    as (Hinf' & Hk & Hmore & Hcase).
  rewrite <- app_assoc in Hinf', Hcase. 
  assert ((d ++ b ++ more) `prefix_of` D) as Hpre'.
  { destruct Hcase as [(_ & _ & ->)|(_ & _ & H' & _)]; done. }
  pose proof (prefix_length _ _ Hpre') as HL.
  replace (u32 (Z.of_nat (length (d ++ b)) + Z.of_nat (length more))) with (Z.of_nat (length (d ++ b ++ more))).
  2:{ rewrite u32_id; [rewrite !length_app; lia|]. unfold is_u32. rewrite !length_app in *. lia. }
  assert (Z.of_nat (length (b ++ more)) <= BUFSIZE) as Hcl by (rewrite length_app; lia).
  destruct Hcase as [(-> & HI & HD)|(-> & Hprog & _ & Hfull)].
  1: change (Z_STREAM_END =? Z_OK) with false; change (Z_STREAM_END =? Z_STREAM_END) with true.
  2: change (Z_OK =? Z_OK) with true; change (Z_OK =? Z_STREAM_END) with false.
  all: cbn [negb andb].
  - destruct (hand_on true d (b ++ more) s w1 Hi1 Hcl Hpre') as (s2 & w2 & d2 & b2 & E2 & _ & Hi2 & _ & _ & Hd2).
    erewrite bind_ret by exact E2. cbn beta iota. cbn [negb]. rewrite Hd2, HD in Hi2 by done. rewrite HD.
    by exists s2, w2.
  - destruct (hand_on false d (b ++ more) s w1 Hi1 Hcl Hpre') as (s2 & w2 & d2 & b2 & E2 & Hp2 & Hi2 & Hdb & Hb2 & _).
    erewrite bind_ret by exact E2. cbn beta iota. cbn [negb].
    rewrite <- Hdb in Hinf', Hpre' |- *. apply IH with (I := I ++ take k inp1); try (done || lia).
    + rewrite HJe, Hp2, <- app_assoc. f_equal. by rewrite app_assoc, take_drop.
    + rewrite Hp2, Hdb. rewrite !length_app in *. rewrite length_drop. lia.
Qed.

Lemma processDeflatedEntry_ok fuel e s w : inflateInit2_ok = true -> Inv [] s (log w) -> 0 <= compLen e -> 0 <= pos w ->
  pos w + compLen e <= Z.of_nat (length file) -> decode (slice file (pos w) (compLen e)) = Some D ->
  Z.of_nat (length D) < 2147483648 -> (Z.to_nat (compLen e) + length D < fuel)%nat ->
  exists s' w', processDeflatedEntry file f fuel e s w
    = Ret ((Z.of_nat (length D) =? uncompLen e, s'), w') /\ Inv D s' (log w').
Proof.
  intros Hin Hi Hn Hp Hl HD HDl Hfu. unfold processDeflatedEntry. rewrite Hin. cbn [negb].
  destruct (inflate_loop_ok (slice file (pos w) (compLen e)) fuel z_init [] [] (compLen e) [] [] s w)
    as (s' & w' & E & Hi'); try (done || lia).
  - apply inflating_init.
  - apply prefix_nil.
  - cbn [app length]. pose proof (length_slice file (pos w) (compLen e)). lia.
  - exists s', w'. split; [|done]. erewrite bind_ret.
    2:{ erewrite bind_ret by exact E. reflexivity. }
    cbn. by rewrite s32_id by (unfold is_s32; lia).
Qed.

(** The data of an entry. *)
Definition contents_of (e : ZipEntry) (d : list Z) : Prop :=
  0 <= offset e /\ 0 <= compLen e < 2147483648 /\ offset e + compLen e <= Z.of_nat (length file) /\
  (compression e = STORED /\ slice file (offset e) (compLen e) = d \/
   compression e = DEFLATED /\ decode (slice file (offset e) (compLen e)) = Some d /\
   inflateInit2_ok = true /\ Z.of_nat (length d) = uncompLen e /\ Z.of_nat (length d) < 2147483648).

Lemma process_ok fuel e s w : contents_of e D -> Inv [] s (log w) ->
  (Z.to_nat (compLen e) + length D < fuel)%nat ->
  exists s' w', mzProcessZipEntryContents file f fuel e s w = Ret ((true, s'), w') /\
    pos w' = pos w /\ Inv D s' (log w').
Proof.
  intros (Ho & Hn & Hl & Hcase) Hi Hfu. unfold mzProcessZipEntryContents.
  erewrite bind_ret by reflexivity. erewrite bind_ret by reflexivity.
  destruct Hcase as [(Hs & HD)|(Hs & HD & Hin & Hu & Hu')]; rewrite Hs; cbn [Z.eqb STORED DEFLATED].
  - destruct (processStoredEntry_ok e s (mkWorld (log w) (offset e) (errno w))) as (s' & w' & E & Hi');
      try (done || lia).
    erewrite bind_ret by exact E. erewrite bind_ret by reflexivity. by eexists _, _.
  - destruct (processDeflatedEntry_ok fuel e s (mkWorld (log w) (offset e) (errno w))) as (s' & w' & E & Hi');
      try (done || lia).
    erewrite bind_ret by exact E. erewrite bind_ret by reflexivity. rewrite Hu, Z.eqb_refl. by eexists _, _.
Qed.
End delivery.

(** ** The four consumers *)

Section consumers.
Context `{K : Kernel} `{Zl : Zlib} `{Hz : !ZlibOk Zl}.

Lemma store_ok b (at_ : nat) data w : (at_ + length data <= length b)%nat ->
  store b (Z.of_nat at_) data w = Ret (take at_ b ++ data ++ drop (at_ + length data) b, w).
Proof.
  intros H. unfold store. rewrite (proj2 (Z.leb_le 0 _)), (proj2 (Z.leb_le _ _)) by lia. cbn [andb].
  by rewrite Nat2Z.id.
Qed.

(** The buffer after [d] has been copied to its start. *)
Definition copied (buf : list Z) (len : Z) (d : list Z) (s : buffer) (l : list event) : Prop :=
  s = mkBuffer (d ++ drop (length d) buf) (Z.of_nat (length d)) (len - Z.of_nat (length d)).

Lemma store_copied buf d chunk w : (length d + length chunk <= length buf)%nat ->
  store (d ++ drop (length d) buf) (Z.of_nat (length d)) chunk w =
  Ret ((d ++ chunk) ++ drop (length (d ++ chunk)) buf, w).
Proof.
  intros H. rewrite store_ok by (rewrite length_app, length_drop; lia).
  rewrite take_app_length, <- app_assoc, drop_app_ge by lia.
  rewrite drop_drop, length_app. do 5 f_equal. lia.
Qed.

Lemma copy_consumer buf len D : Z.of_nat (length D) <= len <= Z.of_nat (length buf) ->
  consumer copyProcessFunction D (copied buf len).
Proof.
  intros HL. split; [done|]. intros d chunk s w -> Hne Hc Hpre. apply prefix_length in Hpre.
  rewrite length_app in Hpre. unfold copyProcessFunction. cbn [b_len b_mem b_at].
  rewrite (proj2 (Z.leb_le _ _)) by lia. erewrite bind_ret by (apply store_copied; lia).
  eexists _, _. split; [reflexivity|]. split; [done|]. unfold copied. rewrite length_app. f_equal; lia.
Qed.

Lemma buffer_consumer buf len D : Z.of_nat (length D) <= Z.of_nat (length buf) -> Z.of_nat (length D) <= len < 2147483648 ->
  consumer bufferProcessFunction D (copied buf len).
Proof.
  intros HB HL. split; [done|]. intros d chunk s w -> Hne Hc Hpre. apply prefix_length in Hpre.
  rewrite length_app in Hpre. unfold bufferProcessFunction. cbn [b_len b_mem b_at].
  erewrite bind_ret by (apply store_copied; lia). rewrite s32_id by (unfold is_s32; lia).
  eexists _, _. split; [reflexivity|]. split; [done|]. unfold copied. rewrite length_app. f_equal; lia.
Qed.

Lemma crc_consumer D : consumer crcProcessFunction D (fun d s _ => s = crc (crc 0 []) d).
Proof.
  split; [done|]. intros d chunk s w -> Hne Hc Hpre. eexists _, _. split; [reflexivity|].
  split; [done|]. cbn beta. by rewrite (crc_app (crc 0 [])).
Qed.

(** What the kernel has accepted for the descriptor. *)
Fixpoint written (fd : Z) (l : list event) : list Z :=
  match l with
  | [] => []
  | e :: l => written fd l ++
      match e with EWrite g data => if g =? fd then take (Z.to_nat (answer l e)) data else [] | _ => [] end
  end.

(** A write takes at least a byte, if there is one. *)
Definition writes_ok : Prop := forall l fd data, data <> [] ->
  0 < answer l (EWrite fd data) <= Z.of_nat (length data).

Lemma file_write_loop_ok fuel fd data soFar w : writes_ok -> 0 <= soFar < Z.of_nat (length data) ->
  Z.of_nat (length data) - soFar < Z.of_nat fuel ->
  exists w', write_loop fuel fd data soFar w = Ret (true, w') /\ pos w' = pos w /\
    written fd (log w') = written fd (log w) ++ drop (Z.to_nat soFar) data.
Proof.
  intros Hw. revert soFar w. induction fuel as [|fuel IH]; intros soFar w Hs Hf; [lia|].
  cbn [write_loop]. erewrite bind_ret by reflexivity. set (rest := drop (Z.to_nat soFar) data).
  assert (Z.of_nat (length rest) = Z.of_nat (length data) - soFar) as HL by (unfold rest; rewrite length_drop; lia).
  set (n := answer (log w) (EWrite fd rest)).
  assert (0 < n <= Z.of_nat (length rest)) as Hn. { apply Hw. intros E. rewrite E in HL. cbn in HL. lia. }
  destruct (Z.leb_spec n 0); [lia|].
  set (w1 := after (EWrite fd rest) n w).
  assert (written fd (log w1) = written fd (log w) ++ take (Z.to_nat n) rest) as Hw1.
  { unfold w1. cbn [after log written]. by rewrite Z.eqb_refl. }
  destruct (Z.eqb_spec (soFar + n) (Z.of_nat (length data))).
  - exists w1. split; [done|]. split; [done|]. rewrite Hw1, take_ge by lia. done.
  - destruct (Z.ltb_spec (Z.of_nat (length data)) (soFar + n)); [lia|].
    destruct (IH (soFar + n) w1) as (w2 & E2 & Hp2 & Hw2); [lia | lia |].
    exists w2. split; [done|]. split; [by rewrite Hp2|]. rewrite Hw2, Hw1, <- app_assoc. f_equal.
    rewrite Z2Nat.inj_add by lia. rewrite <- drop_drop. fold rest. apply take_drop.
Qed.

Lemma write_consumer fuel fd D l0 : writes_ok -> (length D < fuel)%nat ->
  consumer (writeProcessFunction fuel) D (fun d s l => s = fd /\ written fd l = written fd l0 ++ d).
Proof.
  intros Hw Hfu. split.
  { intros d s l p n [-> Hd]. split; [done|]. cbn [written]. by rewrite app_nil_r. }
  intros d chunk s w [-> Hd] Hne Hc Hpre. apply prefix_length in Hpre. rewrite length_app in Hpre.
  assert (0 < length chunk)%nat by (destruct chunk; [done | cbn; lia]).
  destruct (file_write_loop_ok fuel fd chunk 0 w Hw) as (w' & E & Hp & Hd'); [lia | lia |].
  exists fd, w'. unfold writeProcessFunction. erewrite bind_ret by exact E.
  split; [done|]. split; [done|]. split; [done|]. by rewrite Hd', Hd, app_assoc.
Qed.

Lemma to_buffer_ok (file : list Z) (e : ZipEntry) (D buf : list Z) (fuel : nat) (w : world) :
  reads_ok -> contents_of file e D -> (Z.to_nat (compLen e) + length D < fuel)%nat ->
  Z.of_nat (length D) <= Z.of_nat (length buf) -> Z.of_nat (length D) = uncompLen e -> uncompLen e < 2147483648 ->
  exists w', mzExtractZipEntryToBuffer file fuel e buf w = Ret ((true, D ++ drop (length D) buf), w') /\ pos w' = pos w.
Proof.
  intros Hr Hco Hfu Hb Hu Hu'.
  destruct (process_ok Hr file bufferProcessFunction D _ (buffer_consumer buf (uncompLen e) D ltac:(lia) ltac:(lia)) fuel e
    (mkBuffer buf 0 (uncompLen e)) w Hco) as (s' & w' & E & Hp & ->); [|done|].
  { unfold copied. cbn. f_equal. lia. }
  exists w'. unfold mzExtractZipEntryToBuffer. erewrite bind_ret by exact E. cbn.
  by rewrite Hu, Z.sub_diag.
Qed.

End consumers.

(** ** Which entries are extracted *)

Definition begins (zp xs : list Z) : Prop := zp `prefix_of` xs.
#[global] Instance begins_dec zp xs : Decision (begins zp xs) := decide (zp `prefix_of` xs).

(** The names that begin with a given string are contiguous in the order of the array. *)
Lemma begins_between zp xs ys zs : begins zp xs -> begins zp zs -> name_le xs ys -> name_le ys zs -> begins zp ys.
Proof.
  unfold begins, name_le. revert xs ys zs.
  induction zp as [|z zp IH]; intros xs ys zs Hx Hz Hxy Hyz; [apply prefix_nil|].
  destruct Hx as [xs' ->], Hz as [zs' ->]. destruct ys as [|y ys]; [done|]. cbn in Hxy, Hyz.
  destruct (Z.compare_spec z y) as [<- | |]; [|destruct (Z.compare_spec y z); lia || done|done].
  rewrite Z.compare_refl in Hyz. apply prefix_cons.
  apply (IH (zp ++ xs') ys (zp ++ zs')); try done; by apply prefix_app_r.
Qed.

Lemma strncmp_chars_begins zp xs : Forall (fun c => c <> 0) zp ->
  strncmp_chars (length zp) xs zp = 0 <-> begins zp xs.
Proof.
  unfold begins. intros Hz. revert xs. induction Hz as [|z zp Hz _ IH]; intros xs.
  { split; [intros _; apply prefix_nil | done]. }
  cbn [length strncmp_chars nth tail]. destruct xs as [|x xs]; cbn [nth tail].
  - destruct (Z.eqb_spec 0 z); [done|]. cbn [negb]. split; [lia|]. by intros ?%prefix_nil_not.
  - destruct (Z.eqb_spec x z) as [-> |Hne]; cbn [negb].
    + destruct (Z.eqb_spec z 0); [done|]. rewrite IH. split; [apply prefix_cons | apply prefix_cons_inv_2].
    + split; [lia|]. intros ?%prefix_cons_inv_1. congruence.
Qed.

Lemma filter_empty {A} (P : A -> Prop) `{!forall x, Decision (P x)} (l : list A) :
  Forall (fun x => ~ P x) l -> filter P l = [].
Proof. induction 1; [done|]. by rewrite filter_cons_False. Qed.

Section visits.
Context `{K : Kernel} `{Zl : Zlib}.
Context (m : MemMapping) (fuel : nat) (flags : Z) (timestamp callback : bool).

(** The body of the loop on each of the entries, with nothing skipped. *)
Fixpoint extract_all (es : list ZipEntry) (helper : MzPathHelper) : M bool :=
  match es with
  | [] => mret true
  | pEntry :: es =>
      '(helper, r) ← extract_entry m fuel flags timestamp callback helper pEntry;
      match r with Go => extract_all es helper | Stop => mret true | Fail => mret false end
  end.

Lemma targetEntryPath_zpath helper e w h t w' : targetEntryPath m helper e w = Ret ((h, t), w') -> zpath h = zpath helper.
Proof.
  unfold targetEntryPath. cbv zeta. intros H.
  apply bind_inv in H as ([b|] & w1 & _ & H); [|by injection H as <- _ _].
  apply bind_inv in H as ([b1 tl] & w2 & _ & H). apply bind_inv in H as (b2 & w3 & _ & H).
  apply bind_inv in H as (b3 & w4 & _ & H). by injection H as <- _ _.
Qed.

Lemma extract_entry_zpath helper e w h r w' :
  extract_entry m fuel flags timestamp callback helper e w = Ret ((h, r), w') -> zpath h = zpath helper.
Proof.
  unfold extract_entry. intros H. apply bind_inv in H as ([h1 t] & w1 & H1 & H).
  apply targetEntryPath_zpath in H1. rewrite <- H1. clear H1.
  destruct t as [t|]; [|by injection H as <- _ _].
  destruct (truthy _).
  - apply bind_inv in H as (? & ? & _ & H). by injection H as <- _ _.
  - apply bind_inv in H as (? & ? & _ & H). apply bind_inv in H as (r' & ? & _ & H).
    destruct r'; [apply bind_inv in H as (? & ? & _ & H)|..]; by injection H as <- _ _.
Qed.

Lemma begins_short zp e : named m e -> fileNameLen e < Z.of_nat (length zp) -> ~ begins zp (name m e).
Proof. intros Hn Hl Hb. apply prefix_length in Hb. rewrite (named_length m e Hn) in Hb.
  destruct Hn as [[_ [? _]] _ _]. lia. Qed.

(** The loop skips what does not begin with [zpath]; giving up at the first mismatch
    after a match loses nothing, because the array is sorted. *)
Lemma extract_loop_all es helper seen w : Forall (fun c => c <> 0) (zpath helper) ->
  sorted m es -> Forall (named m) es ->
  (seen = true -> exists a, begins (zpath helper) a /\ Forall (fun e => name_le a (name m e)) es) ->
  extract_loop m fuel flags timestamp callback es helper seen w =
  extract_all (filter (fun e => begins (zpath helper) (name m e)) es) helper w.
Proof.
  intros Hz Hs. revert helper Hz seen w. induction Hs as [|e es Hs IH He]; intros helper Hz seen w Hn Hseen; [done|].
  apply Forall_cons in Hn as [Hne Hn]. cbn [extract_loop].
  set (P := fun e => begins (zpath helper) (name m e)).
  assert ((if (fileNameLen e <? Z.of_nat (length (zpath helper))) : bool then false
           else strncmp_chars (length (zpath helper)) (name m e) (zpath helper) =? 0)
          = bool_decide (P e)) as Hm.
  { destruct (Z.ltb_spec (fileNameLen e) (Z.of_nat (length (zpath helper)))).
    - symmetry. apply bool_decide_eq_false. by apply begins_short.
    - apply eq_bool_prop_intro. rewrite Is_true_true, Z.eqb_eq, bool_decide_spec. by apply strncmp_chars_begins. }
  assert (~ P e -> (if seen then mret true else extract_loop m fuel flags timestamp callback es helper seen) w =
    extract_all (filter P (e :: es)) helper w) as Hskip.
  { intros Hno. rewrite filter_cons_False by done. destruct seen; [|by apply IH].
    destruct (Hseen eq_refl) as (a & Ha & Hle). apply Forall_cons in Hle as [Hae Hle].
    rewrite (filter_empty P); [done|]. apply Forall_forall. intros f Hf Hb. apply Hno.
    apply (begins_between (zpath helper) a (name m e) (name m f)); try done.
    rewrite Forall_forall in He. by apply He. }
  destruct (fileNameLen e <? _).
  { apply Hskip. symmetry in Hm. by apply bool_decide_eq_false in Hm. }
  destruct (_ =? 0); cbn [negb]; symmetry in Hm.
  2:{ apply Hskip. by apply bool_decide_eq_false in Hm. }
  apply bool_decide_eq_true in Hm. rewrite filter_cons_True by done. cbn [extract_all].
  unfold mbind, M_bind. destruct (extract_entry _ _ _ _ _ helper e w) as [[[h r] w1]|p| |] eqn:E; try done.
  cbn [mbind outcome_bind]. destruct r; try done. apply extract_entry_zpath in E.
  unfold P. rewrite <- E. apply IH; [by rewrite E | done |]. intros _. rewrite E. by exists (name m e).
Qed.
End visits.

(** ** The paths *)

Definition slashed (tDir : path) : path :=
  if bool_decide (last tDir = Some slash) then tDir else tDir ++ [slash].
(** Where an entry goes. *)
Definition target_path (m : MemMapping) (tDir zp : path) (e : ZipEntry) : path :=
  slashed tDir ++ drop (length zp) (name m e).

Section paths.
Context `{K : Kernel} `{Zl : Zlib}.
Context (m : MemMapping) (tDir zp : path).
Context (Ht : Forall (fun c => c <> 0) tDir) (Htl : Z.of_nat (length tDir) <= 65536).

Record helper_ok (h : MzPathHelper) : Prop := {
  ho_dir : targetDir h = tDir;
  ho_zpath : zpath h = zp;
  ho_zlen : zipDirLen h = Z.of_nat (length zp);
  ho_buf : match pbuf h with
           | None => targetDirLen h = Z.of_nat (length tDir)
           | Some b => targetDirLen h = Z.of_nat (length (slashed tDir)) /\ slashed tDir `prefix_of` b
           end;
}.

Lemma store_at (xs ys data : list Z) w : (length data <= length ys)%nat ->
  store (xs ++ ys) (Z.of_nat (length xs)) data w = Ret (xs ++ data ++ drop (length data) ys, w).
Proof.
  intros H. rewrite store_ok by (rewrite length_app; lia). rewrite take_app_length, drop_app_ge by lia.
  do 5 f_equal. lia.
Qed.

Lemma c_string_app xs ys : Forall (fun c => c <> 0) xs -> c_string (xs ++ 0 :: ys) = xs.
Proof.
  induction 1 as [|x xs Hx _ IH]; cbn; [done|]. destruct (Z.eqb_spec x 0); [done|]. by rewrite IH.
Qed.

Lemma slashed_chars : Forall (fun c => c <> 0) (slashed tDir).
Proof. unfold slashed. case_bool_decide; [done|]. apply Forall_app_2; [done|]. by repeat constructor. Qed.

Lemma slashed_length : (length tDir <= length (slashed tDir) <= S (length tDir))%nat.
Proof. unfold slashed. case_bool_decide; rewrite ?length_app; cbn; lia. Qed.

(** A block from [realloc]. *)
Lemma realloc_ok old size w : 0 <= size -> Z.of_nat (length (default [] old)) <= size ->
  exists r w', realloc old size w = Ret (r, w') /\ log w' = EMalloc size :: log w /\
    match r with
    | None => answer (log w) (EMalloc size) = 0
    | Some b => Z.of_nat (length b) = size /\ default [] old `prefix_of` b
    end.
Proof.
  intros Hs Hl. unfold realloc. erewrite bind_ret by reflexivity. cbv beta.
  destruct (Z.eqb_spec (answer (log w) (EMalloc size)) 0); eexists _, _; (split; [reflexivity|]); (split; [done|]).
  - done.
  - rewrite take_ge by lia. rewrite length_app, length_replicate. split; [lia|]. by apply prefix_app_r.
Qed.

(** The first time, the target directory is put at the start of the buffer. *)
Lemma first_time_ok b w : Z.of_nat (length tDir) + 1 <= Z.of_nat (length b) ->
  exists b', (b ← store b 0 tDir;
    if (Z.of_nat (length tDir) =? 0) || negb (bool_decide (last tDir = Some slash))
    then b ← store b (Z.of_nat (length tDir)) [slash]; mret (b, Z.of_nat (length tDir) + 1)
    else mret (b, Z.of_nat (length tDir))) w = Ret ((b', Z.of_nat (length (slashed tDir))), w) /\
    length b' = length b /\ slashed tDir `prefix_of` b'.
Proof.
  intros Hb. erewrite bind_ret by (apply (store_at [] b tDir); cbn; lia). cbn [app].
  assert ((Z.of_nat (length tDir) =? 0) || negb (bool_decide (last tDir = Some slash))
    = negb (bool_decide (last tDir = Some slash))) as ->.
  { destruct (Z.eqb_spec (Z.of_nat (length tDir)) 0) as [E|]; [|done].
    destruct tDir; [|cbn in E; lia]. cbn [orb]. by rewrite bool_decide_false. }
  unfold slashed. case_bool_decide; cbn [negb].
  - eexists. split; [reflexivity|]. rewrite length_app, length_drop. split; [lia|]. by apply prefix_app_r.
  - erewrite bind_ret by (apply store_at; rewrite length_drop; cbn; lia).
    eexists. split; [rewrite length_app, Nat2Z.inj_add; reflexivity|].
    rewrite !length_app, !length_drop. cbn. split; [lia|]. apply prefix_app, prefix_cons, prefix_nil.
Qed.

(** The buffer is large enough for the path, or there is no memory. *)
Lemma path_grow_ok h k w : helper_ok h -> 0 <= k < 4096 ->
  let bufLen := match pbuf h with None => 0 | Some b => Z.of_nat (length b) end in
  let needLen := s32 (targetDirLen h + 1 + k + 1) in
  exists g w', (if bufLen <? needLen then newBuf ← realloc (pbuf h) (s32 (needLen * 2)); mret newBuf
      else mret (pbuf h)) w = Ret (g, w') /\ pos w' = pos w /\
    (log w' = log w \/ exists n, log w' = EMalloc n :: log w) /\
    match g with
    | None => exists n, answer (log w) (EMalloc n) = 0
    | Some b => targetDirLen h + 1 + k + 1 <= Z.of_nat (length b) /\ default [] (pbuf h) `prefix_of` b
    end.
Proof.
  intros [_ _ _ Hb] Hk bufLen needLen. pose proof slashed_length as HS.
  assert (0 <= targetDirLen h <= 65537) as Htd by (destruct (pbuf h) as [b|]; lia).
  assert (needLen = targetDirLen h + 1 + k + 1) as En by (apply s32_id; unfold is_s32; lia).
  assert (bufLen = Z.of_nat (length (default [] (pbuf h)))) as Ebl by (unfold bufLen; by destruct (pbuf h)).
  destruct (Z.ltb_spec bufLen needLen).
  - rewrite s32_id by (unfold is_s32; lia).
    destruct (realloc_ok (pbuf h) (needLen * 2) w) as (r & w' & E & Hl & Hr); [lia | lia |].
    erewrite bind_ret by exact E. exists r, w'. split; [done|]. split.
    { revert E. unfold realloc. erewrite bind_ret by reflexivity. destruct (_ =? 0); by intros [= _ <-]. }
    split; [right; by eexists|]. destruct r as [b|]; [|by eexists]. destruct Hr as [Hr1 Hr2]. split; [lia | done].
  - exists (pbuf h), w. do 2 (split; [done|]). split; [by left|]. unfold bufLen in *.
    destruct (pbuf h) as [b|]; [|lia]. cbn. split; [lia | done].
Qed.

Lemma targetEntryPath_ok h e w : helper_ok h -> named m e -> begins zp (name m e) ->
  exists h' r w', targetEntryPath m h e w = Ret ((h', r), w') /\ pos w' = pos w /\
    (log w' = log w \/ exists n, log w' = EMalloc n :: log w) /\
    match r with
    | None => exists n, answer (log w) (EMalloc n) = 0
    | Some p => helper_ok h' /\ p = target_path m tDir zp e
    end.
Proof.
  intros Hh Hn Hbg. pose proof Hh as [Hd Hz Hzl Hb]. unfold targetEntryPath. rewrite Hd, Hzl. cbv zeta.
  pose proof (named_length m e Hn) as HL. pose proof slashed_length as HS.
  assert (length zp <= length (name m e))%nat as Hzn by (by apply prefix_length).
  destruct Hn as [[_ [Hn0 _]] Hn1 Hnc].
  set (rest := drop (length zp) (name m e)).
  assert (fileNameLen e - Z.of_nat (length zp) = Z.of_nat (length rest)) as -> by (unfold rest; rewrite length_drop; lia).
  assert (Z.of_nat (length rest) < 4096) by (unfold rest; rewrite length_drop; lia).
  destruct (path_grow_ok h (Z.of_nat (length rest)) w Hh) as (g & w1 & E1 & Hp1 & Hl1 & Hg); [lia|].
  erewrite bind_ret by exact E1. clear E1. destruct g as [b|].
  2:{ eexists _, _, _. split; [reflexivity|]. done. }
  destruct Hg as [Hlen Hpre].
  assert (exists b1, (if match pbuf h with None => true | Some _ => false end : bool then
      b ← store b 0 tDir;
      if (targetDirLen h =? 0) || negb (bool_decide (last tDir = Some slash))
      then b ← store b (targetDirLen h) [slash]; mret (b, targetDirLen h + 1) else mret (b, targetDirLen h)
    else mret (b, targetDirLen h)) w1 = Ret ((b1, Z.of_nat (length (slashed tDir))), w1) /\
    length b1 = length b /\ slashed tDir `prefix_of` b1) as (b1 & E1 & HL1 & [tl Hb1]).
  { destruct (pbuf h) as [b0|].
    - destruct Hb as [-> Hb]. exists b. split; [done|]. split; [done|]. by etrans.
    - rewrite Hb in *. by apply first_time_ok; lia. }
  erewrite bind_ret by exact E1. clear E1. cbn beta iota. subst b1.
  assert (length rest + 1 <= length tl)%nat as Htl2.
  { rewrite length_app in HL1. destruct (pbuf h) as [b0|]; lia. }
  rewrite Nat2Z.id. fold rest.
  erewrite bind_ret by (apply store_at; lia).
  rewrite (app_assoc (slashed tDir) rest), <- Nat2Z.inj_add, <- length_app.
  erewrite bind_ret by (apply store_at; rewrite length_drop; cbn [length]; lia).
  eexists _, _, _. split; [reflexivity|]. split; [done|]. split; [done|]. split.
  - split; cbn; try done. split; [done|]. rewrite <- app_assoc. by apply prefix_app_r.
  - cbn [app]. rewrite c_string_app; [done|]. apply Forall_app_2; [apply slashed_chars|].
    apply Forall_drop. apply (Forall_impl _ _ _ Hnc). unfold printable. lia.
Qed.
End paths.

(** ** Extraction of a directory *)

Fixpoint callbacks (l : list event) : list path :=
  match l with [] => [] | ECallback p :: l => callbacks l ++ [p] | _ :: l => callbacks l end.

Definition mallocs_ok `{K : Kernel} : Prop := forall l n, answer l (EMalloc n) <> 0.

Lemma dry_run_all `{K : Kernel} `{Zl : Zlib} m tDir zp fuel flags timestamp es h w :
  Forall (fun c => c <> 0) tDir -> Z.of_nat (length tDir) <= 65536 -> mallocs_ok ->
  truthy (Z.land flags MZ_EXTRACT_DRY_RUN) = true -> helper_ok tDir zp h ->
  Forall (fun e => named m e /\ begins zp (name m e)) es ->
  exists w', extract_all m fuel flags timestamp true es h w = Ret (true, w') /\
    callbacks (log w') = callbacks (log w) ++ (target_path m tDir zp <$> es).
Proof.
  intros Ht Htl Hma Hdry Hh Hes. revert h w Hh.
  induction Hes as [|e es [Hn Hb] _ IH]; intros h w Hh; cbn [extract_all].
  { exists w. cbn. by rewrite app_nil_r. }
  destruct (targetEntryPath_ok m tDir zp Ht Htl h e w Hh Hn Hb) as (h1 & r & w1 & E & _ & Hl & Hr).
  destruct r as [p|]; [|destruct Hr as [n Hr]; by apply Hma in Hr]. destruct Hr as [Hh1 ->].
  set (w2 := after (ECallback (target_path m tDir zp e)) (answer (log w1) (ECallback (target_path m tDir zp e))) w1).
  assert (extract_entry m fuel flags timestamp true h e w = Ret ((h1, Go), w2)) as Ee.
  { unfold extract_entry. erewrite bind_ret by exact E. cbn beta iota zeta. by rewrite Hdry. }
  erewrite bind_ret by exact Ee. cbn beta iota.
  destruct (IH h1 w2 Hh1) as (w' & -> & Hc). exists w'. split; [done|]. rewrite Hc.
  unfold w2. cbn [after log callbacks]. rewrite <- app_assoc. cbn [app fmap list_fmap]. f_equal.
  destruct Hl as [-> | [n ->]]; done.
Qed.

(** (C19) [mzExtractRecursive] on an archive that has been opened treats exactly the
    entries whose names begin with the directory, in the order of the array: its loop,
    which gives up at the first mismatch after a match, does what the body does on
    those entries, for every flag and whatever the kernel answers.  A dry run reports the
    target directory followed by the rest of the name, for each of them. *)
Theorem mzExtractRecursive_visits `{SafeIopOk} `{K : Kernel} `{Zl : Zlib} al opened err m ar fuel zipDir tDir flags timestamp callback w :
  mapped_ok m -> aligned al -> 0 <= opened -> mzOpenZipArchive al opened err (Some m) = Ret (ar, 0) ->
  Forall (fun c => c <> 0) zipDir -> Forall (fun c => c <> 0) tDir -> Z.of_nat (length tDir) <= 65536 ->
  head zipDir <> Some slash -> head tDir = Some slash -> mallocs_ok ->
  let zp := canonical zipDir in
  let here := filter (fun e => begins zp (name m e)) (entries ar) in
  let helper := mkMzPathHelper tDir zp None (Z.of_nat (length tDir)) (Z.of_nat (length zp)) in
  let w0 := after (EMalloc (Z.of_nat (length zipDir) + 2)) (answer (log w) (EMalloc (Z.of_nat (length zipDir) + 2))) w in
  mzExtractRecursive m fuel (entries ar) zipDir tDir flags timestamp callback w =
    extract_all m fuel flags timestamp callback here helper w0 /\
  (truthy (Z.land flags MZ_EXTRACT_DRY_RUN) = true -> callback = true ->
   exists w', mzExtractRecursive m fuel (entries ar) zipDir tDir flags timestamp callback w = Ret (true, w') /\
     callbacks (log w') = callbacks (log w) ++ (target_path m tDir zp <$> here)).
Proof.
  intros Hm Hal Hfd Ho Hzc Htc Htl Hz Ht Hma zp here helper w0.
  pose proof (open_ok al opened err m Hm Hal Hfd) as Hopen. rewrite Ho in Hopen. cbn [safe] in Hopen.
  destruct (decide (0 = 0)) as [_|]; [|done]. destruct Hopen as (_ & _ & p & _ & [_ _ Hn Hs _ _]).
  assert (Forall (fun c => c <> 0) zp) as Hzp.
  { unfold zp, canonical. destruct (_ && _); [|done]. apply Forall_app_2; [done|]. by repeat constructor. }
  assert (mzExtractRecursive m fuel (entries ar) zipDir tDir flags timestamp callback w =
    extract_all m fuel flags timestamp callback here helper w0) as E.
  { unfold mzExtractRecursive. rewrite (bool_decide_false _ Hz), (bool_decide_true _ Ht). cbn [negb].
    erewrite bind_ret by reflexivity. cbv beta.
    destruct (Z.eqb_spec (answer (log w) (EMalloc (Z.of_nat (length zipDir) + 2))) 0) as [E|_]; [by apply Hma in E|].
    by apply extract_loop_all. }
  split; [done|]. intros Hdry ->. rewrite E.
  destruct (dry_run_all m tDir zp fuel flags timestamp here helper w0) as (w' & Ew & Hc); try done.
  { apply Forall_forall. intros e He. apply list_elem_of_filter in He as [Hb He]. rewrite Forall_forall in Hn. auto. }
  exists w'. split; [done|]. by rewrite Hc.
Qed.

(** ** What the checks leave out *)

Section overflow.
Context `{K : Kernel} `{Zl : Zlib} (Hr : reads_ok) (file buf : list Z).

Lemma buffer_step d chunk len w : Z.of_nat (length d) + Z.of_nat (length chunk) <= Z.of_nat (length buf) ->
  bufferProcessFunction chunk (mkBuffer (d ++ drop (length d) buf) (Z.of_nat (length d)) len) w =
  Ret ((true, mkBuffer ((d ++ chunk) ++ drop (length (d ++ chunk)) buf) (Z.of_nat (length (d ++ chunk)))
    (s32 (len - Z.of_nat (length chunk)))), w).
Proof.
  intros H. unfold bufferProcessFunction. cbn [b_mem b_at b_len].
  erewrite bind_ret by (apply store_copied; lia). by rewrite <- Nat2Z.inj_add, <- length_app.
Qed.

Lemma buffer_step_overflows d chunk len w : Z.of_nat (length d) <= Z.of_nat (length buf) ->
  Z.of_nat (length buf) < Z.of_nat (length d) + Z.of_nat (length chunk) ->
  bufferProcessFunction chunk (mkBuffer (d ++ drop (length d) buf) (Z.of_nat (length d)) len) w = Fault 0.
Proof.
  intros Hd H. unfold bufferProcessFunction, mbind, M_bind, store. cbn [b_mem b_at b_len].
  rewrite (proj2 (Z.leb_gt (Z.of_nat (length d) + Z.of_nat (length chunk)) _)).
  - by rewrite andb_false_r.
  - rewrite length_app, length_drop. lia.
Qed.

Lemma buffer_loop_overflows fuel d n len w : Z.of_nat (length d) <= Z.of_nat (length buf) ->
  Z.of_nat (length buf) < Z.of_nat (length d) + n -> 0 <= pos w -> pos w + n <= Z.of_nat (length file) ->
  n <= BUFSIZE * (Z.of_nat fuel - 1) ->
  stored_loop file bufferProcessFunction fuel n (mkBuffer (d ++ drop (length d) buf) (Z.of_nat (length d)) len) w = Fault 0.
Proof.
  revert d n len w. induction fuel as [|fuel IH]; intros d n len w Hd Hn Hp Hl Hfu.
  { unfold BUFSIZE in *. lia. }
  cbn [stored_loop]. destruct (Z.ltb_spec 0 n); [|lia].
  set (count := if BUFSIZE <? n then BUFSIZE else n).
  assert (0 < count <= BUFSIZE /\ count <= n) as Hco by (unfold count; zcases; unfold BUFSIZE in *; lia).
  erewrite bind_ret by (apply read_full; [done | lia..]). cbn beta iota.
  destruct (Z.ltb_spec count 0); [lia|]. rewrite Z.eqb_refl. cbn [orb negb].
  set (chunk := slice file (pos w) count).
  assert (Z.of_nat (length chunk) = count) as Hc by (apply length_slice; lia).
  destruct (decide (Z.of_nat (length d) + count <= Z.of_nat (length buf))).
  - erewrite bind_ret by (apply buffer_step; lia). cbn beta iota. cbn [negb].
    apply IH; rewrite ?length_app; cbn [pos]; try lia.
    clear - Hfu Hco H. unfold count, BUFSIZE in *. zcases; lia.
  - unfold mbind at 1, M_bind at 1. by rewrite buffer_step_overflows by lia.
Qed.
End overflow.

(** (C35) [mzExtractZipEntryToBuffer] does not check the size of its buffer: a stored entry
    with more bytes than its announced length is written past a buffer of that length. *)
Theorem mzExtractZipEntryToBuffer_overflows `{K : Kernel} `{Zl : Zlib} file e buf fuel w :
  reads_ok -> compression e = STORED -> 0 <= offset e -> Z.of_nat (length buf) = uncompLen e ->
  uncompLen e < compLen e < 2147483648 -> offset e + compLen e <= Z.of_nat (length file) ->
  mzExtractZipEntryToBuffer file fuel e buf w = Fault 0.
Proof.
  intros Hr Hs Ho Hb Hc Hl. unfold mzExtractZipEntryToBuffer, mzProcessZipEntryContents. rewrite Hs.
  change (STORED =? STORED) with true. cbn [mbind M_bind outcome_bind get_pos seek]. unfold mbind, M_bind.
  cbn [mbind outcome_bind get_pos seek]. unfold processStoredEntry. rewrite u32_id by (unfold is_u32; lia).
  pose proof (buffer_loop_overflows Hr file buf (Datatypes.S (Datatypes.S (Z.to_nat (compLen e / BUFSIZE)))) []
    (compLen e) (uncompLen e) (mkWorld (log w) (offset e) (errno w))) as H.
  cbn [app length drop] in H. change (Z.of_nat 0) with 0 in H. rewrite drop_0 in H. rewrite H; [done|..]; cbn [pos]; try lia.
  pose proof (Z.div_mod (compLen e) BUFSIZE ltac:(done)). pose proof (Z.mod_pos_bound (compLen e) BUFSIZE ltac:(done)).
  pose proof (Z.div_pos (compLen e) BUFSIZE ltac:(lia) ltac:(done)). unfold BUFSIZE in *. lia.
Qed.

(** ** Instances for the witnesses *)

(** A kernel without errors: reads and writes are complete, descriptors and blocks are
    available, nothing exists yet. *)
Definition good_kernel : Kernel := fun _ e =>
  match e with
  | ERead _ n => n | EWrite _ data => Z.of_nat (length data) | ECreat _ _ => 5 | EMalloc _ => 0x8000
  | EStat _ => - ENOENT | _ => 0
  end.
(** One whose disk is full. *)
Definition full_disk : Kernel := fun l e =>
  match e with EWrite _ _ => -28 | _ => good_kernel l e end.
(** One that refuses to read more than 2^31 bytes (EFAULT). *)
Definition strict_kernel : Kernel := fun l e =>
  match e with ERead _ n => if 2147483648 <=? n then -14 else n | _ => good_kernel l e end.

(** A stream format for which [inflate] is simple: the bytes themselves, which are not
    zero, and a zero at the end. *)
Fixpoint toy_run (inp : list Z) (avail : nat) : bool * nat * list Z :=
  match inp, avail with
  | [], _ => (false, 0%nat, [])
  | 0 :: _, _ => (true, 1%nat, [])
  | _, O => (false, 0%nat, [])
  | x :: inp, S avail => let '(fin, k, out) := toy_run inp avail in (fin, S k, x :: out)
  end.
Fixpoint toy_decode (J : list Z) : option (list Z) :=
  match J with
  | [] => None
  | [0] => Some []
  | 0 :: _ => None
  | x :: J => D ← toy_decode J; Some (x :: D)
  end.

#[global] Instance toy_zlib : Zlib := {
  z_state := bool; z_init := false; inflateInit2_ok := true;
  inflate z inp avail :=
    if z : bool then (Z_STREAM_END, true, 0%nat, [])
    else let '(fin, k, out) := toy_run inp (Z.to_nat avail) in
         (if fin : bool then Z_STREAM_END else if (k =? 0)%nat then Z_BUF_ERROR else Z_OK, fin, k, out);
  crc x data := foldl (fun c d => u32 (c * 31 + d)) x data;
}.

Lemma toy_decode_spec J D : toy_decode J = Some D -> J = D ++ [0] /\ Forall (fun c => c <> 0) D.
Proof.
  revert D. induction J as [|x J IH]; intros D; cbn [toy_decode]; [done|].
  destruct x as [|x|x]; [destruct J; [intros [= <-]; done | done]|..];
    (destruct (toy_decode J) as [D'|]; [|done]; intros [= <-]; destruct (IH D' eq_refl) as [-> HD];
     split; [done | by constructor]).
Qed.

Lemma toy_run_spec inp avail fin k out : toy_run inp avail = (fin, k, out) ->
  take k inp = out ++ (if fin then [0] else []) /\ (k <= length inp)%nat /\ (length out <= avail)%nat /\
  Forall (fun c => c <> 0) out /\ (fin = false -> k = length inp \/ length out = avail) /\
  (inp <> [] -> (0 < avail)%nat -> (0 < k)%nat).
Proof.
  revert avail fin k out. induction inp as [|x inp IH]; intros avail fin k out E.
  { cbn in E. injection E as <- <- <-. cbn. repeat split; auto with lia. done. }
  assert (x = 0 /\ (fin, k, out) = (true, 1%nat, []) \/ x <> 0 /\ avail = 0%nat /\ (fin, k, out) = (false, 0%nat, []) \/
    x <> 0 /\ exists a fin' k' out', avail = S a /\ toy_run inp a = (fin', k', out') /\ (fin, k, out) = (fin', S k', x :: out'))
    as [[-> [= -> -> ->]] | [(? & -> & [= -> -> ->]) | (Hx & a & fin' & k' & out' & -> & Er & [= -> -> ->])]].
  { destruct x as [|x|x]; [left; destruct avail; by rewrite <- E | right..].
    all: destruct avail as [|a]; [left; by rewrite <- E | right].
    all: split; [done|]; cbn in E; destruct (toy_run inp a) as [[fin' k'] out'] eqn:Er.
    all: exists a, fin', k', out'; by rewrite <- E. }
  - cbn. repeat split; auto with lia.
  - cbn. repeat split; auto with lia.
  - destruct (IH a fin' k' out' Er) as (Ht & Hk & Ho & Hf & He & _). cbn.
    split; [by rewrite Ht|]. do 2 (split; [lia|]). split; [by constructor|].
    split; [|lia]. intros Hfin. destruct (He Hfin); [left | right]; lia.
Qed.

Lemma end_unique (xs ys zs : list Z) : Forall (fun c => c <> 0) xs -> Forall (fun c => c <> 0) ys ->
  xs ++ 0 :: zs = ys ++ [0] -> xs = ys /\ zs = [].
Proof.
  intros Hx. revert ys. induction Hx as [|x xs Hx _ IH]; intros [|y ys] Hy E; cbn in E.
  - injection E as ->. done.
  - injection E as <- _. by apply Forall_cons in Hy as [? _].
  - injection E as -> E. by destruct xs.
  - injection E as -> E. apply Forall_cons in Hy as [_ Hy]. by destruct (IH ys Hy E) as [-> ->].
Qed.

Lemma prefix_of_snoc {A} (xs ys : list A) y : xs `prefix_of` ys ++ [y] -> xs = ys ++ [y] \/ xs `prefix_of` ys.
Proof.
  intros [k E]. destruct k as [|z k _] using rev_ind; [left; by rewrite app_nil_r in E|right].
  rewrite app_assoc in E. apply app_inj_tail in E as [-> _]. by exists k.
Qed.

Lemma toy_inflate_ok z J D I inp rest out avail c z' k more :
  toy_decode J = Some D -> Forall (fun c => c <> 0) out /\ I = out ++ (if z : bool then [0] else []) ->
  J = I ++ inp ++ rest -> (inp <> [] \/ rest = []) -> 0 < avail ->
  inflate z inp avail = (c, z', k, more) ->
  (Forall (fun c => c <> 0) (out ++ more) /\ I ++ take k inp = (out ++ more) ++ (if z' : bool then [0] else [])) /\
  (k <= length inp)%nat /\ Z.of_nat (length more) <= avail /\
  ((c = Z_STREAM_END /\ I ++ take k inp = J /\ out ++ more = D) \/
   (c = Z_OK /\ (0 < k + length more)%nat /\ (out ++ more) `prefix_of` D /\
    (k = length inp \/ Z.of_nat (length more) = avail))).
Proof.
  intros HJ [Ho ->] HJe Hor Hav Hi. apply toy_decode_spec in HJ as [HD HDn].
  cbn [inflate toy_zlib] in Hi. destruct z.
  - injection Hi as <- <- <- <-. rewrite take_0, !app_nil_r in *.
    rewrite HD, <- app_assoc in HJe. cbn [app] in HJe.
    symmetry in HJe. apply end_unique in HJe as [-> HJe]; [|done|done]. apply app_eq_nil in HJe as [-> ->].
    split; [done|]. split; [cbn; lia|]. split; [cbn; lia|]. left. by rewrite HD.
  - destruct (toy_run inp (Z.to_nat avail)) as [[fin k'] out'] eqn:Er. injection Hi as <- <- <- <-.
    apply toy_run_spec in Er as (Ht & Hk & Hl & Hn & He & Hp). rewrite app_nil_r in *.
    assert (Forall (fun c => c <> 0) (out ++ out')) as Hnn by (by apply Forall_app_2).
    split; [rewrite Ht, app_assoc; done|]. split; [done|]. split; [lia|].
    assert (J = (out ++ out') ++ (if fin then [0] else []) ++ drop k' inp ++ rest) as HJ2.
    { rewrite HJe, <- (take_drop k' inp) at 1. rewrite Ht, <- !app_assoc. done. }
    destruct fin.
    + left. rewrite HD in HJ2. symmetry in HJ2. pose proof (end_unique _ _ _ Hnn HDn HJ2) as [HD2 Hnil].
      split; [done|]. split; [|done]. rewrite Ht, HD, <- HD2, app_assoc. done.
    + right. assert (inp <> []) as Hne.
      { intros ->. destruct Hor as [|Hor]; [done|]. subst rest. rewrite !app_nil_r in HJe.
        rewrite HJe in HD. rewrite HD, Forall_app, Forall_singleton in Ho. tauto. }
      specialize (Hp Hne ltac:(lia)). destruct (Nat.eqb_spec k' 0); [lia|].
      split; [done|]. split; [lia|]. split; [|destruct (He eq_refl); [by left | right; lia]].
      cbn [app] in HJ2. rewrite HD in HJ2.
      destruct (prefix_of_snoc (out ++ out') D 0) as [E|]; [by eexists | | done].
      rewrite E, Forall_app, Forall_singleton in Hnn. tauto.
Qed.

#[global] Instance toy_zlib_ok : ZlibOk toy_zlib.
Proof.
  refine {| decode := toy_decode;
            inflating z I out := Forall (fun c => c <> 0) out /\ I = out ++ (if z : bool then [0] else []) |}.
  - by split.
  - intros. by eapply toy_inflate_ok.
  - intros x xs ys. cbn. by rewrite foldl_app.
Defined.

Lemma good_reads : @reads_ok good_kernel.
Proof. intros l p n. cbn. lia. Qed.
Lemma good_writes : @writes_ok good_kernel.
Proof. intros l fd data Hd. cbn. destruct data; [done | cbn; lia]. Qed.

(** A deflated entry of three bytes, and a stored one of three bytes that announces two. *)
Definition deflated_entry : ZipEntry := mkZipEntry 0 0 2 4 3 DEFLATED 0 0 0 0.
Definition long_entry : ZipEntry := mkZipEntry 0 0 2 3 2 STORED 0 0 0 0.
Definition sample_file : list Z := [9; 9; 5; 6; 7; 0; 9].
Definition fresh_world : world := mkWorld [] 0 0.


Lemma mzExtractZipEntryToBuffer_overflows_witness :
  mzExtractZipEntryToBuffer (K := good_kernel) sample_file 8 long_entry [0; 0] fresh_world = Fault 0.
Proof.
  apply (mzExtractZipEntryToBuffer_overflows (K := good_kernel) sample_file long_entry [0; 0] 8 fresh_world good_reads);
    cbn; reflexivity || lia.
Defined.

(** [mzExtractRecursive(archive, a, /t)], a dry run, on the archive with [b] and [a/c]. *)
Lemma mzExtractRecursive_visits_witness :
  exists w', mzExtractRecursive (K := good_kernel) sample_map 8 (entries sample_archive) [97] [47; 116] 2 false true fresh_world
    = Ret (true, w') /\ callbacks (log w') = [[47; 116; 47; 99]].
Proof.
  apply (mzExtractRecursive_visits (K := good_kernel) sample_alloc 3 0 sample_map sample_archive 8 [97] [47; 116] 2 false true
    fresh_world sample_map_ok).
  - split; [vm_compute; congruence | reflexivity].
  - lia.
  - vm_compute. reflexivity.
  - by repeat constructor.
  - by repeat constructor.
  - cbn. lia.
  - discriminate.
  - reflexivity.
  - intros l n. vm_compute. congruence.
  - reflexivity.
  - reflexivity.
Defined.

(** A file that cannot be written is reported as extracted: the inner variable [ok]
    hides the result, so that on a full disk the extraction of the whole archive returns
    true although nothing has been written. *)
Lemma mzExtractRecursive_hides_errors :
  exists w', mzExtractRecursive (K := full_disk) sample_map 8 (entries sample_archive) [] [47; 116] 0 false false fresh_world
    = Ret (true, w') /\ @written full_disk 5 (log w') = [] /\
    mzExtractZipEntryToFile (K := full_disk) (mem sample_map) 8 (nth 0 (entries sample_archive) zero_entry) 5 fresh_world
    = Ret (false, after (EWrite 5 [7; 8]) (-28) (mkWorld [ERead 67 2] 0 0)).
Proof. eexists. split; [vm_compute; reflexivity|]. split; vm_compute; reflexivity. Qed.

(** An archive of one stored file of three bytes, with fields of its central header
    changed: the header starts at 34. *)
Definition patch (l : list Z) (i : nat) (v : list Z) : list Z := take i l ++ v ++ drop (i + length v) l.
Definition one_file : list Z := zip_image [mkMember [98] [1; 2; 3] STORED 3 0 0 0x300 0].
Definition hostile (fields : list (Z * list Z)) : MemMapping :=
  mkMemMapping 0x40000000 (foldl (fun l '(at_, v) => patch l (34 + Z.to_nat at_) v) one_file fields).
Definition opened_entry (m : MemMapping) : option ZipEntry :=
  match mzOpenZipArchive sample_alloc 3 0 (Some m) with
  | Ret (ar, 0) => head (entries ar) | _ => None
  end.

Definition huge : list Z := [255; 255; 255; 255].
(** Deflated, of 2^32 - 1 compressed bytes. *)
Definition huge_deflated : MemMapping := hostile [(CENHOW, le_bytes 2 DEFLATED); (CENSIZ, huge)].
(** Deflated, of 2^32 - 1 bytes; its data are not a stream. *)
Definition huge_length : MemMapping := hostile [(CENHOW, le_bytes 2 DEFLATED); (CENLEN, huge)].
(** An empty symbolic link of 2^32 - 1 bytes. *)
Definition huge_link : MemMapping :=
  hostile [(CENSIZ, le_bytes 4 0); (CENLEN, huge); (CENATX, le_bytes 4 0xA1FF0000)].
(** A local header sixteen bytes below the end of the address space. *)
Definition wrapping_offset : MemMapping := hostile [(CENOFF, le_bytes 4 (0xFFFFFFF0 - 0x40000000))].

(** Sizes of 2^31 and more are taken for negative ones, and [parseZipArchive] accepts
    them.  A compressed size of 2^32 - 1 makes [inflate] read past its buffer; an
    uncompressed one turns the failure to inflate into success, and as the length of a
    symbolic link it makes [mzExtractRecursive] write before a block.  An offset that
    wraps with the length of the header is read at an address outside the mapping. *)
Lemma parseZipArchive_accepts_hostile_sizes :
  (exists e, opened_entry huge_deflated = Some e /\ compLen e = -1 /\
     mzIsZipEntryIntact (K := strict_kernel) (mem huge_deflated) 8 e fresh_world = Fault 0) /\
  (exists e w', opened_entry huge_length = Some e /\ toy_decode (slice (mem huge_length) (offset e) (compLen e)) = None /\
     mzReadZipEntry (K := good_kernel) (mem huge_length) 8 e [] 0 fresh_world = Ret ((true, []), w')) /\
  (exists e, opened_entry huge_link = Some e /\ uncompLen e = -1 /\
     mzExtractRecursive (K := good_kernel) huge_link 8 [e] [] [47; 116] 0 false false fresh_world = Fault 0) /\
  mzOpenZipArchive sample_alloc 3 0 (Some wrapping_offset) = Fault 0xFFFFFFF0.
Proof.
  split; [|split; [|split]].
  - eexists. split; [vm_compute; reflexivity|]. split; vm_compute; reflexivity.
  - eexists _, _. split; [vm_compute; reflexivity|]. split; vm_compute; reflexivity.
  - eexists. split; [vm_compute; reflexivity|]. split; vm_compute; reflexivity.
  - vm_compute. reflexivity.
Qed.
