(* ===== verification/ZipImage.v ===== *)
(** * Archives and their reader

    The format of [Zip] against the reader of [Zip] and [ZipExtract]: an image that is
    laid out as the format says is accepted, and every file of it is found under its name
    and delivered as it was put in. *)

From S2P Require Import Prelude HashTable Zip ZipExtract.

(** What an archive can hold. *)
Record member_ok (f : member) : Prop := {
  mk_name : Forall printable (mb_name f) /\ Z.of_nat (length (mb_name f)) < 4096;
  mk_stored : Forall is_u8 (mb_stored f);
  mk_how : is_u16 (mb_how f);
  mk_length : is_u32 (mb_length f);
  mk_time : is_u32 (mb_time f);
  mk_crc : is_u32 (mb_crc f);
  mk_madeBy : is_u16 (mb_madeBy f) /\
    (Z.land (mb_madeBy f) 0xff00 = 0 \/ Z.land (mb_madeBy f) 0xff00 = CENVEM_UNIX);
  mk_attributes : is_u32 (mb_attributes f);
}.

Record image_ok (fs : list member) : Prop := {
  io_some : fs <> [];
  io_count : Z.of_nat (length fs) < 65536;
  io_members : Forall member_ok fs;
  io_names : NoDup (mb_name <$> fs);
  io_size : Z.of_nat (length (zip_image fs)) <= 1073741824;
}.

(** The entry for a file whose header is at [ptr] and whose local part is at [off]. *)
Definition member_entry (ptr off : Z) (f : member) : ZipEntry :=
  mkZipEntry (Z.of_nat (length (mb_name f))) (ptr + CENHDR) (off + LOCHDR + Z.of_nat (length (mb_name f)))
    (Z.of_nat (length (mb_stored f))) (s32 (mb_length f)) (mb_how f) (s32 (mb_time f)) (s32 (mb_crc f))
    (mb_madeBy f) (s32 (mb_attributes f)).

(** The entry for a file: its name and its data are those of the file. *)
Record describes (m : MemMapping) (e : ZipEntry) (f : member) : Prop := {
  ds_fields : exists ptr off, e = member_entry ptr off f;
  ds_name : name m e = mb_name f;
  ds_data : slice (mem m) (offset e) (compLen e) = mb_stored f;
  ds_place : 0 <= offset e /\ offset e + compLen e <= length_ m;
}.

Section layout.
Context (m : MemMapping) (Hm : mapped_ok m).

(** A field of a block of the image. *)
Lemma bytes_in A X B k n : mem m = A ++ X ++ B -> 0 <= k -> 0 <= n -> k + n <= Z.of_nat (length X) ->
  bytes_from m (addr m + Z.of_nat (length A) + k) n = take (Z.to_nat n) (drop (Z.to_nat k) X).
Proof.
  intros E Hk Hn Hl. unfold bytes_from. rewrite E.
  replace (Z.to_nat (addr m + Z.of_nat (length A) + k - addr m)) with (length A + Z.to_nat k)%nat by lia.
  rewrite <- drop_drop, drop_app_length, drop_app_le by lia. rewrite take_app_le; [done|]. rewrite length_drop. lia.
Qed.

Lemma in_map_block A X B k n : mem m = A ++ X ++ B -> 0 <= k -> 0 <= n -> k + n <= Z.of_nat (length X) ->
  in_map m (addr m + Z.of_nat (length A) + k) n.
Proof. intros E Hk Hn Hl. unfold in_map, length_. rewrite E, !length_app. lia. Qed.

Lemma val4_field A X B k v : mem m = A ++ X ++ B -> 0 <= k -> k + 4 <= Z.of_nat (length X) ->
  take 4 (drop (Z.to_nat k) X) = le_bytes 4 v -> is_u32 v -> val4 m (addr m + Z.of_nat (length A) + k) = v.
Proof.
  intros E Hk Hl Hv Hu. unfold val4. rewrite (bytes_in A X B) by (done || lia). change (Z.to_nat 4) with 4%nat.
  rewrite Hv, le_val_bytes. by apply Z.mod_small.
Qed.

Lemma val2_field A X B k v : mem m = A ++ X ++ B -> 0 <= k -> k + 2 <= Z.of_nat (length X) ->
  take 2 (drop (Z.to_nat k) X) = le_bytes 2 v -> is_u16 v -> val2 m (addr m + Z.of_nat (length A) + k) = v.
Proof.
  intros E Hk Hl Hv Hu. unfold val2. rewrite (bytes_in A X B) by (done || lia). change (Z.to_nat 2) with 2%nat.
  rewrite Hv, le_val_bytes. by apply Z.mod_small.
Qed.

Lemma length_central f off : length (central_header f off) = 46%nat.
Proof. reflexivity. Qed.
Lemma length_local f : length (local_header f) = 30%nat.
Proof. reflexivity. Qed.

Ltac field E :=
  first [eapply val4_field | eapply val2_field];
  [exact E | unfold CENVEM, CENHOW, CENTIM, CENCRC, CENSIZ, CENLEN, CENNAM, CENEXT, CENCOM, CENATX, CENOFF, LOCNAM, LOCEXT; lia
  | rewrite ?length_central, ?length_local;
    unfold CENVEM, CENHOW, CENTIM, CENCRC, CENSIZ, CENLEN, CENNAM, CENEXT, CENCOM, CENATX, CENOFF, LOCNAM, LOCEXT; lia
  | reflexivity | try done; try (unfold is_u32, is_u16, CENSIG, LOCSIG; lia); tauto].

(** The fields of a central header, and those of a local one that are used. *)
Lemma central_fields f A B off : member_ok f -> is_u32 off -> Z.of_nat (length (mb_stored f)) < 4294967296 ->
  mem m = A ++ central_header f off ++ mb_name f ++ B ->
  let ptr := addr m + Z.of_nat (length A) in
  let n := Z.of_nat (length (mb_name f)) in
  in_map m ptr CENHDR /\ val4 m ptr = CENSIG /\ val2 m (ptr + CENVEM) = mb_madeBy f /\
  val2 m (ptr + CENHOW) = mb_how f /\ val4 m (ptr + CENTIM) = mb_time f /\ val4 m (ptr + CENCRC) = mb_crc f /\
  val4 m (ptr + CENSIZ) = Z.of_nat (length (mb_stored f)) /\ val4 m (ptr + CENLEN) = mb_length f /\
  val2 m (ptr + CENNAM) = n /\ val2 m (ptr + CENEXT) = 0 /\ val2 m (ptr + CENCOM) = 0 /\
  val4 m (ptr + CENATX) = mb_attributes f /\ val4 m (ptr + CENOFF) = off /\
  in_map m (ptr + CENHDR) n /\ bytes_from m (ptr + CENHDR) n = mb_name f.
Proof.
  intros [Hn Hst Hho Hle Hti Hcr Hma Hat] Hoff Hs E ptr n. rewrite <- (Z.add_0_r ptr) at 1 2. unfold ptr.
  assert (is_u16 n) by (unfold is_u16, n; lia).
  assert (is_u32 (Z.of_nat (length (mb_stored f)))) by (unfold is_u32; lia).
  assert (mem m = (A ++ central_header f off) ++ mb_name f ++ B) as E2 by (by rewrite <- app_assoc).
  assert (addr m + Z.of_nat (length A) + CENHDR = addr m + Z.of_nat (length (A ++ central_header f off)) + 0) as EH.
  { rewrite length_app, length_central. unfold CENHDR. lia. }
  split; [by apply (in_map_block A (central_header f off) (mb_name f ++ B))|].
  do 12 (split; [field E|]). rewrite EH. unfold n. split.
  - apply (in_map_block _ (mb_name f) B); [done | lia..].
  - rewrite (bytes_in _ (mb_name f) B); [|done | lia..]. rewrite Nat2Z.id, drop_0. by apply take_ge.
Qed.

Lemma local_fields f A B : member_ok f -> mem m = A ++ local_part f ++ B ->
  let local := addr m + Z.of_nat (length A) in
  in_map m local LOCHDR /\ val4 m local = LOCSIG /\
  val2 m (local + LOCNAM) = Z.of_nat (length (mb_name f)) /\ val2 m (local + LOCEXT) = 0 /\
  let data := local + LOCHDR + Z.of_nat (length (mb_name f)) in
  in_map m data (Z.of_nat (length (mb_stored f))) /\
  bytes_from m data (Z.of_nat (length (mb_stored f))) = mb_stored f.
Proof.
  intros [Hn _ _ _ _ _ _ _] E0 local. rewrite <- (Z.add_0_r local) at 1 2. unfold local.
  assert (is_u16 (Z.of_nat (length (mb_name f)))) by (unfold is_u16; lia).
  unfold local_part in E0. rewrite <- app_assoc in E0. rename E0 into E.
  split; [by apply (in_map_block A (local_header f) ((mb_name f ++ mb_stored f) ++ B))|].
  do 3 (split; [field E|]). cbv zeta.
  assert (mem m = (A ++ local_header f ++ mb_name f) ++ mb_stored f ++ B) as E2 by (by rewrite E, <- !app_assoc).
  assert (addr m + Z.of_nat (length A) + LOCHDR + Z.of_nat (length (mb_name f)) =
    addr m + Z.of_nat (length (A ++ local_header f ++ mb_name f)) + 0) as ->.
  { rewrite !length_app, length_local. unfold LOCHDR. lia. }
  split.
  - apply (in_map_block _ (mb_stored f) B); [done | lia..].
  - rewrite (bytes_in _ (mb_stored f) B); [|done | lia..]. rewrite Nat2Z.id, drop_0. by apply take_ge.
Qed.

(** A central header and the local part it points to. *)
Lemma header_ok f A B A' B' : member_ok f ->
  mem m = A ++ central_header f (Z.of_nat (length A')) ++ mb_name f ++ B ->
  mem m = A' ++ local_part f ++ B' ->
  let ptr := addr m + Z.of_nat (length A) in
  cen_ok m ptr /\ describes m (cen_entry m ptr) f /\
  cen_next m ptr = ptr + CENHDR + Z.of_nat (length (mb_name f)).
Proof.
  intros Hf EA EA' ptr. pose proof (mo_length _ Hm) as Hmax. unfold length_ in Hmax.
  assert (length A' + 30 + length (mb_name f) + length (mb_stored f) <= length (mem m))%nat as HA'.
  { rewrite EA'. unfold local_part. rewrite !length_app, length_local. lia. }
  destruct (central_fields f A B (Z.of_nat (length A')) Hf) as
    (F0 & F1 & F2 & F3 & F4 & F5 & F6 & F7 & F8 & F9 & F10 & F11 & F12 & F13 & F14); try (done || unfold is_u32; lia).
  fold ptr in F0, F1, F2, F3, F4, F5, F6, F7, F8, F9, F10, F11, F12, F13, F14.
  destruct (local_fields f A' B' Hf EA') as (G0 & G1 & G2 & G3 & G4 & G5). cbv zeta in G4, G5.
  assert (local_at m ptr = addr m + Z.of_nat (length A')) as Hloc by (unfold local_at; by rewrite F12).
  assert (cen_entry m ptr = member_entry ptr (Z.of_nat (length A')) f) as Ee.
  { unfold cen_entry, member_entry. rewrite Hloc, F2, F3, F4, F5, F6, F7, F8, F11, F12, G2, G3, s32_id by (unfold is_s32; lia).
    f_equal; lia. }
  assert (name m (cen_entry m ptr) = mb_name f) as En by (rewrite Ee; exact F14).
  split; [|split; [|unfold cen_next; rewrite F8, F9, F10; lia]].
  - split; rewrite ?Hloc; try done.
    + destruct Hf as [[Hpr Hsh] _ _ _ _ _ _ _]. split; [..|by rewrite En]; rewrite Ee; cbn; [done | lia].
    + rewrite Ee. apply Hf.
    + rewrite Ee. cbn. destruct G4 as [_ [_ G4]]. unfold length_, LOCHDR in *. lia.
  - split; [by eexists _, _ | done |..]; rewrite Ee; cbn.
    + rewrite <- G5 at 2. unfold slice, bytes_from. do 3 f_equal. lia.
    + destruct G4 as [_ [_ G4]]. unfold LOCHDR in *. lia.
Qed.

Definition locals (fs : list member) : list Z := concat (local_part <$> fs).

Lemma locals_app pre rest : locals (pre ++ rest) = locals pre ++ locals rest.
Proof. unfold locals. by rewrite fmap_app, concat_app. Qed.

Lemma central_app pre rest off :
  central_part (pre ++ rest) off = central_part pre off ++ central_part rest (off + Z.of_nat (length (locals pre))).
Proof.
  revert off. induction pre as [|f pre IH]; intros off; cbn [app central_part].
  { cbn. by rewrite Z.add_0_r. }
  rewrite IH, <- !app_assoc. do 4 f_equal. unfold locals. cbn [fmap list_fmap concat]. rewrite length_app. lia.
Qed.

Lemma directory_image rest pre E : Forall member_ok rest ->
  mem m = locals (pre ++ rest) ++ central_part (pre ++ rest) 0 ++ E ->
  let ptr := addr m + Z.of_nat (length (locals (pre ++ rest) ++ central_part pre 0)) in
  directory_ok m (length rest) ptr /\
  Forall2 (describes m) (directory m (length rest) ptr) rest.
Proof.
  intros Hr. revert pre. induction Hr as [|f rest Hf _ IH]; intros pre Em ptr; [done|].
  cbn [length directory_ok directory].
  destruct (header_ok f (locals (pre ++ f :: rest) ++ central_part pre 0)
    (central_part rest (Z.of_nat (length (locals pre)) + Z.of_nat (length (local_part f))) ++ E)
    (locals pre) (locals rest ++ central_part (pre ++ f :: rest) 0 ++ E) Hf) as (Hc & He & Hn).
  { rewrite Em, central_app, Z.add_0_l. cbn [central_part]. by rewrite <- !app_assoc. }
  { rewrite Em at 1. rewrite locals_app. unfold locals at 2. cbn [fmap list_fmap concat].
    fold (locals rest). by rewrite <- !app_assoc. }
  fold ptr in Hc, He, Hn. rewrite Hn.
  specialize (IH (pre ++ [f])). rewrite <- app_assoc in IH. cbn [app] in IH. specialize (IH Em).
  replace (addr m + Z.of_nat (length (locals (pre ++ f :: rest) ++ central_part (pre ++ [f]) 0)))
    with (ptr + CENHDR + Z.of_nat (length (mb_name f))) in IH.
  2:{ unfold ptr. rewrite central_app. cbn [central_part]. rewrite app_nil_r, !length_app, length_central. unfold CENHDR. lia. }
  destruct IH as [IH1 IH2]. split; [done|]. by constructor.
Qed.
End layout.

(** ** The round trip *)

Section round_trip.
Context `{iop : SafeIop} `{Hiop : !SafeIopOk iop}.
Context (fs : list member) (Hfs : image_ok fs) (a : Z).
Let m := mkMemMapping a (zip_image fs).
Context (Hlow : 0 < a) (Hhigh : a + length_ m + 262144 <= 4294967296).

Lemma central_u8 gs off : Forall member_ok gs -> Forall is_u8 (central_part gs off).
Proof.
  intros H. revert off. induction H as [|g gs [[Hn _] _ _ _ _ _ _ _] _ IH]; intros off; cbn [central_part]; [done|].
  apply Forall_app_2; [|apply Forall_app_2; [|done]].
  - unfold central_header, len16, len32. rewrite !Forall_app. repeat split; apply le_bytes_u8.
  - apply (Forall_impl _ _ _ Hn). unfold printable, is_u8. lia.
Qed.

Lemma locals_u8 gs : Forall member_ok gs -> Forall is_u8 (locals gs).
Proof.
  induction 1 as [|g gs [[Hn _] Hs _ _ _ _ _ _] _ IH]; [done|]. unfold locals. cbn [fmap list_fmap concat].
  apply Forall_app_2; [|done]. unfold local_part. rewrite !Forall_app. split; [|split; [|done]].
  - unfold local_header, len16, len32. rewrite !Forall_app. repeat split; apply le_bytes_u8.
  - apply (Forall_impl _ _ _ Hn). unfold printable, is_u8. lia.
Qed.

Lemma image_mapped : mapped_ok m.
Proof.
  split; [|done|apply (io_size _ Hfs)|done]. cbn. unfold zip_image. rewrite !Forall_app.
  split; [by apply locals_u8; apply Hfs|]. split; [by apply central_u8; apply Hfs|].
  unfold end_header. rewrite !Forall_app. repeat split; apply le_bytes_u8.
Qed.

(** The end of the directory of the image. *)
Definition eocd_of : Z := a + Z.of_nat (length (locals fs ++ central_part fs 0)).

Lemma image_mem : exists E, length E = 22%nat /\ mem m = (locals fs ++ central_part fs 0) ++ E ++ [] /\
  E = end_header fs (Z.of_nat (length (central_part fs 0))) (Z.of_nat (length (locals fs))).
Proof.
  exists (end_header fs (Z.of_nat (length (central_part fs 0))) (Z.of_nat (length (locals fs)))).
  split; [done|]. split; [|done]. change (mem m) with (zip_image fs). unfold zip_image. fold (locals fs).
  by rewrite app_nil_r, <- app_assoc.
Qed.

Lemma eocd_fields : in_map m eocd_of ENDHDR /\ val4 m eocd_of = ENDSIG /\
  total m eocd_of = length fs /\ start m eocd_of = a + Z.of_nat (length (locals fs)) /\
  eocd_of + ENDHDR = a + length_ m.
Proof.
  destruct image_mem as (E & HL & Em & HE). pose proof Hfs as [_ Hc _ _ Hsz].
  assert (length (mem m) = length (locals fs) + length (central_part fs 0) + 22)%nat as Hlen.
  { rewrite Em, !length_app, HL. cbn. lia. }
  change (length (zip_image fs)) with (length (mem m)) in Hsz. change eocd_of with (addr m + Z.of_nat (length (locals fs ++ central_part fs 0))).
  rewrite <- (Z.add_0_r (addr m + _)) at 1 2.
  unfold ENDHDR, ENDSUB, ENDOFF in *.
  split; [by apply (in_map_block m _ E []); rewrite ?HL; try lia|].
  split; [apply (val4_field m _ E [] 0 ENDSIG); rewrite ?HL; try (done || lia); by rewrite HE|].
  unfold total, start, ENDSUB, ENDOFF.
  rewrite (val2_field m _ E [] 8 (Z.of_nat (length fs))), (val4_field m _ E [] 16 (Z.of_nat (length (locals fs))));
    rewrite ?HL; try done; try lia; try (by rewrite HE); unfold is_u16, is_u32; try lia.
  split; [lia|]. split; [done|].
  unfold length_. rewrite Hlen, length_app. cbn. unfold ENDHDR. lia.
Qed.

Lemma image_archive : archive_at m eocd_of /\
  Forall2 (describes m) (directory m (length fs) (a + Z.of_nat (length (locals fs)))) fs.
Proof.
  destruct eocd_fields as (Hin & Hsig & Htot & Hst & Hend). destruct image_mem as (E & HL & Em & _).
  pose proof Hfs as [Hne Hc Hmem _ _].
  destruct (directory_image m image_mapped fs [] E Hmem) as [Hd Hds].
  { cbn [app]. rewrite Em, app_nil_r. by rewrite <- app_assoc. }
  cbn [app central_part] in Hd, Hds. rewrite app_nil_r in Hd, Hds. split; [|done].
  split; [| |by rewrite Htot; destruct fs; [|cbn; lia] | |].
  - destruct fs as [|f gs]; [done|]. apply Forall_cons in Hmem as [Hf _].
    destruct (local_fields m f [] (locals gs ++ central_part (f :: gs) 0 ++ E) Hf) as (_ & Hv & _).
    + rewrite Em, app_nil_r. unfold locals at 1. cbn [fmap list_fmap concat]. fold (locals gs). by rewrite <- !app_assoc.
    + cbn [length] in Hv. by rewrite Z.add_0_r in Hv.
  - split; [done|]. intros q [[_ [_ Hq]] _]. change (addr m) with a in Hq. lia.
  - rewrite Hst. change (addr m) with a. unfold length_. rewrite Em, !length_app, HL. lia.
  - by rewrite Htot, Hst.
Qed.

Lemma describes_same e f g : f ∈ fs -> g ∈ fs -> describes m e f -> name m e = mb_name g -> f = g.
Proof.
  intros Hf Hg Hd Hn. rewrite (ds_name _ _ _ Hd) in Hn.
  apply list_elem_of_lookup in Hf as [i Hi], Hg as [j Hj].
  assert (i = j) as ->; [|congruence].
  eapply (NoDup_lookup _ i j (mb_name f) (io_names _ Hfs)); rewrite list_lookup_fmap; [by rewrite Hi | by rewrite Hj, Hn].
Qed.

Context `{K : Kernel} `{Zl : Zlib} `{Hz : !ZlibOk Zl}.

(** The data of a file, which are stored as they are or as a stream. *)
Definition data_of (f : member) (D : list Z) : Prop :=
  Z.of_nat (length D) = mb_length f /\ mb_length f < 2147483648 /\
  (mb_how f = STORED /\ mb_stored f = D \/
   mb_how f = DEFLATED /\ decode (mb_stored f) = Some D /\ inflateInit2_ok = true).

Lemma describes_contents e f D : f ∈ fs -> describes m e f -> data_of f D -> 
  contents_of (mem m) e D /\ Z.of_nat (length D) = uncompLen e /\ compLen e = Z.of_nat (length (mb_stored f)).
Proof.
  intros Hf [(ptr & off & ->) Hn Hd [Ho Hl]] (HD & HD' & Hc). cbn in *. unfold length_ in Hl.
  pose proof (io_size _ Hfs). change (length (zip_image fs)) with (length (mem m)) in *. cbn in *.
  rewrite (s32_id (mb_length f)) by (unfold is_s32; lia).
  split; [|split; [done | done]]. unfold contents_of. cbn.
  split; [lia|]. split; [lia|]. split; [lia|].
  destruct Hc as [(-> & <-)|(-> & Hdec & Hin)]; [left; done | right].
  rewrite Hd. do 3 (split; [done|]). split; [|lia].
  rewrite HD. symmetry. apply s32_id. unfold is_s32. lia.
Qed.
End round_trip.

Lemma archive_unique m p q : archive_at m p -> archive_at m q -> p = q.
Proof.
  intros [_ [Hp1 Hp2] _ _ _] [_ [Hq1 Hq2] _ _ _]. pose proof (Hp2 q Hq1). pose proof (Hq2 p Hp1). lia.
Qed.

Lemma Forall2_described {A B} (R : A -> B -> Prop) xs ys : Forall2 R xs ys -> forall x, x ∈ xs -> exists y, y ∈ ys /\ R x y.
Proof.
  induction 1 as [|x y xs ys HR _ IH]; intros z Hz; [by apply not_elem_of_nil in Hz|].
  apply elem_of_cons in Hz as [-> |Hz]; [exists y; by split; [left|]|].
  destruct (IH z Hz) as (t & ? & ?). exists t. by split; [right|].
Qed.

Lemma Forall2_described_r {A B} (R : A -> B -> Prop) xs ys : Forall2 R xs ys -> forall y, y ∈ ys -> exists x, x ∈ xs /\ R x y.
Proof.
  intros H y Hy. apply Forall2_flip in H. destruct (Forall2_described _ _ _ H y Hy) as (x & ? & ?). by exists x.
Qed.


(** A stored file [b] and a compressed one, [a/c]. *)
Definition two_files : list member :=
  [mkMember [98] [1; 2; 3] STORED 3 0 0 0 0; mkMember [97; 47; 99] [7; 8; 0] DEFLATED 2 0 0 0x300 0].

Lemma two_files_ok : image_ok two_files.
Proof.
  split; [done | vm_compute; reflexivity | | | vm_compute; congruence].
  - apply Forall_cons_2; [|apply Forall_cons_2; [|apply Forall_nil_2]].
    all: split; cbn; try (unfold is_u32, is_u16, STORED, DEFLATED; lia).
    all: try (split; [|try (by left); try (by right); lia]; try (unfold is_u16; lia)).
    all: repeat (apply Forall_cons_2; [unfold printable, is_u8; lia|]); apply Forall_nil_2.
  - apply (bool_decide_unpack _). vm_compute. exact I.
Qed.

