(* ===== verification/Mtd.v ===== *)
(** * Raw flash partitions (mtdutils/mtdutils.c)

    The recovery writes images to a partition block by block, skips the blocks that are
    bad or that fail to verify, and reads them back the same way.  The driver of the
    kernel is a class: the device is any state on which the system calls act, and any of
    them may fail.  The laws ask that the list of bad blocks does not change, that a call
    on one block leaves the others alone, and that a read that reports all its bytes
    gives what the block holds; whether erasing or writing works is left open, because
    the code verifies what it writes.  Seeking to an offset of the partition succeeds. *)

From stdpp Require Import sorting.
From S2P Require Import Prelude.

(** ** The driver *)

Class MtdDriver := {
  dev : Type;
  get_bad : dev -> Z -> Z * Z;                    (* [MEMGETBADBLOCK]: result, [errno] *)
  erase : dev -> Z -> Z -> dev * Z;               (* [MEMERASE] of a length at an offset *)
  dev_write : dev -> Z -> list Z -> dev * Z;      (* [write] at the descriptor's offset *)
  dev_read : dev -> Z -> Z -> dev * Z * list Z;   (* [read]: result and bytes *)
  ecc_stats : dev -> option Z;                    (* [ECCGETSTATS]: the number of failures *)
}.

Definition EOPNOTSUPP : Z := 95.

Record MtdPartition := mkMtdPartition { device_index : Z; size : Z; erase_size : Z; name : option (list Z) }.

(** The partition being accessed and the descriptor's offset, with the device. *)
Record file `{MtdDriver} := mkFile { device : dev; fpos : Z }.
Arguments mkFile {_} _ _.

Record MtdWriteContext := mkWriteContext {
  wbuffer : list Z; stored : Z; bad_block_offsets : list Z; bad_block_alloc : Z
}.
Record MtdReadContext := mkReadContext { rbuffer : list Z; consumed : Z }.

Section mtd.
Context `{Drv : MtdDriver} (partition : MtdPartition).

(** The position after a transfer of [n] bytes. *)
Definition advance (f : file) (d : dev) (n : Z) : file := mkFile d (fpos f + Z.max 0 n).

(** ** Reading *)

(** [while (pos + size <= (int) partition->size)]; the file and the block, if one was read *)
Fixpoint read_loop (fuel : nat) (f : file) (pos before : Z) : option (file * option (list Z)) :=
  match fuel with
  | O => None
  | S fuel =>
      let sz := s32 (erase_size partition) in
      if pos + sz <=? s32 (size partition) then
        let next := pos + erase_size partition in
        let '(d, n, data) := dev_read (device f) pos sz in
        let f := advance (mkFile (device f) pos) d n in
        if negb (n =? sz) then read_loop fuel f next before
        else match ecc_stats d with
        | None => Some (f, None)
        | Some after =>
            if negb (after =? before) then read_loop fuel f next after
            else if negb ((get_bad d pos).1 =? 0) then read_loop fuel f next before
            else Some (f, Some data)
        end
      else Some (f, None)
  end.

Definition read_block (f : file) : option (file * option (list Z)) :=
  match ecc_stats (device f) with
  | None => Some (f, None)
  | Some before => read_loop (S (Z.to_nat (size partition))) f (fpos f) before
  end.

(** [while (ctx->consumed == erase_size && len - read >= erase_size)] *)
Fixpoint read_direct (fuel : nat) (f : file) (ctx : MtdReadContext) (len : Z) (data : list Z)
    : option (file * option (list Z)) :=
  match fuel with
  | O => None
  | S fuel =>
      if (consumed ctx =? erase_size partition) && (erase_size partition <=? len - Z.of_nat (length data)) then
        '(f, r) ← read_block f;
        match r with
        | None => Some (f, None)
        | Some block => read_direct fuel f ctx len (data ++ block)
        end
      else Some (f, Some data)
  end.

(** [while (read < (int) len)], [data] what has been copied to the caller's buffer; the
    bytes that were read, or [None] for -1 *)
Fixpoint read_data_loop (fuel : nat) (f : file) (ctx : MtdReadContext) (len : Z) (data : list Z)
    : option (file * MtdReadContext * option (list Z)) :=
  match fuel with
  | O => None
  | S fuel =>
      if Z.of_nat (length data) <? s32 len then
        let '(ctx, data) :=
          if consumed ctx <? erase_size partition then
            let avail := erase_size partition - consumed ctx in
            let left := len - Z.of_nat (length data) in
            let copy := if left <? avail then left else avail in
            (mkReadContext (rbuffer ctx) (consumed ctx + copy),
             data ++ take (Z.to_nat copy) (drop (Z.to_nat (consumed ctx)) (rbuffer ctx)))
          else (ctx, data) in
        '(f, r) ← read_direct (S (Z.to_nat len)) f ctx len data;
        match r with
        | None => Some (f, ctx, None)
        | Some data =>
            if len <=? Z.of_nat (length data) then Some (f, ctx, Some data)
            else if (consumed ctx =? erase_size partition) && (Z.of_nat (length data) <? s32 len) then
              '(f, r) ← read_block f;
              match r with
              | None => Some (f, ctx, None)
              | Some block => read_data_loop fuel f (mkReadContext block 0) len data
              end
            else read_data_loop fuel f ctx len data
        end
      else Some (f, ctx, Some data)
  end.

Definition mtd_read_data (f : file) (ctx : MtdReadContext) (len : Z)
    : option (file * MtdReadContext * option (list Z)) :=
  read_data_loop (S (S (Z.to_nat len))) f ctx len [].

(** ** Writing *)

(** [realloc] gives the block, or [None] for a store through NULL. *)
Context (realloc : Z -> bool).

Definition add_bad_block_offset (ctx : MtdWriteContext) (pos : Z) : option MtdWriteContext :=
  let count := Z.of_nat (length (bad_block_offsets ctx)) in
  '(ok, alloc) ← (if bad_block_alloc ctx <? count + 1
                  then let alloc := bad_block_alloc ctx * 2 + 1 in Some (realloc (alloc * 4), alloc)
                  else Some (true, bad_block_alloc ctx));
  if ok : bool
  then Some (mkWriteContext (wbuffer ctx) (stored ctx) (bad_block_offsets ctx ++ [pos]) alloc)
  else None.

(** [for (retry = 0; retry < 2; ++retry)], [n] rounds; whether one of them verified *)
Fixpoint try_write (n : nat) (f : file) (pos : Z) (data : list Z) : file * bool :=
  match n with
  | O => (f, false)
  | S n =>
      let sz := s32 (erase_size partition) in
      let '(d, err) := erase (device f) pos sz in
      let f := mkFile d (fpos f) in
      if err <? 0 then try_write n f pos data
      else
        let '(d, k) := dev_write (device f) pos data in
        let '(d, k, verify) := dev_read d pos sz in
        let f := advance (mkFile d pos) d k in
        if negb (k =? sz) then try_write n f pos data
        else if negb (bool_decide (verify = data)) then try_write n f pos data
        else (f, true)
  end.

(** [while (pos + size <= (int) partition->size)]; 0, or -1 when there is no room left *)
Fixpoint write_loop (fuel : nat) (f : file) (ctx : MtdWriteContext) (pos : Z) (data : list Z)
    : option (file * MtdWriteContext * Z) :=
  match fuel with
  | O => None
  | S fuel =>
      let sz := s32 (erase_size partition) in
      if s32 (pos + sz) <=? s32 (size partition) then
        let next := s32 (pos + erase_size partition) in
        let '(ret, err) := get_bad (device f) pos in
        if negb (ret =? 0) && negb ((ret =? -1) && (err =? EOPNOTSUPP)) then
          ctx ← add_bad_block_offset ctx pos; write_loop fuel f ctx next data
        else
          let '(f, ok) := try_write 2 f pos data in
          if ok then Some (f, ctx, 0)
          else
            ctx ← add_bad_block_offset ctx pos;
            let '(d, _) := erase (device f) pos sz in
            write_loop fuel (mkFile d (fpos f)) ctx next data
      else Some (f, ctx, -1)
  end.

Definition write_block (f : file) (ctx : MtdWriteContext) (data : list Z) : option (file * MtdWriteContext * Z) :=
  write_loop (S (Z.to_nat (size partition))) f ctx (fpos f) data.

Definition set_stored (ctx : MtdWriteContext) (n : Z) : MtdWriteContext :=
  mkWriteContext (wbuffer ctx) n (bad_block_offsets ctx) (bad_block_alloc ctx).

(** [memcpy(ctx->buffer + ctx->stored, bytes, |bytes|)] and the addition to [stored] *)
Definition coalesce (ctx : MtdWriteContext) (bytes : list Z) : MtdWriteContext :=
  mkWriteContext (take (Z.to_nat (stored ctx)) (wbuffer ctx) ++ bytes ++
                  drop (Z.to_nat (stored ctx) + length bytes) (wbuffer ctx))
    (stored ctx + Z.of_nat (length bytes)) (bad_block_offsets ctx) (bad_block_alloc ctx).

(** [while (ctx->stored == 0 && len - wrote >= erase_size)]; [data] is what is left of the
    caller's buffer, [None] in the result is -1 *)
Fixpoint write_direct (fuel : nat) (f : file) (ctx : MtdWriteContext) (data : list Z)
    : option (file * MtdWriteContext * option (list Z)) :=
  match fuel with
  | O => None
  | S fuel =>
      if (stored ctx =? 0) && (erase_size partition <=? Z.of_nat (length data)) then
        let e := Z.to_nat (erase_size partition) in
        '(f, ctx, r) ← write_block f ctx (take e data);
        if negb (r =? 0) then Some (f, ctx, None) else write_direct fuel f ctx (drop e data)
      else Some (f, ctx, Some data)
  end.

(** [while (wrote < len)]; whether everything was written *)
Fixpoint write_data_loop (fuel : nat) (f : file) (ctx : MtdWriteContext) (data : list Z)
    : option (file * MtdWriteContext * bool) :=
  match fuel with
  | O => None
  | S fuel =>
      if (0 <? length data)%nat then
        let '(ctx, data) :=
          if (0 <? stored ctx) || (Z.of_nat (length data) <? erase_size partition) then
            let avail := erase_size partition - stored ctx in
            let left := Z.of_nat (length data) in
            let copy := Z.to_nat (if left <? avail then left else avail) in
            (coalesce ctx (take copy data), drop copy data)
          else (ctx, data) in
        '(f, ctx, r) ←
          (if stored ctx =? erase_size partition then
             '(f, ctx, r) ← write_block f ctx (wbuffer ctx);
             Some (f, if r =? 0 then set_stored ctx 0 else ctx, r)
           else Some (f, ctx, 0));
        if negb (r =? 0) then Some (f, ctx, false) else
        '(f, ctx, rest) ← write_direct (S (length data)) f ctx data;
        match rest with
        | None => Some (f, ctx, false)
        | Some data => write_data_loop fuel f ctx data
        end
      else Some (f, ctx, true)
  end.

(** The result is [len] when all of the data have been taken, and -1 otherwise. *)
Definition mtd_write_data (f : file) (ctx : MtdWriteContext) (data : list Z)
    : option (file * MtdWriteContext * Z) :=
  '(f, ctx, ok) ← write_data_loop (S (S (length data))) f ctx data;
  Some (f, ctx, if ok : bool then Z.of_nat (length data) else -1).

(** [while (blocks-- > 0)] *)
Fixpoint erase_loop (blocks : nat) (f : file) (pos : Z) : file * Z :=
  match blocks with
  | O => (f, pos)
  | S blocks =>
      let next := s32 (pos + erase_size partition) in
      if 0 <? (get_bad (device f) pos).1 then erase_loop blocks f next
      else let '(d, _) := erase (device f) pos (erase_size partition) in
           erase_loop blocks (mkFile d (fpos f)) next
  end.

(** From the current position on; the position after the erased blocks, or -1.  A block
    size of zero is a division by zero. *)
Definition erase_from (f : file) (ctx : MtdWriteContext) (blocks : Z) : option (file * MtdWriteContext * Z) :=
  if erase_size partition =? 0 then None else
  let pos := fpos f in
  let total := s32 (u32 (size partition - pos) / erase_size partition) in
  let blocks := if blocks <? 0 then total else blocks in
  if total <? blocks then Some (f, ctx, -1) else
  let '(f, pos) := erase_loop (Z.to_nat blocks) f pos in
  Some (f, ctx, pos).

(** The pending data, filled up with zeros, and then the blocks. *)
Definition mtd_erase_blocks (f : file) (ctx : MtdWriteContext) (blocks : Z)
    : option (file * MtdWriteContext * Z) :=
  '(f, ctx, r) ←
    (if 0 <? stored ctx then
       let zero := erase_size partition - stored ctx in
       let ctx := mkWriteContext (take (Z.to_nat (stored ctx)) (wbuffer ctx) ++ replicate (Z.to_nat zero) 0)
                    (stored ctx) (bad_block_offsets ctx) (bad_block_alloc ctx) in
       '(f, ctx, r) ← write_block f ctx (wbuffer ctx);
       Some (f, if r =? 0 then set_stored ctx 0 else ctx, r)
     else Some (f, ctx, 0));
  if negb (r =? 0) then Some (f, ctx, -1) else erase_from f ctx blocks.

(** [closed] is the result of [close]; the context is the one that is freed. *)
Definition mtd_write_close (f : file) (ctx : MtdWriteContext) (closed : Z) : option (file * MtdWriteContext * Z) :=
  '(f, ctx, pos) ← mtd_erase_blocks f ctx 0;
  Some (f, ctx, if (pos =? -1) || negb (closed =? 0) then -1 else 0).

(** [for (i = 0; i < ctx->bad_block_count; ++i)] *)
Fixpoint find_start (offsets : list Z) (pos : Z) : Z :=
  match offsets with
  | [] => pos
  | o :: offsets =>
      if o =? pos then find_start offsets (s32 (pos + erase_size partition))
      else if pos <? o then pos else find_start offsets pos
  end.

Definition mtd_find_write_start (ctx : MtdWriteContext) (pos : Z) : Z := find_start (bad_block_offsets ctx) pos.

(** The context, NULL when an allocation or [open] fails; [garbage] is what the new buffer
    holds.  In [mtd_read_partition] the failure of [open] reads the context after it has
    been freed: [None]. *)
Definition mtd_write_partition (malloc_ctx malloc_buffer : bool) (garbage : list Z) (opened : Z)
    : option MtdWriteContext :=
  if negb malloc_ctx then None else if negb malloc_buffer then None
  else if opened <? 0 then None else Some (mkWriteContext garbage 0 [] 0).

Definition mtd_read_partition (malloc_ctx malloc_buffer : bool) (garbage : list Z) (opened : Z)
    : option (option MtdReadContext) :=
  if negb malloc_ctx then Some None else if negb malloc_buffer then Some None
  else if opened <? 0 then None else Some (Some (mkReadContext garbage (erase_size partition))).

Definition mtd_read_skip_to (f : file) (offset : Z) : file := mkFile (device f) offset.

(** Clients that write pieces one after the other, and that read pieces of some lengths;
    they stop at the first failure. *)
Fixpoint write_all (f : file) (ctx : MtdWriteContext) (pieces : list (list Z)) : option (file * MtdWriteContext * bool) :=
  match pieces with
  | [] => Some (f, ctx, true)
  | data :: pieces =>
      '(f, ctx, n) ← mtd_write_data f ctx data;
      if n =? Z.of_nat (length data) then write_all f ctx pieces else Some (f, ctx, false)
  end.

Fixpoint read_all (f : file) (ctx : MtdReadContext) (lens : list Z) : option (list Z) :=
  match lens with
  | [] => Some []
  | len :: lens =>
      '(f, ctx, r) ← mtd_read_data f ctx len;
      data ← r; more ← read_all f ctx lens; Some (data ++ more)
  end.
End mtd.

(** ** The laws of the driver *)

Class FlashOk (Drv : MtdDriver) (E : Z) := {
  contents : dev -> Z -> list Z;
  bad : Z -> bool;
  fl_bad d p : (get_bad d p).1 = if bad p then 1 else 0;
  fl_erase d p n q : q <> p -> contents (erase d p n).1 q = contents d q;
  fl_write d p data q : q <> p -> contents (dev_write d p data).1 q = contents d q;
  fl_read d p : forall q, contents (dev_read d p E).1.1 q = contents d q;
  fl_data d p : (dev_read d p E).1.2 = E -> (dev_read d p E).2 = contents d p /\ Z.of_nat (length (contents d p)) = E;
  (** states in which every good block can be read without an uncorrectable error *)
  readable : dev -> Prop;
  fl_ecc d : readable d -> is_Some (ecc_stats d);
  fl_readable d p : readable d ->
    let '(d', n, _) := dev_read d p E in
    readable d' /\ (bad p = false -> n = E) /\ (bad p = false \/ n <> E -> ecc_stats d' = ecc_stats d);
}.

(** A partition of whole blocks, below 2 GB. *)
Record partition_ok (P : MtdPartition) (E : Z) (N : nat) : Prop := {
  po_erase : erase_size P = E;
  po_pos : 0 < E;
  po_size : size P = E * Z.of_nat N;
  po_limit : size P + E < 2147483648;
}.

Section laws.
Context `{Drv : MtdDriver} (P : MtdPartition) (E : Z) (N : nat) `{Hfl : !FlashOk Drv E} (HP : partition_ok P E N).

(** The good ones among the next [n] blocks. *)
Fixpoint good_from (n : nat) (pos : Z) : list Z :=
  match n with
  | O => []
  | S n => if bad pos then good_from n (pos + E) else pos :: good_from n (pos + E)
  end.

(** [pos] with [n] blocks after it. *)
Definition at_block (pos : Z) (n : nat) : Prop := 0 <= pos /\ pos + E * Z.of_nat n = size P.

Lemma at_block_next pos n : at_block pos (S n) -> at_block (pos + E) n.
Proof. unfold at_block. pose proof (po_pos _ _ _ HP). lia. Qed.

Lemma sizes : s32 (erase_size P) = E /\ s32 (size P) = size P.
Proof.
  destruct HP as [H1 H2 H3 H4]. rewrite H1. split; apply s32_id; unfold is_s32; nia.
Qed.

Lemma block_left pos n : at_block pos n -> (pos + E <=? size P) = (0 <? n)%nat.
Proof.
  intros [? H]. pose proof (po_pos _ _ _ HP). destruct (Nat.ltb_spec 0 n).
  - apply Z.leb_le. nia.
  - apply Z.leb_gt. assert (n = 0%nat) by lia. subst. lia.
Qed.

(** What is read next. *)
Lemma mtd_read_loop_ok fuel n f pos before : readable (device f) -> ecc_stats (device f) = Some before ->
  at_block pos n -> (n < fuel)%nat ->
  exists f' r, read_loop P fuel f pos before = Some (f', r) /\ readable (device f') /\
    (forall q, contents (device f') q = contents (device f) q) /\
    match good_from n pos with
    | [] => r = None
    | p :: rest => r = Some (contents (device f) p) /\ Z.of_nat (length (contents (device f) p)) = E /\
        fpos f' = p + E /\ exists n', at_block (p + E) n' /\ good_from n' (p + E) = rest
    end.
Proof.
  destruct sizes as [E1 E2]. revert n f pos before.
  induction fuel as [|fuel IH]; intros n f pos before Hr He Hb Hf; [lia|].
  cbn [read_loop]. rewrite E1, E2, (block_left pos n Hb). destruct n as [|n]; cbn [Nat.ltb Nat.leb good_from].
  { by exists f, None. }
  rewrite (po_erase _ _ _ HP).
  pose proof (fl_readable (device f) pos Hr) as Hrd. pose proof (fl_read (device f) pos) as Hq.
  pose proof (fl_data (device f) pos) as Hd.
  destruct (dev_read (device f) pos E) as [[d k] data]. cbn [fst snd] in Hq, Hd.
  destruct Hrd as (Hr' & Hgood & Hecc).
  assert (forall b f1, device f1 = d -> ecc_stats d = Some b -> bad pos = true ->
    exists f' r, read_loop P fuel f1 (pos + E) b = Some (f', r) /\ readable (device f') /\
    (forall q, contents (device f') q = contents (device f) q) /\
    match (if bad pos then good_from n (pos + E) else pos :: good_from n (pos + E)) with
    | [] => r = None
    | p :: rest => r = Some (contents (device f) p) /\ Z.of_nat (length (contents (device f) p)) = E /\
        fpos f' = p + E /\ exists n', at_block (p + E) n' /\ good_from n' (p + E) = rest
    end) as Hskip.
  { intros b f1 Hf1 Hb1 Hbad. subst d.
    destruct (IH n f1 (pos + E) b Hr' Hb1 (at_block_next pos n Hb) ltac:(lia)) as (f' & r & -> & H1 & H2 & H3).
    exists f', r. split; [done|]. split; [done|]. split; [intros q; by rewrite H2, Hq|].
    rewrite Hbad. destruct (good_from n (pos + E)) as [|p rest]; [done|]. by rewrite Hq in H3. }
  destruct (Z.eqb_spec k E) as [Hk|Hk]; cbn [negb].
  2:{ apply Hskip; [done | by rewrite Hecc by (by right)|]. destruct (bad pos); [done|]. by destruct Hk; apply Hgood. }
  destruct (fl_ecc d Hr') as [after Ha]. rewrite Ha. cbn [device advance].
  destruct (Z.eqb_spec after before) as [-> |Hne]; cbn [negb].
  2:{ apply Hskip; [done..|]. destruct (bad pos); [done|]. rewrite Hecc in Ha by (by left). congruence. }
  rewrite fl_bad. destruct (bad pos) eqn:Hbad; cbn [Z.eqb negb].
  { by apply Hskip. }
  destruct (Hd Hk) as [-> HL]. eexists _, _. split; [reflexivity|]. cbn. split; [done|]. split; [done|].
  split; [done|]. split; [done|]. split; [pose proof (po_pos _ _ _ HP); lia|].
  exists n. split; [by apply at_block_next | done].
Qed.

(** ** Blocks that are written *)

Lemma try_write_ok n f pos data f' ok : Z.of_nat (length data) = E -> try_write P n f pos data = (f', ok) ->
  (forall q, q <> pos -> contents (device f') q = contents (device f) q) /\
  (ok = true -> contents (device f') pos = data /\ fpos f' = pos + E).
Proof.
  intros HL. destruct sizes as [E1 _]. revert f. induction n as [|n IH]; intros f Ht; cbn [try_write] in Ht.
  { injection Ht as <- <-. done. }
  rewrite E1 in Ht. pose proof (fl_erase (device f) pos E) as He.
  destruct (erase (device f) pos E) as [d1 err]. cbn [fst] in He. cbn [device] in Ht.
  assert (forall f1, try_write P n f1 pos data = (f', ok) ->
    (forall q, q <> pos -> contents (device f1) q = contents (device f) q) ->
    (forall q, q <> pos -> contents (device f') q = contents (device f) q) /\
    (ok = true -> contents (device f') pos = data /\ fpos f' = pos + E)) as Hagain.
  { intros f1 H1 Hq. destruct (IH f1 H1) as [H2 H3]. split; [|done]. intros q Hne. by rewrite H2, Hq. }
  destruct (err <? 0); [by apply (Hagain _ Ht)|].
  pose proof (fl_write d1 pos data) as Hw. destruct (dev_write d1 pos data) as [d2 k1]. cbn [fst] in Hw.
  pose proof (fl_read d2 pos) as Hr. pose proof (fl_data d2 pos) as Hd.
  destruct (dev_read d2 pos E) as [[d3 k] verify]. cbn [fst snd] in Hr, Hd.
  assert (forall q, q <> pos -> contents d3 q = contents (device f) q) as Hq.
  { intros q Hne. by rewrite Hr, Hw, He. }
  destruct (Z.eqb_spec k E) as [Hk|Hk]; cbn [negb] in Ht; [|by apply (Hagain _ Ht)].
  case_bool_decide as Hv; cbn [negb] in Ht; [|by apply (Hagain _ Ht)].
  injection Ht as <- <-. cbn. split; [done|]. intros _. destruct (Hd Hk) as [Hc _].
  rewrite Hr, <- Hc. split; [done|]. pose proof (po_pos _ _ _ HP). lia.
Qed.

Context (realloc : Z -> bool) (Hre : forall n, realloc n = true).

Lemma add_bad_ok ctx pos : exists alloc, add_bad_block_offset realloc ctx pos =
  Some (mkWriteContext (wbuffer ctx) (stored ctx) (bad_block_offsets ctx ++ [pos]) alloc).
Proof.
  unfold add_bad_block_offset. destruct (_ <? _); cbn; rewrite ?Hre; by eexists.
Qed.

(** A block has been written to the first good place, and nothing else has changed. *)
Definition wrote (n : nat) (pos : Z) (f f' : file) (data : list Z) : Prop :=
  exists p rest, good_from n pos = p :: rest /\ contents (device f') p = data /\
    (forall q, q <> p -> contents (device f') q = contents (device f) q) /\ fpos f' = p + E /\
    exists n', at_block (p + E) n' /\ good_from n' (p + E) = rest.

Definition only_bad (ctx : MtdWriteContext) : Prop := Forall (fun p => bad p = true) (bad_block_offsets ctx).

(** Every good block takes what is written to it, at the second attempt at the latest. *)
Definition works : Prop := forall f pos data, bad pos = false -> Z.of_nat (length data) = E ->
  (try_write P 2 f pos data).2 = true.

Lemma mtd_write_loop_ok fuel n f ctx pos data : Z.of_nat (length data) = E -> at_block pos n -> (n < fuel)%nat ->
  exists f' ctx' r, write_loop P realloc fuel f ctx pos data = Some (f', ctx', r) /\
    wbuffer ctx' = wbuffer ctx /\ stored ctx' = stored ctx /\
    bad_block_offsets ctx `prefix_of` bad_block_offsets ctx' /\ (r = 0 \/ r = -1) /\
    (r = 0 -> exists n', at_block (fpos f') n') /\
    (r = 0 -> only_bad ctx' -> wrote n pos f f' data) /\
    (works -> only_bad ctx -> only_bad ctx' /\ (r <> 0 -> good_from n pos = [])).
Proof.
  intros HL. destruct sizes as [E1 E2]. pose proof (po_limit _ _ _ HP) as Hlim. pose proof (po_pos _ _ _ HP) as HE.
  revert n f ctx pos. induction fuel as [|fuel IH]; intros n f ctx pos Hb Hf; [lia|].
  cbn [write_loop]. rewrite E1, E2.
  rewrite s32_id by (unfold is_s32; destruct Hb; nia). rewrite (block_left pos n Hb).
  destruct n as [|n]; cbn [Nat.ltb Nat.leb].
  { exists f, ctx, (-1). do 4 (split; [done|]). split; [by right|]. done. }
  rewrite (po_erase _ _ _ HP), (s32_id (pos + E)) by (unfold is_s32; destruct Hb; nia).
  pose proof (fl_bad (device f) pos) as Hbad.
  destruct (get_bad (device f) pos) as [ret err]. cbn [fst] in Hbad. subst ret.
  pose proof (at_block_next pos n Hb) as Hb'.
  destruct (bad pos) eqn:Hbad; cbn [Z.eqb negb andb].
  - destruct (add_bad_ok ctx pos) as [alloc ->]. cbn [mbind option_bind].
    destruct (IH n f (mkWriteContext (wbuffer ctx) (stored ctx) (bad_block_offsets ctx ++ [pos]) alloc) (pos + E) Hb' ltac:(lia))
      as (f' & ctx' & r & Ew & H1 & H2 & H3 & H4 & H4' & H5 & H6).
    exists f', ctx', r. split; [exact Ew|]. do 2 (split; [done|]). cbn [bad_block_offsets] in H3.
    split; [etrans; [by apply prefix_app_r | exact H3]|]. split; [done|]. split; [done|].
    unfold wrote. cbn [good_from]. rewrite Hbad. split; [done|]. intros Hw Ho. apply H6; [done|].
    unfold only_bad. cbn. by apply Forall_app_2; [|constructor].
  - destruct (try_write P 2 f pos data) as [f1 ok] eqn:Et. destruct (try_write_ok _ _ _ _ _ _ HL Et) as [Hq Hok].
    destruct ok.
    + exists f1, ctx, 0. do 4 (split; [done|]). split; [by left|]. destruct (Hok eq_refl) as [Hc Hp].
      split; [intros _; exists n; by rewrite Hp|]. split; [|done].
      intros _ _. exists pos, (good_from n (pos + E)). cbn [good_from]. rewrite Hbad. do 4 (split; [done|]). by exists n.
    + assert (works -> False) as Hnw.
      { intros Hw. specialize (Hw f pos data Hbad HL). rewrite Et in Hw. done. }
      clear Et. destruct (add_bad_ok ctx pos) as [alloc ->]. cbn [mbind option_bind].
      destruct (erase (device f1) pos E) as [d2 k2].
      destruct (IH n (mkFile d2 (fpos f1)) (mkWriteContext (wbuffer ctx) (stored ctx) (bad_block_offsets ctx ++ [pos]) alloc)
        (pos + E) Hb' ltac:(lia)) as (f' & ctx' & r & Ew & H1 & H2 & H3 & H4 & H4' & H5 & _).
      exists f', ctx', r. split; [exact Ew|]. do 2 (split; [done|]). cbn [bad_block_offsets] in H3.
      split; [etrans; [by apply prefix_app_r | exact H3]|]. split; [done|]. split; [done|].
      split; [|by intros ?%Hnw]. intros Hr Ho. exfalso. unfold only_bad in Ho. destruct H3 as [more H3]. rewrite H3, !Forall_app, Forall_singleton in Ho.
      destruct Ho as [[_ Ho] _]. congruence.
Qed.

(** ** Streams of blocks *)

Definition good : list Z := good_from N 0.

Lemma good_from_le n pos p : p ∈ good_from n pos -> pos <= p.
Proof.
  pose proof (po_pos _ _ _ HP) as HE. revert pos. induction n as [|n IH]; intros pos; cbn [good_from].
  { by intros ?%not_elem_of_nil. }
  destruct (bad pos); [intros H; apply IH in H; lia|].
  intros [-> |H]%elem_of_cons; [lia | apply IH in H; lia].
Qed.

Lemma good_from_NoDup n pos : NoDup (good_from n pos).
Proof.
  pose proof (po_pos _ _ _ HP) as HE. revert pos. induction n as [|n IH]; intros pos; cbn [good_from]; [constructor|].
  destruct (bad pos); [done|]. constructor; [|done]. intros H. apply good_from_le in H. lia.
Qed.

(** [bs] are in the first good blocks, and the descriptor is before the next ones. *)
Record laid (bs : list (list Z)) (f : file) : Prop := {
  ld_length : Forall (fun b => Z.of_nat (length b) = E) bs;
  ld_room : (length bs <= length good)%nat;
  ld_pos : exists n, at_block (fpos f) n /\ good_from n (fpos f) = drop (length bs) good;
  ld_blocks : forall i p b, good !! i = Some p -> bs !! i = Some b -> contents (device f) p = b;
}.

Lemma drop_cons {A} (l : list A) k x rest : drop k l = x :: rest -> l !! k = Some x /\ drop (S k) l = rest.
Proof.
  intros H. split.
  - rewrite <- (Nat.add_0_r k), <- lookup_drop, H. done.
  - rewrite <- Nat.add_1_r, <- drop_drop, H. done.
Qed.

Lemma laid_wrote bs n f f' b : laid bs f -> Z.of_nat (length b) = E -> at_block (fpos f) n ->
  good_from n (fpos f) = drop (length bs) good -> wrote n (fpos f) f f' b -> laid (bs ++ [b]) f'.
Proof.
  intros [H1 H2 _ H4] Hb _ Hg (p & rest & Hp & Hc & Hq & Hpos & n' & Hn' & Hrest).
  rewrite Hg in Hp. apply drop_cons in Hp as [Hp Hd]. pose proof (lookup_lt_Some _ _ _ Hp) as Hlt.
  split.
  - apply Forall_app_2; [done | by constructor].
  - rewrite length_app. cbn. lia.
  - exists n'. rewrite Hpos. split; [done|]. rewrite length_app, Nat.add_1_r, Hd. done.
  - intros i q c Hi Hc'. destruct (decide (i = length bs)) as [-> |Hne].
    + rewrite Hp in Hi. injection Hi as <-. rewrite lookup_app_r, Nat.sub_diag in Hc' by lia. by injection Hc' as <-.
    + pose proof (lookup_lt_Some _ _ _ Hc') as Hli. rewrite length_app in Hli. cbn in Hli.
      rewrite lookup_app_l in Hc' by lia. rewrite Hq; [by apply (H4 i)|]. intros ->.
      apply Hne. by apply (NoDup_lookup good i (length bs) p (good_from_NoDup N 0)).
Qed.

Lemma fuel_enough pos n : at_block pos n -> (n < S (Z.to_nat (size P)))%nat.
Proof. intros [? H]. pose proof (po_pos _ _ _ HP). nia. Qed.

Lemma write_block_ok f ctx b n : Z.of_nat (length b) = E -> at_block (fpos f) n ->
  exists f' ctx' r, write_block P realloc f ctx b = Some (f', ctx', r) /\
    wbuffer ctx' = wbuffer ctx /\ stored ctx' = stored ctx /\
    bad_block_offsets ctx `prefix_of` bad_block_offsets ctx' /\ (r = 0 \/ r = -1) /\
    (r = 0 -> exists n', at_block (fpos f') n') /\
    (r = 0 -> only_bad ctx' -> forall bs, laid bs f -> laid (bs ++ [b]) f') /\
    (works -> only_bad ctx -> only_bad ctx' /\ (r <> 0 -> forall bs, laid bs f -> (length good <= length bs)%nat)).
Proof.
  intros Hb Hn. destruct (mtd_write_loop_ok _ n f ctx (fpos f) b Hb Hn (fuel_enough _ _ Hn))
    as (f' & ctx' & r & Ew & H1 & H2 & H3 & H4 & H5 & H6 & H7).
  assert (forall bs, laid bs f -> good_from n (fpos f) = drop (length bs) good) as Hg.
  { intros bs Hl. destruct (ld_pos _ _ Hl) as (n2 & Hn2 & Hg2). replace n with n2; [done|].
    destruct Hn as [? Hn], Hn2 as [? Hn2]. pose proof (po_pos _ _ _ HP). nia. }
  exists f', ctx', r. do 6 (split; [done|]). split.
  - intros Hr Ho bs Hl. apply (laid_wrote bs n f f' b); [done | done | done | by apply Hg | by apply H6].
  - intros Hw Ho. destruct (H7 Hw Ho) as [Ho' Hf]. split; [done|]. intros Hr bs Hl.
    specialize (Hf Hr). rewrite (Hg bs Hl) in Hf. apply (f_equal length) in Hf. rewrite length_drop in Hf. cbn in Hf. lia.
Qed.

(** ** Writing a stream *)

Record sane (f : file) (ctx : MtdWriteContext) : Prop := {
  sn_pos : exists n, at_block (fpos f) n;
  sn_buffer : Z.of_nat (length (wbuffer ctx)) = E;
  sn_stored : 0 <= stored ctx < E;
}.

(** [T] has been written: whole blocks to the device, the rest in the buffer. *)
Definition writing (T : list Z) (f : file) (ctx : MtdWriteContext) : Prop :=
  exists bs rest, T = concat bs ++ rest /\ laid bs f /\ stored ctx = Z.of_nat (length rest) /\
    take (length rest) (wbuffer ctx) = rest.

Lemma only_bad_prefix ctx ctx' : bad_block_offsets ctx `prefix_of` bad_block_offsets ctx' ->
  only_bad ctx' -> only_bad ctx.
Proof. intros [more E'] H. unfold only_bad in *. rewrite E' in H. by apply Forall_app in H as [H _]. Qed.

(** The device has no room for [data] after what has been written. *)
Definition full (data : list Z) (f : file) (ctx : MtdWriteContext) : Prop :=
  works -> only_bad ctx -> forall T, writing T f ctx -> E * Z.of_nat (length good) < Z.of_nat (length T + length data).

(** What a step from one state to another does when it takes [taken] from the caller. *)
Record takes (taken : list Z) (f : file) (ctx : MtdWriteContext) (f' : file) (ctx' : MtdWriteContext) : Prop := {
  tk_sane : sane f' ctx';
  tk_works : works -> only_bad ctx -> only_bad ctx';
  tk_prefix : bad_block_offsets ctx `prefix_of` bad_block_offsets ctx';
  tk_writing : only_bad ctx' -> forall T, writing T f ctx -> writing (T ++ taken) f' ctx';
}.

Lemma takes_nil f ctx : sane f ctx -> takes [] f ctx f ctx.
Proof. intros Hs. split; [done.. |]. intros _ T HT. by rewrite app_nil_r. Qed.

Lemma takes_trans t1 t2 f ctx f1 c1 f2 c2 : takes t1 f ctx f1 c1 -> takes t2 f1 c1 f2 c2 -> takes (t1 ++ t2) f ctx f2 c2.
Proof.
  intros [H1 H1' H2 H3] [K1 K1' K2 K3]. split; [done | by auto | by etrans |]. intros Ho T HT.
  rewrite app_assoc. apply K3; [done|]. apply H3; [|done]. by apply (only_bad_prefix c1 c2).
Qed.

Lemma takes_full t data f ctx f1 c1 : takes t f ctx f1 c1 -> full data f1 c1 -> full (t ++ data) f ctx.
Proof.
  intros [_ H1 _ H3] Hf Hw Ho T HT. specialize (Hf Hw (H1 Hw Ho) _ (H3 (H1 Hw Ho) T HT)).
  rewrite !length_app in *. lia.
Qed.

Lemma full_more t data f ctx : full data f ctx -> full (data ++ t) f ctx.
Proof. intros Hf Hw Ho T HT. specialize (Hf Hw Ho T HT). rewrite length_app. lia. Qed.

Lemma concat_blocks (bs : list (list Z)) : Forall (fun b => Z.of_nat (length b) = E) bs -> Z.of_nat (length (concat bs)) = E * Z.of_nat (length bs).
Proof. induction 1 as [|b bs Hb _ IH]; [cbn; lia|]. cbn [concat length]. rewrite length_app. lia. Qed.

(** A whole block, directly from the caller's buffer. *)
Lemma write_whole f ctx b : sane f ctx -> stored ctx = 0 -> Z.of_nat (length b) = E ->
  exists f' ctx' r, write_block P realloc f ctx b = Some (f', ctx', r) /\ (r = 0 \/ r = -1) /\
    stored ctx' = 0 /\ (r = 0 -> takes b f ctx f' ctx') /\ (r <> 0 -> full b f ctx).
Proof.
  intros [[n Hn] Hb Hs] H0 Hl. destruct (write_block_ok f ctx b n Hl Hn) as (f' & ctx' & r & Ew & H1 & H2 & H3 & H4 & H5 & H6 & H7).
  exists f', ctx', r. split; [done|]. split; [done|]. split; [congruence|]. split; intros Hr.
  2:{ intros Hw Ho T (bs & rest & -> & Hld & _). destruct (H7 Hw Ho) as [_ Hf]. specialize (Hf Hr bs Hld).
      rewrite length_app, !Nat2Z.inj_add, (concat_blocks bs) by apply Hld. nia. }
  split; [split; [by apply H5 | by rewrite H1 | by rewrite H2] | intros Hw Ho; by apply H7 | done |].
  intros Ho T (bs & rest & -> & Hld & Hst & Hbu). rewrite H0 in Hst.
  assert (rest = []) as -> by (destruct rest; [done | cbn in Hst; lia]).
  exists (bs ++ [b]), []. split; [rewrite concat_app; cbn; by rewrite !app_nil_r|].
  split; [by apply H6|]. split; [by rewrite H2, H0 | done].
Qed.

Lemma write_direct_ok fuel f ctx data : sane f ctx -> (length data < fuel)%nat ->
  exists f' ctx' r, write_direct P realloc fuel f ctx data = Some (f', ctx', r) /\
    match r with
    | None => full data f ctx
    | Some rest => exists taken, data = taken ++ rest /\ takes taken f ctx f' ctx' /\
        (stored ctx = 0 -> Z.of_nat (length rest) < E)
    end.
Proof.
  revert f ctx data. induction fuel as [|fuel IH]; intros f ctx data Hs Hf; [lia|].
  cbn [write_direct]. rewrite (po_erase _ _ _ HP). pose proof (po_pos _ _ _ HP) as HE.
  destruct (Z.eqb_spec (stored ctx) 0) as [H0|]; cbn [andb].
  2:{ eexists _, _, _. split; [done|]. exists []. split; [done|]. split; [by apply takes_nil | done]. }
  destruct (Z.leb_spec E (Z.of_nat (length data))).
  2:{ eexists _, _, _. split; [done|]. exists []. split; [done|]. split; [by apply takes_nil | intros _; lia]. }
  destruct (write_whole f ctx (take (Z.to_nat E) data) Hs H0) as (f1 & c1 & r & -> & Hr & Hs1 & Ht & Hfull).
  { rewrite length_take. lia. }
  cbn [mbind option_bind]. destruct (Z.eqb_spec r 0) as [Hr0|]; cbn [negb].
  2:{ eexists _, _, None. split; [done|]. rewrite <- (take_drop (Z.to_nat E) data). by apply full_more, Hfull. }
  specialize (Ht Hr0). destruct (IH f1 c1 (drop (Z.to_nat E) data) (tk_sane _ _ _ _ _ Ht)) as (f2 & c2 & r2 & -> & H2).
  { rewrite length_drop. lia. }
  eexists _, _, _. split; [done|]. destruct r2 as [rest|].
  2:{ rewrite <- (take_drop (Z.to_nat E) data). by apply (takes_full _ _ _ _ f1 c1). }
  destruct H2 as (taken & E2 & Ht2 & Hst2).
  exists (take (Z.to_nat E) data ++ taken). split; [|split; [by eapply takes_trans | intros _; by apply Hst2]].
  rewrite <- app_assoc, <- E2. symmetry. apply take_drop.
Qed.

(** The buffer with more bytes in it. *)
Lemma coalesce_ok f ctx bytes : sane f ctx -> stored ctx + Z.of_nat (length bytes) <= E ->
  let ctx' := coalesce ctx bytes in
  Z.of_nat (length (wbuffer ctx')) = E /\ stored ctx' = stored ctx + Z.of_nat (length bytes) /\
  bad_block_offsets ctx' = bad_block_offsets ctx /\
  forall rest, stored ctx = Z.of_nat (length rest) -> take (length rest) (wbuffer ctx) = rest ->
    take (length (rest ++ bytes)) (wbuffer ctx') = rest ++ bytes.
Proof.
  intros [_ Hb Hs] Hl ctx'. unfold ctx', coalesce. cbn. split.
  { rewrite !length_app, length_take, length_drop. lia. }
  do 2 (split; [done|]). intros rest Hr Ht. rewrite Hr, Nat2Z.id, Ht, app_assoc. apply take_app_length.
Qed.

(** The buffer goes to the device when it is full. *)
Lemma mtd_flush_ok f ctx bytes : sane f ctx -> stored ctx + Z.of_nat (length bytes) <= E ->
  let ctx1 := coalesce ctx bytes in
  exists f' ctx' r,
    (if stored ctx1 =? E then
       '(f, ctx, r) ← write_block P realloc f ctx1 (wbuffer ctx1);
       Some (f, if r =? 0 then set_stored ctx 0 else ctx, r)
     else Some (f, ctx1, 0)) = Some (f', ctx', r) /\ (r = 0 \/ r = -1) /\
    (r = 0 -> takes bytes f ctx f' ctx') /\ (r <> 0 -> full bytes f ctx).
Proof.
  intros Hs Hl ctx1. destruct (coalesce_ok f ctx bytes Hs Hl) as (Hb1 & Hs1 & Ho1 & Hr1). fold ctx1 in Hb1, Hs1, Ho1, Hr1.
  clearbody ctx1. pose proof Hs as [[n Hn] Hb Hst]. destruct (Z.eqb_spec (stored ctx1) E) as [HE|HE].
  - destruct (write_block_ok f ctx1 (wbuffer ctx1) n Hb1 Hn) as (f' & ctx' & r & -> & H1 & H2 & H3 & H4 & H5 & H6 & H7).
    cbn [mbind option_bind]. eexists _, _, _. split; [done|]. split; [done|].
    assert (only_bad ctx -> only_bad ctx1) as Hob by (unfold only_bad; by rewrite Ho1). split.
    2:{ intros Hr Hw Ho T (bs & rest & -> & Hld & Hst' & _). destruct (H7 Hw (Hob Ho)) as [_ Hf].
        specialize (Hf Hr bs Hld). rewrite length_app, !Nat2Z.inj_add, (concat_blocks bs) by apply Hld. nia. }
    intros ->. cbn [Z.eqb].
    split; [split; cbn; [by apply H5 | by rewrite H1 | lia] | | cbn; by rewrite <- Ho1|].
    { intros Hw Ho. unfold only_bad. cbn. by apply H7, Hob. }
    intros Ho T (bs & rest & -> & Hld & Hst' & Hbu). specialize (Hr1 rest Hst' Hbu).
    exists (bs ++ [wbuffer ctx1]), []. split; [|split; [by apply H6 | done]].
    rewrite concat_app, <- app_assoc. cbn. rewrite !app_nil_r. f_equal. rewrite <- Hr1. apply take_ge.
    rewrite length_app. lia.
  - exists f, ctx1, 0. split; [done|]. split; [by left|]. split; [|done]. intros _.
    split; [split; [by exists n | done | lia] | unfold only_bad; by rewrite Ho1 | by rewrite Ho1|].
    intros Ho T (bs & rest & -> & Hld & Hst' & Hbu). exists bs, (rest ++ bytes).
    split; [by rewrite app_assoc|]. split; [done|]. split; [rewrite length_app; lia | by apply Hr1].
Qed.

Lemma write_data_loop_ok fuel f ctx data : sane f ctx -> (length data < fuel)%nat ->
  exists f' ctx' ok, write_data_loop P realloc fuel f ctx data = Some (f', ctx', ok) /\
    if ok then takes data f ctx f' ctx' else full data f ctx.
Proof.
  pose proof (po_pos _ _ _ HP) as HE. revert f ctx data.
  induction fuel as [|fuel IH]; intros f ctx data Hs Hf; [lia|].
  cbn [write_data_loop]. rewrite (po_erase _ _ _ HP).
  destruct (Nat.ltb_spec 0 (length data)) as [Hd|Hd].
  2:{ assert (data = []) as -> by (destruct data; [done | cbn in Hd; lia]).
      exists f, ctx, true. split; [done|]. by apply takes_nil. }
  destruct ((0 <? stored ctx) || (Z.of_nat (length data) <? E)) eqn:Hc.
  - set (copy := Z.to_nat _). destruct (mtd_flush_ok f ctx (take copy data) Hs) as (f1 & c1 & r & -> & Hr & Ht & Hfull).
    { rewrite length_take. unfold copy. pose proof (sn_stored _ _ Hs). zcases; lia. }
    cbn [mbind option_bind]. destruct (Z.eqb_spec r 0) as [Hr0|]; cbn [negb].
    2:{ eexists _, _, false. split; [done|]. rewrite <- (take_drop copy data). by apply full_more, Hfull. }
    specialize (Ht Hr0).
    destruct (write_direct_ok (S (length (drop copy data))) f1 c1 (drop copy data) (tk_sane _ _ _ _ _ Ht) ltac:(lia))
      as (f2 & c2 & rest & -> & H2). cbn [mbind option_bind].
    destruct rest as [rest|].
    2:{ eexists _, _, false. split; [done|]. rewrite <- (take_drop copy data). by apply (takes_full _ _ _ _ f1 c1). }
    destruct H2 as (taken & E2 & Ht2 & _).
    destruct (IH f2 c2 rest (tk_sane _ _ _ _ _ Ht2)) as (f' & ctx' & ok & -> & H').
    { assert (length (drop copy data) = length (taken ++ rest)) as HL by (by rewrite E2).
      rewrite length_drop, length_app in HL. assert (0 < copy)%nat; [|lia].
      unfold copy. pose proof (sn_stored _ _ Hs). zcases; lia. }
    eexists _, _, _. split; [done|]. rewrite <- (take_drop copy data), E2. destruct ok.
    + apply (takes_trans _ _ _ _ f1 c1); [done|]. by apply (takes_trans _ _ _ _ f2 c2).
    + apply (takes_full _ _ _ _ f1 c1); [done|]. by apply (takes_full _ _ _ _ f2 c2).
  - apply orb_false_iff in Hc as [H1 H2]. apply Z.ltb_ge in H1, H2. pose proof (sn_stored _ _ Hs).
    assert (stored ctx = 0) as H0 by lia. rewrite H0. destruct (Z.eqb_spec 0 E); [lia|].
    cbn [mbind option_bind Z.eqb negb].
    destruct (write_direct_ok (S (length data)) f ctx data Hs ltac:(lia)) as (f2 & c2 & rest & Ew & Hd2).
    rewrite Ew. cbn [mbind option_bind].
    destruct rest as [rest|]; [|by eexists _, _, false].
    destruct Hd2 as (taken & E2 & Ht2 & Hlt).
    destruct (IH f2 c2 rest (tk_sane _ _ _ _ _ Ht2)) as (f' & ctx' & ok & -> & H').
    { specialize (Hlt H0). lia. }
    eexists _, _, _. split; [done|]. rewrite E2. destruct ok.
    + by apply (takes_trans _ _ _ _ f2 c2).
    + by apply (takes_full _ _ _ _ f2 c2).
Qed.
(** ** The end of the stream *)

(** [T] with zeros up to the end of its last block. *)
Definition pad (T : list Z) : list Z := T ++ replicate (Z.to_nat ((- Z.of_nat (length T)) mod E)) 0.

Lemma writing_rest T f ctx : sane f ctx -> writing T f ctx ->
  exists bs rest, T = concat bs ++ rest /\ laid bs f /\ stored ctx = Z.of_nat (length rest) /\
    take (Z.to_nat (stored ctx)) (wbuffer ctx) = rest /\
    pad T = concat bs ++ if stored ctx =? 0 then [] else rest ++ replicate (Z.to_nat (E - stored ctx)) 0.
Proof.
  intros [_ _ Hs] (bs & rest & -> & Hld & Hst & Hbu). exists bs, rest. do 3 (split; [done|]).
  split; [by rewrite Hst, Nat2Z.id|]. unfold pad. rewrite <- app_assoc. f_equal.
  rewrite length_app, Nat2Z.inj_add, (concat_blocks bs), <- Hst by apply Hld.
  destruct (Z.eqb_spec (stored ctx) 0) as [H0|H0].
  - assert (rest = []) as -> by (destruct rest; [done | cbn in Hst; lia]). rewrite H0.
    replace (- (E * Z.of_nat (length bs) + 0)) with (- Z.of_nat (length bs) * E) by lia. by rewrite Z.mod_mul by lia.
  - do 3 f_equal. symmetry. apply (Z.mod_unique_pos _ _ (- Z.of_nat (length bs) - 1)); lia.
Qed.

Lemma erase_none (f : file) (ctx : MtdWriteContext) n : at_block (fpos f) n -> fpos f <> -1 /\
  erase_from P f ctx 0 = Some (f, ctx, fpos f).
Proof.
  destruct HP as [H1 H2 H3 H4]. intros [Hp Hb]. split; [lia|]. unfold erase_from. rewrite H1. destruct (Z.eqb_spec E 0); [lia|].
  cbv zeta. rewrite Z.ltb_irrefl, u32_id by (unfold is_u32; lia).
  replace (size P - fpos f) with (Z.of_nat n * E) by lia. rewrite Z.div_mul by lia.
  rewrite s32_id by (unfold is_s32; nia). by destruct (Z.ltb_spec (Z.of_nat n) 0); [lia|].
Qed.

Lemma erase_blocks_ok f ctx : sane f ctx -> exists f' ctx' pos,
  mtd_erase_blocks P realloc f ctx 0 = Some (f', ctx', pos) /\ (only_bad ctx' -> only_bad ctx) /\
  (pos <> -1 -> only_bad ctx' -> forall T, writing T f ctx -> exists bs, laid bs f' /\ concat bs = pad T) /\
  (works -> only_bad ctx -> only_bad ctx' /\
    (pos = -1 -> forall T, writing T f ctx -> E * Z.of_nat (length good) < Z.of_nat (length (pad T)))).
Proof.
  intros Hs. pose proof Hs as [[n Hn] Hb Hst]. unfold mtd_erase_blocks.
  destruct (Z.ltb_spec 0 (stored ctx)) as [H0|H0].
  2:{ cbn [mbind option_bind Z.eqb negb]. destruct (erase_none f ctx n Hn) as [Hp ->].
      eexists _, _, _. split; [done|]. split; [done|]. split; [|done]. intros _ _ T HT.
      destruct (writing_rest T f ctx Hs HT) as (bs & rest & _ & Hld & _ & _ & ->). exists bs. split; [done|].
      destruct (Z.eqb_spec (stored ctx) 0); [by rewrite app_nil_r | lia]. }
  rewrite (po_erase _ _ _ HP). cbv zeta. set (block := _ ++ replicate _ 0). cbn [wbuffer].
  set (ctx1 := mkWriteContext block _ _ _).
  assert (Z.of_nat (length block) = E) as HL.
  { unfold block. rewrite length_app, length_take, length_replicate. lia. }
  destruct (write_block_ok f ctx1 block n HL Hn) as (f' & ctx' & r & -> & H1 & H2 & H3 & H4 & H5 & H6 & H7).
  cbn [mbind option_bind]. destruct H4 as [-> | ->]; cbn [Z.eqb negb].
  - destruct (H5 eq_refl) as [n' Hn']. destruct (erase_none f' (set_stored ctx' 0) n' Hn') as [Hp Hq].
    rewrite Hq. eexists _, _, _. split; [done|]. split; [by apply (only_bad_prefix ctx1 ctx')|]. split.
    + intros _ Ho T HT. destruct (writing_rest T f ctx Hs HT) as (bs & rest & _ & Hld & _ & Ht & ->).
      exists (bs ++ [block]). split; [by apply H6|]. rewrite concat_app. destruct (Z.eqb_spec (stored ctx) 0); [lia|].
      cbn [concat]. rewrite app_nil_r. unfold block. by rewrite Ht.
    + intros Hw Ho. split; [by apply H7 | done].
  - eexists _, _, _. split; [done|]. split; [by apply (only_bad_prefix ctx1 ctx')|]. split; [done|].
    intros Hw Ho. destruct (H7 Hw Ho) as [Ho' Hf]. split; [done|].
    intros _ T HT. destruct (writing_rest T f ctx Hs HT) as (bs & rest & _ & Hld & Hr & Ht & ->).
    specialize (Hf ltac:(done) bs Hld). destruct (Z.eqb_spec (stored ctx) 0); [lia|].
    rewrite !length_app, length_replicate, !Nat2Z.inj_add, (concat_blocks bs) by apply Hld. nia.
Qed.
(** The first place at or after [pos] that the writer has not skipped. *)
Lemma mtd_find_write_start_ok ctx pos : StronglySorted Z.lt (bad_block_offsets ctx) ->
  Forall (fun o => 0 <= o < size P) (bad_block_offsets ctx) ->
  let r := mtd_find_write_start P ctx pos in
  pos <= r /\ (r ∉ bad_block_offsets ctx) /\ forall k, 0 <= k -> pos + k * E < r -> pos + k * E ∈ bad_block_offsets ctx.
Proof.
  unfold mtd_find_write_start. destruct HP as [H1 H2 H3 H4]. intros Hs Hf. revert pos.
  induction Hs as [|o offs Hs IH Ho]; intros pos; cbn [find_start].
  { split; [lia|]. split; [apply not_elem_of_nil|]. intros k ??. nia. }
  apply Forall_cons in Hf as [Ho' Hf]. rewrite H1. destruct (Z.eqb_spec o pos) as [-> |Hne].
  - rewrite s32_id by (unfold is_s32; lia). destruct (IH Hf (pos + E)) as (A & B & C). split; [lia|]. split.
    + rewrite not_elem_of_cons. split; [lia | done].
    + intros k Hk Hlt. destruct (Z.eq_dec k 0) as [-> |]; [apply elem_of_cons; left; lia|]. right.
      replace (pos + k * E) with (pos + E + (k - 1) * E) in * by lia. apply C; [lia | done].
  - destruct (Z.ltb_spec pos o) as [Hlt|Hge].
    + split; [lia|]. split; [|intros k ??; nia]. rewrite not_elem_of_cons. split; [done|].
      intros Hin. rewrite Forall_forall in Ho. specialize (Ho _ Hin). lia.
    + destruct (IH Hf pos) as (A & B & C). split; [done|]. split; [rewrite not_elem_of_cons; split; [lia | done]|].
      intros k ??. right. by apply C.
Qed.

(** ** Reading a stream *)

Context (C : Z -> list Z).

(** [R] is what a reader of a device that holds [C] has yet to deliver. *)
Record reading (R : list Z) (f : file) (ctx : MtdReadContext) : Prop := {
  rd_readable : readable (device f);
  rd_contents : forall q, contents (device f) q = C q;
  rd_buffer : Z.of_nat (length (rbuffer ctx)) = E;
  rd_consumed : 0 <= consumed ctx <= E;
  rd_left : exists n, at_block (fpos f) n /\
    R = drop (Z.to_nat (consumed ctx)) (rbuffer ctx) ++ concat (C <$> good_from n (fpos f));
}.

Lemma reading_empty f ctx n : readable (device f) -> (forall q, contents (device f) q = C q) ->
  Z.of_nat (length (rbuffer ctx)) = E -> consumed ctx = E -> at_block (fpos f) n ->
  reading (concat (C <$> good_from n (fpos f))) f ctx.
Proof.
  intros Hr Hc Hb He Hn. pose proof (po_pos _ _ _ HP). split; [done | done | done | lia|].
  exists n. split; [done|]. by rewrite drop_ge by lia.
Qed.

(** The next block of the stream, when nothing is left in the buffer. *)
Lemma read_block_ok R f ctx : reading R f ctx -> consumed ctx = E ->
  exists f' r, read_block P f = Some (f', r) /\
    match r with
    | None => R = []
    | Some b => exists R', R = b ++ R' /\ Z.of_nat (length b) = E /\ reading R' f' ctx /\ reading R f' (mkReadContext b 0)
    end.
Proof.
  intros [Hr Hc Hb _ (n & Hn & ->)] He. pose proof (po_pos _ _ _ HP) as HE. unfold read_block.
  destruct (fl_ecc (device f) Hr) as [before Hbe]. rewrite Hbe.
  destruct (mtd_read_loop_ok _ n f (fpos f) before Hr Hbe Hn (fuel_enough _ _ Hn)) as (f' & r & -> & Hr' & Hc' & H).
  exists f', r. split; [done|]. rewrite drop_ge by lia. rewrite app_nil_l.
  assert (forall q, contents (device f') q = C q) as HC by (intros q; by rewrite Hc', Hc).
  destruct (good_from n (fpos f)) as [|p rest]; [by subst r|].
  destruct H as (-> & HL & Hp & n' & Hn' & <-). rewrite Hc in *. rewrite <- Hp in *. cbn [fmap list_fmap concat].
  eexists. split; [done|]. split; [done|]. split; [by apply reading_empty|].
  split; [done | done | done | cbn; lia|]. exists n'. split; [done|]. done.
Qed.

(** Whole blocks go to the caller's buffer directly. *)
Lemma read_direct_ok fuel R f ctx len data : reading R f ctx -> Z.of_nat (length data) <= len ->
  (Z.to_nat (len - Z.of_nat (length data)) < fuel)%nat ->
  exists f' r, read_direct P fuel f ctx len data = Some (f', r) /\
    match r with
    | None => Z.of_nat (length R) < len - Z.of_nat (length data)
    | Some data' => exists t R', data' = data ++ t /\ R = t ++ R' /\ reading R' f' ctx /\
        Z.of_nat (length data') <= len /\ (consumed ctx = E -> len - Z.of_nat (length data') < E)
    end.
Proof.
  pose proof (po_pos _ _ _ HP) as HE. revert R f data. induction fuel as [|fuel IH]; intros R f data Hrd Hl Hf; [lia|].
  cbn [read_direct]. rewrite (po_erase _ _ _ HP).
  destruct (Z.eqb_spec (consumed ctx) E) as [He|He]; cbn [andb].
  2:{ eexists _, _. split; [done|]. exists [], R. rewrite app_nil_r. by do 4 (split; [done|]). }
  destruct (Z.leb_spec E (len - Z.of_nat (length data))).
  2:{ eexists _, _. split; [done|]. exists [], R. rewrite app_nil_r. do 4 (split; [done|]). intros _. lia. }
  destruct (read_block_ok R f ctx Hrd He) as (f1 & [b|] & -> & H1); cbn [mbind option_bind].
  2:{ eexists _, _. split; [done|]. subst R. cbn. lia. }
  destruct H1 as (R' & -> & HL & Hrd' & _).
  destruct (IH R' f1 (data ++ b) Hrd') as (f2 & r & -> & H2); [rewrite length_app; lia..|].
  eexists _, _. split; [done|]. destruct r as [data'|]; [|rewrite !length_app in *; lia].
  destruct H2 as (t & R2 & -> & -> & Hrd2 & H3). exists (b ++ t), R2. by rewrite <- !app_assoc in *.
Qed.
(** Bytes of the buffer. *)
Lemma reading_copy R f ctx k : reading R f ctx -> 0 <= k <= E - consumed ctx ->
  reading (drop (Z.to_nat k) R) f (mkReadContext (rbuffer ctx) (consumed ctx + k)) /\ k <= Z.of_nat (length R) /\
  take (Z.to_nat k) (drop (Z.to_nat (consumed ctx)) (rbuffer ctx)) = take (Z.to_nat k) R.
Proof.
  intros [Hr Hc Hb He (n & Hn & ->)] Hk.
  assert (Z.to_nat k <= length (drop (Z.to_nat (consumed ctx)) (rbuffer ctx)))%nat as HL by (rewrite length_drop; lia).
  split; [|split; [rewrite length_app; lia | by rewrite take_app_le]].
  split; cbn; [done | done | done | lia|]. exists n. split; [done|].
  rewrite drop_app_le by done. by rewrite drop_drop, Z2Nat.inj_add by lia.
Qed.

(** A round that the buffer satisfies. *)
Lemma read_data_last fuel R f ctx len data : reading R f ctx -> 0 <= len < 2147483648 ->
  Z.of_nat (length data) < len -> len - Z.of_nat (length data) <= E - consumed ctx ->
  let k := len - Z.of_nat (length data) in
  exists ctx', read_data_loop P (S fuel) f ctx len data = Some (f, ctx', Some (data ++ take (Z.to_nat k) R)) /\
    reading (drop (Z.to_nat k) R) f ctx' /\ k <= Z.of_nat (length R).
Proof.
  intros Hrd Hl Hd He k. pose proof (po_pos _ _ _ HP) as HE. cbn [read_data_loop].
  rewrite (s32_id len), (po_erase _ _ _ HP) by (unfold is_s32; lia).
  rewrite (proj2 (Z.ltb_lt (Z.of_nat (length data)) len)), (proj2 (Z.ltb_lt (consumed ctx) E)) by lia.
  replace (if _ <? _ then _ else _) with k by (unfold k; zcases; lia).
  destruct (reading_copy R f ctx k Hrd ltac:(lia)) as (Hrd' & Hk & ->).
  set (ctx' := mkReadContext _ _) in *. set (data' := data ++ take _ R).
  assert (Z.of_nat (length data') = len) as HL by (unfold data'; rewrite length_app, length_take; lia).
  cbn [read_direct]. rewrite HL, (po_erase _ _ _ HP), Z.sub_diag, (proj2 (Z.leb_gt E 0)), andb_false_r by lia.
  cbn [mbind option_bind]. rewrite HL, Z.leb_refl. by eexists.
Qed.

(** The caller gets the next [len] bytes of the stream, or -1 when it has fewer. *)
Lemma mtd_read_data_ok R f ctx len : reading R f ctx -> 0 <= len < 2147483648 ->
  exists f' ctx' r, mtd_read_data P f ctx len = Some (f', ctx', r) /\
    match r with
    | Some data => len <= Z.of_nat (length R) /\ data = take (Z.to_nat len) R /\ reading (drop (Z.to_nat len) R) f' ctx'
    | None => Z.of_nat (length R) < len
    end.
Proof.
  intros Hrd Hl. pose proof (po_pos _ _ _ HP) as HE. unfold mtd_read_data.
  destruct (Z.le_gt_cases len (E - consumed ctx)) as [Hc|Hc].
  { destruct (Z.eq_dec len 0) as [-> |].
    - cbn. exists f, ctx, (Some []). split; [done|]. split; [lia|]. split; [by rewrite take_0 | by rewrite drop_0].
    - destruct (read_data_last (S (Z.to_nat len)) R f ctx len [] Hrd Hl ltac:(cbn; lia) ltac:(cbn; lia)) as (ctx' & -> & Hrd' & Hk).
      cbn [length Z.of_nat app] in *. rewrite Z.sub_0_r in *. by eexists _, _, (Some _). }
  assert (exists fu, S (Z.to_nat len) = S fu) as [fu Hfu] by eauto. set (fuel := S (Z.to_nat len)) in *. clearbody fuel.
  cbn [read_data_loop length]. rewrite (s32_id len), (po_erase _ _ _ HP) by (unfold is_s32; lia).
  pose proof (rd_consumed _ _ _ Hrd) as Hco. rewrite (proj2 (Z.ltb_lt (Z.of_nat 0) len)) by lia.
  set (k := E - consumed ctx).
  destruct (reading_copy R f ctx k Hrd ltac:(lia)) as (Hrd' & Hk & Htk). set (ctx1 := mkReadContext _ (consumed ctx + k)) in *.
  assert (consumed ctx1 = E) as He by (cbn; lia).
  replace (if consumed ctx <? E then _ else _) with (ctx1, take (Z.to_nat k) R).
  2:{ rewrite (proj2 (Z.ltb_ge (len - Z.of_nat 0) k)), Htk by lia. destruct (Z.ltb_spec (consumed ctx) E); [done|].
      assert (k = 0) as -> by lia. unfold ctx1. rewrite take_0. replace (consumed ctx + 0) with (consumed ctx) by lia. by destruct ctx. }
  clearbody ctx1. pose proof (take_drop (Z.to_nat k) R) as HR. set (t0 := take (Z.to_nat k) R) in *. set (R1 := drop (Z.to_nat k) R) in *.
  assert (Z.of_nat (length t0) = k) as Ht0 by (unfold t0; rewrite length_take; lia). clearbody t0 R1. subst R.
  destruct (read_direct_ok (S (Z.to_nat len)) R1 f ctx1 len t0 Hrd') as (f1 & [data1|] & -> & H1); [lia|lia|..]; cbn [mbind option_bind].
  2:{ eexists _, _, None. split; [done|]. rewrite length_app. lia. }
  destruct H1 as (t1 & R2 & -> & -> & Hrd2 & Hle & Hlt). specialize (Hlt He). rewrite app_assoc in *.
  set (t := t0 ++ t1) in *. clearbody t. clear Hrd Hk.
  destruct (Z.leb_spec len (Z.of_nat (length t))) as [Hge|Hge].
  { eexists _, _, (Some t). split; [done|]. rewrite length_app. split; [lia|].
    replace (Z.to_nat len) with (length t) by lia. by rewrite take_app_length, drop_app_length. }
  rewrite He, Z.eqb_refl, (proj2 (Z.ltb_lt (Z.of_nat (length t)) len)) by lia. cbn [andb].
  destruct (read_block_ok R2 f1 ctx1 Hrd2 He) as (f2 & [b|] & -> & H2); cbn [mbind option_bind].
  2:{ eexists _, _, None. split; [done|]. subst R2. rewrite app_nil_r. lia. }
  destruct H2 as (R3 & _ & HL & _ & Hrd3). subst fuel.
  destruct (read_data_last fu R2 f2 (mkReadContext b 0) len t Hrd3 Hl Hge ltac:(cbn; lia)) as (ctx' & -> & Hrd4 & Hk).
  eexists _, _, (Some _). split; [done|]. rewrite length_app. split; [lia|].
  replace (Z.to_nat len) with (length t + Z.to_nat (len - Z.of_nat (length t)))%nat by lia.
  by rewrite take_app_add, drop_app_add.
Qed.
(** ** Whole sessions *)

Lemma mtd_read_all_ok lens R f ctx : reading R f ctx -> Forall (fun len => 0 <= len < 2147483648) lens ->
  foldr Z.add 0 lens <= Z.of_nat (length R) ->
  read_all P f ctx lens = Some (take (Z.to_nat (foldr Z.add 0 lens)) R).
Proof.
  revert R f ctx. induction lens as [|len lens IH]; intros R f ctx Hrd Hl Hs; cbn [read_all foldr] in *; [by rewrite take_0|].
  apply Forall_cons in Hl as [Hl Hls].
  assert (0 <= foldr Z.add 0 lens) as H0 by (clear -Hls; induction Hls; cbn in *; lia).
  destruct (mtd_read_data_ok R f ctx len Hrd Hl) as (f1 & c1 & [data|] & -> & H1); [|lia].
  destruct H1 as (Hle & -> & Hrd1). cbn [mbind option_bind].
  rewrite (IH _ _ _ Hrd1 Hls) by (rewrite length_drop; lia). cbn [mbind option_bind].
  by rewrite take_take_drop, Z2Nat.inj_add by lia.
Qed.

Lemma mtd_write_all_ok pieces f ctx : sane f ctx -> exists f' ctx' ok,
  write_all P realloc f ctx pieces = Some (f', ctx', ok) /\
  if ok then takes (concat pieces) f ctx f' ctx' else full (concat pieces) f ctx.
Proof.
  revert f ctx. induction pieces as [|data pieces IH]; intros f ctx Hs; cbn [write_all concat].
  { eexists _, _, _. split; [done|]. by apply takes_nil. }
  unfold mtd_write_data.
  destruct (write_data_loop_ok (S (S (length data))) f ctx data Hs ltac:(lia)) as (f1 & c1 & [|] & -> & H1); cbn [mbind option_bind].
  - rewrite Z.eqb_refl. destruct (IH f1 c1 (tk_sane _ _ _ _ _ H1)) as (f' & ctx' & ok & -> & H2).
    eexists _, _, _. split; [done|]. destruct ok; [by apply (takes_trans _ _ _ _ f1 c1) | by apply (takes_full _ _ _ _ f1 c1)].
  - destruct (Z.eqb_spec (-1) (Z.of_nat (length data))); [lia|]. eexists _, _, _. split; [done|]. by apply full_more.
Qed.

Lemma at_start : at_block 0 N.
Proof. destruct HP as [H1 H2 H3 H4]. split; lia. Qed.

Lemma write_start f garbage ctx : fpos f = 0 -> Z.of_nat (length garbage) = E ->
  mtd_write_partition true true garbage 0 = Some ctx -> sane f ctx /\ writing [] f ctx /\ only_bad ctx.
Proof.
  pose proof (po_pos _ _ _ HP). intros Hf Hg [= <-]. split; [|split; [|constructor]].
  - split; cbn; [exists N; rewrite Hf; apply at_start | done | lia].
  - exists [], []. do 1 (split; [done|]). split; [|done]. split; [constructor | cbn; lia | | done].
    exists N. rewrite Hf. split; [apply at_start | done].
Qed.

Lemma laid_stream bs f : laid bs f -> exists more, concat (contents (device f) <$> good) = concat bs ++ more.
Proof.
  intros [_ Hr _ Hb]. exists (concat (contents (device f) <$> drop (length bs) good)).
  rewrite <- (take_drop (length bs) good) at 1. rewrite fmap_app, concat_app. do 2 f_equal.
  apply list_eq. intros i. rewrite list_lookup_fmap. destruct (decide (i < length bs)%nat) as [Hi|Hi].
  - rewrite lookup_take_lt by done. destruct (lookup_lt_is_Some_2 bs i Hi) as [b Hbi].
    destruct (lookup_lt_is_Some_2 good i ltac:(lia)) as [p Hp]. rewrite Hp, Hbi. cbn. f_equal. by apply (Hb i).
  - rewrite lookup_take_ge by lia. by rewrite (lookup_ge_None_2 bs) by lia.
Qed.
End laws.

(** A session that writes [pieces] from the start of the partition and closes it; whether
    the writes and the close succeeded. *)
Definition session `{Drv : MtdDriver} (P : MtdPartition) (realloc : Z -> bool) (f : file) (ctx : MtdWriteContext)
    (pieces : list (list Z)) : option (file * MtdWriteContext * bool) :=
  '(f, ctx, ok) ← write_all P realloc f ctx pieces;
  if ok : bool then
    '(f, ctx, r) ← mtd_write_close P realloc f ctx 0; Some (f, ctx, r =? 0)
  else Some (f, ctx, false).

(** Whatever is written to a partition in pieces is what is read from it afterwards, in
    pieces of any lengths, up to the zeros that fill the last block (C16): bad blocks are
    skipped on both sides, partial blocks are collected, and every block is verified.  The
    code always returns.  It reports success when the data fit in the good blocks and these
    can be written; and when it reports success and the only blocks it has skipped are those
    the driver calls bad, the reader delivers the data. *)
Theorem mtd_round_trip (Drv : MtdDriver) P E N (Hfl : FlashOk Drv E) (HP : partition_ok P E N) realloc f garbage ctx pieces :
  (forall n, realloc n = true) -> fpos f = 0 -> Z.of_nat (length garbage) = E ->
  mtd_write_partition true true garbage 0 = Some ctx ->
  exists f' ctx' ok, session P realloc f ctx pieces = Some (f', ctx', ok) /\
    (works P E -> Z.of_nat (length (pad E (concat pieces))) <= E * Z.of_nat (length (good E N)) ->
       ok = true /\ only_bad E ctx') /\
    (ok = true -> only_bad E ctx' -> readable (device f') ->
       forall garbage' rctx lens, Z.of_nat (length garbage') = E ->
       mtd_read_partition P true true garbage' 0 = Some (Some rctx) ->
       Forall (fun len => 0 <= len < 2147483648) lens ->
       foldr Z.add 0 lens <= Z.of_nat (length (pad E (concat pieces))) ->
       read_all P (mkFile (device f') 0) rctx lens =
         Some (take (Z.to_nat (foldr Z.add 0 lens)) (pad E (concat pieces)))).
Proof.
  intros Hre Hf Hg Hctx. destruct (write_start P E N HP f garbage ctx Hf Hg Hctx) as (Hs & Hw & Ho).
  unfold session. destruct (mtd_write_all_ok P E N HP realloc Hre pieces f ctx Hs) as (f1 & c1 & [|] & -> & H1); cbn [mbind option_bind].
  2:{ eexists _, _, _. split; [done|]. split; [|done]. intros Hwk Hfit. exfalso.
      specialize (H1 Hwk Ho [] Hw). unfold pad in Hfit. rewrite length_app in Hfit. cbn in H1. lia. }
  unfold mtd_write_close.
  destruct (erase_blocks_ok P E N HP realloc Hre f1 c1 (tk_sane _ _ _ _ _ _ _ _ H1)) as (f2 & c2 & pos & -> & Hpre & H2 & H3).
  cbn [mbind option_bind Z.eqb negb]. rewrite orb_false_r. pose proof H1 as [_ Htw _ Htk].
  eexists _, _, _. split; [done|]. split.
  - intros Hwk Hfit. destruct (H3 Hwk (Htw Hwk Ho)) as [Ho2 Hfull]. split; [|done].
    destruct (Z.eqb_spec pos (-1)) as [Hp|]; [|done]. specialize (Hfull Hp _ (Htk (Htw Hwk Ho) [] Hw)).
    rewrite app_nil_l in Hfull. lia.
  - destruct (Z.eqb_spec pos (-1)) as [|Hp]; [done|]. intros _ Ho2 Hrd garbage' rctx lens Hg' Hrc Hl Hsum.
    destruct (H2 Hp Ho2 _ (Htk (Hpre Ho2) [] Hw)) as (bs & Hld & Hpad). rewrite app_nil_l in Hpad.
    destruct (laid_stream P E N bs f2 Hld) as [more Hm].
    cbn in Hrc. injection Hrc as <-.
    rewrite (mtd_read_all_ok P E N HP (contents (device f2)) lens (concat bs ++ more)); [|  | done|].
    + f_equal. rewrite <- Hpad. apply take_app_le. rewrite Hpad. lia.
    + rewrite <- Hm. apply (reading_empty P E N HP _ (mkFile (device f2) 0) _ N); cbn; try done.
      * apply HP.
      * by apply (at_start P E N).
    + rewrite length_app, Hpad. lia.
Qed.

(** ** A device *)

(** Blocks of [E] bytes; those of [badb] are marked bad, and writing to those of [broken]
    leaves them erased. *)
Section toy.
Context (E : Z) (badb broken : Z -> bool).

Definition toy_contents (d : Z -> list Z) (p : Z) : list Z := take (Z.to_nat E) (d p ++ replicate (Z.to_nat E) 255).
Definition toy_update (d : Z -> list Z) (p : Z) (b : list Z) : Z -> list Z := fun q => if q =? p then b else d q.

Definition toy_device : MtdDriver := {|
  dev := Z -> list Z;
  get_bad _ p := (if badb p then 1 else 0, 0);
  erase d p _ := (toy_update d p [], 0);
  dev_write d p data := (if broken p then d else toy_update d p data, Z.of_nat (length data));
  dev_read d p n := (d, n, toy_contents d p);
  ecc_stats _ := Some 0;
|}.

Definition blank_file : @file toy_device := @mkFile toy_device (fun _ => []) 0.

Lemma toy_contents_length d p : Z.of_nat (length (toy_contents d p)) = Z.max 0 E.
Proof. unfold toy_contents. rewrite length_take, length_app, length_replicate. lia. Qed.

Lemma toy_contents_update d p b q : q <> p -> toy_contents (toy_update d p b) q = toy_contents d q.
Proof. intros H. unfold toy_contents, toy_update. by destruct (Z.eqb_spec q p). Qed.

Program Definition toy_device_ok (HE : 0 < E) : FlashOk toy_device E :=
  {| contents := toy_contents; bad := badb; readable := fun _ => True |}.
Next Obligation. done. Qed.
Next Obligation. intros HE d p n q H. by apply toy_contents_update. Qed.
Next Obligation. intros HE d p data q H. cbn. destruct (broken p); [done|]. by apply toy_contents_update. Qed.
Next Obligation. done. Qed.
Next Obligation. intros HE d p _. split; [done|]. rewrite toy_contents_length. lia. Qed.
Next Obligation. by eexists. Qed.
Next Obligation. done. Qed.

Lemma toy_works (HE : 0 < E) P : s32 (erase_size P) = E -> (forall p, broken p = false) ->
  @works toy_device P E (toy_device_ok HE).
Proof.
  intros Hs Hb f pos data _ HL. cbn. rewrite Hs, Z.eqb_refl, Hb. cbn.
  replace (toy_contents _ pos) with data; [by rewrite bool_decide_true|].
  unfold toy_contents, toy_update. rewrite Z.eqb_refl, take_app_le by lia. by rewrite take_ge by lia.
Qed.
End toy.

(** Four blocks of two bytes. *)
Definition sample_partition : MtdPartition := mkMtdPartition 0 8 2 None.
Definition second_bad : MtdDriver := toy_device 2 (Z.eqb 2) (fun _ => false).
Definition first_broken : MtdDriver := toy_device 2 (fun _ => false) (Z.eqb 0).

Lemma sample_partition_ok : partition_ok sample_partition 2 4.
Proof. by split. Qed.

Lemma mtd_round_trip_witness : exists f' ctx',
  session (Drv := second_bad) sample_partition (fun _ => true) (blank_file 2 (Z.eqb 2) (fun _ => false)) (mkWriteContext [9; 9] 0 [] 0)
    [[1]; [2; 3]] = Some (f', ctx', true) /\
  read_all (Drv := second_bad) sample_partition (mkFile (device f') 0) (mkReadContext [7; 7] 2) [3; 1] = Some [1; 2; 3; 0].
Proof.
  destruct (mtd_round_trip second_bad sample_partition 2 4 (toy_device_ok 2 (Z.eqb 2) (fun _ => false) ltac:(lia))
    sample_partition_ok (fun _ => true) (blank_file 2 (Z.eqb 2) (fun _ => false)) [9; 9] (mkWriteContext [9; 9] 0 [] 0) [[1]; [2; 3]])
    as (f' & ctx' & ok & Hs & Hok & Hread); [done..|].
  destruct Hok as [-> Ho]; [by apply toy_works | by vm_compute|].
  exists f', ctx'. split; [exact Hs|].
  rewrite (Hread eq_refl Ho I [7; 7] (mkReadContext [7; 7] 2) [3; 1] eq_refl eq_refl); [reflexivity | | by vm_compute].
  repeat constructor; lia.
Defined.

