(* ===== verification/MtdScan.v ===== *)
(** * The table of partitions (mtdutils/mtdutils.c)

    [mtd_scan_partitions] reads /proc/mtd into a table of 32 entries with one [sscanf] per
    line, and [mtd_find_partition_by_name] searches the table.  [sscanf] is modelled for the
    one format that is used; a number that does not fit its type is undefined, and so is a
    line whose number is not an index of the table, which the code does not check. *)

From stdpp Require Import strings.
From S2P Require Import Prelude Mtd.
Open Scope Z_scope.

Definition text (s : string) : list Z :=
  map (fun c => Z.of_N (Ascii.N_of_ascii c)) (String.list_ascii_of_string s).

(** ** [sscanf], for a number, two hexadecimal numbers and a quoted name *)

Definition isspace (c : Z) : bool := (c =? 32) || (9 <=? c) && (c <=? 13).

Fixpoint skip_spaces (s : list Z) : list Z :=
  match s with
  | c :: s' => if isspace c then skip_spaces s' else s
  | [] => []
  end.

Fixpoint literal (l s : list Z) : option (list Z) :=
  match l, s with
  | [], _ => Some s
  | a :: l, b :: s => if a =? b then literal l s else None
  | _, [] => None
  end.

Definition digit (base c : Z) : option Z :=
  let v := if (48 <=? c) && (c <=? 57) then c - 48
           else if (97 <=? c) && (c <=? 122) then c - 87
           else if (65 <=? c) && (c <=? 90) then c - 55 else base in
  if v <? base then Some v else None.

Fixpoint number (base acc : Z) (s : list Z) : Z * list Z :=
  match s with
  | c :: s' => match digit base c with Some v => number base (acc * base + v) s' | None => (acc, s) end
  | [] => (acc, [])
  end.

(** The prefix 0x that [%x] allows. *)
Definition hex_prefix (s : list Z) : list Z :=
  match s with
  | c :: x :: s' => if (c =? 48) && ((x =? 120) || (x =? 88)) then s' else s
  | _ => s
  end.

(** [%d] and [%x]: spaces, a sign and at least one digit; [None] is a matching failure. *)
Definition scan_number (base : Z) (s : list Z) : option (Z * list Z) :=
  let s := skip_spaces s in
  let neg := match s with c :: _ => c =? 45 | [] => false end in
  let s := match s with c :: s' => if (c =? 45) || (c =? 43) then s' else s | [] => [] end in
  let s := if base =? 16 then hex_prefix s else s in
  c ← head s; _ ← digit base c;
  let '(v, s) := number base 0 s in Some (if neg then - v else v, s).

(** Up to 63 characters other than a quote ([n] of them). *)
Fixpoint scan_set (n : nat) (s : list Z) : list Z :=
  match n, s with
  | S n, c :: s => if c =? 34 then [] else c :: scan_set n s
  | _, _ => []
  end.

(** The four values, when the four conversions succeed; [None] when a number does not fit. *)
Definition scan_line (s : list Z) : option (option (Z * Z * Z * list Z)) :=
  match (s ← literal (text "mtd") s; scan_number 10 s) with
  | None => Some None
  | Some (mtdnum, s) =>
      if negb (s32 mtdnum =? mtdnum) then None else
      match (s ← literal (text ":") s; scan_number 16 (skip_spaces s)) with
      | None => Some None
      | Some (mtdsize, s) =>
          if 4294967295 <? Z.abs mtdsize then None else
          match scan_number 16 (skip_spaces s) with
          | None => Some None
          | Some (mtderasesize, s) =>
              if 4294967295 <? Z.abs mtderasesize then None else
              match literal [34] (skip_spaces s) with
              | None => Some None
              | Some s =>
                  let mtdname := scan_set 63 s in
                  Some (if (length mtdname =? 0)%nat then None
                        else Some (mtdnum, u32 mtdsize, u32 mtderasesize, mtdname))
              end
          end
      end
  end.

(** ** The table *)

Record MtdState := mkMtdState {
  partitions : option (list MtdPartition);   (* NULL before the first scan *)
  partitions_allocd : Z;
  partition_count : Z;
}.

Definition g_mtd_state : MtdState := mkMtdState None 0 (-1).

Definition nump : nat := 32.

(** What a string of C is in a buffer. *)
Fixpoint buf_string (s : list Z) : list Z :=
  match s with
  | c :: s => if c =? 0 then [] else c :: buf_string s
  | [] => []
  end.

(** The name is freed, and the entry marked unused. *)
Definition reset_entry (p : MtdPartition) : MtdPartition := mkMtdPartition (-1) (size p) (erase_size p) None.

(** The line up to its newline, and the newline. *)
Fixpoint eat_line (s : list Z) : list Z :=
  match s with
  | c :: s => if c =? 10 then s else eat_line s
  | [] => []
  end.

(** [while (nbytes > 0)]: the table, the count, and whether the end was reached; [strdup]
    says which allocations succeed, [None] is a store outside of the table. *)
Fixpoint scan_loop (strdup : list Z -> bool) (fuel : nat) (parts : list MtdPartition) (count : Z) (s : list Z)
    : option (list MtdPartition * Z * bool) :=
  match fuel with
  | O => None
  | S fuel =>
      if (0 <? length s)%nat then
        r ← scan_line (buf_string s);
        match r with
        | None => scan_loop strdup fuel parts count (eat_line s)
        | Some (mtdnum, mtdsize, mtderasesize, mtdname) =>
            if (mtdnum <? 0) || (Z.of_nat (length parts) <=? mtdnum) then None else
            let ok := strdup mtdname in
            let p := mkMtdPartition mtdnum mtdsize mtderasesize (if ok then Some mtdname else None) in
            let parts := <[Z.to_nat mtdnum := p]> parts in
            if ok then scan_loop strdup fuel parts (count + 1) (eat_line s) else Some (parts, count, false)
        end
      else Some (parts, count, true)
  end.

(** [sizeof(buf) - 1] *)
Definition buf_room : nat := 2047.

(** [fd] is the result of [open]; [read] fails, or gives what the file holds up to the size
    of the buffer. *)
Definition mtd_scan_partitions (malloc : bool) (strdup : list Z -> bool) (fd : Z) (proc : option (list Z)) (st : MtdState)
    : option (MtdState * Z) :=
  match (match partitions st with
         | None => if malloc then Some (replicate nump (mkMtdPartition 0 0 0 None), Z.of_nat nump) else None
         | Some parts => Some (parts, partitions_allocd st)
         end) with
  | None => Some (st, -1)
  | Some (parts, allocd) =>
      let parts := (reset_entry <$> take (Z.to_nat allocd) parts) ++ drop (Z.to_nat allocd) parts in
      let bail parts := Some (mkMtdState (Some parts) allocd (-1), -1) in
      if fd <? 0 then bail parts
      else match take buf_room <$> proc with
      | None => bail parts
      | Some buf =>
          '(parts, count, ok) ← scan_loop strdup (S (length buf)) parts 0 buf;
          if ok : bool then Some (mkMtdState (Some parts) allocd count, count) else bail parts
      end
  end.

(** [for (i = 0; i < g_mtd_state.partitions_allocd; i++)] *)
Fixpoint find_partition (parts : list MtdPartition) (nm : list Z) : option MtdPartition :=
  match parts with
  | [] => None
  | p :: parts =>
      if (0 <=? device_index p) && bool_decide (name p = Some nm) then Some p else find_partition parts nm
  end.

Definition mtd_find_partition_by_name (st : MtdState) (nm : list Z) : option MtdPartition :=
  parts ← partitions st; find_partition (take (Z.to_nat (partitions_allocd st)) parts) nm.

(** ** The file that is read *)

(** A line of /proc/mtd as the comment in [mtd_scan_partitions] shows it. *)
Record line := mkLine { num : Z; mtdsize : Z; mtderasesize : Z; mtdname : list Z }.

Definition hexdigit (v : Z) : Z := if v <? 10 then 48 + v else 87 + v.

Fixpoint digits (base : Z) (k : nat) (n : Z) : list Z :=
  match k with
  | O => []
  | S k => digits base k (n / base) ++ [hexdigit (n mod base)]
  end.

Definition print_line (l : line) : list Z :=
  text "mtd" ++ digits 10 (if num l <? 10 then 1 else 2) (num l) ++ text ": " ++ digits 16 8 (mtdsize l) ++ [32] ++
  digits 16 8 (mtderasesize l) ++ [32; 34] ++ mtdname l ++ [34; 10].

Definition header : list Z := text "dev:    size   erasesize  name".

Definition proc_mtd (ls : list line) : list Z := header ++ [10] ++ concat (print_line <$> ls).

Record line_ok (l : line) : Prop := {
  lo_num : 0 <= num l < Z.of_nat nump;
  lo_size : is_u32 (mtdsize l);
  lo_erasesize : is_u32 (mtderasesize l);
  lo_name : (0 < length (mtdname l) <= 63)%nat;
  lo_chars : Forall (fun c => c <> 0 /\ c <> 10 /\ c <> 34) (mtdname l);
}.

Definition partition_of (l : line) : MtdPartition :=
  mkMtdPartition (num l) (mtdsize l) (mtderasesize l) (Some (mtdname l)).

(** ** Numbers *)

Ltac bcases :=
  repeat match goal with
  | |- context [?a <=? ?b] => destruct (Z.leb_spec a b); cbn [andb orb]
  | |- context [?a <? ?b] => destruct (Z.ltb_spec a b); cbn [andb orb]
  | |- context [?a =? ?b] => destruct (Z.eqb_spec a b); cbn [andb orb]
  end.

Lemma digit_hexdigit base v : base <= 16 -> 0 <= v < base -> digit base (hexdigit v) = Some v.
Proof. intros Hb Hv. unfold digit, hexdigit. destruct (Z.ltb_spec v 10); bcases; try lia; f_equal; lia. Qed.

Lemma digits_chars base k n : 0 < base <= 16 ->
  Forall (fun c => (48 <= c <= 57 \/ 97 <= c <= 102) /\ is_Some (digit base c)) (digits base k n).
Proof.
  intros Hb. revert n. induction k as [|k IH]; intros n; cbn [digits]; [constructor|].
  apply Forall_app_2; [apply IH|]. constructor; [|constructor].
  pose proof (Z.mod_pos_bound n base ltac:(lia)). split; [unfold hexdigit; bcases; lia|].
  rewrite digit_hexdigit by lia. by eexists.
Qed.

Lemma number_digits base k n acc rest : 0 < base <= 16 ->
  number base acc (digits base k n ++ rest) = number base (acc * base ^ Z.of_nat k + n mod base ^ Z.of_nat k) rest.
Proof.
  intros Hb. revert n rest. induction k as [|k IH]; intros n rest; cbn [digits].
  { rewrite Z.mod_1_r. f_equal. lia. }
  rewrite <- app_assoc, IH. cbn [app number].
  rewrite digit_hexdigit by (try apply Z.mod_pos_bound; lia). f_equal.
  rewrite Nat2Z.inj_succ, Z.pow_succ_r, Z.rem_mul_r by lia. ring.
Qed.

Lemma scan_number_digits base k n c rest : base = 10 \/ base = 16 -> 0 <= n < base ^ Z.of_nat (S k) ->
  digit base c = None -> c <> 120 -> c <> 88 ->
  scan_number base (digits base (S k) n ++ c :: rest) = Some (n, c :: rest).
Proof.
  intros Hb Hn Hc Hx HX. assert (0 < base <= 16) as Hb' by lia.
  pose proof (digits_chars base (S k) n Hb') as Hch. pose proof (number_digits base (S k) n 0 (c :: rest) Hb') as Hnum.
  rewrite Z.mod_small in Hnum by lia.
  assert (exists d ds, digits base (S k) n = d :: ds) as (d & ds & Hd).
  { cbn [digits]. destruct (digits base k (n / base)); by eexists _, _. }
  rewrite Hd in *. apply Forall_cons in Hch as [[Hd1 [v Hv]] Hds].
  unfold scan_number. cbn [app skip_spaces].
  replace (isspace d) with false by (unfold isspace; bcases; lia).
  replace ((d =? 45) || (d =? 43)) with false by (bcases; lia). replace (d =? 45) with false by (bcases; lia).
  replace (if base =? 16 then _ else _) with (d :: ds ++ c :: rest).
  - cbn [head mbind option_bind]. rewrite Hv. cbn [mbind option_bind]. cbn [app] in Hnum. rewrite Hnum.
    cbn [number]. rewrite Hc. done.
  - destruct (base =? 16); [|done]. unfold hex_prefix. destruct ds as [|x ds]; cbn [app].
    + replace ((c =? 120) || (c =? 88)) with false by (bcases; lia). by rewrite andb_false_r.
    + apply Forall_cons in Hds as [[Hx1 _] _].
      replace ((x =? 120) || (x =? 88)) with false by (bcases; lia). by rewrite andb_false_r.
Qed.

(** ** Lines *)

Lemma literal_app l s : literal l (l ++ s) = Some s.
Proof. induction l as [|a l IH]; [done|]. cbn. by rewrite Z.eqb_refl. Qed.

Lemma scan_set_name n nm rest : (length nm <= n)%nat -> Forall (fun c => c <> 0 /\ c <> 10 /\ c <> 34) nm ->
  scan_set n (nm ++ 34 :: rest) = nm.
Proof.
  revert n. induction nm as [|c nm IH]; intros n Hn Hf; cbn [app].
  { by destruct n. }
  destruct n as [|n]; cbn in Hn; [lia|]. apply Forall_cons in Hf as [Hc Hf]. cbn [scan_set].
  destruct (Z.eqb_spec c 34); [lia|]. f_equal. apply IH; [lia | done].
Qed.

Lemma skip_spaces_twice s : skip_spaces (skip_spaces s) = skip_spaces s.
Proof. induction s as [|c s IH]; [done|]. cbn. destruct (isspace c) eqn:E; [done|]. cbn. by rewrite E. Qed.

Lemma scan_number_spaces base s : scan_number base (skip_spaces s) = scan_number base s.
Proof. unfold scan_number. by rewrite skip_spaces_twice. Qed.

Lemma scan_hex8 n c rest : is_u32 n -> c = 32 \/ c = 34 ->
  scan_number 16 (32 :: digits 16 8 n ++ c :: rest) = Some (n, c :: rest).
Proof.
  intros Hn Hc. change (scan_number 16 (32 :: ?s)) with (scan_number 16 s).
  apply scan_number_digits; [by right | unfold is_u32 in Hn; cbn; lia | by destruct Hc as [-> | ->] | lia..].
Qed.

Lemma scan_print l rest : line_ok l ->
  scan_line (print_line l ++ rest) = Some (Some (num l, mtdsize l, mtderasesize l, mtdname l)).
Proof.
  intros [Hn Hs He Hl Hc]. unfold nump in Hn. unfold print_line, scan_line. rewrite <- !app_assoc, literal_app. cbn [mbind option_bind].
  assert (exists k, (if num l <? 10 then 1%nat else 2%nat) = S k /\ num l < 10 ^ Z.of_nat (S k)) as (k & -> & Hk).
  { destruct (Z.ltb_spec (num l) 10); [exists 0%nat | exists 1%nat]; (split; [done|]); cbn; lia. }
  change (text ": ") with [58; 32]. cbn [app]. rewrite scan_number_digits; [| by left | lia | done..].
  rewrite (s32_id (num l)), Z.eqb_refl by (unfold is_s32; lia). cbn [negb].
  change (literal (text ":") (58 :: ?s)) with (Some s). cbn [mbind option_bind].
  rewrite !scan_number_spaces, scan_hex8 by (done || by left). unfold is_u32 in *.
  destruct (Z.ltb_spec 4294967295 (Z.abs (mtdsize l))); [lia|].
  rewrite scan_number_spaces, scan_hex8 by (done || by left).
  destruct (Z.ltb_spec 4294967295 (Z.abs (mtderasesize l))); [lia|].
  change (literal [34] (skip_spaces (32 :: 34 :: ?s))) with (Some s). cbv beta iota.
  rewrite scan_set_name, !u32_id by (done || lia). by destruct (Nat.eqb_spec (length (mtdname l)) 0); [lia|].
Qed.

Lemma buf_string_id s : Forall (fun c => c <> 0) s -> buf_string s = s.
Proof. induction 1 as [|c s Hc _ IH]; [done|]. cbn. destruct (Z.eqb_spec c 0); [done|]. by rewrite IH. Qed.

Lemma eat_line_app s rest : Forall (fun c => c <> 10) s -> eat_line (s ++ 10 :: rest) = rest.
Proof. induction 1 as [|c s Hc _ IH]; [done|]. cbn. by destruct (Z.eqb_spec c 10). Qed.

(** A line ends with its only newline, and has no other control character. *)
Lemma print_line_chars l : line_ok l -> exists s, print_line l = s ++ [10] /\ Forall (fun c => c <> 0 /\ c <> 10) s.
Proof.
  intros [_ _ _ _ Hc]. unfold print_line.
  exists (text "mtd" ++ digits 10 (if num l <? 10 then 1 else 2) (num l) ++ text ": " ++ digits 16 8 (mtdsize l) ++ [32] ++
    digits 16 8 (mtderasesize l) ++ [32; 34] ++ mtdname l ++ [34]).
  split; [by rewrite <- !app_assoc|].
  assert (forall base k n, 0 < base <= 16 -> Forall (fun c => c <> 0 /\ c <> 10) (digits base k n)) as Hd.
  { intros base k n Hb. eapply Forall_impl; [by apply digits_chars|]. intros c [??]. lia. }
  rewrite !Forall_app. repeat split; try (by apply Hd); try (by repeat constructor).
  eapply Forall_impl; [exact Hc|]. by intros c (? & ? & _).
Qed.

Lemma lines_chars ls : Forall line_ok ls -> Forall (fun c => c <> 0) (concat (print_line <$> ls)).
Proof.
  induction 1 as [|l ls Hl _ IH]; [constructor|]. cbn [fmap list_fmap concat]. apply Forall_app_2; [|done].
  destruct (print_line_chars l Hl) as (s & -> & Hs). apply Forall_app_2; [|by repeat constructor].
  eapply Forall_impl; [exact Hs|]. by intros c [??].
Qed.

(** ** The loop *)

Definition enter (parts : list MtdPartition) (l : line) : list MtdPartition :=
  <[Z.to_nat (num l) := partition_of l]> parts.

Lemma scan_loop_lines ls fuel parts count : Forall line_ok ls -> length parts = nump ->
  (length (concat (print_line <$> ls)) < fuel)%nat ->
  scan_loop (fun _ => true) fuel parts count (concat (print_line <$> ls)) =
    Some (foldl enter parts ls, count + Z.of_nat (length ls), true).
Proof.
  intros Hls. revert fuel parts count. induction Hls as [|l ls Hl Hls IH]; intros fuel parts count Hp Hf;
    (destruct fuel as [|fuel]; [lia|]); cbn [scan_loop fmap list_fmap concat length foldl].
  { cbn. do 3 f_equal. lia. }
  destruct (print_line_chars l Hl) as (s & Es & Hs). cbn [fmap list_fmap concat] in Hf.
  assert (0 < length (print_line l))%nat as Hpos by (rewrite Es, length_app; cbn; lia).
  rewrite length_app in Hf. rewrite length_app, (proj2 (Nat.ltb_lt _ _)) by lia.
  rewrite buf_string_id by (by apply (lines_chars (l :: ls)); constructor).
  rewrite scan_print by done. cbn [mbind option_bind]. pose proof (lo_num _ Hl) as Hn.
  rewrite Hp. destruct (Z.ltb_spec (num l) 0), (Z.leb_spec (Z.of_nat nump) (num l)); [lia..|]. cbn [orb].
  rewrite Es, <- app_assoc. cbn [app]. rewrite eat_line_app.
  - rewrite (IH fuel) by (try lia; by rewrite length_insert). unfold enter, partition_of. do 3 f_equal. lia.
  - eapply Forall_impl; [exact Hs|]. by intros c [??].
Qed.

(** The header line matches nothing. *)
Lemma header_chars : exists s, header = 100 :: s /\ Forall (fun c => c <> 0 /\ c <> 10) s.
Proof. eexists. split; [by vm_compute|]. by repeat constructor. Qed.

Lemma scan_other c s : c <> 109 -> scan_line (c :: s) = Some None.
Proof.
  intros Hc. unfold scan_line. change (text "mtd") with [109; 116; 100]. cbn [literal].
  by destruct (Z.eqb_spec 109 c) as [<-|].
Qed.

Lemma scan_proc ls parts : Forall line_ok ls -> length parts = nump ->
  scan_loop (fun _ => true) (S (length (proc_mtd ls))) parts 0 (proc_mtd ls) =
    Some (foldl enter parts ls, Z.of_nat (length ls), true).
Proof.
  intros Hls Hp. unfold proc_mtd. destruct header_chars as (h & -> & Hh). rewrite !length_app. cbn [length app scan_loop].
  rewrite buf_string_id, scan_other; [cbn [mbind option_bind]| done |].
  - change (100 :: h ++ ?s) with ((100 :: h) ++ s). rewrite eat_line_app; [apply scan_loop_lines; [done..|lia]|].
    constructor; [done|]. eapply Forall_impl; [exact Hh|]. by intros c [??].
  - constructor; [done|]. apply Forall_app_2; [|constructor; [done | by apply lines_chars]].
    eapply Forall_impl; [exact Hh|]. by intros c [??].
Qed.

(** ** The table that results *)

Lemma entered_length ls parts : length (foldl enter parts ls) = length parts.
Proof. revert parts. induction ls as [|l ls IH]; intros parts; [done|]. cbn. rewrite IH. apply length_insert. Qed.

Lemma entered_from ls parts p : p ∈ foldl enter parts ls -> p ∈ parts \/ exists l, l ∈ ls /\ p = partition_of l.
Proof.
  revert parts. induction ls as [|l ls IH]; intros parts Hp; cbn in Hp; [by left|].
  destruct (IH _ Hp) as [H|(l' & H & ->)]; [|right; exists l'; by rewrite elem_of_cons; auto].
  apply list_elem_of_lookup in H as [i Hi]. apply list_lookup_insert_Some in Hi as [(_ & <- & _)|[_ Hi]].
  - right. exists l. by rewrite elem_of_cons; auto.
  - left. by apply list_elem_of_lookup_2 in Hi.
Qed.

Lemma entered_other ls parts i : Forall line_ok ls -> ~ Z.of_nat i ∈ num <$> ls -> foldl enter parts ls !! i = parts !! i.
Proof.
  intros Hls. revert parts. induction Hls as [|l ls Hl Hls IH]; intros parts Hi; [done|]. cbn in *.
  rewrite elem_of_cons in Hi. rewrite IH by tauto. pose proof (lo_num _ Hl). apply list_lookup_insert_ne.
  intros H1. apply Hi. left. lia.
Qed.

Lemma entered_there ls parts l : Forall line_ok ls -> NoDup (num <$> ls) -> length parts = nump -> l ∈ ls ->
  partition_of l ∈ foldl enter parts ls.
Proof.
  intros Hls. revert parts. induction Hls as [|l' ls Hl' Hls IH]; intros parts Hn Hp Hin; [by apply not_elem_of_nil in Hin|].
  cbn in *. apply NoDup_cons in Hn as [Hn1 Hn2]. apply elem_of_cons in Hin as [-> |Hin].
  2:{ apply IH; [done | by unfold enter; rewrite length_insert | done]. }
  pose proof (lo_num _ Hl'). apply (list_elem_of_lookup_2 _ (Z.to_nat (num l'))).
  rewrite entered_other; [|done | by rewrite Z2Nat.id by lia]. apply list_lookup_insert_eq. lia.
Qed.

Lemma find_partition_spec parts nm :
  match find_partition parts nm with
  | Some p => p ∈ parts /\ 0 <= device_index p /\ name p = Some nm
  | None => forall p, p ∈ parts -> 0 <= device_index p -> name p <> Some nm
  end.
Proof.
  induction parts as [|p parts IH]; cbn [find_partition]; [by intros ? ?%not_elem_of_nil|].
  destruct (Z.leb_spec 0 (device_index p)) as [H0|H0]; cbn [andb].
  - case_bool_decide; [by rewrite elem_of_cons; auto|]. destruct (find_partition parts nm).
    + destruct IH as (? & ?). rewrite elem_of_cons. auto.
    + intros q [-> |Hq]%elem_of_cons; auto.
  - destruct (find_partition parts nm).
    + destruct IH as (? & ?). rewrite elem_of_cons. auto.
    + intros q [-> |Hq]%elem_of_cons; [lia | auto].
Qed.

(** The table is absent, or has its 32 entries. *)
Definition table_ok (st : MtdState) : Prop :=
  match partitions st with
  | None => True
  | Some parts => length parts = nump /\ partitions_allocd st = Z.of_nat nump
  end.

(** After a scan of /proc/mtd a partition is found by a name exactly if a line has that
    name, and with the number and the sizes of that line (C25); whatever an earlier scan left
    in the table is gone, and the result is the number of lines. *)
Theorem mtd_scan_finds ls st : Forall line_ok ls -> NoDup (num <$> ls) -> (length (proc_mtd ls) <= buf_room)%nat ->
  table_ok st ->
  exists st', mtd_scan_partitions true (fun _ => true) 3 (Some (proc_mtd ls)) st = Some (st', Z.of_nat (length ls)) /\
    table_ok st' /\
    forall nm, match mtd_find_partition_by_name st' nm with
    | Some p => exists l, l ∈ ls /\ mtdname l = nm /\ p = partition_of l
    | None => forall l, l ∈ ls -> mtdname l <> nm
    end.
Proof.
  intros Hls Hnd Hroom Hst. unfold mtd_scan_partitions.
  set (setup := match partitions st with Some _ => _ | None => _ end).
  assert (exists parts, setup = Some (parts, Z.of_nat nump) /\ length parts = nump) as (parts & -> & Hp).
  { unfold setup, table_ok in *. destruct (partitions st) as [parts|]; [|by eexists].
    destruct Hst as [? ->]. by eexists. }
  rewrite Nat2Z.id, take_ge, drop_ge, app_nil_r by lia. set (clean := reset_entry <$> parts).
  assert (length clean = nump) as Hc by (unfold clean; by rewrite length_fmap).
  cbn [Z.ltb Z.compare fmap option_fmap option_map]. rewrite take_ge by done.
  rewrite scan_proc by done. cbn [mbind option_bind]. eexists. split; [done|]. set (final := foldl enter clean ls).
  assert (length final = nump) as Hf by (unfold final; by rewrite entered_length). split; [done|].
  intros nm. unfold mtd_find_partition_by_name. cbn [partitions partitions_allocd mbind option_bind].
  rewrite Nat2Z.id, take_ge by lia. pose proof (find_partition_spec final nm) as H.
  destruct (find_partition final nm) as [p|].
  - destruct H as (Hin & H0 & Hnm). apply entered_from in Hin as [Hin|(l & Hl & ->)].
    + apply list_elem_of_fmap in Hin as (q & -> & _). cbn in H0. lia.
    + exists l. split; [done|]. split; [by injection Hnm | done].
  - intros l Hl <-. apply (H (partition_of l)); [by apply entered_there | | done].
    rewrite Forall_forall in Hls. pose proof (lo_num _ (Hls l Hl)). cbn. lia.
Qed.

Definition sample_lines : list line :=
  [mkLine 4 67108864 131072 (text "system"); mkLine 1 4194304 131072 (text "misc")].

Lemma mtd_scan_finds_witness : exists st',
  mtd_scan_partitions true (fun _ => true) 3 (Some (proc_mtd sample_lines)) g_mtd_state = Some (st', 2) /\
  mtd_find_partition_by_name st' (text "misc") = Some (mkMtdPartition 1 4194304 131072 (Some (text "misc"))).
Proof.
  destruct (mtd_scan_finds sample_lines g_mtd_state) as (st' & Hs & _ & Hfind).
  - repeat constructor; try (vm_compute; congruence); repeat constructor; by vm_compute.
  - by apply (bool_decide_unpack _).
  - vm_compute. lia.
  - done.
  - exists st'. split; [exact Hs|]. clear Hs. specialize (Hfind (text "misc")).
    destruct (mtd_find_partition_by_name st' (text "misc")) as [p|].
    + destruct Hfind as (l & Hl & Hn & ->). apply elem_of_cons in Hl as [-> |Hl]; [discriminate Hn|].
      apply list_elem_of_singleton in Hl as ->. reflexivity.
    + destruct (Hfind (mkLine 1 4194304 131072 (text "misc"))); [|reflexivity].
      apply elem_of_cons. right. by apply list_elem_of_singleton.
Defined.

(** The number of a line is used as an index before anything has been found out about it:
    a line for a partition above 31, which the file has room for, is stored past the end of
    the table. *)
Lemma mtd_scan_overruns_the_table :
  scan_line (print_line (mkLine 32 4096 4096 (text "x"))) = Some (Some (32, 4096, 4096, text "x")) /\
  (length (proc_mtd [mkLine 32 4096 4096 (text "x")]) <= buf_room)%nat /\
  mtd_scan_partitions true (fun _ => true) 3 (Some (proc_mtd [mkLine 32 4096 4096 (text "x")])) g_mtd_state = None.
Proof. split; [done|]. split; [vm_compute; lia | by vm_compute]. Qed.
