(* ===== verification/BsDiff.v ===== *)
(** * Binary patches: bsdiff and bspatch

    Model of [recovery/applypatch/bsdiff.c] (the generator, run on the build
    host) and [recovery/applypatch/bspatch.c] (the applier, run on the device).

    Every array access goes through [rd] or [write_at], which fail outside the
    array, so a result also certifies that no access was out of bounds.  The
    width of [off_t] is the argument [w] (32 on the device, 32 or 64 on the
    host).  The bzip2 library is not part of the repository: it is the class
    [Bzip2], with the documented behaviour the code relies on as its laws. *)

From S2P Require Import Prelude.

(** ** Integers of the patch format *)

Definition off (w x : Z) : Z := swrap w x.

Definition byte_at (buf : list Z) (i : nat) : Z := nth i buf 0.

Definition offtin (w : Z) (buf : list Z) : Z :=
  let y := Z.land (byte_at buf 7) 0x7F in
  let y := off w (off w (y * 256) + byte_at buf 6) in
  let y := off w (off w (y * 256) + byte_at buf 5) in
  let y := off w (off w (y * 256) + byte_at buf 4) in
  let y := off w (off w (y * 256) + byte_at buf 3) in
  let y := off w (off w (y * 256) + byte_at buf 2) in
  let y := off w (off w (y * 256) + byte_at buf 1) in
  let y := off w (off w (y * 256) + byte_at buf 0) in
  if truthy (Z.land (byte_at buf 7) 0x80) then off w (- y) else y.

Definition offtout (w x : Z) : list Z :=
  let y := if x <? 0 then off w (- x) else x in
  let b0 := u8 (Z.rem y 256) in let y := y - b0 in
  let y := Z.quot y 256 in let b1 := u8 (Z.rem y 256) in let y := y - b1 in
  let y := Z.quot y 256 in let b2 := u8 (Z.rem y 256) in let y := y - b2 in
  let y := Z.quot y 256 in let b3 := u8 (Z.rem y 256) in let y := y - b3 in
  let y := Z.quot y 256 in let b4 := u8 (Z.rem y 256) in let y := y - b4 in
  let y := Z.quot y 256 in let b5 := u8 (Z.rem y 256) in let y := y - b5 in
  let y := Z.quot y 256 in let b6 := u8 (Z.rem y 256) in let y := y - b6 in
  let y := Z.quot y 256 in let b7 := u8 (Z.rem y 256) in
  let b7 := if x <? 0 then Z.lor b7 0x80 else b7 in
  [b0; b1; b2; b3; b4; b5; b6; b7].

(** ** The bzip2 library *)

Definition BZ_OK : Z := 0.
Definition BZ_STREAM_END : Z := 4.

(** A decompression stream opened on the bytes at [next_in], of which
    [avail_in] belong to it; [bz_decompress s avail_out] is one call of
    [BZ2_bzDecompress]: the bytes it produced, the stream after it, and its
    result. *)
Class Bzip2 := {
  stream : Type;
  bz_init : list Z -> Z -> stream;
  bz_decompress : stream -> Z -> list Z * stream * Z;
  bz_compress : list Z -> list Z
}.

(** Documented behaviour: opened on a complete compressed block, followed by
    [extra] other bytes, a stream holds the bytes that were compressed; a call produces as many of them as there is
    room for and reports BZ_OK or, at the end, BZ_STREAM_END. *)
Class Bzip2Laws (B : Bzip2) := {
  bz_content : stream -> list Z -> Prop;
  bz_init_content : forall c rest extra, 0 <= extra <= Z.of_nat (length rest) ->
    bz_content (bz_init (bz_compress c ++ rest) (Z.of_nat (length (bz_compress c)) + extra)) c;
  bz_decompress_content : forall s c n,
    bz_content s c -> 0 < n -> n <= Z.of_nat (length c) ->
    exists s' err, bz_decompress s n = (take (Z.to_nat n) c, s', err) /\
      (err = BZ_OK \/ err = BZ_STREAM_END) /\ bz_content s' (drop (Z.to_nat n) c)
}.

(** ** Applying a patch (bspatch.c) *)

(** [l[i]] *)
Definition rd (l : list Z) (i : Z) : option Z :=
  if 0 <=? i then l !! Z.to_nat i else None.

(** Stores [bytes] at [buf + pos]. *)
Definition write_at (buf : list Z) (pos : Z) (bytes : list Z) : option (list Z) :=
  if (0 <=? pos) && (pos + Z.of_nat (length bytes) <=? Z.of_nat (length buf)) then
    Some (take (Z.to_nat pos) buf ++ bytes ++
          drop (Z.to_nat pos + length bytes) buf)
  else None.

Inductive patch_result (A : Type) :=
  | POk (a : A)
  | PFail (ret : Z)       (* the C function reports an error *)
  | PMemoryError          (* an access outside a buffer *)
  | PNoFuel.              (* still running when the fuel is spent *)
Arguments POk {A} a.
Arguments PFail {A} ret.
Arguments PMemoryError {A}.
Arguments PNoFuel {A}.

Definition pbind {A B} (m : patch_result A) (k : A -> patch_result B) : patch_result B :=
  match m with
  | POk a => k a
  | PFail r => PFail r
  | PMemoryError => PMemoryError
  | PNoFuel => PNoFuel
  end.
Notation "'let!' x ':=' m 'in' k" := (pbind m (fun x => k))
  (at level 10, x pattern, k at level 200).

Definition of_option {A} (o : option A) : patch_result A :=
  match o with Some a => POk a | None => PMemoryError end.

Section Patch.
Context {B : Bzip2} (w : Z).

(** The loop of [FillBuffer]: the bytes stored so far, the stream and the C
    result. *)
Fixpoint FillBuffer_loop (fuel : nat) (avail_out : Z) (s : stream) (acc : list Z)
    : option (list Z * stream * Z) :=
  match fuel with
  | O => None
  | S fuel =>
      if 0 <? avail_out then
        let '(out, s, bzerr) := bz_decompress s avail_out in
        if negb (bzerr =? BZ_OK) && negb (bzerr =? BZ_STREAM_END) then
          Some (acc ++ out, s, -1)
        else FillBuffer_loop fuel (avail_out - Z.of_nat (length out)) s (acc ++ out)
      else Some (acc, s, 0)
  end.

(** [FillBuffer(buffer + pos, size, stream)]: [avail_out] is unsigned. *)
Definition FillBuffer (fuel : nat) (buf : list Z) (pos size : Z) (s : stream)
    : patch_result (list Z * stream * Z) :=
  match FillBuffer_loop fuel (u32 size) s [] with
  | None => PNoFuel
  | Some (bytes, s, ret) => let! buf := of_option (write_at buf pos bytes) in POk (buf, s, ret)
  end.

(** [for (i = 0; i < ctrl[0]; ++i) ... new_data[newpos+i] += old_data[oldpos+i]] *)
Fixpoint add_old (n : nat) (i : Z) (old buf : list Z) (oldpos newpos : Z)
    : option (list Z) :=
  match n with
  | O => Some buf
  | S n =>
      if (0 <=? oldpos + i) && (oldpos + i <? Z.of_nat (length old)) then
        o ← rd old (oldpos + i); d ← rd buf (newpos + i);
        buf ← write_at buf (newpos + i) [u8 (d + o)];
        add_old n (i + 1) old buf oldpos newpos
      else add_old n (i + 1) old buf oldpos newpos
  end.

(** The [while (newpos < *new_size)] loop. *)
Fixpoint patch_loop (fuel fill_fuel : nat) (old : list Z) (new_size : Z)
    (cs ds es : stream) (buf : list Z) (oldpos newpos : Z) : patch_result (list Z) :=
  match fuel with
  | O => PNoFuel
  | S fuel =>
      if newpos <? new_size then
        let! (cbuf, cs, r) := FillBuffer fill_fuel (replicate 24 0) 0 24 cs in
        if negb (r =? 0) then PFail 1 else
        let c0 := offtin w cbuf in
        let c1 := offtin w (drop 8 cbuf) in
        let c2 := offtin w (drop 16 cbuf) in
        if new_size <? off w (newpos + c0) then PFail 1 else
        let! (buf, ds, r) := FillBuffer fill_fuel buf newpos (s32 c0) ds in
        if negb (r =? 0) then PFail 1 else
        let! buf := of_option (add_old (Z.to_nat c0) 0 old buf oldpos newpos) in
        let newpos := off w (newpos + c0) in
        let oldpos := off w (oldpos + c0) in
        if new_size <? off w (newpos + c1) then PFail 1 else
        let! (buf, es, r) := FillBuffer fill_fuel buf newpos (s32 c1) es in
        if negb (r =? 0) then PFail 1 else
        patch_loop fuel fill_fuel old new_size cs ds es buf
          (off w (oldpos + c2)) (off w (newpos + c1))
      else POk buf
  end.

Definition BSDIFF40 : list Z := [66; 83; 68; 73; 70; 70; 52; 48].

(** [fresh] is what [malloc] returned ([None]: NULL). *)
Definition ApplyBSDiffPatchMem (fuel fill_fuel : nat) (old : list Z)
    (patch : list Z) (patch_offset : Z) (fresh : Z -> option (list Z))
    : patch_result (list Z) :=
  let header := drop (Z.to_nat patch_offset) patch in
  if (length header <? 32)%nat then PMemoryError else
  if negb (bool_decide (take 8 header = BSDIFF40)) then PFail 1 else
  let ctrl_len := offtin w (drop 8 header) in
  let data_len := offtin w (drop 16 header) in
  let new_size := offtin w (drop 24 header) in
  if (ctrl_len <? 0) || (data_len <? 0) || (new_size <? 0) then PFail 1 else
  let cstream := bz_init (drop 32 header) (u32 ctrl_len) in
  let dstream := bz_init (drop (32 + Z.to_nat ctrl_len) header) (u32 data_len) in
  let estream := bz_init (drop (32 + Z.to_nat ctrl_len + Z.to_nat data_len) header)
    (u32 (Z.of_nat (length patch) - (patch_offset + 32 + ctrl_len + data_len))) in
  match fresh new_size with
  | None => PFail 1
  | Some buf => patch_loop fuel fill_fuel old new_size cstream dstream estream buf 0 0
  end.

(** The bytes given to [sink] and the C result; when that is 0 the same bytes
    have been hashed into [ctx]. *)
Definition ApplyBSDiffPatch (fuel fill_fuel : nat) (old patch : list Z)
    (patch_offset : Z) (fresh : Z -> option (list Z)) (sink : list Z -> Z)
    : patch_result (list Z * Z) :=
  match ApplyBSDiffPatchMem fuel fill_fuel old patch patch_offset fresh with
  | POk new =>
      if sink new <? Z.of_nat (length new) then POk (new, 1) else POk (new, 0)
  | PFail _ => PFail (-1)
  | PMemoryError => PMemoryError
  | PNoFuel => PNoFuel
  end.
End Patch.

(** ** Generating a patch (bsdiff.c)

    Offsets stay below the sizes of the two files, so [off_t] arithmetic is
    written on [Z] here; only the integers stored in the patch are encoded at
    width [w]. *)

(** [p + i] for a pointer to the start of [l]. *)
Definition suffix (l : list Z) (i : Z) : option (list Z) :=
  if (0 <=? i) && (i <=? Z.of_nat (length l)) then Some (drop (Z.to_nat i) l) else None.

Fixpoint matchlen (old new : list Z) : Z :=
  match old, new with
  | o :: old, n :: new => if o =? n then 1 + matchlen old new else 0
  | _, _ => 0
  end.

(** Sign of [memcmp(a, b, MIN(|a|, |b|))]. *)
Fixpoint memcmp (a b : list Z) : Z :=
  match a, b with
  | x :: a, y :: b => if x <? y then -1 else if y <? x then 1 else memcmp a b
  | _, _ => 0
  end.

(** The match length and [*pos]. *)
Fixpoint search (fuel : nat) (I old new : list Z) (st en : Z) : option (Z * Z) :=
  match fuel with
  | O => None
  | S fuel =>
      if en - st <? 2 then
        ist ← rd I st; ien ← rd I en;
        ost ← suffix old ist; oen ← suffix old ien;
        let x := matchlen ost new in
        let y := matchlen oen new in
        if y <? x then Some (x, ist) else Some (y, ien)
      else
        let x := st + (en - st) / 2 in
        ix ← rd I x; ox ← suffix old ix;
        if memcmp ox new <? 0 then search fuel I old new x en
        else search fuel I old new st x
  end.

Section Diff.
Context (I old new : list Z).
Let oldsize := Z.of_nat (length old).
Let newsize := Z.of_nat (length new).

(** [(p < oldsize) && (old[p] == new[q])] *)
Definition same (p q : Z) : option bool :=
  if p <? oldsize then o ← rd old p; n ← rd new q; Some (o =? n) else Some false.

(** [for(;scsc<scan+len;scsc++) if (...) oldscore++], [n] iterations. *)
Fixpoint count_score (n : nat) (scsc lastoffset oldscore : Z) : option Z :=
  match n with
  | O => Some oldscore
  | S n =>
      b ← same (scsc + lastoffset) scsc;
      count_score n (scsc + 1) lastoffset (if (b : bool) then oldscore + 1 else oldscore)
  end.

(** The loop that looks for the next match: scan, len, pos, oldscore after it. *)
Fixpoint scan_loop (fuel : nat) (scan scsc len pos lastoffset oldscore : Z)
    : option (Z * Z * Z * Z) :=
  match fuel with
  | O => None
  | S fuel =>
      if scan <? newsize then
        tail ← suffix new scan;
        '(len, pos) ← search (S (length old)) I old tail 0 oldsize;
        oldscore ← count_score (Z.to_nat (scan + len - scsc)) scsc lastoffset oldscore;
        let scsc := Z.max scsc (scan + len) in
        if ((len =? oldscore) && negb (len =? 0)) || (oldscore + 8 <? len) then
          Some (scan, len, pos, oldscore)
        else
          b ← same (scan + lastoffset) scan;
          scan_loop fuel (scan + 1) scsc len pos lastoffset
            (if (b : bool) then oldscore - 1 else oldscore)
      else Some (scan, len, pos, oldscore)
  end.

(** Forward extension of the previous match: [lenf]. *)
Fixpoint forward (fuel : nat) (scan lastscan lastpos i s Sf lenf : Z) : option Z :=
  match fuel with
  | O => None
  | S fuel =>
      if (lastscan + i <? scan) && (lastpos + i <? oldsize) then
        o ← rd old (lastpos + i); n ← rd new (lastscan + i);
        let s := if o =? n then s + 1 else s in
        let i := i + 1 in
        if Sf * 2 - lenf <? s * 2 - i then forward fuel scan lastscan lastpos i s s i
        else forward fuel scan lastscan lastpos i s Sf lenf
      else Some lenf
  end.

(** Backward extension of the new match: [lenb]. *)
Fixpoint backward (fuel : nat) (scan lastscan pos i s Sb lenb : Z) : option Z :=
  match fuel with
  | O => None
  | S fuel =>
      if (lastscan + i <=? scan) && (i <=? pos) then
        o ← rd old (pos - i); n ← rd new (scan - i);
        let s := if o =? n then s + 1 else s in
        if Sb * 2 - lenb <? s * 2 - i then backward fuel scan lastscan pos (i + 1) s s i
        else backward fuel scan lastscan pos (i + 1) s Sb lenb
      else Some lenb
  end.

(** Where to cut when the two extensions overlap: [lens]; [n] iterations left. *)
Fixpoint cut_overlap (n : nat) (fnew fold bnew bold i s Ss lens : Z) : option Z :=
  match n with
  | O => Some lens
  | S n =>
      a ← rd new (fnew + i); b ← rd old (fold + i);
      let s := if a =? b then s + 1 else s in
      c ← rd new (bnew + i); d ← rd old (bold + i);
      let s := if c =? d then s - 1 else s in
      if Ss <? s then cut_overlap n fnew fold bnew bold (i + 1) s s (i + 1)
      else cut_overlap n fnew fold bnew bold (i + 1) s Ss lens
  end.

(** [db[dblen+i] = new[lastscan+i] - old[lastpos+i]] *)
Fixpoint diff_bytes (n : nat) (lastscan lastpos i : Z) : option (list Z) :=
  match n with
  | O => Some []
  | S n =>
      a ← rd new (lastscan + i); b ← rd old (lastpos + i);
      l ← diff_bytes n lastscan lastpos (i + 1); Some (u8 (a - b) :: l)
  end.

(** [eb[eblen+i] = new[start+i]] *)
Fixpoint extra_bytes (n : nat) (start i : Z) : option (list Z) :=
  match n with
  | O => Some []
  | S n => a ← rd new (start + i); l ← extra_bytes n start (i + 1); Some (a :: l)
  end.

(** Variables of the main loop; [ctrl] lists the triples written so far. *)
Record diff_state := DiffState {
  scan : Z; len : Z; pos : Z;
  lastscan : Z; lastpos : Z; lastoffset : Z;
  ctrl : list (Z * Z * Z);
  db : list Z; eb : list Z
}.

(** The extension lengths [(lenf, lenb)] after overlap resolution. *)
Definition extend (scan pos lastscan lastpos : Z) : option (Z * Z) :=
  lenf ← forward (S (length new)) scan lastscan lastpos 0 0 0 0;
  lenb ← (if scan <? newsize
          then backward (S (length new)) scan lastscan pos 1 0 0 0 else Some 0);
  if scan - lenb <? lastscan + lenf then
    let overlap := (lastscan + lenf) - (scan - lenb) in
    lens ← cut_overlap (Z.to_nat overlap)
             (lastscan + lenf - overlap) (lastpos + lenf - overlap)
             (scan - lenb) (pos - lenb) 0 0 0 0;
    Some (lenf + lens - overlap, lenb - lens)
  else Some (lenf, lenb).

(** One iteration of [while(scan<newsize)]. *)
Definition diff_step (st : diff_state) : option diff_state :=
  let scan0 := scan st + len st in
  '(scan, len, pos, oldscore) ←
     scan_loop (S (length new)) scan0 scan0 (len st) (pos st) (lastoffset st) 0;
  if negb (len =? oldscore) || (scan =? newsize) then
    '(lenf, lenb) ← extend scan pos (lastscan st) (lastpos st);
    let nextra := (scan - lenb) - (lastscan st + lenf) in
    d ← diff_bytes (Z.to_nat lenf) (lastscan st) (lastpos st) 0;
    e ← extra_bytes (Z.to_nat nextra) (lastscan st + lenf) 0;
    Some (DiffState scan len pos (scan - lenb) (pos - lenb) (pos - scan)
            (ctrl st ++ [(lenf, nextra, (pos - lenb) - (lastpos st + lenf))])
            (db st ++ d) (eb st ++ e))
  else
    Some (DiffState scan len pos (lastscan st) (lastpos st) (lastoffset st)
            (ctrl st) (db st) (eb st)).

Fixpoint diff_loop (fuel : nat) (st : diff_state) : option diff_state :=
  match fuel with
  | O => None
  | S fuel =>
      if scan st <? newsize then st ← diff_step st; diff_loop fuel st else Some st
  end.
End Diff.

(** The control block: each triple as three encoded integers. *)
Definition encode_ctrl (w : Z) (c : list (Z * Z * Z)) : list Z :=
  c ≫= fun '(x, y, z) => offtout w x ++ offtout w y ++ offtout w z.

(** The contents of the patch file.  [pos] starts uninitialised in the C code;
    it is written before it is read, its initial value here is 0. *)
Definition bsdiff `{B : Bzip2} (w : Z) (I old new : list Z) : option (list Z) :=
  st ← diff_loop I old new (S (S (length new))) (DiffState 0 0 0 0 0 0 [] [] []);
  let c := bz_compress (encode_ctrl w (ctrl st)) in
  let d := bz_compress (db st) in
  let e := bz_compress (eb st) in
  Some (BSDIFF40 ++ offtout w (Z.of_nat (length c)) ++ offtout w (Z.of_nat (length d)) ++
        offtout w (Z.of_nat (length new)) ++ c ++ d ++ e).

(** ** Encoding of integers *)

Lemma swrap_id w x : 32 <= w -> - 2 ^ 31 <= x < 2 ^ 31 -> swrap w x = x.
Proof.
  intros Hw Hx. unfold swrap.
  assert (2 ^ 31 <= 2 ^ (w - 1)) by (apply Z.pow_le_mono_r; lia).
  assert (2 ^ w = 2 * 2 ^ (w - 1)) as ->.
  { replace w with (1 + (w - 1)) at 1 by lia. rewrite Z.pow_add_r by lia. lia. }
  rewrite Z.mod_small; lia.
Qed.

Lemma rem_byte y : 0 <= y -> u8 (Z.rem y 256) = y mod 256.
Proof. intros. rewrite Z.rem_mod_nonneg by lia. by apply u8_id, Z.mod_pos_bound. Qed.

Lemma quot_byte y : 0 <= y -> Z.quot (y - y mod 256) 256 = y / 256.
Proof.
  intros. pose proof (Z.mod_pos_bound y 256). pose proof (Z.div_mod y 256).
  rewrite Z.quot_div_nonneg by lia. symmetry. apply Z.div_unique with 0; lia.
Qed.

Lemma length_offtout w x : length (offtout w x) = 8%nat.
Proof. reflexivity. Qed.

Lemma offtout_bytes w x : 32 <= w -> - 2 ^ 31 < x < 2 ^ 31 ->
  exists b0 b1 b2 b3, offtout w x = [b0; b1; b2; b3; 0; 0; 0; if x <? 0 then 0x80 else 0] /\
    is_u8 b0 /\ is_u8 b1 /\ is_u8 b2 /\ is_u8 b3 /\
    b3 * 16777216 + b2 * 65536 + b1 * 256 + b0 = Z.abs x.
Proof.
  intros Hw Hx. unfold offtout.
  assert ((if x <? 0 then off w (- x) else x) = Z.abs x) as ->.
  { unfold off. destruct (Z.ltb_spec x 0); [rewrite swrap_id|]; lia. }
  set (y := Z.abs x). assert (0 <= y < 2 ^ 31) as Hy by lia.
  assert (forall k, 0 <= k -> 0 <= y / 256 ^ k) as Hq.
  { intros. apply Z.div_pos; lia. }
  rewrite !(rem_byte y), !(quot_byte y) by lia.
  assert (0 <= y / 256) by (apply Z.div_pos; lia).
  rewrite !(rem_byte (y / 256)), !(quot_byte (y / 256)) by lia.
  assert (0 <= y / 256 / 256) by (apply Z.div_pos; lia).
  rewrite !(rem_byte (y / 256 / 256)), !(quot_byte (y / 256 / 256)) by lia.
  assert (0 <= y / 256 / 256 / 256) by (apply Z.div_pos; lia).
  rewrite !(rem_byte (y / 256 / 256 / 256)), !(quot_byte (y / 256 / 256 / 256)) by lia.
  assert (y / 256 / 256 / 256 / 256 = 0) as ->.
  { rewrite !Z.div_div by lia. apply Z.div_small. lia. }
  exists (y mod 256), (y / 256 mod 256), (y / 256 / 256 mod 256),
    (y / 256 / 256 / 256 mod 256).
  split; [by destruct (x <? 0)|].
  do 4 (split; [by apply Z.mod_pos_bound|]).
  pose proof (Z.div_mod y 256). pose proof (Z.div_mod (y / 256) 256).
  pose proof (Z.div_mod (y / 256 / 256) 256).
  rewrite (Z.mod_small (y / 256 / 256 / 256)); [lia|].
  split; [done|]. rewrite !Z.div_div by lia. apply Z.div_lt_upper_bound; lia.
Qed.

Lemma off_step w y b : 32 <= w -> 0 <= y -> 0 <= b -> y * 256 + b < 2 ^ 31 ->
  swrap w (swrap w (y * 256) + b) = y * 256 + b.
Proof. intros. rewrite !swrap_id; rewrite ?swrap_id; lia. Qed.

(** Integers of the patch format survive the trip: what [offtout] writes,
    [offtin] reads back, for every value that fits a 32-bit [off_t] and
    whatever the [off_t] widths of the two programs. *)
Lemma off_roundtrip w w' x rest : 32 <= w -> 32 <= w' -> - 2 ^ 31 < x < 2 ^ 31 ->
  offtin w' (offtout w x ++ rest) = x.
Proof.
  intros Hw Hw' Hx.
  destruct (offtout_bytes w x Hw Hx) as (b0 & b1 & b2 & b3 & -> & H0 & H1 & H2 & H3 & Hsum).
  unfold offtin, byte_at, off, is_u8 in *. cbn [app nth].
  assert (Z.land (if x <? 0 then 128 else 0) 127 = 0) as -> by (by destruct (x <? 0)).
  assert (swrap w' (swrap w' (0 * 256) + 0) = 0) as Hz by (by apply off_step).
  rewrite !Hz. rewrite (off_step w' 0 b3), (off_step w' _ b2), (off_step w' _ b1),
    (off_step w' _ b0) by lia.
  rewrite swrap_id by lia. destruct (Z.ltb_spec x 0);
    [change (truthy (Z.land 128 128)) with true
    |change (truthy (Z.land 0 128)) with false]; cbv iota; lia.
Qed.

(** ** Array accesses *)

Lemma rd_lookup l i x : rd l i = Some x <-> 0 <= i /\ l !! Z.to_nat i = Some x.
Proof.
  unfold rd. destruct (Z.leb_spec 0 i); split; intros; destruct_and?; try done; lia.
Qed.

Lemma rd_ok l i : 0 <= i < Z.of_nat (length l) -> exists x, rd l i = Some x.
Proof.
  intros Hi. destruct (lookup_lt_is_Some_2 l (Z.to_nat i)) as [x Hx]; [lia|].
  exists x. apply rd_lookup. by split; [lia|].
Qed.

Lemma suffix_ok l i : 0 <= i <= Z.of_nat (length l) ->
  suffix l i = Some (drop (Z.to_nat i) l).
Proof. intros Hi. unfold suffix. by destruct (Z.leb_spec 0 i), (Z.leb_spec i (Z.of_nat (length l))); try lia. Qed.

Ltac rd_step :=
  match goal with
  | |- context [rd ?l ?i] =>
      let x := fresh "x" in let E := fresh "E" in
      destruct (rd_ok l i) as [x E]; [lia | rewrite E; cbn [mbind option_bind]]
  end.

Lemma write_at_ok buf p bytes :
  0 <= p -> p + Z.of_nat (length bytes) <= Z.of_nat (length buf) ->
  write_at buf p bytes =
  Some (take (Z.to_nat p) buf ++ bytes ++ drop (Z.to_nat p + length bytes) buf).
Proof.
  intros. unfold write_at.
  destruct (Z.leb_spec 0 p), (Z.leb_spec (p + Z.of_nat (length bytes)) (Z.of_nat (length buf)));
    try lia. done.
Qed.

(** ** The applier against a list of triples *)

Section PatchCorrect.
Context {B : Bzip2} {L : Bzip2Laws B} (w : Z) (Hw : 32 <= w).
Context (old new : list Z).
Context (Hold : Z.of_nat (length old) < 2 ^ 30) (Hnew : Z.of_nat (length new) < 2 ^ 30).

(** [triples T D E op np]: started at [op] in the old file and [np] in the new
    one, the control triples [T] with diff bytes [D] and extra bytes [E] produce
    the rest of the new file. *)
Inductive triples : list (Z * Z * Z) -> list Z -> list Z -> Z -> Z -> Prop :=
  | triples_done op : triples [] [] [] op (Z.of_nat (length new))
  | triples_cons x y z T d D e E op np :
      0 <= op -> op + Z.of_nat (length d) <= Z.of_nat (length old) ->
      x = Z.of_nat (length d) -> y = Z.of_nat (length e) ->
      0 <= np -> np + x + y <= Z.of_nat (length new) ->
      0 <= op + x + z <= Z.of_nat (length old) ->
      (forall i, (i < length d)%nat -> exists a b,
         d !! i = Some a /\ old !! (Z.to_nat op + i)%nat = Some b /\
         new !! (Z.to_nat np + i)%nat = Some (u8 (a + b))) ->
      e = take (length e) (drop (Z.to_nat (np + x)) new) ->
      triples T D E (op + x + z) (np + x + y) ->
      triples ((x, y, z) :: T) (d ++ D) (e ++ E) op np.

Lemma FillBuffer_ok fuel buf p n s c :
  bz_content s c -> 0 <= n <= Z.of_nat (length c) -> n < 2 ^ 31 ->
  0 <= p -> p + n <= Z.of_nat (length buf) -> (2 <= fuel)%nat ->
  exists s', FillBuffer fuel buf p n s =
    POk (take (Z.to_nat p) buf ++ take (Z.to_nat n) c ++
         drop (Z.to_nat p + Z.to_nat n) buf, s', 0) /\
    bz_content s' (drop (Z.to_nat n) c).
Proof.
  intros Hs Hn Hn31 Hp Hfit Hfuel. unfold FillBuffer.
  rewrite u32_id by (unfold is_u32; lia).
  destruct fuel as [|[|fuel]]; [lia|lia|]. cbn [FillBuffer_loop].
  destruct (Z.ltb_spec 0 n) as [Hpos|Hz].
  - destruct (bz_decompress_content s c n Hs Hpos ltac:(lia)) as (s' & err & -> & Herr & Hs').
    assert (negb (err =? BZ_OK) && negb (err =? BZ_STREAM_END) = false) as ->
      by (destruct Herr as [-> | ->]; done).
    rewrite length_take, Nat.min_l by lia.
    replace (n - Z.of_nat (Z.to_nat n)) with 0 by lia. cbn [Z.ltb Z.compare app].
    rewrite write_at_ok by (rewrite ?length_take; lia).
    exists s'. cbn [of_option pbind]. split; [|done].
    rewrite length_take, Nat.min_l by lia. done.
  - assert (n = 0) as -> by lia. rewrite write_at_ok by (simpl; lia).
    exists s. cbn. rewrite drop_0. done.
Qed.

(** Writing over a buffer whose prefix is already right. *)
Definition prefix_ok (buf : list Z) (np : Z) : Prop :=
  length buf = length new /\ take (Z.to_nat np) buf = take (Z.to_nat np) new.

Lemma prefix_ok_lookup buf np i : prefix_ok buf np -> (i < Z.to_nat np)%nat ->
  buf !! i = new !! i.
Proof.
  intros [_ H] Hi. rewrite <- (lookup_take_lt buf (Z.to_nat np)) by done.
  by rewrite H, lookup_take_lt.
Qed.

Lemma take_lookup_eq (l l' : list Z) n :
  (forall i, (i < n)%nat -> l !! i = l' !! i) -> take n l = take n l'.
Proof.
  intros H. apply list_eq. intros i. destruct (decide (i < n)%nat).
  - rewrite !lookup_take_lt by done. auto.
  - by rewrite !lookup_take_ge by lia.
Qed.

(** The invariant of the addition loop: [k] of the diff bytes are done. *)
Lemma add_old_ok d op np : 0 <= op -> 0 <= np ->
  op + Z.of_nat (length d) <= Z.of_nat (length old) ->
  np + Z.of_nat (length d) <= Z.of_nat (length new) ->
  (forall i, (i < length d)%nat -> exists a b,
     d !! i = Some a /\ old !! (Z.to_nat op + i)%nat = Some b /\
     new !! (Z.to_nat np + i)%nat = Some (u8 (a + b))) ->
  forall k buf, (k <= length d)%nat -> prefix_ok buf (np + Z.of_nat k) ->
  (forall i, (k <= i < length d)%nat -> buf !! (Z.to_nat np + i)%nat = d !! i) ->
  exists buf', add_old (length d - k) (Z.of_nat k) old buf op np = Some buf' /\
    prefix_ok buf' (np + Z.of_nat (length d)).
Proof.
  intros Hop Hnp Hfo Hfn Hd k buf Hk. remember (length d - k)%nat as m eqn:Hm.
  revert k buf Hk Hm. induction m as [|m IH]; intros k buf Hk Hm [Hlen Hpre] Hrest.
  { exists buf. split; [done|]. assert (k = length d) as -> by lia. done. }
  destruct (Hd k ltac:(lia)) as (a & b & Ha & Hb & Hn). cbn [add_old].
  destruct (Z.leb_spec 0 (op + Z.of_nat k)); [|lia].
  destruct (Z.ltb_spec (op + Z.of_nat k) (Z.of_nat (length old))); [|lia]. cbn [andb].
  assert (rd old (op + Z.of_nat k) = Some b) as ->.
  { apply rd_lookup. split; [lia|]. rewrite <- Hb. f_equal. lia. }
  assert (rd buf (np + Z.of_nat k) = Some a) as ->.
  { apply rd_lookup. split; [lia|]. rewrite <- Ha, <- Hrest by lia. f_equal. lia. }
  cbn [mbind option_bind]. rewrite write_at_ok by (simpl; lia). cbn [mbind option_bind].
  replace (Z.of_nat k + 1) with (Z.of_nat (S k)) by lia.
  replace (Z.to_nat (np + Z.of_nat k)) with (Z.to_nat np + k)%nat by lia.
  set (buf' := take (Z.to_nat np + k) buf ++ [u8 (a + b)] ++
               drop (Z.to_nat np + k + length [u8 (a + b)]) buf).
  assert (buf' = <[(Z.to_nat np + k)%nat := u8 (a + b)]> buf) as Hbuf'.
  { unfold buf'. rewrite insert_take_drop by lia. simpl. do 3 f_equal. lia. }
  apply IH; [lia|lia| |].
  - rewrite Hbuf'. split; [by rewrite length_insert|].
    apply take_lookup_eq. intros i Hi.
    destruct (decide (i = Z.to_nat np + k)%nat) as [->|].
    + by rewrite list_lookup_insert_eq by lia.
    + rewrite list_lookup_insert_ne by lia.
      apply (prefix_ok_lookup buf (np + Z.of_nat k)); [done|lia].
  - intros i Hi. rewrite Hbuf', list_lookup_insert_ne by lia. apply Hrest. lia.
Qed.

Lemma encode_ctrl_cons w' x y z T :
  encode_ctrl w' ((x, y, z) :: T) =
  (offtout w' x ++ offtout w' y ++ offtout w' z) ++ encode_ctrl w' T.
Proof. reflexivity. Qed.

(** Overwriting the next [length bs] bytes of the buffer. *)
Lemma overwrite_lookup (buf bs : list Z) (p n i : nat) :
  length bs = n -> (p + n <= length buf)%nat ->
  (take p buf ++ bs ++ drop (p + n) buf) !! i =
  if decide (i < p)%nat then buf !! i
  else if decide (i < p + n)%nat then bs !! (i - p)%nat else buf !! i.
Proof.
  intros <- Hfit. destruct (decide (i < p)%nat) as [Hlt|Hge].
  - rewrite lookup_app_l by (rewrite length_take; lia). by apply lookup_take_lt.
  - rewrite lookup_app_r by (rewrite length_take; lia). rewrite length_take, Nat.min_l by lia.
    destruct (decide (i < p + length bs)%nat).
    + by rewrite lookup_app_l by lia.
    + rewrite lookup_app_r by lia. rewrite lookup_drop. f_equal. lia.
Qed.

Lemma overwrite_length (buf bs : list Z) (p n : nat) :
  length bs = n -> (p + n <= length buf)%nat ->
  length (take p buf ++ bs ++ drop (p + n) buf) = length buf.
Proof. intros <- ?. rewrite !length_app, length_take, length_drop. lia. Qed.

Lemma prefix_ok_all buf : prefix_ok buf (Z.of_nat (length new)) -> buf = new.
Proof.
  intros [Hlen H]. rewrite Nat2Z.id in H.
  rewrite !take_ge in H by lia. done.
Qed.

(** One control record: three integers read back from the control stream. *)
Lemma ctrl_record w' x y z rest : 32 <= w' ->
  - 2 ^ 31 < x < 2 ^ 31 -> - 2 ^ 31 < y < 2 ^ 31 -> - 2 ^ 31 < z < 2 ^ 31 ->
  let rec := take 24 ((offtout w' x ++ offtout w' y ++ offtout w' z) ++ rest) in
  length rec = 24%nat /\
  offtin w rec = x /\ offtin w (drop 8 rec) = y /\ offtin w (drop 16 rec) = z.
Proof.
  intros Hw' Hx Hy Hz. cbv zeta.
  rewrite take_app_le by (rewrite !length_app, !length_offtout; lia).
  rewrite take_ge by (rewrite !length_app, !length_offtout; lia).
  split; [by rewrite !length_app, !length_offtout|].
  split; [by apply off_roundtrip|].
  assert (drop 8 (offtout w' x ++ offtout w' y ++ offtout w' z) =
          offtout w' y ++ offtout w' z) as -> by reflexivity.
  split; [by apply off_roundtrip|].
  assert (drop 16 (offtout w' x ++ offtout w' y ++ offtout w' z) =
          offtout w' z ++ []) as -> by reflexivity.
  by apply off_roundtrip.
Qed.

Lemma patch_loop_ok w' T D E op np : 32 <= w' ->
  triples T D E op np ->
  forall fuel fill_fuel cs ds es buf rc rd re,
  bz_content cs (encode_ctrl w' T ++ rc) -> bz_content ds (D ++ rd) ->
  bz_content es (E ++ re) ->
  prefix_ok buf np -> (length T < fuel)%nat -> (2 <= fill_fuel)%nat ->
  patch_loop w fuel fill_fuel old (Z.of_nat (length new)) cs ds es buf op np = POk new.
Proof.
  intros Hw' HT. induction HT as
    [op | x y z T d D e E op np Hop Hfo Hx Hy Hnp Hfn Hop' Hd He HT IH];
    intros fuel fill_fuel cs ds es buf rc rd re Hcs Hds Hes Hpre Hfuel Hfill;
    (destruct fuel as [|fuel]; [simpl in Hfuel; lia|]); cbn [patch_loop].
  { destruct (Z.ltb_spec (Z.of_nat (length new)) (Z.of_nat (length new))); [lia|].
    by rewrite (prefix_ok_all buf). }
  destruct (Z.ltb_spec np (Z.of_nat (length new))) as [Hlt|Hge].
  2: { f_equal. apply prefix_ok_all. by replace (Z.of_nat (length new)) with np by lia. }
  assert (- 2 ^ 31 < x < 2 ^ 31 /\ - 2 ^ 31 < y < 2 ^ 31 /\ - 2 ^ 31 < z < 2 ^ 31)
    as (Hxr & Hyr & Hzr) by lia.
  rewrite encode_ctrl_cons, <- app_assoc in Hcs.
  destruct (FillBuffer_ok fill_fuel (replicate 24 0) 0 24 cs _ Hcs)
    as (cs' & -> & Hcs'); [rewrite !length_app, !length_offtout; lia | lia | lia | done | done |].
  destruct (ctrl_record w' x y z (encode_ctrl w' T ++ rc) Hw' Hxr Hyr Hzr)
    as (Hrl & Hr0 & Hr1 & Hr2). cbv zeta in *.
  assert (forall l : list Z, take (Z.to_nat 0) (replicate 24 0) ++ take (Z.to_nat 24) l ++
    drop (Z.to_nat 0 + Z.to_nat 24) (replicate 24 0) = take 24 l) as Hrec.
  { intros l. simpl. by rewrite app_nil_r. }
  rewrite Hrec. cbn [pbind Z.eqb negb]. rewrite Hr0, Hr1, Hr2.
  unfold off. rewrite (swrap_id w (np + x)) by lia.
  destruct (Z.ltb_spec (Z.of_nat (length new)) (np + x)); [lia|].
  rewrite (s32_id x) by (unfold is_s32; lia). rewrite <- app_assoc in Hds, Hes.
  destruct Hpre as [Hlen Hpre].
  destruct (FillBuffer_ok fill_fuel buf np x ds _ Hds)
    as (ds' & -> & Hds'); [rewrite length_app; lia | lia | lia | lia | done |].
  cbn [pbind Z.eqb negb].
  rewrite take_app_le, (take_ge d) in * by lia. rewrite drop_app_ge in Hds' by lia.
  set (buf1 := take (Z.to_nat np) buf ++ d ++ drop (Z.to_nat np + Z.to_nat x) buf).
  assert (length buf1 = length new) as Hlen1 by (unfold buf1; rewrite overwrite_length; lia).
  destruct (add_old_ok d op np Hop Hnp Hfo ltac:(lia) Hd 0 buf1) as (buf2 & Hadd & Hpre2).
  { lia. }
  { split; [done|]. apply take_lookup_eq. intros i Hi. unfold buf1.
    rewrite overwrite_lookup by lia. rewrite decide_True by lia.
    apply (prefix_ok_lookup buf np); [done|lia]. }
  { intros i Hi. unfold buf1. rewrite overwrite_lookup by lia.
    rewrite decide_False, decide_True by lia. f_equal. lia. }
  replace (Z.to_nat x) with (length d - 0)%nat by lia.
  change (Z.of_nat 0) with 0 in Hadd. rewrite Hadd. cbn [of_option pbind].
  rewrite !(swrap_id w (op + x)) by lia.
  rewrite (swrap_id w (np + x + y)) by lia.
  destruct (Z.ltb_spec (Z.of_nat (length new)) (np + x + y)); [lia|].
  rewrite (s32_id y) by (unfold is_s32; lia). destruct Hpre2 as [Hlen2 Hpre2].
  destruct (FillBuffer_ok fill_fuel buf2 (np + x) y es _ Hes)
    as (es' & -> & Hes'); [rewrite length_app; lia | lia | lia | lia | done |].
  cbn [pbind Z.eqb negb].
  rewrite take_app_le, (take_ge e) by lia. rewrite drop_app_ge in Hes' by lia.
  rewrite (swrap_id w (op + x + z)) by lia.
  apply (IH fuel fill_fuel cs' ds' es' _ rc rd re); [| | |split| |done].
  - rewrite drop_app_ge in Hcs' by (rewrite !length_app, !length_offtout; lia).
    rewrite !length_app, !length_offtout in Hcs'. done.
  - by replace (Z.to_nat x - length d)%nat with 0%nat in Hds' by lia.
  - by replace (Z.to_nat y - length e)%nat with 0%nat in Hes' by lia.
  - rewrite overwrite_length; lia.
  - apply take_lookup_eq. intros i Hi. rewrite overwrite_lookup by lia.
    destruct (decide (i < Z.to_nat (np + x))%nat).
    + apply (prefix_ok_lookup buf2 (np + x)); [|done]. split; [done|].
      by rewrite Hx.
    + rewrite decide_True by lia. rewrite He, lookup_take_lt, lookup_drop by lia.
      f_equal. lia.
  - simpl in Hfuel. lia.
Qed.
End PatchCorrect.

(** ** The generator *)

Lemma matchlen_bounds a b :
  0 <= matchlen a b <= Z.of_nat (length a) /\ matchlen a b <= Z.of_nat (length b).
Proof.
  revert b. induction a as [|x a IH]; intros [|y b]; simpl; try lia.
  specialize (IH b). destruct (x =? y); lia.
Qed.

Section DiffCorrect.
Context (I old new : list Z).
Context (HIlen : length I = S (length old)).
Context (HI : Forall (fun p => 0 <= p <= Z.of_nat (length old)) I).

Lemma rd_I i : 0 <= i <= Z.of_nat (length old) ->
  exists p, rd I i = Some p /\ 0 <= p <= Z.of_nat (length old).
Proof.
  intros Hi. destruct (rd_ok I i) as [p Hp]; [lia|]. exists p. split; [done|].
  apply rd_lookup in Hp as [_ Hp]. exact (Forall_lookup_1 _ _ _ _ HI Hp).
Qed.

(** The search stays in bounds, terminates, and returns a match inside both
    files, whatever the order of the suffixes in [I]. *)
Lemma search_ok fuel tail st en :
  0 <= st <= en -> en <= Z.of_nat (length old) -> en - st < Z.of_nat fuel ->
  exists len pos, search fuel I old tail st en = Some (len, pos) /\
    0 <= len <= Z.of_nat (length tail) /\ 0 <= pos /\
    pos + len <= Z.of_nat (length old).
Proof.
  revert st en. induction fuel as [|fuel IH]; intros st en Hst Hen Hf; [lia|].
  cbn [search]. destruct (Z.ltb_spec (en - st) 2).
  - destruct (rd_I st) as (p & -> & Hp); [lia|].
    destruct (rd_I en) as (q & -> & Hq); [lia|]. cbn [mbind option_bind].
    rewrite !suffix_ok by lia. cbn [mbind option_bind].
    pose proof (matchlen_bounds (drop (Z.to_nat p) old) tail) as Hmp.
    pose proof (matchlen_bounds (drop (Z.to_nat q) old) tail) as Hmq.
    rewrite length_drop in *.
    destruct (_ <? _); eexists _, _; (split; [reflexivity|]); lia.
  - pose proof (Z.div_le_lower_bound (en - st) 2 1 ltac:(lia) ltac:(lia)).
    pose proof (Z.div_lt (en - st) 2 ltac:(lia) ltac:(lia)).
    destruct (rd_I (st + (en - st) / 2)) as (p & -> & Hp); [lia|].
    cbn [mbind option_bind]. rewrite suffix_ok by lia. cbn [mbind option_bind].
    destruct (_ <? 0); apply IH; lia.
Qed.

Lemma same_ok p q : 0 <= p -> 0 <= q < Z.of_nat (length new) ->
  exists b, same old new p q = Some b.
Proof.
  intros Hp Hq. unfold same. destruct (Z.ltb_spec p (Z.of_nat (length old))); [|eauto].
  rd_step. rd_step. eauto.
Qed.

(** Score of the positions [base .. base+k): the number of bytes that match at
    the previous offset. *)
Fixpoint score (off base : Z) (k : nat) : Z :=
  match k with
  | O => 0
  | S k => score off base k +
      match same old new (base + Z.of_nat k + off) (base + Z.of_nat k) with
      | Some true => 1 | _ => 0
      end
  end.

Lemma score_mono off base k k' : (k <= k')%nat -> score off base k <= score off base k'.
Proof.
  induction 1; [lia|]. simpl. destruct (same _ _ _ _) as [[]|]; lia.
Qed.

Lemma count_score_ok off base n k s :
  0 <= base + off -> 0 <= base -> base + Z.of_nat (k + n) <= Z.of_nat (length new) ->
  count_score old new n (base + Z.of_nat k) off s =
  Some (s + score off base (k + n) - score off base k).
Proof.
  intros Hb Hb0. revert k s. induction n as [|n IH]; intros k s Hn; simpl.
  { rewrite Nat.add_0_r. f_equal. lia. }
  destruct (same_ok (base + Z.of_nat k + off) (base + Z.of_nat k)) as [b Hsame]; [lia|lia|].
  rewrite Hsame. cbn [mbind option_bind].
  replace (base + Z.of_nat k + 1) with (base + Z.of_nat (S k)) by lia.
  rewrite IH by lia. replace (S k + n)%nat with (k + S n)%nat by lia.
  f_equal. simpl. rewrite Hsame. destruct b; lia.
Qed.

(** The matching loop: in bounds, terminating, and either at the end of the new
    file or at a nonempty match. *)
Lemma scan_loop_ok fuel base k scsc len0 pos0 off oldscore :
  0 <= base + off -> 0 <= base ->
  base + Z.of_nat k <= Z.of_nat (length new) ->
  base + Z.of_nat scsc <= Z.of_nat (length new) ->
  oldscore = score off base scsc - score off base k ->
  Z.of_nat (length new) - (base + Z.of_nat k) < Z.of_nat fuel ->
  0 <= pos0 <= Z.of_nat (length old) ->
  exists scan len pos score,
    scan_loop I old new fuel (base + Z.of_nat k) (base + Z.of_nat scsc)
      len0 pos0 off oldscore = Some (scan, len, pos, score) /\
    base + Z.of_nat k <= scan <= Z.of_nat (length new) /\
    0 <= pos <= Z.of_nat (length old) /\
    (scan < Z.of_nat (length new) -> 1 <= len /\ scan + len <= Z.of_nat (length new)).
Proof.
  intros Hb Hb0. revert k scsc len0 pos0 oldscore.
  induction fuel as [|fuel IH]; intros k scsc len0 pos0 oldscore Hk Hsc Hscore Hf Hpos; [lia|].
  cbn [scan_loop].
  destruct (Z.ltb_spec (base + Z.of_nat k) (Z.of_nat (length new))) as [Hlt|Hge].
  2: { eexists _, _, _, _. split; [reflexivity|]. lia. }
  rewrite suffix_ok by lia. cbn [mbind option_bind].
  destruct (search_ok (S (length old)) (drop (Z.to_nat (base + Z.of_nat k)) new) 0
    (Z.of_nat (length old))) as (len & pos & -> & Hl & Hp0 & Hp); [lia|lia|lia|].
  cbn [mbind option_bind]. rewrite length_drop in Hl.
  set (n := Z.to_nat (base + Z.of_nat k + len - (base + Z.of_nat scsc))).
  rewrite count_score_ok by lia. cbn [mbind option_bind].
  replace (Z.max (base + Z.of_nat scsc) (base + Z.of_nat k + len))
    with (base + Z.of_nat (scsc + n)) by lia.
  set (os := oldscore + _ - _).
  assert (os = score off base (scsc + n) - score off base k) as Hos by lia.
  pose proof (score_mono off base k (scsc + n) ltac:(lia)).
  destruct (_ || _) eqn:Hbreak.
  { eexists _, _, _, _. split; [reflexivity|]. lia. }
  destruct (same_ok (base + Z.of_nat k + off) (base + Z.of_nat k)) as [b Hsame]; [lia|lia|].
  rewrite Hsame. cbn [mbind option_bind].
  replace (base + Z.of_nat k + 1) with (base + Z.of_nat (S k)) by lia.
  destruct (IH (S k) (scsc + n)%nat len pos (if b then os - 1 else os))
    as (scan & len' & pos' & sc & Heq & H1 & H2 & H3); try lia.
  { simpl. rewrite Hsame. destruct b; lia. }
  eexists _, _, _, _. split; [exact Heq|]. lia.
Qed.

Let osz := Z.of_nat (length old).
Let nsz := Z.of_nat (length new).

Lemma forward_ok fuel scan ls lp i s Sf lenf :
  0 <= ls -> ls + i <= scan -> scan <= nsz -> 0 <= lp -> lp + i <= osz ->
  0 <= lenf <= i -> scan - ls - i < Z.of_nat fuel ->
  exists r, forward old new fuel scan ls lp i s Sf lenf = Some r /\
    0 <= r /\ ls + r <= scan /\ lp + r <= osz.
Proof.
  intros Hls. revert i s Sf lenf.
  induction fuel as [|fuel IH]; intros i s Sf lenf Hi Hscan Hlp Hio Hl Hf; [lia|].
  cbn [forward]. fold osz.
  destruct (Z.ltb_spec (ls + i) scan), (Z.ltb_spec (lp + i) osz); cbn [andb];
    try (eexists; split; [reflexivity|]; lia).
  rd_step. rd_step. destruct (_ <? _); apply IH; lia.
Qed.

Lemma backward_ok fuel scan ls pos i s Sb lenb :
  0 <= ls -> scan <= nsz -> pos <= osz -> 1 <= i ->
  0 <= lenb < i -> ls + lenb <= scan -> lenb <= pos ->
  scan - ls - i + 1 < Z.of_nat fuel -> 0 < Z.of_nat fuel ->
  exists r, backward old new fuel scan ls pos i s Sb lenb = Some r /\
    0 <= r /\ ls + r <= scan /\ r <= pos.
Proof.
  intros Hls Hscan Hpos. revert i s Sb lenb.
  induction fuel as [|fuel IH]; intros i s Sb lenb Hi Hl Hl1 Hl2 Hf Hf0; [lia|].
  cbn [backward].
  destruct (Z.leb_spec (ls + i) scan), (Z.leb_spec i pos); cbn [andb];
    try (eexists; split; [reflexivity|]; lia).
  rd_step. rd_step. destruct (_ <? _); apply IH; lia.
Qed.

Lemma cut_overlap_ok n fn fo bn bo i s Ss lens :
  0 <= i -> 0 <= fn -> 0 <= fo -> 0 <= bn -> 0 <= bo ->
  fn + i + Z.of_nat n <= nsz -> fo + i + Z.of_nat n <= osz ->
  bn + i + Z.of_nat n <= nsz -> bo + i + Z.of_nat n <= osz -> 0 <= lens <= i ->
  exists r, cut_overlap old new n fn fo bn bo i s Ss lens = Some r /\
    0 <= r <= i + Z.of_nat n.
Proof.
  revert i s Ss lens. induction n as [|n IH]; intros i s Ss lens; intros.
  { eexists. split; [reflexivity|]. lia. }
  cbn [cut_overlap]. rd_step. rd_step. rd_step. rd_step.
  destruct (_ <? _);
    (edestruct IH as (r & Hr & ?); [..|exists r; split; [exact Hr|lia]]); lia.
Qed.

(** The two extensions never overlap after the cut and stay inside the files. *)
Lemma extend_ok scan pos ls lp :
  0 <= ls <= scan -> scan <= nsz -> 0 <= lp <= osz -> 0 <= pos <= osz ->
  exists lenf lenb, extend old new scan pos ls lp = Some (lenf, lenb) /\
    0 <= lenf /\ 0 <= lenb <= pos /\ ls + lenf <= scan - lenb /\ lp + lenf <= osz /\
    (scan = nsz -> lenb = 0).
Proof.
  intros Hls Hscan Hlp Hpos. unfold extend. fold nsz.
  destruct (forward_ok (S (length new)) scan ls lp 0 0 0 0) as (lenf & -> & Hf0 & Hf1 & Hf2);
    try lia. cbn [mbind option_bind].
  assert (exists lenb, (if scan <? nsz then backward old new (S (length new)) scan ls pos 1 0 0 0
    else Some 0) = Some lenb /\ 0 <= lenb /\ ls + lenb <= scan /\ lenb <= pos /\
    (scan = nsz -> lenb = 0)) as (lenb & -> & Hb0 & Hb1 & Hb2 & Hb3).
  { destruct (Z.ltb_spec scan nsz).
    - destruct (backward_ok (S (length new)) scan ls pos 1 0 0 0) as (r & -> & ? & ? & ?);
        try lia. exists r. split; [done|]. lia.
    - exists 0. split; [done|]. lia. }
  cbn [mbind option_bind].
  destruct (Z.ltb_spec (scan - lenb) (ls + lenf)) as [Hov|Hov].
  - destruct (cut_overlap_ok (Z.to_nat (ls + lenf - (scan - lenb)))
      (ls + lenf - (ls + lenf - (scan - lenb))) (lp + lenf - (ls + lenf - (scan - lenb)))
      (scan - lenb) (pos - lenb) 0 0 0 0) as (r & -> & Hr); try lia.
    cbn [mbind option_bind]. eexists _, _. split; [reflexivity|].
    repeat split; lia.
  - eexists _, _. split; [reflexivity|]. repeat split; lia.
Qed.

Lemma diff_bytes_ok n ls lp i : Forall is_u8 new ->
  0 <= ls + i -> ls + i + Z.of_nat n <= nsz -> 0 <= lp + i -> lp + i + Z.of_nat n <= osz ->
  exists d, diff_bytes old new n ls lp i = Some d /\ length d = n /\
    forall j, (j < n)%nat -> exists a b, d !! j = Some a /\
      old !! (Z.to_nat (lp + i) + j)%nat = Some b /\
      new !! (Z.to_nat (ls + i) + j)%nat = Some (u8 (a + b)).
Proof.
  intros Hu8. revert i. induction n as [|n IH]; intros i; intros; cbn [diff_bytes].
  { eexists. split; [reflexivity|]. split; [done|]. intros; lia. }
  destruct (rd_ok new (ls + i)) as [a Ha]; [lia|].
  destruct (rd_ok old (lp + i)) as [b Hb]; [lia|].
  rewrite Ha, Hb. cbn [mbind option_bind].
  destruct (IH (i + 1)) as (d & -> & Hlen & Hd); try lia. cbn [mbind option_bind].
  apply rd_lookup in Ha as [_ Ha]. apply rd_lookup in Hb as [_ Hb].
  eexists. split; [reflexivity|]. split; [simpl; lia|].
  intros [|j] Hj.
  - exists (u8 (a - b)), b. rewrite !Nat.add_0_r. split; [done|]. split; [done|].
    rewrite Ha. f_equal. unfold u8. rewrite Zplus_mod_idemp_l.
    replace (a - b + b) with a by lia. symmetry. apply Z.mod_small.
    exact (Forall_lookup_1 _ _ _ _ Hu8 Ha).
  - destruct (Hd j ltac:(lia)) as (a' & b' & ? & Ho & Hn). exists a', b'. split; [done|].
    replace (Z.to_nat (lp + i) + S j)%nat with (Z.to_nat (lp + (i + 1)) + j)%nat by lia.
    replace (Z.to_nat (ls + i) + S j)%nat with (Z.to_nat (ls + (i + 1)) + j)%nat by lia.
    done.
Qed.

Lemma extra_bytes_ok n start i : 0 <= start + i -> start + i + Z.of_nat n <= nsz ->
  extra_bytes new n start i = Some (take n (drop (Z.to_nat (start + i)) new)).
Proof.
  revert i. induction n as [|n IH]; intros i Hi Hn; cbn [extra_bytes]; [done|].
  destruct (rd_ok new (start + i)) as [a Ha]; [lia|]. rewrite Ha. cbn [mbind option_bind].
  rewrite IH by lia. cbn [mbind option_bind].
  apply rd_lookup in Ha as [_ Ha]. rewrite (drop_S new a (Z.to_nat (start + i))) by done. cbn [take].
  replace (Z.to_nat (start + (i + 1))) with (S (Z.to_nat (start + i))) by lia. done.
Qed.

(** What has been emitted so far, in emission order. *)
Inductive built : list (Z * Z * Z) -> list Z -> list Z -> Z -> Z -> Prop :=
  | built_nil : built [] [] [] 0 0
  | built_snoc x y z T d D e E op np :
      built T D E op np ->
      0 <= op -> op + Z.of_nat (length d) <= osz ->
      x = Z.of_nat (length d) -> y = Z.of_nat (length e) ->
      0 <= np -> np + x + y <= nsz -> 0 <= op + x + z <= osz ->
      (forall i, (i < length d)%nat -> exists a b,
         d !! i = Some a /\ old !! (Z.to_nat op + i)%nat = Some b /\
         new !! (Z.to_nat np + i)%nat = Some (u8 (a + b))) ->
      e = take (length e) (drop (Z.to_nat (np + x)) new) ->
      built (T ++ [(x, y, z)]) (D ++ d) (E ++ e) (op + x + z) (np + x + y).

Lemma built_triples T D E op np T' D' E' :
  built T D E op np -> triples old new T' D' E' op np ->
  triples old new (T ++ T') (D ++ D') (E ++ E') 0 0.
Proof.
  intros Hb. revert T' D' E'.
  induction Hb as [|x y z T d D e E op np Hb IH]; intros T' D' E' HT; [done|].
  rewrite <- !app_assoc. apply IH. simpl. by apply triples_cons.
Qed.

(** Invariant of the main loop. *)
Record diff_inv (st : diff_state) : Prop := {
  di_scan : 0 <= lastscan st <= scan st;
  di_len : scan st < nsz -> 0 <= len st /\ scan st + len st <= nsz;
  di_end : scan st <= nsz;
  di_pos : 0 <= pos st <= osz;
  di_lastpos : 0 <= lastpos st <= osz;
  di_off : 0 <= scan st + lastoffset st;
  di_done : scan st = nsz -> lastscan st = nsz;
  di_built : built (ctrl st) (db st) (eb st) (lastpos st) (lastscan st) }.

Lemma diff_step_ok st : Forall is_u8 new -> diff_inv st -> scan st < nsz ->
  exists st', diff_step I old new st = Some st' /\ diff_inv st' /\
    scan st + len st <= scan st' /\ (scan st' < nsz -> 1 <= len st') /\
    (length (ctrl st') <= S (length (ctrl st)))%nat.
Proof.
  intros Hu8 [Hs Hl He Hp Hlp Ho Hd Hb] Hlt. specialize (Hl Hlt) as [Hl0 Hl1].
  unfold diff_step.
  destruct (scan_loop_ok (S (length new)) (scan st + len st) 0 0 (len st) (pos st)
    (lastoffset st) 0) as (sc & ln & ps & score & Hscan & Hsc & Hps & Hln);
    try (fold nsz); try lia. rewrite !Z.add_0_r in Hscan. rewrite Hscan. clear Hscan.
  fold nsz in Hsc, Hln. fold osz in Hps. cbn [mbind option_bind]. fold nsz.
  destruct (negb (ln =? score) || (sc =? nsz)) eqn:Hcond.
  - destruct (extend_ok sc ps (lastscan st) (lastpos st))
      as (lenf & lenb & -> & Hf & Hbk & Hfb & Hfo & Hend); try lia.
    cbn [mbind option_bind].
    destruct (diff_bytes_ok (Z.to_nat lenf) (lastscan st) (lastpos st) 0)
      as (d & -> & Hdl & Hdd); try lia; [done|]. cbn [mbind option_bind].
    rewrite extra_bytes_ok by lia. cbn [mbind option_bind].
    set (e := take _ _).
    assert (length e = Z.to_nat (sc - lenb - (lastscan st + lenf))) as Hel.
    { subst e. rewrite length_take, length_drop. lia. }
    eexists. split; [reflexivity|]. 
    split; [|simpl; rewrite ?length_app; simpl; lia].
    constructor; simpl; try lia.
    replace (sc - lenb) with
      (lastscan st + lenf + (sc - lenb - (lastscan st + lenf))) at 2 by lia.
    replace (ps - lenb) with (lastpos st + lenf + (ps - lenb - (lastpos st + lenf))) at 2 by lia.
    apply built_snoc; try lia; [done | |].
    + intros i Hi. rewrite !Z.add_0_r in Hdd. apply Hdd. lia.
    + rewrite Hel. subst e. by rewrite Z.add_0_r.
  - apply orb_false_iff in Hcond as [_ Hne]. apply Z.eqb_neq in Hne.
    eexists. split; [reflexivity|]. 
    split; [|simpl; rewrite ?length_app; simpl; lia].
    constructor; simpl; try lia; try done.
Qed.

Lemma diff_loop_ok fuel st : Forall is_u8 new -> diff_inv st ->
  nsz - scan st + (if (scan st <? nsz) && (len st =? 0) then 1 else 0) < Z.of_nat fuel ->
  exists st', diff_loop I old new fuel st = Some st' /\ diff_inv st' /\ scan st' = nsz /\
    (length (ctrl st') <= length (ctrl st) + fuel)%nat.
Proof.
  intros Hu8. revert st. induction fuel as [|fuel IH]; intros st Hinv Hf.
  { pose proof (di_end _ Hinv). destruct (_ && _); lia. }
  cbn [diff_loop]. fold nsz. destruct (Z.ltb_spec (scan st) nsz) as [Hlt|Hge].
  - destruct (diff_step_ok st Hu8 Hinv Hlt) as (st1 & -> & Hinv1 & Hgrow & Hlen & Hc).
    cbn [mbind option_bind]. destruct (IH st1 Hinv1) as (st' & -> & ? & ? & ?).
    + destruct (di_len _ Hinv Hlt) as [Hl0 _]. cbn [andb] in Hf.
      pose proof (di_end _ Hinv1).
      destruct (Z.ltb_spec (scan st1) nsz), (Z.eqb_spec (len st1) 0), (Z.eqb_spec (len st) 0);
        cbn [andb]; lia.
    + exists st'. split; [done|]. split; [done|]. split; [done|]. lia.
  - exists st. split; [done|]. split; [done|]. pose proof (di_end _ Hinv). lia.
Qed.

Lemma diff_init_ok : diff_inv (DiffState 0 0 0 0 0 0 [] [] []).
Proof. constructor; simpl; try lia. constructor. Qed.

Lemma diff_loop_triples st : diff_inv st -> scan st = nsz ->
  triples old new (ctrl st) (db st) (eb st) 0 0.
Proof.
  intros Hinv Hend. pose proof (di_built _ Hinv) as Hb.
  rewrite (di_done _ Hinv Hend) in Hb.
  pose proof (built_triples _ _ _ _ _ [] [] [] Hb (triples_done old new _)) as HT.
  by rewrite !app_nil_r in HT.
Qed.
End DiffCorrect.

(** ** Round trip *)

Lemma drop_header {B : Bzip2} (w : Z) (c d e : list Z) (n : nat) post :
  let h := (BSDIFF40 ++ offtout w (Z.of_nat (length c)) ++ offtout w (Z.of_nat (length d)) ++
            offtout w (Z.of_nat n) ++ c ++ d ++ e) ++ post in
  take 8 h = BSDIFF40 /\ (length h <? 32)%nat = false /\
  drop 8 h = offtout w (Z.of_nat (length c)) ++ drop 16 h /\
  drop 16 h = offtout w (Z.of_nat (length d)) ++ drop 24 h /\
  drop 24 h = offtout w (Z.of_nat n) ++ drop 32 h /\
  drop 32 h = c ++ d ++ e ++ post.
Proof.
  cbv zeta. rewrite <- !app_assoc. repeat split.
Qed.

(** What the applier does with a well-formed header. *)
Lemma ApplyBSDiffPatchMem_header {B : Bzip2} w w' (c d e : list Z) (n : nat) pre post
    fuel fill_fuel old fresh :
  32 <= w -> 32 <= w' -> Z.of_nat n < 2 ^ 31 ->
  let h := BSDIFF40 ++ offtout w' (Z.of_nat (length c)) ++ offtout w' (Z.of_nat (length d)) ++
           offtout w' (Z.of_nat n) ++ c ++ d ++ e in
  Z.of_nat (length (pre ++ h ++ post)) < 2 ^ 31 ->
  ApplyBSDiffPatchMem w fuel fill_fuel old (pre ++ h ++ post) (Z.of_nat (length pre)) fresh =
  match fresh (Z.of_nat n) with
  | None => PFail 1
  | Some buf =>
      patch_loop w fuel fill_fuel old (Z.of_nat n)
        (bz_init (c ++ d ++ e ++ post) (Z.of_nat (length c) + 0))
        (bz_init (d ++ e ++ post) (Z.of_nat (length d) + 0))
        (bz_init (e ++ post) (Z.of_nat (length e) + Z.of_nat (length post))) buf 0 0
  end.
Proof.
  cbv zeta. intros Hw Hw' Hn Hsz.
  destruct (drop_header w' c d e n post) as (Ht & Hlt & H8 & H16 & H24 & H32).
  unfold ApplyBSDiffPatchMem. cbv zeta. rewrite Nat2Z.id, drop_app_length.
  set (h := (BSDIFF40 ++ _) ++ post) in *. clearbody h.
  rewrite length_app in Hsz |- *.
  assert (length h = 32 + length c + length d + length e + length post)%nat as Hh.
  { rewrite <- (take_drop 32 h), !length_app, H32, length_take, !length_app.
    apply Nat.ltb_ge in Hlt. lia. }
  rewrite Hlt, Ht. rewrite bool_decide_eq_true_2 by done. cbn [negb].
  rewrite H8, !off_roundtrip by lia. rewrite H16, !off_roundtrip by lia.
  rewrite H24, !off_roundtrip by lia. rewrite !Nat2Z.id.
  assert (drop (32 + length c) h = d ++ e ++ post) as ->.
  { by rewrite <- drop_drop, H32, drop_app_length. }
  assert (drop (32 + length c + length d) h = e ++ post) as ->.
  { by rewrite <- !drop_drop, H32, !drop_app_length. }
  rewrite H32. rewrite !(proj2 (Z.ltb_ge _ _)) by lia. cbn [orb].
  rewrite !u32_id by (unfold is_u32; lia). rewrite !Z.add_0_r.
  match goal with |- context [bz_init (e ++ post) (Z.of_nat _ - ?k)] =>
    replace (Z.of_nat (length pre + length h) - k)
      with (Z.of_nat (length e) + Z.of_nat (length post)) by lia end.
  done.
Qed.

(** Patching inverts diffing, for any array [I] of the right length with entries inside
    the old file, sorted or not, and files below 1 GiB: [bsdiff] produces a patch without
    leaving any of its arrays, and [ApplyBSDiffPatchMem], given that patch embedded
    anywhere in a buffer below 2 GiB and an allocated output buffer, stays in bounds,
    terminates and returns exactly the new file. *)
Lemma bsdiff_then_bspatch {B : Bzip2} {L : Bzip2Laws B} (w w' : Z) (I old new : list Z) :
  32 <= w -> 32 <= w' ->
  length I = S (length old) ->
  Forall (fun p => 0 <= p <= Z.of_nat (length old)) I ->
  Forall is_u8 new ->
  Z.of_nat (length old) < 2 ^ 30 -> Z.of_nat (length new) < 2 ^ 30 ->
  exists patch, bsdiff w' I old new = Some patch /\
    forall pre post fresh buf fuel fill_fuel,
    Z.of_nat (length (pre ++ patch ++ post)) < 2 ^ 31 ->
    fresh (Z.of_nat (length new)) = Some buf -> length buf = length new ->
    (length new + 2 < fuel)%nat -> (2 <= fill_fuel)%nat ->
    ApplyBSDiffPatchMem w fuel fill_fuel old (pre ++ patch ++ post)
      (Z.of_nat (length pre)) fresh = POk new.
Proof.
  intros Hw Hw' HIlen HI Hu8 Hold Hnew. unfold bsdiff.
  destruct (diff_loop_ok I old new HIlen HI (S (S (length new)))
    (DiffState 0 0 0 0 0 0 [] [] [])) as (st & -> & Hinv & Hend & Hcount);
    [done | by apply (diff_init_ok I) | simpl; destruct (_ && _); lia |].
  cbn [mbind option_bind]. eexists. split; [reflexivity|].
  set (c := bz_compress (encode_ctrl w' _)). set (d := bz_compress (db st)).
  set (e := bz_compress (eb st)).
  intros pre post fresh buf fuel fill_fuel Hsz Hfresh Hbuf Hfuel Hfill.
  rewrite ApplyBSDiffPatchMem_header by (done || lia). rewrite Hfresh.
  eapply (patch_loop_ok w Hw old new Hold Hnew w' (ctrl st) (db st) (eb st)
            0 0 Hw' (diff_loop_triples old new st Hinv Hend)
            fuel fill_fuel _ _ _ buf [] [] []); rewrite ?app_nil_r; try done;
    try (apply bz_init_content; lia).
  simpl in Hcount. lia.
Qed.

(** A stored (uncompressed) stand-in for bzip2 with its end-of-stream
    behaviour: the call that delivers the last byte reports BZ_STREAM_END, a
    call after that BZ_SEQUENCE_ERROR (-1). *)
Definition stored_bzip2 : Bzip2 := {|
  stream := list Z * bool;
  bz_init l n := (take (Z.to_nat n) l, false);
  bz_decompress s n :=
    if s.2 then ([], s, -1) else
    (take (Z.to_nat n) s.1,
     (drop (Z.to_nat n) s.1, Z.of_nat (length s.1) <=? n),
     if Z.of_nat (length s.1) <=? n then BZ_STREAM_END else BZ_OK);
  bz_compress l := l
|}.

Lemma stored_laws : Bzip2Laws stored_bzip2.
Proof.
  refine {| bz_content := fun (s : @stream stored_bzip2) c =>
    if (s : list Z * bool).2 then c = [] else exists r, (s : list Z * bool).1 = c ++ r |}.
  - intros c rest extra He. simpl.
    replace (Z.to_nat (Z.of_nat (length c) + extra)) with (length c + Z.to_nat extra)%nat by lia.
    rewrite take_app_add. eauto.
  - intros [l b] c n Hs Hn0 Hn. cbn in *. destruct b; [subst; simpl in *; lia|].
    destruct Hs as [r ->]. eexists _, _.
    rewrite (take_app_le c) by lia. split; [reflexivity|].
    destruct (Z.leb_spec (Z.of_nat (length (c ++ r))) n) as [Hle|Hle];
      rewrite length_app in Hle; cbn.
    + split; [by right|]. apply drop_ge. lia.
    + split; [by left|]. rewrite (drop_app_le c) by lia. eauto.
Qed.

(** ** A corrupt control block *)

(** A patch with one control triple [(x, y, z)]. *)
Definition one_triple_patch (x y z new_size : Z) (d e : list Z) : list Z :=
  let c := encode_ctrl 64 [(x, y, z)] in
  BSDIFF40 ++ offtout 64 (Z.of_nat (length c)) ++ offtout 64 (Z.of_nat (length d)) ++
  offtout 64 new_size ++ c ++ d ++ e.

Lemma FillBuffer_negative (x : Z) (buf d : list Z) (n : nat) :
  - 2 ^ 31 <= x < 0 -> Z.of_nat (length buf) < Z.of_nat (length d) < 2 ^ 30 ->
  @FillBuffer stored_bzip2 (S (S n)) buf 0 x (d, false) = PMemoryError.
Proof.
  intros Hx Hd. unfold FillBuffer.
  assert (u32 x = x + 2 ^ 32) as ->.
  { unfold u32, uwrap. rewrite <- (Z_mod_plus_full x 1), Z.mod_small; lia. }
  cbn [FillBuffer_loop bz_decompress stored_bzip2 fst snd].
  rewrite (proj2 (Z.ltb_lt _ _)), (proj2 (Z.leb_le _ _)) by lia.
  cbn [BZ_OK BZ_STREAM_END Z.eqb Pos.eqb negb andb].
  rewrite take_ge by lia. rewrite (proj2 (Z.ltb_lt _ _)) by lia.
  cbn [Z.eqb negb andb app length]. rewrite app_nil_r. unfold write_at.
  rewrite (proj2 (Z.leb_gt (0 + _) _)) by lia. by rewrite andb_false_r.
Qed.


