(* ===== verification/QSufSort.v ===== *)
(** * Sorting the suffixes of a file (applypatch/bsdiff.c)

    Model of [split] and [qsufsort], the suffix sorting algorithm of Larsson and
    Sadakane that bsdiff runs on the old file, and the proof that it sorts.

    [I] is the array of suffixes being sorted; where a stretch of it is finished it
    holds the negated length of the stretch instead.  [V] maps a suffix to the last
    position of its group, the suffixes that agree on the first [h] bytes.  All
    accesses are checked, so offsets stay between minus one and the size of the file
    and [off_t] arithmetic is written on [Z]; only the doubling of [h], which is not
    an index, wraps around at the width [w]. *)

From stdpp Require Import base list numbers sorting.
From Stdlib Require Import ZArith Lia.
From S2P Require Import Prelude BsDiff.
Open Scope Z_scope.

(** [l[i] = x] *)
Definition wr (l : list Z) (i x : Z) : option (list Z) :=
  if (0 <=? i) && (i <? Z.of_nat (length l)) then Some (<[Z.to_nat i := x]> l) else None.

(** [tmp=I[a];I[a]=I[b];I[b]=tmp] *)
Definition swap (I : list Z) (a b : Z) : option (list Z) :=
  tmp ← rd I a; y ← rd I b; I ← wr I a y; wr I b tmp.

(** [V[I[p]+h]] *)
Definition key (I V : list Z) (h p : Z) : option Z := i ← rd I p; rd V (i + h).

(** ** split *)

(** [for(i=1;k+i<start+len;i++)], [m] iterations: the suffixes with the smallest key are
    brought to the front; there are [j] of them. *)
Fixpoint gather (m : nat) (V : list Z) (h k i j x : Z) (I : list Z) : option (list Z * Z) :=
  match m with
  | O => Some (I, j)
  | S m =>
      y ← key I V h (k + i);
      let '(x, j) := if y <? x then (y, 0) else (x, j) in
      if y =? x then I ← swap I (k + j) (k + i); gather m V h k (i + 1) (j + 1) x I
      else gather m V h k (i + 1) j x I
  end.

(** [V[I[p]]=v] for [m] positions *)
Fixpoint number (m : nat) (I V : list Z) (p v : Z) : option (list Z) :=
  match m with
  | O => Some V
  | S m => i ← rd I p; V ← wr V i v; number m I V (p + 1) v
  end.

(** A group is complete: its members are numbered, and it is finished if there is only one. *)
Definition close_group (I V : list Z) (k j : Z) : option (list Z * list Z) :=
  V ← number (Z.to_nat j) I V k (k + j - 1);
  I ← (if j =? 1 then wr I k (-1) else Some I);
  Some (I, V).

(** [for(k=start;k<start+len;k+=j)], up to [e] *)
Fixpoint split_small (fuel : nat) (h e k : Z) (I V : list Z) : option (list Z * list Z) :=
  match fuel with
  | O => None
  | S fuel =>
      if k <? e then
        x ← key I V h k;
        '(I, j) ← gather (Z.to_nat (e - k - 1)) V h k 1 1 x I;
        '(I, V) ← close_group I V k j;
        split_small fuel h e (k + j) I V
      else Some (I, V)
  end.

(** [for(i=start;i<start+len;i++)], [m] iterations: how many keys are less than [x], and
    how many are equal to it. *)
Fixpoint tally (m : nat) (I V : list Z) (h x i jj kk : Z) : option (Z * Z) :=
  match m with
  | O => Some (jj, kk)
  | S m =>
      y ← key I V h i;
      tally m I V h x (i + 1) (if y <? x then jj + 1 else jj) (if y =? x then kk + 1 else kk)
  end.

(** [while(i<jj)] *)
Fixpoint lower_part (fuel : nat) (V : list Z) (h x jj kk i j k : Z) (I : list Z)
    : option (list Z * Z * Z) :=
  match fuel with
  | O => None
  | S fuel =>
      if i <? jj then
        y ← key I V h i;
        if y <? x then lower_part fuel V h x jj kk (i + 1) j k I
        else if y =? x then
          I ← swap I i (jj + j); lower_part fuel V h x jj kk i (j + 1) k I
        else
          I ← swap I i (kk + k); lower_part fuel V h x jj kk i j (k + 1) I
      else Some (I, j, k)
  end.

(** [while(jj+j<kk)] *)
Fixpoint middle_part (fuel : nat) (V : list Z) (h x jj kk j k : Z) (I : list Z) : option (list Z) :=
  match fuel with
  | O => None
  | S fuel =>
      if jj + j <? kk then
        y ← key I V h (jj + j);
        if y =? x then middle_part fuel V h x jj kk (j + 1) k I
        else I ← swap I (jj + j) (kk + k); middle_part fuel V h x jj kk j (k + 1) I
      else Some I
  end.

Fixpoint split (fuel : nat) (I V : list Z) (start len h : Z) : option (list Z * list Z) :=
  match fuel with
  | O => None
  | S fuel =>
      if len <? 16 then split_small (S (Z.to_nat len)) h (start + len) start I V
      else
        x ← key I V h (start + len / 2);
        '(jj, kk) ← tally (Z.to_nat len) I V h x start 0 0;
        let jj := jj + start in
        let kk := kk + jj in
        '(I, j, k) ← lower_part (S (Z.to_nat len)) V h x jj kk start 0 0 I;
        I ← middle_part (S (Z.to_nat len)) V h x jj kk j k I;
        '(I, V) ← (if start <? jj then split fuel I V start (jj - start) h else Some (I, V));
        '(I, V) ← close_group I V jj (kk - jj);
        if kk <? start + len then split fuel I V kk (start + len - kk) h else Some (I, V)
  end.

(** ** qsufsort *)

(** [for(i=0;i<oldsize;i++) buckets[old[i]]++] *)
Fixpoint count_bytes (old buckets : list Z) : option (list Z) :=
  match old with
  | [] => Some buckets
  | c :: old => b ← rd buckets c; buckets ← wr buckets c (b + 1); count_bytes old buckets
  end.

(** [for(i=1;i<256;i++) buckets[i]+=buckets[i-1]] *)
Fixpoint cumulate (m : nat) (i : Z) (buckets : list Z) : option (list Z) :=
  match m with
  | O => Some buckets
  | S m =>
      b ← rd buckets i; a ← rd buckets (i - 1);
      buckets ← wr buckets i (b + a); cumulate m (i + 1) buckets
  end.

(** [for(i=255;i>0;i--) buckets[i]=buckets[i-1]] *)
Fixpoint shift_up (m : nat) (i : Z) (buckets : list Z) : option (list Z) :=
  match m with
  | O => Some buckets
  | S m => a ← rd buckets (i - 1); buckets ← wr buckets i a; shift_up m (i - 1) buckets
  end.

(** [for(i=0;i<oldsize;i++) I[++buckets[old[i]]]=i] *)
Fixpoint place (old : list Z) (i : Z) (buckets I : list Z) : option (list Z * list Z) :=
  match old with
  | [] => Some (buckets, I)
  | c :: old =>
      b ← rd buckets c; buckets ← wr buckets c (b + 1); I ← wr I (b + 1) i;
      place old (i + 1) buckets I
  end.

(** [for(i=0;i<oldsize;i++) V[i]=buckets[old[i]]] *)
Fixpoint rank_bytes (old : list Z) (i : Z) (buckets V : list Z) : option (list Z) :=
  match old with
  | [] => Some V
  | c :: old => b ← rd buckets c; V ← wr V i b; rank_bytes old (i + 1) buckets V
  end.

(** [for(i=1;i<256;i++) if(buckets[i]==buckets[i-1]+1) I[buckets[i]]=-1] *)
Fixpoint mark_single (m : nat) (i : Z) (buckets I : list Z) : option (list Z) :=
  match m with
  | O => Some I
  | S m =>
      b ← rd buckets i; a ← rd buckets (i - 1);
      I ← (if b =? a + 1 then wr I b (-1) else Some I);
      mark_single m (i + 1) buckets I
  end.

(** [if(len) I[i-len]=-len] *)
Definition join (I : list Z) (i len : Z) : option (list Z) :=
  if truthy len then wr I (i - len) (- len) else Some I.

(** [for(i=0;i<oldsize+1;)], with what follows the loop *)
Fixpoint pass (fuel : nat) (oldsize h i len : Z) (I V : list Z) : option (list Z * list Z) :=
  match fuel with
  | O => None
  | S fuel =>
      if i <? oldsize + 1 then
        x ← rd I i;
        if x <? 0 then pass fuel oldsize h (i - x) (len - x) I V
        else
          I ← join I i len;
          x ← rd I i; v ← rd V x;
          let len := v + 1 - i in
          '(I, V) ← split (S (Z.to_nat len)) I V i len h;
          pass fuel oldsize h (i + len) 0 I V
      else
        I ← join I i len; Some (I, V)
  end.

(** [for(h=1;I[0]!=-(oldsize+1);h+=h)] *)
Fixpoint double_loop (w : Z) (fuel : nat) (oldsize h : Z) (I V : list Z) : option (list Z * list Z) :=
  match fuel with
  | O => None
  | S fuel =>
      x ← rd I 0;
      if x =? - (oldsize + 1) then Some (I, V)
      else
        '(I, V) ← pass (S (S (Z.to_nat oldsize))) oldsize h 0 0 I V;
        double_loop w fuel oldsize (off w (h + h)) I V
  end.

(** [for(i=0;i<oldsize+1;i++) I[V[i]]=i] *)
Fixpoint invert (m : nat) (i : Z) (I V : list Z) : option (list Z) :=
  match m with
  | O => Some I
  | S m => v ← rd V i; I ← wr I v i; invert m (i + 1) I V
  end.

(** The part before the loop: sorting by the first byte.  [I] and [V] are as malloc
    returned them. *)
Definition bucket_sort (I V old : list Z) : option (list Z * list Z) :=
  let oldsize := Z.of_nat (length old) in
  buckets ← count_bytes old (replicate 256 0);
  buckets ← cumulate 255 1 buckets;
  buckets ← shift_up 255 255 buckets;
  buckets ← wr buckets 0 0;
  '(buckets, I) ← place old 0 buckets I;
  I ← wr I 0 oldsize;
  V ← rank_bytes old 0 buckets V;
  V ← wr V oldsize 0;
  I ← mark_single 255 1 buckets I;
  I ← wr I 0 (-1);
  Some (I, V).

(** [fuel] bounds the number of passes. *)
Definition qsufsort (w : Z) (fuel : nat) (I V old : list Z) : option (list Z * list Z) :=
  '(I, V) ← bucket_sort I V old;
  '(I, V) ← double_loop w fuel (Z.of_nat (length old)) 1 I V;
  I ← invert (S (length old)) 0 I V;
  Some (I, V).

(** ** Arrays *)

Definition arr (l : list Z) (i : Z) : Z := nth (Z.to_nat i) l 0.
Definition upd (l : list Z) (i x : Z) : list Z := <[Z.to_nat i := x]> l.
Definition inside (l : list Z) (i : Z) : Prop := 0 <= i < Z.of_nat (length l).

Lemma rd_arr l i : inside l i -> rd l i = Some (arr l i).
Proof.
  intros [H0 H1]. unfold rd, arr. destruct (Z.leb_spec 0 i); [|lia].
  destruct (lookup_lt_is_Some_2 l (Z.to_nat i)) as [x Hx]; [lia|]. by rewrite Hx, (nth_lookup_Some _ _ _ _ Hx).
Qed.

Lemma wr_upd l i x : inside l i -> wr l i x = Some (upd l i x).
Proof. intros [H0 H1]. unfold wr. destruct (Z.leb_spec 0 i), (Z.ltb_spec i (Z.of_nat (length l))); done || lia. Qed.

Lemma length_upd l i x : length (upd l i x) = length l.
Proof. apply length_insert. Qed.

Lemma arr_upd l i x j : inside l i -> 0 <= j -> arr (upd l i x) j = if j =? i then x else arr l j.
Proof.
  intros [H0 H1] Hj. unfold arr, upd. rewrite !nth_lookup. destruct (Z.eqb_spec j i) as [-> | Hne].
  - by rewrite list_lookup_insert_eq by lia.
  - by rewrite list_lookup_insert_ne by lia.
Qed.

Lemma inside_upd l i x j : inside (upd l i x) j <-> inside l j.
Proof. unfold inside. by rewrite length_upd. Qed.

(** The exchange of positions [a] and [b]. *)
Definition transpose (a b p : Z) : Z := if p =? a then b else if p =? b then a else p.

Ltac transpose_cases := unfold transpose in *; repeat
  match goal with
  | |- context [?x =? ?y] => destruct (Z.eqb_spec x y)
  | H : context [?x =? ?y] |- _ => destruct (Z.eqb_spec x y)
  end.

Lemma transpose_involutive a b p : transpose a b (transpose a b p) = p.
Proof. transpose_cases; lia. Qed.

Lemma transpose_range a b p s t : s <= a < t -> s <= b < t -> s <= p < t -> s <= transpose a b p < t.
Proof. transpose_cases; lia. Qed.

Lemma swap_ok I a b : inside I a -> inside I b -> exists I',
  swap I a b = Some I' /\ length I' = length I /\ forall p, 0 <= p -> arr I' p = arr I (transpose a b p).
Proof.
  intros Ha Hb. unfold swap. rewrite !rd_arr by done. cbn [mbind option_bind]. rewrite wr_upd by done.
  cbn [mbind option_bind]. rewrite wr_upd by by apply inside_upd. eexists. split; [done|].
  split; [by rewrite !length_upd|]. intros p Hp. rewrite !arr_upd by (done || by apply inside_upd).
  transpose_cases; subst; congruence.
Qed.

(** ** The order of suffixes *)

Fixpoint lex (l m : list Z) : Prop :=
  match l, m with
  | _, [] => False
  | [], _ :: _ => True
  | x :: l, y :: m => x < y \/ (x = y /\ lex l m)
  end.

Lemma lex_app p l m : lex l m -> lex (p ++ l) (p ++ m).
Proof. induction p as [|x p IH]; [done|]. cbn. auto. Qed.

Lemma lex_trans l m k : lex l m -> lex m k -> lex l k.
Proof.
  revert m k. induction l as [|x l IH]; intros [|y m] [|z k]; cbn; try done.
  intros [H1 | [-> H1]] [H2 | [-> H2]]; [left; lia | by left | by left |]. right. by split; [|eapply IH].
Qed.

Lemma lex_irrefl l : ~ lex l l.
Proof. induction l as [|x l IH]; cbn; [tauto|]. intros [H | [_ H]]; [lia | done]. Qed.

Section Suffixes.
Context (old : list Z).
Abbreviation n := (Z.of_nat (length old)).

Definition suf (i : Z) : list Z := drop (Z.to_nat i) old.
Definition less (i j : Z) : Prop := lex (suf i) (suf j).

(** The first [h] bytes of a suffix. *)
Definition pre (h i : Z) : list Z := take (Z.to_nat h) (suf i).

Lemma suf_split h i : 0 <= h -> 0 <= i -> suf i = pre h i ++ suf (i + h).
Proof.
  intros Hh Hi. unfold pre, suf. rewrite Z2Nat.inj_add by lia. rewrite <- drop_drop. by rewrite take_drop.
Qed.

Lemma length_pre h i : 0 <= h -> 0 <= i -> Z.of_nat (length (pre h i)) = Z.min h (Z.max 0 (n - i)).
Proof. intros Hh Hi. unfold pre, suf. rewrite length_take, length_drop. lia. Qed.

(** Equal beginnings of different suffixes are complete. *)
Lemma pre_full h i j : 0 <= h -> 0 <= i <= n -> 0 <= j <= n -> i <> j -> pre h i = pre h j -> i + h <= n.
Proof.
  intros Hh Hi Hj Hne He. pose proof (length_pre h i Hh ltac:(lia)). pose proof (length_pre h j Hh ltac:(lia)).
  rewrite He in *. lia.
Qed.

Lemma pre_double h i j : 0 <= h -> 0 <= i -> 0 <= j -> i + h <= n -> j + h <= n ->
  pre h i = pre h j -> pre h (i + h) = pre h (j + h) -> pre (h + h) i = pre (h + h) j.
Proof.
  intros Hh Hi Hj Hi' Hj' H1 H2. pose proof (length_pre h i Hh Hi). pose proof (length_pre h j Hh Hj).
  unfold pre at 1 2. rewrite (suf_split h i), (suf_split h j) by lia. rewrite H1.
  assert (length (pre h j) = Z.to_nat h) as Hl by lia. rewrite Z2Nat.inj_add by lia.
  rewrite !take_app_add' by done. f_equal. exact H2.
Qed.

Lemma less_double h i j : 0 <= h -> 0 <= i -> 0 <= j -> pre h i = pre h j -> less (i + h) (j + h) -> less i j.
Proof. intros Hh Hi Hj He Hl. unfold less. rewrite (suf_split h i), (suf_split h j), He by lia. by apply lex_app. Qed.

(** ** Groups

    The proof follows the whole arrangement [A] of the suffixes, of which [I] shows the
    parts that are not finished.  The group of position [p] ends at [group_end A V p]. *)

Definition group_end (A : Z -> Z) (V : list Z) (p : Z) : Z := arr V (A p).

(** [A] is a permutation, groups are intervals that [V] knows the ends of, different
    groups are in order, and the suffixes of a group agree on [h] bytes. *)
Record stable (A : Z -> Z) (V : list Z) (h : Z) : Prop := {
  sb_len : Z.of_nat (length V) = n + 1;
  sb_range p : 0 <= p <= n -> 0 <= A p <= n;
  sb_inj p q : 0 <= p <= n -> 0 <= q <= n -> A p = A q -> p = q;
  sb_surj i : 0 <= i <= n -> exists p, 0 <= p <= n /\ A p = i;
  sb_end p : 0 <= p <= n -> p <= group_end A V p <= n;
  sb_class p q : 0 <= p <= n -> p <= q <= group_end A V p -> group_end A V q = group_end A V p;
  sb_order p q : 0 <= p < q -> q <= n -> group_end A V p <> group_end A V q -> less (A p) (A q);
  sb_depth p q : 0 <= p <= n -> 0 <= q <= n -> group_end A V p = group_end A V q -> pre h (A p) = pre h (A q)
}.

Lemma group_end_lt A V h p q : stable A V h -> 0 <= p <= n -> 0 <= q <= n ->
  group_end A V p < group_end A V q -> p < q.
Proof.
  intros [] Hp Hq Hlt. destruct (Z_lt_ge_dec p q) as [|Hge]; [done|]. exfalso.
  pose proof (sb_end0 p Hp). destruct (Z_le_gt_dec p (group_end A V q)) as [Hle|Hgt]; [|lia].
  rewrite (sb_class0 q p) in Hlt; lia.
Qed.

Lemma stable_less A V h i j : stable A V h -> 0 <= i <= n -> 0 <= j <= n -> arr V i < arr V j -> less i j.
Proof.
  intros Hs Hi Hj Hlt. pose proof Hs as []. destruct (sb_surj0 i Hi) as (p & Hp & <-), (sb_surj0 j Hj) as (q & Hq & <-).
  pose proof (group_end_lt A V h p q Hs Hp Hq Hlt). apply sb_order0; unfold group_end; lia.
Qed.

Lemma stable_pre A V h i j : stable A V h -> 0 <= i <= n -> 0 <= j <= n -> arr V i = arr V j -> pre h i = pre h j.
Proof.
  intros [] Hi Hj He. destruct (sb_surj0 i Hi) as (p & Hp & <-), (sb_surj0 j Hj) as (q & Hq & <-). by apply sb_depth0.
Qed.

Lemma stable_transpose A V h a b : stable A V h -> 0 <= a <= n -> 0 <= b <= n ->
  group_end A V a = group_end A V b -> stable (fun p => A (transpose a b p)) V h.
Proof.
  intros [] Ha Hb Hab.
  assert (forall p, group_end (fun p => A (transpose a b p)) V p = group_end A V p) as Hg.
  { intros p. unfold group_end in *. transpose_cases; congruence. }
  assert (forall p, 0 <= p <= n -> 0 <= transpose a b p <= n) as Hr by (intros p; transpose_cases; lia).
  split; try done.
  - intros p Hp. by apply sb_range0, Hr.
  - intros p q Hp Hq He. apply sb_inj0 in He; [|by apply Hr..]. transpose_cases; lia.
  - intros i Hi. destruct (sb_surj0 i Hi) as (p & Hp & <-). exists (transpose a b p).
    split; [by apply Hr | by rewrite transpose_involutive].
  - intros p Hp. rewrite Hg. by apply sb_end0.
  - intros p q Hp. rewrite !Hg. by apply sb_class0.
  - intros p q Hp Hq. rewrite !Hg. intros Hne.
    assert (group_end A V (transpose a b p) = group_end A V p /\ group_end A V (transpose a b q) = group_end A V q) as [H1 H2]
      by (by rewrite <- !Hg).
    destruct (Z.lt_trichotomy (group_end A V p) (group_end A V q)) as [Hlt | [Heq | Hgt]]; [|done|].
    + apply sb_order0; [|apply Hr; lia | congruence]. split; [apply Hr; lia|].
      apply (group_end_lt A V h); [done | apply Hr; lia | apply Hr; lia | lia].
    + apply (group_end_lt A V h) in Hgt; [lia | done | lia | lia].
  - intros p q Hp Hq. rewrite !Hg. intros He. apply sb_depth0; [by apply Hr | by apply Hr|].
    rewrite <- (Hg p), <- (Hg q) in He. exact He.
Qed.

(** Positions [s] to [t] are to be sorted; they are what is left of the front of the
    group that ends at [e]. *)
Record seg (A : Z -> Z) (V I : list Z) (h s t e : Z) : Prop := {
  sg_stable : stable A V h;
  sg_h : 0 <= h;
  sg_len : Z.of_nat (length I) = n + 1;
  sg_bounds : 0 <= s <= t /\ t <= e + 1 /\ e <= n;
  sg_class p : s <= p <= e -> group_end A V p = e;
  sg_start p : 0 <= p < s -> group_end A V p < s;
  sg_I p : s <= p < t -> arr I p = A p;
  sg_sep p q : s <= p < t -> t <= q <= e -> less (A p) (A q);
  sg_reach p : s <= p <= e -> A p + h <= n
}.

Lemma seg_swap A V I I' h s t e a b : seg A V I h s t e -> s <= a < t -> s <= b < t ->
  length I' = length I -> (forall p, 0 <= p -> arr I' p = arr I (transpose a b p)) ->
  seg (fun p => A (transpose a b p)) V I' h s t e.
Proof.
  intros [] Ha Hb Hl HI.
  assert (forall p, group_end A V (transpose a b p) = group_end A V p) as Hg.
  { intros p. transpose_cases; subst; rewrite ?sg_class0 by lia; lia. }
  split; try done; try congruence.
  - apply stable_transpose; [done | lia | lia | rewrite !sg_class0 by lia; done].
  - intros p Hp. unfold group_end in *. by rewrite Hg, sg_class0.
  - intros p Hp. unfold group_end in *. rewrite Hg. by apply sg_start0.
  - intros p Hp. rewrite HI by lia. apply sg_I0. by apply transpose_range.
  - intros p q Hp Hq. assert (transpose a b q = q) as -> by (transpose_cases; lia).
    apply sg_sep0; [by apply transpose_range | done].
  - intros p Hp. apply sg_reach0. transpose_cases; lia.
Qed.

(** The keys in a segment. *)
Definition K (A : Z -> Z) (V : list Z) (h p : Z) : Z := arr V (A p + h).

Lemma key_ok A V I h s t e p : seg A V I h s t e -> s <= p < t -> key I V h p = Some (K A V h p).
Proof.
  intros [] Hp. destruct sg_stable0. unfold key. rewrite rd_arr by (unfold inside; lia). cbn [mbind option_bind].
  rewrite sg_I0 by done. apply rd_arr. unfold inside. pose proof (sb_range0 p ltac:(lia)).
  pose proof (sg_reach0 p ltac:(lia)). lia.
Qed.

Lemma key_less A V I h s t e p q : seg A V I h s t e -> s <= p <= e -> s <= q <= e ->
  K A V h p < K A V h q -> less (A p) (A q).
Proof.
  intros [] Hp Hq Hk. pose proof (sg_reach0 p Hp). pose proof (sg_reach0 q Hq). pose proof sg_stable0 as [].
  pose proof (sb_range0 p ltac:(lia)). pose proof (sb_range0 q ltac:(lia)).
  apply (less_double h); [done | lia | lia | | eapply stable_less; [exact sg_stable0 | lia | lia | exact Hk]].
  apply sb_depth0; [lia | lia |]. by rewrite !sg_class0.
Qed.

Lemma key_same A V I h s t e p q : seg A V I h s t e -> s <= p <= e -> s <= q <= e ->
  K A V h p = K A V h q -> pre (h + h) (A p) = pre (h + h) (A q).
Proof.
  intros [] Hp Hq Hk. pose proof (sg_reach0 p Hp). pose proof (sg_reach0 q Hq). pose proof sg_stable0 as [].
  pose proof (sb_range0 p ltac:(lia)). pose proof (sb_range0 q ltac:(lia)).
  apply pre_double; [done | lia | lia | lia | lia | | eapply stable_pre; [exact sg_stable0 | lia | lia | exact Hk]].
  apply sb_depth0; [lia | lia |]. by rewrite !sg_class0.
Qed.

Lemma seg_narrow A V I h s t e m : seg A V I h s t e -> s <= m <= t ->
  (forall p q, s <= p < m -> m <= q < t -> less (A p) (A q)) -> seg A V I h s m e.
Proof.
  intros [] Hm Hless. split; try done; [lia | intros p Hp; apply sg_I0; lia |].
  intros p q Hp Hq. destruct (Z_lt_ge_dec q t); [apply Hless; lia | apply sg_sep0; lia].
Qed.

(** ** Progress *)

(** A group of one suffix. *)
Definition single (A : Z -> Z) (V : list Z) (p : Z) : Prop :=
  group_end A V p = p /\ forall q, 0 <= q < p -> group_end A V q < p.

(** Positions [s] to [t] have been sorted on twice as many bytes; nothing else has changed. *)
Record progress (h s t : Z) (A : Z -> Z) (V I : list Z) (A' : Z -> Z) (V' I' : list Z) : Prop := {
  pg_len : length I' = length I;
  pg_I p : 0 <= p -> ~ s <= p < t -> arr I' p = arr I p;
  pg_A p : ~ s <= p < t -> A' p = A p;
  pg_out p : 0 <= p <= n -> ~ s <= p < t -> group_end A' V' p = group_end A V p;
  pg_in p : s <= p < t -> group_end A' V' p < t;
  pg_depth p q : s <= p < t -> s <= q < t -> group_end A' V' p = group_end A' V' q ->
    pre (h + h) (A' p) = pre (h + h) (A' q);
  pg_done p : s <= p < t -> (single A' V' p /\ arr I' p = -1) \/ (~ single A' V' p /\ arr I' p = A' p)
}.

Lemma progress_empty h s A V I : progress h s s A V I A V I.
Proof. split; try done; lia. Qed.

Lemma single_ext A V A' V' p : (forall q, 0 <= q <= p -> group_end A' V' q = group_end A V q) -> 0 <= p ->
  single A' V' p <-> single A V p.
Proof.
  intros Hg Hp. unfold single. rewrite Hg by lia. split; intros [H1 H2]; (split; [done|]); intros q Hq;
    [rewrite <- Hg by lia | rewrite Hg by lia]; by apply H2.
Qed.

Lemma progress_trans h s m t A V I A1 V1 I1 A2 V2 I2 : 0 <= s <= m -> m <= t -> t <= n + 1 -> stable A2 V2 h ->
  progress h s m A V I A1 V1 I1 -> progress h m t A1 V1 I1 A2 V2 I2 -> progress h s t A V I A2 V2 I2.
Proof.
  intros Hsm Hmt Htn Hst [] []. pose proof Hst as [].
  assert (forall p, s <= p < m -> group_end A2 V2 p = group_end A1 V1 p) as Hg.
  { intros p Hp. apply pg_out1; lia. }
  split.
  - congruence.
  - intros p Hp Hn. rewrite pg_I1 by lia. apply pg_I0; lia.
  - intros p Hn. rewrite pg_A1 by lia. apply pg_A0; lia.
  - intros p Hp Hn. rewrite pg_out1 by lia. apply pg_out0; lia.
  - intros p Hp. destruct (Z_lt_ge_dec p m); [|apply pg_in1; lia]. rewrite Hg by lia. pose proof (pg_in0 p). lia.
  - intros p q Hp Hq He. destruct (Z_lt_ge_dec p m), (Z_lt_ge_dec q m).
    + rewrite !pg_A1 by lia. apply pg_depth0; [lia | lia |]. by rewrite <- !Hg by lia.
    + rewrite Hg in He by lia. pose proof (pg_in0 p ltac:(lia)). pose proof (sb_end0 q ltac:(lia)). lia.
    + rewrite (Hg q) in He by lia. pose proof (pg_in0 q ltac:(lia)). pose proof (sb_end0 p ltac:(lia)). lia.
    + apply pg_depth1; [lia | lia | done].
  - intros p Hp. destruct (Z_lt_ge_dec p m) as [Hlt|]; [|apply pg_done1; lia].
    rewrite pg_I1, pg_A1 by lia. rewrite (single_ext A1 V1); [apply pg_done0; lia | | lia].
    intros q Hq. apply pg_out1; lia.
Qed.

(** What is left after the front of a segment has been sorted. *)
Lemma seg_next A V I A' V' I' h s m t e : seg A V I h s t e -> s <= m <= t -> stable A' V' h ->
  progress h s m A V I A' V' I' -> seg A' V' I' h m t e.
Proof.
  intros [] Hm Hst []. split; try done.
  - by rewrite pg_len0.
  - lia.
  - intros p Hp. rewrite pg_out0 by lia. apply sg_class0. lia.
  - intros p Hp. destruct (Z_lt_ge_dec p s); [|apply pg_in0; lia]. rewrite pg_out0 by lia.
    pose proof (sg_start0 p). lia.
  - intros p Hp. rewrite pg_I0, pg_A0 by lia. apply sg_I0. lia.
  - intros p q Hp Hq. rewrite !pg_A0 by lia. apply sg_sep0; lia.
  - intros p Hp. rewrite pg_A0 by lia. apply sg_reach0. lia.
Qed.

(** ** Closing a group *)

Lemma number_ok A I v m V p : Z.of_nat (length V) = n + 1 ->
  (forall q, p <= q < p + Z.of_nat m -> inside I q /\ arr I q = A q /\ 0 <= A q <= n) -> exists V',
  number m I V p v = Some V' /\ length V' = length V /\
  forall i, 0 <= i -> (arr V' i = v /\ exists q, p <= q < p + Z.of_nat m /\ i = A q) \/
                      (arr V' i = arr V i /\ forall q, p <= q < p + Z.of_nat m -> i <> A q).
Proof.
  revert V p. induction m as [|m IH]; intros V p Hl Hq; cbn [number].
  { exists V. do 2 (split; [done|]). intros i Hi. right. split; [done | lia]. }
  destruct (Hq p ltac:(lia)) as (Hin & HI & HA). rewrite rd_arr, HI by done. cbn [mbind option_bind].
  rewrite wr_upd by (unfold inside; lia). cbn [mbind option_bind].
  destruct (IH (upd V (A p) v) (p + 1)) as (V' & -> & Hl' & HV'); [by rewrite length_upd | intros q Hqq; apply Hq; lia |].
  exists V'. split; [done|]. split; [by rewrite Hl', length_upd|]. intros i Hi.
  destruct (HV' i Hi) as [(-> & q & Hqq & ->) | (-> & Hno)].
  - left. split; [done|]. exists q. split; [lia | done].
  - rewrite arr_upd by (unfold inside; lia). destruct (Z.eqb_spec i (A p)) as [-> | Hne].
    + left. split; [done|]. exists p. split; [lia | done].
    + right. split; [done|]. intros q Hqq. destruct (Z.eq_dec q p) as [-> |]; [done | apply Hno; lia].
Qed.

(** The new group ends where [V'] says. *)
Lemma group_end_number A V V' h s m : stable A V h -> 0 <= s <= m -> m <= n + 1 ->
  (forall i, 0 <= i -> (arr V' i = m - 1 /\ exists q, s <= q < m /\ i = A q) \/
                       (arr V' i = arr V i /\ forall q, s <= q < m -> i <> A q)) ->
  forall p, 0 <= p <= n -> group_end A V' p = if bool_decide (s <= p < m) then m - 1 else group_end A V p.
Proof.
  intros [] Hs Hm HV p Hp. unfold group_end.
  destruct (HV (A p) ltac:(by apply sb_range0)) as [(-> & q & Hq & He) | (-> & Hno)].
  - apply sb_inj0 in He as ->; [|lia..]. by rewrite bool_decide_true.
  - rewrite bool_decide_false; [done|]. intros Hin. by apply (Hno p Hin).
Qed.

Lemma stable_number A V V' I h s t e m : seg A V I h s t e -> s < m <= t -> length V' = length V ->
  (forall p, 0 <= p <= n -> group_end A V' p = if bool_decide (s <= p < m) then m - 1 else group_end A V p) ->
  (forall p q, s <= p < m -> s <= q < m -> pre (h + h) (A p) = pre (h + h) (A q)) ->
  (forall p q, s <= p < m -> m <= q < t -> less (A p) (A q)) -> stable A V' h.
Proof.
  intros [] Hm Hl Hg Hpre Hless. pose proof sg_stable0 as []. split; try done.
  - by rewrite Hl.
  - intros p Hp. rewrite Hg by done. case_bool_decide; [lia | by apply sb_end0].
  - intros p q Hp. rewrite Hg by done. pose proof (sb_end0 p Hp). case_bool_decide as H1; intros Hq.
    + rewrite Hg by lia. rewrite bool_decide_true; [done | lia].
    + rewrite Hg by lia. rewrite bool_decide_false; [by apply sb_class0|].
      intros H2. pose proof (sg_start0 p ltac:(lia)). lia.
  - intros p q Hp Hq. rewrite !Hg by lia. repeat case_bool_decide; intros Hne; try lia.
    + destruct (Z_le_gt_dec q e) as [Hqe|Hqe].
      * destruct (Z_lt_ge_dec q t); [apply Hless; lia | apply sg_sep0; lia].
      * apply sb_order0; [lia | lia |]. rewrite sg_class0 by lia. pose proof (sb_end0 q). lia.
    + apply sb_order0; [lia | lia |]. rewrite (sg_class0 q) by lia. pose proof (sg_start0 p). lia.
    + by apply sb_order0.
  - intros p q Hp Hq. rewrite !Hg by done. repeat case_bool_decide; intros He.
    + apply sb_depth0; [done | done |]. by rewrite !sg_class0 by lia.
    + pose proof (sb_end0 q Hq). destruct (Z_lt_ge_dec q s); [pose proof (sg_start0 q); lia | lia].
    + pose proof (sb_end0 p Hp). destruct (Z_lt_ge_dec p s); [pose proof (sg_start0 p); lia | lia].
    + by apply sb_depth0.
Qed.

Lemma single_start A V h p : stable A V h -> 0 <= p <= n -> (forall q, 0 <= q < p -> group_end A V q < p) ->
  group_end A V p <> p -> forall q, p <= q <= group_end A V p -> ~ single A V q.
Proof.
  intros [] Hp Hstart Hne q Hq [H1 H2]. rewrite (sb_class0 p q Hp Hq) in H1.
  pose proof (sb_end0 p Hp). specialize (H2 p ltac:(lia)). lia.
Qed.

Lemma close_group_ok A V I h s t e j : seg A V I h s t e -> 0 < j -> s + j <= t ->
  (forall p q, s <= p < s + j -> s <= q < s + j -> pre (h + h) (A p) = pre (h + h) (A q)) ->
  (forall p q, s <= p < s + j -> s + j <= q < t -> less (A p) (A q)) -> exists I' V',
  close_group I V s j = Some (I', V') /\ stable A V' h /\ progress h s (s + j) A V I A V' I'.
Proof.
  intros Hseg Hj Hjt Hpre Hless. pose proof Hseg as []. pose proof sg_stable0 as []. unfold close_group.
  destruct (number_ok A I (s + j - 1) (Z.to_nat j) V s sb_len0) as (V' & -> & Hl & HV).
  { intros q Hq. split; [unfold inside; lia|]. split; [apply sg_I0; lia | apply sb_range0; lia]. }
  cbn [mbind option_bind]. rewrite Z2Nat.id in HV by lia.
  pose proof (group_end_number A V V' h s (s + j) sg_stable0 ltac:(lia) ltac:(lia) HV) as Hg.
  assert (stable A V' h) as Hst' by (apply (stable_number A V V' I h s t e (s + j)); [done | lia | done | done | done | done]).
  assert (forall q, 0 <= q < s -> group_end A V' q < s) as Hs'.
  { intros q Hq. rewrite Hg, bool_decide_false by lia. by apply sg_start0. }
  assert (group_end A V' s = s + j - 1) as He by (rewrite Hg by lia; rewrite bool_decide_true by lia; done).
  destruct (Z.eqb_spec j 1) as [-> | Hj1]; cbn [mbind option_bind].
  - rewrite wr_upd by (unfold inside; lia). cbn [mbind option_bind].
    exists (upd I s (-1)), V'. split; [done|]. split; [done|]. split.
    + apply length_upd.
    + intros p Hp Hn. rewrite arr_upd by (unfold inside; lia). destruct (Z.eqb_spec p s); [lia | done].
    + done.
    + intros p Hp Hn. rewrite Hg, bool_decide_false; done.
    + intros p Hp. rewrite Hg by lia. rewrite bool_decide_true by done. lia.
    + intros p q Hp Hq _. by apply Hpre.
    + intros p Hp. replace p with s by lia. left. rewrite arr_upd, Z.eqb_refl by (unfold inside; lia).
      split; [|done]. split; [lia | done].
  - exists I, V'. split; [done|]. split; [done|]. split; try done.
    + intros p Hp Hn. rewrite Hg, bool_decide_false; done.
    + intros p Hp. rewrite Hg by lia. rewrite bool_decide_true by done. lia.
    + intros p q Hp Hq _. by apply Hpre.
    + intros p Hp. right. split; [|apply sg_I0; lia].
      apply (single_start A V' h s); [done | lia | done | lia | lia].
Qed.

(** ** Moving suffixes within a segment *)

Record moved (s t : Z) (A : Z -> Z) (I : list Z) (A' : Z -> Z) (I' : list Z) : Prop := {
  mv_len : length I' = length I;
  mv_I p : 0 <= p -> ~ s <= p < t -> arr I' p = arr I p;
  mv_A p : ~ s <= p < t -> A' p = A p
}.

Lemma moved_refl s t A I : moved s t A I A I.
Proof. by split. Qed.

Lemma moved_trans s t A I A1 I1 A2 I2 : moved s t A I A1 I1 -> moved s t A1 I1 A2 I2 -> moved s t A I A2 I2.
Proof.
  intros [] []. split; [congruence | intros p Hp Hn; by rewrite mv_I1, mv_I0 | intros p Hn; by rewrite mv_A1, mv_A0].
Qed.

Lemma moved_progress h s t A V I A1 I1 A2 V2 I2 : moved s t A I A1 I1 -> progress h s t A1 V I1 A2 V2 I2 ->
  progress h s t A V I A2 V2 I2.
Proof.
  intros [] []. split; try done.
  - congruence.
  - intros p Hp Hn. by rewrite pg_I0, mv_I0.
  - intros p Hn. by rewrite pg_A0, mv_A0.
  - intros p Hp Hn. rewrite pg_out0 by done. unfold group_end. by rewrite mv_A0.
Qed.

(** A swap inside a segment. *)
Lemma seg_swap_ok A V I h s t e a b : seg A V I h s t e -> s <= a < t -> s <= b < t -> exists I',
  swap I a b = Some I' /\ seg (fun p => A (transpose a b p)) V I' h s t e /\
  moved s t A I (fun p => A (transpose a b p)) I'.
Proof.
  intros Hseg Ha Hb. pose proof Hseg as [].
  destruct (swap_ok I a b) as (I' & -> & Hl & HI); [unfold inside; lia | unfold inside; lia |].
  exists I'. split; [done|]. split; [by eapply seg_swap|]. split; [done | |].
  - intros p Hp Hn. rewrite HI by done. f_equal. transpose_cases; lia.
  - intros p Hn. f_equal. transpose_cases; lia.
Qed.

(** Up to [t'], the first [j] keys are [x] and the others are greater. *)
Definition smallest (A : Z -> Z) (V : list Z) (h s j t' x : Z) : Prop :=
  (forall p, s <= p < s + j -> K A V h p = x) /\ forall p, s + j <= p < t' -> x < K A V h p.

Lemma gather_ok h s t e V m : forall A I i j x, seg A V I h s t e -> Z.of_nat m = t - s - i -> 0 < j <= i -> s + i <= t ->
  smallest A V h s j (s + i) x -> exists A' I' j' x',
  gather m V h s i j x I = Some (I', j') /\ seg A' V I' h s t e /\ moved s t A I A' I' /\
  0 < j' <= t - s /\ smallest A' V h s j' t x'.
Proof.
  induction m as [|m IH]; intros A I i j x Hseg Hm Hj Hi [Heq Hgt]; cbn [gather].
  { exists A, I, j, x. split; [done|]. split; [done|]. split; [apply moved_refl|]. split; [lia|].
    split; [done|]. intros p Hp. apply Hgt. lia. }
  rewrite (key_ok _ _ _ _ _ _ _ _ Hseg) by lia. cbn [mbind option_bind].
  destruct (Z.ltb_spec (K A V h (s + i)) x) as [Hlt|Hge]; cbn zeta iota; [rewrite Z.eqb_refl|destruct (Z.eqb_spec (K A V h (s + i)) x) as [Hx|Hx]].
  - destruct (seg_swap_ok _ _ _ _ _ _ _ (s + 0) (s + i) Hseg) as (I1 & -> & Hseg1 & Hmv1); [lia | lia |].
    cbn [mbind option_bind].
    destruct (IH _ I1 (i + 1) (0 + 1) (K A V h (s + i)) Hseg1) as (A' & I' & j' & x' & -> & Hseg' & Hmv & Hj' & Hsm); [lia | lia | lia | |].
    + unfold smallest, K in *. split; intros p Hp; cbv beta.
      * replace p with (s + 0) by lia. by unfold transpose; rewrite Z.eqb_refl.
      * destruct (Z_lt_ge_dec (transpose (s + 0) (s + i) p) (s + j)).
        -- rewrite (Heq (transpose (s + 0) (s + i) p)); [done|]. transpose_cases; lia.
        -- etrans; [exact Hlt|]. apply Hgt. transpose_cases; lia.
    + exists A', I', j', x'. split; [done|]. split; [done|]. split; [by eapply moved_trans | done].
  - destruct (seg_swap_ok _ _ _ _ _ _ _ (s + j) (s + i) Hseg) as (I1 & -> & Hseg1 & Hmv1); [lia | lia |].
    cbn [mbind option_bind].
    destruct (IH _ I1 (i + 1) (j + 1) x Hseg1) as (A' & I' & j' & x' & -> & Hseg' & Hmv & Hj' & Hsm); [lia | lia | lia | |].
    + unfold smallest, K in *. split; intros p Hp; cbv beta.
      * destruct (Z.eq_dec p (s + j)) as [-> |]; [by unfold transpose; rewrite Z.eqb_refl|].
        replace (transpose (s + j) (s + i) p) with p by (transpose_cases; lia). apply Heq. lia.
      * apply Hgt. transpose_cases; lia.
    + exists A', I', j', x'. split; [done|]. split; [done|]. split; [by eapply moved_trans | done].
  - apply IH; [done | lia | lia | lia |]. split; [done|]. intros p Hp.
    destruct (Z.eq_dec p (s + i)) as [-> |]; [lia | apply Hgt; lia].
Qed.

(** Outcome of a call that sorts a segment. *)
Definition sorts (h s t : Z) (A : Z -> Z) (V I : list Z) (r : option (list Z * list Z)) : Prop :=
  exists A' I' V', r = Some (I', V') /\ stable A' V' h /\ progress h s t A V I A' V' I'.

Lemma split_small_ok h e t fuel : forall A V I s, seg A V I h s t e -> t - s < Z.of_nat fuel ->
  sorts h s t A V I (split_small fuel h t s I V).
Proof.
  induction fuel as [|fuel IH]; intros A V I s Hseg Hf; [pose proof (sg_bounds _ _ _ _ _ _ _ Hseg); lia|].
  pose proof Hseg as []. cbn [split_small]. destruct (Z.ltb_spec s t) as [Hlt|Hge].
  - rewrite (key_ok _ _ _ _ _ _ _ _ Hseg) by lia. cbn [mbind option_bind].
    destruct (gather_ok h s t e V (Z.to_nat (t - s - 1)) A I 1 1 (K A V h s) Hseg) as (A1 & I1 & j & x & -> & Hseg1 & Hmv & Hj & Heq & Hgt);
      [lia | lia | lia | |].
    { split; intros p Hp; [|lia]. by replace p with s by lia. }
    cbn [mbind option_bind].
    destruct (close_group_ok _ _ _ _ _ _ _ j Hseg1) as (I2 & V2 & -> & Hst2 & Hpg2); [lia | lia | | |].
    + intros p q Hp Hq. eapply key_same; [exact Hseg1 | lia | lia |]. by rewrite !Heq.
    + intros p q Hp Hq. eapply key_less; [exact Hseg1 | lia | lia |]. rewrite Heq by done. by apply Hgt.
    + cbn [mbind option_bind].
      assert (seg A1 V2 I2 h (s + j) t e) as Hseg2 by (eapply seg_next; [exact Hseg1 | lia | done | exact Hpg2]).
      destruct (IH A1 V2 I2 (s + j) Hseg2 ltac:(lia)) as (A3 & I3 & V3 & -> & Hst3 & Hpg3).
      exists A3, I3, V3. split; [done|]. split; [done|]. eapply moved_progress; [exact Hmv|].
      eapply progress_trans; [| | | exact Hst3 | exact Hpg2 | exact Hpg3]; lia.
  - exists A, I, V. split; [done|]. split; [done|]. replace t with s by lia. apply progress_empty.
Qed.

(** ** Counting keys *)

Fixpoint count (P : Z -> bool) (m : nat) (s : Z) : Z :=
  match m with O => 0 | S m => (if P s then 1 else 0) + count P m (s + 1) end.

Lemma count_filter P m s : count P m s = Z.of_nat (length (filter (fun p => P p = true) (seqZ s (Z.of_nat m)))).
Proof.
  revert s. induction m as [|m IH]; intros s; [done|]. rewrite seqZ_cons by lia. cbn [count]. rewrite filter_cons, IH.
  replace (Z.pred (Z.of_nat (S m))) with (Z.of_nat m) by lia. replace (Z.succ s) with (s + 1) by lia.
  destruct (P s); cbn [length]; [rewrite decide_True by done|rewrite decide_False by done]; cbn [length]; lia.
Qed.

Lemma count_bound P m s l : NoDup l -> (forall p, p ∈ l -> s <= p < s + Z.of_nat m /\ P p = true) ->
  Z.of_nat (length l) <= count P m s.
Proof.
  intros Hnd Hl. rewrite count_filter. apply Nat2Z.inj_le, submseteq_length, NoDup_submseteq; [done|].
  intros p Hp. destruct (Hl p Hp). apply list_elem_of_filter. split; [done|]. apply elem_of_seqZ. lia.
Qed.

(** One more position than an interval of them. *)
Lemma count_interval P m s a k p : 0 <= k -> (forall q, a <= q < a + k -> s <= q < s + Z.of_nat m /\ P q = true) ->
  s <= p < s + Z.of_nat m -> P p = true -> ~ a <= p < a + k -> k < count P m s.
Proof.
  intros Hk Ha Hp HP Hn. enough (Z.of_nat (length (p :: seqZ a k)) <= count P m s) as Hc.
  { cbn [length] in Hc. rewrite length_seqZ in Hc. lia. }
  apply count_bound.
  - constructor; [|apply NoDup_seqZ]. by rewrite elem_of_seqZ.
  - intros q [-> | Hq]%elem_of_cons; [done|]. apply elem_of_seqZ in Hq. apply Ha. lia.
Qed.

Lemma count_transpose P m s a b : s <= a < s + Z.of_nat m -> s <= b < s + Z.of_nat m ->
  count (fun p => P (transpose a b p)) m s = count P m s.
Proof.
  intros Ha Hb. rewrite !count_filter. f_equal.
  assert (forall l, length (filter (fun p => P (transpose a b p) = true) l) =
                    length (filter (fun p => P p = true) (transpose a b <$> l))) as ->.
  { induction l as [|p l IH]; [done|]. rewrite fmap_cons, !filter_cons. case_decide; cbn [length]; by rewrite IH. }
  apply Permutation_length, filter_Permutation, NoDup_Permutation.
  - apply NoDup_fmap_2_strong; [|apply NoDup_seqZ]. intros p q _ _ He. transpose_cases; lia.
  - apply NoDup_seqZ.
  - intros p. rewrite list_elem_of_fmap. split.
    + intros (q & -> & Hq). apply elem_of_seqZ in Hq. apply elem_of_seqZ. transpose_cases; lia.
    + intros Hp. exists (transpose a b p). rewrite transpose_involutive. split; [done|].
      apply elem_of_seqZ in Hp. apply elem_of_seqZ. transpose_cases; lia.
Qed.

Lemma count_total A V h x m s :
  count (fun p => K A V h p <? x) m s + count (fun p => K A V h p =? x) m s +
  count (fun p => x <? K A V h p) m s = Z.of_nat m.
Proof.
  revert s. induction m as [|m IH]; intros s; [done|]. cbn [count]. specialize (IH (s + 1)).
  destruct (Z.ltb_spec (K A V h s) x), (Z.eqb_spec (K A V h s) x), (Z.ltb_spec x (K A V h s)); lia.
Qed.

Lemma tally_ok A V I h s t e x m : forall i jj kk, seg A V I h s t e -> s <= i -> i + Z.of_nat m <= t ->
  tally m I V h x i jj kk =
    Some (jj + count (fun p => K A V h p <? x) m i, kk + count (fun p => K A V h p =? x) m i).
Proof.
  induction m as [|m IH]; intros i jj kk Hseg Hi Hm; cbn [tally count]; [by rewrite !Z.add_0_r|].
  rewrite (key_ok _ _ _ _ _ _ _ _ Hseg) by lia. cbn [mbind option_bind]. rewrite IH by (done || lia).
  f_equal. f_equal; [destruct (K A V h i <? x) | destruct (K A V h i =? x)]; lia.
Qed.

(** ** Partition *)

(** The state of the two partitioning loops: positions up to [i] hold smaller keys, [j]
    of the keys equal to [x] and [k] of the greater ones are in place. *)
Record parted (A : Z -> Z) (V I : list Z) (h s t e x jj kk i j k : Z) : Prop := {
  pt_seg : seg A V I h s t e;
  pt_bounds : s <= i <= jj /\ 0 <= j /\ jj + j <= kk /\ 0 <= k /\ kk + k <= t;
  pt_lt p : s <= p < i -> K A V h p < x;
  pt_eq p : jj <= p < jj + j -> K A V h p = x;
  pt_gt p : kk <= p < kk + k -> x < K A V h p;
  pt_count_lt : count (fun p => K A V h p <? x) (Z.to_nat (t - s)) s = jj - s;
  pt_count_eq : count (fun p => K A V h p =? x) (Z.to_nat (t - s)) s = kk - jj
}.

Lemma parted_swap A V I I' h s t e x jj kk i j k a b : parted A V I h s t e x jj kk i j k ->
  s <= a < t -> s <= b < t -> seg (fun p => A (transpose a b p)) V I' h s t e ->
  (forall p, s <= p < i \/ jj <= p < jj + j \/ kk <= p < kk + k -> transpose a b p = p) ->
  parted (fun p => A (transpose a b p)) V I' h s t e x jj kk i j k.
Proof.
  intros [] Ha Hb Hseg Hfix. pose proof pt_seg0 as []. unfold K in *. split; try done.
  - intros p Hp. unfold K. rewrite Hfix by auto. by apply pt_lt0.
  - intros p Hp. unfold K. rewrite Hfix by auto. by apply pt_eq0.
  - intros p Hp. unfold K. rewrite Hfix by auto. by apply pt_gt0.
  - rewrite <- pt_count_lt0. apply (count_transpose (fun p => arr V (A p + h) <? x)); lia.
  - rewrite <- pt_count_eq0. apply (count_transpose (fun p => arr V (A p + h) =? x)); lia.
Qed.

Lemma parted_room_eq A V I h s t e x jj kk i j k p : parted A V I h s t e x jj kk i j k -> s <= p < t ->
  K A V h p = x -> ~ jj <= p < jj + j -> jj + j < kk.
Proof.
  intros [] Hp HK Hn. enough (j < count (fun p => K A V h p =? x) (Z.to_nat (t - s)) s) by lia.
  apply count_interval with jj p; [lia | | lia | by apply Z.eqb_eq | done].
  intros q Hq. split; [lia | apply Z.eqb_eq; by apply pt_eq0].
Qed.

Lemma parted_room_gt A V I h s t e x jj kk i j k p : parted A V I h s t e x jj kk i j k -> s <= p < t ->
  x < K A V h p -> ~ kk <= p < kk + k -> kk + k < t.
Proof.
  intros [] Hp HK Hn. pose proof (count_total A V h x (Z.to_nat (t - s)) s) as Ht.
  enough (k < count (fun p => x <? K A V h p) (Z.to_nat (t - s)) s) by lia.
  apply count_interval with kk p; [lia | | lia | by apply Z.ltb_lt | done].
  intros q Hq. split; [lia | apply Z.ltb_lt; by apply pt_gt0].
Qed.

(** Once all smaller keys are in front there are none left. *)
Lemma parted_no_lt A V I h s t e x jj kk j k p : parted A V I h s t e x jj kk jj j k -> jj <= p < t -> x <= K A V h p.
Proof.
  intros [] Hp. destruct (Z_lt_ge_dec (K A V h p) x) as [Hlt|]; [|lia].
  enough (jj - s < count (fun p => K A V h p <? x) (Z.to_nat (t - s)) s) by lia.
  apply count_interval with s p; [lia | | lia | by apply Z.ltb_lt | lia].
  intros q Hq. split; [lia | apply Z.ltb_lt; apply pt_lt0; lia].
Qed.

Lemma lower_part_ok h s t e V x jj kk fuel : forall A I i j k, parted A V I h s t e x jj kk i j k ->
  t - i - j - k < Z.of_nat fuel -> exists A' I' j' k',
  lower_part fuel V h x jj kk i j k I = Some (I', j', k') /\ parted A' V I' h s t e x jj kk jj j' k' /\
  moved s t A I A' I'.
Proof.
  induction fuel as [|fuel IH]; intros A I i j k Hp Hf; [destruct Hp; lia|]. pose proof Hp as []. cbn [lower_part].
  destruct (Z.ltb_spec i jj) as [Hi|Hi].
  - rewrite (key_ok _ _ _ _ _ _ _ _ pt_seg0) by lia. cbn [mbind option_bind].
    destruct (Z.ltb_spec (K A V h i) x) as [Hlt|Hge]; [|destruct (Z.eqb_spec (K A V h i) x) as [Heq|Hne]].
    + apply IH; [|lia]. split; try done; [lia|]. intros p Hpp. destruct (Z.eq_dec p i) as [-> |]; [done | apply pt_lt0; lia].
    + pose proof (parted_room_eq _ _ _ _ _ _ _ _ _ _ _ _ _ i Hp ltac:(lia) Heq ltac:(lia)).
      destruct (seg_swap_ok _ _ _ _ _ _ _ i (jj + j) pt_seg0) as (I1 & -> & Hseg1 & Hmv1); [lia | lia |].
      cbn [mbind option_bind].
      assert (parted (fun p => A (transpose i (jj + j) p)) V I1 h s t e x jj kk i j k) as []
        by (eapply parted_swap; [exact Hp | lia | lia | done |]; intros p Hpp; transpose_cases; lia).
      destruct (IH (fun p => A (transpose i (jj + j) p)) I1 i (j + 1) k) as (A' & I' & j' & k' & -> & Hp' & Hmv'); [| lia |].
      * split; [exact pt_seg1 | lia | done | | done | done | done].
        intros p Hpp. destruct (Z.eq_dec p (jj + j)) as [-> |]; [|apply pt_eq1; lia].
        unfold K. rewrite <- Heq. unfold K. do 3 f_equal. transpose_cases; lia.
      * exists A', I', j', k'. split; [done|]. split; [done|]. by eapply moved_trans.
    + pose proof (parted_room_gt _ _ _ _ _ _ _ _ _ _ _ _ _ i Hp ltac:(lia) ltac:(lia) ltac:(lia)).
      destruct (seg_swap_ok _ _ _ _ _ _ _ i (kk + k) pt_seg0) as (I1 & -> & Hseg1 & Hmv1); [lia | lia |].
      cbn [mbind option_bind].
      assert (parted (fun p => A (transpose i (kk + k) p)) V I1 h s t e x jj kk i j k) as []
        by (eapply parted_swap; [exact Hp | lia | lia | done |]; intros p Hpp; transpose_cases; lia).
      destruct (IH (fun p => A (transpose i (kk + k) p)) I1 i j (k + 1)) as (A' & I' & j' & k' & -> & Hp' & Hmv'); [| lia |].
      * split; [exact pt_seg1 | lia | done | done | | done | done].
        intros p Hpp. destruct (Z.eq_dec p (kk + k)) as [-> |]; [|apply pt_gt1; lia].
        unfold K. replace (transpose i (kk + k) (kk + k)) with i by (transpose_cases; lia). unfold K in *. lia.
      * exists A', I', j', k'. split; [done|]. split; [done|]. by eapply moved_trans.
  - exists A, I, j, k. split; [done|]. replace i with jj in Hp by lia. split; [done | apply moved_refl].
Qed.

(** The result of the partition. *)
Definition three_parts (A : Z -> Z) (V : list Z) (h s t x jj kk : Z) : Prop :=
  (forall p, s <= p < jj -> K A V h p < x) /\ (forall p, jj <= p < kk -> K A V h p = x) /\
  (forall p, kk <= p < t -> x < K A V h p).

Lemma middle_part_ok h s t e V x jj kk fuel : forall A I j k, parted A V I h s t e x jj kk jj j k ->
  t - jj - j - k < Z.of_nat fuel -> exists A' I',
  middle_part fuel V h x jj kk j k I = Some I' /\ seg A' V I' h s t e /\ three_parts A' V h s t x jj kk /\
  moved s t A I A' I'.
Proof.
  induction fuel as [|fuel IH]; intros A I j k Hp Hf; [destruct Hp; lia|]. pose proof Hp as []. cbn [middle_part].
  destruct (Z.ltb_spec (jj + j) kk) as [Hj|Hj].
  - rewrite (key_ok _ _ _ _ _ _ _ _ pt_seg0) by lia. cbn [mbind option_bind].
    pose proof (parted_no_lt _ _ _ _ _ _ _ _ _ _ _ _ (jj + j) Hp ltac:(lia)) as Hge.
    destruct (Z.eqb_spec (K A V h (jj + j)) x) as [Heq|Hne].
    + apply IH; [|lia]. split; try done; [lia|]. intros p Hpp.
      destruct (Z.eq_dec p (jj + j)) as [-> |]; [done | apply pt_eq0; lia].
    + pose proof (parted_room_gt _ _ _ _ _ _ _ _ _ _ _ _ _ (jj + j) Hp ltac:(lia) ltac:(lia) ltac:(lia)).
      destruct (seg_swap_ok _ _ _ _ _ _ _ (jj + j) (kk + k) pt_seg0) as (I1 & -> & Hseg1 & Hmv1); [lia | lia |].
      cbn [mbind option_bind].
      assert (parted (fun p => A (transpose (jj + j) (kk + k) p)) V I1 h s t e x jj kk jj j k) as []
        by (eapply parted_swap; [exact Hp | lia | lia | done |]; intros p Hpp; transpose_cases; lia).
      destruct (IH (fun p => A (transpose (jj + j) (kk + k) p)) I1 j (k + 1)) as (A' & I' & -> & Hseg' & Hp' & Hmv'); [| lia |].
      * split; [exact pt_seg1 | lia | done | done | | done | done].
        intros p Hpp. destruct (Z.eq_dec p (kk + k)) as [-> |]; [|apply pt_gt1; lia].
        unfold K. replace (transpose (jj + j) (kk + k) (kk + k)) with (jj + j) by (transpose_cases; lia). unfold K in *. lia.
      * exists A', I'. split; [done|]. split; [done|]. split; [done|]. by eapply moved_trans.
  - exists A, I. split; [done|]. split; [done|]. split; [|apply moved_refl].
    split; [done|]. split; [intros p Hpp; apply pt_eq0; lia|]. intros p Hpp.
    pose proof (parted_no_lt _ _ _ _ _ _ _ _ _ _ _ _ p Hp ltac:(lia)) as Hge.
    destruct (Z.eq_dec (K A V h p) x) as [Heq|]; [|lia].
    pose proof (parted_room_eq _ _ _ _ _ _ _ _ _ _ _ _ _ p Hp ltac:(lia) Heq ltac:(lia)). lia.
Qed.

Lemma count_nonneg P m s : 0 <= count P m s.
Proof. revert s. induction m as [|m IH]; intros s; cbn [count]; [lia|]. specialize (IH (s + 1)). destruct (P s); lia. Qed.

(** The partition around the key in the middle. *)
Lemma partition_ok A V I h s len e : seg A V I h s (s + len) e -> 0 < len -> exists x jj kk A' I',
  (x ← key I V h (s + len / 2);
   '(jj, kk) ← tally (Z.to_nat len) I V h x s 0 0;
   let jj := jj + s in let kk := kk + jj in
   '(I, j, k) ← lower_part (S (Z.to_nat len)) V h x jj kk s 0 0 I;
   I ← middle_part (S (Z.to_nat len)) V h x jj kk j k I; Some (I, jj, kk)) = Some (I', jj, kk) /\
  s <= jj < kk /\ kk <= s + len /\ seg A' V I' h s (s + len) e /\ three_parts A' V h s (s + len) x jj kk /\
  moved s (s + len) A I A' I'.
Proof.
  intros Hseg Hlen. pose proof Hseg as [].
  assert (0 <= len / 2 < len) by (split; [apply Z.div_pos; lia | apply Z.div_lt_upper_bound; lia]).
  rewrite (key_ok _ _ _ _ _ _ _ _ Hseg) by lia. cbn [mbind option_bind]. set (x := K A V h (s + len / 2)).
  rewrite (tally_ok _ _ _ _ _ _ _ _ _ _ _ _ Hseg) by lia. cbn [mbind option_bind]. cbn zeta. rewrite !Z.add_0_l.
  set (jj := count _ _ _ + s). set (kk := count _ _ _ + jj).
  pose proof (count_total A V h x (Z.to_nat len) s) as Htot.
  pose proof (count_nonneg (fun p => K A V h p <? x) (Z.to_nat len) s).
  pose proof (count_nonneg (fun p => x <? K A V h p) (Z.to_nat len) s).
  assert (0 < count (fun p => K A V h p =? x) (Z.to_nat len) s).
  { apply count_interval with s (s + len / 2); [lia | lia | lia | by apply Z.eqb_eq | lia]. }
  assert (parted A V I h s (s + len) e x jj kk s 0 0) as Hp.
  { unfold kk, jj. split; [done | lia | lia | lia | lia | |]; replace (s + len - s) with len by lia; lia. }
  destruct (lower_part_ok h s (s + len) e V x jj kk (S (Z.to_nat len)) A I s 0 0 Hp) as (A1 & I1 & j & k & -> & Hp1 & Hmv1); [lia|].
  cbn [mbind option_bind].
  destruct (middle_part_ok h s (s + len) e V x jj kk (S (Z.to_nat len)) A1 I1 j k Hp1) as (A2 & I2 & -> & Hseg2 & Hthree & Hmv2).
  { destruct Hp1. unfold jj in *. lia. }
  cbn [mbind option_bind]. exists x, jj, kk, A2, I2. split; [done|]. split; [lia|]. split; [lia|].
  split; [done|]. split; [done|]. by eapply moved_trans.
Qed.

Lemma split_parts fuel I V start len h : 16 <= len -> split (S fuel) I V start len h =
  '(I, jj, kk) ← (x ← key I V h (start + len / 2);
   '(jj, kk) ← tally (Z.to_nat len) I V h x start 0 0;
   let jj := jj + start in let kk := kk + jj in
   '(I, j, k) ← lower_part (S (Z.to_nat len)) V h x jj kk start 0 0 I;
   I ← middle_part (S (Z.to_nat len)) V h x jj kk j k I; Some (I, jj, kk));
  '(I, V) ← (if start <? jj then split fuel I V start (jj - start) h else Some (I, V));
  '(I, V) ← close_group I V jj (kk - jj);
  if kk <? start + len then split fuel I V kk (start + len - kk) h else Some (I, V).
Proof.
  intros Hlen. cbn [split]. destruct (Z.ltb_spec len 16); [lia|].
  destruct (key I V h (start + len / 2)) as [x|]; [|done]. cbn [mbind option_bind].
  destruct (tally _ _ _ _ _ _ _ _) as [[jj kk]|]; [|done]. cbn [mbind option_bind]. cbn zeta.
  destruct (lower_part _ _ _ _ _ _ _ _ _ _) as [[[I1 j] k]|]; [|done]. cbn [mbind option_bind].
  by destruct (middle_part _ _ _ _ _ _ _ _ _) as [I2|].
Qed.

Lemma split_ok h e fuel : forall A V I s len, seg A V I h s (s + len) e -> len < Z.of_nat fuel ->
  sorts h s (s + len) A V I (split fuel I V s len h).
Proof.
  induction fuel as [|fuel IH]; intros A V I s len Hseg Hf; [destruct Hseg; lia|].
  destruct (Z_lt_ge_dec len 16) as [Hlt|Hge].
  { cbn [split]. destruct (Z.ltb_spec len 16); [|lia]. apply split_small_ok with e; [done | destruct Hseg; lia]. }
  rewrite split_parts by lia.
  destruct (partition_ok A V I h s len e Hseg ltac:(lia)) as (x & jj & kk & A1 & I1 & -> & Hjj & Hkk & Hseg1 & (Hlt & Heq & Hgt) & Hmv).
  cbn [mbind option_bind]. pose proof Hseg1 as [].
  assert (sorts h s jj A1 V I1 (if s <? jj then split fuel I1 V s (jj - s) h else Some (I1, V))) as (A2 & I2 & V2 & -> & Hst2 & Hpg2).
  { destruct (Z.ltb_spec s jj).
    - replace jj with (s + (jj - s)) at 1 by lia. apply IH; [|lia]. replace (s + (jj - s)) with jj by lia.
      eapply seg_narrow; [exact Hseg1 | lia |]. intros p q Hp Hq. eapply key_less; [exact Hseg1 | lia | lia |].
      specialize (Hlt p Hp). destruct (Z_lt_ge_dec q kk); [rewrite (Heq q); lia | specialize (Hgt q); lia].
    - exists A1, I1, V. replace jj with s by lia. split; [done|]. split; [done | apply progress_empty]. }
  cbn [mbind option_bind].
  assert (seg A2 V2 I2 h jj (s + len) e) as Hseg2 by (eapply seg_next; [exact Hseg1 | lia | done | exact Hpg2]).
  destruct (close_group_ok _ _ _ _ _ _ _ (kk - jj) Hseg2) as (I3 & V3 & -> & Hst3 & Hpg3); [lia | lia | | |].
  { intros p q Hp Hq. rewrite !(pg_A _ _ _ _ _ _ _ _ _ Hpg2) by lia.
    eapply key_same; [exact Hseg1 | lia | lia |]. by rewrite !Heq by lia. }
  { intros p q Hp Hq. rewrite !(pg_A _ _ _ _ _ _ _ _ _ Hpg2) by lia.
    eapply key_less; [exact Hseg1 | lia | lia |]. rewrite Heq by lia. apply Hgt. lia. }
  cbn [mbind option_bind]. replace (jj + (kk - jj)) with kk in Hpg3 by lia.
  assert (seg A2 V3 I3 h kk (s + len) e) as Hseg3 by (eapply seg_next; [exact Hseg2 | lia | done | exact Hpg3]).
  assert (sorts h kk (s + len) A2 V3 I3 (if kk <? s + len then split fuel I3 V3 kk (s + len - kk) h else Some (I3, V3)))
    as (A4 & I4 & V4 & -> & Hst4 & Hpg4).
  { destruct (Z.ltb_spec kk (s + len)).
    - replace (s + len) with (kk + (s + len - kk)) at 1 by lia. apply IH; [|lia]. by replace (kk + (s + len - kk)) with (s + len) by lia.
    - exists A2, I3, V3. replace (s + len) with kk by lia. split; [done|]. split; [done | apply progress_empty]. }
  exists A4, I4, V4. split; [done|]. split; [done|]. eapply moved_progress; [exact Hmv|].
  eapply progress_trans; [| | | exact Hst4 | exact Hpg2 |]; [lia | lia | lia |].
  eapply progress_trans; [| | | exact Hst4 | exact Hpg3 | exact Hpg4]; lia.
Qed.

(** ** A pass over the array *)

(** No group reaches across the start of position [a]. *)
Definition boundary (A : Z -> Z) (V : list Z) (a : Z) : Prop := forall q, 0 <= q < a -> group_end A V q < a.

(** What [I] shows from [a] to [b]: runs of finished suffixes and groups to be sorted. *)
Inductive layout (h : Z) (A : Z -> Z) (V I : list Z) : Z -> Z -> Prop :=
  | layout_nil a : layout h A V I a a
  | layout_run a l b : 0 < l -> arr I a = - l -> (forall p, a <= p < a + l -> single A V p) ->
      layout h A V I (a + l) b -> layout h A V I a b
  | layout_group a b : boundary A V a -> a <= group_end A V a ->
      (forall p, a <= p <= group_end A V a -> arr I p = A p /\ A p + h <= n) ->
      layout h A V I (group_end A V a + 1) b -> layout h A V I a b.

Lemma layout_le h A V I a b : layout h A V I a b -> a <= b.
Proof. induction 1; lia. Qed.

Lemma layout_app h A V I a b c : layout h A V I a b -> layout h A V I b c -> layout h A V I a c.
Proof. induction 1; intros Hc; [done | eapply layout_run; eauto | eapply layout_group; eauto]. Qed.

Lemma layout_ext h A V I A' V' I' a b : layout h A V I a b -> 0 <= a ->
  (forall p, a <= p < b -> arr I' p = arr I p /\ A' p = A p /\ group_end A' V' p = group_end A V p) ->
  (forall c q, a <= c < b -> 0 <= q < c -> group_end A V q < c -> group_end A' V' q < c) ->
  layout h A' V' I' a b.
Proof.
  induction 1 as [a | a l b Hl HI Hs Hlay IH | a b Hb He Hg Hlay IH]; intros Ha Hin Hout; [constructor | |].
  - pose proof (layout_le _ _ _ _ _ _ Hlay) as Hle. apply layout_run with l; [done | | |].
    + destruct (Hin a ltac:(lia)) as (-> & _). done.
    + intros p Hp. destruct (Hs p Hp) as [H1 H2]. split; [destruct (Hin p ltac:(lia)) as (_ & _ & ->); done|].
      intros q Hq. apply Hout; [lia | done | by apply H2].
    + apply IH; [lia | intros p Hp; apply Hin; lia | intros c q Hc; apply Hout; lia].
  - pose proof (layout_le _ _ _ _ _ _ Hlay) as Hle. destruct (Hin a ltac:(lia)) as (_ & _ & Hga).
    apply layout_group; rewrite ?Hga.
    + intros q Hq. apply Hout; [lia | done | by apply Hb].
    + done.
    + intros p Hp. destruct (Hin p ltac:(lia)) as (-> & -> & _). by apply Hg.
    + apply IH; [lia | intros p Hp; apply Hin; lia | intros c q Hc; apply Hout; lia].
Qed.

Lemma layout_before h h' A V I A' V' I' s t a b : layout h A V I a b -> 0 <= a -> b <= s -> b <= n + 1 ->
  progress h' s t A V I A' V' I' -> layout h A' V' I' a b.
Proof.
  intros Hl Ha Hb Hn []. apply (layout_ext _ _ _ _ _ _ _ _ _ Hl Ha).
  - intros p Hp. rewrite pg_I0, pg_A0, pg_out0 by lia. done.
  - intros c q Hc Hq. by rewrite pg_out0 by lia.
Qed.

Lemma layout_after h h' A V I A' V' I' s t a b : layout h A V I a b -> 0 <= a -> t <= a -> b <= n + 1 ->
  progress h' s t A V I A' V' I' -> layout h A' V' I' a b.
Proof.
  intros Hl Ha Hb Hn []. apply (layout_ext _ _ _ _ _ _ _ _ _ Hl Ha).
  - intros p Hp. rewrite pg_I0, pg_A0, pg_out0 by lia. done.
  - intros c q Hc Hq Hlt. destruct (Z_lt_ge_dec q s); [by rewrite pg_out0 by lia|].
    destruct (Z_lt_ge_dec q t); [specialize (pg_in0 q); lia | by rewrite pg_out0 by lia].
Qed.

Lemma layout_upd h A V I i x a b : layout h A V I a b -> 0 <= a -> inside I i -> ~ a <= i < b ->
  layout h A V (upd I i x) a b.
Proof.
  intros Hl Ha Hi Hn. apply (layout_ext _ _ _ _ _ _ _ _ _ Hl Ha); [|done]. intros p Hp.
  rewrite arr_upd by (done || lia). destruct (Z.eqb_spec p i); [lia | done].
Qed.

(** A sorted segment is laid out for the next pass. *)
Lemma progress_layout h A V I A' V' I' s t m : stable A' V' h -> 0 < h -> 0 <= s -> t <= n + 1 ->
  progress h s t A V I A' V' I' -> forall a, s <= a <= t -> t - a <= Z.of_nat m -> boundary A' V' a ->
  layout (h + h) A' V' I' a t.
Proof.
  intros Hst Hh Hs Ht Hpg. pose proof Hst as []. pose proof Hpg as [].
  induction m as [|m IH]; intros a Ha Hm Hb; [replace t with a by lia; constructor|].
  destruct (Z.eq_dec a t) as [-> | Hne]; [constructor|].
  pose proof (sb_end0 a ltac:(lia)) as Hend. pose proof (pg_in0 a ltac:(lia)) as Hint.
  destruct (Z.eq_dec (group_end A' V' a) a) as [He|He].
  - assert (single A' V' a) as Hsg by by split.
    apply layout_run with 1; [lia | | intros p Hp; by replace p with a by lia |].
    + by destruct (pg_done0 a ltac:(lia)) as [[_ ?] | [? _]].
    + apply IH; [lia | lia |]. intros q Hq. destruct (Z.eq_dec q a) as [-> |]; [lia | specialize (Hb q); lia].
  - assert (forall p, a <= p <= group_end A' V' a -> group_end A' V' p = group_end A' V' a) as Hcl.
    { intros p Hp. apply sb_class0; lia. }
    apply layout_group; [done | lia | |].
    + intros p Hp. pose proof (single_start A' V' h a Hst ltac:(lia) Hb He p Hp) as Hns.
      split; [by destruct (pg_done0 p ltac:(lia)) as [[? _] | [_ ?]]|].
      assert (exists q, a <= q <= group_end A' V' a /\ q <> p) as (q & Hq & Hqp).
      { destruct (Z.eq_dec p a); [exists (a + 1) | exists a]; lia. }
      apply (pre_full (h + h) (A' p) (A' q)); [lia | apply sb_range0; lia | apply sb_range0; lia | |].
      * intros Heq. apply Hqp. apply sb_inj0; [lia | lia | done].
      * apply pg_depth0; [lia | lia |]. by rewrite (Hcl p), (Hcl q).
    + apply IH; [lia | lia |]. intros q Hq. destruct (Z_lt_ge_dec q a); [specialize (Hb q); lia|].
      rewrite Hcl; lia.
Qed.

(** The state of a pass that has come to position [i], of which the last [len] are finished
    suffixes to be joined into one run. *)
Record passing (A : Z -> Z) (V I : list Z) (h i len : Z) : Prop := {
  ps_stable : stable A V h;
  ps_len : Z.of_nat (length I) = n + 1;
  ps_bounds : 0 <= len <= i /\ i <= n + 1;
  ps_done : layout (h + h) A V I 0 (i - len);
  ps_single p : i - len <= p < i -> single A V p;
  ps_left : layout h A V I i (n + 1);
  ps_boundary : boundary A V i;
  ps_depth p q : 0 <= p < i -> 0 <= q < i -> group_end A V p = group_end A V q -> pre (h + h) (A p) = pre (h + h) (A q)
}.

Lemma passing_start A V I h : stable A V h -> Z.of_nat (length I) = n + 1 -> layout h A V I 0 (n + 1) -> passing A V I h 0 0.
Proof. intros Hs Hl Hlay. split; try done; [lia | constructor | lia | intros q Hq; lia | lia]. Qed.

Lemma join_ok A V I h i len : passing A V I h i len -> exists I',
  join I i len = Some I' /\ Z.of_nat (length I') = n + 1 /\ layout (h + h) A V I' 0 i /\
  layout h A V I' i (n + 1) /\ forall p, i <= p -> arr I' p = arr I p.
Proof.
  intros []. unfold join. destruct (truthy len) eqn:Ht.
  - apply truthy_true in Ht. assert (inside I (i - len)) by (unfold inside; lia). rewrite wr_upd by done.
    eexists. split; [reflexivity|]. split; [by rewrite length_upd|]. split; [|split].
    + eapply layout_app; [apply layout_upd; [exact ps_done0 | lia | done | lia]|].
      apply layout_run with len; [lia | rewrite arr_upd, Z.eqb_refl by (done || lia); done | intros p Hp; apply ps_single0; lia |].
      replace (i - len + len) with i by lia. constructor.
    + apply layout_upd; [done | lia | done | lia].
    + intros p Hp. rewrite arr_upd by (done || lia). destruct (Z.eqb_spec p (i - len)); [lia | done].
  - apply truthy_false in Ht as ->. exists I. rewrite Z.sub_0_r in ps_done0. done.
Qed.

Lemma stable_deeper A V h h' : stable A V h ->
  (forall p q, 0 <= p <= n -> 0 <= q <= n -> group_end A V p = group_end A V q -> pre h' (A p) = pre h' (A q)) ->
  stable A V h'.
Proof. intros [] Hd. by split. Qed.

(** A run is passed over. *)
Lemma pass_run A V I h i len l : passing A V I h i len -> 0 < l -> (forall p, i <= p < i + l -> single A V p) ->
  layout h A V I (i + l) (n + 1) -> passing A V I h (i + l) (len + l).
Proof.
  intros [] Hl Hs Hlay. pose proof (layout_le _ _ _ _ _ _ Hlay). split; try done.
  - lia.
  - by replace (i + l - (len + l)) with (i - len) by lia.
  - intros p Hp. destruct (Z_lt_ge_dec p i); [apply ps_single0; lia | apply Hs; lia].
  - intros q Hq. destruct (Z_lt_ge_dec q i); [specialize (ps_boundary0 q); lia|]. destruct (Hs q ltac:(lia)). lia.
  - intros p q Hp Hq He.
    assert (forall p q, 0 <= p < i + l -> i <= q < i + l -> group_end A V p = group_end A V q -> p = q) as Heq.
    { intros p' q' Hp' Hq' He'. destruct (Hs q' Hq') as [H1 H2].
      destruct (Z_lt_ge_dec p' q') as [Hlt|]; [specialize (H2 p' ltac:(lia)); lia|].
      destruct (Hs p' ltac:(lia)). lia. }
    destruct (Z_lt_ge_dec p i), (Z_lt_ge_dec q i).
    + apply ps_depth0; [lia | lia | done].
    + by rewrite (Heq p q) by (lia || done).
    + symmetry. by rewrite (Heq q p) by (lia || done).
    + by rewrite (Heq p q) by (lia || done).
Qed.

(** The segment of a group. *)
Lemma group_seg A V I h i : stable A V h -> 0 < h -> Z.of_nat (length I) = n + 1 -> 0 <= i <= n -> boundary A V i ->
  (forall p, i <= p <= group_end A V i -> arr I p = A p /\ A p + h <= n) ->
  seg A V I h i (i + (group_end A V i + 1 - i)) (group_end A V i).
Proof.
  intros Hst Hh Hl Hi Hb Hg. pose proof Hst as []. pose proof (sb_end0 i Hi).
  replace (i + (group_end A V i + 1 - i)) with (group_end A V i + 1) by lia. split; try done; try lia.
  - intros p Hp. by apply sb_class0.
  - intros p Hp. apply Hg. lia.
  - intros p Hp. by apply Hg.
Qed.

Lemma pass_group A V I h i t A' V' I' : stable A V h -> boundary A V i -> 0 < h -> 0 <= i <= t -> t <= n + 1 ->
  Z.of_nat (length I) = n + 1 -> layout (h + h) A V I 0 i -> layout h A V I t (n + 1) ->
  (forall p q, 0 <= p < i -> 0 <= q < i -> group_end A V p = group_end A V q -> pre (h + h) (A p) = pre (h + h) (A q)) ->
  stable A' V' h -> progress h i t A V I A' V' I' -> passing A' V' I' h t 0.
Proof.
  intros Hst Hb Hh Hi Ht Hl Hdone Hleft Hd Hst' Hpg. pose proof Hpg as []. pose proof Hst' as [].
  assert (boundary A' V' i) as Hb'. { intros q Hq. rewrite pg_out0 by lia. by apply Hb. }
  split; try done.
  - by rewrite pg_len0.
  - lia.
  - rewrite Z.sub_0_r. eapply layout_app.
    + eapply layout_before; [exact Hdone | lia | | lia | exact Hpg]. lia.
    + eapply (progress_layout h A V I A' V' I' i t (Z.to_nat (t - i))); [done | done | lia | lia | done | lia | lia | done].
  - intros p Hp. lia.
  - eapply layout_after; [exact Hleft | lia | | lia | exact Hpg]. lia.
  - intros q Hq. destruct (Z_lt_ge_dec q i); [specialize (Hb' q); lia | apply pg_in0; lia].
  - intros p q Hp Hq He. destruct (Z_lt_ge_dec p i), (Z_lt_ge_dec q i).
    + rewrite !pg_A0 by lia. rewrite !pg_out0 in He by lia. apply Hd; [lia | lia | done].
    + specialize (Hb' p ltac:(lia)). pose proof (sb_end0 q ltac:(lia)). lia.
    + specialize (Hb' q ltac:(lia)). pose proof (sb_end0 p ltac:(lia)). lia.
    + apply pg_depth0; [lia | lia | done].
Qed.

Lemma pass_ok h fuel : 0 < h -> forall A V I i len, passing A V I h i len -> n + 1 - i < Z.of_nat fuel -> exists A' I' V',
  pass fuel n h i len I V = Some (I', V') /\ stable A' V' (h + h) /\ Z.of_nat (length I') = n + 1 /\
  layout (h + h) A' V' I' 0 (n + 1).
Proof.
  intros Hh. induction fuel as [|fuel IH]; intros A V I i len Hp Hf; [destruct Hp; lia|]. pose proof Hp as [].
  cbn [pass]. destruct (Z.ltb_spec i (n + 1)) as [Hi|Hi].
  - rewrite rd_arr by (unfold inside; lia). cbn [mbind option_bind]. pose proof ps_stable0 as [].
    inversion ps_left0 as [|a l b Hl HI Hs Hlay | a b Hb He Hg Hlay]; subst; [lia | |].
    + rewrite HI. destruct (Z.ltb_spec (- l) 0); [|lia]. rewrite !Z.sub_opp_r.
      apply IH with A; [by apply pass_run | lia].
    + destruct (Hg i ltac:(lia)) as [HIi _]. pose proof (sb_range0 i ltac:(lia)). pose proof (sb_end0 i ltac:(lia)).
      rewrite HIi. destruct (Z.ltb_spec (A i) 0); [lia|].
      destruct (join_ok _ _ _ _ _ _ Hp) as (I1 & -> & Hl1 & Hdone1 & Hleft1 & Harr). cbn [mbind option_bind].
      rewrite rd_arr by (unfold inside; lia). cbn [mbind option_bind]. rewrite Harr, HIi by lia.
      rewrite rd_arr by (unfold inside; lia). cbn [mbind option_bind].
      change (arr V (A i)) with (group_end A V i). cbn zeta. set (e := group_end A V i) in *.
      assert (seg A V I1 h i (i + (e + 1 - i)) e) as Hseg.
      { apply group_seg; try done; [lia|]. intros p Hpp. rewrite Harr by lia. by apply Hg. }
      destruct (split_ok h e (S (Z.to_nat (e + 1 - i))) A V I1 i (e + 1 - i) Hseg) as (A2 & I2 & V2 & -> & Hst2 & Hpg2); [lia|].
      cbn [mbind option_bind]. apply IH with A2; [|lia].
      replace (i + (e + 1 - i)) with (e + 1) in * by lia.
      eapply pass_group; [exact ps_stable0 | exact ps_boundary0 | done | | | exact Hl1 | exact Hdone1 | | exact ps_depth0 | exact Hst2 | exact Hpg2]; [lia | lia |].
      eapply layout_ext; [exact Hlay | lia | |done]. intros p Hpp. rewrite Harr by lia. done.
  - destruct (join_ok _ _ _ _ _ _ Hp) as (I1 & -> & Hl1 & Hdone1 & _). cbn [mbind option_bind].
    replace i with (n + 1) in * by lia. exists A, I1, V. split; [done|]. split; [|done].
    apply (stable_deeper A V h); [done|]. intros p q Hpp Hq. apply ps_depth0; lia.
Qed.

(** ** All passes *)

(** When the groups agree on more bytes than the file has, a pass only joins runs. *)
Lemma pass_finish h A V I fuel : stable A V h -> n < h -> Z.of_nat (length I) = n + 1 -> forall i, 0 <= i ->
  layout h A V I i (n + 1) -> n + 1 - i < Z.of_nat fuel -> pass fuel n h i i I V = Some (upd I 0 (- (n + 1)), V).
Proof.
  intros [] Hh Hl. induction fuel as [|fuel IH]; intros i Hi Hlay Hf; pose proof (layout_le _ _ _ _ _ _ Hlay); [lia|].
  cbn [pass]. destruct (Z.ltb_spec i (n + 1)) as [Hin|Hin].
  - rewrite rd_arr by (unfold inside; lia). cbn [mbind option_bind].
    inversion Hlay as [|a l b Hl0 HI Hs Hlay' | a b Hb He Hg Hlay']; subst; [lia | |].
    + rewrite HI. destruct (Z.ltb_spec (- l) 0); [|lia]. rewrite !Z.sub_opp_r. apply IH; [lia | done | lia].
    + destruct (Hg i ltac:(lia)) as [_ Hr]. pose proof (sb_range0 i ltac:(lia)). lia.
  - replace i with (n + 1) by lia. unfold join. rewrite (proj2 (truthy_true (n + 1))) by lia.
    replace (n + 1 - (n + 1)) with 0 by lia. rewrite wr_upd by (unfold inside; lia). done.
Qed.

(** Every suffix is in its place. *)
Definition in_place (A : Z -> Z) (V : list Z) : Prop := forall p, 0 <= p <= n -> arr V (A p) = p.

Lemma layout_finished h A V I : stable A V h -> layout h A V I 0 (n + 1) -> arr I 0 = - (n + 1) -> in_place A V.
Proof.
  intros [] Hlay HI0 p Hp. inversion Hlay as [|a l b Hl0 HI Hs Hlay' | a b Hb He Hg Hlay']; subst; [lia | |].
  - by destruct (Hs p ltac:(lia)).
  - destruct (Hg 0 ltac:(lia)) as [HI _]. pose proof (sb_range0 0 ltac:(lia)). lia.
Qed.

Lemma stable_finished h A V : stable A V h -> n < h -> in_place A V.
Proof.
  intros [] Hh p Hp. pose proof (sb_end0 p Hp) as He. fold (group_end A V p).
  destruct (Z.eq_dec (group_end A V p) p) as [|Hne]; [done|]. exfalso.
  assert (A p + h <= n); [|pose proof (sb_range0 p Hp); lia].
  apply (pre_full h (A p) (A (group_end A V p))); [lia | by apply sb_range0 | apply sb_range0; lia | |].
  - intros Heq. apply Hne. symmetry. apply sb_inj0; [done | lia | done].
  - apply sb_depth0; [done | lia |]. symmetry. apply sb_class0; lia.
Qed.

Lemma swrap_small w x : 0 < w -> - 2 ^ (w - 1) <= x < 2 ^ (w - 1) -> swrap w x = x.
Proof.
  intros Hw Hx. unfold swrap. assert (2 ^ w = 2 * 2 ^ (w - 1)) as ->.
  { replace w with (1 + (w - 1)) at 1 by lia. rewrite Z.pow_add_r by lia. lia. }
  rewrite Z.mod_small; lia.
Qed.

Lemma double_loop_S w fuel h I V : inside I 0 -> double_loop w (S fuel) n h I V =
  if arr I 0 =? - (n + 1) then Some (I, V)
  else '(I, V) ← pass (S (S (Z.to_nat n))) n h 0 0 I V; double_loop w fuel n (off w (h + h)) I V.
Proof. intros Hi. cbn [double_loop]. by rewrite rd_arr by done. Qed.

(** The loop ends: [k + 1] passes sort a file of less than [h * 2 ^ k] bytes. *)
Lemma double_loop_ok w k : 0 < w -> 2 * n < 2 ^ (w - 1) -> forall h A V I, 0 < h -> stable A V h ->
  Z.of_nat (length I) = n + 1 -> layout h A V I 0 (n + 1) -> n < h * 2 ^ Z.of_nat k -> exists h' A' I' V',
  double_loop w (S (S k)) n h I V = Some (I', V') /\ stable A' V' h' /\ Z.of_nat (length I') = n + 1 /\ in_place A' V'.
Proof.
  intros Hw0 Hw. induction k as [|k IH]; intros h A V I Hh Hst Hl Hlay Hk; rewrite double_loop_S by (unfold inside; lia);
    (destruct (Z.eqb_spec (arr I 0) (- (n + 1))) as [He|He];
     [exists h, A, I, V; split; [done|]; split; [done|]; split; [done | by eapply layout_finished]|]).
  all: destruct (Z_lt_ge_dec n h) as [Hnh|Hnh].
  1, 3: rewrite (pass_finish h A V I) by (done || lia); cbn [mbind option_bind];
    rewrite double_loop_S by (unfold inside; rewrite length_upd; lia); rewrite arr_upd by (unfold inside; lia);
    rewrite !Z.eqb_refl; exists h, A, (upd I 0 (- (n + 1))), V; rewrite length_upd;
    (split; [done|]); (split; [done|]); (split; [done | by eapply stable_finished]).
  1: cbn in Hk; lia.
  destruct (pass_ok h (S (S (Z.to_nat n))) Hh A V I 0 0) as (A' & I' & V' & -> & Hst' & Hl' & Hlay'); [by apply passing_start | lia |].
  cbn [mbind option_bind]. unfold off. rewrite swrap_small by lia. apply (IH (h + h) A'); [lia | done | done | done |].
  rewrite Nat2Z.inj_succ, Z.pow_succ_r in Hk by lia. lia.
Qed.

(** ** The result *)

Lemma invert_ok h A V : stable A V h -> in_place A V -> forall m i I, Z.of_nat (length I) = n + 1 ->
  0 <= i -> i + Z.of_nat m = n + 1 -> exists I', invert m i I V = Some I' /\ Z.of_nat (length I') = n + 1 /\
  forall p, 0 <= p <= n -> arr I' p = if i <=? A p then A p else arr I p.
Proof.
  intros [] Hpl. induction m as [|m IH]; intros i I Hl Hi Hm; cbn [invert].
  { exists I. split; [done|]. split; [done|]. intros p Hp. pose proof (sb_range0 p Hp).
    destruct (Z.leb_spec i (A p)); [lia | done]. }
  destruct (sb_surj0 i ltac:(lia)) as (p0 & Hp0 & HA). rewrite rd_arr by (unfold inside; lia). cbn [mbind option_bind].
  assert (arr V i = p0) as -> by (rewrite <- HA; by apply Hpl). rewrite wr_upd by (unfold inside; lia). cbn [mbind option_bind].
  destruct (IH (i + 1) (upd I p0 i)) as (I' & -> & Hl' & HI'); [by rewrite length_upd | lia | lia |].
  exists I'. split; [done|]. split; [done|]. intros p Hp. rewrite HI', arr_upd by (done || unfold inside; lia).
  destruct (Z.leb_spec (i + 1) (A p)), (Z.leb_spec i (A p)), (Z.eqb_spec p p0) as [? | Hne]; subst; try lia; try done.
  exfalso. apply Hne. apply sb_inj0; [done | done | lia].
Qed.

(** ** Buckets *)

(** How many bytes of [l] are [c], and how many are less than [c]. *)
Fixpoint occ (c : Z) (l : list Z) : Z :=
  match l with [] => 0 | x :: l => (if x =? c then 1 else 0) + occ c l end.
Fixpoint below (c : Z) (l : list Z) : Z :=
  match l with [] => 0 | x :: l => (if x <? c then 1 else 0) + below c l end.

Lemma occ_nonneg c l : 0 <= occ c l.
Proof. induction l as [|x l IH]; cbn; [lia|]. destruct (x =? c); lia. Qed.

Lemma occ_app c l m : occ c (l ++ m) = occ c l + occ c m.
Proof. induction l as [|x l IH]; cbn; [lia|]. rewrite IH. lia. Qed.

Lemma below_succ c l : below (c + 1) l = below c l + occ c l.
Proof.
  induction l as [|x l IH]; cbn; [lia|]. rewrite IH.
  destruct (Z.ltb_spec x (c + 1)), (Z.ltb_spec x c), (Z.eqb_spec x c); lia.
Qed.

Lemma below_mono c c' l : c <= c' -> below c l <= below c' l.
Proof. intros Hc. induction l as [|x l IH]; cbn; [lia|]. destruct (Z.ltb_spec x c), (Z.ltb_spec x c'); lia. Qed.

Lemma below_0 l : Forall is_u8 l -> below 0 l = 0.
Proof. induction 1 as [|x l Hx _ IH]; cbn; [done|]. unfold is_u8 in Hx. rewrite IH. destruct (Z.ltb_spec x 0); lia. Qed.

Lemma below_256 l : Forall is_u8 l -> below 256 l = Z.of_nat (length l).
Proof.
  induction 1 as [|x l Hx _ IH]; cbn [below length]; [done|]. unfold is_u8 in Hx. rewrite IH.
  destruct (Z.ltb_spec x 256); lia.
Qed.

Context (Hbytes : Forall is_u8 old).

Definition holds (b : list Z) (f : Z -> Z) : Prop := length b = 256%nat /\ forall c, 0 <= c < 256 -> arr b c = f c.

Lemma holds_inside b f c : holds b f -> 0 <= c < 256 -> inside b c.
Proof. intros [Hl _] Hc. unfold inside. rewrite Hl. lia. Qed.

Lemma holds_upd b f g c x : holds b f -> 0 <= c < 256 ->
  (forall c', 0 <= c' < 256 -> g c' = if c' =? c then x else f c') -> holds (upd b c x) g.
Proof.
  intros Hb Hc Hg. split; [rewrite length_upd; apply Hb|]. intros c' Hc'.
  rewrite arr_upd by (by eapply holds_inside || lia). rewrite Hg by done. destruct (c' =? c); [done | by apply Hb].
Qed.

Lemma count_bytes_ok l : Forall is_u8 l -> forall b f, holds b f -> exists b',
  count_bytes l b = Some b' /\ holds b' (fun c => f c + occ c l).
Proof.
  induction 1 as [|x l Hx Hl IH]; intros b f Hb; cbn [count_bytes].
  { exists b. split; [done|]. destruct Hb as [Hlen Hb]. split; [done|]. intros c Hc. cbn. rewrite Hb by done. lia. }
  assert (inside b x) by (by eapply holds_inside). rewrite rd_arr by done. cbn [mbind option_bind].
  rewrite wr_upd by done. cbn [mbind option_bind].
  destruct (IH (upd b x (arr b x + 1)) (fun c => if c =? x then f c + 1 else f c)) as (b' & -> & Hb').
  { eapply holds_upd; [exact Hb | done |]. intros c Hc. destruct (Z.eqb_spec c x) as [-> |]; [|done].
    by rewrite (proj2 Hb). }
  exists b'. split; [done|]. destruct Hb' as [Hl' Hb']. split; [done|]. intros c Hc. rewrite Hb' by done. cbn.
  destruct (Z.eqb_spec c x), (Z.eqb_spec x c); lia.
Qed.

Lemma cumulate_ok m : forall i b, Z.of_nat m = 256 - i -> 0 < i ->
  holds b (fun c => if c <? i then below (c + 1) old else occ c old) -> exists b',
  cumulate m i b = Some b' /\ holds b' (fun c => below (c + 1) old).
Proof.
  induction m as [|m IH]; intros i b Hm Hi Hb; cbn [cumulate].
  { exists b. split; [done|]. destruct Hb as [Hl Hb]. split; [done|]. intros c Hc. rewrite Hb by done.
    destruct (Z.ltb_spec c i); [done | lia]. }
  rewrite !rd_arr by (by eapply holds_inside; [exact Hb | lia]). cbn [mbind option_bind].
  rewrite wr_upd by (by eapply holds_inside; [exact Hb | lia]). cbn [mbind option_bind].
  apply IH; [lia | lia |]. eapply holds_upd; [exact Hb | lia |]. intros c Hc. cbv beta.
  rewrite !(proj2 Hb) by lia. destruct (Z.ltb_spec i i); [lia|]. destruct (Z.ltb_spec (i - 1) i); [|lia].
  replace (i - 1 + 1) with i by lia.
  destruct (Z.eqb_spec c i) as [-> |]; [|destruct (Z.ltb_spec c i), (Z.ltb_spec c (i + 1)); done || lia].
  destruct (Z.ltb_spec i (i + 1)); [|lia]. rewrite below_succ. lia.
Qed.

Lemma shift_up_ok f m : forall i b, Z.of_nat m = i -> i < 256 ->
  holds b (fun c => if i <? c then f (c - 1) else f c) -> exists b',
  shift_up m i b = Some b' /\ holds b' (fun c => if 0 <? c then f (c - 1) else f c).
Proof.
  induction m as [|m IH]; intros i b Hm Hi Hb; cbn [shift_up].
  { exists b. split; [done|]. by replace 0 with i by lia. }
  rewrite !rd_arr by (by eapply holds_inside; [exact Hb | lia]). cbn [mbind option_bind].
  rewrite wr_upd by (by eapply holds_inside; [exact Hb | lia]). cbn [mbind option_bind].
  apply IH; [lia | lia |]. eapply holds_upd; [exact Hb | lia |]. intros c Hc. cbv beta. rewrite (proj2 Hb) by lia.
  destruct (Z.ltb_spec i (i - 1)), (Z.ltb_spec (i - 1) c), (Z.ltb_spec i c), (Z.eqb_spec c i); subst; done || lia.
Qed.

(** The first part of qsufsort: where the suffixes that start with each byte begin. *)
Lemma buckets_ok : exists b,
  (b ← count_bytes old (replicate 256 0); b ← cumulate 255 1 b; b ← shift_up 255 255 b; wr b 0 0) = Some b /\
  holds b (fun c => below c old).
Proof.
  destruct (count_bytes_ok old Hbytes (replicate 256 0) (fun _ => 0)) as (b1 & -> & Hb1).
  { split; [done|]. intros c Hc. unfold arr. rewrite nth_lookup, lookup_replicate_2; [done | lia]. }
  cbn [mbind option_bind].
  destruct (cumulate_ok 255 1 b1) as (b2 & -> & Hb2); [done | done | |].
  { destruct Hb1 as [Hl Hb1]. split; [done|]. intros c Hc. rewrite Hb1 by done.
    destruct (Z.ltb_spec c 1) as [|]; [|done]. replace c with 0 by lia. rewrite below_succ, below_0 by done. done. }
  cbn [mbind option_bind].
  destruct (shift_up_ok (fun c => below (c + 1) old) 255 255 b2) as (b3 & -> & Hb3); [done | done | |].
  { destruct Hb2 as [Hl Hb2]. split; [done|]. intros c Hc. rewrite Hb2 by done.
    destruct (Z.ltb_spec 255 c); [lia | done]. }
  cbn [mbind option_bind]. rewrite wr_upd by (by eapply holds_inside; [exact Hb3 | lia]). eexists. split; [done|].
  eapply holds_upd; [exact Hb3 | lia |]. intros c Hc. cbv beta. destruct (Z.eqb_spec c 0) as [-> |]; [by apply below_0|].
  destruct (Z.ltb_spec 0 c); [|lia]. f_equal. lia.
Qed.

(** ** The first arrangement *)

(** Where the counting sort puts suffix [j], and where its bucket ends. *)
Definition pos (j : Z) : Z := below (arr old j) old + occ (arr old j) (take (Z.to_nat j) old) + 1.
Definition cum (c : Z) : Z := below (c + 1) old.

Lemma byte_at_ok j : 0 <= j < n -> old !! Z.to_nat j = Some (arr old j) /\ 0 <= arr old j < 256.
Proof.
  intros Hj. destruct (lookup_lt_is_Some_2 old (Z.to_nat j)) as [x Hx]; [lia|]. unfold arr.
  rewrite (nth_lookup_Some _ _ _ _ Hx). split; [done|]. apply (Forall_lookup_1 _ _ _ _ Hbytes Hx).
Qed.

Lemma take_succ j : 0 <= j < n -> take (Z.to_nat (j + 1)) old = take (Z.to_nat j) old ++ [arr old j].
Proof.
  intros Hj. replace (Z.to_nat (j + 1)) with (S (Z.to_nat j)) by lia. apply take_S_r. by apply byte_at_ok.
Qed.

Lemma occ_take c j : 0 <= j < n -> occ c (take (Z.to_nat (j + 1)) old) =
  occ c (take (Z.to_nat j) old) + if arr old j =? c then 1 else 0.
Proof. intros Hj. rewrite take_succ, occ_app by done. cbn. lia. Qed.

Lemma occ_take_mono c i j : 0 <= i <= j -> occ c (take (Z.to_nat i) old) <= occ c (take (Z.to_nat j) old).
Proof.
  intros Hij. assert (take (Z.to_nat i) old = take (Z.to_nat i) (take (Z.to_nat j) old)) as ->
    by (rewrite take_take; f_equal; lia).
  rewrite <- (take_drop (Z.to_nat i) (take (Z.to_nat j) old)) at 2. rewrite occ_app.
  pose proof (occ_nonneg c (drop (Z.to_nat i) (take (Z.to_nat j) old))). lia.
Qed.

Lemma pos_bounds j : 0 <= j < n -> below (arr old j) old < pos j <= cum (arr old j) /\ cum (arr old j) <= n.
Proof.
  intros Hj. unfold pos, cum. pose proof (occ_nonneg (arr old j) (take (Z.to_nat j) old)).
  pose proof (occ_take (arr old j) j Hj) as Ho. rewrite Z.eqb_refl in Ho.
  pose proof (occ_take_mono (arr old j) (j + 1) n ltac:(lia)) as Hm. rewrite Nat2Z.id, firstn_all in Hm.
  destruct (byte_at_ok j Hj) as [_ Hb]. pose proof (below_mono (arr old j + 1) 256 old ltac:(lia)) as Hn.
  rewrite below_256 in Hn by done. rewrite below_succ in *. lia.
Qed.

Lemma below_nonneg c : 0 <= c -> 0 <= below c old.
Proof. intros Hc. pose proof (below_mono 0 c old Hc) as H. by rewrite below_0 in H by done. Qed.

(** Positions are in the order of the bytes. *)
Lemma pos_order i j : 0 <= i < n -> 0 <= j < n -> arr old i < arr old j -> cum (arr old i) < pos j.
Proof.
  intros Hi Hj Hlt. pose proof (pos_bounds j Hj). pose proof (below_mono (arr old i + 1) (arr old j) old ltac:(lia)).
  unfold cum. lia.
Qed.

Lemma pos_lt i j : 0 <= i < j -> j < n -> arr old i = arr old j -> pos i < pos j.
Proof.
  intros Hi Hj He. unfold pos. rewrite He. pose proof (occ_take (arr old j) i ltac:(lia)) as Ho.
  rewrite He, Z.eqb_refl in Ho. pose proof (occ_take_mono (arr old j) (i + 1) j ltac:(lia)). lia.
Qed.

Lemma pos_inj i j : 0 <= i < n -> 0 <= j < n -> pos i = pos j -> i = j.
Proof.
  intros Hi Hj He. pose proof (pos_bounds i Hi). pose proof (pos_bounds j Hj).
  destruct (Z.lt_trichotomy (arr old i) (arr old j)) as [Hlt | [Heq | Hgt]].
  - pose proof (pos_order i j Hi Hj Hlt). lia.
  - destruct (Z.lt_trichotomy i j) as [Hl | [? | Hg]]; [|done|].
    + pose proof (pos_lt i j ltac:(lia) ltac:(lia) Heq). lia.
    + pose proof (pos_lt j i ltac:(lia) ltac:(lia) ltac:(done)). lia.
  - pose proof (pos_order j i Hj Hi Hgt). lia.
Qed.

Lemma pos_surj p : 1 <= p <= n -> exists j, 0 <= j < n /\ pos j = p.
Proof.
  intros Hp. assert (pos <$> seqZ 0 n ≡ₚ seqZ 1 n) as Hperm.
  { apply submseteq_length_Permutation.
    - apply NoDup_submseteq.
      + apply NoDup_fmap_2_strong; [|apply NoDup_seqZ]. intros i j Hi%elem_of_seqZ Hj%elem_of_seqZ. apply pos_inj; lia.
      + intros q (j & -> & Hj%elem_of_seqZ)%list_elem_of_fmap. apply elem_of_seqZ. pose proof (pos_bounds j ltac:(lia)).
        pose proof (below_nonneg (arr old j) ltac:(apply byte_at_ok; lia)). lia.
    - rewrite length_fmap, !length_seqZ. lia. }
  assert (p ∈ seqZ 1 n) as Hin by (apply elem_of_seqZ; lia). rewrite <- Hperm in Hin.
  apply list_elem_of_fmap in Hin as (j & -> & Hj%elem_of_seqZ). exists j. split; [lia | done].
Qed.

Lemma place_ok rest : forall i b I, rest = drop (Z.to_nat i) old -> 0 <= i <= n ->
  holds b (fun c => below c old + occ c (take (Z.to_nat i) old)) -> Z.of_nat (length I) = n + 1 ->
  (forall j, 0 <= j < i -> arr I (pos j) = j) -> exists b' I',
  place rest i b I = Some (b', I') /\ holds b' cum /\ Z.of_nat (length I') = n + 1 /\
  forall j, 0 <= j < n -> arr I' (pos j) = j.
Proof.
  induction rest as [|c rest IH]; intros i b I Hrest Hi Hb Hl HI; cbn [place].
  - assert (i = n) as -> by (apply (f_equal length) in Hrest; rewrite length_drop in Hrest; cbn in Hrest; lia).
    exists b, I. split; [done|]. split; [|done]. destruct Hb as [Hbl Hb]. split; [done|]. intros c Hc.
    rewrite Hb by done. rewrite Nat2Z.id, firstn_all. unfold cum. by rewrite below_succ.
  - assert (0 <= i < n) as Hin by (apply (f_equal length) in Hrest; rewrite length_drop in Hrest; cbn in Hrest; lia).
    destruct (byte_at_ok i Hin) as [Hlk Hc]. rewrite (drop_S _ _ _ Hlk) in Hrest. injection Hrest as -> Hrest.
    assert (inside b (arr old i)) as Hib by by eapply holds_inside. rewrite rd_arr by done. cbn [mbind option_bind].
    rewrite (wr_upd b) by done. cbn [mbind option_bind].
    assert (arr b (arr old i) + 1 = pos i) as -> by by rewrite (proj2 Hb).
    pose proof (pos_bounds i Hin). pose proof (below_nonneg (arr old i) ltac:(lia)).
    rewrite wr_upd by (unfold inside; lia). cbn [mbind option_bind].
    apply IH; [|lia | | by rewrite length_upd |].
    + rewrite Hrest. f_equal. lia.
    + eapply holds_upd; [exact Hb | done |]. intros c' Hc'. cbv beta. rewrite occ_take by done. unfold pos.
      destruct (Z.eqb_spec c' (arr old i)) as [-> | Hne]; [rewrite Z.eqb_refl; lia|].
      destruct (Z.eqb_spec (arr old i) c'); lia.
    + intros j Hj. pose proof (pos_bounds j ltac:(lia)). pose proof (below_nonneg (arr old j) ltac:(apply byte_at_ok; lia)).
      rewrite arr_upd by (unfold inside; lia). destruct (Z.eqb_spec (pos j) (pos i)) as [He|He].
      * symmetry. apply pos_inj; [lia | lia | done].
      * apply HI. destruct (Z.eq_dec j i) as [-> |]; [done | lia].
Qed.

Lemma rank_bytes_ok b rest : holds b cum -> forall i V, rest = drop (Z.to_nat i) old -> 0 <= i <= n ->
  Z.of_nat (length V) = n + 1 -> (forall j, 0 <= j < i -> arr V j = cum (arr old j)) -> exists V',
  rank_bytes rest i b V = Some V' /\ Z.of_nat (length V') = n + 1 /\ forall j, 0 <= j < n -> arr V' j = cum (arr old j).
Proof.
  intros Hb. induction rest as [|c rest IH]; intros i V Hrest Hi Hl HV; cbn [rank_bytes].
  - assert (i = n) as -> by (apply (f_equal length) in Hrest; rewrite length_drop in Hrest; cbn in Hrest; lia).
    by exists V.
  - assert (0 <= i < n) as Hin by (apply (f_equal length) in Hrest; rewrite length_drop in Hrest; cbn in Hrest; lia).
    destruct (byte_at_ok i Hin) as [Hlk Hc]. rewrite (drop_S _ _ _ Hlk) in Hrest. injection Hrest as -> Hrest.
    rewrite rd_arr by (by eapply holds_inside). cbn [mbind option_bind]. rewrite (proj2 Hb) by done.
    rewrite wr_upd by (unfold inside; lia). cbn [mbind option_bind].
    apply IH; [rewrite Hrest; f_equal; lia | lia | by rewrite length_upd |].
    intros j Hj. rewrite arr_upd by (unfold inside; lia). destruct (Z.eqb_spec j i) as [-> |]; [done | apply HV; lia].
Qed.

(** Position [p] ends a bucket of one suffix, other than bucket 0, which the loop leaves out. *)
Definition marked (i p : Z) : Prop := exists c, i <= c < 256 /\ occ c old = 1 /\ p = cum c.

Lemma mark_single_ok b m : holds b cum -> forall i I, Z.of_nat m = 256 - i -> 0 < i -> Z.of_nat (length I) = n + 1 -> exists I',
  mark_single m i b I = Some I' /\ Z.of_nat (length I') = n + 1 /\
  forall p, 0 <= p -> (marked i p /\ arr I' p = -1) \/ (~ marked i p /\ arr I' p = arr I p).
Proof.
  intros Hb. induction m as [|m IH]; intros i I Hm Hi Hl; cbn [mark_single].
  { exists I. split; [done|]. split; [done|]. intros p Hp. right. split; [|done]. intros (c & Hc & _). lia. }
  rewrite !rd_arr by (by eapply holds_inside; [exact Hb | lia]). cbn [mbind option_bind]. rewrite !(proj2 Hb) by lia.
  assert (cum i = cum (i - 1) + occ i old) as Hcum.
  { unfold cum. rewrite (below_succ i). by replace (i - 1 + 1) with i by lia. }
  pose proof (below_mono (i + 1) 256 old ltac:(lia)) as Hn. rewrite below_256 in Hn by done. fold (cum i) in Hn.
  pose proof (below_nonneg (i + 1) ltac:(lia)) as Hn0. fold (cum i) in Hn0.
  assert (exists I1, (if cum i =? cum (i - 1) + 1 then wr I (cum i) (-1) else Some I) = Some I1 /\ length I1 = length I /\
    forall p, 0 <= p -> arr I1 p = if bool_decide (occ i old = 1 /\ p = cum i) then -1 else arr I p) as (I1 & -> & Hl1 & HI1).
  { destruct (Z.eqb_spec (cum i) (cum (i - 1) + 1)) as [He|He].
    - rewrite wr_upd by (unfold inside; lia). eexists. split; [done|]. split; [apply length_upd|]. intros p Hp.
      rewrite arr_upd by (unfold inside; lia). destruct (Z.eqb_spec p (cum i)); [rewrite bool_decide_true | rewrite bool_decide_false]; done || lia.
    - exists I. split; [done|]. split; [done|]. intros p Hp. rewrite bool_decide_false; [done | lia]. }
  cbn [mbind option_bind]. destruct (IH (i + 1) I1) as (I' & -> & Hl' & HI'); [lia | lia | by rewrite Hl1 |].
  exists I'. split; [done|]. split; [done|]. intros p Hp.
  destruct (HI' p Hp) as [[(c & Hc & Ho & He) Hr] | [Hn1 Hr]].
  - left. split; [|done]. exists c. split; [lia | done].
  - rewrite Hr, HI1 by done. case_bool_decide as Hd.
    + left. split; [|done]. exists i. split; [lia | done].
    + right. split; [|done]. intros (c & Hc & Ho & He). destruct (Z.eq_dec c i) as [-> |]; [by apply Hd|].
      apply Hn1. exists c. split; [lia | done].
Qed.

(** The arrangement by the first byte. *)
Record by_byte (A : Z -> Z) (V : list Z) : Prop := {
  bb_len : Z.of_nat (length V) = n + 1;
  bb_A0 : A 0 = n;
  bb_A j : 0 <= j < n -> A (pos j) = j;
  bb_V j : 0 <= j < n -> arr V j = cum (arr old j);
  bb_V0 : arr V n = 0
}.

Lemma suf_cons j : 0 <= j < n -> suf j = arr old j :: suf (j + 1).
Proof.
  intros Hj. unfold suf. rewrite (drop_S _ _ _ (proj1 (byte_at_ok j Hj))). do 2 f_equal. lia.
Qed.

Lemma suf_end : suf n = [].
Proof. unfold suf. apply drop_ge. lia. Qed.

(** Each position belongs to the end of the file or to a suffix that starts with a byte. *)
Lemma by_byte_cases A V p : by_byte A V -> 0 <= p <= n ->
  (p = 0 /\ A p = n /\ group_end A V p = 0) \/
  (exists j, 0 <= j < n /\ p = pos j /\ A p = j /\ group_end A V p = cum (arr old j) /\
     below (arr old j) old < p <= cum (arr old j) /\ cum (arr old j) <= n /\ 0 <= below (arr old j) old).
Proof.
  intros [] Hp. unfold group_end. destruct (Z.eq_dec p 0) as [-> | Hne]; [left; by rewrite bb_A1|]. right.
  destruct (pos_surj p ltac:(lia)) as (j & Hj & <-). exists j. split; [done|]. split; [done|].
  rewrite bb_A2, bb_V1 by done. pose proof (pos_bounds j Hj).
  pose proof (below_nonneg (arr old j) ltac:(apply byte_at_ok; lia)). repeat split; lia.
Qed.

Lemma cum_inj i j : 0 <= i < n -> 0 <= j < n -> cum (arr old i) = cum (arr old j) -> arr old i = arr old j.
Proof.
  intros Hi Hj He. pose proof (pos_bounds i Hi). pose proof (pos_bounds j Hj).
  destruct (Z.lt_trichotomy (arr old i) (arr old j)) as [Hlt | [? | Hgt]]; [|done|].
  - pose proof (pos_order i j Hi Hj Hlt). lia.
  - pose proof (pos_order j i Hj Hi Hgt). lia.
Qed.

Lemma by_byte_stable A V : by_byte A V -> stable A V 1.
Proof.
  intros Hbb. pose proof Hbb as []. split; try done.
  - intros p Hp. destruct (by_byte_cases A V p Hbb Hp) as [(_ & -> & _) | (j & Hj & _ & -> & _)]; lia.
  - intros p q Hp Hq. destruct (by_byte_cases A V p Hbb Hp) as [(-> & -> & _) | (i & Hi & -> & -> & _)];
      destruct (by_byte_cases A V q Hbb Hq) as [(-> & -> & _) | (j & Hj & -> & -> & _)]; lia || congruence.
  - intros i Hi. destruct (Z.eq_dec i n) as [-> |]; [exists 0; split; [lia | done]|]. exists (pos i).
    pose proof (pos_bounds i ltac:(lia)). pose proof (below_nonneg (arr old i) ltac:(apply byte_at_ok; lia)).
    split; [lia | apply bb_A2; lia].
  - intros p Hp. destruct (by_byte_cases A V p Hbb Hp) as [(-> & _ & ->) | (j & Hj & _ & _ & -> & ? & ? & ?)]; lia.
  - intros p q Hp. destruct (by_byte_cases A V p Hbb Hp) as [(-> & _ & Hg) | (i & Hi & _ & _ & Hg & ? & ? & ?)]; rewrite Hg; intros Hq.
    { by replace q with 0 by lia. }
    destruct (by_byte_cases A V q Hbb ltac:(lia)) as [(-> & _) | (j & Hj & -> & _ & -> & ? & ? & ?)]; [lia|].
    f_equal. destruct (Z.lt_trichotomy (arr old i) (arr old j)) as [Hlt | [? | Hgt]]; [|done|].
    + pose proof (pos_order i j Hi Hj Hlt). lia.
    + pose proof (below_mono (arr old j + 1) (arr old i) old ltac:(lia)). unfold cum in *. lia.
  - intros p q Hp Hq. destruct (by_byte_cases A V q Hbb ltac:(lia)) as [(-> & _) | (j & Hj & _ & -> & -> & ? & ? & ?)]; [lia|].
    destruct (by_byte_cases A V p Hbb ltac:(lia)) as [(-> & -> & ->) | (i & Hi & _ & -> & -> & ? & ? & ?)]; intros Hne; unfold less.
    + rewrite suf_end, (suf_cons j) by done. done.
    + rewrite (suf_cons i), (suf_cons j) by done. left.
      destruct (Z.lt_trichotomy (arr old i) (arr old j)) as [? | [He | Hgt]]; [done | congruence |].
      pose proof (below_mono (arr old j + 1) (arr old i) old ltac:(lia)). unfold cum in *. lia.
  - intros p q Hp Hq. destruct (by_byte_cases A V p Hbb Hp) as [(_ & -> & ->) | (i & Hi & _ & -> & -> & ? & ? & ?)];
      destruct (by_byte_cases A V q Hbb Hq) as [(_ & -> & ->) | (j & Hj & _ & -> & -> & ? & ? & ?)]; intros He; [done | lia | lia |].
    apply cum_inj in He; [|done..]. unfold pre. rewrite (suf_cons i), (suf_cons j), He by done. done.
Qed.

Lemma by_byte_boundary A V c : by_byte A V -> 0 <= c < 256 -> boundary A V (below c old + 1).
Proof.
  intros Hbb Hc q Hq. pose proof (below_nonneg c ltac:(lia)). pose proof (below_mono c 256 old ltac:(lia)) as Hn.
  rewrite below_256 in Hn by done.
  destruct (by_byte_cases A V q Hbb ltac:(lia)) as [(_ & _ & ->) | (j & Hj & _ & _ & -> & ? & ? & ?)]; [lia|].
  unfold cum. destruct (Z_lt_ge_dec (arr old j) c).
  - pose proof (below_mono (arr old j + 1) c old ltac:(lia)). lia.
  - pose proof (below_mono c (arr old j) old ltac:(lia)). lia.
Qed.

Lemma by_byte_bucket A V c p : by_byte A V -> 0 <= c < 256 -> below c old < p <= cum c ->
  group_end A V p = cum c /\ A p + 1 <= n /\ forall c', occ c' old = 1 -> p = cum c' -> c' = c.
Proof.
  intros Hbb Hc Hp. pose proof (below_nonneg c ltac:(lia)). pose proof (below_mono (c + 1) 256 old ltac:(lia)) as Hn.
  rewrite below_256 in Hn by done. fold (cum c) in Hn. assert (forall c', below c' old < p <= cum c' -> c' = c) as Hin.
  { intros c' Hp'. unfold cum in *. destruct (Z.lt_trichotomy c' c) as [Hlt | [? | Hgt]]; [|done|].
    - pose proof (below_mono (c' + 1) c old ltac:(lia)). lia.
    - pose proof (below_mono (c + 1) c' old ltac:(lia)). lia. }
  destruct (by_byte_cases A V p Hbb ltac:(lia)) as [(-> & _) | (j & Hj & _ & -> & -> & Hj1 & _)]; [lia|].
  rewrite (Hin _ Hj1). split; [done|]. split; [lia|]. intros c' Ho He. apply Hin. unfold cum in *. rewrite below_succ in *. lia.
Qed.

Lemma first_layout A V I : by_byte A V ->
  (forall p, 1 <= p <= n -> (marked 1 p /\ arr I p = -1) \/ (~ marked 1 p /\ arr I p = A p)) ->
  forall k c, Z.of_nat k + c = 256 -> 0 <= c -> layout 1 A V I (below c old + 1) (n + 1).
Proof.
  intros Hbb HI. pose proof (by_byte_stable A V Hbb) as Hst. induction k as [|k IH]; intros c Hk Hc.
  { replace c with 256 by lia. rewrite below_256 by done. constructor. }
  specialize (IH (c + 1) ltac:(lia) ltac:(lia)). pose proof (occ_nonneg c old). rewrite below_succ in IH.
  destruct (Z.eq_dec (occ c old) 0) as [Ho|Ho]; [by rewrite Ho, Z.add_0_r in IH|].
  pose proof (by_byte_boundary A V c Hbb ltac:(lia)) as Hb. pose proof (below_nonneg c Hc).
  pose proof (below_mono (c + 1) 256 old ltac:(lia)) as Hn. rewrite below_256 in Hn by done.
  assert (cum c = below c old + occ c old) as Hcum by (unfold cum; apply below_succ). fold (cum c) in Hn.
  destruct (by_byte_bucket A V c (below c old + 1) Hbb ltac:(lia) ltac:(lia)) as (Hg & _ & _).
  destruct (decide (0 < c /\ occ c old = 1)) as [[Hc0 Ho1]|Hno].
  - apply layout_run with 1; [lia | | | by replace (below c old + 1 + 1) with (below c old + occ c old + 1) by lia].
    + destruct (HI (below c old + 1) ltac:(lia)) as [[_ ->] | [Hnm _]]; [done|]. destruct Hnm. exists c. lia.
    + intros p Hp. replace p with (below c old + 1) by lia. split; [lia | done].
  - apply layout_group; rewrite ?Hg; [done | lia | | by replace (cum c + 1) with (below c old + occ c old + 1) by lia].
    intros p Hp. destruct (by_byte_bucket A V c p Hbb ltac:(lia) ltac:(lia)) as (_ & Hr & Hm). split; [|done].
    destruct (HI p ltac:(lia)) as [[(c' & Hc' & Ho' & He) _] | [_ ->]]; [|done].
    specialize (Hm c' Ho' He) as ->. destruct Hno. split; [lia | done].
Qed.

(** ** The whole algorithm *)

(** The state the doubling loop starts with. *)
Lemma bucket_sort_ok I V : length I = S (length old) -> length V = S (length old) -> exists A I' V',
  bucket_sort I V old = Some (I', V') /\ stable A V' 1 /\ Z.of_nat (length I') = n + 1 /\ layout 1 A V' I' 0 (n + 1).
Proof.
  intros HI HV. unfold bucket_sort. cbn zeta. destruct buckets_ok as (b & Hb & Hbelow).
  destruct (count_bytes old _) as [b1|]; [|done]. cbn [mbind option_bind] in *.
  destruct (cumulate _ _ _) as [b2|]; [|done]. cbn [mbind option_bind] in *.
  destruct (shift_up _ _ _) as [b3|]; [|done]. cbn [mbind option_bind] in *. rewrite Hb. cbn [mbind option_bind].
  destruct (place_ok old 0 b I) as (b4 & I1 & -> & Hcum & Hl1 & HI1); [done | lia | | lia | lia |].
  { destruct Hbelow as [Hl Hbelow]. split; [done|]. intros c Hc. rewrite Hbelow by done. change (Z.to_nat 0) with 0%nat. rewrite take_0. cbn. lia. }
  cbn [mbind option_bind]. rewrite wr_upd by (unfold inside; lia). cbn [mbind option_bind].
  destruct (rank_bytes_ok b4 old Hcum 0 V) as (V1 & -> & HlV & HV1); [done | lia | lia | lia |].
  cbn [mbind option_bind]. rewrite wr_upd by (unfold inside; lia). cbn [mbind option_bind].
  destruct (mark_single_ok b4 255 Hcum 1 (upd I1 0 n)) as (I2 & -> & Hl2 & HI2); [done | done | by rewrite length_upd |].
  cbn [mbind option_bind]. rewrite wr_upd by (unfold inside; lia). cbn [mbind option_bind].
  assert (by_byte (arr (upd I1 0 n)) (upd V1 n 0)) as Hbb.
  { split; [by rewrite length_upd | rewrite arr_upd by (unfold inside; lia); done | | |].
    - intros j Hj. pose proof (pos_bounds j Hj). pose proof (below_nonneg (arr old j) ltac:(apply byte_at_ok; lia)).
      rewrite arr_upd by (unfold inside; lia). destruct (Z.eqb_spec (pos j) 0); [lia | by apply HI1].
    - intros j Hj. rewrite arr_upd by (unfold inside; lia). destruct (Z.eqb_spec j n); [lia | by apply HV1].
    - rewrite arr_upd by (unfold inside; lia). by rewrite Z.eqb_refl. }
  eexists (arr (upd I1 0 n)), _, _. split; [reflexivity|]. split; [by apply by_byte_stable|].
  split; [by rewrite length_upd|].
  destruct (by_byte_cases _ _ 0 Hbb ltac:(lia)) as [(_ & _ & Hg0) | (j & Hj & ? & _ & _ & ? & _ & ?)]; [|lia].
  apply layout_run with 1; [lia | rewrite arr_upd by (unfold inside; lia); done | |].
  - intros p Hp. replace p with 0 by lia. split; [done | lia].
  - replace (0 + 1) with (below 0 old + 1) by (by rewrite below_0).
    apply first_layout with 256%nat; [done | | lia | lia]. intros p Hp. rewrite arr_upd by (unfold inside; lia).
    destruct (Z.eqb_spec p 0); [lia|]. apply HI2. lia.
Qed.

(** A list that shows a permutation in order. *)
Lemma arranged A I h V : stable A V h -> in_place A V -> Z.of_nat (length I) = n + 1 ->
  (forall p, 0 <= p <= n -> arr I p = A p) -> I ≡ₚ seqZ 0 (n + 1) /\ StronglySorted less I.
Proof.
  intros [] Hpl Hl HI. assert (I = A <$> seqZ 0 (n + 1)) as ->.
  { apply list_eq. intros k. rewrite list_lookup_fmap. destruct (lt_dec k (length I)) as [Hk|Hk].
    - rewrite lookup_seqZ_lt by lia. cbn. specialize (HI (Z.of_nat k) ltac:(lia)). unfold arr in HI. rewrite Nat2Z.id in HI.
      destruct (lookup_lt_is_Some_2 I k Hk) as [x Hx]. rewrite (nth_lookup_Some _ _ _ _ Hx) in HI.
      rewrite Hx, HI. by do 2 f_equal.
    - rewrite lookup_ge_None_2, lookup_seqZ_ge by lia. done. }
  split.
  - apply submseteq_length_Permutation; [|by rewrite length_fmap].
    apply NoDup_submseteq.
    + apply NoDup_fmap_2_strong; [|apply NoDup_seqZ]. intros p q Hp%elem_of_seqZ Hq%elem_of_seqZ. apply sb_inj0; lia.
    + intros i (p & -> & Hp%elem_of_seqZ)%list_elem_of_fmap. apply elem_of_seqZ. pose proof (sb_range0 p ltac:(lia)). lia.
  - assert (forall m a, 0 <= a -> a + Z.of_nat m <= n + 1 -> StronglySorted less (A <$> seqZ a (Z.of_nat m))) as Hss.
    { induction m as [|m IH]; intros a Ha Hm; [constructor|]. rewrite seqZ_cons by lia. rewrite fmap_cons.
      replace (Z.pred (Z.of_nat (S m))) with (Z.of_nat m) by lia. constructor; [apply IH; lia|].
      apply Forall_fmap, Forall_forall. intros q Hq%elem_of_seqZ. apply sb_order0; [lia | lia |].
      unfold group_end. rewrite !Hpl by lia. lia. }
    replace (n + 1) with (Z.of_nat (Z.to_nat (n + 1))) by lia. apply Hss; lia.
Qed.
End Suffixes.

Lemma qsufsort_ok w fuel I V old : Forall is_u8 old -> length I = S (length old) -> length V = S (length old) ->
  0 < w -> 2 * Z.of_nat (length old) < 2 ^ (w - 1) ->
  (2 <= fuel)%nat -> Z.of_nat (length old) < 2 ^ (Z.of_nat fuel - 2) -> exists h A I' V',
  qsufsort w fuel I V old = Some (I', V') /\ stable old A V' h /\ in_place old A V' /\
  Z.of_nat (length I') = Z.of_nat (length old) + 1 /\ forall p, 0 <= p <= Z.of_nat (length old) -> arr I' p = A p.
Proof.
  intros Hb HI HV Hw Hn Hf Hpow. destruct fuel as [|[|k]]; [lia | lia |].
  replace (Z.of_nat (S (S k)) - 2) with (Z.of_nat k) in Hpow by lia. unfold qsufsort.
  destruct (bucket_sort_ok old Hb I V HI HV) as (A1 & I1 & V1 & -> & Hst1 & Hl1 & Hlay1). cbn [mbind option_bind].
  destruct (double_loop_ok old w k Hw Hn 1 A1 V1 I1) as (h & A & I2 & V2 & -> & Hst & Hl2 & Hpl); [lia | done | done | done | lia |].
  cbn [mbind option_bind].
  destruct (invert_ok old h A V2 Hst Hpl (S (length old)) 0 I2) as (I3 & -> & Hl3 & HI3); [done | lia | lia |].
  exists h, A, I3, V2. do 4 (split; [done|]). intros p Hp. rewrite HI3 by done.
  pose proof (sb_range _ _ _ _ Hst p Hp). destruct (Z.leb_spec 0 (A p)); [done | lia].
Qed.

(** (C3) qsufsort sorts.  For any file of bytes and any contents of the two arrays, which
    have room for one entry more than the file has bytes, it returns, and [I] then lists
    all suffixes of the file, the empty one included, each once and in lexicographic
    order; no access leaves an array.  Two passes more than the binary logarithm of the
    size are enough, and the file may be as large as [h] can be doubled for. *)
Theorem qsufsort_sorts w fuel I V old : Forall is_u8 old ->
  length I = S (length old) -> length V = S (length old) ->
  0 < w -> 2 * Z.of_nat (length old) < 2 ^ (w - 1) ->
  (2 <= fuel)%nat -> Z.of_nat (length old) < 2 ^ (Z.of_nat fuel - 2) ->
  exists I' V', qsufsort w fuel I V old = Some (I', V') /\
    I' ≡ₚ seqZ 0 (Z.of_nat (length old) + 1) /\
    StronglySorted (fun i j => lex (drop (Z.to_nat i) old) (drop (Z.to_nat j) old)) I'.
Proof.
  intros Hb HI HV Hw Hn Hf Hpow.
  destruct (qsufsort_ok w fuel I V old Hb HI HV Hw Hn Hf Hpow) as (h & A & I' & V' & -> & Hst & Hpl & Hl & HA).
  exists I', V'. split; [done|]. by apply (arranged old A I' h V').
Qed.

Lemma qsufsort_sorts_witness : exists I' V',
  qsufsort 32 6 (replicate 7 0) (replicate 7 0) [98; 97; 110; 97; 110; 97] = Some (I', V') /\
  I' ≡ₚ seqZ 0 7 /\
  StronglySorted (fun i j => lex (drop (Z.to_nat i) [98; 97; 110; 97; 110; 97])
                                 (drop (Z.to_nat j) [98; 97; 110; 97; 110; 97])) I'.
Proof.
  apply (qsufsort_sorts 32 6 (replicate 7 0) (replicate 7 0) [98; 97; 110; 97; 110; 97]);
    [repeat constructor; unfold is_u8; lia | reflexivity | reflexivity | lia | simpl; lia | lia | simpl; lia].
Defined.

(** ** bsdiff with the array it sorts *)

(** [*IP] is null in the first call for an old file and the sorted array in later ones;
    [I] and [V] are what malloc returned.  The array is handed back with the patch. *)
Definition bsdiff_call `{B : Bzip2} (w : Z) (fuel : nat) (IP : option (list Z)) (I V old new : list Z)
    : option (list Z * list Z) :=
  I ← match IP with
      | Some sorted => Some sorted
      | None => '(I, _) ← qsufsort w fuel I V old; Some I
      end;
  patch ← bsdiff w I old new;
  Some (I, patch).

Lemma qsufsort_array w fuel I V old : Forall is_u8 old -> length I = S (length old) -> length V = S (length old) ->
  32 <= w -> Z.of_nat (length old) < 2 ^ 30 -> (32 <= fuel)%nat -> exists I' V',
  qsufsort w fuel I V old = Some (I', V') /\ length I' = S (length old) /\
  Forall (fun p => 0 <= p <= Z.of_nat (length old)) I'.
Proof.
  intros Hb HI HV Hw Hn Hf.
  assert (2 ^ 31 <= 2 ^ (w - 1) /\ 2 ^ 30 <= 2 ^ (Z.of_nat fuel - 2)) as [H1 H2] by (split; apply Z.pow_le_mono_r; lia).
  destruct (qsufsort_ok w fuel I V old Hb HI HV) as (h & A & I' & V' & -> & Hst & Hpl & Hl & HA); [lia | lia | lia | lia |].
  exists I', V'. split; [done|]. split; [lia|]. destruct (arranged old A I' h V' Hst Hpl Hl HA) as [Hperm _].
  rewrite Hperm. apply Forall_forall. intros p Hp%elem_of_seqZ. lia.
Qed.

(** (C2) Patching inverts diffing.  For any old file of bytes below 1 GiB, the first call
    of bsdiff sorts its suffixes, and that call and every later one with the same array
    produce a patch, for any new file below 1 GiB, without leaving any array.  Given
    that patch, embedded anywhere in a buffer below 2 GiB, and an allocated output
    buffer, [ApplyBSDiffPatchMem] stays in bounds, terminates and returns exactly the
    new file, whatever the widths of [off_t] on the two machines. *)
Theorem bspatch_bsdiff {B : Bzip2} {L : Bzip2Laws B} (w w' : Z) (sort_fuel : nat) (I V old : list Z) :
  32 <= w -> 32 <= w' -> (32 <= sort_fuel)%nat ->
  length I = S (length old) -> length V = S (length old) ->
  Forall is_u8 old -> Z.of_nat (length old) < 2 ^ 30 ->
  exists I', forall new, Forall is_u8 new -> Z.of_nat (length new) < 2 ^ 30 ->
    exists patch, bsdiff_call w' sort_fuel None I V old new = Some (I', patch) /\
      bsdiff_call w' sort_fuel (Some I') I V old new = Some (I', patch) /\
      forall pre post fresh buf fuel fill_fuel,
      Z.of_nat (length (pre ++ patch ++ post)) < 2 ^ 31 ->
      fresh (Z.of_nat (length new)) = Some buf -> length buf = length new ->
      (length new + 2 < fuel)%nat -> (2 <= fill_fuel)%nat ->
      ApplyBSDiffPatchMem w fuel fill_fuel old (pre ++ patch ++ post)
        (Z.of_nat (length pre)) fresh = POk new.
Proof.
  intros Hw Hw' Hf HI HV Hold Hn.
  destruct (qsufsort_array w' sort_fuel I V old Hold HI HV Hw' Hn Hf) as (I' & V' & Hq & Hl & Hr).
  exists I'. intros new Hnew Hm.
  destruct (bsdiff_then_bspatch w w' I' old new Hw Hw' Hl Hr Hnew Hn Hm) as (patch & Hp & Happly).
  exists patch. unfold bsdiff_call. rewrite Hq. cbn [mbind option_bind]. rewrite Hp. by split.
Qed.

Lemma bspatch_bsdiff_witness : exists I' patch,
  @bsdiff_call stored_bzip2 64 32 None [0; 0; 0; 0] [0; 0; 0; 0] [65; 66; 67] [66; 67; 68] = Some (I', patch) /\
  @ApplyBSDiffPatchMem stored_bzip2 32 6 2 [65; 66; 67] ([1] ++ patch ++ [2]) 1
    (fun n => Some (replicate (Z.to_nat n) 0)) = POk [66; 67; 68].
Proof.
  destruct (@bspatch_bsdiff stored_bzip2 stored_laws 32 64 32 [0; 0; 0; 0] [0; 0; 0; 0] [65; 66; 67]) as (I' & HI');
    [lia | lia | lia | reflexivity | reflexivity | repeat constructor; unfold is_u8; lia | simpl; lia |].
  destruct (HI' [66; 67; 68]) as (patch & Hpatch & _ & Happly); [repeat constructor; unfold is_u8; lia | simpl; lia |].
  exists I', patch. split; [exact Hpatch|].
  apply (Happly [1] [2] _ [0; 0; 0]); [| reflexivity | reflexivity | simpl; lia | lia].
  vm_compute in Hpatch. injection Hpatch as _ <-. simpl. lia.
Defined.
