(* ===== verification/Edify.v ===== *)
(** * The edify script language

    Model of [recovery/edify/expr.c] and [expr.h]: the evaluator that runs the
    install script of an update package.  An [Expr] carries the C function that
    evaluates it, so the model carries a Rocq function of the same shape:
    [Function] takes the name, the arguments (each a computation, with its place
    in the script) and the interpreter state.

    A computation returns [None] when the C code would access memory outside an
    object or free more than it owns; the field [live] of the state counts the
    blocks returned by malloc/strdup and not yet freed, so that leaks are
    visible.  A C NULL result is [None] inside. *)

From Stdlib Require Import String Ascii.
From stdpp Require Import strings sorting pretty.
From S2P Require Import Prelude.
#[local] Open Scope string_scope.
#[local] Open Scope Z_scope.

(** ** State and computations *)

Record State := mkState {
  script : string;
  errmsg : option string;
  out : list string;      (* what was written to stdout, newest first *)
  sleeps : list Z;        (* arguments of sleep(), newest first *)
  live : Z                (* blocks allocated and not freed *)
}.

Definition M (A : Type) : Type := State -> option (A * State).

Definition ret {A} (a : A) : M A := fun st => Some (a, st).
Definition bind {A B} (m : M A) (k : A -> M B) : M B :=
  fun st => match m st with None => None | Some (a, st) => k a st end.
Definition crash {A} : M A := fun _ => None.

Declare Scope edify_scope.
Delimit Scope edify_scope with edify.
Notation "'let*' x ':=' m 'in' k" := (bind m (fun x => k))
  (at level 10, x name, k at level 200) : edify_scope.
Notation "m ;;; k" := (bind m (fun _ => k))
  (at level 99, k at level 200, right associativity) : edify_scope.
#[local] Open Scope edify_scope.

Definition set_live (n : Z) (st : State) : State :=
  mkState (script st) (errmsg st) (out st) (sleeps st) n.

Definition alloc (n : Z) : M unit := fun st => Some (tt, set_live (live st + n) st).

(** [free] of [n] owned blocks. *)
Definition free (n : Z) : M unit := fun st =>
  if live st <? n then None else Some (tt, set_live (live st - n) st).

Definition free_opt {A} (o : option A) : M unit :=
  match o with Some _ => free 1 | None => ret tt end.

Definition strdup (s : string) : M string := alloc 1 ;;; ret s.

(** [free(state->errmsg); state->errmsg = msg] *)
Definition set_errmsg (msg : string) : M unit := fun st =>
  (free_opt (errmsg st) ;;;
   (fun st => Some (tt, mkState (script st) (Some msg) (out st) (sleeps st) (live st)))) st.

Definition puts (s : string) : M unit := fun st =>
  Some (tt, mkState (script st) (errmsg st) (s :: out st) (sleeps st) (live st)).
Definition sleep (n : Z) : M unit := fun st =>
  Some (tt, mkState (script st) (errmsg st) (out st) (n :: sleeps st) (live st)).
Definition get_script : M string := fun st => Some (script st, st).

(** ** Values, arguments and functions *)

Definition VAL_STRING : Z := 1.
Definition VAL_BLOB : Z := 2.

(** [size] is the length of [data]. *)
Record Value := mkValue { type : Z; data : string }.

(** An argument expression as a function receives it. *)
Record Arg := mkArg {
  run : M (option Value);
  start : Z;
  end_ : Z
}.

Definition Function : Type := string -> list Arg -> M (option Value).

#[warnings="-register-all"]
Inductive Expr := mkExpr (fn : Function) (name : string) (argv : list Expr) (start end_ : Z).

(** [argv[i]]; reading past the end of the array is a crash. *)
Definition argv_at (argv : list Arg) (i : nat) : M Arg :=
  match nth_error argv i with Some a => ret a | None => crash end.

Fixpoint arg_of (e : Expr) : Arg :=
  match e with
  | mkExpr fn name argv s t => mkArg (fn name (map arg_of argv)) s t
  end.

Definition BooleanString (s : string) : bool :=
  match s with EmptyString => false | String _ _ => true end.

Definition StringValue (str : option string) : M (option Value) :=
  match str with
  | None => ret None
  | Some s => alloc 1 ;;; ret (Some (mkValue VAL_STRING s))
  end.

Definition FreeValue (v : option Value) : M unit :=
  match v with None => ret tt | Some _ => free 1 ;;; free 1 end.

(** The composed message replaces [state->errmsg]. *)
Definition ErrorAbort (msg : string) : M (option Value) :=
  alloc 1 ;;; set_errmsg msg ;;; ret None.

Definition EvaluateValue (a : Arg) : M (option Value) := run a.

Definition Evaluate (a : Arg) : M (option string) :=
  let* v := run a in
  match v with
  | None => ret None
  | Some v =>
      if negb (type v =? VAL_STRING) then
        ErrorAbort ("expecting string, got value type " ++ pretty (type v)) ;;;
        FreeValue (Some v) ;;; ret None
      else free 1 ;;; ret (Some (data v))
  end.

(** ** Convenience functions *)

(** Frees the strings read so far. *)
Fixpoint free_all {A} (l : list A) : M unit :=
  match l with [] => ret tt | _ :: l => free 1 ;;; free_all l end.

(** The loop of [ReadArgs] and [ReadVarArgs]: evaluates the arguments in order;
    after a failure the earlier results are freed. *)
Fixpoint read_loop (args : list Arg) (acc : list string) : M (option (list string)) :=
  match args with
  | [] => ret (Some acc)
  | a :: args =>
      let* s := Evaluate a in
      match s with
      | None => free_all acc ;;; ret None
      | Some s => read_loop args (acc ++ [s])%list
      end
  end.

(** The first [count] arguments. *)
Fixpoint first_args (count : nat) (argv : list Arg) : option (list Arg) :=
  match count, argv with
  | O, _ => Some []
  | S _, [] => None
  | S n, a :: argv => (fun l => a :: l) <$> first_args n argv
  end.

(** [None] stands for the result -1. *)
Definition ReadArgs (argv : list Arg) (count : nat) : M (option (list string)) :=
  alloc 1 ;;;
  match first_args count argv with
  | None => crash
  | Some args => let* r := read_loop args [] in free 1 ;;; ret r
  end.

Definition ReadVarArgs (argv : list Arg) : M (option (list string)) :=
  alloc 1 ;;;
  let* r := read_loop argv [] in
  match r with
  | None => free 1 ;;; ret None
  | Some l => ret (Some l)
  end.

Fixpoint free_values {A} (l : list A) : M unit :=
  match l with [] => ret tt | _ :: l => free 1 ;;; free 1 ;;; free_values l end.

Fixpoint read_values (args : list Arg) (acc : list Value) : M (option (list Value)) :=
  match args with
  | [] => ret (Some acc)
  | a :: args =>
      let* v := EvaluateValue a in
      match v with
      | None => free_values acc ;;; ret None
      | Some v => read_values args (acc ++ [v])%list
      end
  end.

Definition ReadValueArgs (argv : list Arg) (count : nat) : M (option (list Value)) :=
  alloc 1 ;;;
  match first_args count argv with
  | None => crash
  | Some args => let* r := read_values args [] in free 1 ;;; ret r
  end.

Definition ReadValueVarArgs (argv : list Arg) : M (option (list Value)) :=
  alloc 1 ;;;
  let* r := read_values argv [] in
  match r with
  | None => free 1 ;;; ret None
  | Some l => ret (Some l)
  end.

(** ** Strings *)

(** [strtol(s, &end, 10)] with a 32-bit long: the value, saturated, and what is
    left at [end] (all of [s] when there is no number). *)
Definition is_space (c : ascii) : bool :=
  let n := Z.of_nat (nat_of_ascii c) in (n =? 32) || ((9 <=? n) && (n <=? 13)).

Definition digit (c : ascii) : option Z :=
  let n := Z.of_nat (nat_of_ascii c) in
  if (48 <=? n) && (n <=? 57) then Some (n - 48) else None.

Fixpoint skip_spaces (s : string) : string :=
  match s with
  | String c s' => if is_space c then skip_spaces s' else s
  | EmptyString => s
  end.

Fixpoint digits (s : string) (acc : Z) : Z * string :=
  match s with
  | String c s' => match digit c with Some d => digits s' (acc * 10 + d) | None => (acc, s) end
  | EmptyString => (acc, s)
  end.

Definition LONG_MAX : Z := 2147483647.
Definition LONG_MIN : Z := -2147483648.
Definition clamp (x : Z) : Z := Z.max LONG_MIN (Z.min LONG_MAX x).

Definition strtol (s : string) : Z * string :=
  let t := skip_spaces s in
  let '(sign, t) := match t with
                    | String "-" t' => (-1, t')
                    | String "+" t' => (1, t')
                    | _ => (1, t)
                    end in
  match t with
  | String c _ =>
      match digit c with
      | Some _ => let '(v, rest) := digits t 0 in (clamp (sign * v), rest)
      | None => (0, s)
      end
  | EmptyString => (0, s)
  end.

Fixpoint is_prefix (p s : string) : bool :=
  match p, s with
  | EmptyString, _ => true
  | String a p, String b s => Ascii.eqb a b && is_prefix p s
  | String _ _, EmptyString => false
  end.

(** [strstr(haystack, needle) != NULL] *)
Fixpoint strstr (haystack needle : string) : bool :=
  is_prefix needle haystack ||
  match haystack with EmptyString => false | String _ h => strstr h needle end.

(** ** The functions *)

(** [StringValue(strdup(b ? "t" : ""))] *)
Definition bool_value (b : bool) : M (option Value) :=
  let* s := strdup (if b then "t" else EmptyString) in StringValue (Some s).

Definition empty_value : M (option Value) :=
  let* s := strdup EmptyString in StringValue (Some s).

(** The evaluation loop of [ConcatFn]: [strings] holds the results so far; on a
    failure they are freed. *)
Definition ConcatFn : Function := fun name argv =>
  match argv with
  | [] => empty_value
  | _ =>
      alloc 1 ;;;                                   (* strings *)
      let* r := read_loop argv [] in
      match r with
      | None => free 1 ;;; StringValue None
      | Some strings =>
          let* result := strdup (String.concat EmptyString strings) in
          free_all strings ;;; free 1 ;;; StringValue (Some result)
      end
  end.

Definition IfElseFn : Function := fun name argv =>
  if negb (length argv =? 2)%nat && negb (length argv =? 3)%nat then
    let* m := strdup "ifelse expects 2 or 3 arguments" in set_errmsg m ;;; ret None
  else
    let* a0 := argv_at argv 0 in
    let* cond := Evaluate a0 in
    match cond with
    | None => ret None
    | Some cond =>
        if BooleanString cond then
          free 1 ;;; let* a1 := argv_at argv 1 in EvaluateValue a1
        else if (length argv =? 3)%nat then
          free 1 ;;; let* a2 := argv_at argv 2 in EvaluateValue a2
        else StringValue (Some cond)
    end.

Definition AbortFn : Function := fun name argv =>
  let* msg := (match argv with
          | [] => ret None
          | a :: _ => Evaluate a
          end) in
  match msg with
  | Some msg => set_errmsg msg ;;; ret None
  | None => let* m := strdup "called abort()" in set_errmsg m ;;; ret None
  end.

Fixpoint assert_loop (argv : list Arg) : M (option Value) :=
  match argv with
  | [] => empty_value
  | a :: argv =>
      let* v := Evaluate a in
      match v with
      | None => ret None
      | Some v =>
          let b := BooleanString v in
          free 1 ;;;
          if negb b then
            let* src := get_script in
            let len := end_ a - start a in
            if (0 <=? len) && (0 <=? start a) && (end_ a <=? Z.of_nat (String.length src))
            then
              alloc 1 ;;;
              set_errmsg ("assert failed: " ++
                substring (Z.to_nat (start a)) (Z.to_nat len) src) ;;;
              ret None
            else crash
          else assert_loop argv
      end
  end.

Definition AssertFn : Function := fun name argv => assert_loop argv.

Definition SleepFn : Function := fun name argv =>
  let* a0 := argv_at argv 0 in
  let* val := Evaluate a0 in
  match val with
  | None => ret None
  | Some val => sleep (fst (strtol val)) ;;; StringValue (Some val)
  end.

Fixpoint stdout_loop (argv : list Arg) : M (option Value) :=
  match argv with
  | [] => empty_value
  | a :: argv =>
      let* v := Evaluate a in
      match v with
      | None => ret None
      | Some v => puts v ;;; free 1 ;;; stdout_loop argv
      end
  end.

Definition StdoutFn : Function := fun name argv => stdout_loop argv.

Definition LogicalAndFn : Function := fun name argv =>
  let* a0 := argv_at argv 0 in
  let* lhs := Evaluate a0 in
  match lhs with
  | None => ret None
  | Some lhs =>
      if BooleanString lhs then
        free 1 ;;; let* a1 := argv_at argv 1 in EvaluateValue a1
      else StringValue (Some lhs)
  end.

Definition LogicalOrFn : Function := fun name argv =>
  let* a0 := argv_at argv 0 in
  let* lhs := Evaluate a0 in
  match lhs with
  | None => ret None
  | Some lhs =>
      if negb (BooleanString lhs) then
        free 1 ;;; let* a1 := argv_at argv 1 in EvaluateValue a1
      else StringValue (Some lhs)
  end.

Definition LogicalNotFn : Function := fun name argv =>
  let* a0 := argv_at argv 0 in
  let* val := Evaluate a0 in
  match val with
  | None => ret None
  | Some val => let bv := BooleanString val in free 1 ;;; bool_value (negb bv)
  end.

(** The common shape of [SubstringFn], [EqualityFn] and [InequalityFn]: both
    arguments as strings, a test on them. *)
Definition test2 (test : string -> string -> bool) : Function := fun name argv =>
  let* a0 := argv_at argv 0 in
  let* lhs := Evaluate a0 in
  match lhs with
  | None => ret None
  | Some lhs =>
      let* a1 := argv_at argv 1 in
      let* rhs := Evaluate a1 in
      match rhs with
      | None => free 1 ;;; ret None
      | Some rhs =>
          let* result := strdup (if test lhs rhs then "t" else EmptyString) in
          free 1 ;;; free 1 ;;; StringValue (Some result)
      end
  end.

Definition SubstringFn : Function := test2 (fun needle haystack => strstr haystack needle).
Definition EqualityFn : Function := test2 String.eqb.
Definition InequalityFn : Function := test2 (fun l r => negb (String.eqb l r)).

Definition SequenceFn : Function := fun name argv =>
  let* a0 := argv_at argv 0 in
  let* lhs := EvaluateValue a0 in
  match lhs with
  | None => ret None
  | Some lhs => FreeValue (Some lhs) ;;; let* a1 := argv_at argv 1 in EvaluateValue a1
  end.

(** [s[0] == '\0' || *end != '\0'] *)
Definition not_int (s : string) : bool :=
  negb (BooleanString s) || BooleanString (snd (strtol s)).

Definition LessThanIntFn : Function := fun name argv =>
  if negb (length argv =? 2)%nat then
    let* m := strdup "less_than_int expects 2 arguments" in set_errmsg m ;;; ret None
  else
    let* r := ReadArgs argv 2 in
    match r with
    | Some [lhs; rhs] =>
        let result :=
          if not_int lhs then false
          else if not_int rhs then false
          else fst (strtol lhs) <? fst (strtol rhs) in
        free 1 ;;; free 1 ;;; bool_value result
    | _ => ret None
    end.

Definition GreaterThanIntFn : Function := fun name argv =>
  if negb (length argv =? 2)%nat then
    let* m := strdup "greater_than_int expects 2 arguments" in set_errmsg m ;;; ret None
  else
    let* a0 := argv_at argv 0 in let* a1 := argv_at argv 1 in LessThanIntFn name [a1; a0].

Definition Literal : Function := fun name argv =>
  let* s := strdup name in StringValue (Some s).

(** [Build(fn, loc, count, ...)] *)
Definition Build (fn : Function) (loc : Z * Z) (args : list Expr) : Expr :=
  mkExpr fn "(operator)" args (fst loc) (snd loc).

(** ** The function table *)

Record fn_state := mkFns {
  fn_size : Z;
  fn_table : list (string * Function)  (* the first fn_entries elements *)
}.

Definition no_functions : fn_state := mkFns 0 [].

Definition RegisterFunction (name : string) (fn : Function) (t : fn_state) : fn_state :=
  let size := if fn_size t <=? Z.of_nat (length (fn_table t))
              then fn_size t * 2 + 1 else fn_size t in
  mkFns size (fn_table t ++ [(name, fn)])%list.

(** [strcmp] *)
Definition strcmp (a b : string) : comparison := String.compare a b.

Definition fn_entry_le (a b : string * Function) : Prop := strcmp (fst a) (fst b) <> Gt.

#[global] Instance fn_entry_le_dec a b : Decision (fn_entry_le a b).
Proof. unfold fn_entry_le. apply _. Defined.

Definition FinishRegistration (t : fn_state) : fn_state :=
  mkFns (fn_size t) (merge_sort fn_entry_le (fn_table t)).

(** [bsearch]: [lim] elements from [base] are left. *)
Fixpoint bsearch (fuel : nat) (key : string) (table : list (string * Function))
    (base lim : nat) : option (option Function) :=
  match fuel with
  | O => None
  | S fuel =>
      if (lim =? 0)%nat then Some None else
      let p := (base + lim / 2)%nat in
      match table !! p with
      | None => None
      | Some (name, fn) =>
          match strcmp key name with
          | Eq => Some (Some fn)
          | Gt => bsearch fuel key table (p + 1) ((lim - 1) / 2)
          | Lt => bsearch fuel key table base (lim / 2)
          end
      end
  end.

Definition FindFunction (t : fn_state) (name : string) : option (option Function) :=
  bsearch (S (length (fn_table t))) name (fn_table t) 0 (length (fn_table t)).

Definition RegisterBuiltins (t : fn_state) : fn_state :=
  let t := RegisterFunction "ifelse" IfElseFn t in
  let t := RegisterFunction "abort" AbortFn t in
  let t := RegisterFunction "assert" AssertFn t in
  let t := RegisterFunction "concat" ConcatFn t in
  let t := RegisterFunction "is_substring" SubstringFn t in
  let t := RegisterFunction "stdout" StdoutFn t in
  let t := RegisterFunction "sleep" SleepFn t in
  let t := RegisterFunction "less_than_int" LessThanIntFn t in
  RegisterFunction "greater_than_int" GreaterThanIntFn t.

(** ** Ownership of memory

    [owns scr k m w]: started with [k] blocks of its own (and the error message,
    if there is one), [m] neither crashes nor touches the script, and ends with
    [w a] blocks for its result [a]; every other block it allocated is freed. *)

Definition errs (st : State) : Z := match errmsg st with Some _ => 1 | None => 0 end.

Definition owns {A} (scr : string) (k : Z) (m : M A) (w : A -> Z) : Prop :=
  forall st, script st = scr -> errs st + k <= live st ->
  exists a st', m st = Some (a, st') /\ script st' = scr /\
    live st' = live st - errs st + errs st' - k + w a.

Definition blocks {A} (n : Z) (o : option A) : Z :=
  match o with Some _ => n | None => 0 end.

Create HintDb edify.

Lemma owns_ret {A} scr (a : A) (w : A -> Z) k : k = w a -> owns scr k (ret a) w.
Proof. intros -> st Hs Hl. exists a, st. split; [done|]. split; [done|]. lia. Qed.

Lemma owns_bind {A B} scr k (m : M A) (f : A -> M B) w w' :
  owns scr k m w -> (forall a, 0 <= w a) -> (forall a, owns scr (w a) (f a) w') ->
  owns scr k (bind m f) w'.
Proof.
  intros Hm Hw Hf st Hs Hl. destruct (Hm st Hs Hl) as (a & st1 & Heq & Hs1 & Hl1).
  destruct (Hf a st1 Hs1) as (b & st2 & Heq2 & Hs2 & Hl2); [lia|].
  exists b, st2. unfold bind. rewrite Heq. split; [done|]. split; [done|]. lia.
Qed.

Lemma owns_frame {A} scr k f (m : M A) w :
  owns scr k m w -> 0 <= f -> owns scr (k + f) m (fun a => w a + f).
Proof.
  intros Hm Hf st Hs Hl. destruct (Hm st Hs) as (a & st1 & Heq & Hs1 & Hl1); [lia|].
  exists a, st1. split; [done|]. split; [done|]. lia.
Qed.

Lemma owns_weaken {A} scr k (m : M A) w w' :
  owns scr k m w -> (forall a, w a = w' a) -> owns scr k m w'.
Proof.
  intros Hm Hw st Hs Hl. destruct (Hm st Hs Hl) as (a & st1 & Heq & Hs1 & Hl1).
  exists a, st1. rewrite <- Hw. done.
Qed.

Lemma owns_alloc scr n k : 0 <= k -> owns scr k (alloc n) (fun _ => k + n).
Proof.
  intros Hk st Hs Hl. eexists _, _. split; [reflexivity|]. split; [done|].
  unfold errs. simpl. lia.
Qed.

Lemma owns_free scr n k : n <= k -> owns scr k (free n) (fun _ => k - n).
Proof.
  intros Hk st Hs Hl. unfold free.
  assert (0 <= errs st) by (unfold errs; destruct (errmsg st); lia).
  rewrite (proj2 (Z.ltb_ge _ _)) by lia. eexists _, _. split; [reflexivity|]. split; [done|].
  unfold errs. simpl. lia.
Qed.

Lemma owns_strdup scr s k : 0 <= k -> owns scr k (strdup s) (fun _ => k + 1).
Proof.
  intros Hk. eapply owns_bind; [by apply owns_alloc | simpl; lia |].
  intros ?. by apply owns_ret.
Qed.

Lemma owns_set_errmsg scr msg k : 1 <= k -> owns scr k (set_errmsg msg) (fun _ => k - 1).
Proof.
  intros Hk st Hs Hl. unfold set_errmsg, bind, free_opt, errs in *.
  destruct (errmsg st) eqn:E.
  - unfold free. rewrite (proj2 (Z.ltb_ge _ _)) by lia. eexists _, _. split; [reflexivity|].
    split; [done|]. simpl. lia.
  - eexists _, _. split; [reflexivity|]. split; [done|]. simpl. lia.
Qed.

Lemma owns_puts scr s k : owns scr k (puts s) (fun _ => k).
Proof.
  intros st Hs Hl. eexists _, _. split; [reflexivity|]. split; [done|]. unfold errs; simpl; lia.
Qed.

Lemma owns_sleep scr n k : owns scr k (sleep n) (fun _ => k).
Proof.
  intros st Hs Hl. eexists _, _. split; [reflexivity|]. split; [done|]. unfold errs; simpl; lia.
Qed.

(** An argument owns the value it returns: the struct and its data. *)
Definition arg_ok (scr : string) (a : Arg) : Prop :=
  owns scr 0 (run a) (blocks 2) /\
  0 <= start a /\ start a <= end_ a <= Z.of_nat (String.length scr).

Lemma blocks_nonneg {A} n (o : option A) : 0 <= n -> 0 <= blocks n o.
Proof. destruct o; simpl; lia. Qed.

Lemma owns_value scr a k : arg_ok scr a -> 0 <= k ->
  owns scr k (EvaluateValue a) (fun r => k + blocks 2 r).
Proof.
  intros [Ha _] Hk. apply (owns_frame _ 0 k) in Ha; [|done].
  eapply owns_weaken; [exact Ha|]. intros r. simpl. lia.
Qed.

(** One step of a computation: [lem] says what its first part owns. *)
Ltac own lem :=
  eapply owns_bind;
  [ apply lem; simpl in *; (done || lia)
  | intros ?r; simpl in *; repeat match goal with
      |- context [blocks ?n ?o] => pose proof (blocks_nonneg n o); generalize dependent (blocks n o)
    end; intros; lia
  | intros ?r; cbv beta; cbn [blocks] ].
Ltac own_done := apply owns_ret; simpl; lia.

Lemma owns_StringValue scr s k : blocks 1 s <= k ->
  owns scr k (StringValue s) (fun r => k - blocks 1 s + blocks 2 r).
Proof.
  intros Hk. destruct s as [s|]; simpl in *; [own (owns_alloc scr 1)|]; own_done.
Qed.

Lemma owns_FreeValue scr (v : option Value) k : blocks 2 v <= k ->
  owns scr k (FreeValue v) (fun _ => k - blocks 2 v).
Proof.
  intros Hk. destruct v; simpl in *; [|own_done]. own (owns_free scr 1).
  eapply owns_weaken; [apply owns_free; simpl; lia | simpl; lia].
Qed.

Lemma owns_ErrorAbort scr msg k : 0 <= k -> owns scr k (ErrorAbort msg) (fun _ => k).
Proof.
  intros Hk. own (owns_alloc scr 1). own (owns_set_errmsg scr msg). own_done.
Qed.

Lemma owns_Evaluate scr a k : arg_ok scr a -> 0 <= k ->
  owns scr k (Evaluate a) (fun r => k + blocks 1 r).
Proof.
  intros Ha Hk. own (owns_value scr a). destruct r as [v|]; simpl; [|own_done].
  destruct (negb _).
  - own owns_ErrorAbort. own (owns_FreeValue scr (Some v)). own_done.
  - own (owns_free scr 1). own_done.
Qed.

Lemma owns_free_all {A} scr (l : list A) k : Z.of_nat (length l) <= k ->
  owns scr k (free_all l) (fun _ => k - Z.of_nat (length l)).
Proof.
  revert k. induction l as [|x l IH]; intros k Hk; simpl free_all; [own_done|].
  own (owns_free scr 1).
  eapply owns_weaken; [apply IH; simpl in *; lia | simpl; lia].
Qed.

Lemma owns_free_values {A} scr (l : list A) k : 2 * Z.of_nat (length l) <= k ->
  owns scr k (free_values l) (fun _ => k - 2 * Z.of_nat (length l)).
Proof.
  revert k. induction l as [|x l IH]; intros k Hk; simpl free_values; [own_done|].
  own (owns_free scr 1). own (owns_free scr 1).
  eapply owns_weaken; [apply IH; simpl in *; lia | simpl; lia].
Qed.

Definition list_blocks {A} (n : Z) (o : option (list A)) : Z :=
  match o with Some l => n * Z.of_nat (length l) | None => 0 end.

Lemma owns_read_loop scr args acc k : Forall (arg_ok scr) args -> Z.of_nat (length acc) <= k ->
  owns scr k (read_loop args acc) (fun r => k - Z.of_nat (length acc) + list_blocks 1 r).
Proof.
  intros Hargs. revert acc k. induction Hargs as [|a args Ha _ IH]; intros acc k Hk;
    cbn [read_loop]; [own_done|].
  own (owns_Evaluate scr a). destruct r as [s|]; simpl.
  - eapply owns_weaken; [apply IH; rewrite length_app; simpl; lia |].
    intros r. rewrite length_app. simpl. lia.
  - own (@owns_free_all string scr acc). own_done.
Qed.

Lemma owns_read_values scr args acc k : Forall (arg_ok scr) args ->
  2 * Z.of_nat (length acc) <= k ->
  owns scr k (read_values args acc) (fun r => k - 2 * Z.of_nat (length acc) + list_blocks 2 r).
Proof.
  intros Hargs. revert acc k. induction Hargs as [|a args Ha _ IH]; intros acc k Hk;
    cbn [read_values]; [own_done|].
  own (owns_value scr a). destruct r as [s|]; simpl.
  - eapply owns_weaken; [apply IH; rewrite length_app; simpl; lia |].
    intros r. rewrite length_app. simpl. lia.
  - own (@owns_free_values Value scr acc). own_done.
Qed.

(** ** What the evaluator asks of a function

    Called with an acceptable number of well-behaved arguments, a function is
    itself well behaved: it owns nothing but its result. *)
Class FnContract (f : Function) (arity : nat -> Prop) : Prop :=
  fn_contract : forall scr name argv, arity (length argv) -> Forall (arg_ok scr) argv ->
    owns scr 0 (f name argv) (blocks 2).

Lemma owns_argv_at {B} scr argv i k (f : Arg -> M B) w :
  Forall (arg_ok scr) argv -> (i < length argv)%nat ->
  (forall a, arg_ok scr a -> owns scr k (f a) w) ->
  owns scr k (bind (argv_at argv i) f) w.
Proof.
  intros Hargs Hi Hf. unfold argv_at. destruct (nth_error argv i) as [a|] eqn:E.
  - intros st Hs Hl. apply (Hf a); [|done|done].
    eapply (proj1 (Forall_forall _ _)); [done|]. apply list_elem_of_In. by eapply nth_error_In.
  - apply nth_error_None in E. lia.
Qed.

Ltac own_arg := eapply owns_argv_at; [done | lia | intros ?a ?Ha].
Ltac own_last lem := eapply owns_weaken; [apply lem; simpl in *; (done || lia) | intros ?r; simpl; lia].

Lemma owns_bool_value scr b k : 0 <= k -> owns scr k (bool_value b) (fun r => k + blocks 2 r).
Proof.
  intros Hk. own (owns_strdup scr (if b then "t" else EmptyString)).
  own_last (owns_StringValue scr (Some r)).
Qed.

Lemma owns_empty_value scr k : 0 <= k -> owns scr k empty_value (fun r => k + blocks 2 r).
Proof.
  intros Hk. own (owns_strdup scr EmptyString). own_last (owns_StringValue scr (Some r)).
Qed.

(** A function that reports a wrong argument count. *)
Lemma owns_fail_with scr msg :
  owns scr 0 (bind (strdup msg) (fun m => bind (set_errmsg m) (fun _ => ret (@None Value))))
    (blocks 2).
Proof. own (owns_strdup scr msg). own (owns_set_errmsg scr r). own_done. Qed.

#[global] Instance Literal_contract : FnContract Literal (fun _ => True).
Proof.
  intros scr name argv _ _. own (owns_strdup scr name). own_last (owns_StringValue scr (Some r)).
Qed.

#[global] Instance ConcatFn_contract : FnContract ConcatFn (fun _ => True).
Proof.
  intros scr name argv _ Hargs. unfold ConcatFn. destruct argv as [|a argv].
  { own_last (owns_empty_value scr). }
  own (owns_alloc scr 1). eapply owns_bind; [apply (owns_read_loop scr _ []); [done|simpl; lia] | |].
  { intros [l|]; simpl; lia. }
  intros [l|]; cbn [list_blocks length].
  - own (owns_strdup scr (String.concat EmptyString l)). own (@owns_free_all string scr l).
    own (owns_free scr 1). own_last (owns_StringValue scr (Some r0)).
  - own (owns_free scr 1). own_last (owns_StringValue scr None).
Qed.

#[global] Instance IfElseFn_contract : FnContract IfElseFn (fun _ => True).
Proof.
  intros scr name argv _ Hargs. unfold IfElseFn.
  destruct (Nat.eqb_spec (length argv) 2), (Nat.eqb_spec (length argv) 3); cbn [negb andb];
    try apply owns_fail_with; try lia.
  all: own_arg; own (owns_Evaluate scr a); destruct r as [c|]; simpl; [|own_done];
    destruct (BooleanString c); [own (owns_free scr 1); own_arg; own_last (owns_value scr a0)|].
  - own_last (owns_StringValue scr (Some c)).
  - own (owns_free scr 1). own_arg. own_last (owns_value scr a0).
Qed.

#[global] Instance AbortFn_contract : FnContract AbortFn (fun _ => True).
Proof.
  intros scr name argv _ Hargs. unfold AbortFn.
  eapply (owns_bind _ _ _ _ (blocks 1)).
  - destruct Hargs as [|a argv Ha _]; [apply owns_ret; done|]. own_last (owns_Evaluate scr a).
  - intros [m|]; simpl; lia.
  - intros [m|]; simpl; [|apply owns_fail_with]. own (owns_set_errmsg scr m). own_done.
Qed.

#[global] Instance AssertFn_contract : FnContract AssertFn (fun _ => True).
Proof.
  intros scr name argv _ Hargs. unfold AssertFn.
  induction Hargs as [|a argv Ha _ IH]; cbn [assert_loop]; [own_last (owns_empty_value scr)|].
  own (owns_Evaluate scr a). destruct r as [v|]; simpl; [|own_done].
  own (owns_free scr 1). destruct (BooleanString v); cbn [negb]; [exact IH|].
  intros st Hs Hl. unfold get_script, bind at 1. rewrite Hs.
  destruct Ha as (_ & H0 & H1). rewrite !(proj2 (Z.leb_le _ _)) by lia. cbn [andb].
  revert st Hs Hl. change (owns scr 0 (alloc 1 ;;; set_errmsg ("assert failed: " ++
    substring (Z.to_nat (start a)) (Z.to_nat (end_ a - start a)) scr) ;;; ret None) (@blocks Value 2)).
  own (owns_alloc scr 1). eapply owns_bind; [apply owns_set_errmsg; lia | simpl; lia |].
  intros ?. own_done.
Qed.

#[global] Instance SleepFn_contract : FnContract SleepFn (fun n => 1 <= n)%nat.
Proof.
  intros scr name argv Hn Hargs. unfold SleepFn. own_arg. own (owns_Evaluate scr a).
  destruct r as [v|]; simpl; [|own_done]. own (owns_sleep scr (fst (strtol v))).
  own_last (owns_StringValue scr (Some v)).
Qed.

#[global] Instance StdoutFn_contract : FnContract StdoutFn (fun _ => True).
Proof.
  intros scr name argv _ Hargs. unfold StdoutFn.
  induction Hargs as [|a argv Ha _ IH]; cbn [stdout_loop]; [own_last (owns_empty_value scr)|].
  own (owns_Evaluate scr a). destruct r as [v|]; simpl; [|own_done].
  own (owns_puts scr v). own (owns_free scr 1). exact IH.
Qed.

#[global] Instance LogicalAndFn_contract : FnContract LogicalAndFn (fun n => n = 2)%nat.
Proof.
  intros scr name argv Hn Hargs. unfold LogicalAndFn. own_arg. own (owns_Evaluate scr a).
  destruct r as [v|]; cbn [blocks]; [|own_done]. destruct (BooleanString v).
  - own (owns_free scr 1). own_arg. own_last (owns_value scr a0).
  - own_last (owns_StringValue scr (Some v)).
Qed.

#[global] Instance LogicalOrFn_contract : FnContract LogicalOrFn (fun n => n = 2)%nat.
Proof.
  intros scr name argv Hn Hargs. unfold LogicalOrFn. own_arg. own (owns_Evaluate scr a).
  destruct r as [v|]; cbn [blocks]; [|own_done]. destruct (BooleanString v); cbn [negb].
  - own_last (owns_StringValue scr (Some v)).
  - own (owns_free scr 1). own_arg. own_last (owns_value scr a0).
Qed.

#[global] Instance LogicalNotFn_contract : FnContract LogicalNotFn (fun n => n = 1)%nat.
Proof.
  intros scr name argv Hn Hargs. unfold LogicalNotFn. own_arg. own (owns_Evaluate scr a).
  destruct r as [v|]; cbn [blocks]; [|own_done]. own (owns_free scr 1).
  own_last (owns_bool_value scr (negb (BooleanString v))).
Qed.

Lemma test2_contract test : FnContract (test2 test) (fun n => 2 <= n)%nat.
Proof.
  intros scr name argv Hn Hargs. unfold test2. own_arg. own (owns_Evaluate scr a).
  destruct r as [l|]; cbn [blocks]; [|own_done]. own_arg. own (owns_Evaluate scr a0).
  destruct r as [r|]; cbn [blocks].
  - own (owns_strdup scr (if test l r then "t" else EmptyString)).
    own (owns_free scr 1). own (owns_free scr 1). own_last (owns_StringValue scr (Some r0)).
  - own (owns_free scr 1). own_done.
Qed.

#[global] Instance SubstringFn_contract : FnContract SubstringFn (fun n => 2 <= n)%nat :=
  test2_contract _.
#[global] Instance EqualityFn_contract : FnContract EqualityFn (fun n => 2 <= n)%nat :=
  test2_contract _.
#[global] Instance InequalityFn_contract : FnContract InequalityFn (fun n => 2 <= n)%nat :=
  test2_contract _.

#[global] Instance SequenceFn_contract : FnContract SequenceFn (fun n => n = 2)%nat.
Proof.
  intros scr name argv Hn Hargs. unfold SequenceFn. own_arg. own (owns_value scr a).
  destruct r as [v|]; cbn [blocks]; [|own_done].
  own (owns_FreeValue scr (Some v)). own_arg. own_last (owns_value scr a0).
Qed.

(** As [owns_bind], when the rest depends on what results are possible. *)
Lemma owns_bind_result {A B} scr k (m : M A) (f : A -> M B) w w' :
  owns scr k m w -> (forall a, 0 <= w a) ->
  (forall a st st', m st = Some (a, st') -> owns scr (w a) (f a) w') ->
  owns scr k (bind m f) w'.
Proof.
  intros Hm Hw Hf st Hs Hl. destruct (Hm st Hs Hl) as (a & st1 & Heq & Hs1 & Hl1).
  destruct (Hf a _ _ Heq st1 Hs1) as (b & st2 & Heq2 & Hs2 & Hl2); [lia|].
  exists b, st2. unfold bind. rewrite Heq. split; [done|]. split; [done|]. lia.
Qed.

Lemma read_loop_length args acc st l st' :
  read_loop args acc st = Some (Some l, st') -> length l = (length acc + length args)%nat.
Proof.
  revert acc st. induction args as [|a args IH]; intros acc st H; cbn [read_loop] in H.
  { injection H as <- _. simpl. lia. }
  unfold bind in H. destruct (Evaluate a st) as [[[s|] st1]|]; [| |done].
  - apply IH in H. rewrite length_app in H. simpl in *. lia.
  - by destruct (free_all acc st1) as [[? ?]|].
Qed.

Lemma owns_ReadArgs scr argv n : Forall (arg_ok scr) argv -> length argv = n ->
  owns scr 0 (ReadArgs argv n) (list_blocks 1).
Proof.
  intros Hargs <-. unfold ReadArgs. own (owns_alloc scr 1).
  assert (first_args (length argv) argv = Some argv) as ->.
  { clear. induction argv as [|a argv IH]; [done|]. cbn [length first_args]. by rewrite IH. }
  eapply owns_bind; [apply (owns_read_loop scr argv []); [done|simpl; lia] | |].
  { intros [l|]; simpl; lia. }
  intros r1. eapply owns_bind; [apply (owns_free scr 1); destruct r1; simpl; lia | |].
  { intros ?. destruct r1; simpl; lia. }
  intros ?. apply owns_ret. destruct r1; simpl; lia.
Qed.

Lemma ReadArgs_length argv st l st' :
  ReadArgs argv (length argv) st = Some (Some l, st') -> length l = length argv.
Proof.
  unfold ReadArgs, bind, alloc. 
  assert (first_args (length argv) argv = Some argv) as ->.
  { clear. induction argv as [|a argv IH]; [done|]. cbn [length first_args]. by rewrite IH. }
  destruct (read_loop argv [] _) as [[r st1]|] eqn:E; [|done].
  unfold free. destruct (_ <? _); [done|]. intros [= -> _]. by apply read_loop_length in E.
Qed.

#[global] Instance LessThanIntFn_contract : FnContract LessThanIntFn (fun _ => True).
Proof.
  intros scr name argv _ Hargs. unfold LessThanIntFn.
  destruct (Nat.eqb_spec (length argv) 2) as [Hl|]; cbn [negb]; [|apply owns_fail_with].
  eapply owns_bind_result; [by apply owns_ReadArgs | intros [l|]; simpl; lia |].
  intros r st st' Hr. destruct r as [l|]; [|own_done].
  rewrite <- Hl in Hr. apply ReadArgs_length in Hr. rewrite Hl in Hr.
  destruct l as [|l [|r [|? ?]]]; try discriminate Hr. cbn [list_blocks length].
  own (owns_free scr 1). own (owns_free scr 1). own_last (owns_bool_value scr
    (if not_int l then false else if not_int r then false else fst (strtol l) <? fst (strtol r))).
Qed.

#[global] Instance GreaterThanIntFn_contract : FnContract GreaterThanIntFn (fun _ => True).
Proof.
  intros scr name argv _ Hargs. unfold GreaterThanIntFn.
  destruct (Nat.eqb_spec (length argv) 2) as [Hl|]; cbn [negb]; [|apply owns_fail_with].
  own_arg. own_arg. apply (LessThanIntFn_contract scr name [a0; a]); [exact I|].
  by apply Forall_cons_2; [|apply Forall_cons_2].
Qed.

(** ** Scripts *)

(** An expression the parser can produce over functions that keep their
    contract: arities as the grammar builds them, locations inside the script. *)
Inductive expr_ok (scr : string) : Expr -> Prop :=
  | expr_ok_intro fn name argv s t arity :
      FnContract fn arity -> arity (length argv) ->
      (forall e, In e argv -> expr_ok scr e) ->
      0 <= s -> s <= t <= Z.of_nat (String.length scr) ->
      expr_ok scr (mkExpr fn name argv s t).

Lemma expr_arg_ok scr e : expr_ok scr e -> arg_ok scr (arg_of e).
Proof.
  induction 1 as [fn name argv s t arity Hf Har _ IH Hs Ht]. split; [|done]. cbn [arg_of run].
  apply (@fn_contract _ _ Hf); [by rewrite length_map|].
  apply Forall_forall. intros a Ha. apply list_elem_of_In, in_map_iff in Ha as (e & <- & He).
  by apply IH.
Qed.


Definition lit (s : string) (a b : Z) : Expr := mkExpr Literal s [] a b.

(** [assert("" == "t" || !"") ; concat("a","b")] *)
Definition sample_script : string := "assert(e == t || !e); concat(a,b)".
Definition sample_expr : Expr :=
  Build SequenceFn (0, 33)
    [mkExpr AssertFn "assert"
       [Build LogicalOrFn (7, 19)
          [Build EqualityFn (7, 13) [lit EmptyString 7 8; lit "t" 12 13];
           Build LogicalNotFn (17, 19) [lit EmptyString 18 19]]] 0 20;
     mkExpr ConcatFn "concat" [lit "a" 29 30; lit "b" 31 32] 22 33].

Ltac expr_ok_tac :=
  eapply expr_ok_intro; [apply _ | simpl; (exact I || lia)
    | simpl; intuition subst | simpl; lia | simpl; lia].

Lemma sample_expr_ok : expr_ok sample_script sample_expr.
Proof. unfold sample_expr, Build, lit. repeat (expr_ok_tac; try (exfalso; assumption)). Qed.


(** ** Failures leave a message

    [loud bad m]: [m] never clears the error message, and a [bad] result comes
    with one. *)
Definition loud {A} (bad : A -> Prop) (m : M A) : Prop :=
  forall st a st', m st = Some (a, st') ->
    (errmsg st <> None -> errmsg st' <> None) /\ (bad a -> errmsg st' <> None).

Definition no_result {A} (o : option A) : Prop := o = None.
Definition never {A} (_ : A) : Prop := False.

Lemma loud_ret {A} (bad : A -> Prop) a : ~ bad a -> loud bad (ret a).
Proof. intros Hb st a' st' [= <- <-]. done. Qed.

Lemma loud_ret_never {A} (a : A) : loud never (ret a).
Proof. by apply loud_ret; intros []. Qed.

Lemma loud_ret_some {A} (a : A) : loud no_result (ret (Some a)).
Proof. apply loud_ret. unfold no_result. congruence. Qed.

Lemma loud_bind {A B} (bad : B -> Prop) (m : M A) (k : A -> M B) :
  loud never m -> (forall a, loud bad (k a)) -> loud bad (bind m k).
Proof.
  intros Hm Hk st b st' H. unfold bind in H. destruct (m st) as [[a st1]|] eqn:E; [|done].
  destruct (Hm _ _ _ E) as [H1 _]. destruct (Hk _ _ _ _ H) as [H2 H3]. auto.
Qed.

Lemma loud_bind_opt {A B} (bad : B -> Prop) (m : M (option A)) (k : option A -> M B) :
  loud no_result m -> loud never (k None) ->
  (forall x st st', m st = Some (Some x, st') -> loud bad (k (Some x))) ->
  loud bad (bind m k).
Proof.
  intros Hm Hn Hs st b st' H. unfold bind in H. destruct (m st) as [[[x|] st1]|] eqn:E; [| |done];
    destruct (Hm _ _ _ E) as [H1 H1'].
  - destruct (Hs _ _ _ E _ _ _ H) as [H2 H3]. auto.
  - destruct (Hn _ _ _ H) as [H2 _]. specialize (H1' eq_refl). auto.
Qed.

Lemma loud_quiet {A} (bad : A -> Prop) (m : M A) : loud bad m -> loud never m.
Proof. intros Hm st a st' H. destruct (Hm _ _ _ H). by split. Qed.

Lemma loud_alloc n : loud never (alloc n).
Proof. intros st a st' [= <- <-]. done. Qed.
Lemma loud_free n : loud never (free n).
Proof. intros st a st' H. unfold free in H. destruct (_ <? _); [done|]. by injection H as <- <-. Qed.
Lemma loud_strdup s : loud never (strdup s).
Proof. apply loud_bind; [apply loud_alloc | intros; apply loud_ret_never]. Qed.
Lemma loud_puts s : loud never (puts s).
Proof. intros st a st' [= <- <-]. done. Qed.
Lemma loud_sleep n : loud never (sleep n).
Proof. intros st a st' [= <- <-]. done. Qed.
Lemma loud_argv_at argv i : loud never (argv_at argv i).
Proof. unfold argv_at. destruct (nth_error argv i); [apply loud_ret_never | by intros ? ? ?]. Qed.
Lemma loud_free_all {A} (l : list A) : loud never (free_all l).
Proof.
  induction l; simpl; [apply loud_ret_never|]. apply loud_bind; [apply loud_free | done].
Qed.
Lemma loud_StringValue s : loud no_result (StringValue (Some s)).
Proof. apply loud_bind; [apply loud_alloc | intros; apply loud_ret_some]. Qed.

Lemma loud_set_errmsg {A} (bad : A -> Prop) msg (m : M A) :
  loud never m -> loud bad (set_errmsg msg ;;; m).
Proof.
  intros Hm st a st' H. unfold bind in H. destruct (set_errmsg msg st) as [[[] st1]|] eqn:E; [|done].
  assert (errmsg st1 <> None) as Hset.
  { unfold set_errmsg, bind in E. destruct (free_opt _ st) as [[? ?]|]; [|done].
    by injection E as <-. }
  destruct (Hm _ _ _ H). auto.
Qed.

#[export] Hint Resolve loud_alloc loud_free loud_strdup loud_puts loud_sleep loud_argv_at
  loud_free_all loud_StringValue loud_ret_never loud_ret_some : edify.

Definition loud_arg (a : Arg) : Prop := loud no_result (run a).

Ltac loud :=
  repeat first
    [ solve [eauto with edify]
    | apply loud_set_errmsg
    | apply loud_bind; [solve [eauto with edify] | intros ?]
    | match goal with |- loud _ (if ?b then _ else _) => destruct b end
    | match goal with |- loud _ (match ?x with _ => _ end) => destruct x end ].

Lemma loud_Evaluate a : loud_arg a -> loud no_result (Evaluate a).
Proof.
  intros Ha. apply loud_bind_opt; [done | apply loud_ret_never |]. intros v _ _ _.
  destruct (negb _); [|loud]. unfold ErrorAbort. intros st r st' H. unfold bind at 1 in H.
  destruct ((alloc 1 ;;; _) st) as [[? st1]|] eqn:E; [|done].
  assert (errmsg st1 <> None).
  { eapply (loud_bind (fun _ => True)) in E as [_ E]; [by apply E | apply loud_alloc |].
    intros ?. apply loud_set_errmsg. apply loud_ret_never. }
  assert (loud never (FreeValue (Some v) ;;; ret (@None string))) as HF.
  { apply loud_bind; [unfold FreeValue; loud | intros; apply loud_ret_never]. }
  destruct (HF _ _ _ H). auto.
Qed.
#[export] Hint Resolve loud_Evaluate : edify.

(** A function that keeps the rule when its arguments do. *)
Class LoudFn (f : Function) : Prop :=
  loud_fn : forall name argv, Forall loud_arg argv -> loud no_result (f name argv).

Lemma loud_nth {B} (bad : B -> Prop) argv i (k : Arg -> M B) : Forall loud_arg argv ->
  (forall a, loud_arg a -> loud bad (k a)) -> loud bad (bind (argv_at argv i) k).
Proof.
  intros Hargs Hk. unfold argv_at. destruct (nth_error argv i) as [a|] eqn:E.
  - intros st b st' H. refine (Hk a _ st b st' H).
    eapply (proj1 (Forall_forall _ _)); [done|]. apply list_elem_of_In. by eapply nth_error_In.
  - by intros ? ? ?.
Qed.

Lemma loud_read_loop args acc : Forall loud_arg args -> loud no_result (read_loop args acc).
Proof.
  intros Ha. revert acc. induction Ha as [|a args Ha _ IH]; intros acc; cbn [read_loop].
  { apply loud_ret_some. }
  apply loud_bind_opt; [auto with edify | loud | auto].
Qed.

Lemma loud_quiet_opt {A} (m : M (option A)) : loud no_result m -> loud never m.
Proof. apply loud_quiet. Qed.

Lemma loud_StringValue_opt s : loud never (StringValue s).
Proof. destruct s; [eapply loud_quiet, loud_StringValue | apply loud_ret_never]. Qed.

Lemma loud_value a : loud_arg a -> loud no_result (EvaluateValue a).
Proof. done. Qed.

Lemma loud_bool_value b : loud no_result (bool_value b).
Proof. unfold bool_value. loud. Qed.

Lemma loud_empty_value : loud no_result empty_value.
Proof. unfold empty_value. loud. Qed.

#[export] Hint Resolve loud_StringValue_opt loud_value loud_bool_value loud_empty_value : edify.

(** [Evaluate] (or [EvaluateValue]) of an argument, then the rest. *)
Ltac loud_eval := apply loud_bind_opt; [solve [eauto with edify] | solve [loud] | intros ?x _ _ _].
Ltac loud_arg_at := apply loud_nth; [assumption | intros ?a ?Ha].

#[global] Instance Literal_loud : LoudFn Literal.
Proof. intros name argv _. unfold Literal. loud. Qed.

#[global] Instance ConcatFn_loud : LoudFn ConcatFn.
Proof.
  intros name argv Ha. unfold ConcatFn. destruct argv as [|a argv]; [loud|].
  apply loud_bind; [loud|]. intros _.
  apply loud_bind_opt; [by apply loud_read_loop | loud |]. intros l _ _ _. loud.
Qed.

#[global] Instance IfElseFn_loud : LoudFn IfElseFn.
Proof.
  intros name argv Ha. unfold IfElseFn. destruct (_ && _); [loud|].
  loud_arg_at. loud_eval. destruct (BooleanString x); [|destruct (_ =? _)%nat]; [..|loud];
    (apply loud_bind; [loud|]; intros _; loud_arg_at; loud).
Qed.

#[global] Instance AbortFn_loud : LoudFn AbortFn.
Proof.
  intros name argv Ha. unfold AbortFn. apply loud_bind.
  - destruct Ha; [loud|]. by apply loud_quiet_opt, loud_Evaluate.
  - intros [m|]; loud.
Qed.

#[global] Instance AssertFn_loud : LoudFn AssertFn.
Proof.
  intros name argv Ha. unfold AssertFn. induction Ha as [|a argv Ha _ IH]; cbn [assert_loop]; [loud|].
  loud_eval. apply loud_bind; [loud|]. intros _. destruct (negb _); [|done].
  apply loud_bind; [by intros st v st' [= <- <-]|]. intros src.
  destruct (_ && _); [loud | by intros ? ? ?].
Qed.

#[global] Instance SleepFn_loud : LoudFn SleepFn.
Proof. intros name argv Ha. unfold SleepFn. loud_arg_at. loud_eval. loud. Qed.

#[global] Instance StdoutFn_loud : LoudFn StdoutFn.
Proof.
  intros name argv Ha. unfold StdoutFn. induction Ha as [|a argv Ha _ IH]; cbn [stdout_loop]; [loud|].
  loud_eval. apply loud_bind; [loud|]. intros _. apply loud_bind; [loud|]. by intros _.
Qed.

#[global] Instance LogicalAndFn_loud : LoudFn LogicalAndFn.
Proof.
  intros name argv Ha. unfold LogicalAndFn. loud_arg_at. loud_eval. destruct (BooleanString x); [|loud].
  apply loud_bind; [loud|]. intros _. loud_arg_at. loud.
Qed.

#[global] Instance LogicalOrFn_loud : LoudFn LogicalOrFn.
Proof.
  intros name argv Ha. unfold LogicalOrFn. loud_arg_at. loud_eval. destruct (negb _); [|loud].
  apply loud_bind; [loud|]. intros _. loud_arg_at. loud.
Qed.

#[global] Instance LogicalNotFn_loud : LoudFn LogicalNotFn.
Proof. intros name argv Ha. unfold LogicalNotFn. loud_arg_at. loud_eval. loud. Qed.

#[global] Instance test2_loud test : LoudFn (test2 test).
Proof.
  intros name argv Ha. unfold test2. loud_arg_at. loud_eval. loud_arg_at. loud_eval. loud.
Qed.

#[global] Instance SequenceFn_loud : LoudFn SequenceFn.
Proof.
  intros name argv Ha. unfold SequenceFn. loud_arg_at. loud_eval.
  apply loud_bind; [unfold FreeValue; loud|]. intros _. loud_arg_at. loud.
Qed.

#[global] Instance LessThanIntFn_loud : LoudFn LessThanIntFn.
Proof.
  intros name argv Ha. unfold LessThanIntFn.
  destruct (Nat.eqb_spec (length argv) 2) as [Hl|]; cbn [negb]; [|loud].
  apply loud_bind_opt; [|loud|].
  - unfold ReadArgs. apply loud_bind; [loud|]. intros _.
    destruct argv as [|a0 [|a1 [|? ?]]]; try discriminate Hl.
    cbn [first_args fmap option_fmap option_map].
    apply loud_bind_opt; [by apply loud_read_loop | loud |]. intros l _ _ _. loud.
  - intros l st st' Hr. rewrite <- Hl in Hr. apply ReadArgs_length in Hr. rewrite Hl in Hr.
    destruct l as [|x [|y [|? ?]]]; try discriminate Hr. loud.
Qed.

#[global] Instance GreaterThanIntFn_loud : LoudFn GreaterThanIntFn.
Proof.
  intros name argv Ha. unfold GreaterThanIntFn. destruct (negb _); [loud|].
  loud_arg_at. loud_arg_at. apply LessThanIntFn_loud. by apply Forall_cons_2; [|apply Forall_cons_2].
Qed.

(** Expressions over such functions. *)
Inductive loud_expr : Expr -> Prop :=
  | loud_expr_intro fn name argv s t :
      LoudFn fn -> (forall e, In e argv -> loud_expr e) -> loud_expr (mkExpr fn name argv s t).

Lemma loud_expr_arg e : loud_expr e -> loud_arg (arg_of e).
Proof.
  induction 1 as [fn name argv s t Hf _ IH]. unfold loud_arg. cbn [arg_of run]. apply loud_fn.
  apply Forall_forall. intros a Ha. apply list_elem_of_In, in_map_iff in Ha as (e & <- & He).
  by apply IH.
Qed.

(** A script that fails says why.  Whenever evaluating an expression over
    the built-in functions (and any registered ones that do the same) as a
    string returns NULL, [state->errmsg] has been set, whatever it held before;
    and evaluation never clears a message that was there. *)
Lemma edify_failure_has_message (e : Expr) (st st' : State) (r : option string) :
  loud_expr e -> Evaluate (arg_of e) st = Some (r, st') ->
  (r = None -> errmsg st' <> None) /\ (errmsg st <> None -> errmsg st' <> None).
Proof.
  intros He H. destruct (loud_Evaluate _ (loud_expr_arg e He) _ _ _ H) as [Hkeep Hset].
  split; [exact Hset | exact Hkeep].
Qed.

(** ** Looking up functions *)

Lemma strcmp_eq a b : strcmp a b = Eq <-> a = b.
Proof.
  split; [apply String.compare_eq_iff|]. intros <-. unfold strcmp.
  induction a as [|x a IH]; cbn [String.compare]; [done|].
  unfold Ascii.compare. by rewrite N.compare_refl.
Qed.

Lemma strcmp_antisym a b : strcmp b a = CompOpp (strcmp a b).
Proof. apply String.compare_antisym. Qed.

Lemma strcmp_trans a b c : strcmp a b = Lt -> strcmp b c = Lt -> strcmp a c = Lt.
Proof.
  unfold strcmp. revert b c.
  induction a as [|x a IH]; intros [|y b] [|z c]; cbn [String.compare]; try done.
  unfold Ascii.compare.
  destruct (N.compare_spec (N_of_ascii x) (N_of_ascii y)) as [E1|E1|E1]; [| |done];
    destruct (N.compare_spec (N_of_ascii y) (N_of_ascii z)) as [E2|E2|E2]; try done; intros H1 H2;
    destruct (N.compare_spec (N_of_ascii x) (N_of_ascii z)); try lia; try done.
  by eapply IH.
Qed.

#[global] Instance fn_entry_le_trans : Transitive fn_entry_le.
Proof.
  intros [a ?] [b ?] [c ?]. unfold fn_entry_le. simpl. intros H1 H2 H3.
  destruct (strcmp a b) eqn:E1; [| |done].
  - apply strcmp_eq in E1 as ->. done.
  - destruct (strcmp b c) eqn:E2; [| |done].
    + apply strcmp_eq in E2 as ->. congruence.
    + rewrite (strcmp_trans _ _ _ E1 E2) in H3. done.
Qed.

#[global] Instance fn_entry_le_total : Total fn_entry_le.
Proof.
  intros [a ?] [b ?]. unfold fn_entry_le. simpl. rewrite (strcmp_antisym a b).
  destruct (strcmp a b); simpl; [left|left|right]; done.
Qed.

Lemma sorted_lookup (t : list (string * Function)) i j x y :
  StronglySorted fn_entry_le t -> t !! i = Some x -> t !! j = Some y -> (i < j)%nat ->
  fn_entry_le x y.
Proof.
  intros Hs. revert i j. induction Hs as [|z t Hs IH Hz]; intros i j Hi Hj Hlt; [done|].
  destruct j as [|j]; [lia|]. destruct i as [|i]; simpl in *.
  - injection Hi as <-. exact (Forall_lookup_1 _ _ _ _ Hz Hj).
  - eapply IH; [done..|lia].
Qed.

(** The position of a key relative to a probe. *)
Lemma sorted_position (t : list (string * Function)) p k name fn name' fn' :
  StronglySorted fn_entry_le t ->
  t !! p = Some (name, fn) -> t !! k = Some (name', fn') ->
  (strcmp name' name = Gt -> (p < k)%nat) /\ (strcmp name' name = Lt -> (k < p)%nat).
Proof.
  intros Hs Hp Hk. split; intros Hc.
  - destruct (decide (p < k)%nat) as [|Hge]; [done|]. destruct (decide (p = k)) as [->|Hne].
    + rewrite Hp in Hk. injection Hk as -> _. by rewrite (proj2 (strcmp_eq name' name')) in Hc.
    + pose proof (sorted_lookup t k p _ _ Hs Hk Hp ltac:(lia)) as Hle. done.
  - destruct (decide (k < p)%nat) as [|Hge]; [done|]. destruct (decide (p = k)) as [->|Hne].
    + rewrite Hp in Hk. injection Hk as -> _. by rewrite (proj2 (strcmp_eq name' name')) in Hc.
    + pose proof (sorted_lookup t p k _ _ Hs Hp Hk ltac:(lia)) as Hle.
      unfold fn_entry_le in Hle. simpl in Hle. rewrite (strcmp_antisym name' name), Hc in Hle. done.
Qed.

Lemma bsearch_found fuel key t base lim k fn :
  StronglySorted fn_entry_le t -> NoDup (map fst t) ->
  t !! k = Some (key, fn) -> (base <= k < base + lim)%nat -> (base + lim <= length t)%nat ->
  (lim < fuel)%nat -> bsearch fuel key t base lim = Some (Some fn).
Proof.
  intros Hs Hnd Hk. revert base lim. induction fuel as [|fuel IH]; intros base lim Hin Hlen Hf; [lia|].
  cbn [bsearch]. destruct (Nat.eqb_spec lim 0); [lia|].
  pose proof (Nat.div_lt lim 2 ltac:(lia) ltac:(lia)).
  pose proof (Nat.Div0.div_le_mono (lim - 1) lim 2 ltac:(lia)).
  pose proof (Nat.div_mod_eq lim 2). pose proof (Nat.mod_upper_bound lim 2 ltac:(lia)).
  pose proof (Nat.div_mod_eq (lim - 1) 2). pose proof (Nat.mod_upper_bound (lim - 1) 2 ltac:(lia)).
  destruct (lookup_lt_is_Some_2 t (base + lim / 2)) as [[name fn'] Hp]; [lia|]. rewrite Hp.
  destruct (sorted_position _ _ _ _ _ _ _ Hs Hp Hk) as [HGt HLt].
  destruct (strcmp key name) eqn:E.
  - apply strcmp_eq in E as <-. do 2 f_equal.
    assert ((base + lim / 2)%nat = k) as Heq.
    { eapply (NoDup_lookup (map fst t)); [done| |]; rewrite list_lookup_fmap.
      - by rewrite Hp. - by rewrite Hk. }
    rewrite Heq in Hp. congruence.
  - specialize (HLt eq_refl). apply IH; lia.
  - specialize (HGt eq_refl). apply IH; lia.
Qed.

Lemma bsearch_absent fuel key t base lim :
  ~ In key (map fst t) -> (base + lim <= length t)%nat -> (lim < fuel)%nat ->
  bsearch fuel key t base lim = Some None.
Proof.
  intros Hno. revert base lim. induction fuel as [|fuel IH]; intros base lim Hlen Hf; [lia|].
  cbn [bsearch]. destruct (Nat.eqb_spec lim 0); [done|].
  pose proof (Nat.div_lt lim 2 ltac:(lia) ltac:(lia)).
  pose proof (Nat.div_mod_eq lim 2). pose proof (Nat.mod_upper_bound lim 2 ltac:(lia)).
  pose proof (Nat.div_mod_eq (lim - 1) 2). pose proof (Nat.mod_upper_bound (lim - 1) 2 ltac:(lia)).
  destruct (lookup_lt_is_Some_2 t (base + lim / 2)) as [[name fn'] Hp]; [lia|]. rewrite Hp.
  destruct (strcmp key name) eqn:E; [|apply IH; lia..].
  apply strcmp_eq in E as <-. destruct Hno. apply in_map_iff. exists (key, fn'). split; [done|].
  apply list_elem_of_In. by eapply list_elem_of_lookup_2.
Qed.

Definition register_all (l : list (string * Function)) (t : fn_state) : fn_state :=
  fold_left (fun t e => RegisterFunction (fst e) (snd e) t) l t.

Lemma register_all_table l t :
  fn_table (register_all l t) = (fn_table t ++ l)%list /\
  (Z.of_nat (length (fn_table t)) <= fn_size t ->
   Z.of_nat (length (fn_table t ++ l)%list) <= fn_size (register_all l t)).
Proof.
  revert t. induction l as [|[name fn] l IH]; intros t; cbn [register_all fold_left].
  { by rewrite app_nil_r. }
  fold (register_all l (RegisterFunction name fn t)).
  destruct (IH (RegisterFunction name fn t)) as [H1 H2]. unfold RegisterFunction in *.
  cbn [fn_table fn_size] in *. rewrite <- app_assoc in H1, H2. split; [done|]. intros Hsz.
  apply H2. rewrite length_app. cbn [length].
  destruct (Z.leb_spec (fn_size t) (Z.of_nat (length (fn_table t)))); lia.
Qed.

(** The function table works.  After any list of functions with distinct
    names has been registered (each store inside the allocated table) and
    registration is finished, [FindFunction] terminates within the table and
    returns exactly the registered function for a registered name, and NULL for
    any other name. *)
Lemma FindFunction_registered (l : list (string * Function)) :
  NoDup (map fst l) ->
  let t := FinishRegistration (register_all l no_functions) in
  Z.of_nat (length (fn_table t)) <= fn_size t /\
  (forall name fn, In (name, fn) l -> FindFunction t name = Some (Some fn)) /\
  (forall name, ~ In name (map fst l) -> FindFunction t name = Some None).
Proof.
  intros Hnd t. destruct (register_all_table l no_functions) as [Ht Hsz].
  specialize (Hsz ltac:(done)). cbn [no_functions fn_table app] in Ht, Hsz.
  unfold t, FinishRegistration, FindFunction. cbn [fn_table fn_size]. rewrite Ht.
  pose proof (merge_sort_Permutation fn_entry_le l) as Hp.
  assert (StronglySorted fn_entry_le (merge_sort fn_entry_le l)) as Hs.
  { apply Sorted_StronglySorted; [apply _|]. apply Sorted_merge_sort. apply _. }
  set (t' := merge_sort fn_entry_le l) in *.
  split; [by rewrite (Permutation_length Hp)|]. split.
  - intros name fn Hin. apply list_elem_of_In in Hin. rewrite <- Hp in Hin.
    apply list_elem_of_lookup in Hin as [k Hk].
    apply (bsearch_found _ _ _ _ _ k); [done | | done | | lia | lia].
    + by rewrite (Permutation_map fst Hp).
    + apply lookup_lt_Some in Hk. lia.
  - intros name Hno. apply bsearch_absent; [|lia|lia].
    intros Hin. apply Hno. by rewrite <- (Permutation_map fst Hp).
Qed.

(** [is_substring] and [sleep] do not check how many arguments the script
    gives them: with one argument too few they read past the argument array,
    whatever that array holds and whatever the state. *)
Lemma is_substring_reads_past_argv (name : string) (a : Arg) (st st1 : State) (s : string) :
  Evaluate a st = Some (Some s, st1) ->
  SubstringFn name [a] st = None /\ SleepFn name [] st = None.
Proof.
  intros Ha. split; [|done]. unfold SubstringFn, test2, bind. cbn. by rewrite Ha.
Qed.

(** ** Boolean laws *)

Lemma free_ok n st : n <= live st -> free n st = Some (tt, set_live (live st - n) st).
Proof. intros H. unfold free. by rewrite (proj2 (Z.ltb_ge _ _)). Qed.

Lemma set_live_live m st : live (set_live m st) = m.
Proof. done. Qed.

Lemma set_live_set_live m n st : set_live m (set_live n st) = set_live m st.
Proof. done. Qed.

Lemma set_live_same st : set_live (live st) st = st.
Proof. by destruct st. Qed.

(** Evaluating an argument, with what is left allocated. *)
Lemma Evaluate_cases scr a st : arg_ok scr a -> script st = scr -> errs st <= live st ->
  exists r st1, Evaluate a st = Some (r, st1) /\ script st1 = scr /\
    errs st1 + blocks 1 r <= live st1.
Proof.
  intros Ha Hs Hl. destruct (owns_Evaluate scr a 0 Ha ltac:(lia) st Hs) as (r & st1 & H1 & H2 & H3);
    [lia|]. exists r, st1. split; [done|]. split; [done|]. lia.
Qed.

Definition op (f : Function) (args : list Arg) : Arg := mkArg (f "(operator)" args) 0 0.

(** The operators in terms of [Evaluate] on their operands. *)
Lemma Not_steps scr a st : arg_ok scr a -> script st = scr -> errs st <= live st ->
  Evaluate (op LogicalNotFn [a]) st =
  match Evaluate a st with
  | None => None
  | Some (None, st1) => Some (None, st1)
  | Some (Some s, st1) => Some (Some (if BooleanString s then EmptyString else "t"), st1)
  end.
Proof.
  intros Ha Hs Hl. destruct (Evaluate_cases scr a st Ha Hs Hl) as (r & st1 & Heq & Hs1 & Hl1).
  unfold Evaluate at 1. cbn [op run]. unfold LogicalNotFn, bind at 1 2 3. cbn [argv_at nth_error ret].
  rewrite Heq. assert (0 <= errs st1) by (unfold errs; destruct (errmsg st1); lia).
  destruct r as [s|]; [|done]. cbn [blocks] in Hl1.
  unfold bool_value, strdup, StringValue, bind, ret, alloc.
  rewrite free_ok by lia. cbn [type data VAL_STRING Z.eqb Pos.eqb negb].
  rewrite free_ok by (rewrite !set_live_live; lia). rewrite !set_live_live, !set_live_set_live.
  replace (live st1 - 1 + 1 + 1 - 1) with (live st1) by lia. rewrite set_live_same.
  by destruct (BooleanString s).
Qed.

Lemma errs_nonneg st : 0 <= errs st.
Proof. unfold errs. destruct (errmsg st); lia. Qed.

(** [EvaluateValue] after freeing the left operand, then read as a string. *)
Lemma Evaluate_right (b : Arg) (m : M (option Value)) st st1 :
  m st = run b st1 ->
  bind m (fun v => match v with
    | None => ret None
    | Some v => if negb (type v =? VAL_STRING) then
        ErrorAbort ("expecting string, got value type " ++ pretty (type v)) ;;;
        FreeValue (Some v) ;;; ret None
      else free 1 ;;; ret (Some (data v)) end) st = Evaluate b st1.
Proof. intros H. unfold Evaluate, bind at 1. rewrite H. reflexivity. Qed.

Lemma And_steps scr a b st : arg_ok scr a -> script st = scr -> errs st <= live st ->
  Evaluate (op LogicalAndFn [a; b]) st =
  match Evaluate a st with
  | None => None
  | Some (None, st1) => Some (None, st1)
  | Some (Some s, st1) =>
      if BooleanString s then Evaluate b (set_live (live st1 - 1) st1) else Some (Some s, st1)
  end.
Proof.
  intros Ha Hs Hl. destruct (Evaluate_cases scr a st Ha Hs Hl) as (r & st1 & Heq & Hs1 & Hl1).
  pose proof (errs_nonneg st1). rewrite Heq. destruct r as [s|]; cbn [blocks] in Hl1.
  - destruct (BooleanString s) eqn:E.
    + apply Evaluate_right. cbn [op run]. unfold LogicalAndFn, bind. cbn [argv_at nth_error ret].
      rewrite Heq, E. by rewrite free_ok by lia.
    + unfold Evaluate at 1. cbn [op run]. unfold LogicalAndFn, bind. cbn [argv_at nth_error ret].
      rewrite Heq, E. unfold StringValue, bind, alloc, ret.
      cbn [type data VAL_STRING Z.eqb Pos.eqb negb].
      rewrite free_ok by (rewrite set_live_live; lia). rewrite set_live_live, set_live_set_live.
      replace (live st1 + 1 - 1) with (live st1) by lia. by rewrite set_live_same.
  - unfold Evaluate at 1. cbn [op run]. unfold LogicalAndFn, bind. cbn [argv_at nth_error ret].
    by rewrite Heq.
Qed.

Lemma Or_steps scr a b st : arg_ok scr a -> script st = scr -> errs st <= live st ->
  Evaluate (op LogicalOrFn [a; b]) st =
  match Evaluate a st with
  | None => None
  | Some (None, st1) => Some (None, st1)
  | Some (Some s, st1) =>
      if BooleanString s then Some (Some s, st1) else Evaluate b (set_live (live st1 - 1) st1)
  end.
Proof.
  intros Ha Hs Hl. destruct (Evaluate_cases scr a st Ha Hs Hl) as (r & st1 & Heq & Hs1 & Hl1).
  pose proof (errs_nonneg st1). rewrite Heq. destruct r as [s|]; cbn [blocks] in Hl1.
  - destruct (BooleanString s) eqn:E.
    + unfold Evaluate at 1. cbn [op run]. unfold LogicalOrFn, bind. cbn [argv_at nth_error ret].
      rewrite Heq, E. unfold StringValue, bind, alloc, ret.
      cbn [type data VAL_STRING Z.eqb Pos.eqb negb].
      rewrite free_ok by (rewrite set_live_live; lia). rewrite set_live_live, set_live_set_live.
      replace (live st1 + 1 - 1) with (live st1) by lia. by rewrite set_live_same.
    + apply Evaluate_right. cbn [op run]. unfold LogicalOrFn, bind. cbn [argv_at nth_error ret].
      rewrite Heq, E. cbn [negb]. by rewrite free_ok by lia.
  - unfold Evaluate at 1. cbn [op run]. unfold LogicalOrFn, bind. cbn [argv_at nth_error ret].
    by rewrite Heq.
Qed.

Lemma op_ok scr f arity argv : FnContract f arity -> arity (length argv) ->
  Forall (arg_ok scr) argv -> arg_ok scr (op f argv).
Proof. intros Hf Har Ha. split; [by apply (@fn_contract _ _ Hf)|]. simpl. lia. Qed.

Ltac arg_list := repeat (apply Forall_cons_2; [assumption|]); apply Forall_nil_2; exact I.

(** De Morgan's law holds for the short-circuit operators, effects
    included: for any well-behaved operands, [!(a && b)] and [!a || !b] evaluate
    to the same result with the same final state (output, error message and
    memory). *)
Lemma edify_de_morgan (scr : string) (a b : Arg) (st : State) :
  arg_ok scr a -> arg_ok scr b -> script st = scr -> errs st <= live st ->
  Evaluate (op LogicalNotFn [op LogicalAndFn [a; b]]) st =
  Evaluate (op LogicalOrFn [op LogicalNotFn [a]; op LogicalNotFn [b]]) st.
Proof.
  intros Ha Hb Hs Hl.
  assert (arg_ok scr (op LogicalAndFn [a; b])) as Hand
    by (eapply op_ok; [apply _ | done | arg_list]).
  assert (arg_ok scr (op LogicalNotFn [a])) as Hnot
    by (eapply op_ok; [apply _ | done | arg_list]).
  rewrite (Not_steps scr), (And_steps scr), (Or_steps scr), (Not_steps scr) by done.
  destruct (Evaluate_cases scr a st Ha Hs Hl) as (r & st1 & -> & Hs1 & Hl1).
  destruct r as [s|]; [|done]. cbn [blocks] in Hl1.
  destruct (BooleanString s) eqn:E; cbn [BooleanString]; [|by rewrite E].
  rewrite (Not_steps scr); [done | done | done |].
  unfold errs in *. cbn [set_live errmsg live] in *. lia.
Qed.
