(* ===== verification/Verifier.v ===== *)
(** * Verification of an update package

    Model of [recovery/verifier.c]: [verify_file] looks for a whole-file RSA
    signature in the comment of a ZIP archive and checks it against the keys of
    the image.  The file is the list of its bytes; reading past the end of a
    buffer is the outcome [VMemoryError].

    mincrypt is not part of the repository: SHA-1 and RSA are the classes [Sha]
    and [Rsa].  The law of [Sha] is that hashing a file piecewise gives the hash
    of the file; nothing is assumed of [RSA_verify]. *)

From S2P Require Import Prelude.

Class Sha := {
  sha_ctx : Type;
  SHA_init : sha_ctx;
  SHA_update : sha_ctx -> list Z -> sha_ctx;
  SHA_final : sha_ctx -> list Z
}.

Class ShaLaws (S : Sha) := {
  sha1 : list Z -> list Z;
  sha1_stream : forall chunks,
    SHA_final (foldl SHA_update SHA_init chunks) = sha1 (concat chunks)
}.

Class Rsa := {
  RSAPublicKey : Type;
  RSANUMBYTES : Z;
  RSANUMBYTES_pos : 0 < RSANUMBYTES;
  RSA_verify : RSAPublicKey -> list Z -> list Z -> bool
}.

Definition VERIFY_SUCCESS : Z := 0.
Definition VERIFY_FAILURE : Z := 1.

Inductive verify_result :=
  | VReturn (code : Z)
  | VMemoryError   (* an access outside a buffer *)
  | VNoFuel.       (* still running when the fuel is spent *)

Definition FOOTER_SIZE : Z := 6.
Definition EOCD_HEADER_SIZE : Z := 22.
Definition BUFFER_SIZE : Z := 4096.

(** The bytes at offset [off] from the start, as [fread] returns them. *)
Definition fread_at (f : list Z) (off n : Z) : list Z :=
  take (Z.to_nat n) (drop (Z.to_nat off) f).

Definition byte (b : list Z) (i : Z) : Z := nth (Z.to_nat i) b 0.

(** $50 $4b $05 $06 at [b + i] *)
Definition eocd_marker_at (b : list Z) (i : Z) : bool :=
  (byte b i =? 0x50) && (byte b (i + 1) =? 0x4b) &&
  (byte b (i + 2) =? 0x05) && (byte b (i + 3) =? 0x06).

(** [for (i = 4; i < eocd_size-3; ++i)]: is there another marker? *)
Fixpoint marker_loop (n : nat) (eocd : list Z) (i : Z) : bool :=
  match n with
  | O => false
  | S n => if eocd_marker_at eocd i then true else marker_loop n eocd (i + 1)
  end.

Section Verify.
Context {HS : Sha} {HR : Rsa}.

(** [while (so_far < signed_len)]: [None] in the result when a read comes up
    short, no result when the fuel is spent. *)
Fixpoint hash_loop (fuel : nat) (f : list Z) (signed_len so_far : Z) (ctx : sha_ctx)
    : option (option sha_ctx) :=
  match fuel with
  | O => None
  | S fuel =>
      if so_far <? signed_len then
        let size := BUFFER_SIZE in
        let size := if signed_len - so_far <? size then signed_len - so_far else size in
        let buffer := fread_at f so_far size in
        if negb (Z.of_nat (length buffer) =? size) then Some None
        else hash_loop fuel f signed_len (so_far + size) (SHA_update ctx buffer)
      else Some (Some ctx)
  end.

(** [for (i = 0; i < numKeys; ++i)]: the signature is read from
    [eocd + sig_off]. *)
Fixpoint key_loop (keys : list RSAPublicKey) (eocd : list Z) (sig_off : Z) (sha : list Z)
    : verify_result :=
  match keys with
  | [] => VReturn VERIFY_FAILURE
  | k :: keys =>
      if (sig_off <? 0) || (Z.of_nat (length eocd) <? sig_off + RSANUMBYTES) then VMemoryError
      else if RSA_verify k (fread_at eocd sig_off RSANUMBYTES) sha then VReturn VERIFY_SUCCESS
      else key_loop keys eocd sig_off sha
  end.

(** [file] is [None] when it cannot be opened; [eocd_mem] and [buf_mem] say
    whether the two allocations succeed. *)
Definition verify_file (file : option (list Z)) (eocd_mem buf_mem : bool)
    (pKeys : list RSAPublicKey) : verify_result :=
  match file with
  | None => VReturn VERIFY_FAILURE
  | Some f =>
      let size := Z.of_nat (length f) in
      if size <? FOOTER_SIZE then VReturn VERIFY_FAILURE else
      let footer := fread_at f (size - FOOTER_SIZE) FOOTER_SIZE in
      if negb (Z.of_nat (length footer) =? FOOTER_SIZE) then VReturn VERIFY_FAILURE else
      if negb (byte footer 2 =? 0xff) || negb (byte footer 3 =? 0xff)
      then VReturn VERIFY_FAILURE else
      let comment_size := byte footer 4 + Z.shiftl (byte footer 5) 8 in
      let signature_start := byte footer 0 + Z.shiftl (byte footer 1) 8 in
      if signature_start - FOOTER_SIZE <? RSANUMBYTES then VReturn VERIFY_FAILURE else
      let eocd_size := comment_size + EOCD_HEADER_SIZE in
      if size <? eocd_size then VReturn VERIFY_FAILURE else
      let signed_len := (size - eocd_size) + EOCD_HEADER_SIZE - 2 in
      if negb eocd_mem then VReturn VERIFY_FAILURE else
      let eocd := fread_at f (size - eocd_size) eocd_size in
      if negb (Z.of_nat (length eocd) =? eocd_size) then VReturn VERIFY_FAILURE else
      if negb (eocd_marker_at eocd 0) then VReturn VERIFY_FAILURE else
      if marker_loop (Z.to_nat (eocd_size - 3 - 4)) eocd 4 then VReturn VERIFY_FAILURE else
      if negb buf_mem then VReturn VERIFY_FAILURE else
      match hash_loop (S (length f)) f signed_len 0 SHA_init with
      | None => VNoFuel
      | Some None => VReturn VERIFY_FAILURE
      | Some (Some ctx) => key_loop pKeys eocd (eocd_size - 6 - RSANUMBYTES) (SHA_final ctx)
      end
  end.
End Verify.

(** ** Hashing *)

Lemma fread_at_length f off n : 0 <= off -> 0 <= n -> off + n <= Z.of_nat (length f) ->
  Z.of_nat (length (fread_at f off n)) = n.
Proof. intros. unfold fread_at. rewrite length_take, length_drop. lia. Qed.

Lemma fread_at_app f off n : 0 <= off -> 0 <= n ->
  take (Z.to_nat off) f ++ fread_at f off n = take (Z.to_nat (off + n)) f.
Proof. intros. unfold fread_at. rewrite Z2Nat.inj_add by lia. apply take_take_drop. Qed.

Lemma byte_fread_at f off n i : 0 <= off -> 0 <= i < n ->
  byte (fread_at f off n) i = byte f (off + i).
Proof.
  intros Ho Hi. unfold byte, fread_at. rewrite !nth_lookup.
  rewrite lookup_take_lt, lookup_drop by lia. do 2 f_equal. lia.
Qed.

Section Correct.
Context {HS : Sha} {HR : Rsa} {HL : ShaLaws HS}.

(** The chunked reads hash exactly the first [signed_len] bytes. *)
Lemma hash_loop_ok fuel f signed_len so_far chunks :
  0 <= so_far <= signed_len -> signed_len <= Z.of_nat (length f) ->
  concat chunks = take (Z.to_nat so_far) f -> signed_len - so_far < Z.of_nat fuel ->
  exists ctx, hash_loop fuel f signed_len so_far (foldl SHA_update SHA_init chunks) =
    Some (Some ctx) /\ SHA_final ctx = sha1 (take (Z.to_nat signed_len) f).
Proof.
  revert so_far chunks. induction fuel as [|fuel IH]; intros so_far chunks Hs Hl Hc Hf; [lia|].
  cbn [hash_loop]. destruct (Z.ltb_spec so_far signed_len).
  - set (size := if _ <? _ then _ else _).
    assert (0 < size <= signed_len - so_far) as Hsz.
    { subst size. unfold BUFFER_SIZE. destruct (Z.ltb_spec (signed_len - so_far) 4096); lia. }
    clearbody size. rewrite fread_at_length by lia. rewrite Z.eqb_refl. cbn [negb].
    destruct (IH (so_far + size) (chunks ++ [fread_at f so_far size])) as (ctx & Heq & Hctx);
      [lia | lia | | lia |].
    { rewrite concat_app, Hc. cbn [concat]. rewrite app_nil_r. apply fread_at_app; lia. }
    rewrite foldl_app in Heq. cbn [foldl] in Heq. eauto.
  - eexists. split; [reflexivity|]. rewrite sha1_stream, Hc. do 2 f_equal. lia.
Qed.

Lemma marker_loop_false n eocd i : marker_loop n eocd i = false ->
  forall j, i <= j < i + Z.of_nat n -> eocd_marker_at eocd j = false.
Proof.
  revert i. induction n as [|n IH]; intros i H j Hj; [lia|]. cbn [marker_loop] in H.
  destruct (eocd_marker_at eocd i) eqn:E; [done|].
  destruct (decide (j = i)) as [->|]; [done|]. apply (IH (i + 1)); [done|lia].
Qed.

Lemma marker_loop_false_intro n eocd i :
  (forall j, i <= j < i + Z.of_nat n -> eocd_marker_at eocd j = false) ->
  marker_loop n eocd i = false.
Proof.
  revert i. induction n as [|n IH]; intros i H; [done|]. cbn [marker_loop].
  rewrite H by lia. apply IH. intros j Hj. apply H. lia.
Qed.

Lemma key_loop_success keys eocd off sha :
  key_loop keys eocd off sha = VReturn VERIFY_SUCCESS ->
  exists k, In k keys /\ 0 <= off /\ RSA_verify k (fread_at eocd off RSANUMBYTES) sha = true.
Proof.
  induction keys as [|k keys IH]; cbn [key_loop]; [done|].
  destruct (Z.ltb_spec off 0); cbn [orb]; [done|]. destruct (_ <? _); [done|].
  destruct (RSA_verify _ _ _) eqn:E.
  - intros _. exists k. simpl. auto.
  - intros H'. destruct (IH H') as (k' & ? & ? & ?). exists k'. simpl. auto.
Qed.

(** A marker cannot start inside another one. *)
Lemma marker_no_overlap b i j : eocd_marker_at b i = true -> i < j < i + 4 ->
  eocd_marker_at b j = false.
Proof.
  unfold eocd_marker_at. rewrite !andb_true_iff, !Z.eqb_eq. intros (((H0 & H1) & H2) & H3) Hj.
  assert (j = i + 1 \/ j = i + 2 \/ j = i + 3) as [-> | [-> | ->]] by lia;
    rewrite ?H1, ?H2, ?H3; done.
Qed.

Lemma marker_fread f off n i : 0 <= off -> 0 <= i -> i + 3 < n ->
  eocd_marker_at (fread_at f off n) i = eocd_marker_at f (off + i).
Proof.
  intros Ho Hi Hn. unfold eocd_marker_at. rewrite !byte_fread_at by lia.
  replace (off + (i + 1)) with (off + i + 1) by lia.
  replace (off + (i + 2)) with (off + i + 2) by lia.
  by replace (off + (i + 3)) with (off + i + 3) by lia.
Qed.

Lemma length_fread_at_eq f off n : 0 <= off -> 0 <= n ->
  Z.of_nat (length (fread_at f off n)) = n -> off + n <= Z.of_nat (length f) \/ n = 0.
Proof. intros Ho Hn H. unfold fread_at in H. rewrite length_take, length_drop in H. lia. Qed.

Lemma fread_fread f p n off m : 0 <= p -> 0 <= off -> 0 <= m -> off + m <= n ->
  fread_at (fread_at f p n) off m = fread_at f (p + off) m.
Proof.
  intros Hp Ho Hm Hn. unfold fread_at. rewrite take_drop_commute, take_take.
  rewrite Nat.min_l by lia. rewrite <- take_drop_commute, drop_drop.
  do 2 f_equal. lia.
Qed.

(** (C1) A package is accepted only with a valid signature over everything it
    means.  If [verify_file] returns success on a file of [n] bytes, then with
    [comment] the comment size stored in its last two bytes: the file has an
    end-of-central-directory marker 22 + [comment] bytes before its end and none
    after that (so an unpacker scanning backwards uses this very record), and
    one of the given keys verifies the RSA block that ends six bytes before the
    end against the SHA-1 of all bytes up to the comment length field. *)
Theorem verify_file_sound (f : list Z) (eocd_mem buf_mem : bool) (keys : list RSAPublicKey) :
  Forall is_u8 f ->
  verify_file (Some f) eocd_mem buf_mem keys = VReturn VERIFY_SUCCESS ->
  let n := Z.of_nat (length f) in
  let comment := byte f (n - 2) + 256 * byte f (n - 1) in
  let p := n - 22 - comment in
  0 <= p /\ eocd_marker_at f p = true /\
  (forall i, p < i -> i + 3 < n -> eocd_marker_at f i = false) /\
  exists k, In k keys /\
    RSA_verify k (fread_at f (n - 6 - RSANUMBYTES) RSANUMBYTES)
      (sha1 (take (Z.to_nat (n - comment - 2)) f)) = true.
Proof.
  intros Hu8 H n comment p. pose proof RSANUMBYTES_pos. unfold verify_file in H. fold n in H. cbv zeta in H.
  unfold FOOTER_SIZE, EOCD_HEADER_SIZE in H.
  destruct (Z.ltb_spec n 6) as [|Hn]; [done|].
  rewrite fread_at_length in H by lia. cbn [Z.eqb Pos.eqb negb] in H.
  rewrite !byte_fread_at in H by lia.
  replace (n - 6 + 4) with (n - 2) in H by lia. replace (n - 6 + 5) with (n - 1) in H by lia.
  assert (forall i, 0 <= byte f i < 256) as Hb.
  { intros i. unfold byte. rewrite nth_lookup. destruct (f !! Z.to_nat i) eqn:E; simpl; [|lia].
    exact (Forall_lookup_1 _ _ _ _ Hu8 E). }
  rewrite !Z.shiftl_mul_pow2 in H by lia. change (2 ^ 8) with 256 in H.
  rewrite (Z.mul_comm (byte f (n - 1))) in H. fold comment in H.
  assert (0 <= comment < 65536) as Hc by (pose proof (Hb (n - 2)); pose proof (Hb (n - 1)); lia).
  destruct (_ || _); [done|]. destruct (_ <? RSANUMBYTES); [done|].
  destruct (Z.ltb_spec n (comment + 22)) as [|Hfit]; [done|].
  destruct eocd_mem; [|done]. cbn [negb] in H.
  rewrite fread_at_length in H by lia. rewrite Z.eqb_refl in H. cbn [negb] in H.
  rewrite marker_fread, Z.add_0_r in H by lia.
  replace (n - (comment + 22)) with p in H by lia.
  destruct (eocd_marker_at f p) eqn:Hmark; [|done]. cbn [negb] in H.
  destruct (marker_loop _ _ _) eqn:Hloop; [done|]. destruct buf_mem; [|done]. cbn [negb] in H.
  destruct (hash_loop_ok (S (length f)) f (p + 22 - 2) 0 []) as (ctx & Hh & Hctx);
    [lia | lia | done | lia |]. cbn [foldl] in Hh. rewrite Hh, Hctx in H.
  apply key_loop_success in H as (k & Hk & Hoff & Hver).
  split; [lia|]. split; [done|]. split.
  - intros i Hi Hlt. destruct (Z.lt_ge_cases i (p + 4)).
    + eapply marker_no_overlap; [exact Hmark|lia].
    + pose proof (marker_loop_false _ _ _ Hloop (i - p) ltac:(lia)) as Hm.
      rewrite marker_fread in Hm by lia. by replace (p + (i - p)) with i in Hm by lia.
  - exists k. split; [done|]. rewrite <- Hver. f_equal; [|do 3 f_equal; lia].
    symmetry. rewrite fread_fread by lia. f_equal. lia.
Qed.

(** What [verify_file] does once the layout of the file is in order. *)
Lemma verify_file_layout (f : list Z) (keys : list RSAPublicKey) (comment sig_start : Z) :
  let n := Z.of_nat (length f) in
  let p := n - 22 - comment in
  6 <= n -> byte f (n - 4) = 0xff -> byte f (n - 3) = 0xff ->
  byte f (n - 2) + 256 * byte f (n - 1) = comment ->
  byte f (n - 6) + 256 * byte f (n - 5) = sig_start ->
  0 <= comment -> RSANUMBYTES + 6 <= sig_start -> 0 <= p ->
  eocd_marker_at f p = true -> (forall i, p < i -> i + 3 < n -> eocd_marker_at f i = false) ->
  verify_file (Some f) true true keys =
    key_loop keys (fread_at f p (comment + 22)) (comment + 16 - RSANUMBYTES)
      (sha1 (take (Z.to_nat (n - comment - 2)) f)).
Proof.
  intros n p Hn H4 H3 Hc Hs Hc0 Hrsa Hp Hmark Hno. unfold verify_file. fold n. cbv zeta.
  unfold FOOTER_SIZE, EOCD_HEADER_SIZE.
  rewrite (proj2 (Z.ltb_ge n 6)) by lia. rewrite fread_at_length by lia.
  cbn [Z.eqb Pos.eqb negb]. rewrite !byte_fread_at by lia.
  replace (n - 6 + 2) with (n - 4) by lia. replace (n - 6 + 3) with (n - 3) by lia.
  replace (n - 6 + 4) with (n - 2) by lia. replace (n - 6 + 5) with (n - 1) by lia.
  replace (n - 6 + 0) with (n - 6) by lia. replace (n - 6 + 1) with (n - 5) by lia.
  rewrite H4, H3. cbn [Z.eqb Pos.eqb negb orb].
  rewrite !Z.shiftl_mul_pow2 by lia. change (2 ^ 8) with 256.
  rewrite (Z.mul_comm (byte f (n - 1))), (Z.mul_comm (byte f (n - 5))), Hc, Hs.
  rewrite (proj2 (Z.ltb_ge _ RSANUMBYTES)), (proj2 (Z.ltb_ge n _)) by lia. cbn [negb].
  rewrite fread_at_length by lia. rewrite Z.eqb_refl. cbn [negb].
  replace (n - (comment + 22)) with p by lia. rewrite marker_fread, Z.add_0_r, Hmark by lia.
  cbn [negb]. rewrite marker_loop_false_intro.
  2: { intros j Hj. rewrite marker_fread by lia. apply Hno; lia. }
  destruct (hash_loop_ok (S (length f)) f (p + 22 - 2) 0 []) as (ctx & Hh & Hctx);
    [lia | lia | done | lia |]. cbn [foldl] in Hh. rewrite Hh, Hctx.
  f_equal; [lia|]. do 2 f_equal. lia.
Qed.

Lemma key_loop_complete keys eocd off sha k :
  In k keys -> 0 <= off -> off + RSANUMBYTES <= Z.of_nat (length eocd) ->
  RSA_verify k (fread_at eocd off RSANUMBYTES) sha = true ->
  key_loop keys eocd off sha = VReturn VERIFY_SUCCESS.
Proof.
  intros Hk Ho Hl Hv. induction keys as [|k' keys IH]; [done|]. cbn [key_loop].
  rewrite (proj2 (Z.ltb_ge off 0)), (proj2 (Z.ltb_ge _ (off + _))) by lia. cbn [orb].
  destruct (RSA_verify k' _ _) eqn:E; [done|]. destruct Hk as [->|Hk]; [congruence | auto].
Qed.

(** A signed archive: the archive up to the comment length of its end record
    ([PK 5 6] and 16 more bytes), then the comment, which ends in the signature
    and the footer. *)
Definition signed_package (body hdr pad sig : list Z) (sig_start : Z) : list Z :=
  let comment := Z.of_nat (length pad + length sig + 6) in
  ((body ++ [0x50; 0x4b; 0x05; 0x06] ++ hdr) ++ le_bytes 2 comment ++ pad) ++ sig ++
  le_bytes 2 sig_start ++ [0xff; 0xff] ++ le_bytes 2 comment.

Lemma byte_app_r (a b : list Z) i : 0 <= i -> byte (a ++ b) (Z.of_nat (length a) + i) = byte b i.
Proof.
  intros Hi. unfold byte. rewrite app_nth2 by lia. f_equal. lia.
Qed.

Lemma le2_bytes x : 0 <= x < 65536 ->
  exists b0 b1, le_bytes 2 x = [b0; b1] /\ b0 + 256 * b1 = x.
Proof.
  intros Hx. eexists _, _. split; [reflexivity|]. unfold u8.
  rewrite (Z.mod_small (x / 256)) by (split; [apply Z.div_pos | apply Z.div_lt_upper_bound]; lia).
  pose proof (Z.div_mod x 256). lia.
Qed.

Lemma signed_package_footer body hdr pad sig sig_start :
  Z.of_nat (length pad + length sig + 6) < 65536 -> 0 <= sig_start < 65536 ->
  let f := signed_package body hdr pad sig sig_start in
  let n := Z.of_nat (length f) in
  6 <= n /\ byte f (n - 4) = 0xff /\ byte f (n - 3) = 0xff /\
  byte f (n - 2) + 256 * byte f (n - 1) = Z.of_nat (length pad + length sig + 6) /\
  byte f (n - 6) + 256 * byte f (n - 5) = sig_start.
Proof.
  intros Hc Hs f n. unfold n, f, signed_package. cbv zeta. clear n f.
  destruct (le2_bytes (Z.of_nat (length pad + length sig + 6))) as (c0 & c1 & -> & Hc'); [lia|].
  destruct (le2_bytes sig_start Hs) as (s0 & s1 & -> & Hs'). cbn [app].
  rewrite (app_assoc _ sig). set (x := (_ ++ sig)).
  assert (forall l : list Z, Z.of_nat (length (x ++ l)) = Z.of_nat (length x) + Z.of_nat (length l))
    as Hl by (intros; rewrite length_app; lia).
  rewrite Hl. cbn [length]. change (Z.of_nat 6) with 6. split; [lia|].
  replace (Z.of_nat (length x) + 6 - 4) with (Z.of_nat (length x) + 2) by lia.
  replace (Z.of_nat (length x) + 6 - 3) with (Z.of_nat (length x) + 3) by lia.
  replace (Z.of_nat (length x) + 6 - 2) with (Z.of_nat (length x) + 4) by lia.
  replace (Z.of_nat (length x) + 6 - 1) with (Z.of_nat (length x) + 5) by lia.
  replace (Z.of_nat (length x) + 6 - 6) with (Z.of_nat (length x) + 0) by lia.
  replace (Z.of_nat (length x) + 6 - 5) with (Z.of_nat (length x) + 1) by lia.
  rewrite !byte_app_r by lia. done.
Qed.

Lemma fread_at_middle (a b c : list Z) :
  fread_at (a ++ b ++ c) (Z.of_nat (length a)) (Z.of_nat (length b)) = b.
Proof.
  unfold fread_at. rewrite !Nat2Z.id, drop_app_length. by rewrite take_app_length.
Qed.

(** (C33) A properly signed package is accepted.  For an archive whose comment
    ends in an RSA block and the footer, in which no end-of-central-directory
    marker occurs after the real one, and whose RSA block verifies under one of
    the keys for the SHA-1 of the archive up to its comment length field,
    [verify_file] reads only inside its buffers, terminates and returns success,
    wherever the key is in the list. *)
Theorem verify_file_complete (body hdr pad sig : list Z) (sig_start : Z)
    (keys : list RSAPublicKey) (k : RSAPublicKey) :
  length hdr = 16%nat -> Z.of_nat (length sig) = RSANUMBYTES ->
  Z.of_nat (length pad + length sig + 6) < 65536 ->
  RSANUMBYTES + 6 <= sig_start < 65536 ->
  let f := signed_package body hdr pad sig sig_start in
  (forall i, Z.of_nat (length body) < i -> i + 3 < Z.of_nat (length f) ->
     eocd_marker_at f i = false) ->
  In k keys ->
  RSA_verify k sig (sha1 (body ++ [0x50; 0x4b; 0x05; 0x06] ++ hdr)) = true ->
  verify_file (Some f) true true keys = VReturn VERIFY_SUCCESS.
Proof.
  intros Hhdr Hsig Hc Hstart f Hno Hk Hv. pose proof RSANUMBYTES_pos.
  destruct (signed_package_footer body hdr pad sig sig_start Hc ltac:(lia))
    as (Hn & H4 & H3 & H2 & H6). fold f in Hn, H4, H3, H2, H6.
  set (comment := Z.of_nat (length pad + length sig + 6)) in *.
  assert (Z.of_nat (length f) = Z.of_nat (length body) + 22 + comment) as Hlen.
  { unfold f, signed_package, comment. cbv zeta. rewrite !length_app, !length_le_bytes, Hhdr.
    cbn [length]. lia. }
  rewrite (verify_file_layout f keys comment sig_start); try done; try lia.
  2: { rewrite Hlen. replace (_ - 22 - comment) with (Z.of_nat (length body) + 0) by lia.
       unfold eocd_marker_at, f, signed_package. cbv zeta. rewrite <- !app_assoc.
       rewrite <- !Z.add_assoc, !byte_app_r by lia. done. }
  2: { intros i Hi. apply Hno. lia. }
  apply (key_loop_complete _ _ _ _ k); [done | lia | rewrite fread_at_length; lia |].
  rewrite fread_fread by lia. rewrite <- Hv. f_equal.
  - transitivity (fread_at f (Z.of_nat (length
      ((body ++ [0x50; 0x4b; 0x05; 0x06] ++ hdr) ++ le_bytes 2 comment ++ pad)))
      (Z.of_nat (length sig))); [|apply fread_at_middle].
    f_equal; [|lia]. rewrite !length_app, length_le_bytes, Hhdr. cbn [length]. lia.
  - f_equal. replace (Z.to_nat _) with (length (body ++ [0x50; 0x4b; 0x05; 0x06] ++ hdr)).
    + unfold f, signed_package. cbv zeta. rewrite <- (app_assoc (body ++ _)). apply take_app_length.
    + rewrite !length_app, Hhdr. cbn [length]. lia.
Qed.

End Correct.

(** ** Instances for the examples *)

(** A toy hash (the bytes themselves) and a toy signature scheme (the block
    repeats the number of the key). *)
Definition toy_sha : Sha := {|
  sha_ctx := list Z; SHA_init := []; SHA_update := fun c b => c ++ b; SHA_final := fun c => c |}.

Lemma toy_sha_laws : ShaLaws toy_sha.
Proof.
  refine {| sha1 := fun l => l |}. intros chunks.
  assert (forall c0, foldl (fun c b : list Z => c ++ b) c0 chunks = c0 ++ concat chunks) as H.
  { induction chunks as [|c chunks IH]; intros c0; simpl; [by rewrite app_nil_r|].
    by rewrite IH, app_assoc. }
  apply (H []).
Defined.

Definition toy_rsa : Rsa := {|
  RSAPublicKey := Z; RSANUMBYTES := 256; RSANUMBYTES_pos := eq_refl;
  RSA_verify := fun k sig sha => bool_decide (sig = replicate 256 k) |}.

Lemma marker_check (f : list Z) (p : Z) :
  forallb (fun i => negb (eocd_marker_at f i)) (seqZ (p + 1) (Z.of_nat (length f) - p)) = true ->
  forall i, p < i -> i + 3 < Z.of_nat (length f) -> eocd_marker_at f i = false.
Proof.
  rewrite forallb_forall. intros H i Hp Hi. apply negb_true_iff, H.
  apply list_elem_of_In, elem_of_seqZ. lia.
Qed.

Lemma verify_file_complete_witness :
  @verify_file toy_sha toy_rsa
    (Some (signed_package [7; 8] (replicate 16 0) [32] (replicate 256 3) 262)) true true [1; 3] =
  VReturn VERIFY_SUCCESS.
Proof.
  apply (@verify_file_complete toy_sha toy_rsa toy_sha_laws [7; 8] (replicate 16 0) [32]
    (replicate 256 3) 262 [1; 3] 3); try reflexivity; [split; [discriminate | reflexivity] | |].
  - apply marker_check. vm_compute. reflexivity.
  - simpl. tauto.
Defined.

Lemma verify_file_sound_witness :
  exists k, In k [1; 3] /\ @RSA_verify toy_rsa k
    (fread_at (signed_package [7; 8] (replicate 16 0) [32] (replicate 256 3) 262) 25 256)
    (@sha1 toy_sha toy_sha_laws
      (take 22 (signed_package [7; 8] (replicate 16 0) [32] (replicate 256 3) 262))) = true.
Proof.
  assert (@verify_file toy_sha toy_rsa
    (Some (signed_package [7; 8] (replicate 16 0) [32] (replicate 256 3) 262)) true true [1; 3] =
    VReturn VERIFY_SUCCESS) as H by (vm_compute; reflexivity).
  assert (Forall is_u8 (signed_package [7; 8] (replicate 16 0) [32] (replicate 256 3) 262)) as Hu
    by (apply u8_list_check; vm_compute; reflexivity).
  destruct (@verify_file_sound toy_sha toy_rsa toy_sha_laws _ true true [1; 3] Hu H)
    as (_ & _ & _ & Hk).
  exact Hk.
Defined.

Definition short_comment_file : list Z :=
  [0x50; 0x4b; 0x05; 0x06] ++ replicate 16 0 ++ [6; 0] ++ [6; 1; 0xff; 0xff; 6; 0].

