(* ===== verification/SparseImage.v ===== *)
(** * Sparse file system images

    Model of [recovery/ext4_utils/output_file.c] (the writer used by the backup
    command), [simg2img.c] (the expander), [sparse_crc32.c] and
    [sparse_format.h].  A sparse image is a header followed by chunks: raw data,
    or a count of blocks the reader may leave alone.

    Files are lists of bytes with a position; [write] can fail at any call, as
    told by the list [disk] of the outcomes still to come.  zlib, used when the
    image is compressed, is the parameter [gz_deflate]. *)

From S2P Require Import Prelude.

(** ** CRC-32 (sparse_crc32.c) *)

Definition crc32_tab : list Z :=
 [0x00000000; 0x77073096; 0xee0e612c; 0x990951ba; 0x076dc419; 0x706af48f;
  0xe963a535; 0x9e6495a3; 0x0edb8832; 0x79dcb8a4; 0xe0d5e91e; 0x97d2d988;
  0x09b64c2b; 0x7eb17cbd; 0xe7b82d07; 0x90bf1d91; 0x1db71064; 0x6ab020f2;
  0xf3b97148; 0x84be41de; 0x1adad47d; 0x6ddde4eb; 0xf4d4b551; 0x83d385c7;
  0x136c9856; 0x646ba8c0; 0xfd62f97a; 0x8a65c9ec; 0x14015c4f; 0x63066cd9;
  0xfa0f3d63; 0x8d080df5; 0x3b6e20c8; 0x4c69105e; 0xd56041e4; 0xa2677172;
  0x3c03e4d1; 0x4b04d447; 0xd20d85fd; 0xa50ab56b; 0x35b5a8fa; 0x42b2986c;
  0xdbbbc9d6; 0xacbcf940; 0x32d86ce3; 0x45df5c75; 0xdcd60dcf; 0xabd13d59;
  0x26d930ac; 0x51de003a; 0xc8d75180; 0xbfd06116; 0x21b4f4b5; 0x56b3c423;
  0xcfba9599; 0xb8bda50f; 0x2802b89e; 0x5f058808; 0xc60cd9b2; 0xb10be924;
  0x2f6f7c87; 0x58684c11; 0xc1611dab; 0xb6662d3d; 0x76dc4190; 0x01db7106;
  0x98d220bc; 0xefd5102a; 0x71b18589; 0x06b6b51f; 0x9fbfe4a5; 0xe8b8d433;
  0x7807c9a2; 0x0f00f934; 0x9609a88e; 0xe10e9818; 0x7f6a0dbb; 0x086d3d2d;
  0x91646c97; 0xe6635c01; 0x6b6b51f4; 0x1c6c6162; 0x856530d8; 0xf262004e;
  0x6c0695ed; 0x1b01a57b; 0x8208f4c1; 0xf50fc457; 0x65b0d9c6; 0x12b7e950;
  0x8bbeb8ea; 0xfcb9887c; 0x62dd1ddf; 0x15da2d49; 0x8cd37cf3; 0xfbd44c65;
  0x4db26158; 0x3ab551ce; 0xa3bc0074; 0xd4bb30e2; 0x4adfa541; 0x3dd895d7;
  0xa4d1c46d; 0xd3d6f4fb; 0x4369e96a; 0x346ed9fc; 0xad678846; 0xda60b8d0;
  0x44042d73; 0x33031de5; 0xaa0a4c5f; 0xdd0d7cc9; 0x5005713c; 0x270241aa;
  0xbe0b1010; 0xc90c2086; 0x5768b525; 0x206f85b3; 0xb966d409; 0xce61e49f;
  0x5edef90e; 0x29d9c998; 0xb0d09822; 0xc7d7a8b4; 0x59b33d17; 0x2eb40d81;
  0xb7bd5c3b; 0xc0ba6cad; 0xedb88320; 0x9abfb3b6; 0x03b6e20c; 0x74b1d29a;
  0xead54739; 0x9dd277af; 0x04db2615; 0x73dc1683; 0xe3630b12; 0x94643b84;
  0x0d6d6a3e; 0x7a6a5aa8; 0xe40ecf0b; 0x9309ff9d; 0x0a00ae27; 0x7d079eb1;
  0xf00f9344; 0x8708a3d2; 0x1e01f268; 0x6906c2fe; 0xf762575d; 0x806567cb;
  0x196c3671; 0x6e6b06e7; 0xfed41b76; 0x89d32be0; 0x10da7a5a; 0x67dd4acc;
  0xf9b9df6f; 0x8ebeeff9; 0x17b7be43; 0x60b08ed5; 0xd6d6a3e8; 0xa1d1937e;
  0x38d8c2c4; 0x4fdff252; 0xd1bb67f1; 0xa6bc5767; 0x3fb506dd; 0x48b2364b;
  0xd80d2bda; 0xaf0a1b4c; 0x36034af6; 0x41047a60; 0xdf60efc3; 0xa867df55;
  0x316e8eef; 0x4669be79; 0xcb61b38c; 0xbc66831a; 0x256fd2a0; 0x5268e236;
  0xcc0c7795; 0xbb0b4703; 0x220216b9; 0x5505262f; 0xc5ba3bbe; 0xb2bd0b28;
  0x2bb45a92; 0x5cb36a04; 0xc2d7ffa7; 0xb5d0cf31; 0x2cd99e8b; 0x5bdeae1d;
  0x9b64c2b0; 0xec63f226; 0x756aa39c; 0x026d930a; 0x9c0906a9; 0xeb0e363f;
  0x72076785; 0x05005713; 0x95bf4a82; 0xe2b87a14; 0x7bb12bae; 0x0cb61b38;
  0x92d28e9b; 0xe5d5be0d; 0x7cdcefb7; 0x0bdbdf21; 0x86d3d2d4; 0xf1d4e242;
  0x68ddb3f8; 0x1fda836e; 0x81be16cd; 0xf6b9265b; 0x6fb077e1; 0x18b74777;
  0x88085ae6; 0xff0f6a70; 0x66063bca; 0x11010b5c; 0x8f659eff; 0xf862ae69;
  0x616bffd3; 0x166ccf45; 0xa00ae278; 0xd70dd2ee; 0x4e048354; 0x3903b3c2;
  0xa7672661; 0xd06016f7; 0x4969474d; 0x3e6e77db; 0xaed16a4a; 0xd9d65adc;
  0x40df0b66; 0x37d83bf0; 0xa9bcae53; 0xdebb9ec5; 0x47b2cf7f; 0x30b5ffe9;
  0xbdbdf21c; 0xcabac28a; 0x53b39330; 0x24b4a3a6; 0xbad03605; 0xcdd70693;
  0x54de5729; 0x23d967bf; 0xb3667a2e; 0xc4614ab8; 0x5d681b02; 0x2a6f2b94;
  0xb40bbe37; 0xc30c8ea1; 0x5a05df1b; 0x2d02ef8d].

Definition crc32_entry (i : Z) : Z := nth (Z.to_nat i) crc32_tab 0.

(** [while (size--)] *)
Fixpoint crc32_loop (crc : Z) (p : list Z) : Z :=
  match p with
  | [] => crc
  | b :: p => crc32_loop (Z.lxor (crc32_entry (Z.land (Z.lxor crc b) 0xFF)) (Z.shiftr crc 8)) p
  end.

Definition sparse_crc32 (crc_in : Z) (buf : list Z) : Z :=
  Z.lxor (crc32_loop (Z.lxor crc_in 0xFFFFFFFF) buf) 0xFFFFFFFF.

(** ** The format (sparse_format.h) *)

Definition SPARSE_HEADER_MAGIC : Z := 0xed26ff3a.
Definition CHUNK_TYPE_RAW : Z := 0xCAC1.
Definition CHUNK_TYPE_FILL : Z := 0xCAC2.
Definition CHUNK_TYPE_DONT_CARE : Z := 0xCAC3.
Definition SPARSE_HEADER_MAJOR_VER : Z := 1.
Definition SPARSE_HEADER_MINOR_VER : Z := 0.
Definition SPARSE_HEADER_LEN : Z := 28.
Definition CHUNK_HEADER_LEN : Z := 12.

Record sparse_header_t := SparseHeader {
  magic : Z; major_version : Z; minor_version : Z; file_hdr_sz : Z; chunk_hdr_sz : Z;
  blk_sz : Z; total_blks : Z; total_chunks : Z; image_checksum : Z
}.

Definition sparse_header_bytes (h : sparse_header_t) : list Z :=
  le_bytes 4 (magic h) ++ le_bytes 2 (major_version h) ++ le_bytes 2 (minor_version h) ++
  le_bytes 2 (file_hdr_sz h) ++ le_bytes 2 (chunk_hdr_sz h) ++ le_bytes 4 (blk_sz h) ++
  le_bytes 4 (total_blks h) ++ le_bytes 4 (total_chunks h) ++ le_bytes 4 (image_checksum h).

Definition sparse_header_of (b : list Z) : sparse_header_t :=
  SparseHeader (le_val (take 4 b)) (le_val (take 2 (drop 4 b))) (le_val (take 2 (drop 6 b)))
    (le_val (take 2 (drop 8 b))) (le_val (take 2 (drop 10 b))) (le_val (take 4 (drop 12 b)))
    (le_val (take 4 (drop 16 b))) (le_val (take 4 (drop 20 b))) (le_val (take 4 (drop 24 b))).

Record chunk_header_t := ChunkHeader {
  chunk_type : Z; reserved1 : Z; chunk_sz : Z; total_sz : Z
}.

Definition chunk_header_bytes (h : chunk_header_t) : list Z :=
  le_bytes 2 (chunk_type h) ++ le_bytes 2 (reserved1 h) ++
  le_bytes 4 (chunk_sz h) ++ le_bytes 4 (total_sz h).

Definition chunk_header_of (b : list Z) : chunk_header_t :=
  ChunkHeader (le_val (take 2 b)) (le_val (take 2 (drop 2 b)))
    (le_val (take 4 (drop 4 b))) (le_val (take 4 (drop 8 b))).

(** ** Files *)

Definition zeros (n : Z) : list Z := replicate (Z.to_nat n) 0.

(** The contents after writing [data] at offset [pos]; a gap reads as zeros. *)
Definition pwrite (f : list Z) (pos : Z) (data : list Z) : list Z :=
  let f' := f ++ zeros (pos - Z.of_nat (length f)) in
  take (Z.to_nat pos) f' ++ data ++ drop (Z.to_nat pos + length data) f'.

(** ** The writer (output_file.c) *)

(** The part of [info] the writer uses. *)
Record fs_info := FsInfo { block_size : Z; len : Z }.

Record output_file := OutputFile {
  fdata : list Z;            (* the file behind fd *)
  fpos : Z;
  gz_fd : option (list Z);   (* what was written to the gzFile, if one is open *)
  sparse : bool;
  cur_out_ptr : Z;
  chunk_cnt : Z;
  crc32 : Z;
  disk : list Z              (* results of the coming writes; none left: complete *)
}.

Section Output.
Context (gz_deflate : list Z -> list Z) (info : fs_info).

Definition file_seek (out : output_file) (off : Z) : output_file * Z :=
  if off <? 0 then (out, -1)
  else (OutputFile (fdata out) off (gz_fd out) (sparse out) (cur_out_ptr out)
          (chunk_cnt out) (crc32 out) (disk out), 0).

(** What the next write of [n] bytes returns. *)
Definition write_ret (out : output_file) (n : Z) : Z :=
  match disk out with [] => n | r :: _ => Z.min r n end.

(** [write(fd, data, len)]: the bytes accepted are in the file even when the
    write is incomplete. *)
Definition file_write (out : output_file) (data : list Z) : output_file * Z :=
  let len := Z.of_nat (length data) in
  let ret := write_ret out len in
  let w := take (Z.to_nat ret) data in
  let out' := OutputFile (pwrite (fdata out) (fpos out) w) (fpos out + Z.of_nat (length w))
                (gz_fd out) (sparse out) (cur_out_ptr out) (chunk_cnt out) (crc32 out)
                (tail (disk out)) in
  if ret <? 0 then
    (OutputFile (fdata out) (fpos out) (gz_fd out) (sparse out) (cur_out_ptr out)
       (chunk_cnt out) (crc32 out) (tail (disk out)), -1)
  else if ret <? len then (out', -1) else (out', 0).

(** A gzFile open for writing only seeks forward, over zeros. *)
Definition gz_file_seek (out : output_file) (z : list Z) (off : Z) : output_file * Z :=
  if off <? Z.of_nat (length z) then (out, -1)
  else (OutputFile (fdata out) (fpos out) (Some (z ++ zeros (off - Z.of_nat (length z))))
          (sparse out) (cur_out_ptr out) (chunk_cnt out) (crc32 out) (disk out), 0).

Definition gz_file_write (out : output_file) (z data : list Z) : output_file * Z :=
  let len := Z.of_nat (length data) in
  let ret := write_ret out len in
  let out' := OutputFile (fdata out) (fpos out) (Some (z ++ take (Z.to_nat ret) data))
                (sparse out) (cur_out_ptr out) (chunk_cnt out) (crc32 out)
                (tail (disk out)) in
  if ret <? 0 then
    (OutputFile (fdata out) (fpos out) (gz_fd out) (sparse out) (cur_out_ptr out)
       (chunk_cnt out) (crc32 out) (tail (disk out)), -1)
  else if ret <? len then (out', -1) else (out', 0).

(** [out->ops->seek] and [out->ops->write] *)
Definition ops_seek (out : output_file) (off : Z) : output_file * Z :=
  match gz_fd out with Some z => gz_file_seek out z off | None => file_seek out off end.

Definition ops_write (out : output_file) (data : list Z) : output_file * Z :=
  match gz_fd out with Some z => gz_file_write out z data | None => file_write out data end.

(** Closing the gzFile sends the compressed stream to the file. *)
Definition gz_file_close (out : output_file) (z : list Z) : output_file :=
  OutputFile (pwrite (fdata out) (fpos out) (gz_deflate z))
    (fpos out + Z.of_nat (length (gz_deflate z))) None (sparse out) (cur_out_ptr out)
    (chunk_cnt out) (crc32 out) (disk out).

(** [while (skip_len)] of the CRC of the skipped zeroes. *)
Fixpoint skip_crc (fuel : nat) (crc skip_len : Z) : option Z :=
  match fuel with
  | O => None
  | S fuel =>
      if truthy skip_len then
        let chunk := if block_size info <? skip_len then block_size info else skip_len in
        skip_crc fuel (sparse_crc32 crc (zeros chunk)) (skip_len - chunk)
      else Some crc
  end.

Definition advance (out : output_file) (n crc : Z) : output_file :=
  OutputFile (fdata out) (fpos out) (gz_fd out) (sparse out) (u64 (cur_out_ptr out + n))
    (chunk_cnt out + 1) crc (disk out).

Definition emit_skip_chunk (out : output_file) (skip_len : Z) : option (output_file * Z) :=
  if truthy (skip_len mod block_size info) then Some (out, -1) else
  let h := ChunkHeader CHUNK_TYPE_DONT_CARE 0 (u32 (skip_len / block_size info))
             CHUNK_HEADER_LEN in
  let '(out, ret) := ops_write out (chunk_header_bytes h) in
  if ret <? 0 then Some (out, -1) else
  crc ← skip_crc (S (Z.to_nat (skip_len / block_size info))) (crc32 out) skip_len;
  Some (advance out skip_len crc, 0).

(** [(len + (block_size - 1)) & ~(block_size - 1)] *)
Definition rnd_up (len : Z) : Z :=
  s32 (Z.land (u32 (len + (block_size info - 1))) (u32 (Z.lnot (block_size info - 1)))).

Definition write_chunk_raw (out : output_file) (off : Z) (data : list Z)
    : option (output_file * Z) :=
  let len := Z.of_nat (length data) in
  if off <? cur_out_ptr out then Some (out, -1) else
  '(out, _) ← (if cur_out_ptr out <? off then emit_skip_chunk out (off - cur_out_ptr out)
               else Some (out, 0));
  if truthy (off mod block_size info) then Some (out, -1) else
  if negb (off =? cur_out_ptr out) then Some (out, -1) else
  let rnd_up_len := rnd_up len in
  let zero_len := rnd_up_len - len in
  let h := ChunkHeader CHUNK_TYPE_RAW 0 (u32 rnd_up_len / block_size info)
             (u32 (CHUNK_HEADER_LEN + rnd_up_len)) in
  let '(out, ret) := ops_write out (chunk_header_bytes h) in
  if ret <? 0 then Some (out, -1) else
  let '(out, ret) := ops_write out data in
  if ret <? 0 then Some (out, -1) else
  let '(out, ret) := if truthy zero_len then ops_write out (zeros zero_len) else (out, 0) in
  if ret <? 0 then Some (out, -1) else
  let crc := sparse_crc32 (crc32 out) data in
  let crc := if truthy zero_len then sparse_crc32 crc (zeros zero_len) else crc in
  Some (advance out rnd_up_len crc, 0).

(** [info.len / info.block_size] blocks, with the counts known so far. *)
Definition header_of (chunks crc : Z) : sparse_header_t :=
  SparseHeader SPARSE_HEADER_MAGIC SPARSE_HEADER_MAJOR_VER SPARSE_HEADER_MINOR_VER
    SPARSE_HEADER_LEN CHUNK_HEADER_LEN (block_size info)
    (u32 (len info / block_size info)) (u32 chunks) crc.

(** [mem_ok], [fd_ok], [gz_ok]: the outcomes of malloc, open and gzdopen;
    [d]: the results of the coming writes. *)
Definition open_output_file (mem_ok fd_ok gz_ok : bool) (gz sparse : bool) (d : list Z)
    : option output_file :=
  if negb mem_ok then None else
  if negb fd_ok then None else
  let out := OutputFile [] 0 None sparse 0 0 0 d in
  let '(out, ret) :=
    if sparse then ops_write out (sparse_header_bytes (header_of 0 0)) else (out, 0) in
  if ret <? 0 then None else
  if gz then
    if negb gz_ok then None else
    Some (OutputFile (fdata out) (fpos out) (Some []) sparse
            (cur_out_ptr out) (chunk_cnt out) (crc32 out) (disk out))
  else Some out.

(** The file left behind. *)
Definition close_output_file (out : output_file) : list Z :=
  let out := match gz_fd out with Some z => gz_file_close out z | None => out end in
  let out :=
    if sparse out then
      let h := header_of (chunk_cnt out) (crc32 out) in
      let '(out, _) := ops_seek out 0 in
      let '(out, _) := ops_write out (sparse_header_bytes h) in out
    else out in
  fdata out.

Definition pad_output_file (out : output_file) (n : Z) : option output_file :=
  if len info <? n then Some out else
  if sparse out then
    if n <? cur_out_ptr out then Some out else
    if cur_out_ptr out <? n then
      '(out, _) ← emit_skip_chunk out (n - cur_out_ptr out); Some out
    else Some out
  else
    let '(out, ret) := ops_seek out (n - 1) in
    if ret <? 0 then Some out else
    let '(out, _) := ops_write out [0] in Some out.

Definition write_data_block (out : output_file) (off : Z) (data : list Z)
    : option output_file :=
  if len info <? u64 (off + Z.of_nat (length data)) then Some out else
  if sparse out then '(out, _) ← write_chunk_raw out off data; Some out
  else
    let '(out, ret) := ops_seek out off in
    if ret <? 0 then Some out else
    let '(out, _) := ops_write out data in Some out.

(** System calls that release what [write_data_file] acquired. *)
Inductive release := Munmap | Close.

(** [contents] is what mmap yields for [len] bytes of the file at [offset]:
    [None] when the file cannot be opened, [Some None] when it cannot be
    mapped.  After the data is written control runs into the error exit. *)
Definition write_data_file (out : output_file) (off : Z) (contents : option (option (list Z)))
    (n : Z) : option (output_file * list release) :=
  if len info <=? u64 (off + n) then Some (out, []) else
  match contents with
  | None => Some (out, [])
  | Some None => Some (out, [Close])
  | Some (Some data) =>
      if sparse out then
        '(out, _) ← write_chunk_raw out off data;
        Some (out, [Munmap; Close; Munmap; Close])
      else
        let '(out, ret) := ops_seek out off in
        if ret <? 0 then Some (out, [Munmap; Close]) else
        let '(out, ret) := ops_write out data in
        if ret <? 0 then Some (out, [Munmap; Close])
        else Some (out, [Munmap; Close; Munmap; Close])
  end.
End Output.

(** ** The expander (simg2img.c) *)

Definition COPY_BUF_SIZE : Z := 1048576.

(** The output of the expander: contents and position. *)
Definition raw_out : Type := list Z * Z.

Definition fwrite (out : raw_out) (data : list Z) : raw_out :=
  (pwrite (fst out) (snd out) data, snd out + Z.of_nat (length data)).

(** A step of the expander: [Exit] is a call of exit(-1). *)
Inductive step (A : Type) := Go (a : A) | Exit | OutOfFuel.
Arguments Go {A} a.
Arguments Exit {A}.
Arguments OutOfFuel {A}.

Definition step_bind {A B} (m : step A) (k : A -> step B) : step B :=
  match m with Go a => k a | Exit => Exit | OutOfFuel => OutOfFuel end.
Notation "'let>' x ':=' m 'in' k" := (step_bind m (fun x => k))
  (at level 10, x pattern, k at level 200).

(** [fread(buf, n, 1, in)] *)
Definition fread (input : list Z) (n : Z) : option (list Z * list Z) :=
  if n <=? Z.of_nat (length input)
  then Some (take (Z.to_nat n) input, drop (Z.to_nat n) input) else None.

Fixpoint raw_loop (fuel : nat) (input : list Z) (out : raw_out) (n crc : Z)
    : step (list Z * raw_out * Z) :=
  match fuel with
  | O => OutOfFuel
  | S fuel =>
      if truthy n then
        let chunk := if COPY_BUF_SIZE <? n then COPY_BUF_SIZE else n in
        match fread input chunk with
        | None => Exit
        | Some (copybuf, input) =>
            raw_loop fuel input (fwrite out copybuf) (n - chunk) (sparse_crc32 crc copybuf)
        end
      else Go (input, out, crc)
  end.

Definition process_raw_chunk (input : list Z) (out : raw_out) (blocks blk_sz crc : Z)
    : step (list Z * raw_out * Z * Z) :=
  let n := u64 (blocks * blk_sz) in
  let> (input, out, crc) := raw_loop (S (Z.to_nat n)) input out n crc in
  Go (input, out, crc, blocks).

(** The fseek loop: the position and the last [skip_chunk]. *)
Fixpoint seek_loop (fuel : nat) (pos n skip_chunk : Z) : step (Z * Z) :=
  match fuel with
  | O => OutOfFuel
  | S fuel =>
      if truthy n then
        let skip_chunk := if 0x80000000 <? n then 0x80000000 else n in
        seek_loop fuel (pos + skip_chunk) (n - skip_chunk) skip_chunk
      else Go (pos, skip_chunk)
  end.

Fixpoint skip_crc_loop (fuel : nat) (zerobuf : list Z) (blk_sz n skip_chunk crc : Z) : step Z :=
  match fuel with
  | O => OutOfFuel
  | S fuel =>
      if truthy n then
        let skip_chunk := if blk_sz <? skip_chunk then blk_sz else skip_chunk in
        skip_crc_loop fuel zerobuf blk_sz (u64 (n - skip_chunk)) skip_chunk
          (sparse_crc32 crc (take (Z.to_nat skip_chunk) zerobuf))
      else Go crc
  end.

Definition process_skip_chunk (zerobuf : list Z) (out : raw_out) (blocks blk_sz crc : Z)
    : step (raw_out * Z * Z) :=
  let n := u64 (blocks * blk_sz) in
  let> (pos, skip_chunk) := seek_loop (S (Z.to_nat n)) (snd out) n 0 in
  let> crc := skip_crc_loop (S (Z.to_nat n)) zerobuf blk_sz n skip_chunk crc in
  Go ((fst out, pos), crc, blocks).

(** [fseek(in, n, SEEK_CUR)] for [n > 0] *)
Definition skip_input (input : list Z) (n : Z) : list Z := drop (Z.to_nat n) input.

(** [for (i=0; i<sparse_header.total_chunks; i++)] *)
Fixpoint chunk_loop (n : nat) (h : sparse_header_t) (zerobuf input : list Z) (out : raw_out)
    (crc total_blocks : Z) : step (raw_out * Z * Z) :=
  match n with
  | O => Go (out, crc, total_blocks)
  | S n =>
      match fread input CHUNK_HEADER_LEN with
      | None => Exit
      | Some (b, input) =>
          let c := chunk_header_of b in
          let input := if CHUNK_HEADER_LEN <? chunk_hdr_sz h
                       then skip_input input (chunk_hdr_sz h - CHUNK_HEADER_LEN) else input in
          if chunk_type c =? CHUNK_TYPE_RAW then
            if negb (total_sz c =? u32 (chunk_hdr_sz h + chunk_sz c * blk_sz h)) then Exit else
            let> (input, out, crc, blocks) :=
              process_raw_chunk input out (chunk_sz c) (blk_sz h) crc in
            chunk_loop n h zerobuf input out crc (u32 (total_blocks + blocks))
          else if chunk_type c =? CHUNK_TYPE_DONT_CARE then
            if negb (total_sz c =? chunk_hdr_sz h) then Exit else
            let> (out, crc, blocks) :=
              process_skip_chunk zerobuf out (chunk_sz c) (blk_sz h) crc in
            chunk_loop n h zerobuf input out crc (u32 (total_blocks + blocks))
          else Exit
      end
  end.

Definition ftruncate (f : list Z) (n : Z) : list Z :=
  take (Z.to_nat n) (f ++ zeros (n - Z.of_nat (length f))).

(** [junk n] is the contents of the [n] bytes malloc returns for [zerobuf].  The
    result is the output file and the exit status. *)
Definition simg2img (junk : Z -> list Z) (input : list Z) : step (list Z * Z) :=
  match fread input SPARSE_HEADER_LEN with
  | None => Exit
  | Some (b, input) =>
      let h := sparse_header_of b in
      if negb (magic h =? SPARSE_HEADER_MAGIC) then Exit else
      if negb (major_version h =? SPARSE_HEADER_MAJOR_VER) then Exit else
      let input := if SPARSE_HEADER_LEN <? file_hdr_sz h
                   then skip_input input (file_hdr_sz h - SPARSE_HEADER_LEN) else input in
      let zerobuf := junk (blk_sz h) in
      let> (out, crc, total_blocks) :=
        chunk_loop (Z.to_nat (total_chunks h)) h zerobuf input ([], 0) 0 0 in
      let image := ftruncate (fst out) (u64 (total_blocks * blk_sz h)) in
      if negb (total_blks h =? total_blocks) then Go (image, -1) else
      if negb (image_checksum h =? crc) then Go (image, -1) else
      Go (image, 0)
  end.

(** ** CRC-32: the table is an optimisation of the bitwise definition *)

(** One step of the reflected CRC with polynomial 0xEDB88320. *)
Definition crc_bit (c : Z) : Z :=
  Z.lxor (Z.shiftr c 1) (if Z.odd c then 0xEDB88320 else 0).

Fixpoint crc_bits (n : nat) (c : Z) : Z :=
  match n with O => c | S n => crc_bits n (crc_bit c) end.

(** Bit-at-a-time CRC-32. *)
Definition crc32_spec (crc_in : Z) (buf : list Z) : Z :=
  Z.lxor (foldl (fun c b => crc_bits 8 (Z.lxor c b)) (Z.lxor crc_in 0xFFFFFFFF) buf) 0xFFFFFFFF.

Lemma crc_bits_split n a h :
  crc_bits n (Z.lxor a (Z.shiftl h (Z.of_nat n))) = Z.lxor (crc_bits n a) h.
Proof.
  revert a. induction n as [|n IH]; intros a; cbn [crc_bits].
  { by rewrite Z.shiftl_0_r. }
  rewrite <- IH. f_equal. unfold crc_bit.
  replace (Z.shiftl h (Z.of_nat (S n))) with (Z.shiftl (Z.shiftl h (Z.of_nat n)) 1)
    by (rewrite Z.shiftl_shiftl by lia; f_equal; lia).
  rewrite Z.shiftr_lxor, Z.shiftr_shiftl_l by lia. rewrite Z.sub_diag, Z.shiftl_0_r.
  assert (Z.odd (Z.lxor a (Z.shiftl (Z.shiftl h (Z.of_nat n)) 1)) = Z.odd a) as ->.
  { rewrite <- !Z.bit0_odd, Z.lxor_spec, (Z.shiftl_spec_low _ 1 0) by lia.
    apply xorb_false_r. }
  rewrite !Z.lxor_assoc. f_equal. apply Z.lxor_comm.
Qed.

Lemma crc32_tab_spec i : 0 <= i < 256 -> crc32_entry i = crc_bits 8 i.
Proof.
  intros Hi. apply Z.eqb_eq.
  apply (all_below_spec 256 (fun i => crc32_entry i =? crc_bits 8 i)); [by vm_compute | done].
Qed.

Lemma crc32_step c b : is_u8 b ->
  Z.lxor (crc32_entry (Z.land (Z.lxor c b) 0xFF)) (Z.shiftr c 8) = crc_bits 8 (Z.lxor c b).
Proof.
  intros Hb. change 0xFF with (Z.ones 8). set (x := Z.lxor c b).
  assert (Z.shiftr c 8 = Z.shiftr x 8) as ->.
  { subst x. rewrite Z.shiftr_lxor. rewrite (Z.shiftr_div_pow2 b) by lia.
    rewrite (Z.div_small b) by exact Hb. by rewrite Z.lxor_0_r. }
  rewrite crc32_tab_spec by (rewrite Z.land_ones by lia; by apply Z.mod_pos_bound).
  rewrite <- (crc_bits_split 8). f_equal. bitwise.
  rewrite Z.testbit_ones_nonneg by lia. destruct (Z.ltb_spec i 8).
  - rewrite (Z.testbit_neg_r _ (i - 8)) by lia. by rewrite andb_true_r, xorb_false_r.
  - rewrite andb_false_r, xorb_false_l, Z.shiftr_spec by lia. f_equal. lia.
Qed.

(** (C30) The table-driven [sparse_crc32] computes the standard CRC-32, bit by
    bit, of every buffer from every starting value. *)
Theorem sparse_crc32_is_crc32 (crc_in : Z) (buf : list Z) : Forall is_u8 buf ->
  sparse_crc32 crc_in buf = crc32_spec crc_in buf.
Proof.
  intros Hb. unfold sparse_crc32, crc32_spec. f_equal. generalize (Z.lxor crc_in 0xFFFFFFFF).
  induction Hb as [|b buf Hb _ IH]; intros c; cbn [crc32_loop foldl]; [done|].
  by rewrite crc32_step, IH.
Qed.

Lemma sparse_crc32_is_crc32_witness :
  sparse_crc32 0 [0x31; 0x32; 0x33; 0x34; 0x35; 0x36; 0x37; 0x38; 0x39] = 0xCBF43926.
Proof.
  rewrite (sparse_crc32_is_crc32 0 [0x31; 0x32; 0x33; 0x34; 0x35; 0x36; 0x37; 0x38; 0x39]);
    [vm_compute; reflexivity | apply u8_list_check; reflexivity].
Defined.

(** Hashing in pieces. *)
Lemma crc32_loop_app c a b : crc32_loop c (a ++ b) = crc32_loop (crc32_loop c a) b.
Proof. revert c. induction a as [|x a IH]; intros c; cbn [app crc32_loop]; auto. Qed.

Lemma sparse_crc32_app c a b : sparse_crc32 c (a ++ b) = sparse_crc32 (sparse_crc32 c a) b.
Proof. unfold sparse_crc32. by rewrite lxor_cancel_r, crc32_loop_app. Qed.

Lemma sparse_crc32_nil c : sparse_crc32 c [] = c.
Proof. apply lxor_cancel_r. Qed.

Lemma zeros_app a b : 0 <= a -> 0 <= b -> zeros (a + b) = zeros a ++ zeros b.
Proof. intros. unfold zeros. rewrite Z2Nat.inj_add by lia. apply replicate_add. Qed.

Lemma length_zeros n : length (zeros n) = Z.to_nat n.
Proof. apply length_replicate. Qed.

Lemma pwrite_end f d : pwrite f (Z.of_nat (length f)) d = f ++ d.
Proof.
  unfold pwrite. rewrite Z.sub_diag. cbn [zeros replicate Z.to_nat]. rewrite app_nil_r, Nat2Z.id.
  rewrite take_ge, drop_ge by lia. by rewrite app_nil_r.
Qed.

Lemma pwrite_gap f pos d : Z.of_nat (length f) <= pos ->
  pwrite f pos d = (f ++ zeros (pos - Z.of_nat (length f))) ++ d.
Proof.
  intros Hp. unfold pwrite. set (f' := f ++ _).
  assert (length f' = Z.to_nat pos) as Hl
    by (subst f'; rewrite length_app, length_zeros; lia).
  rewrite take_ge, drop_ge by lia. by rewrite app_nil_r.
Qed.

Lemma pwrite_start h f d : length h = length d -> pwrite (h ++ f) 0 d = d ++ f.
Proof.
  intros Hl. unfold pwrite, zeros. rewrite (Z2Nat.nonpos (0 - _)) by lia. cbn [replicate].
  rewrite app_nil_r. change (Z.to_nat 0) with 0%nat. rewrite take_0. cbn [app Nat.add].
  by rewrite <- Hl, drop_app_length.
Qed.

(** ** Chunks *)

Inductive chunk := Raw (data : list Z) | Skip (blocks : Z).

Section Chunks.
Context (bs : Z) (Hbs : 0 < bs < 2 ^ 31).

Definition chunk_bytes (c : chunk) : list Z :=
  match c with
  | Raw d =>
      chunk_header_bytes (ChunkHeader CHUNK_TYPE_RAW 0 (Z.of_nat (length d) / bs)
        (CHUNK_HEADER_LEN + Z.of_nat (length d))) ++ d
  | Skip n => chunk_header_bytes (ChunkHeader CHUNK_TYPE_DONT_CARE 0 n CHUNK_HEADER_LEN)
  end.

(** The part of the image a chunk stands for. *)
Definition chunk_image (c : chunk) : list Z :=
  match c with Raw d => d | Skip n => zeros (n * bs) end.

Definition chunk_ok (c : chunk) : Prop :=
  match c with
  | Raw d => Z.of_nat (length d) < 2 ^ 31 - 16 /\ exists m, Z.of_nat (length d) = m * bs
  | Skip n => 0 <= n < 2 ^ 32
  end.

Definition encode (cs : list chunk) : list Z := cs ≫= chunk_bytes.
Definition image (cs : list chunk) : list Z := cs ≫= chunk_image.

Definition chunk_blocks (c : chunk) : Z :=
  match c with Raw d => Z.of_nat (length d) / bs | Skip n => n end.

Definition blocks (cs : list chunk) : Z := foldr (fun c n => chunk_blocks c + n) 0 cs.

Lemma chunk_image_length c : chunk_ok c ->
  0 <= chunk_blocks c < 2 ^ 32 /\ Z.of_nat (length (chunk_image c)) = chunk_blocks c * bs.
Proof.
  destruct c as [d|n]; cbn [chunk_ok chunk_blocks chunk_image].
  - intros [Hd [m Hm]]. rewrite Hm, Z.div_mul by lia. nia.
  - intros Hn. rewrite length_zeros. nia.
Qed.

Lemma blocks_pos cs : Forall chunk_ok cs -> 0 <= blocks cs.
Proof.
  induction 1 as [|c cs Hc _ IH]; cbn; [lia|].
  pose proof (proj1 (chunk_image_length c Hc)). fold (blocks cs). lia.
Qed.

Lemma image_cons c cs : image (c :: cs) = chunk_image c ++ image cs.
Proof. done. Qed.

Lemma image_length cs : Forall chunk_ok cs -> Z.of_nat (length (image cs)) = blocks cs * bs.
Proof.
  induction 1 as [|c cs Hc _ IH]; [done|]. rewrite image_cons, length_app, Nat2Z.inj_add, IH.
  rewrite (proj2 (chunk_image_length c Hc)). cbn [blocks foldr]. fold (blocks cs). lia.
Qed.

Lemma blocks_app a b : blocks (a ++ b) = blocks a + blocks b.
Proof. induction a as [|c a IH]; cbn; [done|]. fold (blocks (a ++ b)) (blocks a). lia. Qed.

Lemma image_app a b : image (a ++ b) = image a ++ image b.
Proof. apply bind_app. Qed.

Lemma encode_app a b : encode (a ++ b) = encode a ++ encode b.
Proof. apply bind_app. Qed.

Lemma image_one c : image [c] = chunk_image c.
Proof. unfold image. cbn. by rewrite app_nil_r. Qed.

Lemma encode_one c : encode [c] = chunk_bytes c.
Proof. unfold encode. cbn. by rewrite app_nil_r. Qed.

Lemma encode_cons c cs : encode (c :: cs) = chunk_bytes c ++ encode cs.
Proof. done. Qed.

Lemma chunk_header_roundtrip t n sz rest : 0 <= t < 65536 -> is_u32 n -> is_u32 sz ->
  let b := chunk_header_bytes (ChunkHeader t 0 n sz) ++ rest in
  fread b CHUNK_HEADER_LEN = Some (chunk_header_bytes (ChunkHeader t 0 n sz), rest) /\
  chunk_header_of (chunk_header_bytes (ChunkHeader t 0 n sz)) = ChunkHeader t 0 n sz.
Proof.
  intros Ht Hn Hsz b. split.
  - unfold fread, b, CHUNK_HEADER_LEN. rewrite length_app.
    rewrite (proj2 (Z.leb_le _ _)); [done|]. change (length (chunk_header_bytes _)) with 12%nat. lia.
  - unfold chunk_header_of. f_equal.
    + change (take 2 _) with (le_bytes 2 t). rewrite le_val_bytes. by apply Z.mod_small.
    + change (take 4 _) with (le_bytes 4 n). rewrite le_val_bytes. by apply Z.mod_small.
    + change (take 4 _) with (le_bytes 4 sz). rewrite le_val_bytes. by apply Z.mod_small.
Qed.

(** *** Expanding chunks *)

(** The bytes a file position stands for. *)
Definition out_image (out : raw_out) : list Z :=
  fst out ++ zeros (snd out - Z.of_nat (length (fst out))).

Definition out_ok (out : raw_out) : Prop := Z.of_nat (length (fst out)) <= snd out.

Lemma out_image_length out : out_ok out -> Z.of_nat (length (out_image out)) = snd out.
Proof. unfold out_ok, out_image. intros. rewrite length_app, length_zeros. lia. Qed.

Lemma fwrite_ok out d : out_ok out ->
  out_ok (fwrite out d) /\ out_image (fwrite out d) = out_image out ++ d.
Proof.
  intros Ho. unfold fwrite. rewrite pwrite_gap by done.
  assert (Z.of_nat (length (out_image out ++ d)) = snd out + Z.of_nat (length d)) as Hl
    by (rewrite length_app, <- (out_image_length out Ho); lia).
  unfold out_ok, out_image in *. cbn [fst snd]. rewrite Hl. split; [lia|].
  rewrite Z.sub_diag. cbn [zeros replicate Z.to_nat]. by rewrite app_nil_r.
Qed.

Lemma raw_loop_ok fuel d rest out n crc : out_ok out ->
  Z.of_nat (length d) = n -> n < Z.of_nat fuel ->
  exists out', raw_loop fuel (d ++ rest) out n crc = Go (rest, out', sparse_crc32 crc d) /\
    out_ok out' /\ out_image out' = out_image out ++ d.
Proof.
  revert d out n crc. induction fuel as [|fuel IH]; intros d out n crc Ho Hd Hf; [lia|].
  cbn [raw_loop]. destruct (truthy n) eqn:Hn.
  - apply truthy_true in Hn. set (c := if _ <? _ then _ else _).
    assert (0 < c <= n) as Hc.
    { subst c. unfold COPY_BUF_SIZE. destruct (Z.ltb_spec 1048576 n); lia. }
    clearbody c. unfold fread. rewrite length_app, (proj2 (Z.leb_le _ _)) by lia.
    rewrite take_app_le, drop_app_le by lia.
    destruct (fwrite_ok out (take (Z.to_nat c) d) Ho) as [Ho' Hi'].
    destruct (IH (drop (Z.to_nat c) d) (fwrite out (take (Z.to_nat c) d)) (n - c)
      (sparse_crc32 crc (take (Z.to_nat c) d)) Ho') as (out' & -> & Ho2 & Hi2);
      [rewrite length_drop; lia | lia |].
    exists out'. rewrite <- sparse_crc32_app, take_drop. split; [done|]. split; [done|].
    rewrite Hi2, Hi', <- app_assoc. by rewrite take_drop.
  - apply truthy_false in Hn. assert (d = []) as -> by (destruct d; [done | simpl in *; lia]).
    exists out. rewrite sparse_crc32_nil, app_nil_r. done.
Qed.

Lemma seek_loop_ok fuel pos n s : 0 <= n -> n < Z.of_nat fuel ->
  exists s', seek_loop fuel pos n s = Go (pos + n, s') /\
    (n = 0 -> s' = s) /\ (0 < n -> n mod bs = 0 -> 2 ^ 31 mod bs = 0 -> bs <= s').
Proof.
  revert pos n s. induction fuel as [|fuel IH]; intros pos n s Hn Hf; [lia|].
  cbn [seek_loop]. destruct (truthy n) eqn:Ht.
  - apply truthy_true in Ht. set (c := if _ <? _ then _ else _).
    assert (0 < c <= n /\ (c = n \/ c = 2 ^ 31)) as [Hc Hc'].
    { subst c. destruct (Z.ltb_spec 0x80000000 n); lia. }
    clearbody c. destruct (IH (pos + c) (n - c) c) as (s' & -> & H0 & Hpos); [lia|lia|].
    exists s'. split; [f_equal; f_equal; lia|]. split; [lia|]. intros _ Hm H31.
    destruct (Z.eq_dec (n - c) 0) as [E|E].
    + rewrite (H0 E). assert (c = n) as -> by lia.
      apply Z.mod_divide in Hm as [q Hq]; [|lia].
      assert (0 < q) by (apply (Z.mul_pos_cancel_r q bs); lia). nia.
    + apply Hpos; [lia | | done]. destruct Hc' as [-> | ->]; [lia|].
      rewrite Zminus_mod, Hm, H31. by rewrite Z.sub_0_r, Z.mod_0_l by lia.
  - apply truthy_false in Ht. subst n. exists s. rewrite Z.add_0_r.
    split; [done|]. split; [done|]. lia.
Qed.

Lemma skip_crc_loop_ok fuel m s crc : 0 <= m -> m * bs < 2 ^ 64 -> bs <= s -> m < Z.of_nat fuel ->
  skip_crc_loop fuel (zeros bs) bs (m * bs) s crc = Go (sparse_crc32 crc (zeros (m * bs))).
Proof.
  revert m s crc. induction fuel as [|fuel IH]; intros m s crc Hm Hmax Hs Hf; [lia|].
  cbn [skip_crc_loop]. destruct (truthy (m * bs)) eqn:Ht.
  - apply truthy_true in Ht. assert (0 < m) by nia.
    replace (if bs <? s then bs else s) with bs by (destruct (Z.ltb_spec bs s); lia).
    rewrite take_ge by (rewrite length_zeros; lia).
    replace (m * bs - bs) with ((m - 1) * bs) by lia.
    rewrite u64_id by (unfold is_u64; nia). rewrite IH by nia.
    rewrite <- sparse_crc32_app, <- zeros_app by nia. by replace (bs + (m - 1) * bs) with (m * bs) by lia.
  - apply truthy_false in Ht. rewrite Ht. cbn. by rewrite sparse_crc32_nil.
Qed.

Context (H31 : 2 ^ 31 mod bs = 0).

Section ChunkLoop.
Context (h : sparse_header_t) (Hblk : blk_sz h = bs) (Hhdr : chunk_hdr_sz h = CHUNK_HEADER_LEN).

Lemma raw_chunk_ok d input out crc : chunk_ok (Raw d) -> out_ok out ->
  exists out', process_raw_chunk (d ++ input) out (chunk_blocks (Raw d)) bs crc
      = Go (input, out', sparse_crc32 crc d, chunk_blocks (Raw d)) /\
    out_ok out' /\ out_image out' = out_image out ++ d.
Proof.
  intros Hc Ho. pose proof (chunk_image_length _ Hc) as [Hb Hl]. destruct Hc as [Hd _].
  cbn [chunk_image] in Hl. unfold process_raw_chunk. rewrite <- Hl, u64_id by (unfold is_u64; lia).
  destruct (raw_loop_ok (S (Z.to_nat (Z.of_nat (length d)))) d input out
    (Z.of_nat (length d)) crc Ho) as (out' & -> & ?); [done | lia |].
  by exists out'.
Qed.

Lemma skip_chunk_ok n out crc : chunk_ok (Skip n) -> out_ok out ->
  exists out', process_skip_chunk (zeros bs) out n bs crc
      = Go (out', sparse_crc32 crc (zeros (n * bs)), n) /\
    out_ok out' /\ out_image out' = out_image out ++ zeros (n * bs).
Proof.
  cbn [chunk_ok]. intros Hn Ho. unfold process_skip_chunk.
  rewrite u64_id by (unfold is_u64; nia).
  destruct (seek_loop_ok (S (Z.to_nat (n * bs))) (snd out) (n * bs) 0) as (s & -> & H0 & Hs);
    [nia | nia |].
  cbn [step_bind].
  assert (skip_crc_loop (S (Z.to_nat (n * bs))) (zeros bs) bs (n * bs) s crc
    = Go (sparse_crc32 crc (zeros (n * bs)))) as ->.
  { destruct (Z.eq_dec n 0) as [-> | Hn0].
    - cbn. by rewrite sparse_crc32_nil.
    - apply skip_crc_loop_ok; [lia | nia | apply Hs; [nia | | done] | nia].
      apply Z.mod_mul. lia. }
  exists (fst out, snd out + n * bs). split; [done|].
  unfold out_ok, out_image in *. cbn [fst snd]. split; [nia|].
  rewrite <- app_assoc, <- zeros_app by nia. do 2 f_equal. lia.
Qed.

Lemma chunk_loop_cons n c input out crc tb : chunk_ok c -> out_ok out ->
  0 <= tb -> tb + chunk_blocks c < 2 ^ 32 ->
  exists out', chunk_loop (S n) h (zeros bs) (chunk_bytes c ++ input) out crc tb =
      chunk_loop n h (zeros bs) input out' (sparse_crc32 crc (chunk_image c))
        (tb + chunk_blocks c) /\
    out_ok out' /\ out_image out' = out_image out ++ chunk_image c.
Proof.
  intros Hc Ho Htb Hlt. pose proof (chunk_image_length c Hc) as [Hb Hl].
  cbn [chunk_loop]. rewrite Hblk, Hhdr.
  destruct c as [d|m]; cbn [chunk_bytes chunk_image] in *.
  - destruct Hc as [Hd Hm].
    rewrite <- app_assoc.
    destruct (chunk_header_roundtrip CHUNK_TYPE_RAW (chunk_blocks (Raw d))
      (CHUNK_HEADER_LEN + Z.of_nat (length d)) (d ++ input)) as [Hf Hh];
      [done | unfold is_u32; lia | unfold is_u32, CHUNK_HEADER_LEN; lia |].
    cbn [chunk_blocks] in *. rewrite Hf, Hh. cbn [chunk_type chunk_sz total_sz].
    rewrite Z.eqb_refl, Z.ltb_irrefl, <- Hl.
    rewrite u32_id by (unfold is_u32, CHUNK_HEADER_LEN; lia). rewrite Z.eqb_refl.
    destruct (raw_chunk_ok d input out crc (conj Hd Hm) Ho) as (out' & He & Ho' & Hi').
    cbn [chunk_blocks] in He. rewrite He. cbn [negb step_bind].
    exists out'. by rewrite u32_id by (unfold is_u32; lia).
  - destruct (chunk_header_roundtrip CHUNK_TYPE_DONT_CARE m CHUNK_HEADER_LEN input) as [Hf Hh];
      [done | unfold is_u32; cbn in *; lia | done |].
    rewrite Hf, Hh. cbn [chunk_type chunk_sz total_sz].
    change (CHUNK_TYPE_DONT_CARE =? CHUNK_TYPE_RAW) with false.
    rewrite !Z.eqb_refl, Z.ltb_irrefl.
    destruct (skip_chunk_ok m out crc Hc Ho) as (out' & -> & Ho' & Hi').
    cbn [negb step_bind]. exists out'. cbn [chunk_blocks] in *.
    by rewrite u32_id by (unfold is_u32; lia).
Qed.

Lemma chunk_loop_ok cs input out crc tb : Forall chunk_ok cs -> out_ok out ->
  0 <= tb -> tb + blocks cs < 2 ^ 32 ->
  exists out', chunk_loop (length cs) h (zeros bs) (encode cs ++ input) out crc tb =
      Go (out', sparse_crc32 crc (image cs), tb + blocks cs) /\
    out_ok out' /\ out_image out' = out_image out ++ image cs.
Proof.
  intros Hcs. revert out crc tb. induction Hcs as [|c cs Hc Hcs IH]; intros out crc tb Ho Htb Hlt.
  - exists out. cbn. by rewrite sparse_crc32_nil, Z.add_0_r, app_nil_r.
  - pose proof (proj1 (chunk_image_length c Hc)). pose proof (blocks_pos cs Hcs).
    cbn [blocks foldr] in Hlt |- *. fold (blocks cs) in Hlt |- *. cbn [length].
    rewrite encode_cons, image_cons, <- app_assoc.
    destruct (chunk_loop_cons (length cs) c (encode cs ++ input) out crc tb)
      as (out1 & -> & Ho1 & Hi1); [done | done | lia | lia |].
    destruct (IH out1 (sparse_crc32 crc (chunk_image c)) (tb + chunk_blocks c))
      as (out2 & -> & Ho2 & Hi2); [done | lia | lia |].
    exists out2. rewrite sparse_crc32_app, Hi2, Hi1, <- app_assoc, Z.add_assoc. done.
Qed.
End ChunkLoop.
End Chunks.

(** ** Headers *)

Lemma crc32_tab_u32 : Forall is_u32 crc32_tab.
Proof. unfold is_u32. repeat constructor; lia. Qed.

Lemma crc32_entry_u32 i : is_u32 (crc32_entry i).
Proof.
  unfold crc32_entry. destruct (nth_in_or_default (Z.to_nat i) crc32_tab 0) as [H | ->]; [|done].
  eapply Forall_forall; [apply crc32_tab_u32 | by apply list_elem_of_In].
Qed.

Lemma lxor_u32 a b : is_u32 a -> is_u32 b -> is_u32 (Z.lxor a b).
Proof. apply (lxor_range 32); lia. Qed.

Lemma crc32_loop_u32 p crc : is_u32 crc -> is_u32 (crc32_loop crc p).
Proof.
  revert crc. induction p as [|b p IH]; intros crc Hc; cbn [crc32_loop]; [done|].
  apply IH. apply lxor_u32; [apply crc32_entry_u32|].
  unfold is_u32 in *. rewrite Z.shiftr_div_pow2 by lia. split; [apply Z.div_pos; lia|].
  apply Z.div_lt_upper_bound; lia.
Qed.

Lemma sparse_crc32_u32 crc d : is_u32 crc -> is_u32 (sparse_crc32 crc d).
Proof. intros. unfold sparse_crc32. by repeat first [apply lxor_u32 | apply crc32_loop_u32]. Qed.

Lemma sparse_header_roundtrip info n crc rest : is_u32 (block_size info) -> is_u32 crc ->
  let h := header_of info n crc in
  fread (sparse_header_bytes h ++ rest) SPARSE_HEADER_LEN = Some (sparse_header_bytes h, rest) /\
  sparse_header_of (sparse_header_bytes h) = h.
Proof.
  intros Hb Hc h. split.
  - unfold fread, SPARSE_HEADER_LEN. rewrite length_app.
    rewrite (proj2 (Z.leb_le _ _)); [done|].
    change (length (sparse_header_bytes _)) with 28%nat. lia.
  - unfold h, header_of, sparse_header_of. f_equal.
    + change (take 4 _) with (le_bytes 4 (block_size info)). rewrite le_val_bytes.
      by apply Z.mod_small.
    + change (take 4 _) with (le_bytes 4 (u32 (len info / block_size info))).
      rewrite le_val_bytes. apply Z.mod_mod. lia.
    + change (take 4 _) with (le_bytes 4 (u32 n)). rewrite le_val_bytes. apply Z.mod_mod. lia.
    + change (take 4 _) with (le_bytes 4 crc). rewrite le_val_bytes. by apply Z.mod_small.
Qed.

Lemma ftruncate_image out n : out_ok out -> n = snd out -> ftruncate (fst out) n = out_image out.
Proof.
  intros Ho ->. unfold ftruncate. apply take_ge. fold (out_image out).
  pose proof (out_image_length out Ho). lia.
Qed.

(** Expanding a well-formed file of chunks gives the image they stand for. *)
Lemma simg2img_ok info cs : 0 < block_size info < 2 ^ 31 -> 2 ^ 31 mod block_size info = 0 ->
  Forall (chunk_ok (block_size info)) cs -> Z.of_nat (length cs) < 2 ^ 32 ->
  blocks (block_size info) cs < 2 ^ 32 -> len info = blocks (block_size info) cs * block_size info ->
  simg2img zeros
    (sparse_header_bytes (header_of info (Z.of_nat (length cs))
       (sparse_crc32 0 (image (block_size info) cs))) ++ encode (block_size info) cs)
  = Go (image (block_size info) cs, 0).
Proof.
  intros Hbs H31 Hcs Hn Hblk Hlen. unfold simg2img.
  pose proof (blocks_pos _ Hbs cs Hcs) as Hpos.
  destruct (sparse_header_roundtrip info (Z.of_nat (length cs))
    (sparse_crc32 0 (image (block_size info) cs)) (encode (block_size info) cs)) as [-> ->];
    [unfold is_u32; lia | by apply sparse_crc32_u32 |].
  cbn [header_of magic major_version file_hdr_sz blk_sz total_blks total_chunks image_checksum].
  rewrite !Z.eqb_refl, Z.ltb_irrefl. cbn [negb].
  rewrite !u32_id by (rewrite ?Hlen, ?Z.div_mul by lia; unfold is_u32; lia).
  rewrite Nat2Z.id.
  destruct (chunk_loop_ok _ Hbs H31 (header_of info (Z.of_nat (length cs))
    (sparse_crc32 0 (image (block_size info) cs))) eq_refl eq_refl cs [] ([], 0) 0 0)
    as (out & Hl & Ho & Hi); [done | done | done | lia |].
  rewrite app_nil_r in Hl. rewrite Hl. cbn [step_bind]. clear Hl.
  change (out_image ([], 0)) with (@nil Z) in Hi. cbn [app] in Hi.
  rewrite Hlen, Z.div_mul, Z.add_0_l, Z.eqb_refl by lia. cbn [negb]. rewrite Z.eqb_refl. cbn [negb].
  rewrite ftruncate_image; [by rewrite Hi | done |].
  rewrite <- (out_image_length out Ho), Hi, u64_id by (unfold is_u64; nia).
  by rewrite (image_length _ Hbs).
Qed.

(** ** The writer emits well-formed chunks *)

(** [len] rounded up to whole blocks. *)
Definition round_up (bs len : Z) : Z := (len + (bs - 1)) / bs * bs.

Section Writer.
Context (info : fs_info) (k : Z) (Hk : 0 <= k <= 30) (Hbs2 : block_size info = 2 ^ k).
Abbreviation bs := (block_size info).

Lemma bs_range : 0 < bs < 2 ^ 31.
Proof.
  rewrite Hbs2. split; [apply Z.pow_pos_nonneg; lia | apply Z.pow_lt_mono_r; lia].
Qed.

Lemma bs_divides : 2 ^ 31 mod bs = 0.
Proof.
  rewrite Hbs2. replace 31 with (31 - k + k) by lia.
  rewrite Z.pow_add_r by lia. apply Z.mod_mul. pose proof bs_range. lia.
Qed.

Lemma round_up_bounds n : n <= round_up bs n < n + bs.
Proof.
  pose proof bs_range. unfold round_up. pose proof (Z.div_mod (n + (bs - 1)) bs).
  pose proof (Z.mod_pos_bound (n + (bs - 1)) bs). nia.
Qed.

Lemma round_up_mod n : round_up bs n mod bs = 0.
Proof. apply Z.mod_mul. pose proof bs_range. lia. Qed.

Lemma rnd_up_round_up n : 0 <= n -> n + bs < 2 ^ 31 -> rnd_up info n = round_up bs n.
Proof.
  intros Hn Hlt. pose proof bs_range. pose proof (round_up_bounds n). unfold rnd_up.
  assert (Z.land (u32 (n + (bs - 1))) (u32 (Z.lnot (bs - 1))) = round_up bs n) as ->.
  - unfold u32. change 4294967296 with (2 ^ 32).
    rewrite <- !Z.land_ones by lia. rewrite Z.land_assoc, <- (Z.land_assoc _ (Z.ones 32)).
    rewrite (Z.land_comm (Z.ones 32)), Z.land_assoc, <- Z.land_assoc, Z.land_diag.
    assert (Z.land (n + (bs - 1)) (Z.lnot (bs - 1)) = round_up bs n) as ->.
    { rewrite Hbs2 at 2. replace (2 ^ k - 1) with (Z.ones k) by (rewrite Z.ones_equiv; lia).
      rewrite <- Z.ldiff_land, Z.ldiff_ones_r, Z.shiftl_mul_pow2, Z.shiftr_div_pow2 by lia.
      unfold round_up. by rewrite Hbs2. }
    rewrite Z.land_ones by lia. apply Z.mod_small. lia.
  - apply s32_id. unfold is_s32. lia.
Qed.

(** The state of a sparse output file after the chunks [cs]. *)
Definition writer (cs : list chunk) : output_file :=
  let f := sparse_header_bytes (header_of info 0 0) ++ encode bs cs in
  OutputFile f (Z.of_nat (length f)) None true (Z.of_nat (length (image bs cs)))
    (Z.of_nat (length cs)) (sparse_crc32 0 (image bs cs)) [].

(** [writer] with bytes of an unfinished chunk at the end of the file. *)
Definition pending (cs : list chunk) (d : list Z) : output_file :=
  let f := (sparse_header_bytes (header_of info 0 0) ++ encode bs cs) ++ d in
  OutputFile f (Z.of_nat (length f)) None true (Z.of_nat (length (image bs cs)))
    (Z.of_nat (length cs)) (sparse_crc32 0 (image bs cs)) [].

Lemma writer_pending cs : writer cs = pending cs [].
Proof. unfold writer, pending. by rewrite app_nil_r. Qed.

Lemma write_pending cs d e : ops_write (pending cs d) e = (pending cs (d ++ e), 0).
Proof.
  unfold ops_write, file_write, write_ret, pending. cbn [gz_fd disk fdata fpos].
  destruct (Z.ltb_spec (Z.of_nat (length e)) 0); [lia|].
  rewrite Z.ltb_irrefl, Nat2Z.id, firstn_all, pwrite_end, <- Nat2Z.inj_add, <- length_app.
  by rewrite app_assoc.
Qed.

Lemma advance_pending cs c : chunk_ok bs c ->
  Z.of_nat (length (image bs (cs ++ [c]))) < 2 ^ 64 ->
  advance (pending cs (chunk_bytes bs c)) (chunk_blocks bs c * bs)
    (sparse_crc32 (sparse_crc32 0 (image bs cs)) (chunk_image bs c)) = writer (cs ++ [c]).
Proof.
  intros Hc Hl. pose proof (proj2 (chunk_image_length _ bs_range c Hc)) as Hcl.
  unfold advance, pending, writer. cbn [fdata fpos gz_fd sparse cur_out_ptr chunk_cnt crc32 disk].
  rewrite image_app, image_one in *. rewrite encode_app, encode_one, length_app in *.
  rewrite u64_id by (unfold is_u64; lia).
  rewrite <- sparse_crc32_app. f_equal; rewrite <- ?app_assoc; try done;
    rewrite !length_app; cbn [length]; lia.
Qed.

Lemma skip_crc_ok fuel m crc : 0 <= m < Z.of_nat fuel ->
  skip_crc info fuel crc (m * bs) = Some (sparse_crc32 crc (zeros (m * bs))).
Proof.
  pose proof bs_range. revert m crc. induction fuel as [|fuel IH]; intros m crc Hm; [lia|].
  cbn [skip_crc]. destruct (truthy (m * bs)) eqn:Ht.
  - apply truthy_true in Ht. assert (0 < m) by nia.
    replace (if bs <? m * bs then bs else m * bs) with bs
      by (destruct (Z.ltb_spec bs (m * bs)); nia).
    replace (m * bs - bs) with ((m - 1) * bs) by lia. rewrite IH by lia.
    rewrite <- sparse_crc32_app, <- zeros_app by nia.
    by replace (bs + (m - 1) * bs) with (m * bs) by lia.
  - apply truthy_false in Ht. rewrite Ht. cbn. by rewrite sparse_crc32_nil.
Qed.

Lemma emit_skip_chunk_ok cs m : 0 <= m < 2 ^ 32 ->
  Z.of_nat (length (image bs (cs ++ [Skip m]))) < 2 ^ 64 ->
  emit_skip_chunk info (writer cs) (m * bs) = Some (writer (cs ++ [Skip m]), 0).
Proof.
  intros Hm Hl. pose proof bs_range. unfold emit_skip_chunk.
  rewrite Z.mod_mul, Z.div_mul, u32_id by (unfold is_u32; lia).
  cbn [truthy Z.eqb negb]. rewrite writer_pending, write_pending. cbn [app Z.ltb Z.compare].
  rewrite skip_crc_ok by lia. cbn [mbind option_bind crc32 pending].
  by rewrite <- (advance_pending cs (Skip m)).
Qed.

Definition padded (d : list Z) : list Z :=
  d ++ zeros (round_up bs (Z.of_nat (length d)) - Z.of_nat (length d)).

Lemma length_padded d : Z.of_nat (length (padded d)) = round_up bs (Z.of_nat (length d)).
Proof.
  pose proof (round_up_bounds (Z.of_nat (length d))).
  unfold padded. rewrite length_app, length_zeros. lia.
Qed.

(** The chunk that closes the gap between [cur] and [off]. *)
Definition gap (cur off : Z) : list chunk :=
  if cur <? off then [Skip ((off - cur) / bs)] else [].

Lemma padded_ok d : Z.of_nat (length d) + bs < 2 ^ 31 - 16 -> chunk_ok bs (Raw (padded d)).
Proof.
  intros Hd. pose proof (round_up_bounds (Z.of_nat (length d))).
  split; rewrite length_padded; [lia|]. by eexists.
Qed.

Lemma image_gap cur off : cur <= off -> (off - cur) mod bs = 0 ->
  image bs (gap cur off) = zeros (off - cur).
Proof.
  intros Hle Hm. pose proof bs_range. unfold gap. destruct (Z.ltb_spec cur off).
  - rewrite image_one. cbn [chunk_image]. f_equal.
    pose proof (Z.div_mod (off - cur) bs). lia.
  - by replace (off - cur) with 0 by lia.
Qed.

Lemma gap_ok cur off : cur <= off -> (off - cur) / bs < 2 ^ 32 -> Forall (chunk_ok bs) (gap cur off).
Proof.
  intros Hle Hm. pose proof bs_range. unfold gap. destruct (Z.ltb_spec cur off); constructor; [|done].
  split; [apply Z.div_pos; lia | done].
Qed.

(** Zero padding: what is written and what is summed up when [zero_len] may be 0. *)
Lemma write_zeros cs d n : 0 <= n ->
  (if truthy n then ops_write (pending cs d) (zeros n) else (pending cs d, 0))
  = (pending cs (d ++ zeros n), 0).
Proof.
  intros Hn. destruct (truthy n) eqn:Ht; [apply write_pending|].
  apply truthy_false in Ht as ->. by rewrite app_nil_r.
Qed.

Lemma crc_zeros crc n :
  (if truthy n then sparse_crc32 crc (zeros n) else crc) = sparse_crc32 crc (zeros n).
Proof.
  destruct (truthy n) eqn:Ht; [done|]. apply truthy_false in Ht as ->.
  cbn. by rewrite sparse_crc32_nil.
Qed.

Lemma raw_header d : Z.of_nat (length d) + bs < 2 ^ 31 - 16 ->
  let n := round_up bs (Z.of_nat (length d)) in
  (chunk_header_bytes (ChunkHeader CHUNK_TYPE_RAW 0 (u32 n / bs) (u32 (CHUNK_HEADER_LEN + n))) ++ d)
    ++ zeros (n - Z.of_nat (length d)) = chunk_bytes bs (Raw (padded d)).
Proof.
  intros Hd n. pose proof (round_up_bounds (Z.of_nat (length d))).
  cbn [chunk_bytes]. rewrite length_padded, !u32_id by (unfold is_u32, CHUNK_HEADER_LEN; lia).
  by rewrite <- app_assoc.
Qed.

Lemma image_length_gap cs off : Z.of_nat (length (image bs cs)) <= off ->
  (off - Z.of_nat (length (image bs cs))) mod bs = 0 ->
  Z.of_nat (length (image bs (cs ++ gap (Z.of_nat (length (image bs cs))) off))) = off.
Proof. intros. rewrite image_app, image_gap, length_app, length_zeros by done. lia. Qed.

Lemma close_gap cs off : Z.of_nat (length (image bs cs)) <= off < 2 ^ 64 ->
  (off - Z.of_nat (length (image bs cs))) mod bs = 0 ->
  (off - Z.of_nat (length (image bs cs))) / bs < 2 ^ 32 ->
  (if Z.of_nat (length (image bs cs)) <? off
   then emit_skip_chunk info (writer cs) (off - Z.of_nat (length (image bs cs)))
   else Some (writer cs, 0))
  = Some (writer (cs ++ gap (Z.of_nat (length (image bs cs))) off), 0).
Proof.
  intros Hle Hm Hlt. pose proof bs_range. pose proof (image_length_gap cs off) as Hig.
  unfold gap in *. destruct (Z.ltb_spec (Z.of_nat (length (image bs cs))) off); [|by rewrite app_nil_r].
  set (n := off - Z.of_nat (length (image bs cs))) in *.
  replace n with (n / bs * bs) at 1 by (pose proof (Z.div_mod n bs); lia).
  apply emit_skip_chunk_ok; [split; [apply Z.div_pos; lia | done] | rewrite Hig; lia].
Qed.

Lemma write_chunk_raw_ok cs off d (cur := Z.of_nat (length (image bs cs))) :
  cur <= off -> off + Z.of_nat (length d) + bs < 2 ^ 64 -> cur mod bs = 0 -> off mod bs = 0 ->
  (off - cur) / bs < 2 ^ 32 -> Z.of_nat (length d) + bs < 2 ^ 31 - 16 ->
  write_chunk_raw info (writer cs) off d
  = Some (writer ((cs ++ gap cur off) ++ [Raw (padded d)]), 0).
Proof.
  intros Hle Hmax Hcur Hoff Hgap Hd. pose proof bs_range as Hbs.
  pose proof (round_up_bounds (Z.of_nat (length d))) as Hru.
  assert ((off - cur) mod bs = 0) as Hm
    by (rewrite Zminus_mod, Hcur, Hoff; apply Z.mod_0_l; lia).
  unfold write_chunk_raw. cbn [cur_out_ptr writer]. fold cur.
  destruct (Z.ltb_spec off cur); [lia|].
  unfold cur. rewrite close_gap by (fold cur; lia || done). cbn [mbind option_bind].
  fold cur. pose proof (image_length_gap cs off Hle Hm) as Hig. fold cur in Hig.
  set (cs' := cs ++ gap cur off) in *. cbn [cur_out_ptr writer].
  rewrite Hoff, Hig, Z.eqb_refl. cbn [truthy Z.eqb negb].
  rewrite rnd_up_round_up by lia. rewrite writer_pending, write_pending. cbn [app Z.ltb Z.compare].
  rewrite write_pending. cbn [Z.ltb Z.compare]. rewrite write_zeros by lia. cbn [Z.ltb Z.compare].
  rewrite crc_zeros, raw_header by done. cbn [crc32 pending].
  rewrite <- sparse_crc32_app, <- length_padded.
  pose proof (padded_ok d Hd) as Hok. rewrite <- (advance_pending cs' (Raw (padded d)) Hok).
  - rewrite <- (proj2 (chunk_image_length _ Hbs _ Hok)). cbn [chunk_image]. by rewrite length_padded.
  - rewrite image_app, image_one, length_app. cbn [chunk_image]. pose proof (length_padded d). lia.
Qed.

(** *** Whole writes *)

Context (Hlen : len info mod bs = 0) (Hmax : len info / bs < 2 ^ 31).

Lemma len_bound : len info = len info / bs * bs /\ len info < 2 ^ 62.
Proof. pose proof bs_range. pose proof (Z.div_mod (len info) bs). nia. Qed.

(** What holds of the chunks emitted so far: none is empty, and they fit. *)
Definition emitted_ok (cs : list chunk) : Prop :=
  Forall (fun c => chunk_ok bs c /\ 1 <= chunk_blocks bs c) cs /\
  Z.of_nat (length (image bs cs)) <= len info.

Lemma emitted_chunks_ok cs : emitted_ok cs -> Forall (chunk_ok bs) cs.
Proof. intros [H _]. eapply Forall_impl; [exact H|]. by intros ? [? _]. Qed.

Lemma emitted_count cs : emitted_ok cs -> Z.of_nat (length cs) <= blocks bs cs < 2 ^ 31.
Proof.
  intros H. pose proof (image_length _ bs_range cs (emitted_chunks_ok _ H)) as Hi.
  destruct H as [Hcs Hl]. rewrite Hi in Hl. pose proof len_bound. pose proof bs_range. split; [|nia].
  clear Hi Hl. induction Hcs as [|c cs [_ Hc] _ IH]; [done|].
  cbn [length blocks foldr]. fold (blocks bs cs). lia.
Qed.

Lemma emitted_aligned cs : emitted_ok cs -> Z.of_nat (length (image bs cs)) mod bs = 0.
Proof.
  intros H. pose proof bs_range. rewrite (image_length _ bs_range cs (emitted_chunks_ok _ H)).
  apply Z.mod_mul. lia.
Qed.

Lemma div_bound a b : 0 <= a -> a <= b -> b <= len info -> (b - a) / bs < 2 ^ 31.
Proof.
  intros. pose proof bs_range. eapply Z.le_lt_trans; [|exact Hmax]. apply Z.div_le_mono; lia.
Qed.

Lemma emitted_gap cs off (cur := Z.of_nat (length (image bs cs))) : emitted_ok cs ->
  cur <= off -> off mod bs = 0 -> off <= len info ->
  emitted_ok (cs ++ gap cur off) /\ image bs (cs ++ gap cur off) = image bs cs ++ zeros (off - cur).
Proof.
  intros H Hle Hoff Hlim. pose proof bs_range.
  assert ((off - cur) mod bs = 0) as Hm.
  { rewrite Zminus_mod, Hoff. unfold cur. rewrite emitted_aligned by done. apply Z.mod_0_l. lia. }
  rewrite image_app, image_gap by done. split; [|done]. split.
  - apply Forall_app. split; [apply H|]. unfold gap.
    destruct (Z.ltb_spec cur off); constructor; [|done].
    pose proof (div_bound cur off). pose proof (Z.div_mod (off - cur) bs). cbn. split; nia.
  - rewrite image_app, image_gap, length_app, length_zeros by done. lia.
Qed.

(** A write the writer accepts when [cur] bytes are out. *)
Definition write_ok (cur off : Z) (d : list Z) : Prop :=
  cur <= off /\ off mod bs = 0 /\ d <> [] /\ Z.of_nat (length d) + bs < 2 ^ 31 - 16 /\
  off + Z.of_nat (length d) <= len info.

Lemma round_up_fits off n : off mod bs = 0 -> off + n <= len info -> off + round_up bs n <= len info.
Proof.
  intros Hoff Hn. pose proof bs_range. pose proof (round_up_bounds n).
  pose proof (round_up_mod n) as Hr. apply Z.mod_divide in Hr as [r Hr]; [|lia].
  apply Z.mod_divide in Hoff as [o Ho]; [|lia]. destruct len_bound as [Hl _].
  assert (o + r - 1 < len info / bs) by (apply (Z.mul_lt_mono_pos_r bs); lia). nia.
Qed.

Lemma emit_raw cs off d (cur := Z.of_nat (length (image bs cs))) :
  emitted_ok cs -> write_ok cur off d ->
  exists cs', write_chunk_raw info (writer cs) off d = Some (writer cs', 0) /\ emitted_ok cs' /\
    image bs cs' = image bs cs ++ zeros (off - cur) ++ padded d.
Proof.
  intros H (Hle & Hoff & Hd0 & Hd & Hfit). pose proof bs_range. pose proof len_bound.
  destruct (emitted_gap cs off H) as [[Hg Hgl] Hgi]; [done | done | lia |]. fold cur in Hg, Hgl, Hgi.
  assert ((off - cur) / bs < 2 ^ 31) by (apply div_bound; lia).
  pose proof (round_up_fits off (Z.of_nat (length d)) Hoff Hfit).
  exists ((cs ++ gap cur off) ++ [Raw (padded d)]).
  rewrite write_chunk_raw_ok; [|done | lia | by apply emitted_aligned | done | fold cur; lia | done].
  split; [done|].
  split; [|by rewrite (image_app _ _ [_]), image_one, Hgi, <- app_assoc]. split.
  - apply Forall_app. split; [done|]. constructor; [|done]. split; [by apply padded_ok|].
    cbn [chunk_blocks]. rewrite length_padded. unfold round_up. rewrite Z.div_mul by lia.
    assert (0 < Z.of_nat (length d)) by (destruct d; [done | simpl; lia]).
    apply Z.div_le_lower_bound; lia.
  - rewrite (image_app _ _ [_]), image_one, Hgi, !length_app, length_zeros. cbn [chunk_image].
    pose proof (length_padded d). lia.
Qed.

Lemma write_data_block_ok cs off d (cur := Z.of_nat (length (image bs cs))) :
  emitted_ok cs -> write_ok cur off d ->
  exists cs', write_data_block info (writer cs) off d = Some (writer cs') /\ emitted_ok cs' /\
    image bs cs' = image bs cs ++ zeros (off - cur) ++ padded d.
Proof.
  intros H Hw. destruct (emit_raw cs off d H Hw) as (cs' & He & Hc).
  destruct Hw as (Hle & ? & ? & ? & Hfit). pose proof len_bound.
  exists cs'. split; [|done]. unfold write_data_block. rewrite u64_id by (unfold is_u64; lia).
  destruct (Z.ltb_spec (len info) (off + Z.of_nat (length d))); [lia|].
  cbn [sparse writer]. by rewrite He.
Qed.

(** A file must end before the end of the filesystem to be written. *)
Lemma write_data_file_ok cs off d (cur := Z.of_nat (length (image bs cs))) :
  emitted_ok cs -> write_ok cur off d -> off + Z.of_nat (length d) < len info ->
  exists cs', write_data_file info (writer cs) off (Some (Some d)) (Z.of_nat (length d))
      = Some (writer cs', [Munmap; Close; Munmap; Close]) /\ emitted_ok cs' /\
    image bs cs' = image bs cs ++ zeros (off - cur) ++ padded d.
Proof.
  intros H Hw Hlt. destruct (emit_raw cs off d H Hw) as (cs' & He & Hc).
  destruct Hw as (Hle & _). pose proof len_bound.
  exists cs'. split; [|done]. unfold write_data_file. rewrite u64_id by (unfold is_u64; lia).
  destruct (Z.leb_spec (len info) (off + Z.of_nat (length d))); [lia|].
  cbn [sparse writer]. by rewrite He.
Qed.

Lemma open_output_file_ok gz_ok : open_output_file info true true gz_ok false true [] = Some (writer []).
Proof.
  unfold open_output_file. cbn [negb].
  unfold ops_write, file_write, write_ret. cbn [gz_fd disk fdata fpos sparse cur_out_ptr chunk_cnt crc32].
  rewrite Z.ltb_irrefl, Nat2Z.id, firstn_all.
  change (pwrite [] 0) with (pwrite [] (Z.of_nat (length (@nil Z)))). by rewrite pwrite_end.
Qed.

Lemma pad_output_file_ok cs : emitted_ok cs ->
  exists cs', pad_output_file info (writer cs) (len info) = Some (writer cs') /\ emitted_ok cs' /\
    image bs cs' = image bs cs ++ zeros (len info - Z.of_nat (length (image bs cs))).
Proof.
  intros H. pose proof (proj2 H) as Hle. pose proof len_bound.
  destruct (emitted_gap cs (len info) H) as [Hg Hgi]; [done | done | lia |].
  eexists. split; [|exact (conj Hg Hgi)]. unfold pad_output_file. rewrite Z.ltb_irrefl.
  cbn [sparse cur_out_ptr writer].
  destruct (Z.ltb_spec (len info) (Z.of_nat (length (image bs cs)))); [lia|].
  pose proof (close_gap cs (len info)) as Hcg.
  assert ((len info - Z.of_nat (length (image bs cs))) / bs < 2 ^ 31) by (apply div_bound; lia).
  rewrite Zminus_mod, Hlen, emitted_aligned in Hcg by done.
  specialize (Hcg ltac:(lia) ltac:(apply Z.mod_0_l; pose proof bs_range; lia) ltac:(lia)).
  destruct (Z.ltb_spec (Z.of_nat (length (image bs cs))) (len info)).
  - rewrite Hcg. done.
  - exact (f_equal (option_map fst) Hcg).
Qed.

Lemma close_output_file_ok gz cs : close_output_file gz info (writer cs) =
  sparse_header_bytes (header_of info (Z.of_nat (length cs)) (sparse_crc32 0 (image bs cs)))
    ++ encode bs cs.
Proof.
  unfold close_output_file, ops_seek, file_seek, ops_write, file_write, write_ret.
  cbn [gz_fd sparse disk fdata fpos writer chunk_cnt crc32 Z.ltb Z.compare].
  rewrite Z.ltb_irrefl, Nat2Z.id, firstn_all. cbn [fdata]. by apply pwrite_start.
Qed.

(** Padding and closing leave a file that expands to the image, zero-filled to
    the end of the filesystem. *)
Lemma finish_ok gz cs : emitted_ok cs ->
  exists out, pad_output_file info (writer cs) (len info) = Some out /\
    simg2img zeros (close_output_file gz info out) =
      Go (image bs cs ++ zeros (len info - Z.of_nat (length (image bs cs))), 0).
Proof.
  intros H. destruct (pad_output_file_ok cs H) as (cs' & Hp & H' & Hi).
  exists (writer cs'). split; [done|]. rewrite close_output_file_ok.
  pose proof (emitted_count cs' H') as Hc. pose proof (emitted_chunks_ok cs' H') as Hok.
  rewrite simg2img_ok, Hi; [done | apply bs_range | apply bs_divides | done | lia | lia |].
  rewrite <- (image_length _ bs_range cs' Hok), Hi, length_app, length_zeros.
  destruct H as [_ H]. lia.
Qed.
End Writer.

(** ** The expander's zero buffer is never cleared *)

(** A file holding only a filesystem of two blocks that were never written. *)
Definition empty_fs : fs_info := FsInfo 1024 2048.

Definition empty_image : option (list Z) :=
  out ← open_output_file empty_fs true true true false true [];
  out ← pad_output_file empty_fs out (len empty_fs);
  Some (close_output_file (fun z => z) empty_fs out).

(** The buffer simg2img checksums skipped blocks with is malloc'ed and
    never cleared: on a file the writer itself produced, the exit status depends
    on what malloc returns.  With zeroes it is 0; with other bytes the same
    image is written out and the checksum comparison fails with -1. *)
Lemma simg2img_checksum_depends_on_malloc :
  exists f, empty_image = Some f /\ simg2img zeros f = Go (zeros 2048, 0) /\
    simg2img (fun n => replicate (Z.to_nat n) 255) f = Go (zeros 2048, -1).
Proof. eexists. split; [vm_compute; reflexivity|]. split; vm_compute; reflexivity. Qed.
