(* ===== verification/BackedBlock.v ===== *)
(** * Queue of data blocks (ext4_utils/backed_block.c)

    While a filesystem image is being laid out its data blocks are queued, in any
    order, on a singly linked list ordered by block number; the writer then walks
    the list.  The list lives in an explicit heap here, so that the pointer
    [last_used], from which most insertions start, really aliases a node of it.
    The heap operations are proved to implement insertion into a sorted list. *)

From stdpp Require Import base gmap list strings sorting.
From Stdlib Require Import ZArith Lia.
From S2P Require Import Prelude.
Open Scope Z_scope.

(** ** The list in memory *)

(** A null pointer is [None].  [data] is an address. *)
Record data_block := DataBlock {
  block : Z; db_len : Z; data : Z; filename : option string; offset : Z; next : option nat
}.

Definition set_next (d : data_block) (p : option nat) : data_block :=
  DataBlock (block d) (db_len d) (data d) (filename d) (offset d) p.

(** The variables of the file and the nodes malloc returned. *)
Record queue := Queue {
  heap : gmap nat data_block; data_blocks : option nat; last_used : option nat
}.

Definition empty_queue : queue := Queue ∅ None None.

(** The [for] loop that looks for the node to insert after.  [None]: a pointer
    that is not to a node is followed, or no fuel is left. *)
Fixpoint find_prev (fuel : nat) (h : gmap nat data_block) (db : nat) (b : Z) : option nat :=
  match fuel with
  | O => None
  | S fuel =>
      d ← h !! db;
      match next d with
      | None => Some db
      | Some n => nd ← h !! n; if block nd <? b then find_prev fuel h n b else Some db
      end
  end.

Definition queue_db (q : queue) (new_db : nat) : option queue :=
  new ← heap q !! new_db;
  match data_blocks q with
  | None => Some (Queue (heap q) (Some new_db) (last_used q))
  | Some first =>
      fd ← heap q !! first;
      if block new <? block fd then
        Some (Queue (<[new_db := set_next new (Some first)]> (heap q)) (Some new_db) (last_used q))
      else
        start ← match last_used q with
                | Some u => ud ← heap q !! u; Some (if block ud <? block new then u else first)
                | None => Some first
                end;
        db ← find_prev (size (heap q)) (heap q) start (block new);
        d ← heap q !! db;
        match next d with
        | None => Some (Queue (<[db := set_next d (Some new_db)]> (heap q))
                          (data_blocks q) (Some new_db))
        | Some n => Some (Queue (<[db := set_next d (Some new_db)]>
                                  (<[new_db := set_next new (Some n)]> (heap q)))
                            (data_blocks q) (Some new_db))
        end
  end.

(** [m] is what malloc returns: an address and the contents found there. *)
Definition queue_data_block (q : queue) (m : option (nat * data_block)) (errno : Z)
    (data len block : Z) : option (queue * Z) :=
  match m with
  | None => Some (q, errno)
  | Some (a, d) =>
      q ← queue_db (Queue (<[a := DataBlock block len data None (offset d) None]> (heap q))
                      (data_blocks q) (last_used q)) a;
      Some (q, 0)
  end.

Definition queue_data_file (q : queue) (m : option (nat * data_block)) (errno : Z)
    (filename : string) (offset len block : Z) : option (queue * Z) :=
  match m with
  | None => Some (q, errno)
  | Some (a, d) =>
      q ← queue_db (Queue (<[a := DataBlock block len (data d) (Some filename) offset None]> (heap q))
                      (data_blocks q) (last_used q)) a;
      Some (q, 0)
  end.

Fixpoint free_loop (fuel : nat) (h : gmap nat data_block) (db : option nat)
    : option (gmap nat data_block) :=
  match fuel with
  | O => None
  | S fuel =>
      match db with
      | None => Some h
      | Some a => d ← h !! a; free_loop fuel (delete a h) (next d)
      end
  end.

Definition free_data_blocks (q : queue) : option queue :=
  match data_blocks q with
  | None => Some q
  | Some _ => h ← free_loop (S (size (heap q))) (heap q) (data_blocks q);
              Some (Queue h None None)
  end.

Definition DIV_ROUND_UP (x y : Z) : Z := u32 (u32 (x + y) - 1) / y.

Section ForEach.
Context {S : Type} (block_size : Z).
Context (data_func : S -> Z -> Z -> Z -> option S)
        (file_func : S -> Z -> string -> Z -> Z -> option S).

(** The caller's state, the out-of-order errors and the progress reports. *)
Record each_state := EachState {
  out : S; errors : list (Z * Z); progress : list (Z * Z)
}.

Fixpoint count_blocks (fuel : nat) (h : gmap nat data_block) (db : option nat) (n : Z) : option Z :=
  match fuel with
  | O => None
  | Datatypes.S fuel =>
      match db with
      | None => Some n
      | Some a => d ← h !! a; count_blocks fuel h (next d) (u32 (n + 1))
      end
  end.

Definition each_step (d : data_block) (total_blocks last_block blocks_processed : Z)
    (s : each_state) : option (each_state * Z * Z) :=
  let errs := if block d <? last_block then errors s ++ [(block d, last_block)] else errors s in
  let last_block := u32 (u32 (block d + DIV_ROUND_UP (db_len d) block_size) - 1) in
  let off := u64 (block d * block_size) in
  o ← match filename d with
      | Some f => file_func (out s) off f (offset d) (db_len d)
      | None => data_func (out s) off (data d) (db_len d)
      end;
  let blocks_processed := u32 (blocks_processed + 1) in
  Some (EachState o errs (progress s ++ [(u32 (blocks_processed * 100), total_blocks)]),
        last_block, blocks_processed).

Fixpoint each_loop (fuel : nat) (h : gmap nat data_block) (db : option nat)
    (total_blocks last_block blocks_processed : Z) (s : each_state) : option each_state :=
  match fuel with
  | O => None
  | Datatypes.S fuel =>
      match db with
      | None => Some s
      | Some a =>
          d ← h !! a;
          '(s, last_block, blocks_processed) ←
            each_step d total_blocks last_block blocks_processed s;
          each_loop fuel h (next d) total_blocks last_block blocks_processed s
      end
  end.

Definition for_each_data_block (q : queue) (o : S) : option each_state :=
  total_blocks ← count_blocks (Datatypes.S (size (heap q))) (heap q) (data_blocks q) 0;
  each_loop (Datatypes.S (size (heap q))) (heap q) (data_blocks q) total_blocks 0 0
    (EachState o [] []).
End ForEach.
Arguments each_state : clear implicits.
Arguments EachState {S}.
Arguments out {S}.
Arguments errors {S}.
Arguments progress {S}.

(** ** What the heap represents *)

(** The nodes [l], with their addresses, follow each other in [h]; the [next]
    fields of the entries of [l] play no role. *)
Abbreviation node := (nat * data_block)%type.

Fixpoint linked (h : gmap nat data_block) (l : list node) : Prop :=
  match l with
  | [] => True
  | (a, d) :: l => h !! a = Some (set_next d (fst <$> head l)) /\ linked h l
  end.

Definition rep (q : queue) (l : list node) : Prop :=
  linked (heap q) l /\ NoDup l.*1 /\ dom (heap q) = list_to_set l.*1 /\
  data_blocks q = fst <$> head l /\ (forall a, last_used q = Some a -> a ∈ l.*1).

(** ** Insertion into a list *)

Definition before (x y : node) : Prop := block x.2 <= block y.2.

Fixpoint insert_after (new : node) (l : list node) : list node :=
  match l with
  | [] => [new]
  | x :: l => if block x.2 <? block new.2 then x :: insert_after new l else new :: x :: l
  end.

Definition enqueue (new : node) (l : list node) : list node :=
  match l with
  | [] => [new]
  | x :: l' => if block new.2 <? block x.2 then new :: l else x :: insert_after new l'
  end.

Lemma insert_after_perm new l : insert_after new l ≡ₚ new :: l.
Proof.
  induction l as [|x l IH]; cbn; [done|]. destruct (_ <? _); [|done]. rewrite IH. constructor.
Qed.

Lemma enqueue_perm new l : enqueue new l ≡ₚ new :: l.
Proof.
  destruct l as [|x l]; cbn; [done|]. destruct (_ <? _); [done|].
  rewrite insert_after_perm. constructor.
Qed.

Lemma insert_after_sorted new l :
  StronglySorted before l -> StronglySorted before (insert_after new l).
Proof.
  induction 1 as [|x l Hl IH Hx]; cbn [insert_after]; [repeat constructor|].
  destruct (Z.ltb_spec (block x.2) (block new.2)) as [Hlt|Hge].
  - constructor; [done|]. rewrite insert_after_perm. constructor; [unfold before; lia | done].
  - repeat constructor; [done | done | unfold before; lia |].
    eapply Forall_impl; [exact Hx|]. unfold before. intros y. lia.
Qed.

Lemma enqueue_sorted new l : StronglySorted before l -> StronglySorted before (enqueue new l).
Proof.
  intros Hl. destruct Hl as [|x l Hl Hx]; cbn [enqueue]; [repeat constructor|].
  destruct (Z.ltb_spec (block new.2) (block x.2)) as [Hlt|Hge].
  - repeat constructor; [done | done | unfold before; lia |].
    eapply Forall_impl; [exact Hx|]. unfold before. intros y. lia.
  - constructor; [by apply insert_after_sorted|].
    rewrite insert_after_perm. constructor; [unfold before; lia | done].
Qed.

(** Nodes with a smaller block number may be skipped. *)
Lemma insert_after_app new p l : Forall (fun x => block x.2 < block new.2) p ->
  insert_after new (p ++ l) = p ++ insert_after new l.
Proof.
  induction 1 as [|x p Hx _ IH]; cbn; [done|].
  destruct (Z.ltb_spec (block x.2) (block new.2)); [by rewrite IH | lia].
Qed.

(** ** Lists in the heap *)

Lemma linked_frame h l a d : linked h l -> a ∉ l.*1 -> linked (<[a := d]> h) l.
Proof.
  induction l as [|[b e] l IH]; cbn; [done|]. intros [Hb Hl] [Hab Ha]%not_elem_of_cons.
  rewrite lookup_insert_ne by done. auto.
Qed.

Lemma linked_app_r h l1 l2 : linked h (l1 ++ l2) -> linked h l2.
Proof. induction l1 as [|[a d] l1 IH]; cbn; [done|]. intros [_ H]. auto. Qed.

Lemma linked_lookup h l a : linked h l -> a ∈ l.*1 -> is_Some (h !! a).
Proof.
  induction l as [|[b d] l IH]; cbn; [by intros _ ?%elem_of_nil|].
  intros [Hb Hl] [-> | Ha]%elem_of_cons; [by rewrite Hb | auto].
Qed.

Lemma linked_size h l : linked h l -> NoDup l.*1 -> (length l <= size h)%nat.
Proof.
  intros Hl Hn. rewrite <- (length_map fst l). change (map fst l) with (l.*1).
  rewrite <- (size_list_to_set (C := gset nat)) by done. rewrite <- size_dom.
  apply subseteq_size. intros a Ha%elem_of_list_to_set.
  apply elem_of_dom. by eapply linked_lookup.
Qed.

Lemma head_app_cons (l1 : list node) x l2 l3 :
  fst <$> head (l1 ++ x :: l2) = fst <$> head (l1 ++ x :: l3).
Proof. by destruct l1. Qed.

(** Linking a node in after [a]. *)
Lemma linked_insert h l1 a d n nd l2 :
  linked h (l1 ++ (a, d) :: l2) -> NoDup (l1 ++ (a, d) :: l2).*1 ->
  n ∉ (l1 ++ (a, d) :: l2).*1 ->
  linked (<[a := set_next d (Some n)]> (<[n := set_next nd (fst <$> head l2)]> h))
    (l1 ++ (a, d) :: (n, nd) :: l2).
Proof.
  induction l1 as [|[b e] l1 IH]; cbn [app linked fmap list_fmap fst].
  - intros [Ha Hl] [Hna Hnd]%NoDup_cons [Hne Hn]%not_elem_of_cons.
    cbn [head fmap option_fmap option_map fst]. rewrite lookup_insert_eq.
    rewrite lookup_insert_ne by done. rewrite lookup_insert_eq.
    split; [done|]. split; [done|]. by apply linked_frame; [apply linked_frame|].
  - intros [Hb Hl] [Hnb Hnd]%NoDup_cons [Hne Hn]%not_elem_of_cons.
    assert (b <> a).
    { intros ->. apply Hnb. rewrite fmap_app. apply elem_of_app. right. left. }
    rewrite !lookup_insert_ne by done. rewrite Hb, (head_app_cons l1 _ l2 ((n, nd) :: l2)).
    auto.
Qed.

(** Searching from a node finds the insertion point of [insert_after]. *)
Lemma find_prev_ok fuel h a d l (new : node) : linked h ((a, d) :: l) -> (length l < fuel)%nat ->
  exists p b e s, (a, d) :: l = p ++ (b, e) :: s /\ find_prev fuel h a (block new.2) = Some b /\
    (a, d) :: insert_after new l = p ++ (b, e) :: new :: s.
Proof.
  revert a d l. induction fuel as [|fuel IH]; intros a d l Hl Hf; [lia|].
  cbn [find_prev]. destruct Hl as [-> Hl]. cbn [mbind option_bind next set_next].
  destruct l as [|[c e] l]; cbn [head fmap option_fmap option_map fst insert_after].
  { exists [], a, d, []. done. }
  destruct Hl as [Hc Hl]. rewrite Hc. cbn [mbind option_bind block set_next snd].
  destruct (_ <? _).
  - destruct (IH c e l) as (p & b & f & s & Hs & -> & Hi); [done | cbn in Hf; lia |].
    exists ((a, d) :: p), b, f, s. rewrite Hs, Hi. done.
  - exists [], a, d, ((c, e) :: l). done.
Qed.

(** Starting the search at any node with a smaller block number gives the
    same list as starting it at the first node. *)
Lemma enqueue_from l1 u l2 new : StronglySorted before (l1 ++ u :: l2) ->
  block u.2 < block new.2 -> enqueue new (l1 ++ u :: l2) = l1 ++ u :: insert_after new l2.
Proof.
  intros Hs Hu. destruct l1 as [|x l1]; cbn [app enqueue] in *.
  { by destruct (Z.ltb_spec (block new.2) (block u.2)); [lia|]. }
  assert (Forall (fun x => block x.2 < block new.2) (x :: l1)) as Hlt.
  { change (x :: l1 ++ u :: l2) with ((x :: l1) ++ u :: l2) in Hs.
    apply StronglySorted_app in Hs as (Hb & _ & _). apply Forall_forall. intros y Hy.
    specialize (Hb y u Hy ltac:(left)). unfold before in Hb. lia. }
  apply Forall_cons in Hlt as [Hx Hlt].
  destruct (Z.ltb_spec (block new.2) (block x.2)); [lia|].
  rewrite insert_after_app by done. cbn [insert_after].
  by rewrite (proj2 (Z.ltb_lt _ _) Hu).
Qed.

Lemma elem_of_split_fst (l : list node) a : a ∈ l.*1 -> exists l1 d l2, l = l1 ++ (a, d) :: l2.
Proof.
  intros ([? d] & -> & Hin)%list_elem_of_fmap. apply list_elem_of_split in Hin as (l1 & l2 & ->).
  by exists l1, d, l2.
Qed.

Lemma linked_mid h l1 a d l2 : linked h (l1 ++ (a, d) :: l2) ->
  h !! a = Some (set_next d (fst <$> head l2)).
Proof. intros [? _]%linked_app_r. done. Qed.

(** The node the search starts from. *)
Definition start_of (q : queue) (first : nat) (b : Z) : option nat :=
  match last_used q with
  | Some u => ud ← heap q !! u; Some (if block ud <? b then u else first)
  | None => Some first
  end.

Lemma start_of_ok q l first fd l' new : linked (heap q) l -> StronglySorted before l ->
  (forall a, last_used q = Some a -> a ∈ l.*1) -> l = (first, fd) :: l' ->
  block fd <= block new.2 ->
  exists l1 a d l2, start_of q first (block new.2) = Some a /\ l = l1 ++ (a, d) :: l2 /\
    enqueue new l = l1 ++ (a, d) :: insert_after new l2.
Proof.
  intros Hl Hs Hu He Hb.
  assert (enqueue new l = (first, fd) :: insert_after new l') as Hfirst.
  { subst l. cbn. by destruct (Z.ltb_spec (block new.2) (block fd)); [lia|]. }
  unfold start_of. destruct (last_used q) as [u|]; [|by exists [], first, fd, l'].
  destruct (elem_of_split_fst l u (Hu u eq_refl)) as (l1 & d & l2 & Hl12).
  rewrite Hl12 in Hl. rewrite (linked_mid _ _ _ _ _ Hl). cbn [mbind option_bind block set_next].
  destruct (Z.ltb_spec (block d) (block new.2)); [|by exists [], first, fd, l'].
  exists l1, u, d, l2. rewrite Hl12 in Hs |- *. by rewrite enqueue_from.
Qed.

(** Linking in after the node the search finds. *)
Lemma link_new h l1 b e n nd s : linked h (l1 ++ (b, e) :: s) -> NoDup (l1 ++ (b, e) :: s).*1 ->
  n ∉ (l1 ++ (b, e) :: s).*1 -> h !! n = Some (set_next nd None) ->
  exists h', (d ← h !! b;
     match next d with
     | None => Some (<[b := set_next d (Some n)]> h)
     | Some m => Some (<[b := set_next d (Some n)]> (<[n := set_next nd (Some m)]> h))
     end) = Some h' /\ linked h' (l1 ++ (b, e) :: (n, nd) :: s) /\ dom h' = dom h.
Proof.
  intros Hl Hnd Hn Hh. pose proof (linked_insert h l1 b e n nd s Hl Hnd Hn) as Hins.
  rewrite (linked_mid _ _ _ _ _ Hl). cbn [mbind option_bind next set_next].
  assert (b <> n) by (intros ->; apply Hn; rewrite fmap_app; apply elem_of_app; right; left).
  assert (is_Some (h !! b)) by (rewrite (linked_mid _ _ _ _ _ Hl); done).
  destruct (fst <$> head s) as [m|] eqn:Hm; (eexists; split; [reflexivity|]).
  - split; [done|]. rewrite !dom_insert_lookup_L; [done | done |].
    by rewrite lookup_insert_ne.
  - rewrite insert_id with (i := n) in Hins by done.
    split; [done|]. by rewrite dom_insert_lookup_L.
Qed.

(** The heap after malloc and the assignments to the fields of the new node. *)
Definition with_node (q : queue) (n : nat) (nd : data_block) : queue :=
  Queue (<[n := set_next nd None]> (heap q)) (data_blocks q) (last_used q).

Lemma rep_fresh q l n : rep q l -> heap q !! n = None -> n ∉ l.*1.
Proof.
  intros (Hl & _) Hn Hin. destruct (linked_lookup _ _ _ Hl Hin) as [d Hd]. by rewrite Hn in Hd.
Qed.

Lemma rep_enqueued q l n nd h' : rep q l -> heap q !! n = None ->
  linked h' (enqueue (n, nd) l) -> dom h' = {[n]} ∪ dom (heap q) ->
  forall db u, db = fst <$> head (enqueue (n, nd) l) -> (u = last_used q \/ u = Some n) ->
  rep (Queue h' db u) (enqueue (n, nd) l).
Proof.
  intros Hr Hn Hl Hd db u -> Hu. pose proof (rep_fresh q l n Hr Hn) as Hfresh.
  destruct Hr as (_ & Hnd & Hdom & _ & Hlu).
  repeat split; cbn [heap data_blocks last_used]; [done | | |].
  - rewrite enqueue_perm. cbn. by constructor.
  - rewrite Hd, Hdom. rewrite enqueue_perm. done.
  - intros a Ha. rewrite enqueue_perm. cbn.
    destruct Hu as [-> | ->]; [right; auto | injection Ha as <-; left].
Qed.

Lemma queue_db_ok q l n nd : rep q l -> StronglySorted before l -> heap q !! n = None ->
  exists q', queue_db (with_node q n nd) n = Some q' /\ rep q' (enqueue (n, nd) l).
Proof.
  intros Hr Hs Hn. pose proof (rep_fresh q l n Hr Hn) as Hfresh.
  pose proof (fun h' => rep_enqueued q l n nd h' Hr Hn) as Hre. destruct Hr as (Hl & Hnd & Hdom & Hdb & Hlu).
  assert (linked (heap (with_node q n nd)) l) as Hl' by by apply linked_frame.
  assert (heap (with_node q n nd) !! n = Some (set_next nd None)) as Hn' by apply lookup_insert_eq.
  assert (dom (heap (with_node q n nd)) = {[n]} ∪ dom (heap q)) as Hd' by apply dom_insert_L.
  unfold queue_db. rewrite Hn'. cbn [mbind option_bind data_blocks with_node last_used].
  rewrite Hdb. destruct l as [|[first fd] l']; cbn [head fmap option_fmap option_map fst].
  { eexists. split; [done|]. by apply Hre; [..|left]. }
  rewrite (proj1 Hl'). cbn [mbind option_bind block set_next].
  destruct (Z.ltb_spec (block nd) (block fd)) as [Hlt|Hge].
  - eexists. split; [done|]. cbn [enqueue snd] in *.
    rewrite (proj2 (Z.ltb_lt _ _) Hlt) in *. apply Hre; [| | done | by left].
    + cbn [linked head fmap option_fmap option_map fst]. rewrite lookup_insert_eq. split; [done|].
      by apply (linked_frame _ ((first, fd) :: l')).
    + by rewrite dom_insert_lookup_L.
  - destruct (start_of_ok (with_node q n nd) _ first fd l' (n, nd) Hl' Hs Hlu eq_refl Hge)
      as (l1 & a & d & l2 & Hst & Hsplit & Henq).
    unfold start_of in Hst. cbn [last_used with_node snd] in Hst. rewrite Hst.
    cbn [mbind option_bind]. rewrite Hsplit in Hl', Hnd, Hfresh.
    pose proof (linked_size _ _ Hl' Hnd) as Hsz. rewrite length_app in Hsz.
    destruct (find_prev_ok (size (heap (with_node q n nd))) (heap (with_node q n nd)) a d l2 (n, nd))
      as (p & b & e & s & Hp & Hf & Hi); [by eapply linked_app_r | cbn in *; lia |].
    cbn [snd] in Hf. rewrite Hf. cbn [mbind option_bind].
    rewrite Hp, app_assoc in Hl', Hnd, Hfresh. rewrite Hi, app_assoc in Henq.
    destruct (link_new _ _ _ _ n nd _ Hl' Hnd Hfresh Hn') as (h' & Hh' & Hlk & Hdm).
    exists (Queue h' (Some first) (Some n)). split.
    + destruct (heap (with_node q n nd) !! b) as [db|]; [|done]. cbn [mbind option_bind] in *.
      destruct (next db); by injection Hh' as <-.
    + apply Hre; [by rewrite Henq | by rewrite Hdm | | by right].
      cbn [enqueue snd]. by destruct (Z.ltb_spec (block nd) (block fd)); [lia|].
Qed.

(** ** Sequences of requests *)

(** A call of queue_data_block or queue_data_file, with what malloc returned for
    it and the errno of a failed malloc. *)
Inductive request :=
  | ReqData (m : option (nat * data_block)) (errno data len block : Z)
  | ReqFile (m : option (nat * data_block)) (errno : Z) (filename : string) (offset len block : Z).

Definition serve (q : queue) (r : request) : option (queue * Z) :=
  match r with
  | ReqData m errno data len block => queue_data_block q m errno data len block
  | ReqFile m errno f off len block => queue_data_file q m errno f off len block
  end.

Fixpoint serve_all (q : queue) (rs : list request) : option (queue * list Z) :=
  match rs with
  | [] => Some (q, [])
  | r :: rs => '(q, ret) ← serve q r; '(q, rets) ← serve_all q rs; Some (q, ret :: rets)
  end.

(** The node a request adds, if its malloc succeeds. *)
Definition request_node (r : request) : option node :=
  match r with
  | ReqData (Some (a, d)) _ data len block =>
      Some (a, DataBlock block len data None (offset d) None)
  | ReqFile (Some (a, d)) _ f off len block =>
      Some (a, DataBlock block len (data d) (Some f) off None)
  | _ => None
  end.

Definition request_ret (r : request) : Z :=
  match r with
  | ReqData (Some _) _ _ _ _ | ReqFile (Some _) _ _ _ _ _ => 0
  | ReqData None errno _ _ _ | ReqFile None errno _ _ _ _ => errno
  end.

Lemma serve_eq q r : serve q r =
  match request_node r with
  | None => Some (q, request_ret r)
  | Some (a, d) => q' ← queue_db (with_node q a d) a; Some (q', 0)
  end.
Proof. by destruct r as [[[]|]|[[]|]]. Qed.

Lemma request_ret_node r x : request_node r = Some x -> request_ret r = 0.
Proof. by destruct r as [[[]|]|[[]|]]. Qed.

Lemma rep_lookup_None q l a : rep q l -> a ∉ l.*1 -> heap q !! a = None.
Proof.
  intros (_ & _ & Hdom & _) Ha. apply not_elem_of_dom. rewrite Hdom.
  by rewrite elem_of_list_to_set.
Qed.

Lemma serve_all_ok rs q l : rep q l -> StronglySorted before l ->
  NoDup (omap request_node rs).*1 -> (forall a, a ∈ (omap request_node rs).*1 -> a ∉ l.*1) ->
  exists q' l', serve_all q rs = Some (q', request_ret <$> rs) /\ rep q' l' /\
    StronglySorted before l' /\ l' ≡ₚ omap request_node rs ++ l.
Proof.
  revert q l. induction rs as [|r rs IH]; intros q l Hr Hs Hnd Hdisj; cbn [serve_all].
  { by exists q, l. }
  rewrite serve_eq. cbn [omap list_omap] in *. pose proof (request_ret_node r) as Hret.
  destruct (request_node r) as [[a d]|] eqn:Hn; cbn in *.
  - apply NoDup_cons in Hnd as [Ha Hnd].
    destruct (queue_db_ok q l a d Hr Hs) as (q1 & -> & Hr1).
    { eapply rep_lookup_None; [done|]. apply Hdisj. left. }
    destruct (IH q1 (enqueue (a, d) l)) as (q2 & l2 & Hq2 & Hr2 & Hs2 & Hp); [done | | done | |].
    { by apply enqueue_sorted. }
    { intros b Hb. rewrite enqueue_perm. cbn. intros [-> | Hin]%elem_of_cons; [done|].
      apply (Hdisj b); [by right | done]. }
    exists q2, l2. cbn. rewrite Hq2. cbn. rewrite (Hret _ eq_refl). split; [done|].
    split; [done|]. split; [done|]. rewrite Hp, enqueue_perm. by rewrite Permutation_middle.
  - destruct (IH q l) as (q2 & l2 & Hq2 & Hrest); [done..|].
    exists q2, l2. cbn. by rewrite Hq2.
Qed.

Lemma rep_empty : rep empty_queue [].
Proof. by repeat split; [constructor|]. Qed.

(** ** Walking and freeing the list *)

Lemma free_loop_ok fuel h l : linked h l -> NoDup l.*1 -> dom h = list_to_set l.*1 ->
  (length l < fuel)%nat -> free_loop fuel h (fst <$> head l) = Some ∅.
Proof.
  revert h l. induction fuel as [|fuel IH]; intros h l Hl Hnd Hdom Hf; [lia|].
  destruct l as [|[a d] l]; cbn [head fmap option_fmap option_map fst free_loop].
  { f_equal. by apply dom_empty_inv_L. }
  destruct Hl as [-> Hl]. cbn [mbind option_bind next set_next].
  cbn in Hnd, Hdom. apply NoDup_cons in Hnd as [Ha Hnd].
  apply IH; [| done | | cbn in Hf; lia].
  - clear -Hl Ha. induction l as [|[b e] l IH]; [done|]. destruct Hl as [Hb Hl].
    apply not_elem_of_cons in Ha as [Hab Ha]. split; [by rewrite lookup_delete_ne | auto].
  - rewrite dom_delete_L, Hdom.
    assert (a ∉ (list_to_set l.*1 : gset nat)) by by rewrite elem_of_list_to_set.
    rewrite difference_union_distr_l_L, difference_diag_L, union_empty_l_L.
    by rewrite difference_disjoint_L by by apply disjoint_singleton_r.
Qed.

Lemma free_data_blocks_ok q l : rep q l -> free_data_blocks q = Some empty_queue.
Proof.
  intros (Hl & Hnd & Hdom & Hdb & Hlu). unfold free_data_blocks.
  destruct l as [|x l]; rewrite Hdb; cbn [head fmap option_fmap option_map].
  - destruct q as [h db [u|]]; cbn in *; [by destruct (elem_of_nil u) as [[] _]; apply Hlu|].
    by rewrite (dom_empty_inv_L _ Hdom), Hdb.
  - change (Some x.1) with (fst <$> head (x :: l)). pose proof (linked_size _ _ Hl Hnd).
    rewrite (free_loop_ok _ _ (x :: l)) by (done || lia). done.
Qed.

Lemma omap_length_le {A B} (f : A -> option B) (l : list A) : (length (omap f l) <= length l)%nat.
Proof. induction l as [|x l IH]; cbn; [done|]. destruct (f x); cbn; lia. Qed.

Section Visit.
Context {S : Type} (bs : Z) (df : S -> Z -> Z -> Z -> option S)
        (ff : S -> Z -> string -> Z -> Z -> option S).

(** The walk as a function of the queued blocks. *)
Fixpoint visit (l : list data_block) (total last processed : Z) (s : each_state S)
    : option (each_state S) :=
  match l with
  | [] => Some s
  | d :: l =>
      '(s, last, processed) ← each_step bs df ff d total last processed s;
      visit l total last processed s
  end.

Lemma count_blocks_ok fuel h l n : linked h l -> (length l < fuel)%nat -> is_u32 n ->
  n + Z.of_nat (length l) < 2 ^ 32 ->
  count_blocks fuel h (fst <$> head l) n = Some (n + Z.of_nat (length l)).
Proof.
  revert l n. induction fuel as [|fuel IH]; intros l n Hl Hf Hn Hmax; [lia|].
  destruct l as [|[a d] l]; cbn [head fmap option_fmap option_map fst count_blocks length].
  { f_equal. lia. }
  destruct Hl as [-> Hl]. cbn [mbind option_bind next set_next].
  cbn [length] in Hmax, Hf. unfold is_u32 in Hn. rewrite u32_id by (unfold is_u32; lia).
  rewrite IH by (done || lia || (unfold is_u32; lia)). f_equal. lia.
Qed.

Lemma each_loop_ok fuel h l total last processed s : linked h l -> (length l < fuel)%nat ->
  each_loop bs df ff fuel h (fst <$> head l) total last processed s =
  visit (snd <$> l) total last processed s.
Proof.
  revert l last processed s.
  induction fuel as [|fuel IH]; intros l last processed s Hl Hf; [lia|].
  destruct l as [|[a d] l]; [done|].
  cbn [head fmap option_fmap option_map fst each_loop list_fmap snd visit].
  destruct Hl as [-> Hl]. cbn [mbind option_bind].
  change (each_step bs df ff (set_next d (fst <$> head l)) total last processed s)
    with (each_step bs df ff d total last processed s).
  destruct (each_step _ _ _ _ _ _ _ _) as [[[s' last'] processed']|]; [|done].
  cbn [mbind option_bind next set_next]. apply IH; [done | cbn in Hf; lia].
Qed.

Lemma for_each_ok q l o : rep q l -> Z.of_nat (length l) < 2 ^ 32 ->
  for_each_data_block bs df ff q o =
  visit (snd <$> l) (Z.of_nat (length l)) 0 0 (EachState o [] []).
Proof.
  intros (Hl & Hnd & _ & Hdb & _) Hmax. pose proof (linked_size _ _ Hl Hnd).
  unfold for_each_data_block. rewrite Hdb, count_blocks_ok by (done || lia).
  cbn [mbind option_bind]. apply each_loop_ok; [done | lia].
Qed.
End Visit.

(** (C28) The queue is the sorted list it stands for.  Requests served in any
    order, starting the search at [last_used] where that applies, leave in the
    heap a linked list of exactly the requests whose malloc succeeded, in order
    of block number; each call returns 0, or errno when its malloc fails; walking
    the list calls the callbacks on the blocks in that order, for any callbacks;
    and freeing it gives back every node. *)
Theorem queue_keeps_block_order rs : NoDup (omap request_node rs).*1 ->
  Z.of_nat (length rs) < 2 ^ 32 ->
  exists q l, serve_all empty_queue rs = Some (q, request_ret <$> rs) /\
    rep q l /\ StronglySorted before l /\ l ≡ₚ omap request_node rs /\
    (forall (S : Type) bs df ff (o : S), for_each_data_block bs df ff q o =
       visit bs df ff (snd <$> l) (Z.of_nat (length l)) 0 0 (EachState o [] [])) /\
    free_data_blocks q = Some empty_queue.
Proof.
  intros Hnd Hlen.
  destruct (serve_all_ok rs empty_queue [] rep_empty ltac:(constructor) Hnd) as
    (q & l & Hq & Hr & Hs & Hp); [by intros ? _ ?%elem_of_nil|].
  rewrite app_nil_r in Hp. exists q, l. do 4 (split; [done|]). split.
  - intros. apply for_each_ok; [done|]. rewrite Hp.
    pose proof (omap_length_le request_node rs). lia.
  - by eapply free_data_blocks_ok.
Qed.

(** Three blocks queued out of order, the second malloc failing. *)
Definition sample_requests : list request :=
  let junk := DataBlock 0 0 0 None 0 None in
  [ReqData (Some (3%nat, junk)) 12 100 8 5; ReqData None 12 200 8 9;
   ReqFile (Some (1%nat, junk)) 12 "init" 0 8 7; ReqData (Some (2%nat, junk)) 12 300 8 6].

Lemma queue_keeps_block_order_witness : exists q l,
  serve_all empty_queue sample_requests = Some (q, [0; 12; 0; 0]) /\ rep q l /\
  (block ∘ snd <$> l) = [5; 6; 7].
Proof.
  destruct (queue_keeps_block_order sample_requests) as (q & l & Hq & Hr & Hs & Hp & _);
    [apply (bool_decide_unpack _); vm_compute; exact I | cbn; lia |].
  exists q, l. split; [exact Hq|]. split; [exact Hr|].
  injection Hq as <-. destruct Hr as (Hl & _ & _ & Hdb & _). cbn in Hdb.
  destruct l as [|[a d] l]; [done|]. injection Hdb as <-. destruct Hl as [Ha Hl].
  injection Ha as Hd1 ? ? ? ? Hn1. destruct l as [|[b e] l]; [done|]. injection Hn1 as <-.
  destruct Hl as [Hb Hl]. injection Hb as Hd2 ? ? ? ? Hn2. destruct l as [|[c f] l]; [done|].
  injection Hn2 as <-. destruct Hl as [Hc Hl]. injection Hc as Hd3 ? ? ? ? Hn3.
  destruct l; [|done]. cbn. by rewrite <- Hd1, <- Hd2, <- Hd3.
Defined.
