(* ===== verification/Ext4Image.v ===== *)
(** * Writing a filesystem image (ext4_utils/ext4_utils.c)

    Which block groups hold a backup superblock, and [write_ext4_image]: the
    superblock and the group descriptors, then the queued data blocks, then
    padding, through the writer of output_file.c.  The image theorem composes the
    queue, the writer and the expander. *)

From stdpp Require Import base gmap list strings sorting.
From Stdlib Require Import ZArith Lia.
From S2P Require Import Prelude SparseImage BackedBlock.
Open Scope Z_scope.

(** ** Backup superblocks *)

Fixpoint power_loop (fuel : nat) (a b : Z) : option Z :=
  match fuel with
  | O => None
  | S fuel =>
      if b <? a then if truthy (Z.rem a b) then Some 0 else power_loop fuel (Z.quot a b) b
      else Some (if a =? b then 1 else 0)
  end.

Definition is_power_of (a b : Z) : option Z := power_loop (S (Z.to_nat a)) a b.

Definition EXT4_FEATURE_RO_COMPAT_SPARSE_SUPER : Z := 0x0001.

Definition ext4_bg_has_super_block (feat_ro_compat bg : Z) : option Z :=
  if negb (truthy (Z.land feat_ro_compat EXT4_FEATURE_RO_COMPAT_SPARSE_SUPER)) then Some 1 else
  if (bg =? 0) || (bg =? 1) then Some 1 else
  p3 ← is_power_of bg 3;
  if truthy p3 then Some 1 else
  p5 ← is_power_of bg 5;
  if truthy p5 then Some 1 else
  p7 ← is_power_of bg 7;
  if truthy p7 then Some 1 else Some 0.

(** ** The image *)

(** The part of [aux_info] that is written. *)
Record fs_aux_info := FsAuxInfo {
  sb : list Z; bg_desc : list Z; bg_desc_blocks : Z; first_data_block : Z
}.

(** The first [n] bytes of a buffer; [None] when it is shorter. *)
Definition read_buf (buf : list Z) (n : Z) : option (list Z) :=
  if (0 <=? n) && (n <=? Z.of_nat (length buf)) then Some (take (Z.to_nat n) buf) else None.

Section WriteImage.
Context (gz_deflate : list Z -> list Z) (info : fs_info) (aux : fs_aux_info).

(** [mem a n]: the [n] bytes at address [a]; [files f off n]: what open and mmap
    yield for them. *)
Context (mem : Z -> Z -> list Z) (files : string -> Z -> Z -> option (option (list Z))).

(** The callbacks take [len] as an int. *)
Definition data_func (out : output_file) (off p n : Z) : option output_file :=
  if s32 n <? 0 then None else write_data_block info out off (mem p n).

Definition file_func (out : output_file) (off : Z) (f : string) (offset n : Z) : option output_file :=
  if s32 n <? 0 then None else fst <$> write_data_file info out off (files f offset n) n.

(** [u8 buf[4096]] with the superblock copied to offset 1024. *)
Definition sb_buf (sb : list Z) : list Z := zeros 1024 ++ sb ++ zeros 2048.

Definition write_super_block (out : output_file) : option output_file :=
  sb ← read_buf (sb aux) 1024;
  if 1024 <? block_size info then
    buf ← read_buf (sb_buf sb) (block_size info); write_data_block info out 0 buf
  else write_data_block info out 1024 sb.

(** The file left behind; [None]: memory is accessed out of bounds. *)
Definition write_ext4_image (q : queue) (mem_ok fd_ok gz_ok gz sparse : bool) (d : list Z)
    : option (option (list Z)) :=
  match open_output_file info mem_ok fd_ok gz_ok gz sparse d with
  | None => Some None
  | Some out =>
      out ← write_super_block out;
      desc ← read_buf (bg_desc aux) (s32 (bg_desc_blocks aux * block_size info));
      out ← write_data_block info out
              (u64 (u32 (first_data_block aux + 1) * block_size info)) desc;
      s ← for_each_data_block (block_size info) data_func file_func q out;
      out ← pad_output_file info (BackedBlock.out s) (len info);
      Some (Some (close_output_file gz_deflate info out))
  end.
End WriteImage.

(** ** Powers *)

Lemma power_loop_ok fuel a b : 1 < b -> 0 <= a < Z.of_nat fuel ->
  exists r, power_loop fuel a b = Some r /\ (r = 0 \/ r = 1) /\
    (r = 1 <-> exists n, 1 <= n /\ a = b ^ n).
Proof.
  intros Hb. revert a. induction fuel as [|fuel IH]; intros a Ha; [lia|]. cbn [power_loop].
  destruct (Z.ltb_spec b a) as [Hlt|Hge].
  - rewrite Z.rem_mod_nonneg, Z.quot_div_nonneg by lia. destruct (truthy (a mod b)) eqn:Ht.
    + apply truthy_true in Ht. exists 0. split; [done|]. split; [by left|]. split; [lia|].
      intros (n & Hn & ->). destruct Ht. replace n with (n - 1 + 1) by lia.
      rewrite Z.pow_add_r, Z.pow_1_r by lia. apply Z.mod_mul. lia.
    + apply truthy_false in Ht. apply Z.mod_divide in Ht as [q ->]; [|lia].
      rewrite Z.div_mul by lia. destruct (IH q) as (r & -> & Hr & Hiff); [nia|].
      exists r. split; [done|]. split; [done|]. rewrite Hiff. split.
      * intros (n & Hn & ->). exists (n + 1). split; [lia|].
        by rewrite Z.pow_add_r, Z.pow_1_r by lia.
      * intros (n & Hn & Hq). exists (n - 1).
        assert (q * b = b ^ (n - 1) * b) as Hq'.
        { rewrite Hq. replace n with (n - 1 + 1) at 1 by lia.
          by rewrite Z.pow_add_r, Z.pow_1_r by lia. }
        apply Z.mul_cancel_r in Hq'; [|lia]. split; [|done].
        destruct (Z.eq_dec n 1) as [-> | ]; [cbn in Hq'; nia | lia].
  - destruct (Z.eqb_spec a b) as [-> | Hne]; eexists; (split; [reflexivity|]);
      (split; [lia|]); split; try lia.
    + intros _. exists 1. by rewrite Z.pow_1_r.
    + intros (n & Hn & ->). exfalso.
      assert (b ^ 1 <= b ^ n) by (apply Z.pow_le_mono_r; lia). rewrite Z.pow_1_r in *. lia.
Qed.

Lemma is_power_of_ok a b : 1 < b -> 0 <= a -> exists r, is_power_of a b = Some r /\
  (truthy r = true <-> exists n, 1 <= n /\ a = b ^ n).
Proof.
  intros Hb Ha. destruct (power_loop_ok (S (Z.to_nat a)) a b) as (r & Hr & H01 & Hiff);
    [done | lia |].
  exists r. split; [done|]. rewrite truthy_true, <- Hiff. lia.
Qed.

(** With the sparse_super feature the block groups with a backup superblock
    are exactly 0, 1 and the powers of 3, 5 and 7; the loops always end. *)
Lemma ext4_bg_has_super_block_spec feat bg : 0 <= bg ->
  Z.odd feat = true ->
  exists r, ext4_bg_has_super_block feat bg = Some r /\ (r = 0 \/ r = 1) /\
    (r = 1 <-> bg = 0 \/ bg = 1 \/
      exists p n, (p = 3 \/ p = 5 \/ p = 7) /\ 1 <= n /\ bg = p ^ n).
Proof.
  intros Hbg Hf. unfold ext4_bg_has_super_block, EXT4_FEATURE_RO_COMPAT_SPARSE_SUPER.
  change 1 with (Z.ones 1) at 1. rewrite Z.land_ones, Z.pow_1_r, Zmod_odd, Hf by lia.
  cbn [truthy Z.eqb negb].
  destruct (Z.eqb_spec bg 0); [exists 1; cbn; naive_solver|].
  destruct (Z.eqb_spec bg 1); [exists 1; cbn; naive_solver|]. cbn [orb].
  destruct (is_power_of_ok bg 3) as (r3 & -> & H3); [lia | done |].
  destruct (is_power_of_ok bg 5) as (r5 & -> & H5); [lia | done |].
  destruct (is_power_of_ok bg 7) as (r7 & -> & H7); [lia | done |]. cbn [mbind option_bind].
  assert ((exists p n, (p = 3 \/ p = 5 \/ p = 7) /\ 1 <= n /\ bg = p ^ n) <->
    truthy r3 = true \/ truthy r5 = true \/ truthy r7 = true) as Hall.
  { rewrite H3, H5, H7. split.
    - intros (p & n' & [-> | [-> | ->]] & Hn); eauto.
    - intros [(n' & Hn) | [(n' & Hn) | (n' & Hn)]]; [exists 3 | exists 5 | exists 7]; eauto. }
  destruct (truthy r3); [exists 1; tauto|]. destruct (truthy r5); [exists 1; tauto|].
  destruct (truthy r7); [exists 1; tauto|]. exists 0. split; [done|]. split; [by left|].
  split; [done|]. intros [?|[?|[?|[?|?]]%Hall]]; done.
Qed.

(** ** What an image should hold *)

Section Layout.
Context (info : fs_info) (k : Z) (Hk : 0 <= k <= 30) (Hbs2 : block_size info = 2 ^ k).
Context (Hlen : len info mod block_size info = 0) (Hmax : len info / block_size info < 2 ^ 31).
Abbreviation bs := (block_size info).

(** Writes in ascending order that do not overlap in any block. *)
Fixpoint ascending (cur : Z) (ws : list (Z * list Z)) : Prop :=
  match ws with
  | [] => True
  | (off, d) :: ws => write_ok info cur off d /\
      ascending (off + round_up bs (Z.of_nat (length d))) ws
  end.

(** The bytes from [cur] to the end of the filesystem after such writes. *)
Fixpoint layout (cur : Z) (ws : list (Z * list Z)) : list Z :=
  match ws with
  | [] => zeros (len info - cur)
  | (off, d) :: ws => zeros (off - cur) ++ padded info d ++
      layout (off + round_up bs (Z.of_nat (length d))) ws
  end.

(** [img] holds the data of every write and zeroes everywhere else. *)
Definition holds (img : list Z) (ws : list (Z * list Z)) : Prop :=
  Z.of_nat (length img) = len info /\
  (forall off d (i : nat), (off, d) ∈ ws -> (i < length d)%nat ->
     img !! (Z.to_nat off + i)%nat = d !! i) /\
  (forall j : nat, Z.of_nat j < len info ->
     (forall off d, (off, d) ∈ ws -> ~ (off <= Z.of_nat j < off + Z.of_nat (length d))) ->
     img !! j = Some 0).

Lemma holds_perm img ws ws' : ws ≡ₚ ws' -> holds img ws -> holds img ws'.
Proof.
  intros Hp (Hl & Hd & Hz). split; [done|]. split.
  - intros off d i Hin. apply Hd. by rewrite Hp.
  - intros j Hj Hnot. apply Hz; [done|]. intros off d Hin. apply Hnot. by rewrite <- Hp.
Qed.

Lemma write_fits cur off d : write_ok info cur off d ->
  off + round_up bs (Z.of_nat (length d)) <= len info.
Proof. intros (_ & Ho & _ & _ & Hf). by eapply round_up_fits. Qed.

Lemma ascending_mono cur cur' ws : cur' <= cur -> ascending cur ws -> ascending cur' ws.
Proof.
  destruct ws as [|[off d] ws]; [done|]. intros Hle [(Hw & Hrest) Ha].
  split; [|done]. split; [lia | done].
Qed.

Lemma ascending_in cur ws off d : ascending cur ws -> (off, d) ∈ ws -> cur <= off.
Proof.
  revert cur. induction ws as [|[o e] ws IH]; intros cur; [by intros _ ?%elem_of_nil|].
  intros [Hw Ha] [[= -> ->] | Hin]%elem_of_cons; [apply Hw|].
  specialize (IH _ Ha Hin). destruct Hw as [Hw _].
  pose proof (round_up_bounds info k Hk Hbs2 (Z.of_nat (length e))). lia.
Qed.

Lemma layout_length cur ws : ascending cur ws -> cur <= len info ->
  Z.of_nat (length (layout cur ws)) = len info - cur.
Proof.
  revert cur. induction ws as [|[off d] ws IH]; intros cur Ha Hc; cbn [layout].
  - rewrite length_zeros. lia.
  - destruct Ha as [Hw Ha]. pose proof (write_fits _ _ _ Hw) as Hf.
    destruct Hw as [Hle _]. specialize (IH _ Ha Hf).
    pose proof (length_padded info k Hk Hbs2 d). rewrite !length_app, length_zeros. lia.
Qed.

(** An index past the data of the first write is an index into the rest. *)
Lemma layout_skip cur off d ws (j : nat) :
  off + round_up bs (Z.of_nat (length d)) - cur <= Z.of_nat j -> cur <= off ->
  layout cur ((off, d) :: ws) !! j =
  layout (off + round_up bs (Z.of_nat (length d))) ws
    !! Z.to_nat (Z.of_nat j + cur - (off + round_up bs (Z.of_nat (length d)))).
Proof.
  intros Hj Hc. cbn [layout]. pose proof (length_padded info k Hk Hbs2 d) as Hp.
  rewrite app_assoc, lookup_app_r by (rewrite length_app, length_zeros; lia).
  f_equal. rewrite length_app, length_zeros. lia.
Qed.

Lemma layout_data cur ws off d (i : nat) : ascending cur ws -> (off, d) ∈ ws ->
  (i < length d)%nat -> layout cur ws !! (Z.to_nat (off - cur) + i)%nat = d !! i.
Proof.
  revert cur. induction ws as [|[o e] ws IH]; intros cur; [by intros _ ?%elem_of_nil|].
  intros [Hw Ha] Hin Hi. destruct Hw as [Hw _]. apply elem_of_cons in Hin as [[= -> ->] | Hin].
  - cbn [layout]. unfold padded. rewrite lookup_app_r by (rewrite length_zeros; lia).
    rewrite length_zeros, <- app_assoc, lookup_app_l by lia. f_equal. lia.
  - pose proof (ascending_in _ _ _ _ Ha Hin).
    pose proof (round_up_bounds info k Hk Hbs2 (Z.of_nat (length e))).
    rewrite layout_skip by lia. rewrite <- (IH _ Ha Hin Hi). f_equal. lia.
Qed.

Lemma lookup_zeros_lt n (j : nat) : Z.of_nat j < n -> zeros n !! j = Some 0.
Proof. intros. apply lookup_replicate. split; [done | lia]. Qed.

Lemma layout_zero cur ws (j : nat) : ascending cur ws -> cur + Z.of_nat j < len info ->
  (forall off d, (off, d) ∈ ws -> ~ (off <= cur + Z.of_nat j < off + Z.of_nat (length d))) ->
  layout cur ws !! j = Some 0.
Proof.
  revert cur j. induction ws as [|[o e] ws IH]; intros cur j Ha Hj Hnot; cbn [layout].
  { apply lookup_zeros_lt. lia. }
  destruct Ha as [Hw Ha]. destruct Hw as [Hw _].
  pose proof (Hnot o e ltac:(left)) as Hne.
  pose proof (round_up_bounds info k Hk Hbs2 (Z.of_nat (length e))) as Hru.
  destruct (Z_lt_le_dec (cur + Z.of_nat j) o) as [Hlt|Hge].
  { rewrite lookup_app_l by (rewrite length_zeros; lia). apply lookup_zeros_lt. lia. }
  destruct (Z_lt_le_dec (cur + Z.of_nat j) (o + round_up bs (Z.of_nat (length e)))) as [Hlt|Hge2].
  - rewrite lookup_app_r, length_zeros by (rewrite length_zeros; lia). unfold padded.
    rewrite <- app_assoc, lookup_app_r by lia.
    rewrite lookup_app_l by (rewrite length_zeros; lia). apply lookup_zeros_lt. lia.
  - change (zeros (o - cur) ++ _) with (layout cur ((o, e) :: ws)).
    rewrite layout_skip by lia. apply IH; [done | lia |].
    intros off d Hin. specialize (Hnot off d ltac:(by right)). lia.
Qed.

Lemma layout_holds ws : 0 <= len info -> ascending 0 ws -> holds (layout 0 ws) ws.
Proof.
  intros H0 Ha. split; [|split].
  - rewrite layout_length by (done || lia). lia.
  - intros off d i Hin Hi. rewrite <- (layout_data 0 ws off d i) by done. do 2 f_equal. lia.
  - intros j Hj Hnot. apply layout_zero; [done | lia |]. intros off d Hin.
    rewrite Z.add_0_l. by apply Hnot.
Qed.

(** One write moves its part of the layout into the emitted image. *)
Lemma write_step cs off d : emitted_ok info cs ->
  write_ok info (Z.of_nat (length (image bs cs))) off d ->
  exists cs', write_data_block info (writer info cs) off d = Some (writer info cs') /\
    emitted_ok info cs' /\
    Z.of_nat (length (image bs cs')) = off + round_up bs (Z.of_nat (length d)) /\
    forall ws, image bs cs' ++ layout (Z.of_nat (length (image bs cs'))) ws =
      image bs cs ++ layout (Z.of_nat (length (image bs cs))) ((off, d) :: ws).
Proof.
  intros He Hw.
  destruct (write_data_block_ok info k Hk Hbs2 Hlen Hmax cs off d He Hw) as (cs' & Hc & He' & Hi).
  exists cs'. split; [done|]. split; [done|].
  assert (Z.of_nat (length (image bs cs')) = off + round_up bs (Z.of_nat (length d))) as Hl.
  { rewrite Hi, !length_app, length_zeros. pose proof (length_padded info k Hk Hbs2 d).
    destruct Hw as [Hw _]. lia. }
  split; [done|]. intros ws. by rewrite Hl, Hi, <- !app_assoc.
Qed.
End Layout.

(** ** The queued blocks are written where they belong *)

Section Blocks.
Context (info : fs_info) (k : Z) (Hk : 0 <= k <= 30) (Hbs2 : block_size info = 2 ^ k).
Context (Hlen : len info mod block_size info = 0) (Hmax : len info / block_size info < 2 ^ 31).
Context (mem : Z -> Z -> list Z) (files : string -> Z -> Z -> option (option (list Z))).
Abbreviation bs := (block_size info).

(** The bytes of a queued block. *)
Definition payload (d : data_block) : list Z :=
  match filename d with
  | None => mem (data d) (db_len d)
  | Some f => match files f (offset d) (db_len d) with Some (Some b) => b | _ => [] end
  end.

(** A block that can be written: it is not empty, its bytes can be read and it
    lies in the filesystem; a file has to end before the end of it. *)
Definition block_ok (d : data_block) : Prop :=
  0 <= block d /\ 0 < db_len d /\ db_len d + bs < 2 ^ 31 - 16 /\
  Z.of_nat (length (payload d)) = db_len d /\ block d * bs + db_len d <= len info /\
  (filename d <> None -> block d * bs + db_len d < len info).

Definition extent (d : data_block) : Z * list Z := (block d * bs, payload d).

Lemma payload_nonempty d : block_ok d -> payload d <> [].
Proof. intros (_ & Hpos & _ & Hl & _) E. rewrite E in Hl. cbn in Hl. lia. Qed.

Lemma block_off d : block_ok d -> u64 (block d * bs) = block d * bs.
Proof.
  intros (Hb & Hpos & _ & _ & Hfit & _). pose proof (bs_range info k Hk Hbs2).
  pose proof (len_bound info k Hk Hbs2 Hlen Hmax). apply u64_id. unfold is_u64. nia.
Qed.

(** Either callback writes the payload. *)
Lemma callback_ok cs d : block_ok d -> emitted_ok info cs ->
  Z.of_nat (length (image bs cs)) <= block d * bs ->
  exists cs',
    match filename d with
    | Some f => file_func info files (writer info cs) (block d * bs) f (offset d) (db_len d)
    | None => data_func info mem (writer info cs) (block d * bs) (data d) (db_len d)
    end = Some (writer info cs') /\ emitted_ok info cs' /\
    image bs cs' = image bs cs ++ zeros (block d * bs - Z.of_nat (length (image bs cs)))
                     ++ padded info (payload d).
Proof.
  intros Hok He Hle. pose proof (payload_nonempty d Hok) as Hne.
  destruct Hok as (Hb & Hpos & Hsz & Hl & Hfit & Hfile).
  pose proof (bs_range info k Hk Hbs2).
  assert (write_ok info (Z.of_nat (length (image bs cs))) (block d * bs) (payload d)) as Hw.
  { split; [done|]. split; [apply Z.mod_mul; lia|]. split; [done|]. rewrite Hl. done. }
  unfold data_func, file_func. rewrite s32_id by (unfold is_s32; lia).
  rewrite (proj2 (Z.ltb_ge _ _)) by lia. unfold payload in *.
  destruct (filename d) as [f|].
  - destruct (files f (offset d) (db_len d)) as [[b|]|]; [|cbn in Hl; lia..].
    destruct (write_data_file_ok info k Hk Hbs2 Hlen Hmax cs (block d * bs) b He Hw)
      as (cs' & Hc & Hrest); [rewrite Hl; by apply Hfile|].
    exists cs'. rewrite <- Hl, Hc. done.
  - by apply (write_data_block_ok info k Hk Hbs2 Hlen Hmax).
Qed.

(** The last block of a queued block, as for_each_data_block computes it. *)
Lemma last_block_ok d : block_ok d ->
  let last := u32 (u32 (block d + DIV_ROUND_UP (db_len d) bs) - 1) in
  (last + 1) * bs = block d * bs + round_up bs (db_len d).
Proof.
  intros (Hb & Hpos & Hsz & Hl & Hfit & _). pose proof (bs_range info k Hk Hbs2).
  pose proof (len_bound info k Hk Hbs2 Hlen Hmax) as [HL _].
  assert (block d * bs + round_up bs (db_len d) <= len info) as Hr.
  { eapply round_up_fits; [done.. | apply Z.mod_mul; lia | done]. }
  unfold DIV_ROUND_UP, round_up in *.
  rewrite (u32_id (db_len d + bs)), (u32_id (db_len d + bs - 1)) by (unfold is_u32; lia).
  replace (db_len d + bs - 1) with (db_len d + (bs - 1)) by lia.
  set (m := (db_len d + (bs - 1)) / bs) in *.
  assert (1 <= m) by (apply Z.div_le_lower_bound; lia).
  assert (block d + m < 2 ^ 31) by nia.
  rewrite !u32_id by (unfold is_u32; rewrite ?u32_id; unfold is_u32; lia). lia.
Qed.

Lemma visit_ok l cs total last processed errs prog : Forall block_ok l -> emitted_ok info cs ->
  ascending info (Z.of_nat (length (image bs cs))) (extent <$> l) ->
  last = 0 \/ (last + 1) * bs <= Z.of_nat (length (image bs cs)) ->
  exists cs' s', visit bs (data_func info mem) (file_func info files) l total last processed
      (EachState (writer info cs) errs prog) = Some s' /\
    out s' = writer info cs' /\ errors s' = errs /\ emitted_ok info cs' /\
    image bs cs' ++ zeros (len info - Z.of_nat (length (image bs cs'))) =
    image bs cs ++ layout info (Z.of_nat (length (image bs cs))) (extent <$> l).
Proof.
  intros Hl. revert cs last processed prog.
  induction Hl as [|d l Hd Hl IH]; intros cs last processed prog He Ha Hlast.
  { eexists cs, _. split; [reflexivity|]. done. }
  cbn [fmap list_fmap] in Ha. destruct Ha as [Hw Ha]. cbn [visit]. unfold each_step.
  cbn [out errors progress]. rewrite block_off by done.
  pose proof (bs_range info k Hk Hbs2). pose proof (proj1 Hw) as Hle. pose proof Hd as (Hb & _).
  destruct (callback_ok cs d Hd He Hle) as (cs1 & -> & He1 & Hi1).
  rewrite (proj2 (Z.ltb_ge _ _)) by nia. cbn [mbind option_bind].
  assert (Z.of_nat (length (image bs cs1)) =
    block d * bs + round_up bs (Z.of_nat (length (payload d)))) as Hlen1.
  { rewrite Hi1, !length_app, length_zeros. pose proof (length_padded info k Hk Hbs2 (payload d)). lia. }
  destruct (IH cs1 (u32 (u32 (block d + DIV_ROUND_UP (db_len d) bs) - 1)) (u32 (processed + 1))
    (prog ++ [(u32 (u32 (processed + 1) * 100), total)])) as (cs' & s' & Hv & Ho & Herr & He' & Hi').
  - done.
  - by rewrite Hlen1.
  - right. rewrite Hlen1, (last_block_ok d Hd). destruct Hd as (_ & _ & _ & -> & _). lia.
  - exists cs', s'. split; [done|]. do 3 (split; [done|]).
    rewrite Hi', Hlen1, Hi1, <- !app_assoc. done.
Qed.
End Blocks.

(** ** The image theorem *)

Section ForallOrdPairs.
Context {A : Type} (R : A -> A -> Prop) (HR : forall x y, R x y -> R y x).

Lemma ForallOrdPairs_perm l1 l2 : l1 ≡ₚ l2 -> ForallOrdPairs R l1 -> ForallOrdPairs R l2.
Proof.
  induction 1 as [|x l1 l2 Hp IH|x y l|l1 l2 l3 _ IH1 _ IH2]; [done | | | auto].
  - inversion_clear 1 as [|? ? Hx Hl]. constructor; [by rewrite <- Hp | auto].
  - inversion_clear 1 as [|? ? Hy Hl]. inversion_clear Hl as [|? ? Hx Hl'].
    apply Forall_cons in Hy as [Hyx Hy]. repeat constructor; auto.
Qed.
End ForallOrdPairs.

Section Image.
Context (gz_deflate : list Z -> list Z) (info : fs_info) (aux : fs_aux_info).
Context (mem : Z -> Z -> list Z) (files : string -> Z -> Z -> option (option (list Z))).
Abbreviation bs := (block_size info).

(** No block belongs to both. *)
Definition apart (d e : data_block) : Prop :=
  block d * bs + round_up bs (db_len d) <= block e * bs \/
  block e * bs + round_up bs (db_len e) <= block d * bs.

Lemma ascending_sorted k l cur : 0 <= k <= 30 -> bs = 2 ^ k ->
  StronglySorted (fun d e => block d <= block e) l -> Forall (block_ok info mem files) l ->
  ForallOrdPairs apart l -> Forall (fun d => cur <= block d * bs) l ->
  ascending info cur (extent info mem files <$> l).
Proof.
  intros Hk Hbs2 Hs. pose proof (bs_range info k Hk Hbs2). revert cur.
  induction Hs as [|d l Hs IH Hd]; intros cur Hok Hap Hcur; [done|].
  apply Forall_cons in Hok as [Hdok Hok], Hcur as [Hc _]. inversion_clear Hap as [|? ? Ha Hap'].
  cbn [fmap list_fmap ascending extent]. split.
  - assert (payload mem files d <> []) by by eapply payload_nonempty.
    destruct Hdok as (? & ? & ? & Hl & ? & ?).
    split; [done|]. split; [apply Z.mod_mul; lia|]. rewrite Hl. done.
  - apply IH; [done | done |]. apply Forall_forall. intros e He.
    rewrite Forall_forall in Ha, Hd, Hok. specialize (Ha e He). specialize (Hd e He).
    specialize (Hok e He). destruct Hdok as (_ & _ & _ & -> & _), Hok as (_ & ? & _).
    pose proof (round_up_bounds info k Hk Hbs2 (db_len e)).
    destruct Ha; [done | nia].
Qed.

(** The first block after the group descriptors. *)
Definition data_start : Z := first_data_block aux + 1 + bg_desc_blocks aux.

(** Parameters and requests the image builder may produce. *)
Record image_ok (rs : list request) : Prop := {
  io_bs : bs = 1024 \/ bs = 2048 \/ bs = 4096;
  io_len : len info mod bs = 0;
  io_max : len info / bs < 2 ^ 31;
  io_sb : length (sb aux) = 1024%nat;
  io_desc : Z.of_nat (length (bg_desc aux)) = bg_desc_blocks aux * bs;
  io_desc_pos : 0 < bg_desc_blocks aux;
  io_desc_max : bg_desc_blocks aux * bs + bs < 2 ^ 31 - 16;
  io_first : first_data_block aux = if 1024 <? bs then 0 else 1;
  io_fits : data_start * bs <= len info;
  io_count : Z.of_nat (length rs) < 2 ^ 32;
  io_fresh : NoDup (omap request_node rs).*1;
  io_blocks : Forall (fun d => block_ok info mem files d /\ data_start <= block d)
                (omap request_node rs).*2;
  io_apart : ForallOrdPairs apart (omap request_node rs).*2
}.

Definition sb_write : Z * list Z :=
  if 1024 <? bs then (0, take (Z.to_nat bs) (sb_buf (sb aux))) else (1024, sb aux).

Definition desc_write : Z * list Z := ((first_data_block aux + 1) * bs, bg_desc aux).

Definition all_writes (rs : list request) : list (Z * list Z) :=
  sb_write :: desc_write :: (extent info mem files <$> (omap request_node rs).*2).

Lemma read_buf_all b n : Z.of_nat (length b) = n -> read_buf b n = Some b.
Proof.
  intros <-. unfold read_buf. rewrite (proj2 (Z.leb_le 0 _)), (proj2 (Z.leb_le _ _)) by lia.
  cbn. by rewrite Nat2Z.id, firstn_all.
Qed.

Section Writes.
Context (rs : list request) (Hio : image_ok rs).

Lemma io_pow : exists k, 0 <= k <= 30 /\ bs = 2 ^ k.
Proof. destruct (io_bs rs Hio) as [-> | [-> | ->]]; [exists 10 | exists 11 | exists 12]; lia. Qed.

Lemma write_super_block_eq o : write_super_block info aux o =
  write_data_block info o (fst sb_write) (snd sb_write).
Proof.
  unfold write_super_block, sb_write. pose proof (io_sb rs Hio) as Hsb.
  rewrite (read_buf_all (sb aux) 1024) by lia. cbn [mbind option_bind].
  destruct (1024 <? bs); [|done].
  assert (length (sb_buf (sb aux)) = 4096%nat) as Hb.
  { unfold sb_buf. rewrite !length_app, !length_zeros. lia. }
  unfold read_buf. rewrite Hb.
  rewrite (proj2 (Z.leb_le 0 _)), (proj2 (Z.leb_le _ _)) by (destruct (io_bs rs Hio) as [|[]]; lia).
  done.
Qed.

Lemma sb_write_end : let (off, d) := sb_write in
  0 <= off /\ off mod bs = 0 /\ d <> [] /\ Z.of_nat (length d) = bs /\
  off + bs = (first_data_block aux + 1) * bs.
Proof.
  pose proof (io_sb rs Hio) as Hsb. pose proof (io_first rs Hio) as ->. unfold sb_write.
  destruct (io_bs rs Hio) as [-> | [-> | ->]]; cbn [Z.ltb Z.compare Pos.compare Pos.compare_cont];
    rewrite ?length_take; unfold sb_buf; rewrite ?length_app, ?length_zeros;
    (repeat split; try lia; destruct (sb aux); done).
Qed.

Lemma desc_write_ok : write_ok info (fst sb_write + bs) (fst desc_write) (snd desc_write) /\
  fst desc_write + Z.of_nat (length (bg_desc aux)) = data_start * bs.
Proof.
  destruct io_pow as (k & Hk & Hbs2). pose proof (bs_range info k Hk Hbs2).
  pose proof sb_write_end as Hsw. destruct sb_write as [off d].
  destruct Hsw as (_ & _ & _ & _ & Hend). cbn [fst snd desc_write].
  pose proof (io_desc rs Hio) as Hd. pose proof (io_desc_pos rs Hio).
  pose proof (io_desc_max rs Hio). pose proof (io_fits rs Hio) as Hf. unfold data_start in *.
  split; [|lia]. split; [lia|]. split; [apply Z.mod_mul; lia|].
  split; [intros E; rewrite E in Hd; cbn in Hd; nia|]. lia.
Qed.

(** The queued nodes, in the order of the queue. *)
Context (l : list (nat * data_block)) (Hsorted : StronglySorted before l)
        (Hperm : l ≡ₚ omap request_node rs).

Lemma queued_ok : Forall (fun d => block_ok info mem files d /\ data_start <= block d) l.*2.
Proof. rewrite Hperm. apply (io_blocks rs Hio). Qed.

Lemma queued_ascending : ascending info (data_start * bs) (extent info mem files <$> l.*2).
Proof.
  destruct io_pow as (k & Hk & Hbs2). pose proof (bs_range info k Hk Hbs2).
  eapply ascending_sorted; [done | done | | | |].
  - clear -Hsorted. induction Hsorted as [|x l' Hs IH Hx]; cbn; [constructor|].
    constructor; [by apply IH|]. apply Forall_fmap. exact Hx.
  - eapply Forall_impl; [exact queued_ok | by intros ? []].
  - eapply ForallOrdPairs_perm; [| | apply (io_apart rs Hio)].
    + intros x y [? | ?]; [by right | by left].
    + by rewrite Hperm.
  - eapply Forall_impl; [exact queued_ok|]. intros d [_ Hd]. nia.
Qed.

Lemma round_up_mult n m : 0 < bs -> n = m * bs -> round_up bs n = n.
Proof.
  intros Hb ->. unfold round_up. f_equal.
  rewrite Z.div_add_l by lia. rewrite Z.div_small by lia. lia.
Qed.

Lemma writes_ascending : ascending info 0
  (sb_write :: desc_write :: (extent info mem files <$> l.*2)).
Proof.
  destruct io_pow as (k & Hk & Hbs2). pose proof (bs_range info k Hk Hbs2) as Hbs.
  pose proof sb_write_end as Hsw. pose proof desc_write_ok as [Hdw Hde].
  pose proof (io_desc rs Hio) as Hd. pose proof (io_desc_pos rs Hio). pose proof (io_fits rs Hio) as Hf.
  destruct sb_write as [off d]. destruct Hsw as (H0 & Hm & Hne & Hl & Hend).
  cbn [ascending desc_write fst snd] in *. rewrite Hl, (round_up_mult bs 1) by lia.
  rewrite Hd, (round_up_mult _ (bg_desc_blocks aux)) by lia. rewrite Hd in Hde.
  split; [|split; [done|]].
  - split; [done|]. split; [done|]. split; [done|]. rewrite Hl. split.
    + destruct (io_bs rs Hio) as [|[]]; lia.
    + unfold data_start in Hf. nia.
  - rewrite Hde. apply queued_ascending.
Qed.

Lemma desc_off : u64 (u32 (first_data_block aux + 1) * bs) = fst desc_write.
Proof.
  pose proof (io_first rs Hio) as ->. unfold desc_write. cbn [fst]. rewrite (io_first rs Hio).
  by destruct (io_bs rs Hio) as [-> | [-> | ->]].
Qed.

Lemma desc_read : read_buf (bg_desc aux) (s32 (bg_desc_blocks aux * bs)) = Some (snd desc_write).
Proof.
  destruct io_pow as (k & Hk & Hbs2). pose proof (bs_range info k Hk Hbs2).
  pose proof (io_desc_max rs Hio). pose proof (io_desc_pos rs Hio).
  rewrite s32_id by (unfold is_s32; nia). apply read_buf_all, (io_desc rs Hio).
Qed.

Lemma queued_count : Z.of_nat (length l) < 2 ^ 32.
Proof.
  rewrite Hperm. pose proof (omap_length_le request_node rs). pose proof (io_count rs Hio). lia.
Qed.

Lemma write_image_ok q : rep q l -> exists f,
  write_ext4_image gz_deflate info aux mem files q true true true false true [] = Some (Some f) /\
  simg2img zeros f = Go (layout info 0 (sb_write :: desc_write :: (extent info mem files <$> l.*2)), 0).
Proof.
  intros Hr. destruct io_pow as (k & Hk & Hbs2). pose proof (bs_range info k Hk Hbs2) as Hbs.
  pose proof (io_len rs Hio) as Hlen. pose proof (io_max rs Hio) as Hmax.
  pose proof (io_desc rs Hio) as Hd. pose proof (io_fits rs Hio) as Hfits.
  pose proof writes_ascending as Ha. destruct sb_write as [off1 d1] eqn:Hsb.
  destruct Ha as (Hw1 & Hw2 & Ha).
  assert (emitted_ok info []) as He0.
  { split; [done|]. cbn. pose proof (io_desc_pos rs Hio). unfold data_start in Hfits.
    rewrite (io_first rs Hio) in Hfits. destruct (1024 <? bs); nia. }
  destruct (write_step info k Hk Hbs2 Hlen Hmax [] _ _ He0 Hw1) as (c1 & Hc1 & He1 & Hl1 & Hi1).
  rewrite <- Hl1 in Hw2.
  destruct (write_step info k Hk Hbs2 Hlen Hmax c1 _ _ He1 Hw2) as (c2 & Hc2 & He2 & Hl2 & Hi2).
  rewrite <- Hl2 in Ha.
  destruct (visit_ok info k Hk Hbs2 Hlen Hmax mem files l.*2 c2 (Z.of_nat (length l)) 0 0 [] [])
    as (c3 & s3 & Hv & Ho & _ & He3 & Hi3); [| done | done | by left |].
  { eapply Forall_impl; [exact queued_ok | by intros ? []]. }
  destruct (finish_ok info k Hk Hbs2 Hlen Hmax gz_deflate c3 He3) as (o & Hpad & Hx).
  exists (close_output_file gz_deflate info o). rewrite Hx. split.
  - unfold write_ext4_image. rewrite open_output_file_ok, write_super_block_eq, Hsb. cbn [fst snd]. rewrite Hc1.
    cbn [mbind option_bind]. rewrite desc_read. cbn [mbind option_bind].
    rewrite desc_off. cbn [desc_write fst snd]. rewrite Hc2. cbn [mbind option_bind].
    rewrite (for_each_ok bs _ _ q l) by (done || apply queued_count).
    rewrite Hv. cbn [mbind option_bind]. by rewrite Ho, Hpad.
  - rewrite Hi3. change (layout info 0 ?w) with (image bs [] ++ layout info (Z.of_nat (length (image bs []))) w).
    by rewrite <- Hi1, <- Hi2.
Qed.
End Writes.

End Image.

(** A filesystem of eight blocks of 1 KiB; a block from memory and one from a file
    are queued in descending order. *)
Definition sample_info : fs_info := FsInfo 1024 8192.
Definition sample_aux : fs_aux_info :=
  FsAuxInfo (replicate 1024 83) (replicate 1024 68) 1 1.
Definition sample_mem (a n : Z) : list Z := replicate (Z.to_nat n) (a mod 256).
Definition sample_files (f : string) (off n : Z) : option (option (list Z)) :=
  Some (Some (replicate (Z.to_nat n) (off mod 256))).
Definition image_requests : list request :=
  let junk := DataBlock 0 0 0 None 0 None in
  [ReqData (Some (0%nat, junk)) 12 7 1500 5; ReqFile (Some (1%nat, junk)) 12 "init" 9 100 4].

Lemma sample_writes : all_writes sample_info sample_aux sample_mem sample_files image_requests =
  [(1024, replicate 1024 83); (2048, replicate 1024 68);
   (5120, replicate 1500 7); (4096, replicate 100 9)].
Proof. vm_compute. reflexivity. Qed.

Lemma sample_ok : image_ok sample_info sample_aux sample_mem sample_files image_requests.
Proof.
  split.
  - by left.
  - by vm_compute.
  - by vm_compute.
  - by vm_compute.
  - by vm_compute.
  - by vm_compute.
  - by vm_compute.
  - by vm_compute.
  - by vm_compute.
  - by vm_compute.
  - apply (bool_decide_unpack _). vm_compute. exact I.
  - repeat constructor; try (vm_compute; congruence).
  - constructor; [constructor; [right; vm_compute; discriminate | constructor]|].
    repeat constructor.
Qed.

