(* ===== verification/Ext4Alloc.v ===== *)
(** * Block and inode allocation (ext4_utils/allocate.c)

    A filesystem is divided into block groups; each has a header (backup
    superblock, descriptors, bitmaps, inode table) and a bitmap of its blocks.  An
    allocation is a doubly linked list of regions.  The regions live in an
    explicit heap, the group table is an array, and the calls of
    queue_data_block are logged with their arguments; following a pointer that is
    not to a region, or indexing outside an array, has no result. *)

From stdpp Require Import base gmap list.
From Stdlib Require Import ZArith Lia.
From S2P Require Import Prelude Ext4Image.
Open Scope Z_scope.

(** ** State *)

(** The members of [info] and [aux_info] the allocator reads. *)
Record fs_params := FsParams {
  p_block_size : Z; p_blocks_per_group : Z; p_inodes_per_group : Z; p_inode_size : Z;
  p_feat_ro_compat : Z;
  p_first_data_block : Z; p_len_blocks : Z; p_inode_table_blocks : Z; p_groups : Z;
  p_bg_desc_blocks : Z; p_bg_desc_reserve_blocks : Z
}.

Record region := Region {
  r_block : Z; r_len : Z; r_bg : Z; r_next : option nat; r_prev : option nat
}.

Record region_list := RegionList {
  first : option nat; last : option nat; iter : option nat; partial_iter : Z
}.

Record block_allocation := BlockAllocation { list_ : region_list; oob_list : region_list }.

(** [bitmaps] holds the block bitmap and, from [block_size] on, the inode
    bitmap; [inode_table] is the address of the table once it is allocated. *)
Record block_group_info := BlockGroupInfo {
  first_block : Z; header_blocks : Z; data_blocks_used : Z; has_superblock : Z;
  bitmaps_at : Z; bitmaps : list Z; inode_table : option Z;
  free_blocks_ : Z; first_free_block : Z; free_inodes : Z; first_free_inode : Z;
  used_dirs : Z
}.

(** What has been queued for the image: part of a buffer, given by its address and
    an offset, or of a file, with its length in bytes and its first block. *)
Inductive queued_block :=
  | QData (data : Z * Z) (len block : Z)
  | QFile (filename : list Z) (offset len block : Z).

(** The globals; [callocs] and [queue_rets] are the outcomes of the coming calls
    of calloc and queue_data_block (none left: success). *)
Record state := State {
  bgs : list block_group_info;
  heap : gmap nat region; next_region : nat; next_addr : Z;
  callocs : list bool; queue_rets : list Z;
  queued : list queued_block
}.

Definition M (A : Type) : Type := state -> option (A * state).
#[global] Instance M_ret : MRet M := fun A a s => Some (a, s).
#[global] Instance M_bind : MBind M := fun A B k m s =>
  match m s with Some (a, s') => k a s' | None => None end.

Definition fail {A} : M A := fun _ => None.
Definition from_option {A} (o : option A) : M A := fun s => a ← o; Some (a, s).

Definition get_bg (i : Z) : M block_group_info := fun s =>
  if i <? 0 then None else g ← bgs s !! Z.to_nat i; Some (g, s).

Definition set_bgs (l : list block_group_info) (s : state) : state :=
  State l (heap s) (next_region s) (next_addr s) (callocs s) (queue_rets s) (queued s).

Definition put_bg (i : Z) (g : block_group_info) : M unit := fun s =>
  if (i <? 0) || (Z.of_nat (length (bgs s)) <=? i) then None
  else Some (tt, set_bgs (<[Z.to_nat i := g]> (bgs s)) s).

Definition set_heap (h : gmap nat region) (s : state) : state :=
  State (bgs s) h (next_region s) (next_addr s) (callocs s) (queue_rets s) (queued s).

Definition deref (p : nat) : M region := fun s => r ← heap s !! p; Some (r, s).

Definition store (p : nat) (r : region) : M unit := fun s =>
  _ ← heap s !! p; Some (tt, set_heap (<[p := r]> (heap s)) s).

(** malloc of a region; its result is not checked by the code. *)
Definition new_region (r : region) : M nat := fun s =>
  Some (next_region s,
        State (bgs s) (<[next_region s := r]> (heap s)) (S (next_region s)) (next_addr s)
          (callocs s) (queue_rets s) (queued s)).

Definition free_region (p : nat) : M unit := fun s =>
  _ ← heap s !! p; Some (tt, set_heap (delete p (heap s)) s).

(** The address calloc returns, or a null pointer. *)
Definition calloc : M (option Z) := fun s =>
  let s' := State (bgs s) (heap s) (next_region s) (next_addr s + 1) (tail (callocs s))
              (queue_rets s) (queued s) in
  match callocs s with
  | false :: _ => Some (None, s')
  | _ => Some (Some (next_addr s), s')
  end.

Definition queue_block (q : queued_block) : M Z := fun s =>
  Some (match queue_rets s with r :: _ => r | [] => 0 end,
        State (bgs s) (heap s) (next_region s) (next_addr s) (callocs s) (tail (queue_rets s))
          (queued s ++ [q])).
Definition queue_data_block (data : Z * Z) (len block : Z) : M Z :=
  queue_block (QData data len block).
Definition queue_data_file (filename : list Z) (offset len block : Z) : M Z :=
  queue_block (QFile filename offset len block).

Definition EXT4_ALLOCATE_FAILED : Z := 0xFFFFFFFF.

Definition set_next (r : region) (p : option nat) : region :=
  Region (r_block r) (r_len r) (r_bg r) p (r_prev r).
Definition set_prev (r : region) (p : option nat) : region :=
  Region (r_block r) (r_len r) (r_bg r) (r_next r) p.
Definition set_len (r : region) (n : Z) : region :=
  Region (r_block r) n (r_bg r) (r_next r) (r_prev r).

(** ** Region lists *)

Definition empty_list : region_list := RegionList None None None 0.
Definition create_allocation : block_allocation := BlockAllocation empty_list empty_list.

Definition region_list_remove (l : region_list) (reg : nat) : M region_list :=
  r ← deref reg;
  _ ← match r_prev r with
      | Some p => rp ← deref p; store p (set_next rp (r_next r))
      | None => mret tt
      end;
  r ← deref reg;
  _ ← match r_next r with
      | Some n => rn ← deref n; store n (set_prev rn (r_prev r))
      | None => mret tt
      end;
  r ← deref reg;
  _ ← store reg (set_prev (set_next r None) None);
  mret (RegionList (if bool_decide (first l = Some reg) then r_next r else first l)
                   (if bool_decide (last l = Some reg) then r_prev r else last l)
                   (iter l) (partial_iter l)).

Definition region_list_append (l : region_list) (reg : nat) : M region_list :=
  match first l with
  | None =>
      r ← deref reg;
      _ ← store reg (set_next (set_prev r None) None);
      mret (RegionList (Some reg) (Some reg) (Some reg) 0)
  | Some _ =>
      match last l with
      | None => fail
      | Some lp =>
          rl ← deref lp; _ ← store lp (set_next rl (Some reg));
          r ← deref reg;
          _ ← store reg (set_next (set_prev r (Some lp)) None);
          mret (RegionList (first l) (Some reg) (iter l) (partial_iter l))
      end
  end.

Definition append_region (a : block_allocation) (block len bg_num : Z) : M block_allocation :=
  reg ← new_region (Region block len bg_num None None);
  l ← region_list_append (list_ a) reg;
  mret (BlockAllocation l (oob_list a)).

(** ** Bitmaps *)

(** [bit] is a u32. *)
Definition bitmap_set_bit (bm : list Z) (bit : Z) : option (list Z * Z) :=
  b ← bm !! Z.to_nat (bit / 8);
  if truthy (Z.land b (Z.shiftl 1 (bit mod 8))) then Some (bm, 1)
  else Some (<[Z.to_nat (bit / 8) := Z.lor b (Z.shiftl 1 (bit mod 8))]> bm, 0).

Definition bitmap_set_8_bits (bm : list Z) (bit : Z) : option (list Z * Z) :=
  b ← bm !! Z.to_nat (bit / 8);
  Some (<[Z.to_nat (bit / 8) := 0xFF]> bm, b).

(** The three loops of [reserve_blocks]: the bitmap, [i], [block], and whether a
    block was taken already. *)
Definition loop_state : Type := list Z * Z * Z * bool.

Fixpoint bits_to_byte (fuel : nat) (bm : list Z) (i block num : Z) : option loop_state :=
  match fuel with
  | O => None
  | S fuel =>
      if (i <? num) && negb (block mod 8 =? 0) then
        '(bm, r) ← bitmap_set_bit bm block;
        if truthy r then Some (bm, i, block, true)
        else bits_to_byte fuel bm (u32 (i + 1)) (u32 (block + 1)) num
      else Some (bm, i, block, false)
  end.

Fixpoint whole_bytes (fuel : nat) (bm : list Z) (i block num : Z) : option loop_state :=
  match fuel with
  | O => None
  | S fuel =>
      if u32 (i + 8) <=? Z.land num (u32 (Z.lnot 7)) then
        '(bm, r) ← bitmap_set_8_bits bm block;
        if truthy r then Some (bm, i, block, true)
        else whole_bytes fuel bm (u32 (i + 8)) (u32 (block + 8)) num
      else Some (bm, i, block, false)
  end.

Fixpoint last_bits (fuel : nat) (bm : list Z) (i block num : Z) : option loop_state :=
  match fuel with
  | O => None
  | S fuel =>
      if i <? num then
        '(bm, r) ← bitmap_set_bit bm block;
        if truthy r then Some (bm, i, block, true)
        else last_bits fuel bm (u32 (i + 1)) (u32 (block + 1)) num
      else Some (bm, i, block, false)
  end.

Definition with_bitmaps (g : block_group_info) (bm : list Z) : block_group_info :=
  BlockGroupInfo (first_block g) (header_blocks g) (data_blocks_used g) (has_superblock g)
    (bitmaps_at g) bm (inode_table g) (free_blocks_ g) (first_free_block g) (free_inodes g)
    (first_free_inode g) (used_dirs g).

Definition with_free (g : block_group_info) (free ff : Z) : block_group_info :=
  BlockGroupInfo (first_block g) (header_blocks g) (data_blocks_used g) (has_superblock g)
    (bitmaps_at g) (bitmaps g) (inode_table g) free ff (free_inodes g)
    (first_free_inode g) (used_dirs g).

(** The fuel exceeds the number of iterations by one. *)
Definition reserve_blocks (g : block_group_info) (start num : Z) : option (block_group_info * Z) :=
  if free_blocks_ g <? num then Some (g, -1) else
  let fuel := S (Z.to_nat num) in
  '(bm, i, block, taken) ← bits_to_byte fuel (bitmaps g) 0 start num;
  if (taken : bool) then Some (with_bitmaps g bm, -1) else
  '(bm, i, block, taken) ← whole_bytes fuel bm i block num;
  if (taken : bool) then Some (with_bitmaps g bm, -1) else
  '(bm, i, block, taken) ← last_bits fuel bm i block num;
  if (taken : bool) then Some (with_bitmaps g bm, -1) else
  let g := with_bitmaps g bm in
  Some (with_free g (u32 (free_blocks_ g - num))
          (if start =? first_free_block g then u32 (start + num) else first_free_block g), 0).

Fixpoint clear_bits (n : nat) (bm : list Z) (block : Z) : option (list Z) :=
  match n with
  | O => Some bm
  | S n =>
      b ← bm !! Z.to_nat (block / 8);
      clear_bits n (<[Z.to_nat (block / 8) := Z.land b (u8 (Z.lnot (Z.shiftl 1 (block mod 8))))]> bm)
        (u32 (block - 1))
  end.

Definition free_blocks (g : block_group_info) (num_blocks : Z) : option block_group_info :=
  bm ← clear_bits (Z.to_nat num_blocks) (bitmaps g) (u32 (first_free_block g - 1));
  Some (with_free (with_bitmaps g bm) (u32 (free_blocks_ g + num_blocks))
          (u32 (first_free_block g - num_blocks))).

(** [while (len)]; [list.last] is read again on every iteration. *)
Fixpoint reduce_loop (fuel : nat) (l : region_list) (len : Z) : M region_list :=
  match fuel with
  | O => fail
  | S fuel =>
      if truthy len then
        match last l with
        | None => fail
        | Some lp =>
            r ← deref lp;
            g ← get_bg (r_bg r);
            if len <? r_len r then
              g ← from_option (free_blocks g len); _ ← put_bg (r_bg r) g;
              _ ← store lp (set_len r (u32 (r_len r - len)));
              reduce_loop fuel l 0
            else
              g ← from_option (free_blocks g (r_len r)); _ ← put_bg (r_bg r) g;
              l ← match r_prev r with
                  | Some p => rp ← deref p; _ ← store p (set_next rp None); mret l
                  | None => mret (RegionList None None None 0)
                  end;
              _ ← free_region lp;
              reduce_loop fuel l (u32 (len - r_len r))
        end
      else mret l
  end.

Definition reduce_allocation (a : block_allocation) (len : Z) : M block_allocation :=
  s0 ← (fun s => Some (size (heap s), s));
  l ← reduce_loop (S (S s0)) (list_ a) len;
  mret (BlockAllocation l (oob_list a)).

(** ** Block groups *)

Section Groups.
Context (P : fs_params) (errno : Z).

Definition allocate_bg_inode_table (bg : Z) : M Z :=
  g ← get_bg bg;
  match inode_table g with
  | Some _ => mret 0
  | None =>
      let block := u32 (first_block g + 2) in
      let block := if truthy (has_superblock g)
                   then u32 (block + (p_bg_desc_blocks P + p_bg_desc_reserve_blocks P + 1))
                   else block in
      t ← calloc;
      _ ← put_bg bg (BlockGroupInfo (first_block g) (header_blocks g) (data_blocks_used g)
            (has_superblock g) (bitmaps_at g) (bitmaps g) t (free_blocks_ g) (first_free_block g)
            (free_inodes g) (first_free_inode g) (used_dirs g));
      match t with
      | None => mret errno
      | Some t => queue_data_block (t, 0) (u32 (p_inode_table_blocks P * p_block_size P)) block
      end
  end.

(** [calloc(info.block_size, 2)] is not checked. *)
Definition init_bg (i : Z) : M Z :=
  sup ← from_option (ext4_bg_has_super_block (p_feat_ro_compat P) i);
  let extra := 1 + p_bg_desc_blocks P + p_bg_desc_reserve_blocks P in
  let header := s32 (2 + p_inode_table_blocks P) in
  let header := if truthy sup then s32 (header + extra) else header in
  c ← calloc;
  match c with
  | None => fail
  | Some addr =>
      let first := u32 (p_first_data_block P + u32 (i * p_blocks_per_group P)) in
      let block := if truthy sup then u32 (first + extra) else first in
      g0 ← get_bg i;
      let bm := replicate (Z.to_nat (2 * p_block_size P)) 0 in
      _ ← put_bg i (BlockGroupInfo first header (data_blocks_used g0) sup addr bm (inode_table g0)
            (free_blocks_ g0) (first_free_block g0) (free_inodes g0) (first_free_inode g0)
            (used_dirs g0));
      result ← queue_data_block (addr, 0) (u32 (2 * p_block_size P)) block;
      if truthy result then mret result else
      let g := BlockGroupInfo first header 0 sup addr bm (inode_table g0)
                 (p_blocks_per_group P) 0 (p_inodes_per_group P) 1 (used_dirs g0) in
      '(g, _) ← from_option (reserve_blocks g (first_free_block g) (u32 header));
      let overrun := u32 (u64 (u32 (first + p_blocks_per_group P) - p_len_blocks P)) in
      '(g, _) ← (if 0 <? overrun
                 then from_option (reserve_blocks g (u32 (p_blocks_per_group P - overrun)) overrun)
                 else mret (g, 0));
      _ ← put_bg i g;
      mret 0
  end.

Definition zero_bg : block_group_info :=
  BlockGroupInfo 0 0 0 0 0 [] None 0 0 0 0 0.

Fixpoint init_loop (n : nat) (i : Z) : M Z :=
  match n with
  | O => mret 0
  | S n => result ← init_bg i; if truthy result then mret result else init_loop n (i + 1)
  end.

Definition block_allocator_init : M Z :=
  c ← calloc;
  match c with
  | None => _ ← (fun s => Some (tt, set_bgs [] s)); mret errno
  | Some _ =>
      _ ← (fun s => Some (tt, set_bgs (replicate (Z.to_nat (p_groups P)) zero_bg) s));
      init_loop (Z.to_nat (p_groups P)) 0
  end.

Definition get_free_blocks (bg : Z) : M Z := g ← get_bg bg; mret (free_blocks_ g).

Definition add_data_blocks (g : block_group_info) (n : Z) : block_group_info :=
  BlockGroupInfo (first_block g) (header_blocks g) (s32 (data_blocks_used g + n))
    (has_superblock g) (bitmaps_at g) (bitmaps g) (inode_table g) (free_blocks_ g)
    (first_free_block g) (free_inodes g) (first_free_inode g) (used_dirs g).

Definition ext4_allocate_blocks_from_block_group (len bg_num : Z) : M Z :=
  free ← get_free_blocks bg_num;
  if free <? len then mret EXT4_ALLOCATE_FAILED else
  g ← get_bg bg_num;
  let block := first_free_block g in
  '(g, r) ← from_option (reserve_blocks g (first_free_block g) len);
  _ ← put_bg bg_num g;
  if r <? 0 then mret EXT4_ALLOCATE_FAILED else
  _ ← put_bg bg_num (add_data_blocks g len);
  mret (u32 (first_block g + block)).

(** [for (i = ...; i < aux_info.groups; i++)] with [n] groups to go *)
Fixpoint contiguous_loop (n : nat) (i len : Z) : M (option nat) :=
  match n with
  | O => mret None
  | S n =>
      block ← ext4_allocate_blocks_from_block_group len i;
      if negb (block =? EXT4_ALLOCATE_FAILED) then
        reg ← new_region (Region block len i None None); mret (Some reg)
      else contiguous_loop n (i + 1) len
  end.

Definition ext4_allocate_contiguous_blocks (len : Z) : M (option nat) :=
  contiguous_loop (Z.to_nat (p_groups P)) 0 len.

Fixpoint block_loop (n : nat) (i : Z) : M Z :=
  match n with
  | O => mret EXT4_ALLOCATE_FAILED
  | S n =>
      block ← ext4_allocate_blocks_from_block_group 1 i;
      if negb (block =? EXT4_ALLOCATE_FAILED) then mret block else block_loop n (i + 1)
  end.

Definition allocate_block : M Z := block_loop (Z.to_nat (p_groups P)) 0.

Fixpoint partial_loop (n : nat) (i len : Z) : M (option nat) :=
  match n with
  | O => mret None
  | S n =>
      g ← get_bg i;
      if data_blocks_used g =? 0 then
        let bg_len := free_blocks_ g in
        if len <=? bg_len then ext4_allocate_contiguous_blocks len
        else
          block ← ext4_allocate_blocks_from_block_group bg_len i;
          if block =? EXT4_ALLOCATE_FAILED then mret None
          else reg ← new_region (Region block bg_len i None None); mret (Some reg)
      else partial_loop n (i + 1) len
  end.

Definition ext4_allocate_partial (len : Z) : M (option nat) :=
  partial_loop (Z.to_nat (p_groups P)) 0 len.

(** [while (len > 0)]; no result when the fuel is spent. *)
Fixpoint multiple_loop (fuel : nat) (first prev : option nat) (len : Z) : M (option nat) :=
  match fuel with
  | O => fail
  | S fuel =>
      if 0 <? len then
        reg ← ext4_allocate_partial len;
        match reg with
        | None => mret None
        | Some reg =>
            let first := match first with None => Some reg | Some _ => first end in
            _ ← match prev with
                | Some p =>
                    rp ← deref p; _ ← store p (set_next rp (Some reg));
                    r ← deref reg; store reg (set_prev r (Some p))
                | None => mret tt
                end;
            r ← deref reg;
            multiple_loop fuel first (Some reg) (u32 (len - r_len r))
        end
      else mret first
  end.

Definition ext4_allocate_multiple_contiguous_blocks (fuel : nat) (len : Z) : M (option nat) :=
  multiple_loop fuel None None len.

Definition do_allocate (fuel : nat) (len : Z) : M (option nat) :=
  reg ← ext4_allocate_contiguous_blocks len;
  match reg with
  | None => ext4_allocate_multiple_contiguous_blocks fuel len
  | Some reg => mret (Some reg)
  end.

Definition allocate_blocks (fuel : nat) (len : Z) : M (option block_allocation) :=
  reg ← do_allocate fuel len;
  match reg with
  | None => mret None
  | Some reg =>
      mret (Some (BlockAllocation (RegionList (Some reg) (Some reg) (Some reg) 0)
                    (oob_list create_allocation)))
  end.
End Groups.

(** ** Walking an allocation *)

(** The functions below follow [next] pointers; no result when the fuel, the
    number of regions plus one, is spent. *)
Definition walk_fuel : M nat := fun s => Some (S (size (heap s)), s).

Fixpoint num_regions_loop (fuel : nat) (reg : option nat) (i : Z) : M Z :=
  match fuel with
  | O => fail
  | S fuel =>
      match reg with
      | None => mret (s32 i)
      | Some p => r ← deref p; num_regions_loop fuel (r_next r) (u32 (i + 1))
      end
  end.

Definition block_allocation_num_regions (a : block_allocation) : M Z :=
  n ← walk_fuel; num_regions_loop n (first (list_ a)) 0.

Fixpoint len_loop (fuel : nat) (reg : option nat) (i : Z) : M Z :=
  match fuel with
  | O => fail
  | S fuel =>
      match reg with
      | None => mret (s32 i)
      | Some p => r ← deref p; len_loop fuel (r_next r) (u32 (i + r_len r))
      end
  end.

Definition block_allocation_len (a : block_allocation) : M Z :=
  n ← walk_fuel; len_loop n (first (list_ a)) 0.

Fixpoint get_block_loop (fuel : nat) (reg : option nat) (block : Z) : M Z :=
  match fuel with
  | O => fail
  | S fuel =>
      match reg with
      | None => mret EXT4_ALLOCATE_FAILED
      | Some p =>
          r ← deref p;
          if block <? r_len r then mret (u32 (r_block r + block))
          else get_block_loop fuel (r_next r) (block - r_len r)
      end
  end.

Definition list_get_block (l : region_list) (block : Z) : M Z :=
  n ← walk_fuel; get_block_loop n (iter l) (u32 (block + partial_iter l)).

Definition get_block (a : block_allocation) (block : Z) : M Z := list_get_block (list_ a) block.
Definition get_oob_block (a : block_allocation) (block : Z) : M Z :=
  list_get_block (oob_list a) block.

Definition get_region (a : block_allocation) : M (Z * Z) :=
  match iter (list_ a) with
  | None => fail
  | Some p => r ← deref p; mret (r_block r, u32 (r_len r - partial_iter (list_ a)))
  end.

Definition with_iter (l : region_list) (p : option nat) (n : Z) : region_list :=
  RegionList (first l) (last l) p n.

Definition get_next_region (a : block_allocation) : M block_allocation :=
  match iter (list_ a) with
  | None => fail
  | Some p => r ← deref p; mret (BlockAllocation (with_iter (list_ a) (r_next r) 0) (oob_list a))
  end.

Definition last_region (a : block_allocation) : bool := bool_decide (iter (list_ a) = None).

Definition rewind_alloc (a : block_allocation) : block_allocation :=
  BlockAllocation (with_iter (list_ a) (first (list_ a)) 0) (oob_list a).

(** [while (reg && len >= reg->len)] *)
Fixpoint split_loop (fuel : nat) (reg : option nat) (len : Z) : M (option nat * Z) :=
  match fuel with
  | O => fail
  | S fuel =>
      match reg with
      | None => mret (None, len)
      | Some p =>
          r ← deref p;
          if r_len r <=? len then split_loop fuel (r_next r) (len - r_len r)
          else mret (Some p, len)
      end
  end.

Definition do_split_allocation (l : region_list) (len : Z) : M (region_list * option nat) :=
  n ← walk_fuel;
  '(reg, len) ← split_loop n (iter l) len;
  match reg with
  | None => mret (l, None)
  | Some p =>
      if 0 <? len then
        r ← deref p;
        new ← new_region (Region (u32 (r_block r + len)) (u32 (r_len r - len)) (r_bg r)
                            (r_next r) (Some p));
        _ ← store p (set_len (set_next r (Some new)) len);
        mret (with_iter l (Some new) (partial_iter l), iter l)
      else mret (l, Some p)
  end.

Definition split_allocation (l : region_list) (len : Z) : M (region_list * option nat) :=
  '(l, _) ← do_split_allocation l (partial_iter l);
  '(l, middle) ← do_split_allocation l len;
  mret (with_iter l (iter l) 0, middle).

Fixpoint move_loop (fuel : nat) (a : block_allocation) (oob : option nat) : M block_allocation :=
  match fuel with
  | O => fail
  | S fuel =>
      match oob with
      | None => mret a
      | Some p =>
          if bool_decide (iter (list_ a) = Some p) then mret a else
          r ← deref p;
          l ← region_list_remove (list_ a) p;
          o ← region_list_append (oob_list a) p;
          move_loop fuel (BlockAllocation l o) (r_next r)
      end
  end.

Definition reserve_oob_blocks (a : block_allocation) (blocks : Z) : M (block_allocation * Z) :=
  '(l, oob) ← split_allocation (list_ a) (u32 blocks);
  let a := BlockAllocation l (oob_list a) in
  match oob with
  | None => mret (a, -1)
  | Some _ => n ← walk_fuel; a ← move_loop n a oob; mret (a, 0)
  end.

(** [list->iter] is not assigned in the loop. *)
Fixpoint advance_loop (fuel : nat) (reg : option nat) (partial blocks : Z) : M (Z * Z) :=
  match fuel with
  | O => fail
  | S fuel =>
      match reg with
      | None => mret (partial, if 0 <? blocks then -1 else 0)
      | Some p =>
          if 0 <? blocks then
            r ← deref p;
            if u32 (partial + blocks) <? r_len r then mret (u32 (partial + blocks), 0)
            else advance_loop fuel (r_next r) 0 (s32 (blocks - u32 (r_len r - partial)))
          else mret (partial, 0)
      end
  end.

Definition advance_list_ptr (l : region_list) (blocks : Z) : M (region_list * Z) :=
  n ← walk_fuel;
  '(partial, r) ← advance_loop n (iter l) (partial_iter l) blocks;
  mret (with_iter l (iter l) partial, r).

Definition advance_blocks (a : block_allocation) (blocks : Z) : M (block_allocation * Z) :=
  '(l, r) ← advance_list_ptr (list_ a) blocks; mret (BlockAllocation l (oob_list a), r).

Definition advance_oob_blocks (a : block_allocation) (blocks : Z) : M (block_allocation * Z) :=
  '(l, r) ← advance_list_ptr (oob_list a) blocks; mret (BlockAllocation (list_ a) l, r).

(** [reg->next] is read after region_list_append has set it to null. *)
Fixpoint append_loop (fuel : nat) (o : region_list) (reg : option nat) : M region_list :=
  match fuel with
  | O => fail
  | S fuel =>
      match reg with
      | None => mret o
      | Some p => o ← region_list_append o p; r ← deref p; append_loop fuel o (r_next r)
      end
  end.

Fixpoint free_list_loop (fuel : nat) (reg : option nat) : M unit :=
  match fuel with
  | O => fail
  | S fuel =>
      match reg with
      | None => mret tt
      | Some p => r ← deref p; _ ← free_region p; free_list_loop fuel (r_next r)
      end
  end.

Definition free_alloc (a : block_allocation) : M unit :=
  n ← walk_fuel;
  _ ← free_list_loop n (first (list_ a)); free_list_loop n (first (oob_list a)).

Section Inodes.
Context (P : fs_params) (errno : Z).

Definition append_oob_allocation (fuel : nat) (a : block_allocation) (len : Z)
    : M (block_allocation * Z) :=
  reg ← do_allocate P fuel len;
  match reg with
  | None => mret (a, -1)
  | Some _ => n ← walk_fuel; o ← append_loop n (oob_list a) reg;
              mret (BlockAllocation (list_ a) o, 0)
  end.

(** The address of the inode table of the group and the offset in it. *)
Definition get_inode (inode : Z) : M (option (Z * Z)) :=
  let inode := u32 (inode - 1) in
  let bg := s32 (inode / p_inodes_per_group P) in
  let inode := inode mod p_inodes_per_group P in
  result ← allocate_bg_inode_table P errno bg;
  if result =? 0 then
    g ← get_bg bg;
    match inode_table g with
    | Some t => mret (Some (t, u32 (inode * p_inode_size P)))
    | None => fail
    end
  else mret None.

Definition get_free_inodes (bg : Z) : M Z := g ← get_bg bg; mret (free_inodes g).

(** Inode bit [inode] is bit [8 * block_size + inode] of [bitmaps]. *)
Fixpoint set_inode_bits (n : nat) (bm : list Z) (i ffi : Z) : option (list Z) :=
  match n with
  | O => Some bm
  | S n =>
      let inode := u32 (ffi + i - 1) in
      let k := Z.to_nat (p_block_size P + inode / 8) in
      b ← bm !! k;
      set_inode_bits n (<[k := Z.lor b (Z.shiftl 1 (inode mod 8))]> bm) (i + 1) ffi
  end.

Definition reserve_inodes (bg num : Z) : M Z :=
  free ← get_free_inodes bg;
  if free <? num then mret EXT4_ALLOCATE_FAILED else
  g ← get_bg bg;
  bm ← from_option (set_inode_bits (Z.to_nat num) (bitmaps g) 0 (first_free_inode g));
  _ ← put_bg bg (BlockGroupInfo (first_block g) (header_blocks g) (data_blocks_used g)
        (has_superblock g) (bitmaps_at g) bm (inode_table g) (free_blocks_ g) (first_free_block g)
        (u32 (free_inodes g - num)) (u32 (first_free_inode g + num)) (used_dirs g));
  mret (first_free_inode g).

Fixpoint inode_loop (n : nat) (bg : Z) : M Z :=
  match n with
  | O => mret EXT4_ALLOCATE_FAILED
  | S n =>
      inode ← reserve_inodes bg 1;
      if negb (inode =? EXT4_ALLOCATE_FAILED) then mret (u32 (bg * p_inodes_per_group P + inode))
      else inode_loop n (bg + 1)
  end.

Definition allocate_inode : M Z := inode_loop (Z.to_nat (p_groups P)) 0.

Definition add_directory (inode : Z) : M unit :=
  let bg := s32 (u32 (inode - 1) / p_inodes_per_group P) in
  g ← get_bg bg;
  put_bg bg (BlockGroupInfo (first_block g) (header_blocks g) (data_blocks_used g)
    (has_superblock g) (bitmaps_at g) (bitmaps g) (inode_table g) (free_blocks_ g)
    (first_free_block g) (free_inodes g) (first_free_inode g) (u16 (used_dirs g + 1))).

Definition get_directories (bg : Z) : M Z := g ← get_bg bg; mret (used_dirs g).
End Inodes.

(** Only the buffers are freed; their addresses are not used again. *)
Definition block_allocator_free : M unit := fun s => Some (tt, set_bgs [] s).

(** ** Bitmaps as sets of blocks *)

Definition bit (bm : list Z) (i : Z) : bool :=
  Z.testbit (nth (Z.to_nat (i / 8)) bm 0) (i mod 8).

(** [bm'] is [bm] with the [n] blocks from [a] on marked. *)
Definition marks (bm bm' : list Z) (a n : Z) : Prop :=
  length bm' = length bm /\ Forall is_u8 bm' /\
  forall i, 0 <= i -> bit bm' i = bit bm i || ((a <=? i) && (i <? a + n)).

Lemma nth_insert (bm : list Z) k j x : (k < length bm)%nat ->
  nth j (<[k := x]> bm) 0 = if (j =? k)%nat then x else nth j bm 0.
Proof.
  intros Hk. rewrite !nth_lookup. destruct (Nat.eqb_spec j k) as [-> | Hne].
  - by rewrite list_lookup_insert_eq.
  - by rewrite list_lookup_insert_ne.
Qed.

Lemma bit_insert bm b x i : 0 <= b -> 0 <= i -> b / 8 < Z.of_nat (length bm) ->
  bit (<[Z.to_nat (b / 8) := x]> bm) i =
  if i / 8 =? b / 8 then Z.testbit x (i mod 8) else bit bm i.
Proof.
  intros Hb Hi Hlt. pose proof (Z.div_pos b 8 Hb ltac:(lia)). pose proof (Z.div_pos i 8 Hi ltac:(lia)).
  unfold bit. rewrite nth_insert by lia.
  destruct (Nat.eqb_spec (Z.to_nat (i / 8)) (Z.to_nat (b / 8))), (Z.eqb_spec (i / 8) (b / 8));
    done || lia.
Qed.

Lemma lookup_nth (bm : list Z) k x : bm !! k = Some x -> nth k bm 0 = x.
Proof. intros H. by rewrite nth_lookup, H. Qed.

Lemma same_bit i b : 0 <= i -> 0 <= b -> i / 8 = b / 8 -> (i mod 8 =? b mod 8) = (i =? b).
Proof.
  intros Hi Hb He. pose proof (Z.div_mod i 8). pose proof (Z.div_mod b 8).
  destruct (Z.eqb_spec (i mod 8) (b mod 8)), (Z.eqb_spec i b); subst; done || lia.
Qed.

Lemma range_one i b : (b <=? i) && (i <? b + 1) = (i =? b).
Proof. destruct (Z.leb_spec b i), (Z.ltb_spec i (b + 1)), (Z.eqb_spec i b); done || lia. Qed.

Lemma u8_lor_bit x k : is_u8 x -> 0 <= k < 8 -> is_u8 (Z.lor x (2 ^ k)).
Proof.
  intros Hx Hk. assert (Z.lor x (2 ^ k) = u8 (Z.lor x (2 ^ k))) as ->; [|apply u8_range].
  bitwise. destruct (Z.ltb_spec i 8); [done|].
  rewrite (testbit_above 8 x), Z.pow2_bits_false by (done || lia). done.
Qed.

Lemma bitmap_set_bit_ok bm b : Forall is_u8 bm -> 0 <= b -> b < 8 * Z.of_nat (length bm) ->
  bit bm b = false ->
  exists bm', bitmap_set_bit bm b = Some (bm', 0) /\ marks bm bm' b 1.
Proof.
  intros Hu Hb Hlt Hbit. pose proof (Z.mod_pos_bound b 8 ltac:(lia)) as Hm.
  assert (b / 8 < Z.of_nat (length bm)) as Hk by (apply Z.div_lt_upper_bound; lia).
  pose proof (Z.div_pos b 8 Hb ltac:(lia)).
  destruct (lookup_lt_is_Some_2 bm (Z.to_nat (b / 8))) as [x Hx]; [lia|].
  unfold bitmap_set_bit. rewrite Hx. cbn [mbind option_bind].
  assert (Z.testbit x (b mod 8) = false) as Hxb
    by (unfold bit in Hbit; by rewrite (lookup_nth _ _ _ Hx) in Hbit).
  rewrite (truthy_land_bit x _ (b mod 8)); [|lia | by rewrite Z.shiftl_1_l]. rewrite Hxb.
  eexists. split; [reflexivity|]. split; [apply length_insert|]. split.
  - apply Forall_insert; [done|]. rewrite Z.shiftl_1_l.
    eapply Forall_lookup_1 in Hx; [|done]. apply u8_lor_bit; [done | lia].
  - intros i Hi. rewrite bit_insert by lia. rewrite range_one.
    destruct (Z.eqb_spec (i / 8) (b / 8)) as [He|Hne].
    + rewrite Z.lor_spec, Z.shiftl_1_l, Z.pow2_bits_eqb by lia.
      rewrite Z.eqb_sym, same_bit by done. f_equal. unfold bit. by rewrite He, (lookup_nth _ _ _ Hx).
    + destruct (Z.eqb_spec i b) as [->|]; [done|]. by rewrite orb_false_r.
Qed.

Lemma byte_zero x : is_u8 x -> (forall k, 0 <= k < 8 -> Z.testbit x k = false) -> x = 0.
Proof.
  intros Hx H. apply Z.bits_inj'. intros n Hn. rewrite Z.bits_0.
  destruct (Z_lt_le_dec n 8); [by apply H | by apply (testbit_above 8)].
Qed.

Lemma range_byte i b : 0 <= i -> b mod 8 = 0 -> (b <=? i) && (i <? b + 8) = (i / 8 =? b / 8).
Proof.
  intros Hi Hb. pose proof (Z.div_mod i 8). pose proof (Z.div_mod b 8).
  pose proof (Z.mod_pos_bound i 8).
  destruct (Z.leb_spec b i), (Z.ltb_spec i (b + 8)), (Z.eqb_spec (i / 8) (b / 8)); done || lia.
Qed.

Lemma bitmap_set_8_bits_ok bm b : Forall is_u8 bm -> 0 <= b -> b < 8 * Z.of_nat (length bm) ->
  b mod 8 = 0 -> (forall i, b <= i < b + 8 -> bit bm i = false) ->
  exists bm', bitmap_set_8_bits bm b = Some (bm', 0) /\ marks bm bm' b 8.
Proof.
  intros Hu Hb Hlt Hm Hbits. pose proof (Z.div_mod b 8) as Hdm.
  assert (b / 8 < Z.of_nat (length bm)) as Hk by (apply Z.div_lt_upper_bound; lia).
  pose proof (Z.div_pos b 8 Hb ltac:(lia)).
  destruct (lookup_lt_is_Some_2 bm (Z.to_nat (b / 8))) as [x Hx]; [lia|].
  unfold bitmap_set_8_bits. rewrite Hx. cbn [mbind option_bind].
  assert (x = 0) as ->.
  { apply byte_zero; [by eapply Forall_lookup_1 in Hx|]. intros k Hk8.
    specialize (Hbits (b + k) ltac:(lia)). unfold bit in Hbits.
    assert ((b + k) / 8 = b / 8 /\ (b + k) mod 8 = k) as [Hd Hmod].
    { split; symmetry; [apply (Z.div_unique _ 8 (b / 8) k) | apply (Z.mod_unique _ 8 (b / 8) k)]; lia. }
    by rewrite Hd, Hmod, (lookup_nth _ _ _ Hx) in Hbits. }
  eexists. split; [reflexivity|]. split; [apply length_insert|]. split.
  - by apply Forall_insert.
  - intros i Hi. rewrite bit_insert, range_byte by lia.
    destruct (Z.eqb_spec (i / 8) (b / 8)) as [He|]; [|by rewrite orb_false_r].
    rewrite orb_true_r. pose proof (Z.mod_pos_bound i 8 ltac:(lia)).
    change 0xFF with (Z.ones 8). rewrite Z.ones_spec_low by lia. done.
Qed.

Lemma marks_trans bm bm1 bm2 a n m : 0 <= n -> 0 <= m -> marks bm bm1 a n ->
  marks bm1 bm2 (a + n) m -> marks bm bm2 a (n + m).
Proof.
  intros Hn Hm (Hl1 & Hu1 & Hb1) (Hl2 & Hu2 & Hb2). split; [congruence|]. split; [done|].
  intros i Hi. rewrite Hb2, Hb1 by done. rewrite <- orb_assoc. f_equal.
  destruct (Z.leb_spec a i), (Z.ltb_spec i (a + n)), (Z.leb_spec (a + n) i),
    (Z.ltb_spec i (a + n + m)), (Z.ltb_spec i (a + (n + m))); done || lia.
Qed.

Lemma marks_refl bm a : Forall is_u8 bm -> marks bm bm a 0.
Proof.
  intros Hu. split; [done|]. split; [done|]. intros i Hi.
  destruct (Z.leb_spec a i), (Z.ltb_spec i (a + 0)); rewrite ?orb_false_r; done || lia.
Qed.

Lemma marks_clear bm bm' a n i : marks bm bm' a n -> 0 <= i -> a + n <= i ->
  bit bm i = false -> bit bm' i = false.
Proof.
  intros (_ & _ & Hb) Hi Hle Hc. rewrite Hb, Hc by done.
  destruct (Z.ltb_spec i (a + n)); [lia|]. by rewrite andb_false_r.
Qed.

(** What each of the loops leaves: from [block] on, [i' - i] more blocks marked. *)
Definition loop_post (bm : list Z) (i block num : Z) (r : loop_state) : Prop :=
  let '(bm', i', block', taken) := r in
  taken = false /\ i <= i' <= num /\ block' = block + (i' - i) /\ marks bm bm' block (i' - i).

(** The next [num - i] blocks are free and fit in the bitmap. *)
Definition loop_pre (bm : list Z) (i block num : Z) : Prop :=
  Forall is_u8 bm /\ 0 <= i <= num /\ 0 <= block /\
  block + (num - i) <= 8 * Z.of_nat (length bm) /\ 8 * Z.of_nat (length bm) < 2 ^ 32 - 16 /\
  num < 2 ^ 32 - 16 /\ (forall b, block <= b < block + (num - i) -> bit bm b = false).

Lemma loop_pre_next bm bm' i block num n : loop_pre bm i block num -> 0 <= n -> i + n <= num ->
  marks bm bm' block n -> loop_pre bm' (i + n) (block + n) num.
Proof.
  intros (Hu & Hi & Hb & Hfit & Hmax & Hnum & Hc) Hn Hle Hm.
  pose proof Hm as (Hl & Hu' & _). split; [done|]. rewrite Hl.
  repeat split; try lia. intros b Hbr. eapply marks_clear; [done | lia | lia | apply Hc; lia].
Qed.

Lemma loop_post_next bm bm' i block num n r : 0 <= n -> marks bm bm' block n ->
  loop_post bm' (i + n) (block + n) num r -> loop_post bm i block num r.
Proof.
  destruct r as [[[bm2 i2] b2] t]. intros Hn Hm (Ht & Hi & Hb & Hm2).
  split; [done|]. split; [lia|]. split; [lia|].
  replace (i2 - i) with (n + (i2 - (i + n))) by lia. eapply marks_trans; [lia | lia | done | done].
Qed.

Lemma loop_post_refl bm i block num : loop_pre bm i block num ->
  loop_post bm i block num (bm, i, block, false).
Proof.
  intros (Hu & Hi & _). split; [done|]. split; [lia|]. split; [lia|].
  rewrite Z.sub_diag. by apply marks_refl.
Qed.

Lemma bits_to_byte_ok fuel bm i block num : loop_pre bm i block num -> num - i < Z.of_nat fuel ->
  exists r, bits_to_byte fuel bm i block num = Some r /\ loop_post bm i block num r /\
    (r.1.1.2 = num \/ r.1.2 mod 8 = 0).
Proof.
  revert bm i block. induction fuel as [|fuel IH]; intros bm i block Hpre Hf; [destruct Hpre; lia|].
  pose proof (loop_post_refl _ _ _ _ Hpre) as Hrefl. cbn [bits_to_byte].
  destruct (Z.ltb_spec i num) as [Hlt|Hge], (Z.eqb_spec (block mod 8) 0) as [Hm|Hm]; cbn [andb negb].
  1: by eexists; split; [|split; [|right]].
  2, 3: eexists; split; [reflexivity|]; split; [done|]; left; cbn; destruct Hpre as (_ & ? & _); lia.
  pose proof Hpre as (Hu & Hi & Hb & Hfit & Hmax & Hnum & Hc).
  destruct (bitmap_set_bit_ok bm block) as (bm' & -> & Hm1); [done | lia | lia | apply Hc; lia |].
  cbn [mbind option_bind truthy Z.eqb negb]. rewrite !u32_id by (unfold is_u32; lia).
  destruct (IH bm' (i + 1) (block + 1)) as (r & Hr & Hp & Hor); [by eapply loop_pre_next; eauto; lia | lia |].
  exists r. split; [done|]. split; [eapply loop_post_next; [|done|done]; lia | done].
Qed.

Lemma last_bits_ok fuel bm i block num : loop_pre bm i block num -> num - i < Z.of_nat fuel ->
  exists r, last_bits fuel bm i block num = Some r /\ loop_post bm i block num r /\ r.1.1.2 = num.
Proof.
  revert bm i block. induction fuel as [|fuel IH]; intros bm i block Hpre Hf; [destruct Hpre; lia|].
  pose proof (loop_post_refl _ _ _ _ Hpre) as Hrefl. cbn [last_bits].
  pose proof Hpre as (Hu & Hi & Hb & Hfit & Hmax & Hnum & Hc).
  destruct (Z.ltb_spec i num) as [Hlt|Hge]; [|by exists (bm, i, block, false); split; [|split; [|cbn; lia]]].
  destruct (bitmap_set_bit_ok bm block) as (bm' & -> & Hm1); [done | lia | lia | apply Hc; lia |].
  cbn [mbind option_bind truthy Z.eqb negb]. rewrite !u32_id by (unfold is_u32; lia).
  destruct (IH bm' (i + 1) (block + 1)) as (r & Hr & Hp & Hor); [by eapply loop_pre_next; eauto; lia | lia |].
  exists r. split; [done|]. split; [eapply loop_post_next; [|done|done]; lia | done].
Qed.

Lemma round_down_8 num : 0 <= num < 2 ^ 32 -> Z.land num (u32 (Z.lnot 7)) = num / 8 * 8.
Proof.
  intros Hn. change (u32 (Z.lnot 7)) with (Z.ldiff (Z.ones 32) (Z.ones 3)).
  replace (Z.land num (Z.ldiff (Z.ones 32) (Z.ones 3))) with (Z.ldiff (Z.land num (Z.ones 32)) (Z.ones 3)).
  - rewrite Z.land_ones, Z.mod_small by lia.
    by rewrite Z.ldiff_ones_r, Z.shiftl_mul_pow2, Z.shiftr_div_pow2 by lia.
  - bitwise. rewrite !Z.ldiff_spec, Z.land_spec. by rewrite andb_assoc.
Qed.

Lemma whole_bytes_ok fuel bm i block num : loop_pre bm i block num -> num - i < Z.of_nat fuel ->
  (i = num \/ block mod 8 = 0) ->
  exists r, whole_bytes fuel bm i block num = Some r /\ loop_post bm i block num r.
Proof.
  revert bm i block. induction fuel as [|fuel IH]; intros bm i block Hpre Hf Hor; [destruct Hpre; lia|].
  pose proof (loop_post_refl _ _ _ _ Hpre) as Hrefl. cbn [whole_bytes].
  pose proof Hpre as (Hu & Hi & Hb & Hfit & Hmax & Hnum & Hc).
  rewrite round_down_8, (u32_id (i + 8)) by (unfold is_u32; lia).
  pose proof (Z.div_mod num 8). pose proof (Z.mod_pos_bound num 8).
  destruct (Z.leb_spec (i + 8) (num / 8 * 8)) as [Hle|Hgt]; [|by eexists; split].
  destruct Hor as [-> | Hm]; [lia|].
  destruct (bitmap_set_8_bits_ok bm block) as (bm' & -> & Hm1); [done | lia | lia | done | |].
  { intros b Hbr. apply Hc. lia. }
  cbn [mbind option_bind truthy Z.eqb negb]. rewrite !u32_id by (unfold is_u32; lia).
  destruct (IH bm' (i + 8) (block + 8)) as (r & Hr & Hp); [by eapply loop_pre_next; eauto; lia | lia | |].
  { right. rewrite <- Zplus_mod_idemp_r. change (8 mod 8) with 0. by rewrite Z.add_0_r. }
  exists r. split; [done|]. eapply loop_post_next; [|done|done]; lia.
Qed.

(** ** Reserving blocks *)

(** A run of [num] free blocks that fits in the bitmap. *)
Definition free_run (g : block_group_info) (start num : Z) : Prop :=
  Forall is_u8 (bitmaps g) /\ 0 <= start /\ 0 <= num <= free_blocks_ g /\ is_u32 (free_blocks_ g) /\
  start + num <= 8 * Z.of_nat (length (bitmaps g)) /\
  8 * Z.of_nat (length (bitmaps g)) < 2 ^ 32 - 16 /\
  (forall b, start <= b < start + num -> bit (bitmaps g) b = false).

Definition reserved (g : block_group_info) (bm : list Z) (start num : Z) : block_group_info :=
  with_free (with_bitmaps g bm) (free_blocks_ g - num)
    (if start =? first_free_block g then start + num else first_free_block g).

(** A run of free blocks is marked, whatever its alignment. *)
Lemma reserve_blocks_ok g start num : free_run g start num ->
  exists bm, reserve_blocks g start num = Some (reserved g bm start num, 0) /\
    marks (bitmaps g) bm start num.
Proof.
  intros (Hu & Hs & Hn & Hf & Hfit & Hmax & Hc). unfold is_u32 in Hf.
  assert (loop_pre (bitmaps g) 0 start num) as Hpre.
  { split; [done|]. repeat split; try lia. intros b Hb. apply Hc. lia. }
  unfold reserve_blocks. destruct (Z.ltb_spec (free_blocks_ g) num); [lia|].
  destruct (bits_to_byte_ok (S (Z.to_nat num)) _ _ _ _ Hpre) as ([[[bm1 i1] b1] t1] & -> & Hp1 & Hor1);
    [lia|].
  destruct Hp1 as (-> & Hi1 & Hb1 & Hm1). cbn [mbind option_bind fst snd] in *.
  pose proof (loop_pre_next _ bm1 0 start num (i1 - 0) Hpre ltac:(lia) ltac:(lia) Hm1) as Hpre1.
  replace (0 + (i1 - 0)) with i1 in Hpre1 by lia. rewrite <- Hb1 in Hpre1.
  destruct (whole_bytes_ok (S (Z.to_nat num)) _ _ _ _ Hpre1) as ([[[bm2 i2] b2] t2] & -> & Hp2);
    [lia | done |].
  destruct Hp2 as (-> & Hi2 & Hb2 & Hm2). cbn [mbind option_bind fst snd] in *.
  pose proof (loop_pre_next _ bm2 i1 b1 num (i2 - i1) Hpre1 ltac:(lia) ltac:(lia) Hm2) as Hpre2.
  replace (i1 + (i2 - i1)) with i2 in Hpre2 by lia. rewrite <- Hb2 in Hpre2.
  destruct (last_bits_ok (S (Z.to_nat num)) _ _ _ _ Hpre2) as ([[[bm3 i3] b3] t3] & -> & Hp3 & Hend);
    [lia|].
  destruct Hp3 as (-> & Hi3 & Hb3 & Hm3). cbn [mbind option_bind fst snd] in *. subst i3.
  exists bm3. split.
  - unfold reserved. cbn [free_blocks_ first_free_block with_bitmaps].
    rewrite !u32_id by (unfold is_u32; lia). done.
  - replace num with ((i1 - 0) + ((i2 - i1) + (num - i2))) by lia.
    eapply marks_trans; [lia | lia | done |]. rewrite <- Hb1.
    eapply marks_trans; [lia | lia | done |]. by rewrite <- Hb2.
Qed.

Lemma reserve_blocks_fails g start num : free_blocks_ g < num ->
  reserve_blocks g start num = Some (g, -1).
Proof. intros H. unfold reserve_blocks. by rewrite (proj2 (Z.ltb_lt _ _) H). Qed.

(** ** The state of a group *)

(** A region with its address. *)
Abbreviation node := (nat * region)%type.

Section Invariant.
Context (P : fs_params).

(** Sizes that fit the types; every group of the filesystem is numbered by a u32. *)
Record params_ok : Prop := {
  po_bs : 0 < p_block_size P < 2 ^ 27;
  po_bpg : 0 < p_blocks_per_group P <= 8 * p_block_size P;
  po_first : 0 <= p_first_data_block P;
  po_groups : 0 <= p_groups P;
  po_end : p_first_data_block P + p_groups P * p_blocks_per_group P < 2 ^ 32 - 1;
  po_len : p_first_data_block P + (p_groups P - 1) * p_blocks_per_group P <= p_len_blocks P < 2 ^ 32
}.

(** The free blocks of a group are one run, which the bitmap, the counter and
    the first free block agree on; the header is not in it, nor is anything past
    the end of the filesystem. *)
Record bg_ok (i : Z) (g : block_group_info) : Prop := {
  bo_len : Z.of_nat (length (bitmaps g)) = 2 * p_block_size P;
  bo_u8 : Forall is_u8 (bitmaps g);
  bo_first : first_block g = p_first_data_block P + i * p_blocks_per_group P;
  bo_header : 0 < header_blocks g <= first_free_block g;
  bo_free : 0 <= free_blocks_ g;
  bo_fits : first_free_block g + free_blocks_ g <= p_blocks_per_group P;
  bo_end : free_blocks_ g = 0 \/
           first_block g + first_free_block g + free_blocks_ g <= p_len_blocks P;
  bo_inodes : 1 <= first_free_inode g /\ 0 <= free_inodes g /\
              first_free_inode g + free_inodes g = p_inodes_per_group P + 1;
  bo_bits : forall b, 0 <= b < p_blocks_per_group P ->
    bit (bitmaps g) b = negb ((first_free_block g <=? b) && (b <? first_free_block g + free_blocks_ g))
}.

(** The first free inode of every group. *)
Definition free_inos (s : state) : list Z := first_free_inode <$> bgs s.

Definition groups_ok (s : state) : Prop :=
  Z.of_nat (length (bgs s)) = p_groups P /\
  forall i g, bgs s !! i = Some g -> bg_ok (Z.of_nat i) g.

Context (HP : params_ok).

Lemma bg_free_run i g n : bg_ok i g -> 0 <= n <= free_blocks_ g -> free_run g (first_free_block g) n.
Proof.
  intros Hg Hn. destruct HP, Hg. split; [done|]. unfold is_u32.
  repeat split; try lia. intros b Hb. rewrite bo_bits0 by lia.
  destruct (Z.leb_spec (first_free_block g) b), (Z.ltb_spec b (first_free_block g + free_blocks_ g));
    done || lia.
Qed.

(** Taking the first [n] free blocks keeps the group in order. *)
Lemma reserved_ok i g bm n : bg_ok i g -> 0 <= n <= free_blocks_ g ->
  marks (bitmaps g) bm (first_free_block g) n -> bg_ok i (reserved g bm (first_free_block g) n).
Proof.
  intros Hg Hn (Hl & Hu & Hb). destruct HP, Hg. unfold reserved. rewrite Z.eqb_refl.
  split; cbn [bitmaps first_block header_blocks first_free_block free_blocks_ with_free with_bitmaps];
    [by rewrite Hl | done | done | lia | lia | lia | lia | done |].
  intros b Hbr. rewrite Hb, bo_bits0 by lia.
  replace (first_free_block g + n + (free_blocks_ g - n)) with (first_free_block g + free_blocks_ g) by lia.
  destruct (Z.leb_spec (first_free_block g) b), (Z.leb_spec (first_free_block g + n) b),
    (Z.ltb_spec b (first_free_block g + free_blocks_ g)), (Z.ltb_spec b (first_free_block g + n));
    done || lia.
Qed.

Lemma bg_ok_data_blocks i g n : bg_ok i g -> bg_ok i (add_data_blocks g n).
Proof. intros []. by split. Qed.

Lemma groups_ok_put s i g : groups_ok s -> bg_ok (Z.of_nat i) g ->
  groups_ok (set_bgs (<[i := g]> (bgs s)) s).
Proof.
  intros [Hl Hg] Hok. split; cbn [bgs set_bgs]; [by rewrite length_insert|].
  intros j gj Hj. destruct (decide (i = j)) as [<- | Hne].
  - rewrite list_lookup_insert_eq in Hj by (by apply lookup_lt_Some in Hj; rewrite length_insert in Hj).
    by injection Hj as <-.
  - rewrite list_lookup_insert_ne in Hj by done. by apply Hg.
Qed.

Lemma free_inos_put s (i : nat) g g' : bgs s !! i = Some g ->
  first_free_inode g' = first_free_inode g ->
  free_inos (set_bgs (<[i := g']> (bgs s)) s) = free_inos s.
Proof.
  intros Hi He. unfold free_inos. cbn [bgs set_bgs]. rewrite list_fmap_insert, He.
  apply list_insert_id. by rewrite list_lookup_fmap, Hi.
Qed.

Lemma get_bg_ok s (i : nat) g : bgs s !! i = Some g -> get_bg (Z.of_nat i) s = Some (g, s).
Proof.
  intros Hi. unfold get_bg. destruct (Z.ltb_spec (Z.of_nat i) 0); [lia|].
  by rewrite Nat2Z.id, Hi.
Qed.

Lemma put_bg_ok s (i : nat) g : (i < length (bgs s))%nat ->
  put_bg (Z.of_nat i) g s = Some (tt, set_bgs (<[i := g]> (bgs s)) s).
Proof.
  intros Hi. unfold put_bg. destruct (Z.ltb_spec (Z.of_nat i) 0), (Z.leb_spec (Z.of_nat (length (bgs s))) (Z.of_nat i));
    try lia. cbn [orb]. by rewrite Nat2Z.id.
Qed.

(** Allocation from one group: it fails for lack of room and changes nothing, or
    takes the first [len] free blocks. *)
Definition taken (g : block_group_info) (bm : list Z) (len : Z) : block_group_info :=
  add_data_blocks (reserved g bm (first_free_block g) len) len.

Lemma taken_ok i g bm n : bg_ok i g -> 0 <= n <= free_blocks_ g ->
  marks (bitmaps g) bm (first_free_block g) n -> bg_ok i (taken g bm n).
Proof. intros. apply bg_ok_data_blocks. by apply reserved_ok. Qed.

Lemma taken_first g bm n : first_free_block (taken g bm n) = first_free_block g + n.
Proof. cbn. by rewrite Z.eqb_refl. Qed.

Lemma taken_free g bm n : free_blocks_ (taken g bm n) = free_blocks_ g - n.
Proof. done. Qed.

Lemma allocate_from_group_ok s (i : nat) g len : groups_ok s -> bgs s !! i = Some g -> 0 <= len ->
  (free_blocks_ g < len /\
   ext4_allocate_blocks_from_block_group len (Z.of_nat i) s = Some (EXT4_ALLOCATE_FAILED, s)) \/
  (len <= free_blocks_ g /\ exists bm,
   marks (bitmaps g) bm (first_free_block g) len /\
   first_block g + first_free_block g < EXT4_ALLOCATE_FAILED /\
   ext4_allocate_blocks_from_block_group len (Z.of_nat i) s =
     Some (first_block g + first_free_block g, set_bgs (<[i := taken g bm len]> (bgs s)) s)).
Proof.
  intros [Hl Hg] Hi Hlen. pose proof (Hg i g Hi) as Hok. pose proof (lookup_lt_Some _ _ _ Hi) as Hlt.
  unfold ext4_allocate_blocks_from_block_group, get_free_blocks, mbind, M_bind, mret, M_ret.
  rewrite (get_bg_ok _ _ _ Hi). destruct (Z.ltb_spec (free_blocks_ g) len) as [Hf|Hf]; [by left|].
  right. split; [done|]. rewrite (get_bg_ok _ _ _ Hi).
  destruct (reserve_blocks_ok g (first_free_block g) len) as (bm & Hr & Hm);
    [by eapply bg_free_run|].
  exists bm. split; [done|]. destruct Hok. destruct HP.
  assert (0 <= first_block g + first_free_block g < 2 ^ 32 - 1) as Hrange.
  { rewrite bo_first0. assert (Z.of_nat i + 1 <= p_groups P) by lia. nia. }
  split; [unfold EXT4_ALLOCATE_FAILED; lia|]. unfold from_option. rewrite Hr. cbn [mbind option_bind].
  rewrite put_bg_ok by done. cbn [Z.ltb Z.compare].
  rewrite put_bg_ok by (cbn [bgs set_bgs]; by rewrite length_insert).
  cbn [first_block reserved with_free with_bitmaps set_bgs bgs].
  rewrite list_insert_insert_eq, u32_id by (unfold is_u32; lia). done.
Qed.

(** ** Blocks handed out *)

(** An extent is a first block and a number of blocks. *)
Definition apart (x y : Z * Z) : Prop :=
  x.2 = 0 \/ y.2 = 0 \/ x.1 + x.2 <= y.1 \/ y.1 + y.2 <= x.1.

(** An extent in the allocated part of a group, behind its header. *)
Definition owned (s : state) (x : Z * Z) : Prop :=
  x.2 = 0 \/ exists (i : nat) g, bgs s !! i = Some g /\ 0 < x.2 /\
    first_block g + header_blocks g <= x.1 /\
    x.1 + x.2 <= first_block g + first_free_block g /\ x.1 + x.2 <= p_len_blocks P.

Definition live_ok (s : state) (ext : list (Z * Z)) : Prop :=
  ForallOrdPairs apart ext /\ Forall (owned s) ext.

Lemma group_starts s (i j : nat) gi gj : groups_ok s -> bgs s !! i = Some gi ->
  bgs s !! j = Some gj -> (i < j)%nat ->
  first_block gi + p_blocks_per_group P <= first_block gj.
Proof.
  intros [_ Hg] Hi Hj Hij. rewrite (bo_first _ _ (Hg i gi Hi)), (bo_first _ _ (Hg j gj Hj)).
  destruct HP. nia.
Qed.

Lemma owned_take s (i : nat) g bm n x : bgs s !! i = Some g -> 0 <= n ->
  owned s x -> owned (set_bgs (<[i := taken g bm n]> (bgs s)) s) x.
Proof.
  intros Hi Hn [Hx | (j & gj & Hj & Hpos & Hlo & Hhi & Hlen)]; [by left|]. right.
  pose proof (lookup_lt_Some _ _ _ Hi) as Hlt. cbn [bgs set_bgs].
  destruct (decide (i = j)) as [<- | Hne].
  - rewrite Hi in Hj. injection Hj as <-. exists i, (taken g bm n).
    rewrite list_lookup_insert_eq by done. split; [done|].
    unfold taken, reserved. rewrite Z.eqb_refl. cbn. lia.
  - exists j, gj. rewrite list_lookup_insert_ne by done. done.
Qed.

(** Blocks taken from a group overlap nothing handed out before. *)
Lemma take_apart s (i : nat) g n x : groups_ok s -> bgs s !! i = Some g ->
  0 <= n <= free_blocks_ g -> owned s x -> apart (first_block g + first_free_block g, n) x.
Proof.
  intros Hs Hi Hn [Hx | (j & gj & Hj & Hpos & Hlo & Hhi & Hlen)]; [by right; left|].
  unfold apart. cbn [fst snd]. pose proof Hs as [_ Hg].
  pose proof (bo_fits _ _ (Hg i g Hi)). pose proof (bo_fits _ _ (Hg j gj Hj)).
  pose proof (bo_header _ _ (Hg i g Hi)). pose proof (bo_header _ _ (Hg j gj Hj)).
  pose proof (bo_free _ _ (Hg j gj Hj)).
  destruct (lt_eq_lt_dec i j) as [[Hij | ->] | Hij].
  - pose proof (group_starts s i j g gj Hs Hi Hj Hij). lia.
  - rewrite Hi in Hj. injection Hj as <-. lia.
  - pose proof (group_starts s j i gj g Hs Hj Hi Hij). lia.
Qed.

Lemma live_take s (i : nat) g bm n ext : groups_ok s -> bgs s !! i = Some g ->
  0 <= n <= free_blocks_ g -> marks (bitmaps g) bm (first_free_block g) n -> live_ok s ext ->
  live_ok (set_bgs (<[i := taken g bm n]> (bgs s)) s)
    ((first_block g + first_free_block g, n) :: ext).
Proof.
  intros Hs Hi Hn Hm [Hp Ho]. pose proof Hs as [_ Hg]. split.
  - constructor; [|done]. eapply Forall_impl; [exact Ho|]. intros x. by apply (take_apart s i).
  - constructor.
    + destruct (Z.eq_dec n 0) as [-> | Hn0]; [by left|]. right.
      exists i, (taken g bm n). cbn [bgs set_bgs fst snd].
      rewrite list_lookup_insert_eq by (by eapply lookup_lt_Some). split; [done|].
      destruct (Hg i g Hi). unfold taken, reserved. rewrite Z.eqb_refl. cbn. lia.
    + eapply Forall_impl; [exact Ho|]. intros x. apply owned_take; [done | lia].
Qed.

(** ** Regions *)

Definition heap_ok (s : state) : Prop := forall p, is_Some (heap s !! p) -> (p < next_region s)%nat.

(** The [n] blocks from [b] on were the first free ones of group [bg]. *)
Definition from_group (s : state) (b bg n : Z) (s' : state) : Prop :=
  exists (i : nat) g bm, bg = Z.of_nat i /\ bgs s !! i = Some g /\ n <= free_blocks_ g /\
    b = first_block g + first_free_block g /\ first_block g <= b /\
    bgs s' = <[i := taken g bm n]> (bgs s).

(** What allocating one region does: nothing, or a new region [p] of [n] blocks
    that nothing else owns. *)
Definition region_post (s : state) (r : option nat) (n : Z) (s' : state) : Prop :=
  match r with
  | None => s' = s
  | Some p => exists b bg,
      p = next_region s /\ next_region s' = S p /\
      heap s' = <[p := Region b n bg None None]> (heap s) /\
      groups_ok s' /\ free_inos s' = free_inos s /\
      (forall ext, live_ok s ext -> live_ok s' ((b, n) :: ext)) /\ from_group s b bg n s'
  end.

Lemma new_region_post s (i : nat) g bm n : groups_ok s -> bgs s !! i = Some g ->
  0 <= n <= free_blocks_ g -> marks (bitmaps g) bm (first_free_block g) n ->
  exists s', new_region (Region (first_block g + first_free_block g) n (Z.of_nat i) None None)
      (set_bgs (<[i := taken g bm n]> (bgs s)) s) = Some (next_region s, s') /\
    region_post s (Some (next_region s)) n s' /\ bgs s' = <[i := taken g bm n]> (bgs s) /\
    heap s' !! next_region s = Some (Region (first_block g + first_free_block g) n (Z.of_nat i) None None).
Proof.
  intros Hs Hi Hn Hm. eexists. split; [reflexivity|].
  split; [|split; [done | apply lookup_insert_eq]].
  exists (first_block g + first_free_block g), (Z.of_nat i). do 3 (split; [done|]).
  pose proof Hs as [_ Hg]. split; [|split; [|split]].
  - apply (groups_ok_put s i (taken g bm n) Hs). apply taken_ok; [by apply Hg | done | done].
  - by apply (free_inos_put s i g).
  - intros ext He. exact (live_take s i g bm n ext Hs Hi Hn Hm He).
  - exists i, g, bm. destruct Hn. do 4 (split; [done|]). split; [|done]. destruct (Hg i g Hi). lia.
Qed.

Lemma contiguous_loop_ok n (i : nat) len s : groups_ok s -> 0 <= len ->
  Z.of_nat i + Z.of_nat n = p_groups P ->
  exists r s', contiguous_loop n (Z.of_nat i) len s = Some (r, s') /\ region_post s r len s' /\
    (r = None -> forall (j : nat) g, (i <= j)%nat -> bgs s !! j = Some g -> free_blocks_ g < len).
Proof.
  intros Hs Hlen. revert i. induction n as [|n IH]; intros i Hi; cbn [contiguous_loop].
  { exists None, s. split; [done|]. split; [done|]. intros _ j g Hj Hg.
    apply lookup_lt_Some in Hg. destruct Hs as [Hl _]. lia. }
  destruct (lookup_lt_is_Some_2 (bgs s) i) as [g Hg]; [destruct Hs as [Hl _]; lia|].
  unfold mbind, M_bind.
  destruct (allocate_from_group_ok s i g len Hs Hg Hlen) as [[Hf ->] | (Hf & bm & Hm & Hr & ->)].
  - rewrite Z.eqb_refl. cbn [negb]. replace (Z.of_nat i + 1) with (Z.of_nat (S i)) by lia.
    destruct (IH (S i) ltac:(lia)) as (r & s' & Hl & Hp & Hnone).
    exists r, s'. split; [exact Hl|]. split; [done|]. intros Hr j gj Hij Hj.
    destruct (decide (i = j)) as [<- | Hne]; [by simplify_eq|]. apply (Hnone Hr j gj); [lia | done].
  - destruct (Z.eqb_spec (first_block g + first_free_block g) EXT4_ALLOCATE_FAILED); [lia|]. cbn [negb].
    destruct (new_region_post s i g bm len Hs Hg ltac:(lia) Hm) as (s' & -> & Hp & _).
    exists (Some (next_region s)), s'. split; [done|]. split; [done|]. done.
Qed.

(** Groups no data block was allocated from yet. *)
Definition is_unused (g : block_group_info) : Prop := data_blocks_used g = 0.
#[local] Instance is_unused_dec g : Decision (is_unused g) := Z.eq_dec (data_blocks_used g) 0.

Definition unused (s : state) : nat := length (filter is_unused (bgs s)).

(** Such a group has room. *)
Definition unused_free (s : state) : Prop :=
  forall (i : nat) g, bgs s !! i = Some g -> data_blocks_used g = 0 -> 0 < free_blocks_ g.

Lemma unused_take s (i : nat) g g' : bgs s !! i = Some g -> data_blocks_used g = 0 ->
  data_blocks_used g' <> 0 ->
  (length (filter is_unused (<[i := g']> (bgs s))) < unused s)%nat.
Proof.
  intros Hi Hu Hu'. pose proof (filter_insert_perm is_unused _ _ _ g' Hi) as Hp.
  rewrite !filter_cons, filter_nil, decide_True, decide_False in Hp by done.
  apply Permutation_length in Hp. rewrite !length_app in Hp. cbn in Hp. unfold unused. lia.
Qed.

Lemma unused_free_insert s (i : nat) g : unused_free s -> data_blocks_used g <> 0 ->
  forall s', bgs s' = <[i := g]> (bgs s) -> unused_free s'.
Proof.
  intros Hu Hg s' Hs' j gj. rewrite Hs'. intros [[-> [<- _]] | [Hne Hj]]%list_lookup_insert_Some; [done|].
  exact (Hu j gj Hj).
Qed.

(** A region at the end of the allocated part of its group. *)
Definition at_end (s : state) (r : region) : Prop := exists (i : nat) g,
  r_bg r = Z.of_nat i /\ bgs s !! i = Some g /\
  first_block g <= r_block r /\ r_block r + r_len r = first_block g + first_free_block g.

(** Such a region in a group that has nothing left. *)
Definition drained (s : state) (r : region) : Prop := exists (i : nat) g,
  r_bg r = Z.of_nat i /\ bgs s !! i = Some g /\
  first_block g <= r_block r /\ r_block r + r_len r = first_block g + first_free_block g /\
  free_blocks_ g = 0.

Lemma unused_free_bgs s s' : bgs s' = bgs s -> unused_free s -> unused_free s'.
Proof. unfold unused_free. by intros ->. Qed.

(** The outcome of ext4_allocate_partial: the whole request, or all that an
    unused group has; that group is then used, if it had any. *)
Definition partial_post (s : state) (len : Z) (r : option nat) (s' : state) : Prop :=
  match r with
  | None => s' = s
  | Some p => exists n, region_post s (Some p) n s' /\
      (n = len \/ (0 <= n < len /\ (exists r, heap s' !! p = Some r /\ drained s' r) /\
        (unused_free s -> 0 < n /\ (unused s' < unused s)%nat /\ unused_free s')))
  end.

Lemma taken_used g bm n : data_blocks_used g = 0 -> 0 < n < 2 ^ 31 ->
  data_blocks_used (taken g bm n) <> 0.
Proof.
  intros Hu Hn. unfold taken. cbn [data_blocks_used add_data_blocks reserved with_free with_bitmaps].
  rewrite Hu, Z.add_0_l, s32_id by (unfold is_s32; lia). lia.
Qed.

Lemma partial_loop_ok n (i : nat) len s : groups_ok s -> 0 < len ->
  Z.of_nat i + Z.of_nat n = p_groups P ->
  exists r s', partial_loop P n (Z.of_nat i) len s = Some (r, s') /\ partial_post s len r s'.
Proof.
  intros Hs Hlen. revert i. induction n as [|n IH]; intros i Hi; cbn [partial_loop].
  { by exists None, s. }
  destruct (lookup_lt_is_Some_2 (bgs s) i) as [g Hg]; [destruct Hs as [Hl _]; lia|].
  unfold mbind at 1, M_bind at 1. rewrite (get_bg_ok _ _ _ Hg).
  destruct (Z.eqb_spec (data_blocks_used g) 0) as [Hd|Hd].
  - pose proof Hs as [_ Hgs]. pose proof (Hgs i g Hg) as Hok. pose proof (bo_free _ _ Hok) as Hfree.
    destruct (Z.leb_spec len (free_blocks_ g)) as [Hle|Hgt].
    + destruct (contiguous_loop_ok (Z.to_nat (p_groups P)) 0 len s Hs ltac:(lia)) as (r & s' & Hr & Hp & Hn);
        [destruct HP; lia|].
      exists r, s'. split; [exact Hr|]. destruct r as [p|]; [by exists len; split; [|left]|].
      specialize (Hn eq_refl i g ltac:(lia) Hg). lia.
    + unfold mbind at 1, M_bind at 1.
      destruct (allocate_from_group_ok s i g (free_blocks_ g) Hs Hg ltac:(lia))
        as [[Hf _] | (_ & bm & Hm & Hr & ->)]; [lia|].
      destruct (Z.eqb_spec (first_block g + first_free_block g) EXT4_ALLOCATE_FAILED); [lia|].
      unfold mbind, M_bind.
      destruct (new_region_post s i g bm (free_blocks_ g) Hs Hg ltac:(lia) Hm) as (s' & -> & Hp & Hb & Hhp).
      eexists (Some _), s'. split; [reflexivity|]. exists (free_blocks_ g). split; [done|]. right.
      split; [lia|]. split.
      { eexists. split; [exact Hhp|]. exists i, (taken g bm (free_blocks_ g)).
        rewrite Hb, list_lookup_insert_eq by (by eapply lookup_lt_Some).
        do 2 (split; [done|]). rewrite taken_free, taken_first. destruct Hok. cbn. lia. }
      intros Hu. pose proof (Hu i g Hg Hd).
      assert (data_blocks_used (taken g bm (free_blocks_ g)) <> 0) as Hused.
      { apply taken_used; [done|]. destruct Hok, HP. lia. }
      split; [lia|]. split; [|by eapply unused_free_insert].
      unfold unused at 1. rewrite Hb. by apply unused_take with g.
  - replace (Z.of_nat i + 1) with (Z.of_nat (S i)) by lia. apply IH. lia.
Qed.

(** ** Lists of regions *)

(** The regions [l] follow each other in [h] in both directions; the links in
    the entries of [l] play no role. *)
Fixpoint dchain (h : gmap nat region) (prev : option nat) (l : list node) : Prop :=
  match l with
  | [] => True
  | (p, r) :: l => h !! p = Some (set_prev (set_next r (fst <$> head l)) prev) /\ dchain h (Some p) l
  end.

Definition extents (l : list node) : list (Z * Z) := (fun x => (r_block x.2, r_len x.2)) <$> l.
Definition total (l : list node) : Z := foldr (fun x n => r_len x.2 + n) 0 l.

Lemma dchain_frame h prev l p r : dchain h prev l -> p ∉ l.*1 -> dchain (<[p := r]> h) prev l.
Proof.
  revert prev. induction l as [|[q rq] l IH]; intros prev; [done|].
  intros [Hq Hl] [Hne Hin]%not_elem_of_cons. split; [by rewrite lookup_insert_ne | auto].
Qed.

Lemma dchain_lookup h prev l p : dchain h prev l -> p ∈ l.*1 -> is_Some (h !! p).
Proof.
  revert prev. induction l as [|[a ra] l IH]; intros prev; cbn [fmap list_fmap fst];
    [by intros _ ?%elem_of_nil|].
  intros [Ha Hl] [-> | Hin]%elem_of_cons; [by rewrite Ha | by eapply IH].
Qed.

(** Linking a new region in behind the last one. *)
Lemma dchain_snoc h prev l q rq p rp : dchain h prev (l ++ [(q, rq)]) -> NoDup (l ++ [(q, rq)]).*1 ->
  p ∉ (l ++ [(q, rq)]).*1 ->
  exists rq', h !! q = Some rq' /\
    dchain (<[p := set_prev (set_next rp None) (Some q)]> (<[q := set_next rq' (Some p)]> h)) prev
      (l ++ [(q, rq); (p, rp)]).
Proof.
  revert prev. induction l as [|[a ra] l IH]; intros prev; cbn [app dchain fmap list_fmap fst].
  - intros [Hq _] _ Hp%not_elem_of_cons. destruct Hp as [Hpq _]. eexists. split; [exact Hq|].
    cbn [head fmap option_fmap option_map fst]. split; [|split; [|done]].
    + by rewrite lookup_insert_ne, lookup_insert_eq.
    + by rewrite lookup_insert_eq.
  - intros [Ha Hl] [Hna Hnd]%NoDup_cons [Hpa Hp]%not_elem_of_cons.
    destruct (IH (Some a) Hl Hnd Hp) as (rq' & Hq & Hc). exists rq'. split; [done|]. split; [|done].
    assert (a <> q).
    { intros ->. apply Hna. rewrite fmap_app. apply elem_of_app. right. left. }
    rewrite !lookup_insert_ne by done. rewrite Ha. by destruct l.
Qed.

Lemma dchain_last h prev l q rq : dchain h prev (l ++ [(q, rq)]) -> is_Some (h !! q).
Proof.
  revert prev. induction l as [|[a ra] l IH]; intros prev; cbn; [by intros [-> _]|].
  intros [_ Hl]. by eapply IH.
Qed.

Lemma total_snoc l p r : total (l ++ [(p, r)]) = total l + r_len r.
Proof. induction l as [|x l IH]; cbn; [lia|]. fold (total (l ++ [(p, r)])) (total l). lia. Qed.

Lemma apart_sym x y : apart x y -> apart y x.
Proof. unfold apart. tauto. Qed.

Lemma live_perm s e e' : e ≡ₚ e' -> live_ok s e -> live_ok s e'.
Proof.
  intros Hp [H1 H2]. split; [|by rewrite <- Hp].
  eapply ForallOrdPairs_perm; [apply apart_sym | done | done].
Qed.

Lemma live_app_r s e e' : live_ok s (e ++ e') -> live_ok s e'.
Proof.
  induction e as [|x e IH]; [done|]. intros [H1 H2]. apply IH.
  inversion_clear H1. by apply Forall_cons in H2 as [_ H2].
Qed.

(** The regions [l] were allocated on the way from [s0] to [s]. *)
Definition built (s0 s : state) (l : list node) : Prop :=
  groups_ok s /\ heap_ok s /\ dchain (heap s) None l /\ NoDup l.*1 /\ free_inos s = free_inos s0 /\
  (forall ext, live_ok s0 ext -> live_ok s (extents l ++ ext)).

Lemma built_nil s : groups_ok s -> heap_ok s -> built s s [].
Proof. intros Hg Hh. split; [done|]. split; [done|]. split; [done|]. by split; [constructor|split]. Qed.

(** One more region, linked behind [prev]. *)
Definition link (prev : option nat) (p : nat) : M unit :=
  match prev with
  | Some q => rq ← deref q; _ ← store q (set_next rq (Some p));
              r ← deref p; store p (set_prev r (Some q))
  | None => mret tt
  end.

Lemma built_fresh s0 s l : built s0 s l ->
  heap s !! next_region s = None /\ next_region s ∉ l.*1.
Proof.
  intros (_ & Hh & Hc & _). assert (heap s !! next_region s = None) as Hfresh.
  { destruct (heap s !! next_region s) eqn:E; [|done].
    specialize (Hh (next_region s) ltac:(by rewrite E)). lia. }
  split; [done|]. intros Hin. destruct (dchain_lookup _ _ _ _ Hc Hin) as [? E]. by rewrite Hfresh in E.
Qed.

(** Only the heap changes after the new region is there. *)
Lemma built_extend s0 s l p n s1 h : built s0 s l -> region_post s (Some p) n s1 ->
  forall rp, heap s1 = <[p := rp]> (heap s) -> (forall q, is_Some (h !! q) -> is_Some (heap s1 !! q)) ->
  dchain h None (l ++ [(p, rp)]) -> built s0 (set_heap h s1) (l ++ [(p, rp)]).
Proof.
  intros Hb (b & bg & Hp & Hnx & Hheap & Hg1 & Hi1 & Hl1 & _) rp Hrp Hsub Hc.
  destruct (built_fresh _ _ _ Hb) as [Hfresh Hnin]. destruct Hb as (Hg & Hh & _ & Hnd & Hino & Hlive).
  assert (rp = Region b n bg None None) as ->.
  { rewrite Hheap in Hrp. apply (f_equal (lookup p)) in Hrp. rewrite !lookup_insert_eq in Hrp.
    by injection Hrp. }
  split; [exact Hg1|]. split; [|split; [exact Hc|split; [|split]]].
  - intros q Hq. cbn [heap set_heap next_region] in *. specialize (Hsub q Hq). rewrite Hheap in Hsub.
    rewrite Hnx, Hp in *. destruct (decide (q = next_region s)) as [-> | Hne]; [lia|].
    rewrite lookup_insert_ne in Hsub by done. specialize (Hh q Hsub). lia.
  - rewrite fmap_app. apply NoDup_app. split; [done|]. split; [|apply NoDup_singleton].
    intros x Hx ->%list_elem_of_singleton. by rewrite Hp in Hx.
  - by transitivity (free_inos s).
  - intros ext He. apply (live_perm s1 ((b, n) :: extents l ++ ext)); [|exact (Hl1 _ (Hlive ext He))].
    unfold extents. rewrite fmap_app, <- app_assoc. cbn. by rewrite Permutation_middle.
Qed.

Lemma set_heap_id s : set_heap (heap s) s = s.
Proof. by destruct s. Qed.

Lemma built_snoc s0 s l p n s1 : built s0 s l -> region_post s (Some p) n s1 ->
  exists s2 rp, link (fst <$> list.last l) p s1 = Some (tt, s2) /\ r_len rp = n /\
    heap s1 !! p = Some rp /\ from_group s (r_block rp) (r_bg rp) n s1 /\ bgs s2 = bgs s1 /\ heap s2 !! p = Some (set_prev (set_next rp None) (fst <$> list.last l)) /\
    built s0 s2 (l ++ [(p, rp)]).
Proof.
  intros Hb Hr. pose proof (fun h => built_extend s0 s l p n s1 h Hb Hr) as Hext.
  destruct (built_fresh _ _ _ Hb) as [Hfresh Hnin]. destruct Hb as (_ & _ & Hc & Hnd & _).
  destruct Hr as (b & bg & Hp & _ & Hheap & _ & _ & _ & Hfrom).
  set (rp := Region b n bg None None) in *. rewrite <- Hp in *.
  destruct l as [|[q rq] l _] using rev_ind.
  - exists s1, rp. cbn [list.last fmap option_fmap option_map link]. split; [done|].
    split; [done|]. rewrite Hheap, lookup_insert_eq. split; [done|]. split; [exact Hfrom|].
    split; [done|]. split; [done|].
    specialize (Hext (heap s1) rp Hheap ltac:(done)). rewrite set_heap_id in Hext. apply Hext.
    rewrite Hheap. cbn. by rewrite lookup_insert_eq.
  - rewrite last_snoc. cbn [fmap option_fmap option_map fst link].
    destruct (dchain_snoc (heap s1) None l q rq p rp) as (rq' & Hq & Hc');
      [rewrite Hheap; by apply dchain_frame | done | done |].
    assert (q <> p) as Hqp.
    { intros ->. apply Hnin. rewrite fmap_app. apply elem_of_app. right. left. }
    assert (heap s1 !! p = Some rp) as Hsp by (by rewrite Hheap, lookup_insert_eq).
    eexists (set_heap _ s1), rp. split; [|split; [done|split; [exact Hsp|split; [exact Hfrom|split; [done|split]]]]].
    + unfold mbind, M_bind, deref, store. rewrite Hq. cbn [mbind option_bind].
      cbn [heap set_heap]. rewrite Hq. cbn [mbind option_bind heap set_heap].
      rewrite lookup_insert_ne by done. rewrite Hheap, lookup_insert_eq. cbn [mbind option_bind].
      cbn [heap set_heap]. rewrite lookup_insert_ne, lookup_insert_eq by done. cbn [mbind option_bind]. unfold set_heap. done.
    + cbn [heap set_heap]. by rewrite lookup_insert_eq.
    + apply Hext; [done | | rewrite <- app_assoc; rewrite Hheap in Hc'; exact Hc'].
      intros x. rewrite Hheap. rewrite <- Hheap at 1.
      destruct (decide (x = p)) as [-> | Hxp]; [by rewrite !lookup_insert_eq|].
      rewrite lookup_insert_ne, (lookup_insert_ne (heap s)) by done.
      destruct (decide (x = q)) as [-> | Hxq]; [|by rewrite lookup_insert_ne, Hheap, lookup_insert_ne].
      intros _. rewrite Hheap, lookup_insert_ne in Hq by done. by rewrite Hq.
Qed.

(** [n] is the number of blocks some group had free. *)
Definition whole_group (s : state) (n : Z) : Prop :=
  exists (i : nat) g, bgs s !! i = Some g /\ n = free_blocks_ g.

(** The regions [l] used up their groups, starting in [s0]; how many there are, and
    that none is empty, when every unused group had room. *)
Definition filled (s0 s : state) (l : list node) : Prop :=
  Forall (fun x => drained s x.2) l /\
  match l with [] => s = s0 | (_, r) :: _ => whole_group s0 (r_len r) end /\
  (unused_free s0 -> unused_free s /\ (length l + unused s <= unused s0)%nat /\
     Forall (fun x => 0 < r_len x.2) l).

(** The same for a list that is complete: the last group may have blocks left. *)
Definition placed (s0 s : state) (l : list node) : Prop :=
  Forall (fun x => at_end s x.2) l /\
  match l with [] => True | (_, r) :: _ => r_len r = total l \/ whole_group s0 (r_len r) end /\
  (0 < total l -> unused_free s0 -> (length l <= S (unused s0))%nat /\ Forall (fun x => 0 < r_len x.2) l).

Lemma drained_at_end s r : drained s r -> at_end s r.
Proof. intros (i & g & Hi & Hg & Hlo & He & _). by exists i, g. Qed.

Lemma filled_placed s0 s l : filled s0 s l -> placed s0 s l.
Proof.
  intros (Hd & Hw & Hu). split; [eapply Forall_impl; [exact Hd|]; intros; by apply drained_at_end|].
  split; [destruct l as [|[] ?]; [done | by right]|]. intros _ Hu0. destruct (Hu Hu0) as (_ & Hl & Hp). split; [lia | done].
Qed.

(** Taking blocks elsewhere leaves a drained region alone. *)
Lemma drained_take s b bg n s1 s2 r : from_group s b bg n s1 -> bgs s2 = bgs s1 -> 0 <= n ->
  drained s r -> drained s2 r.
Proof.
  intros (j & g & bm & _ & Hj & Hn & _ & _ & Hb) Hs2 Hpos (i & gi & Hi & Hgi & Hlo & He & Hf).
  destruct (decide (i = j)) as [-> | Hne].
  - rewrite Hj in Hgi. injection Hgi as <-. exists j, (taken g bm n). split; [done|].
    rewrite Hs2, Hb, list_lookup_insert_eq by (by eapply lookup_lt_Some). split; [done|].
    rewrite taken_first, taken_free. cbn. lia.
  - exists i, gi. by rewrite Hs2, Hb, list_lookup_insert_ne.
Qed.

Lemma from_group_at_end s r n s1 s2 : from_group s (r_block r) (r_bg r) n s1 -> bgs s2 = bgs s1 ->
  r_len r = n -> at_end s2 r.
Proof.
  intros (i & g & bm & Hi & Hg & _ & Hb & Hlo & Hs1) Hs2 Hn. exists i, (taken g bm n). split; [done|].
  rewrite Hs2, Hs1, list_lookup_insert_eq by (by eapply lookup_lt_Some). split; [done|].
  rewrite taken_first, Hb, Hn. cbn. lia.
Qed.

Lemma drained_whole s r s1 : from_group s (r_block r) (r_bg r) (r_len r) s1 -> drained s1 r ->
  whole_group s (r_len r).
Proof.
  intros (i & g & bm & Hi & Hg & _ & _ & _ & Hs1) (j & g' & Hj & Hg' & _ & _ & Hf). exists i, g. split; [done|].
  assert (j = i) as -> by lia. rewrite Hs1, list_lookup_insert_eq in Hg' by (by eapply lookup_lt_Some).
  injection Hg' as <-. rewrite taken_free in Hf. lia.
Qed.

Lemma filled_snoc s0 s l s1 s2 p rp : filled s0 s l ->
  from_group s (r_block rp) (r_bg rp) (r_len rp) s1 -> bgs s2 = bgs s1 -> 0 <= r_len rp ->
  drained s1 rp -> (unused_free s -> 0 < r_len rp /\ (unused s1 < unused s)%nat /\ unused_free s1) ->
  filled s0 s2 (l ++ [(p, rp)]).
Proof.
  intros (Hd & Hw & Hu) Hf Hb Hpos Hdr Hnew. split; [|split].
  - apply Forall_app. split; [|constructor; [|constructor]].
    + eapply Forall_impl; [exact Hd|]. intros x. by eapply drained_take.
    + destruct Hdr as (i & g & Hi & Hg & He). exists i, g. by rewrite Hb.
  - destruct l as [|[] ?]; [|done]. subst s. by eapply drained_whole.
  - intros Hu0. destruct (Hu Hu0) as (Hus & Hl & Hp). destruct (Hnew Hus) as (Hn & Hlt & Hu1).
    split; [by eapply unused_free_bgs|]. rewrite length_app. unfold unused in *. rewrite Hb. cbn.
    split; [lia|]. apply Forall_app. split; [done|]. by constructor.
Qed.

Lemma placed_snoc s0 s l s1 s2 p rp : filled s0 s l ->
  from_group s (r_block rp) (r_bg rp) (r_len rp) s1 -> bgs s2 = bgs s1 -> 0 < r_len rp ->
  placed s0 s2 (l ++ [(p, rp)]).
Proof.
  intros (Hd & Hw & Hu) Hf Hb Hpos. split; [|split].
  - apply Forall_app. split; [|constructor; [|constructor]].
    + eapply Forall_impl; [exact Hd|]. intros x Hx. apply drained_at_end.
      eapply drained_take; [done | done | lia | done].
    + by eapply from_group_at_end.
  - destruct l as [|[] ?]; [left; cbn; lia | by right].
  - intros _ Hu0. destruct (Hu Hu0) as (_ & Hl & Hp). rewrite length_app. cbn. split; [lia|].
    apply Forall_app. split; [done|]. by constructor.
Qed.

(** The result of an allocation: a list of regions that add up to the request, or
    none; what was reserved for an abandoned list stays reserved. *)
Definition alloc_post (s0 : state) (len : Z) (r : option nat) (s : state) : Prop :=
  exists l, built s0 s l /\
    match r with
    | Some p => fst <$> head l = Some p /\ total l = len /\ placed s0 s l
    | None => True
    end.

(** Fuel that is enough when every unused group has room. *)
Definition enough (fuel : nat) (s : state) (len : Z) : Prop :=
  (0 < fuel)%nat /\ (0 < len -> unused_free s /\ (S (unused s) < fuel)%nat).

Lemma enough_next fuel s s1 s2 len n : enough (S fuel) s len -> 0 < len -> 0 <= n <= len ->
  bgs s2 = bgs s1 ->
  (n = len \/ (0 <= n < len /\ (unused_free s -> 0 < n /\ (unused s1 < unused s)%nat /\ unused_free s1))) ->
  enough fuel s2 (len - n).
Proof.
  intros [_ He] Hpos Hn Hbgs Hcase. destruct (He Hpos) as [Hu Hf]. split; [lia|]. intros Hlt.
  destruct Hcase as [-> | [_ Hs1]]; [lia|]. destruct (Hs1 Hu) as (_ & Hless & Hu1).
  split; [by eapply unused_free_bgs|]. unfold unused in *. rewrite Hbgs. lia.
Qed.

Lemma multiple_loop_step fuel first prev len s p s1 s2 r : 0 < len ->
  ext4_allocate_partial P len s = Some (Some p, s1) -> link prev p s1 = Some (tt, s2) ->
  heap s2 !! p = Some r ->
  multiple_loop P (S fuel) first prev len s =
  multiple_loop P fuel (match first with None => Some p | Some _ => first end) (Some p)
    (u32 (len - r_len r)) s2.
Proof.
  intros Hpos Hp Hlink Hr. cbn [multiple_loop]. destruct (Z.ltb_spec 0 len); [|lia].
  unfold mbind at 1, M_bind at 1. rewrite Hp. unfold mbind at 1, M_bind at 1.
  fold (link prev p). rewrite Hlink. unfold mbind at 1, M_bind at 1, deref. by rewrite Hr.
Qed.

Lemma multiple_loop_ok fuel s0 s l len : built s0 s l -> is_u32 len ->
  (filled s0 s l \/ (len = 0 /\ placed s0 s l)) ->
  let m := multiple_loop P fuel (fst <$> head l) (fst <$> list.last l) len s in
  (exists r s', m = Some (r, s') /\ alloc_post s0 (total l + len) r s') \/
  (m = None /\ ~ enough fuel s len).
Proof.
  revert s l len. induction fuel as [|fuel IH]; intros s l len Hb Hlen Hfill m; subst m.
  { right. split; [done|]. intros [? _]. lia. }
  unfold is_u32 in Hlen. destruct (Z.ltb_spec 0 len) as [Hpos|Hz].
  - destruct Hfill as [Hfill | [? _]]; [|lia]. pose proof Hb as (Hg & _).
    destruct (partial_loop_ok (Z.to_nat (p_groups P)) 0 len s Hg Hpos) as (r & s1 & Hr & Hp);
      [destruct HP; lia|]. destruct r as [p|].
    + destruct Hp as (n & Hp & Hcase).
      destruct (built_snoc s0 s l p n s1 Hb Hp) as (s2 & rp & Hlink & Hn & Hsp & Hfrom & Hbgs & Hhp & Hb2).
      rewrite (multiple_loop_step fuel _ _ _ _ _ _ _ _ Hpos Hr Hlink Hhp).
      cbn [r_len set_prev set_next].
      assert (match fst <$> head l with None => Some p | Some _ => fst <$> head l end
        = fst <$> head (l ++ [(p, rp)])) as -> by by destruct l.
      replace (Some p) with (fst <$> list.last (l ++ [(p, rp)])) by by rewrite last_snoc.
      assert (0 <= n <= len) as Hnr by (destruct Hcase as [-> | ?]; lia).
      rewrite Hn, u32_id by (unfold is_u32; lia). rewrite <- Hn in Hfrom, Hcase, Hnr. rewrite <- Hn.
      destruct (IH s2 (l ++ [(p, rp)]) (len - r_len rp) Hb2) as [(r & s' & Hm & Hpost) | [Hm Hne]].
      * unfold is_u32. lia.
      * destruct Hcase as [He | (Hlt & (r & Hr' & Hd) & Hu)].
        -- right. split; [lia|]. eapply placed_snoc; [done | done | done | lia].
        -- left. rewrite Hsp in Hr'. injection Hr' as <-. eapply filled_snoc; (done || lia).
      * left. exists r, s'. split; [exact Hm|]. rewrite total_snoc in Hpost.
        by replace (total l + r_len rp + (len - r_len rp)) with (total l + len) in Hpost by lia.
      * right. split; [exact Hm|]. contradict Hne. eapply enough_next; [done | done | done | done |].
        destruct Hcase as [? | (? & _ & ?)]; [by left | by right].
    + cbn in Hp. subst s1. left. exists None, s. split; [|by exists l]. cbn [multiple_loop].
      destruct (Z.ltb_spec 0 len); [|lia]. unfold mbind at 1, M_bind at 1, ext4_allocate_partial.
      change (Z.of_nat 0) with 0 in Hr. by rewrite Hr.
  - left. exists (fst <$> head l), s. cbn [multiple_loop]. destruct (Z.ltb_spec 0 len); [lia|].
    split; [done|]. exists l. split; [done|]. replace len with 0 by lia. rewrite Z.add_0_r.
    assert (placed s0 s l) by (destruct Hfill as [? | [_ ?]]; [by apply filled_placed | done]).
    destruct l as [|[p r] l]; done.
Qed.

Lemma do_allocate_ok fuel s len : groups_ok s -> heap_ok s -> is_u32 len ->
  (exists r s', do_allocate P fuel len s = Some (r, s') /\ alloc_post s len r s' /\
    ((exists (i : nat) g, bgs s !! i = Some g /\ len <= free_blocks_ g) ->
       exists p, r = Some p /\ exists rp, heap s' !! p = Some rp /\ r_len rp = len /\ r_next rp = None)) \/
  (do_allocate P fuel len s = None /\ ~ enough fuel s len).
Proof.
  intros Hg Hh Hlen. pose proof (built_nil s Hg Hh) as Hb0. unfold is_u32 in Hlen.
  destruct (contiguous_loop_ok (Z.to_nat (p_groups P)) 0 len s Hg ltac:(lia)) as (r & s1 & Hr & Hp & Hnone);
    [destruct HP; lia|].
  unfold do_allocate, ext4_allocate_contiguous_blocks, mbind, M_bind.
  change (Z.of_nat 0) with 0 in Hr. rewrite Hr. destruct r as [p|].
  - left. exists (Some p), s1. split; [done|].
    destruct (built_snoc s s [] p len s1 Hb0 Hp) as (s2 & rp & Hlink & Hn & _ & Hfrom & _ & Hh2 & Hb).
    injection Hlink as <-. split.
    + exists [(p, rp)]. split; [done|]. split; [done|]. split; [cbn; lia|]. split.
      * constructor; [|constructor]. by eapply from_group_at_end.
      * split; [left; cbn; lia|].
        intros Htot _. cbn in Htot. split; [cbn; lia|]. constructor; [cbn; lia | constructor].
    + intros _. exists p. split; [done|]. eexists. split; [exact Hh2|]. done.
  - cbn in Hp. subst s1.
    destruct (multiple_loop_ok fuel s s [] len Hb0 Hlen) as [(r & s' & Hm & Hpost) | Hm]; [left | left |by right].
    { split; [constructor|]. split; [done|]. intros Hu. split; [done|]. split; [cbn; lia | constructor]. }
    exists r, s'. split; [exact Hm|]. split; [exact Hpost|].
    intros (i & g & Hi & Hle). specialize (Hnone eq_refl i g ltac:(lia) Hi). lia.
Qed.

(** Blocks that are still free. *)
Definition free_total (s : state) : Z := foldr (fun g n => free_blocks_ g + n) 0 (bgs s).

Lemma free_total_put s (i : nat) g g' : bgs s !! i = Some g ->
  free_total (set_bgs (<[i := g']> (bgs s)) s) = free_total s - free_blocks_ g + free_blocks_ g'.
Proof.
  unfold free_total. cbn [bgs set_bgs]. generalize (bgs s) as l. intros l. revert i.
  induction l as [|x l IH]; intros [|i] Hi; cbn in *; [done | done | |].
  - injection Hi as ->. lia.
  - specialize (IH i Hi). unfold insert in *. lia.
Qed.

Lemma block_loop_ok n (i : nat) s : groups_ok s -> Z.of_nat i + Z.of_nat n = p_groups P ->
  exists b s', block_loop n (Z.of_nat i) s = Some (b, s') /\ groups_ok s' /\
    heap s' = heap s /\ next_region s' = next_region s /\ free_inos s' = free_inos s /\
    ((b = EXT4_ALLOCATE_FAILED /\ s' = s /\
        forall (j : nat) g, (i <= j)%nat -> bgs s !! j = Some g -> free_blocks_ g = 0) \/
     (b < EXT4_ALLOCATE_FAILED /\ free_total s' = free_total s - 1 /\
        forall ext, live_ok s ext -> live_ok s' ((b, 1) :: ext))).
Proof.
  intros Hs. revert i. induction n as [|n IH]; intros i Hi; cbn [block_loop].
  { exists EXT4_ALLOCATE_FAILED, s. do 5 (split; [done|]). left. do 2 (split; [done|]).
    intros j g Hj Hg%lookup_lt_Some. destruct Hs as [Hl _]. lia. }
  destruct (lookup_lt_is_Some_2 (bgs s) i) as [g Hg]; [destruct Hs as [Hl _]; lia|].
  unfold mbind, M_bind.
  destruct (allocate_from_group_ok s i g 1 Hs Hg ltac:(lia)) as [[Hf ->] | (Hf & bm & Hm & Hr & ->)].
  - rewrite Z.eqb_refl. cbn [negb]. replace (Z.of_nat i + 1) with (Z.of_nat (S i)) by lia.
    destruct (IH (S i)) as (b & s' & Hb & Hg' & Hh & Hn & Hi' & Hcase); [lia|].
    exists b, s'. do 5 (split; [done|]). destruct Hcase as [(-> & -> & Hz) | ?]; [left | by right].
    do 2 (split; [done|]). intros j gj Hj Hgj.
    destruct (decide (i = j)) as [<- | Hne]; [|apply (Hz j); [lia | done]].
    rewrite Hg in Hgj. injection Hgj as <-. pose proof (bo_free _ _ (proj2 Hs i g Hg)). lia.
  - destruct (Z.eqb_spec (first_block g + first_free_block g) EXT4_ALLOCATE_FAILED); [lia|]. cbn [negb].
    eexists _, _. split; [reflexivity|]. split.
    { apply groups_ok_put; [done|]. apply taken_ok; [by apply Hs | lia | done]. }
    split; [done|]. split; [done|]. split; [by apply (free_inos_put s i g)|].
    right. split; [done|]. split; [rewrite (free_total_put s i g) by done; cbn; lia|].
    intros ext He. by apply (live_take s i g bm 1 ext Hs Hg).
Qed.

Lemma allocate_block_ok s : groups_ok s ->
  exists b s', allocate_block P s = Some (b, s') /\ groups_ok s' /\
    heap s' = heap s /\ next_region s' = next_region s /\ free_inos s' = free_inos s /\
    ((b = EXT4_ALLOCATE_FAILED /\ s' = s /\ free_total s = 0) \/
     (b < EXT4_ALLOCATE_FAILED /\ free_total s' = free_total s - 1 /\
        forall ext, live_ok s ext -> live_ok s' ((b, 1) :: ext))).
Proof.
  intros Hs. destruct (block_loop_ok (Z.to_nat (p_groups P)) 0 s Hs) as (b & s' & Hb & Hg & Hh & Hn & Hi & Hcase);
    [destruct HP; lia|].
  exists b, s'. do 5 (split; [done|]). destruct Hcase as [(-> & -> & Hz) | ?]; [left | by right].
  do 2 (split; [done|]). assert (Forall (fun g => free_blocks_ g = 0) (bgs s)) as H0.
  { apply Forall_lookup_2. intros j g. apply Hz. lia. }
  clear -H0. unfold free_total. induction H0 as [|g l Hg0 _ IH]; [done|]. cbn. by rewrite Hg0, IH.
Qed.

(** ** Giving blocks back *)

Lemma u8_land x y : is_u8 x -> 0 <= y -> is_u8 (Z.land x y).
Proof.
  intros Hx Hy. assert (Z.land x y = u8 (Z.land x y)) as ->; [|apply u8_range].
  bitwise. destruct (Z.ltb_spec i 8); [done|]. by rewrite (testbit_above 8 x).
Qed.

Lemma bit_clear_one bm b x i : 0 <= b -> 0 <= i -> bm !! Z.to_nat (b / 8) = Some x ->
  bit (<[Z.to_nat (b / 8) := Z.land x (u8 (Z.lnot (Z.shiftl 1 (b mod 8))))]> bm) i =
  bit bm i && negb (i =? b).
Proof.
  intros Hb Hi Hx. pose proof (lookup_lt_Some _ _ _ Hx). pose proof (Z.mod_pos_bound i 8 ltac:(lia)).
  pose proof (Z.mod_pos_bound b 8 ltac:(lia)). pose proof (Z.div_pos b 8 Hb ltac:(lia)).
  rewrite bit_insert by lia. destruct (Z.eqb_spec (i / 8) (b / 8)) as [He|Hne].
  - rewrite Z.land_spec, u8_testbit, Z.lnot_spec, Z.shiftl_1_l, Z.pow2_bits_eqb by lia.
    rewrite Z.eqb_sym, same_bit by done. destruct (Z.ltb_spec (i mod 8) 8); [|lia]. cbn [andb].
    unfold bit. by rewrite He, (lookup_nth _ _ _ Hx).
  - destruct (Z.eqb_spec i b) as [->|]; [done|]. by rewrite andb_true_r.
Qed.

Lemma clear_bits_ok n bm e : Forall is_u8 bm -> Z.of_nat n <= e <= 8 * Z.of_nat (length bm) ->
  e < 2 ^ 32 ->
  exists bm', clear_bits n bm (u32 (e - 1)) = Some bm' /\ length bm' = length bm /\
    Forall is_u8 bm' /\
    forall i, 0 <= i -> bit bm' i = bit bm i && negb ((e - Z.of_nat n <=? i) && (i <? e)).
Proof.
  revert bm e. induction n as [|n IH]; intros bm e Hu He Hmax.
  { exists bm. split; [done|]. split; [done|]. split; [done|]. intros i Hi.
    destruct (Z.leb_spec (e - Z.of_nat 0) i), (Z.ltb_spec i e); rewrite ?andb_true_r; done || lia. }
  cbn [clear_bits]. rewrite (u32_id (e - 1)) by (unfold is_u32; lia).
  assert ((e - 1) / 8 < Z.of_nat (length bm)) by (apply Z.div_lt_upper_bound; lia).
  assert (0 <= (e - 1) / 8) by (apply Z.div_pos; lia).
  destruct (lookup_lt_is_Some_2 bm (Z.to_nat ((e - 1) / 8))) as [x Hx]; [lia|].
  rewrite Hx. cbn [mbind option_bind].
  destruct (IH (<[Z.to_nat ((e - 1) / 8) := Z.land x (u8 (Z.lnot (Z.shiftl 1 ((e - 1) mod 8))))]> bm) (e - 1))
    as (bm' & Hc & Hl & Hu' & Hb).
  - apply Forall_insert; [done|]. apply u8_land; [by eapply Forall_lookup_1 in Hx|].
    pose proof (u8_range (Z.lnot (Z.shiftl 1 ((e - 1) mod 8)))) as [? _]. done.
  - rewrite length_insert. lia.
  - lia.
  - exists bm'. split; [exact Hc|]. split; [by rewrite Hl, length_insert|]. split; [done|].
    intros i Hi. rewrite Hb, bit_clear_one by (done || lia). rewrite <- andb_assoc. f_equal.
    destruct (Z.leb_spec (e - 1 - Z.of_nat n) i), (Z.ltb_spec i (e - 1)), (Z.eqb_spec i (e - 1)),
      (Z.leb_spec (e - Z.of_nat (S n)) i), (Z.ltb_spec i e); done || lia.
Qed.

Lemma free_blocks_ok i g n : bg_ok i g -> 0 <= n -> header_blocks g <= first_free_block g - n ->
  first_block g + first_free_block g <= p_len_blocks P ->
  exists g', free_blocks g n = Some g' /\ bg_ok i g' /\ first_block g' = first_block g /\
    header_blocks g' = header_blocks g /\ first_free_inode g' = first_free_inode g /\
    first_free_block g' = first_free_block g - n /\ free_blocks_ g' = free_blocks_ g + n.
Proof.
  intros Hg Hn Hh Hend. pose proof Hg as []. destruct HP.
  destruct (clear_bits_ok (Z.to_nat n) (bitmaps g) (first_free_block g)) as (bm & Hc & Hl & Hu & Hb);
    [done | lia | lia |].
  unfold free_blocks. rewrite Hc. cbn [mbind option_bind].
  rewrite !u32_id by (unfold is_u32; lia). eexists. split; [reflexivity|].
  split; [|done]. split; cbn [bitmaps first_block header_blocks first_free_block free_blocks_ with_free with_bitmaps];
    [by rewrite Hl | done | done | lia | lia | lia | lia | done |].
  intros b Hbr. rewrite Hb, bo_bits0, Z2Nat.id by lia.
  replace (first_free_block g - n + (free_blocks_ g + n)) with (first_free_block g + free_blocks_ g) by lia.
  destruct (Z.leb_spec (first_free_block g) b), (Z.leb_spec (first_free_block g - n) b),
    (Z.ltb_spec b (first_free_block g + free_blocks_ g)), (Z.ltb_spec b (first_free_block g));
    done || lia.
Qed.

(** Returning the last [k] blocks of the one region of an allocation, when it
    was the last one allocated out of its group. *)
Lemma reduce_allocation_ok s p b n (i : nat) g nx pv it pt o k ext : groups_ok s ->
  heap s !! p = Some (Region b n (Z.of_nat i) nx pv) -> bgs s !! i = Some g ->
  first_block g <= b -> b + n = first_block g + first_free_block g -> 0 < k < n -> n < 2 ^ 32 ->
  live_ok s ((b, n) :: ext) ->
  let a := BlockAllocation (RegionList (Some p) (Some p) it pt) o in
  exists s', reduce_allocation a k s = Some (a, s') /\ groups_ok s' /\
    heap s' = <[p := Region b (n - k) (Z.of_nat i) nx pv]> (heap s) /\
    next_region s' = next_region s /\ free_inos s' = free_inos s /\ live_ok s' ((b, n - k) :: ext).
Proof.
  intros Hs Hp Hi Hstart Hend Hk Hmax [Hap Ho] a. pose proof Hs as [_ Hgs]. pose proof (Hgs i g Hi) as Hg.
  pose proof (lookup_lt_Some _ _ _ Hi) as Hlt.
  apply Forall_cons in Ho as [Hown Ho]. inversion_clear Hap as [|? ? Hap1 Hap2].
  assert (first_block g + header_blocks g <= b /\ b + n <= p_len_blocks P) as [Hlo Hlen].
  { destruct Hown as [? | (j & gj & Hj & Hpos & Hl & Hh & Hle)]; cbn [fst snd] in *; [lia|].
    pose proof (Hgs j gj Hj) as Hgj.
    destruct (bo_header _ _ Hg), (bo_header _ _ Hgj). pose proof (bo_fits _ _ Hg). pose proof (bo_fits _ _ Hgj).
    pose proof (bo_free _ _ Hg). pose proof (bo_free _ _ Hgj).
    destruct (lt_eq_lt_dec i j) as [[Hij | ->] | Hij].
    - pose proof (group_starts s i j g gj Hs Hi Hj Hij). lia.
    - rewrite Hi in Hj. injection Hj as <-. lia.
    - pose proof (group_starts s j i gj g Hs Hj Hi Hij). lia. }
  destruct (free_blocks_ok (Z.of_nat i) g k Hg) as (g' & Hf & Hg' & Hfb & Hhd & Hfi & Hff & Hfr);
    [lia | lia | lia |].
  unfold reduce_allocation, mbind, M_bind, mret, M_ret. cbn [list_ a reduce_loop].
  destruct (truthy k) eqn:Ht; [|apply truthy_false in Ht; lia]. cbn [last].
  unfold mbind at 1, M_bind at 1, deref. rewrite Hp. cbn [mbind option_bind r_bg r_len r_prev].
  unfold mbind at 1, M_bind at 1. rewrite (get_bg_ok _ _ _ Hi).
  destruct (Z.ltb_spec k n); [|lia].
  unfold mbind, M_bind, from_option. rewrite Hf. cbn [mbind option_bind].
  rewrite put_bg_ok by done. unfold store. cbn [heap set_bgs]. rewrite Hp. cbn [mbind option_bind].
  rewrite u32_id by (unfold is_u32; lia). cbn [truthy Z.eqb negb mret]. unfold M_ret.
  eexists. split; [reflexivity|]. split; [exact (groups_ok_put s i g' Hs Hg')|].
  split; [done|]. split; [done|]. split; [exact (free_inos_put s i g g' Hi Hfi)|]. split.
  - constructor; [|done]. eapply Forall_impl; [exact Hap1|].
    intros x [Hx|[Hx|[Hx|Hx]]]; unfold apart; cbn [fst snd] in *; lia.
  - constructor.
    + right. exists i, g'. cbn [bgs set_bgs set_heap fst snd]. rewrite list_lookup_insert_eq by done. split; [done|]. lia.
    + apply Forall_forall. intros x Hx. rewrite Forall_forall in Hap1, Ho.
      specialize (Hap1 x Hx). destruct (Ho x Hx) as [? | (j & gj & Hj & Hpos & Hl & Hh & Hle)]; [by left|].
      right. cbn [bgs set_bgs set_heap].
      destruct (decide (i = j)) as [<- | Hne].
      * rewrite Hi in Hj. injection Hj as <-. exists i, g'. rewrite list_lookup_insert_eq by done.
        split; [done|]. unfold apart in Hap1. cbn [fst snd] in *. lia.
      * exists j, gj. by rewrite list_lookup_insert_ne.
Qed.
End Invariant.
