(* ===== verification/Ext4Groups.v ===== *)
(** * Setting up and using the block groups (ext4_utils.c, allocate.c)

    The parameters ext4_create_fs_aux_info derives, what block_allocator_init makes
    of them, inode numbers, and the invariant of the allocator: whatever calls are
    made, no block and no inode number is handed out twice. *)

From stdpp Require Import base gmap list.
From Stdlib Require Import ZArith Lia.
From S2P Require Import Prelude Ext4Image Ext4Alloc.
Open Scope Z_scope.

(** ** Parameters *)

(** [DIV_ROUND_UP] in a type with wrap-around [w]. *)
Definition div_round_up (w : Z -> Z) (x y : Z) : Z := w (w (x + y) - 1) / y.

(** [sizeof(struct ext2_group_desc)] *)
Definition GROUP_DESC_SIZE : Z := 32.

(** [None]: a division by zero. *)
Definition ext4_create_fs_aux_info (block_size len blocks_per_group inodes_per_group inode_size
    feat_ro_compat : Z) : option fs_params :=
  if (block_size =? 0) || (blocks_per_group =? 0) then None else
  let first_data_block := if 1024 <? block_size then 0 else 1 in
  let len_blocks := len / block_size in
  let inode_table_blocks :=
    div_round_up u32 (u32 (inodes_per_group * inode_size)) block_size in
  let groups := u32 (div_round_up u64 (u64 (len_blocks - first_data_block)) blocks_per_group) in
  let blocks_per_ind := block_size / 4 in
  let bg_desc_blocks := div_round_up u32 (u32 (groups * GROUP_DESC_SIZE)) block_size in
  let reserve :=
    u32 (div_round_up u32 (u32 (u32 (groups * 1024) * GROUP_DESC_SIZE)) block_size
         - bg_desc_blocks) in
  let reserve := if blocks_per_ind <? reserve then blocks_per_ind else reserve in
  let last_group_size := u32 (len_blocks mod blocks_per_group) in
  let last_header_size := u32 (2 + inode_table_blocks) in
  sup ← ext4_bg_has_super_block feat_ro_compat (s32 (groups - 1));
  let last_header_size :=
    if truthy sup then u32 (last_header_size + (1 + bg_desc_blocks + reserve))
    else last_header_size in
  let '(groups, len_blocks) :=
    if (0 <? last_group_size) && (last_group_size <? last_header_size)
    then (u32 (groups - 1), u64 (len_blocks - last_group_size)) else (groups, len_blocks) in
  Some (FsParams block_size blocks_per_group inodes_per_group inode_size feat_ro_compat
          first_data_block len_blocks inode_table_blocks groups bg_desc_blocks reserve).

(** ** Initialisation *)

Section Init.
Context (P : fs_params) (HP : params_ok P) (errno : Z).

(** Blocks of the header of a group, with or without a superblock. *)
Definition header_size (sup : Z) : Z :=
  2 + p_inode_table_blocks P +
  if truthy sup then 1 + p_bg_desc_blocks P + p_bg_desc_reserve_blocks P else 0.

Definition group_start (i : Z) : Z := p_first_data_block P + i * p_blocks_per_group P.

(** Every header fits in the part of its group that is in the filesystem. *)
Record headers_fit : Prop := {
  hf_desc : 0 <= p_bg_desc_blocks P;
  hf_reserve : 0 <= p_bg_desc_reserve_blocks P;
  hf_table : 0 <= p_inode_table_blocks P;
  hf_inodes : 0 <= p_inodes_per_group P;
  hf_len : p_len_blocks P + p_blocks_per_group P < 2 ^ 32;
  hf_group : forall i sup, 0 <= i < p_groups P ->
    ext4_bg_has_super_block (p_feat_ro_compat P) i = Some sup ->
    header_size sup <= p_blocks_per_group P /\ group_start i + header_size sup <= p_len_blocks P
}.
Context (HF : headers_fit).

(** The group after the header is reserved. *)
Definition fresh_bg (i header sup addr : Z) (t : option Z) (dirs : Z) : block_group_info :=
  BlockGroupInfo (group_start i) header 0 sup addr (replicate (Z.to_nat (2 * p_block_size P)) 0) t
    (p_blocks_per_group P) 0 (p_inodes_per_group P) 1 dirs.

Lemma bit_replicate n i : bit (replicate n 0) i = false.
Proof.
  unfold bit. rewrite nth_lookup. destruct (replicate n 0 !! Z.to_nat (i / 8)) as [x|] eqn:E.
  - apply lookup_replicate in E as [-> _]. apply Z.testbit_0_l.
  - apply Z.testbit_0_l.
Qed.

(** Blocks of group [i] that are in the filesystem. *)
Definition group_size (i : Z) : Z := Z.min (p_blocks_per_group P) (p_len_blocks P - group_start i).

Lemma group_start_range i : 0 <= i < p_groups P ->
  0 <= group_start i /\ group_start i + p_blocks_per_group P < 2 ^ 32 - 1 /\
  group_start i <= p_len_blocks P.
Proof. intros Hi. destruct HP. unfold group_start. nia. Qed.

(** A group whose header is reserved and whose blocks past the end are taken. *)
Lemma group_of_marks i header sup addr t dirs bm ff : 0 <= i < p_groups P ->
  0 < header <= group_size i ->
  Z.of_nat (length bm) = 2 * p_block_size P -> Forall is_u8 bm ->
  (ff = header \/ (group_size i = header /\ ff = p_blocks_per_group P)) ->
  (forall b, 0 <= b < p_blocks_per_group P ->
     bit bm b = negb ((header <=? b) && (b <? group_size i))) ->
  bg_ok P i (BlockGroupInfo (group_start i) header 0 sup addr bm t (group_size i - header) ff
               (p_inodes_per_group P) 1 dirs).
Proof.
  intros Hi Hh Hl Hu Hff Hb. destruct (group_start_range i Hi) as (? & ? & ?). destruct HP, HF.
  unfold group_size in *.
  split; cbn [bitmaps first_block header_blocks first_free_block free_blocks_ first_free_inode free_inodes];
    [done | done | done | lia | lia | lia | lia | lia |].
  intros b Hbr. rewrite Hb by done. f_equal.
  destruct Hff as [-> | [He ->]].
  - f_equal. f_equal. lia.
  - destruct (Z.leb_spec header b), (Z.leb_spec (p_blocks_per_group P) b),
      (Z.ltb_spec b (Z.min (p_blocks_per_group P) (p_len_blocks P - group_start i))); done || lia.
Qed.

Lemma overrun_cases i : 0 <= i < p_groups P ->
  let overrun := u32 (u64 (u32 (group_start i + p_blocks_per_group P) - p_len_blocks P)) in
  (group_size i = p_blocks_per_group P /\ (overrun = 0 \/ p_blocks_per_group P < overrun)) \/
  (overrun = p_blocks_per_group P - group_size i /\ 0 < overrun).
Proof.
  intros Hi. destruct (group_start_range i Hi) as (? & ? & ?). destruct HP, HF. unfold group_size.
  cbv zeta. rewrite (u32_id (group_start i + _)) by (unfold is_u32; lia).
  destruct (Z_le_gt_dec (group_start i + p_blocks_per_group P) (p_len_blocks P)) as [Hle|Hgt].
  - left. split; [lia|].
    destruct (Z.eq_dec (group_start i + p_blocks_per_group P) (p_len_blocks P)) as [E|E].
    + left. rewrite E, Z.sub_diag. done.
    + right. unfold u64, u32.
      rewrite Z.mod_mod_divide by (by exists 4294967296).
      rewrite <- (Z.mod_unique _ 4294967296 (-1)
        (group_start i + p_blocks_per_group P - p_len_blocks P + 4294967296)) by lia. lia.
  - right. rewrite u64_id, u32_id by (unfold is_u32, is_u64; lia). lia.
Qed.

Lemma header_fits i sup : 0 <= i < p_groups P ->
  ext4_bg_has_super_block (p_feat_ro_compat P) i = Some sup ->
  0 < header_size sup <= group_size i.
Proof.
  intros Hi Hs. destruct HF. destruct (hf_group0 i sup Hi Hs).
  unfold group_size. split; [|lia]. unfold header_size. destruct (truthy sup); lia.
Qed.

(** The group with its header reserved. *)
Definition header_bg (i header sup addr : Z) (t : option Z) (dirs : Z) (bm : list Z) (free ff : Z) :=
  BlockGroupInfo (group_start i) header 0 sup addr bm t free ff (p_inodes_per_group P) 1 dirs.

Lemma init_header i header sup addr t dirs : 0 <= i < p_groups P -> 0 < header <= group_size i ->
  exists bm, reserve_blocks (fresh_bg i header sup addr t dirs) 0 header =
      Some (header_bg i header sup addr t dirs bm (p_blocks_per_group P - header) header, 0) /\
    Z.of_nat (length bm) = 2 * p_block_size P /\ Forall is_u8 bm /\
    (forall b, 0 <= b -> bit bm b = (b <? header)).
Proof.
  intros Hi Hh. assert (group_size i <= p_blocks_per_group P) by (unfold group_size; lia).
  destruct HP. set (g0 := fresh_bg i header sup addr t dirs).
  assert (Z.of_nat (length (bitmaps g0)) = 2 * p_block_size P) as Hl0
    by (cbn; rewrite length_replicate; lia).
  destruct (reserve_blocks_ok g0 0 header) as (bm & Hr & Hl & Hu & Hb).
  { split; [by apply Forall_replicate|]. rewrite Hl0. unfold is_u32. cbn [free_blocks_ g0 fresh_bg].
    repeat split; try lia. intros b _. apply bit_replicate. }
  exists bm. split; [exact Hr|]. split; [by rewrite Hl|]. split; [done|]. intros b Hb0.
  rewrite Hb by done. cbn [bitmaps g0 fresh_bg]. rewrite bit_replicate. cbn [orb].
  destruct (Z.leb_spec 0 b); [done | lia].
Qed.

(** The reservation of the blocks past the end of the filesystem. *)
Lemma init_overrun i header sup addr t dirs bm : 0 <= i < p_groups P -> 0 < header <= group_size i ->
  Z.of_nat (length bm) = 2 * p_block_size P -> Forall is_u8 bm ->
  (forall b, 0 <= b -> bit bm b = (b <? header)) ->
  let g1 := header_bg i header sup addr t dirs bm (p_blocks_per_group P - header) header in
  let overrun := u32 (u64 (u32 (group_start i + p_blocks_per_group P) - p_len_blocks P)) in
  exists bm' ff r,
    (if 0 <? overrun then reserve_blocks g1 (u32 (p_blocks_per_group P - overrun)) overrun
     else Some (g1, 0)) =
    Some (header_bg i header sup addr t dirs bm' (group_size i - header) ff, r) /\
    bg_ok P i (header_bg i header sup addr t dirs bm' (group_size i - header) ff).
Proof.
  intros Hi Hh Hl Hu Hb g1 overrun.
  assert (group_size i <= p_blocks_per_group P) as Hgs by (unfold group_size; lia).
  pose proof HP as []. destruct (overrun_cases i Hi) as [[Hfull Hov] | [Hov Hpos]]; fold overrun in Hov.
  - exists bm, header, (if 0 <? overrun then -1 else 0). rewrite Hfull. split.
    + destruct Hov as [-> | Hov]; [done|]. destruct (Z.ltb_spec 0 overrun); [|lia].
      apply reserve_blocks_fails. cbn. lia.
    + rewrite <- Hfull. apply group_of_marks; [done | done | done | done | by left |].
      intros b Hbr. rewrite Hb, Hfull by lia.
      destruct (Z.ltb_spec b header), (Z.leb_spec header b), (Z.ltb_spec b (p_blocks_per_group P));
        done || lia.
  - rewrite Hov, (u32_id (p_blocks_per_group P - _)) by (unfold is_u32; lia).
    replace (p_blocks_per_group P - (p_blocks_per_group P - group_size i)) with (group_size i) by lia.
    destruct (Z.ltb_spec 0 (p_blocks_per_group P - group_size i)); [|lia].
    destruct (reserve_blocks_ok g1 (group_size i) (p_blocks_per_group P - group_size i))
      as (bm2 & Hr2 & Hl2 & Hu2 & Hb2).
    { split; [done|]. cbn [bitmaps free_blocks_ g1 header_bg]. rewrite Hl. unfold is_u32.
      repeat split; try lia. intros b Hbr. rewrite Hb by lia.
      destruct (Z.ltb_spec b header); [lia | done]. }
    exists bm2, (if group_size i =? header then p_blocks_per_group P else header), 0. split.
    + rewrite Hr2. unfold reserved, header_bg, g1.
      cbn [with_free with_bitmaps free_blocks_ first_free_block header_bg].
      replace (p_blocks_per_group P - header - (p_blocks_per_group P - group_size i))
        with (group_size i - header) by lia.
      by replace (group_size i + (p_blocks_per_group P - group_size i))
        with (p_blocks_per_group P) by lia.
    + apply group_of_marks; [done | done | by rewrite Hl2 | done | |].
      * destruct (Z.eqb_spec (group_size i) header); [by right | by left].
      * intros b Hbr. rewrite Hb2 by lia. cbn [bitmaps g1 header_bg]. rewrite Hb by lia.
        destruct (Z.ltb_spec b header), (Z.leb_spec header b), (Z.ltb_spec b (group_size i)),
          (Z.leb_spec (group_size i) b),
          (Z.ltb_spec b (group_size i + (p_blocks_per_group P - group_size i))); done || lia.
Qed.

Lemma header_words i sup : 0 <= i < p_groups P ->
  ext4_bg_has_super_block (p_feat_ro_compat P) i = Some sup ->
  (if truthy sup then s32 (s32 (2 + p_inode_table_blocks P)
                           + (1 + p_bg_desc_blocks P + p_bg_desc_reserve_blocks P))
   else s32 (2 + p_inode_table_blocks P)) = header_size sup /\ u32 (header_size sup) = header_size sup.
Proof.
  intros Hi Hs. pose proof (header_fits i sup Hi Hs) as Hh. destruct HP, HF.
  assert (header_size sup < 2 ^ 31) by (unfold group_size in Hh; lia).
  split; [|apply u32_id; unfold is_u32; lia]. unfold header_size in *.
  destruct (truthy sup); rewrite !s32_id; unfold is_s32; try lia; rewrite ?s32_id; unfold is_s32; lia.
Qed.

(** A group as it is set up: in order, unused, with all blocks behind its header free. *)
Definition new_group (i : Z) (g : block_group_info) : Prop :=
  bg_ok P i g /\ data_blocks_used g = 0 /\ exists sup,
    ext4_bg_has_super_block (p_feat_ro_compat P) i = Some sup /\
    header_blocks g = header_size sup /\ free_blocks_ g = group_size i - header_size sup.

(** This is what setting up a group without an error leaves. *)
Lemma init_bg_ok (i : nat) s r s' : Z.of_nat i < p_groups P ->
  Z.of_nat (length (bgs s)) = p_groups P ->
  init_bg P (Z.of_nat i) s = Some (r, s') -> truthy r = false ->
  exists g, bgs s' = <[i := g]> (bgs s) /\ new_group (Z.of_nat i) g /\
    heap s' = heap s /\ next_region s' = next_region s.
Proof.
  intros Hi Hl. unfold init_bg, mbind, M_bind, from_option, mret, M_ret.
  destruct (ext4_bg_has_super_block _ _) as [sup|] eqn:Hsup; [|done]. cbn [mbind option_bind].
  destruct (header_words (Z.of_nat i) sup ltac:(lia) Hsup) as [Hhw Hhu]. rewrite Hhw.
  pose proof (header_fits (Z.of_nat i) sup ltac:(lia) Hsup) as Hh.
  destruct (group_start_range (Z.of_nat i) ltac:(lia)) as (? & ? & _). destruct HP.
  assert (u32 (p_first_data_block P + u32 (Z.of_nat i * p_blocks_per_group P)) = group_start (Z.of_nat i))
    as Hst.
  { unfold group_start in *. rewrite (u32_id (Z.of_nat i * _)) by (unfold is_u32; nia).
    apply u32_id. unfold is_u32. lia. }
  rewrite Hst. destruct (calloc s) as [[[addr|] s1]|] eqn:Hc; [|done..].
  assert (bgs s1 = bgs s /\ heap s1 = heap s /\ next_region s1 = next_region s) as (Hb1 & Hh1 & Hn1).
  { unfold calloc in Hc. destruct (callocs s) as [|[] ?]; by simplify_eq/=. }
  destruct (lookup_lt_is_Some_2 (bgs s1) i) as [g0 Hg0]; [rewrite Hb1; lia|].
  rewrite (get_bg_ok _ _ _ Hg0), put_bg_ok by (rewrite Hb1; lia).
  unfold queue_data_block, queue_block.
  destruct (truthy (match _ with [] => _ | _ => _ end)) eqn:Ht.
  { intros [= <- <-] Hr. cbn [queue_rets set_bgs] in Ht, Hr. by rewrite Ht in Hr. }
  cbn [first_free_block]. rewrite Hhu.
  destruct (init_header (Z.of_nat i) (header_size sup) sup addr (inode_table g0) (used_dirs g0) ltac:(lia) Hh)
    as (bm & Hr1 & Hlb & Hu & Hbits).
  unfold fresh_bg in Hr1. rewrite Hr1. cbn [mbind option_bind].
  destruct (init_overrun (Z.of_nat i) (header_size sup) sup addr (inode_table g0) (used_dirs g0) bm
    ltac:(lia) Hh Hlb Hu Hbits) as (bm' & ff & r' & Hov & Hok).
  intros Hres Hr.
  destruct (0 <? u32 _).
  - rewrite Hov in Hres. cbn [mbind option_bind] in Hres.
    rewrite put_bg_ok in Hres by (cbn [bgs set_bgs]; rewrite length_insert, Hb1; lia).
    injection Hres as <- <-. eexists. split; [|split; [split; [exact Hok | by split; [|exists sup]] | done]].
    cbn [bgs set_bgs]. by rewrite Hb1, list_insert_insert_eq.
  - apply (inj Some), (f_equal fst) in Hov. cbn [fst] in Hov. rewrite Hov in Hres.
    rewrite put_bg_ok in Hres by (cbn [bgs set_bgs]; rewrite length_insert, Hb1; lia).
    injection Hres as <- <-. eexists. split; [|split; [split; [exact Hok | by split; [|exists sup]] | done]].
    cbn [bgs set_bgs]. by rewrite Hb1, list_insert_insert_eq.
Qed.

Lemma init_loop_ok n (i : nat) s r s' : Z.of_nat i + Z.of_nat n = p_groups P ->
  Z.of_nat (length (bgs s)) = p_groups P ->
  (forall (j : nat) g, (j < i)%nat -> bgs s !! j = Some g -> new_group (Z.of_nat j) g) ->
  init_loop P n (Z.of_nat i) s = Some (r, s') -> truthy r = false ->
  Z.of_nat (length (bgs s')) = p_groups P /\
  (forall (j : nat) g, bgs s' !! j = Some g -> new_group (Z.of_nat j) g) /\
  heap s' = heap s /\ next_region s' = next_region s.
Proof.
  revert i s. induction n as [|n IH]; intros i s Hi Hl Hg; cbn [init_loop].
  { intros [= <- <-] _. split; [done|]. split; [|done]. intros j g Hj.
    apply Hg; [|done]. apply lookup_lt_Some in Hj. lia. }
  unfold mbind, M_bind, mret, M_ret. destruct (init_bg P (Z.of_nat i) s) as [[r1 s1]|] eqn:Hb; [|done].
  destruct (truthy r1) eqn:Ht. { intros [= <- <-]. by rewrite Ht. }
  destruct (init_bg_ok i s r1 s1 ltac:(lia) Hl Hb Ht) as (g & Hbgs & Hnew & Hh & Hn).
  replace (Z.of_nat i + 1) with (Z.of_nat (S i)) by lia. intros Hloop Hr. rewrite <- Hh, <- Hn.
  eapply IH; [| | | exact Hloop | exact Hr]; [lia | by rewrite Hbgs, length_insert |].
  intros j gj Hj. rewrite Hbgs. intros [[-> [<- _]] | [Hne Hjg]]%list_lookup_insert_Some; [done|].
  apply Hg; [lia | done].
Qed.

(** [errno] is not 0 when calloc has failed. *)
Lemma block_allocator_init_ok s r s' : truthy errno = true ->
  block_allocator_init P errno s = Some (r, s') -> truthy r = false ->
  groups_ok P s' /\ (forall (j : nat) g, bgs s' !! j = Some g -> new_group (Z.of_nat j) g) /\
  heap s' = heap s /\ next_region s' = next_region s.
Proof.
  intros He. unfold block_allocator_init, mbind, M_bind, mret, M_ret.
  destruct (calloc s) as [[[a|] s1]|] eqn:Hc; [| |done].
  2: { intros [= <- <-]. by rewrite He. }
  assert (heap s1 = heap s /\ next_region s1 = next_region s) as [<- <-].
  { unfold calloc in Hc. destruct (callocs s) as [|[] ?]; by simplify_eq/=. }
  intros Hloop Hr. pose proof HP as [].
  destruct (init_loop_ok (Z.to_nat (p_groups P)) 0 (set_bgs (replicate (Z.to_nat (p_groups P)) zero_bg) s1) r s')
    as (Hl & Hg & Hh & Hn); [lia | cbn; rewrite length_replicate; lia | lia | exact Hloop | done |].
  split; [|split; [done | split; [exact Hh | exact Hn]]]. split; [done|]. intros j g Hj. by apply (Hg j g Hj).
Qed.
End Init.

(** ** Inode numbers *)

Section Inodes.
Context (P : fs_params) (HP : params_ok P).

(** The inode bitmap has room for the inodes of a group, and inode numbers fit
    in 32 bits, the value that stands for failure left out. *)
Definition inodes_fit : Prop :=
  0 < p_inodes_per_group P <= 8 * p_block_size P /\
  p_groups P * p_inodes_per_group P < EXT4_ALLOCATE_FAILED.

Context (HI : inodes_fit).

Lemma set_inode_bits_ok n bm i ffi : Forall is_u8 bm ->
  Z.of_nat (length bm) = 2 * p_block_size P -> 1 <= ffi -> 0 <= i ->
  ffi + i + Z.of_nat n <= p_inodes_per_group P + 1 ->
  exists bm', set_inode_bits P n bm i ffi = Some bm' /\
    length bm' = length bm /\ Forall is_u8 bm' /\
    forall b, 0 <= b < 8 * p_block_size P -> bit bm' b = bit bm b.
Proof.
  revert bm i. induction n as [|n IH]; intros bm i Hu Hl Hf Hi Hn; cbn [set_inode_bits]; [by exists bm|].
  destruct HP, HI as [Hipg _]. rewrite (u32_id (ffi + i - 1)) by (unfold is_u32; lia).
  set (ino := ffi + i - 1). set (k := Z.to_nat _).
  assert (0 <= ino / 8 < p_block_size P)
    by (split; [apply Z.div_pos; subst ino; lia | apply Z.div_lt_upper_bound; subst ino; lia]).
  destruct (lookup_lt_is_Some_2 bm k) as [x Hx]; [subst k; lia|]. rewrite Hx. cbn [mbind option_bind].
  pose proof (Z.mod_pos_bound ino 8 ltac:(lia)).
  destruct (IH (<[k := Z.lor x (Z.shiftl 1 (ino mod 8))]> bm) (i + 1)) as (bm' & Hb' & Hl' & Hu' & Hbits);
    [| by rewrite length_insert | lia | lia | lia |].
  { apply Forall_insert; [done|]. rewrite Z.shiftl_1_l. apply u8_lor_bit; [by eapply Forall_lookup_1 in Hx | lia]. }
  exists bm'. rewrite length_insert in Hl'. split; [done|]. split; [done|]. split; [done|].
  intros b Hb. rewrite Hbits by done. unfold bit. rewrite nth_insert by (by eapply lookup_lt_Some).
  assert (0 <= b / 8 < p_block_size P)
    by (split; [apply Z.div_pos; lia | apply Z.div_lt_upper_bound; lia]).
  destruct (Nat.eqb_spec (Z.to_nat (b / 8)) k); [subst k; lia | done].
Qed.

(** [g'] is [g] with the next [num] inodes taken. *)
Definition inodes_taken (g g' : block_group_info) (num : Z) : Prop :=
  first_free_inode g' = first_free_inode g + num /\
  first_block g' = first_block g /\ header_blocks g' = header_blocks g /\
  first_free_block g' = first_free_block g /\ free_blocks_ g' = free_blocks_ g /\
  data_blocks_used g' = data_blocks_used g.

Lemma reserve_inodes_ok s (i : nat) g num : groups_ok P s -> bgs s !! i = Some g -> 0 <= num ->
  (free_inodes g < num /\ reserve_inodes P (Z.of_nat i) num s = Some (EXT4_ALLOCATE_FAILED, s)) \/
  (num <= free_inodes g /\ exists g', bg_ok P (Z.of_nat i) g' /\ inodes_taken g g' num /\
     reserve_inodes P (Z.of_nat i) num s =
       Some (first_free_inode g, set_bgs (<[i := g']> (bgs s)) s)).
Proof.
  intros [Hl Hg] Hi Hn. pose proof (Hg i g Hi) as Hok.
  unfold reserve_inodes, get_free_inodes, mbind, M_bind, mret, M_ret, from_option.
  rewrite (get_bg_ok _ _ _ Hi). destruct (Z.ltb_spec (free_inodes g) num); [by left | right].
  split; [done|]. rewrite (get_bg_ok _ _ _ Hi). destruct Hok, HP, HI as [Hipg _].
  destruct (set_inode_bits_ok (Z.to_nat num) (bitmaps g) 0 (first_free_inode g))
    as (bm & -> & Hlb & Hu & Hbits); [done | done | lia | lia | lia |].
  cbn [mbind option_bind]. rewrite put_bg_ok by (by eapply lookup_lt_Some).
  rewrite !u32_id by (unfold is_u32; lia). eexists. split; [|split; [|reflexivity]]; [|done].
  split; cbn [bitmaps first_block header_blocks first_free_block free_blocks_ first_free_inode free_inodes];
    [by rewrite Hlb | done | done | lia | lia | lia | done | lia |].
  intros b Hbr. rewrite Hbits by lia. by apply bo_bits.
Qed.

(** The inode number [ino] has been handed out: it is below the first free one
    of its group. *)
Definition ino_owned (f : list Z) (ino : Z) : Prop :=
  exists (i : nat) k, f !! i = Some k /\
    Z.of_nat i * p_inodes_per_group P < ino < Z.of_nat i * p_inodes_per_group P + k.

Definition inos_ok (s : state) (inos : list Z) : Prop :=
  NoDup inos /\ Forall (ino_owned (free_inos s)) inos.

(** [g'] owns the same blocks as [g]. *)
Definition same_blocks (g g' : block_group_info) : Prop :=
  first_block g' = first_block g /\ header_blocks g' = header_blocks g /\
  first_free_block g' = first_free_block g.

Lemma live_put s (i : nat) g g' ext : bgs s !! i = Some g -> same_blocks g g' ->
  live_ok P s ext -> live_ok P (set_bgs (<[i := g']> (bgs s)) s) ext.
Proof.
  intros Hi (Hb & Hh & Hf) [Hap Ho]. split; [done|]. eapply Forall_impl; [exact Ho|].
  intros x [Hx | (j & gj & Hj & Hx)]; [by left | right]. cbn [bgs set_bgs].
  pose proof (lookup_lt_Some _ _ _ Hi). destruct (decide (i = j)) as [<- | Hne].
  - rewrite Hi in Hj. injection Hj as <-. exists i, g'. rewrite list_lookup_insert_eq by done.
    split; [done|]. lia.
  - exists j, gj. by rewrite list_lookup_insert_ne.
Qed.

Lemma free_ino_range s (i : nat) k : groups_ok P s -> free_inos s !! i = Some k ->
  1 <= k <= p_inodes_per_group P + 1.
Proof.
  intros [_ Hg]. unfold free_inos. rewrite list_lookup_fmap.
  destruct (bgs s !! i) as [g|] eqn:Hi; [|done]. intros [= <-]. destruct (Hg i g Hi). lia.
Qed.

(** The numbers handed out next are new. *)
Lemma inos_take s (i : nat) g g' num inos : groups_ok P s -> bgs s !! i = Some g ->
  0 <= num <= free_inodes g -> bg_ok P (Z.of_nat i) g' -> inodes_taken g g' num -> inos_ok s inos ->
  inos_ok (set_bgs (<[i := g']> (bgs s)) s)
    (seqZ (Z.of_nat i * p_inodes_per_group P + first_free_inode g) num ++ inos).
Proof.
  intros Hs Hi Hn Hg' (Hff & _) [Hnd Ho]. destruct HI as [Hipg _].
  pose proof (lookup_lt_Some _ _ _ Hi) as Hlt.
  assert (free_inos s !! i = Some (first_free_inode g)) as Hfi
    by (unfold free_inos; by rewrite list_lookup_fmap, Hi).
  pose proof (bo_inodes _ _ _ (proj2 Hs i g Hi)) as Hin.
  assert (free_inos (set_bgs (<[i := g']> (bgs s)) s) = <[i := first_free_inode g + num]> (free_inos s)) as Hf'.
  { unfold free_inos. cbn [bgs set_bgs]. by rewrite list_fmap_insert, Hff. }
  assert (i < length (free_inos s))%nat as Hlf by (by eapply lookup_lt_Some).
  unfold inos_ok. rewrite Hf'. split.
  - apply NoDup_app. split; [apply NoDup_seqZ|]. split; [|done]. intros x Hx%elem_of_seqZ Hxi.
    rewrite Forall_forall in Ho. destruct (Ho x Hxi) as (j & k & Hj & Hk).
    pose proof (free_ino_range s j k Hs Hj).
    destruct (lt_eq_lt_dec i j) as [[Hij | <-] | Hij]; [nia | | nia].
    rewrite Hfi in Hj. injection Hj as <-. lia.
  - apply Forall_app. split.
    + apply Forall_forall. intros x Hx%elem_of_seqZ. exists i, (first_free_inode g + num).
      rewrite list_lookup_insert_eq by done. split; [done|]. lia.
    + eapply Forall_impl; [exact Ho|]. intros x (j & k & Hj & Hk).
      destruct (decide (i = j)) as [<- | Hne].
      * exists i, (first_free_inode g + num). rewrite list_lookup_insert_eq by done.
        rewrite Hfi in Hj. injection Hj as <-. split; [done|]. lia.
      * exists j, k. by rewrite list_lookup_insert_ne.
Qed.

(** allocate_inode: the first group with a free inode. *)
Lemma inode_loop_ok n (i : nat) s : groups_ok P s -> Z.of_nat i + Z.of_nat n = p_groups P ->
  inode_loop P n (Z.of_nat i) s = Some (EXT4_ALLOCATE_FAILED, s) /\
    (forall (j : nat) g, (i <= j)%nat -> bgs s !! j = Some g -> free_inodes g = 0) \/
  exists (j : nat) g g', bgs s !! j = Some g /\ 1 <= free_inodes g /\
    bg_ok P (Z.of_nat j) g' /\ inodes_taken g g' 1 /\
    inode_loop P n (Z.of_nat i) s =
      Some (Z.of_nat j * p_inodes_per_group P + first_free_inode g, set_bgs (<[j := g']> (bgs s)) s).
Proof.
  intros Hs. revert i. induction n as [|n IH]; intros i Hi; cbn [inode_loop].
  { left. split; [done|]. intros j g Hj Hg%lookup_lt_Some. destruct Hs as [Hl _]. lia. }
  destruct (lookup_lt_is_Some_2 (bgs s) i) as [g Hg]; [destruct Hs as [Hl _]; lia|].
  pose proof (bo_inodes _ _ _ (proj2 Hs i g Hg)) as Hino. destruct HI as [Hipg Htot], HP.
  unfold mbind, M_bind. destruct (reserve_inodes_ok s i g 1 Hs Hg) as [[Hf ->] | (Hf & g' & Hg' & Ht & ->)]; [lia | |].
  - rewrite Z.eqb_refl. cbn [negb]. replace (Z.of_nat i + 1) with (Z.of_nat (S i)) by lia.
    destruct (IH (S i)) as [[Hl Hall] | Hr]; [lia | left | by right]. split; [done|].
    intros j gj Hj Hgj. destruct (decide (i = j)) as [<- | Hne]; [|apply (Hall j); [lia | done]].
    rewrite Hg in Hgj. injection Hgj as <-. lia.
  - unfold EXT4_ALLOCATE_FAILED in *.
    destruct (Z.eqb_spec (first_free_inode g) 0xFFFFFFFF); [lia|]. cbn [negb]. right.
    exists i, g, g'. do 4 (split; [done|]). unfold mret, M_ret.
    rewrite u32_id by (unfold is_u32; nia). done.
Qed.

Lemma allocate_inode_ok s : groups_ok P s ->
  allocate_inode P s = Some (EXT4_ALLOCATE_FAILED, s) /\
    (forall (j : nat) g, bgs s !! j = Some g -> free_inodes g = 0) \/
  exists (j : nat) g g', bgs s !! j = Some g /\ 1 <= free_inodes g /\
    bg_ok P (Z.of_nat j) g' /\ inodes_taken g g' 1 /\
    allocate_inode P s =
      Some (Z.of_nat j * p_inodes_per_group P + first_free_inode g, set_bgs (<[j := g']> (bgs s)) s).
Proof.
  intros Hs. destruct HP. destruct (inode_loop_ok (Z.to_nat (p_groups P)) 0 s Hs) as [[Hl Hf] | Hr];
    [lia | left | by right].
  split; [exact Hl|]. intros j g. apply Hf. lia.
Qed.
End Inodes.
