(* ===== verification/Ext4Reach.v ===== *)
(** * The allocator over a sequence of calls (ext4_utils/allocate.c)

    What the list functions leave alone, what get_block returns on the list an
    allocation built, and the invariant of the allocator: whatever calls are made,
    no block and no inode number is handed out twice. *)

From stdpp Require Import base gmap list.
From Stdlib Require Import ZArith Lia.
From S2P Require Import Prelude Ext4Image Ext4Alloc Ext4Groups.
Open Scope Z_scope.

(** ** Calls that take no block and no inode *)

(** A group without what belongs to the inode table and the directory count. *)
Definition core (g : block_group_info) : block_group_info :=
  BlockGroupInfo (first_block g) (header_blocks g) (data_blocks_used g) (has_superblock g)
    (bitmaps_at g) (bitmaps g) None (free_blocks_ g) (first_free_block g) (free_inodes g)
    (first_free_inode g) 0.

Definition quiet {A} (m : M A) : Prop := forall s a s', m s = Some (a, s') ->
  core <$> bgs s' = core <$> bgs s /\ (heap_ok s -> heap_ok s').

Create HintDb quiet.

Lemma quiet_ret {A} (a : A) : quiet (mret a).
Proof. by intros s a' s' [= <- <-]. Qed.

Lemma quiet_fail {A} : quiet (@fail A).
Proof. by intros s a s'. Qed.

Lemma quiet_bind {A B} (m : M A) (k : A -> M B) :
  quiet m -> (forall a, quiet (k a)) -> quiet (m ≫= k).
Proof.
  intros Hm Hk s b s'. unfold mbind, M_bind. destruct (m s) as [[a s1]|] eqn:E; [|done].
  intros H. destruct (Hm _ _ _ E) as [Hb1 Hh1], (Hk a _ _ _ H) as [Hb2 Hh2].
  split; [by rewrite Hb2 | auto].
Qed.

Lemma quiet_deref p : quiet (deref p).
Proof. intros s a s'. unfold deref. destruct (heap s !! p); [|done]. by intros [= <- <-]. Qed.

Lemma quiet_store p r : quiet (store p r).
Proof.
  intros s a s'. unfold store. destruct (heap s !! p) eqn:E; [|done]. intros [= <- <-]. split; [done|].
  intros Hh q. cbn [heap set_heap next_region]. intros [y [[<- _] | [_ Hq]]%lookup_insert_Some]; apply Hh; eauto.
Qed.

Lemma quiet_new_region r : quiet (new_region r).
Proof.
  intros s a s' [= <- <-]. split; [done|]. intros Hh q. cbn [heap next_region].
  intros [y [[<- _] | [_ Hq]]%lookup_insert_Some]; [lia|].
  assert (q < next_region s)%nat; [apply Hh; eauto | lia].
Qed.

Lemma quiet_free_region p : quiet (free_region p).
Proof.
  intros s a s'. unfold free_region. destruct (heap s !! p) eqn:E; [|done]. intros [= <- <-].
  split; [done|]. intros Hh q. cbn [heap set_heap next_region]. intros [y [_ Hq]%lookup_delete_Some].
  apply Hh. eauto.
Qed.

Lemma quiet_walk_fuel : quiet walk_fuel.
Proof. by intros s a s' [= <- <-]. Qed.

Lemma quiet_get_bg i : quiet (get_bg i).
Proof.
  intros s a s'. unfold get_bg. destruct (i <? 0); [done|].
  destruct (bgs s !! Z.to_nat i); [|done]. by intros [= <- <-].
Qed.

Lemma quiet_queue q : quiet (queue_block q).
Proof. by intros s a s' [= <- <-]. Qed.

Lemma quiet_calloc : quiet calloc.
Proof.
  intros s a s'. unfold calloc. destruct (callocs s) as [|[] ?]; by intros [= <- <-].
Qed.

#[export] Hint Resolve quiet_ret quiet_fail quiet_bind quiet_deref quiet_store quiet_new_region
  quiet_free_region quiet_walk_fuel quiet_get_bg quiet_queue quiet_calloc : quiet.

(** Case analysis on the control flow of a call, the lemmas above on its parts. *)
Ltac quiet :=
  repeat (intros; match goal with
  | |- quiet (_ ≫= _) => apply quiet_bind
  | |- quiet (match ?x with _ => _ end) => destruct x
  | |- quiet _ => solve [eauto with quiet]
  end).

Lemma quiet_region_list_remove l p : quiet (region_list_remove l p).
Proof. unfold region_list_remove. quiet. Qed.

Lemma quiet_region_list_append l p : quiet (region_list_append l p).
Proof. unfold region_list_append. quiet. Qed.
#[export] Hint Resolve quiet_region_list_remove quiet_region_list_append : quiet.

Lemma quiet_append_region a b n g : quiet (append_region a b n g).
Proof. unfold append_region. quiet. Qed.

Lemma quiet_num_regions_loop fuel p i : quiet (num_regions_loop fuel p i).
Proof. revert p i. induction fuel; cbn [num_regions_loop]; quiet. Qed.

Lemma quiet_len_loop fuel p i : quiet (len_loop fuel p i).
Proof. revert p i. induction fuel; cbn [len_loop]; quiet. Qed.

Lemma quiet_get_block_loop fuel p i : quiet (get_block_loop fuel p i).
Proof. revert p i. induction fuel; cbn [get_block_loop]; quiet. Qed.

Lemma quiet_split_loop fuel p i : quiet (split_loop fuel p i).
Proof. revert p i. induction fuel; cbn [split_loop]; quiet. Qed.
#[export] Hint Resolve quiet_num_regions_loop quiet_len_loop quiet_get_block_loop quiet_split_loop : quiet.

Lemma quiet_do_split_allocation l n : quiet (do_split_allocation l n).
Proof. unfold do_split_allocation. quiet. Qed.
#[export] Hint Resolve quiet_do_split_allocation : quiet.

Lemma quiet_split_allocation l n : quiet (split_allocation l n).
Proof. unfold split_allocation. quiet. Qed.

Lemma quiet_move_loop fuel a p : quiet (move_loop fuel a p).
Proof. revert a p. induction fuel; cbn [move_loop]; quiet. Qed.

Lemma quiet_advance_loop fuel p x n : quiet (advance_loop fuel p x n).
Proof. revert p x n. induction fuel; cbn [advance_loop]; quiet. Qed.

Lemma quiet_append_loop fuel o p : quiet (append_loop fuel o p).
Proof. revert o p. induction fuel; cbn [append_loop]; quiet. Qed.

Lemma quiet_free_list_loop fuel p : quiet (free_list_loop fuel p).
Proof. revert p. induction fuel; cbn [free_list_loop]; quiet. Qed.
#[export] Hint Resolve quiet_split_allocation quiet_move_loop quiet_advance_loop quiet_append_loop
  quiet_free_list_loop : quiet.

Lemma quiet_reserve_oob_blocks a n : quiet (reserve_oob_blocks a n).
Proof. unfold reserve_oob_blocks. quiet. Qed.

Lemma quiet_advance_blocks a n : quiet (advance_blocks a n).
Proof. unfold advance_blocks, advance_list_ptr. quiet. Qed.

Lemma quiet_advance_oob_blocks a n : quiet (advance_oob_blocks a n).
Proof. unfold advance_oob_blocks, advance_list_ptr. quiet. Qed.

Lemma quiet_get_next_region a : quiet (get_next_region a).
Proof. unfold get_next_region. quiet. Qed.

Lemma quiet_free_alloc a : quiet (free_alloc a).
Proof. unfold free_alloc. quiet. Qed.

(** Only the inode table or the directory count of a group is replaced. *)
Lemma quiet_put s (i : nat) g g' : bgs s !! i = Some g -> core g' = core g ->
  core <$> <[i := g']> (bgs s) = core <$> bgs s.
Proof.
  intros Hi Hc. rewrite list_fmap_insert, Hc. apply list_insert_id. by rewrite list_lookup_fmap, Hi.
Qed.

Lemma get_bg_Some i s g s' : get_bg i s = Some (g, s') ->
  s' = s /\ 0 <= i /\ bgs s !! Z.to_nat i = Some g.
Proof.
  unfold get_bg. destruct (Z.ltb_spec i 0); [done|].
  destruct (bgs s !! Z.to_nat i) eqn:E; [|done]. by intros [= <- <-].
Qed.

Lemma put_bg_Some i g s u s' : put_bg i g s = Some (u, s') ->
  s' = set_bgs (<[Z.to_nat i := g]> (bgs s)) s.
Proof. unfold put_bg. destruct (_ || _); [done|]. by intros [= _ <-]. Qed.

Lemma quiet_allocate_bg_inode_table P errno bg : quiet (allocate_bg_inode_table P errno bg).
Proof.
  intros s r s'. unfold allocate_bg_inode_table, mbind, M_bind.
  destruct (get_bg bg s) as [[g s0]|] eqn:Hg; [|done]. apply get_bg_Some in Hg as (-> & Hpos & Hg).
  destruct (inode_table g) eqn:Ht; [by intros [= <- <-]|].
  destruct (calloc s) as [[t s1]|] eqn:Hc; [|done].
  assert (bgs s1 = bgs s /\ (heap_ok s -> heap_ok s1)) as [Hb1 Hh1].
  { unfold calloc in Hc. destruct (callocs s) as [|[] ?]; by simplify_eq/=. }
  destruct (put_bg _ _ s1) as [[[] s2]|] eqn:Hp; [|done]. apply put_bg_Some in Hp as ->.
  intros Hend. assert (core <$> bgs s' = core <$> bgs s1 /\ (heap_ok s1 -> heap_ok s')) as [Hb Hh].
  { rewrite Hb1 in *. destruct t; injection Hend as <- <-; cbn [bgs set_bgs];
      (split; [by apply quiet_put with g | done]). }
  rewrite Hb, Hb1. auto.
Qed.
#[export] Hint Resolve quiet_allocate_bg_inode_table : quiet.

Lemma quiet_get_inode P errno ino : quiet (get_inode P errno ino).
Proof. unfold get_inode. quiet. Qed.

Lemma quiet_add_directory P ino : quiet (add_directory P ino).
Proof.
  intros s r s'. unfold add_directory, mbind, M_bind.
  destruct (get_bg _ s) as [[g s0]|] eqn:Hg; [|done]. apply get_bg_Some in Hg as (-> & Hpos & Hg).
  intros ->%put_bg_Some. split; [by apply quiet_put with g | done].
Qed.

Lemma core_lookup s s' (i : nat) g : core <$> bgs s' = core <$> bgs s -> bgs s !! i = Some g ->
  exists g', bgs s' !! i = Some g' /\ core g' = core g.
Proof.
  intros Hc Hi. assert ((core <$> bgs s') !! i = Some (core g)) as H
    by (by rewrite Hc, list_lookup_fmap, Hi).
  rewrite list_lookup_fmap in H. destruct (bgs s' !! i) as [g'|]; [|done].
  injection H as H. eexists. split; [done|]. unfold core. congruence.
Qed.

Lemma bg_ok_core P i g : bg_ok P i g <-> bg_ok P i (core g).
Proof. split; intros []; by split. Qed.

Section Quiet.
Context (P : fs_params) (s s' : state) (Hc : core <$> bgs s' = core <$> bgs s).

Lemma core_groups_ok : groups_ok P s -> groups_ok P s'.
Proof.
  intros [Hl Hg]. split.
  - rewrite <- (length_fmap core), Hc, length_fmap. done.
  - intros i g' Hi. destruct (core_lookup s' s i g' (eq_sym Hc) Hi) as (g & Hg0 & He).
    apply bg_ok_core. rewrite <- He. by apply (bg_ok_core P (Z.of_nat i) g), Hg.
Qed.

Lemma core_live_ok ext : live_ok P s ext -> live_ok P s' ext.
Proof.
  intros [Hap Ho]. split; [done|]. eapply Forall_impl; [exact Ho|].
  intros x [Hx | (i & g & Hi & Hx)]; [by left | right].
  destruct (core_lookup s s' i g Hc Hi) as (g' & Hi' & He). exists i, g'. split; [done|].
  pose proof (f_equal first_block He) as Hb. pose proof (f_equal header_blocks He) as Hh.
  pose proof (f_equal first_free_block He) as Hf. cbn in Hb, Hh, Hf. lia.
Qed.

Lemma core_free_inos : free_inos s' = free_inos s.
Proof.
  unfold free_inos. apply list_eq. intros i. rewrite !list_lookup_fmap.
  destruct (bgs s !! i) as [g|] eqn:Hi.
  - destruct (core_lookup s s' i g Hc Hi) as (g' & -> & He). cbn. f_equal. exact (f_equal first_free_inode He).
  - destruct (bgs s' !! i) as [g'|] eqn:Hi'; [|done].
    destruct (core_lookup s' s i g' (eq_sym Hc) Hi') as (g & ? & _). congruence.
Qed.
End Quiet.

(** ** The blocks of an allocation *)

Definition blocks (l : list node) : list Z := concat ((fun x => seqZ x.1 x.2) <$> extents l).

Lemma dchain_size h prev l : dchain h prev l -> NoDup l.*1 -> (length l <= size h)%nat.
Proof.
  intros Hc Hnd. rewrite <- (length_fmap fst l), <- size_dom.
  rewrite <- (size_list_to_set (C := gset nat)) by done. apply subseteq_size. intros p.
  rewrite elem_of_list_to_set. intros Hp. apply elem_of_dom. by eapply dchain_lookup.
Qed.

Lemma dchain_det h prev prev' l l' : dchain h prev l -> dchain h prev' l' ->
  fst <$> head l = fst <$> head l' -> extents l = extents l'.
Proof.
  revert prev prev' l'. induction l as [|[p r] l IH]; intros prev prev' [|[p' r'] l']; try done.
  intros [Hp Hl] [Hp' Hl'] [= <-]. rewrite Hp in Hp'. injection Hp' as Hb Hn _ Hnext _.
  cbn [extents fmap list_fmap snd]. rewrite Hb, Hn. f_equal.
  by apply (IH (Some p) (Some p)).
Qed.

Definition in_range (x : Z * Z) : Prop :=
  0 <= x.2 /\ (0 < x.2 -> 0 <= x.1 /\ x.1 + x.2 < 2 ^ 32).

Lemma get_block_loop_ok fuel prev l k s b : dchain (heap s) prev l -> (length l < fuel)%nat ->
  Forall in_range (extents l) ->
  0 <= k -> blocks l !! Z.to_nat k = Some b ->
  get_block_loop fuel (fst <$> head l) k s = Some (b, s).
Proof.
  revert prev fuel k. induction l as [|[p r] l IH]; intros prev fuel k Hc Hf Hr Hk Hb; [done|].
  destruct fuel as [|fuel]; [cbn in Hf; lia|]. cbn [get_block_loop head fmap option_fmap option_map fst].
  destruct Hc as [Hp Hl]. apply Forall_cons in Hr as [[Hr0 Hr] Hrl]. cbn [fst snd] in Hr0, Hr.
  unfold mbind, M_bind, deref. rewrite Hp. cbn [mbind option_bind r_len r_block r_next set_prev set_next].
  unfold blocks in Hb. cbn [extents fmap list_fmap concat fst snd] in Hb.
  destruct (Z.ltb_spec k (r_len r)) as [Hlt|Hge].
  - rewrite lookup_app_l in Hb by (rewrite length_seqZ; lia).
    apply lookup_seqZ in Hb as [-> _]. unfold mret, M_ret. rewrite Z2Nat.id, u32_id by (done || unfold is_u32; lia). done.
  - rewrite lookup_app_r in Hb by (rewrite length_seqZ; lia). rewrite length_seqZ in Hb.
    apply (IH (Some p)); [done | cbn in Hf; lia | done | lia |].
    rewrite <- Hb. unfold blocks, extents. f_equal. lia.
Qed.

Lemma length_blocks l : Forall in_range (extents l) -> Z.of_nat (length (blocks l)) = total l.
Proof.
  unfold blocks, extents. induction l as [|[p r] l IH]; [done|]. intros [[Hr _] Hl]%Forall_cons.
  cbn [fmap list_fmap concat total foldr fst snd] in *. rewrite length_app, length_seqZ, Nat2Z.inj_add, IH by done.
  unfold total. lia.
Qed.

Lemma live_in_range P s ext : params_ok P -> groups_ok P s -> live_ok P s ext -> Forall in_range ext.
Proof.
  intros HP Hg [_ Ho]. eapply Forall_impl; [exact Ho|]. intros [b n] [Hx | (i & g & Hi & Hx)]; split; cbn in *; try lia.
  intros _. destruct (proj2 Hg i g Hi), HP. nia.
Qed.

(** ** Sequences of calls *)

Section Reach.
Context (P : fs_params) (errno : Z).

(** The calls that only walk or rearrange region lists, or touch an inode table. *)
Inductive bookkeeping : M unit -> Prop :=
  | bk_append_region a b n g : bookkeeping (_ ← append_region a b n g; mret tt)
  | bk_next_region a : bookkeeping (_ ← get_next_region a; mret tt)
  | bk_reserve_oob a n : bookkeeping (_ ← reserve_oob_blocks a n; mret tt)
  | bk_advance a n : bookkeeping (_ ← advance_blocks a n; mret tt)
  | bk_advance_oob a n : bookkeeping (_ ← advance_oob_blocks a n; mret tt)
  | bk_free a : bookkeeping (free_alloc a)
  | bk_get_inode ino : bookkeeping (_ ← get_inode P errno ino; mret tt)
  | bk_directory ino : bookkeeping (add_directory P ino).

(** The regions of the list that starts at [p]. *)
Definition chain (s : state) (p : nat) (l : list node) : Prop :=
  dchain (heap s) None l /\ fst <$> head l = Some p.

(** A state the calls lead to, with the extents and the inode numbers that have
    been handed out and not been given back. *)
Inductive reach : state -> list (Z * Z) -> list Z -> Prop :=
  | reach_init s r s' : heap_ok s -> block_allocator_init P errno s = Some (r, s') ->
      truthy r = false -> reach s' [] []
  | reach_blocks s ext inos fuel len a p l s' : reach s ext inos -> is_u32 len ->
      allocate_blocks P fuel len s = Some (Some a, s') -> first (list_ a) = Some p ->
      chain s' p l -> reach s' (extents l ++ ext) inos
  | reach_blocks_fail s ext inos fuel len s' : reach s ext inos -> is_u32 len ->
      allocate_blocks P fuel len s = Some (None, s') -> reach s' ext inos
  | reach_oob s ext inos fuel a len p l s1 r s' : reach s ext inos -> is_u32 len ->
      do_allocate P fuel len s = Some (Some p, s1) -> chain s1 p l ->
      append_oob_allocation P fuel a len s = Some (r, s') -> reach s' (extents l ++ ext) inos
  | reach_oob_fail s ext inos fuel a len s1 r s' : reach s ext inos -> is_u32 len ->
      do_allocate P fuel len s = Some (None, s1) ->
      append_oob_allocation P fuel a len s = Some (r, s') -> reach s' ext inos
  | reach_block s ext inos b s' : reach s ext inos -> allocate_block P s = Some (b, s') ->
      reach s' (if b =? EXT4_ALLOCATE_FAILED then ext else (b, 1) :: ext) inos
  | reach_reduce s ext ext' inos p b n (i : nat) nx pv it pt o g k r s' : reach s ext inos ->
      ext ≡ₚ (b, n) :: ext' -> heap s !! p = Some (Region b n (Z.of_nat i) nx pv) ->
      bgs s !! i = Some g -> first_block g <= b -> b + n = first_block g + first_free_block g ->
      0 < k < n ->
      reduce_allocation (BlockAllocation (RegionList (Some p) (Some p) it pt) o) k s = Some (r, s') ->
      reach s' ((b, n - k) :: ext') inos
  | reach_reserve_inodes s ext inos bg num ino s' : reach s ext inos -> 0 <= num ->
      reserve_inodes P bg num s = Some (ino, s') ->
      reach s' ext (if ino =? EXT4_ALLOCATE_FAILED then inos
                    else seqZ (bg * p_inodes_per_group P + ino) num ++ inos)
  | reach_inode s ext inos ino s' : reach s ext inos -> allocate_inode P s = Some (ino, s') ->
      reach s' ext (if ino =? EXT4_ALLOCATE_FAILED then inos else ino :: inos)
  | reach_bookkeeping s ext inos m s' : reach s ext inos -> bookkeeping m ->
      m s = Some (tt, s') -> reach s' ext inos.

Context (HP : params_ok P) (HF : headers_fit P) (HI : inodes_fit P) (He : truthy errno = true).

Definition inv (s : state) (ext : list (Z * Z)) (inos : list Z) : Prop :=
  groups_ok P s /\ heap_ok s /\ live_ok P s ext /\ inos_ok P s inos.

Lemma inv_quiet {A} (m : M A) s a s' ext inos : quiet m -> m s = Some (a, s') ->
  inv s ext inos -> inv s' ext inos.
Proof.
  intros Hm Hs (Hg & Hh & Hl & Hi). destruct (Hm _ _ _ Hs) as [Hc Hh'].
  split; [by apply (core_groups_ok P s)|]. split; [auto|]. split; [by apply (core_live_ok P s)|].
  unfold inos_ok. by rewrite (core_free_inos s s' Hc).
Qed.

Lemma bookkeeping_quiet m : bookkeeping m -> quiet m.
Proof.
  destruct 1; repeat first [apply quiet_append_region | apply quiet_get_next_region
    | apply quiet_reserve_oob_blocks | apply quiet_advance_blocks | apply quiet_advance_oob_blocks
    | apply quiet_free_alloc | apply quiet_get_inode | apply quiet_add_directory
    | apply quiet_bind; [|intros; apply quiet_ret]].
Qed.

Lemma inv_do_allocate fuel len s r s' ext inos : inv s ext inos -> is_u32 len ->
  do_allocate P fuel len s = Some (r, s') ->
  inv s' ext inos /\ forall p l, r = Some p -> chain s' p l -> inv s' (extents l ++ ext) inos.
Proof.
  intros (Hg & Hh & Hl & Hi) Hlen Hd.
  destruct (do_allocate_ok P HP fuel s len Hg Hh Hlen) as [(r1 & s1 & Hd1 & (l0 & Hb & Hr) & _) | [Hn _]];
    [|congruence].
  rewrite Hd in Hd1. injection Hd1 as <- <-. destruct Hb as (Hg' & Hh' & Hc & _ & Hf & Hlive).
  assert (inv s' (extents l0 ++ ext) inos) as Hinv.
  { do 2 (split; [done|]). split; [by apply Hlive|]. unfold inos_ok. by rewrite Hf. }
  split.
  - destruct Hinv as (? & ? & Hle & ?). do 2 (split; [done|]). split; [by eapply live_app_r|done].
  - intros p l -> [Hcl Hhd]. destruct Hr as [Hhd0 _].
    by rewrite (dchain_det (heap s') None None l l0) by (done || congruence).
Qed.

Lemma allocate_blocks_do fuel len s r s' : allocate_blocks P fuel len s = Some (r, s') ->
  exists p, do_allocate P fuel len s = Some (p, s') /\
    r = (fun p => BlockAllocation (RegionList (Some p) (Some p) (Some p) 0) (oob_list create_allocation)) <$> p.
Proof.
  unfold allocate_blocks, mbind, M_bind, mret, M_ret.
  destruct (do_allocate P fuel len s) as [[[p|] s1]|]; [| |done]; intros [= <- <-]; by eexists.
Qed.

Lemma append_oob_do fuel a len s p s1 r s' : do_allocate P fuel len s = Some (p, s1) ->
  append_oob_allocation P fuel a len s = Some (r, s') -> exists m : M (block_allocation * Z),
    quiet m /\ m s1 = Some (r, s').
Proof.
  intros Hd. unfold append_oob_allocation. unfold mbind at 1, M_bind at 1. rewrite Hd.
  intros H. eexists (match p with Some _ => _ | None => _ end). split; [|destruct p; exact H]. quiet.
Qed.

Lemma inv_block s ext inos b s' : inv s ext inos -> allocate_block P s = Some (b, s') ->
  inv s' (if b =? EXT4_ALLOCATE_FAILED then ext else (b, 1) :: ext) inos.
Proof.
  intros (Hg & Hh & Hl & Hi) Hb.
  destruct (allocate_block_ok P HP s Hg) as (b1 & s1 & Hb1 & Hg1 & Hh1 & Hn1 & Hf1 & Hcase).
  rewrite Hb in Hb1. injection Hb1 as <- <-.
  split; [done|]. split; [unfold heap_ok; by rewrite Hh1, Hn1|]. split.
  - destruct Hcase as [(-> & -> & _) | (Hlt & _ & Hlive)]; [by rewrite Z.eqb_refl|].
    destruct (Z.eqb_spec b EXT4_ALLOCATE_FAILED); [lia | by apply Hlive].
  - unfold inos_ok. by rewrite Hf1.
Qed.

Lemma inv_reduce s ext ext' inos p b n (i : nat) nx pv it pt o g k r s' : inv s ext inos ->
  ext ≡ₚ (b, n) :: ext' -> heap s !! p = Some (Region b n (Z.of_nat i) nx pv) ->
  bgs s !! i = Some g -> first_block g <= b -> b + n = first_block g + first_free_block g ->
  0 < k < n ->
  reduce_allocation (BlockAllocation (RegionList (Some p) (Some p) it pt) o) k s = Some (r, s') ->
  inv s' ((b, n - k) :: ext') inos.
Proof.
  intros (Hg & Hh & Hl & Hi) Hperm Hp Hgi Hlo Hend Hk Hred.
  assert (n < 2 ^ 32) by (destruct (proj2 Hg i g Hgi), HP; lia).
  destruct (reduce_allocation_ok P HP s p b n i g nx pv it pt o k ext') as (s1 & Hr1 & Hg1 & Hh1 & Hn1 & Hf1 & Hl1);
    try done; [by eapply live_perm|].
  rewrite Hred in Hr1. injection Hr1 as _ <-. split; [done|]. split; [|split; [done|]].
  - intros q. rewrite Hh1, Hn1. intros [y [[<- _] | [_ Hq]]%lookup_insert_Some]; apply Hh; eauto.
  - unfold inos_ok. by rewrite Hf1.
Qed.

Lemma inv_take_inodes s ext inos (i : nat) g g' num : inv s ext inos -> bgs s !! i = Some g ->
  0 <= num <= free_inodes g -> bg_ok P (Z.of_nat i) g' -> inodes_taken g g' num ->
  inv (set_bgs (<[i := g']> (bgs s)) s) ext
    (seqZ (Z.of_nat i * p_inodes_per_group P + first_free_inode g) num ++ inos).
Proof.
  intros (Hg & Hh & Hl & Hi) Hgi Hn Hg' Ht. split; [by apply groups_ok_put|]. split; [done|]. split.
  - apply live_put with g; [done | | done]. by destruct Ht as (_ & ? & ? & ? & _).
  - by apply inos_take.
Qed.

Lemma inv_reserve_inodes s ext inos bg num ino s' : inv s ext inos -> 0 <= num ->
  reserve_inodes P bg num s = Some (ino, s') ->
  inv s' ext (if ino =? EXT4_ALLOCATE_FAILED then inos
              else seqZ (bg * p_inodes_per_group P + ino) num ++ inos).
Proof.
  intros Hinv Hn Hr. pose proof Hinv as (Hg & _). assert (exists i g, bg = Z.of_nat i /\ bgs s !! i = Some g) as (i & g & -> & Hgi).
  { revert Hr. unfold reserve_inodes, get_free_inodes, mbind, M_bind.
    destruct (get_bg bg s) as [[g s1]|] eqn:Hb; [|done]. apply get_bg_Some in Hb as (-> & ? & ?).
    intros _. exists (Z.to_nat bg), g. split; [lia | done]. }
  destruct (reserve_inodes_ok P HP HI s i g num Hg Hgi Hn) as [[Hf Hr1] | (Hf & g' & Hg' & Ht & Hr1)];
    rewrite Hr in Hr1; injection Hr1 as -> ->; [by rewrite Z.eqb_refl|].
  destruct (bo_inodes _ _ _ (proj2 Hg i g Hgi)) as (? & ? & ?). destruct HI as [[Hi1 Hi2] _], HP.
  destruct (Z.eqb_spec (first_free_inode g) EXT4_ALLOCATE_FAILED) as [Heq|_];
    [unfold EXT4_ALLOCATE_FAILED in *; lia|].
  by apply inv_take_inodes.
Qed.

Lemma inv_inode s ext inos ino s' : inv s ext inos -> allocate_inode P s = Some (ino, s') ->
  inv s' ext (if ino =? EXT4_ALLOCATE_FAILED then inos else ino :: inos).
Proof.
  intros Hinv Ha. pose proof Hinv as (Hg & _).
  destruct (allocate_inode_ok P HP HI s Hg) as [[Hr _] | (j & g & g' & Hgj & Hfree & Hg' & Ht & Hr)];
    rewrite Ha in Hr; injection Hr as -> ->; [by rewrite Z.eqb_refl|].
  destruct (bo_inodes _ _ _ (proj2 Hg j g Hgj)) as (? & ? & ?). destruct HI as [Hi1 Hi2].
  pose proof (proj1 Hg). apply lookup_lt_Some in Hgj as Hlt.
  destruct (Z.eqb_spec (Z.of_nat j * p_inodes_per_group P + first_free_inode g) EXT4_ALLOCATE_FAILED); [nia|].
  apply (inv_take_inodes s ext inos j g g' 1 Hinv Hgj ltac:(lia) Hg' Ht).
Qed.

Lemma inv_init s r s' : heap_ok s -> block_allocator_init P errno s = Some (r, s') ->
  truthy r = false -> inv s' [] [].
Proof.
  intros Hh Hi Hr. destruct (block_allocator_init_ok P HP errno HF s r s' He Hi Hr) as (Hg & _ & Hh' & Hn').
  split; [done|]. split; [unfold heap_ok; by rewrite Hh', Hn'|]. split; split; constructor.
Qed.

Lemma reach_inv s ext inos : reach s ext inos -> inv s ext inos.
Proof.
  induction 1 as [ | s ext inos fuel len a p l s' _ IH Hlen Ha Hf Hc
    | s ext inos fuel len s' _ IH Hlen Ha
    | s ext inos fuel a len p l s1 r s' _ IH Hlen Hd Hc Ha
    | s ext inos fuel a len s1 r s' _ IH Hlen Hd Ha | | | | |].
  - by eapply inv_init.
  - apply allocate_blocks_do in Ha as ([q|] & Hd & [= ->]). injection Hf as ->.
    destruct (inv_do_allocate _ _ _ _ _ _ _ IH Hlen Hd) as [_ Hl]. by apply (Hl p l).
  - apply allocate_blocks_do in Ha as (q & Hd & _). by destruct (inv_do_allocate _ _ _ _ _ _ _ IH Hlen Hd).
  - destruct (append_oob_do _ _ _ _ _ _ _ _ Hd Ha) as (m & Hm & Hms).
    eapply inv_quiet; [done | done |]. destruct (inv_do_allocate _ _ _ _ _ _ _ IH Hlen Hd) as [_ Hl]. by apply (Hl p l).
  - destruct (append_oob_do _ _ _ _ _ _ _ _ Hd Ha) as (m & Hm & Hms).
    eapply inv_quiet; [done | done |]. by destruct (inv_do_allocate _ _ _ _ _ _ _ IH Hlen Hd).
  - by eapply inv_block.
  - by eapply inv_reduce.
  - by apply inv_reserve_inodes with s.
  - by apply inv_inode with s.
  - eapply inv_quiet; [by eapply bookkeeping_quiet | done | done].
Qed.
End Reach.

(** ** Consequences *)

Section Consequences.
Context (P : fs_params) (HP : params_ok P).

(** The group of an allocated block, which is marked there. *)
Lemma owned_marked s x k : groups_ok P s -> owned P s x -> x.1 <= k < x.1 + x.2 ->
  k < p_len_blocks P /\ exists (i : nat) g, bgs s !! i = Some g /\
    first_block g + header_blocks g <= k < first_block g + p_blocks_per_group P /\
    bit (bitmaps g) (k - first_block g) = true.
Proof.
  intros Hg [Hx | (i & g & Hi & Hpos & Hlo & Hhi & Hlen)] Hk; [lia|]. split; [lia|].
  destruct (proj2 Hg i g Hi). exists i, g. split; [done|]. split; [lia|].
  rewrite bo_bits by lia. by destruct (Z.leb_spec (first_free_block g) (k - first_block g)); [lia|].
Qed.

Lemma ino_owned_range s ino : inodes_fit P -> groups_ok P s -> ino_owned P (free_inos s) ino ->
  1 <= ino <= p_groups P * p_inodes_per_group P.
Proof.
  intros [Hi _] Hg (i & k & Hk & Hr). pose proof (free_ino_range P s i k Hg Hk).
  apply lookup_lt_Some in Hk. unfold free_inos in Hk. rewrite length_fmap in Hk.
  pose proof (proj1 Hg). nia.
Qed.

Lemma unused_le s : (unused s <= length (bgs s))%nat.
Proof. apply length_filter. Qed.

(** [n] calls of allocate_block *)
Fixpoint allocate_many (n : nat) : M (list Z) :=
  match n with
  | O => mret []
  | S n => b ← allocate_block P; bs ← allocate_many n; mret (b :: bs)
  end.

Lemma allocate_many_ok n s ext : groups_ok P s -> live_ok P s ext -> Z.of_nat n <= free_total s ->
  exists bs s', allocate_many n s = Some (bs, s') /\ length bs = n /\ groups_ok P s' /\
    Forall (fun b => b < EXT4_ALLOCATE_FAILED) bs /\ free_total s' = free_total s - Z.of_nat n /\
    live_ok P s' (((fun b => (b, 1)) <$> bs) ++ ext).
Proof.
  revert s ext. induction n as [|n IH]; intros s ext Hg Hl Hn; cbn [allocate_many].
  { exists [], s. do 3 (split; [done|]). split; [constructor|]. split; [lia | done]. }
  destruct (allocate_block_ok P HP s Hg) as (b & s1 & Hb & Hg1 & _ & _ & _ & Hcase).
  destruct Hcase as [(_ & _ & Hz) | (Hlt & Hf & Hlive)]; [lia|].
  destruct (IH s1 ((b, 1) :: ext) Hg1 (Hlive _ Hl)) as (bs & s' & Hbs & Hlen & Hg' & Hall & Hf' & Hl'); [lia|].
  exists (b :: bs), s'. unfold mbind, M_bind, mret, M_ret. rewrite Hb, Hbs. split; [done|].
  split; [cbn; lia|]. split; [done|]. split; [by constructor|]. split; [lia|].
  eapply live_perm; [|exact Hl']. cbn. by rewrite <- Permutation_middle.
Qed.

Lemma apart_NoDup s (bs : list Z) ext : live_ok P s (((fun b => (b, 1)) <$> bs) ++ ext) -> NoDup bs.
Proof.
  intros [Hap _]. induction bs as [|b bs IH]; [constructor|]. inversion_clear Hap as [|? ? Hb Hr].
  constructor; [|auto]. intros Hin. rewrite Forall_forall in Hb. specialize (Hb (b, 1)).
  destruct Hb as [?|[?|[?|?]]]; cbn in *; try lia.
  apply elem_of_app. left. apply list_elem_of_fmap. by exists b.
Qed.

(** An unused group with no room, before which all groups are used. *)
Definition stuck (s : state) (i : nat) (len : Z) : Prop :=
  (exists g, bgs s !! i = Some g /\ data_blocks_used g = 0 /\ free_blocks_ g = 0) /\
  (forall (j : nat) g, (j < i)%nat -> bgs s !! j = Some g -> data_blocks_used g <> 0) /\
  (forall (j : nat) g, bgs s !! j = Some g -> free_blocks_ g < len).

Lemma partial_loop_skips n (j i : nat) len s : (j <= i < j + n)%nat ->
  groups_ok P s -> stuck s i len ->
  exists m, partial_loop P n (Z.of_nat j) len s = partial_loop P (S m) (Z.of_nat i) len s.
Proof.
  revert j. induction n as [|n IH]; intros j Hj Hg Hst; [lia|].
  destruct (decide (j = i)) as [-> | Hne]; [by exists n|]. cbn [partial_loop].
  pose proof Hst as ((gi & Hi & _) & Hused & _). apply lookup_lt_Some in Hi.
  destruct (lookup_lt_is_Some_2 (bgs s) j) as [g Hgj]; [lia|].
  unfold mbind at 1, M_bind at 1. rewrite (get_bg_ok _ _ _ Hgj).
  destruct (Z.eqb_spec (data_blocks_used g) 0) as [Hz|_]; [by destruct (Hused j g ltac:(lia) Hgj Hz)|].
  replace (Z.of_nat j + 1) with (Z.of_nat (S j)) by lia. apply IH; [lia | done | done].
Qed.

(** Such a group is taken again and again, for no blocks. *)
Lemma partial_stuck s i len : groups_ok P s -> stuck s i len ->
  exists p s' g g', ext4_allocate_partial P len s = Some (Some p, s') /\
    bgs s !! i = Some g /\ bgs s' = <[i := g']> (bgs s) /\ data_blocks_used g' = 0 /\
    free_blocks_ g' = 0 /\ region_post P s (Some p) 0 s'.
Proof.
  intros Hg Hst. pose proof Hst as ((g & Hi & Hu & Hf) & _ & Hsmall).
  pose proof (lookup_lt_Some _ _ _ Hi) as Hlt. pose proof (proj1 Hg).
  destruct (partial_loop_skips (Z.to_nat (p_groups P)) 0 i len s) as [m Hm]; [lia | done | done |].
  unfold ext4_allocate_partial. change (Z.of_nat 0) with 0 in Hm. rewrite Hm. cbn [partial_loop].
  unfold mbind, M_bind. rewrite (get_bg_ok _ _ _ Hi), Hu. cbn [Z.eqb].
  specialize (Hsmall i g Hi) as Hlen. destruct (Z.leb_spec len (free_blocks_ g)); [lia|].
  destruct (allocate_from_group_ok P HP s i g (free_blocks_ g) Hg Hi) as [[? _] | (_ & bm & Hm' & Hr & ->)];
    [lia | lia |].
  destruct (Z.eqb_spec (first_block g + first_free_block g) EXT4_ALLOCATE_FAILED); [lia|].
  destruct (new_region_post P HP s i g bm (free_blocks_ g) Hg Hi) as (s' & -> & Hp & Hb & _); [lia | done |].
  rewrite Hf in *. eexists _, s', g, _. split; [reflexivity|]. split; [done|]. split; [exact Hb|].
  split; [cbn; by rewrite Hu|]. split; [cbn; lia | done].
Qed.

Lemma stuck_put s s' i len g g' : stuck s i len -> bgs s !! i = Some g ->
  bgs s' = <[i := g']> (bgs s) -> data_blocks_used g' = 0 -> free_blocks_ g' = 0 -> stuck s' i len.
Proof.
  intros ((g0 & Hi & Hu & Hf) & Hused & Hsmall) Hg Hb Hu' Hf'. pose proof (lookup_lt_Some _ _ _ Hi) as Hlt.
  split; [|split].
  - exists g'. by rewrite Hb, list_lookup_insert_eq.
  - intros j gj Hj. rewrite Hb, list_lookup_insert_ne by lia. by apply Hused.
  - intros j gj. rewrite Hb. intros [[-> [<- _]] | [_ Hj]]%list_lookup_insert_Some; [|by apply (Hsmall j)].
    specialize (Hsmall _ g0 Hi). lia.
Qed.

Lemma multiple_loop_stuck fuel s0 s l i len : built P s0 s l -> is_u32 len -> 0 < len -> stuck s i len ->
  multiple_loop P fuel (fst <$> head l) (fst <$> list.last l) len s = None.
Proof.
  revert s l. induction fuel as [|fuel IH]; intros s l Hb Hlen Hpos Hst; [done|].
  destruct (partial_stuck s i len (proj1 Hb) Hst) as (p & s1 & g & g' & Hp & Hi & Hbgs & Hu & Hf & Hpost).
  destruct (built_snoc P s0 s l p 0 s1 Hb Hpost) as (s2 & rp & Hlink & Hn & _ & _ & Hb2 & Hhp & Hbuilt).
  rewrite (multiple_loop_step P fuel _ _ _ _ _ _ _ _ Hpos Hp Hlink Hhp).
  cbn [r_len set_prev set_next]. rewrite Hn, Z.sub_0_r, u32_id by done.
  assert (match fst <$> head l with None => Some p | Some _ => fst <$> head l end
    = fst <$> head (l ++ [(p, rp)])) as -> by by destruct l.
  replace (Some p) with (fst <$> list.last (l ++ [(p, rp)])) by by rewrite last_snoc.
  apply IH; [done | done | done |]. rewrite <- Hb2 in Hbgs. by eapply stuck_put.
Qed.

Lemma contiguous_small n (i : nat) len s : groups_ok P s -> 0 <= len -> Z.of_nat i + Z.of_nat n = p_groups P ->
  (forall (j : nat) g, bgs s !! j = Some g -> free_blocks_ g < len) ->
  contiguous_loop n (Z.of_nat i) len s = Some (None, s).
Proof.
  intros Hg Hlen Hi Hsmall. revert i Hi. induction n as [|n IH]; intros i Hi; cbn [contiguous_loop]; [done|].
  destruct (lookup_lt_is_Some_2 (bgs s) i) as [g Hgi]; [pose proof (proj1 Hg); lia|].
  pose proof (Hsmall i g Hgi).
  unfold mbind, M_bind. destruct (allocate_from_group_ok P HP s i g len Hg Hgi Hlen) as [[_ ->] | [? _]]; [|lia].
  rewrite Z.eqb_refl. cbn [negb]. replace (Z.of_nat i + 1) with (Z.of_nat (S i)) by lia. apply IH. lia.
Qed.
End Consequences.

(** ** Properties *)

(** The block-marking routine sets bits one at a time up to a byte boundary, then
    whole bytes, then the remaining bits; for a run of free blocks of any alignment it
    marks exactly that run, the counter goes down by its length, and it reports
    success; a run longer than the number of free blocks changes nothing and is
    reported as a failure. *)
Lemma reserve_blocks_marks_the_run g start num : Forall is_u8 (bitmaps g) ->
  8 * Z.of_nat (length (bitmaps g)) < 2 ^ 32 - 16 -> is_u32 (free_blocks_ g) ->
  0 <= start -> 0 <= num -> start + num <= 8 * Z.of_nat (length (bitmaps g)) ->
  (forall b, start <= b < start + num -> bit (bitmaps g) b = false) ->
  if free_blocks_ g <? num then reserve_blocks g start num = Some (g, -1)
  else exists g', reserve_blocks g start num = Some (g', 0) /\
    free_blocks_ g' = free_blocks_ g - num /\
    first_free_block g' = (if start =? first_free_block g then start + num else first_free_block g) /\
    length (bitmaps g') = length (bitmaps g) /\
    forall b, 0 <= b -> bit (bitmaps g') b = bit (bitmaps g) b || ((start <=? b) && (b <? start + num)).
Proof.
  intros Hu Hmax Hf Hs Hn Hfit Hc. destruct (Z.ltb_spec (free_blocks_ g) num) as [Hlt|Hge].
  - by apply reserve_blocks_fails.
  - destruct (reserve_blocks_ok g start num) as (bm & Hr & Hl & _ & Hb); [by repeat split; try apply Hf|].
    by exists (reserved g bm start num).
Qed.

(** (C26) Whatever calls of the allocator have been made since it was set up, the
    extents handed out and not given back do not overlap, all their blocks are inside
    the filesystem, behind the header of their group and marked in its bitmap; no
    inode number was handed out twice and all exist; and in every group the clear bits
    of the bitmap are the run of free blocks that the counters describe. *)
Theorem allocator_hands_out_once P errno s ext inos : params_ok P -> headers_fit P -> inodes_fit P ->
  truthy errno = true -> reach P errno s ext inos ->
  ForallOrdPairs apart ext /\
  (forall x k, x ∈ ext -> x.1 <= k < x.1 + x.2 ->
     k < p_len_blocks P /\ exists (i : nat) g, bgs s !! i = Some g /\
       first_block g + header_blocks g <= k < first_block g + p_blocks_per_group P /\
       bit (bitmaps g) (k - first_block g) = true) /\
  NoDup inos /\ Forall (fun ino => 1 <= ino <= p_groups P * p_inodes_per_group P) inos /\
  (forall (i : nat) g b, bgs s !! i = Some g -> 0 <= b < p_blocks_per_group P ->
     bit (bitmaps g) b = false <-> first_free_block g <= b < first_free_block g + free_blocks_ g).
Proof.
  intros HP HF HI He Hr. destruct (reach_inv P errno HP HF HI He s ext inos Hr) as (Hg & _ & [Hap Ho] & Hnd & Hi).
  split; [done|]. split; [|split; [done|split]].
  - intros x k Hx. rewrite Forall_forall in Ho. by apply owned_marked, Ho.
  - eapply Forall_impl; [exact Hi|]. intros ino. by apply ino_owned_range.
  - intros i g b Hgi Hb. rewrite (bo_bits _ _ _ (proj2 Hg i g Hgi) b Hb).
    destruct (Z.leb_spec (first_free_block g) b), (Z.ltb_spec b (first_free_block g + free_blocks_ g));
      cbn; split; done || lia.
Qed.

(** Two groups of 32 blocks, the second one cut to 28, with a superblock in both. *)
Definition small_fs : fs_params := FsParams 4 32 8 128 0 0 60 1 2 1 0.
Definition nothing : state := State [] ∅ 0 1 [] [] [].

Lemma small_fs_ok : params_ok small_fs.
Proof. split; cbn; lia. Qed.

Lemma small_fs_fits : headers_fit small_fs.
Proof.
  split; try (cbn; lia). cbn [small_fs p_groups p_feat_ro_compat]. intros i sup Hi.
  assert (i = 0 \/ i = 1) as [-> | ->] by lia;
    intros Hs; vm_compute in Hs; injection Hs as <-; by vm_compute.
Qed.

Lemma small_fs_inodes : inodes_fit small_fs.
Proof. split; cbn; unfold EXT4_ALLOCATE_FAILED; lia. Qed.

(** The state after a call, for calls that return. *)
Definition after {A} (m : M A) (s : state) : state := default s (snd <$> m s).

Definition fs_ready : state := after (block_allocator_init small_fs 12) nothing.
Definition fs_full : state := after (allocate_blocks small_fs 5 30) fs_ready.
Definition fs_inode : state := after (allocate_inode small_fs) fs_full.

(** Thirty blocks, more than either group has, and one inode. *)
Lemma allocator_hands_out_once_witness :
  reach small_fs 12 fs_inode [(5, 27); (37, 3)] [1] /\
  ForallOrdPairs apart [(5, 27); (37, 3)] /\ NoDup [1].
Proof.
  assert (reach small_fs 12 fs_inode [(5, 27); (37, 3)] [1]) as Hr.
  - apply (reach_inode small_fs 12 fs_full [(5, 27); (37, 3)] [] 1); [|vm_compute; reflexivity].
    apply (reach_blocks small_fs 12 fs_ready [] [] 5 30
      (BlockAllocation (RegionList (Some 0%nat) (Some 0%nat) (Some 0%nat) 0) empty_list) 0
      [(0%nat, Region 5 27 0 None None); (1%nat, Region 37 3 1 None None)]);
      [| done | vm_compute; reflexivity | done | by vm_compute].
    apply (reach_init small_fs 12 nothing 0); [|vm_compute; reflexivity | done].
    intros p [x Hx]. exact (False_ind _ (lookup_empty_Some p x Hx)).
  - split; [exact Hr|].
    destruct (allocator_hands_out_once small_fs 12 _ _ _ small_fs_ok small_fs_fits small_fs_inodes eq_refl Hr)
      as (Hap & _ & Hnd & _). by split.
Defined.


Lemma fs_ready_ok : groups_ok small_fs fs_ready /\ heap_ok fs_ready /\ unused_free fs_ready.
Proof.
  destruct (block_allocator_init_ok small_fs small_fs_ok 12 small_fs_fits nothing 0 fs_ready) as (Hg & Hnew & Hh & Hn);
    [done | vm_compute; reflexivity | done |].
  split; [done|]. split.
  - intros p. rewrite Hh. intros [x Hx]. exact (False_ind _ (lookup_empty_Some p x Hx)).
  - intros i g Hi _. destruct (Hnew i g Hi) as (_ & _ & sup & Hs & _ & ->).
    apply lookup_lt_Some in Hi. rewrite (Nat2Z.inj_lt) in Hi.
    assert (Z.of_nat i = 0 \/ Z.of_nat i = 1) as Hc by (pose proof (proj1 Hg); cbn in *; lia).
    destruct Hc as [Hc | Hc]; rewrite Hc in *; vm_compute in Hs; injection Hs as <-; by vm_compute.
Qed.


(** ** The parameters ext4_create_fs_aux_info derives *)

(** Groups and blocks that are kept: a last group that is smaller than its header is
    dropped. *)
Definition last_fits (P : fs_params) (sup : Z) : Prop :=
  p_len_blocks P = p_groups P * p_blocks_per_group P \/
  (p_groups P - 1) * p_blocks_per_group P + header_size P sup <= p_len_blocks P
    < p_groups P * p_blocks_per_group P.

Lemma div_round_up_u64 x y : 0 <= x -> 0 < y -> x + y < 2 ^ 64 ->
  div_round_up u64 x y = (x + y - 1) / y.
Proof. intros Hx Hy Hmax. unfold div_round_up. by rewrite (u64_id (x + y)), (u64_id (x + y - 1)) by (unfold is_u64; lia). Qed.

Lemma header_size_le P sup : 0 <= p_bg_desc_blocks P -> 0 <= p_bg_desc_reserve_blocks P ->
  header_size P sup <= header_size P 1.
Proof. intros Hd Hr. unfold header_size. destruct (truthy sup); cbn; lia. Qed.

(** The number of groups and the size of the last one. *)
Lemma ceil_div len bpg : 0 <= len -> 0 < bpg -> let q := (len + bpg - 1) / bpg in
  (len mod bpg = 0 /\ len = q * bpg) \/
  (0 < len mod bpg < bpg /\ len = (q - 1) * bpg + len mod bpg /\ 0 < q).
Proof.
  intros Hl Hb q. pose proof (Z.div_mod len bpg ltac:(lia)) as Hdm.
  pose proof (Z.mod_pos_bound len bpg Hb). pose proof (Z.div_pos len bpg Hl Hb).
  destruct (Z.eq_dec (len mod bpg) 0) as [Hz|Hnz].
  - left. split; [done|]. assert (q = len / bpg) as ->; [|lia].
    symmetry. apply Z.div_unique with (bpg - 1); lia.
  - right. split; [lia|]. assert (q = len / bpg + 1) as ->; [|lia].
    symmetry. apply Z.div_unique with (len mod bpg - 1); lia.
Qed.
Lemma last_fits_all P : 0 < p_block_size P < 2 ^ 27 ->
  0 < p_blocks_per_group P <= 8 * p_block_size P -> p_first_data_block P = 0 -> 0 <= p_groups P ->
  0 <= p_bg_desc_blocks P -> 0 <= p_bg_desc_reserve_blocks P -> 0 <= p_inode_table_blocks P ->
  0 <= p_inodes_per_group P -> p_len_blocks P + 2 * p_blocks_per_group P < 2 ^ 32 ->
  header_size P 1 <= p_blocks_per_group P ->
  (p_groups P = 0 -> p_len_blocks P = 0) ->
  (forall sup, 0 < p_groups P ->
     ext4_bg_has_super_block (p_feat_ro_compat P) (p_groups P - 1) = Some sup -> last_fits P sup) ->
  (0 < p_groups P -> (p_groups P - 1) * p_blocks_per_group P <= p_len_blocks P) ->
  params_ok P /\ headers_fit P.
Proof.
  intros Hbs Hbpg Hfirst Hgr Hd Hr Ht Hi Hlen Hh H0 Hlast Hfull.
  assert ((p_groups P - 1) * p_blocks_per_group P <= p_len_blocks P) as Hend
    by (destruct (Z.eq_dec (p_groups P) 0); [nia | apply Hfull; lia]).
  split; [split; rewrite ?Hfirst; nia || lia|]. split; try done; [lia|].
  intros i sup Hir Hs. pose proof (header_size_le P sup Hd Hr). split; [lia|].
  unfold group_start. rewrite Hfirst, Z.add_0_l.
  destruct (Z.eq_dec i (p_groups P - 1)) as [-> | Hne]; [|nia].
  destruct (Hlast sup ltac:(lia) Hs); nia.
Qed.

(** The numbers of groups and blocks, from [len] blocks. *)
Lemma last_group_kept (len bpg header : Z) : 0 <= len -> 0 < bpg -> len + 2 * bpg < 2 ^ 32 ->
  let q := u32 ((len + bpg - 1) / bpg) in
  let last := u32 (len mod bpg) in
  let '(groups, blocks) := if (0 <? last) && (last <? header) then (u32 (q - 1), u64 (len - last))
                           else (q, len) in
  0 <= q < 2 ^ 32 /\ 0 <= groups /\ 0 <= blocks <= len /\ (groups = 0 -> blocks = 0) /\
  (blocks = groups * bpg \/
   (groups = q /\ 0 < groups /\ (groups - 1) * bpg + header <= blocks < groups * bpg /\
    (groups - 1) * bpg <= blocks)).
Proof.
  intros Hl Hb Hmax q last. pose proof (Z.mod_pos_bound len bpg Hb).
  assert (last = len mod bpg) as Hlast by (apply u32_id; unfold is_u32; lia).
  assert (0 <= (len + bpg - 1) / bpg < 2 ^ 32) as Hq0.
  { split; [apply Z.div_pos; lia | apply Z.div_lt_upper_bound; nia]. }
  assert (q = (len + bpg - 1) / bpg) as Hq by (apply u32_id; unfold is_u32; lia).
  destruct (ceil_div len bpg Hl Hb) as [[Hz Hlen] | (Hnz & Hlen & Hpos)]; rewrite <- Hq in *; rewrite Hlast;
    [rewrite Hz; cbn [Z.ltb andb]; cbn; lia|].
  destruct (Z.ltb_spec 0 (len mod bpg)); [|lia]. cbn [andb].
  destruct (Z.ltb_spec (len mod bpg) header).
  - rewrite u32_id, u64_id by (unfold is_u32, is_u64; nia). nia.
  - nia.
Qed.



(** (C31) Single blocks are handed out as long as there is one: with [free_total]
    blocks free, that many calls of allocate_block all succeed with different blocks
    inside the filesystem, and only the next call fails, changing nothing. *)
Theorem allocate_block_until_full P s : params_ok P -> groups_ok P s -> 0 <= free_total s ->
  exists bs s', allocate_many P (Z.to_nat (free_total s)) s = Some (bs, s') /\
    Z.of_nat (length bs) = free_total s /\ NoDup bs /\
    Forall (fun b => 0 <= b < p_len_blocks P) bs /\
    allocate_block P s' = Some (EXT4_ALLOCATE_FAILED, s').
Proof.
  intros HP Hg Hpos. destruct (allocate_many_ok P HP (Z.to_nat (free_total s)) s []) as
    (bs & s' & Hm & Hlen & Hg' & _ & Hf & Hl); [done | split; constructor | lia |].
  exists bs, s'. split; [done|]. split; [lia|]. split; [by eapply apart_NoDup|]. split.
  - apply Forall_forall. intros b Hb. destruct Hl as [_ Ho]. rewrite Forall_forall in Ho.
    destruct (Ho (b, 1)) as [? | (i & g & Hi & _ & Hlo & _ & Hend)]; [|done|].
    { apply elem_of_app. left. apply list_elem_of_fmap. by exists b. }
    destruct (proj2 Hg' i g Hi), HP. cbn in *. nia.
  - destruct (allocate_block_ok P HP s' Hg') as (b & s1 & Hb & Hg1 & _ & _ & _ & Hcase).
    destruct Hcase as [(-> & -> & _) | (_ & Hf1 & _)]; [done|].
    assert (0 <= free_total s1); [|lia]. clear -Hg1. unfold free_total.
    assert (Forall (fun g => 0 <= free_blocks_ g) (bgs s1)) as H.
    { apply Forall_lookup_2. intros i g Hi. by destruct (proj2 Hg1 i g Hi). }
    induction H; cbn; lia.
Qed.

Lemma allocate_block_until_full_witness :
  exists bs s', allocate_many small_fs (Z.to_nat (free_total fs_ready)) fs_ready = Some (bs, s') /\
    Z.of_nat (length bs) = free_total fs_ready /\ NoDup bs /\
    Forall (fun b => 0 <= b < p_len_blocks small_fs) bs /\
    allocate_block small_fs s' = Some (EXT4_ALLOCATE_FAILED, s').
Proof.
  destruct fs_ready_ok as (Hg & _). apply (allocate_block_until_full small_fs fs_ready small_fs_ok Hg).
  by vm_compute.
Defined.

(** A group without data and without free blocks, behind groups that have data,
    makes an allocation that no group has room for run forever: the group is taken
    again and again as a region of no blocks, instead of the failure being reported. *)
Lemma allocate_blocks_runs_forever P s i len : params_ok P -> groups_ok P s -> heap_ok s ->
  is_u32 len -> stuck s i len -> forall fuel, allocate_blocks P fuel len s = None.
Proof.
  intros HP Hg Hh Hlen Hst fuel. pose proof Hst as ((g & Hi & _ & Hf) & _ & Hsmall).
  pose proof (Hsmall i g Hi). unfold is_u32 in Hlen.
  unfold allocate_blocks, do_allocate, mbind, M_bind, ext4_allocate_contiguous_blocks.
  pose proof (contiguous_small P HP (Z.to_nat (p_groups P)) 0 len s Hg) as Hc.
  change (Z.of_nat 0) with 0 in Hc. rewrite Hc by (done || destruct HP; lia).
  unfold ext4_allocate_multiple_contiguous_blocks.
  pose proof (multiple_loop_stuck P HP fuel s s [] i len (built_nil P s Hg Hh)) as Hm.
  cbn [head list.last fmap option_fmap option_map] in Hm. by rewrite Hm by (done || lia).
Qed.

(** A filesystem of 100 blocks of 2048 bytes in groups of 64: the second group holds
    its header and nothing else, and is kept. *)
Definition tight_fs : fs_params := FsParams 2048 64 16 128 0 0 100 1 2 1 31.
Definition tight_ready : state := after (block_allocator_init tight_fs 12) nothing.
Definition tight_used : state := after (allocate_block tight_fs) tight_ready.

Lemma tight_fs_ok : params_ok tight_fs.
Proof. split; cbn; lia. Qed.

Lemma tight_fs_fits : headers_fit tight_fs.
Proof.
  split; try (cbn; lia). cbn [tight_fs p_groups p_feat_ro_compat]. intros i sup Hi.
  assert (i = 0 \/ i = 1) as [-> | ->] by lia;
    intros Hs; vm_compute in Hs; injection Hs as <-; by vm_compute.
Qed.

Lemma tight_stuck : stuck tight_used 1 28.
Proof.
  split; [|split].
  - assert (match bgs tight_used !! 1%nat with
            | Some g => (data_blocks_used g =? 0) && (free_blocks_ g =? 0) | None => false end = true) as H
      by (vm_compute; reflexivity).
    destruct (bgs tight_used !! 1%nat) as [g|]; [|discriminate]. exists g.
    apply andb_true_iff in H as [Hu Hf]. by apply Z.eqb_eq in Hu, Hf.
  - intros [|j] g Hj; [|lia]. intros Hg0. vm_compute in Hg0. injection Hg0 as <-. discriminate.
  - intros [|[|j]] g Hj; vm_compute in Hj; [injection Hj as <- | injection Hj as <- | discriminate];
      reflexivity.
Qed.

(** With blocks of 1024 bytes the size of the last group is computed without the
    boot block, one block too large: a last group one block shorter than its header is
    kept, and the blocks that do not exist after it count as free.  Here, on a
    filesystem of 327 blocks, a second allocation returns block 328. *)
Lemma last_group_past_the_end :
  (P ← ext4_create_fs_aux_info 1024 (1024 * 327) 256 16 256 0;
   '(result, s) ← block_allocator_init P 12 nothing;
   '(_, s) ← allocate_blocks P 4 185 s;
   '(alloc, s) ← allocate_blocks P 4 1 s;
   alloc ← alloc;
   '(b, _) ← get_block alloc 0 s;
   Some (result, b, p_len_blocks P)) = Some (0, 328, 327).
Proof. vm_compute. reflexivity. Qed.
