(* ===== verification/Ext4Extent.v ===== *)
(** * Extent trees (ext4_utils/extent.c)

    How a file is given its blocks: they are allocated, and the regions are entered
    as extents in the inode, or, when there are more than three, in a block of their
    own that the inode points to; then the contents are queued for these regions.

    [i_block] of the inode and the extent block are arrays of 32-bit words in their
    on-disk format; an entry that does not fit in its array has no result.  The
    extent block is filled in after it has been queued, so its final contents are
    part of the result. *)

From stdpp Require Import base gmap list.
From Stdlib Require Import ZArith Lia.
From S2P Require Import Prelude Ext4Image Ext4Alloc Ext4Groups Ext4Reach.
Open Scope Z_scope.

(** ** On-disk structures *)

(** The members of struct ext4_inode that are assigned here. *)
Record ext4_inode := Ext4Inode {
  i_size_lo : Z; i_blocks_lo : Z; i_flags : Z; i_block : list Z; i_size_high : Z;
  l_i_blocks_high : Z
}.

Definition EXT4_EXT_MAGIC : Z := 0xf30a.
Definition EXT4_EXTENTS_FL : Z := 0x00080000.

(** Two 16-bit members in one word. *)
Definition halves (lo hi : Z) : Z := u16 lo + 65536 * u16 hi.

Definition ext4_extent_header (eh_magic eh_entries eh_max eh_depth eh_generation : Z) : list Z :=
  [halves eh_magic eh_entries; halves eh_max eh_depth; u32 eh_generation].
Definition ext4_extent (ee_block ee_len ee_start_hi ee_start_lo : Z) : list Z :=
  [u32 ee_block; halves ee_len ee_start_hi; u32 ee_start_lo].
Definition ext4_extent_idx (ei_block ei_leaf_lo ei_leaf_hi ei_unused : Z) : list Z :=
  [u32 ei_block; u32 ei_leaf_lo; halves ei_leaf_hi ei_unused].

(** [sizeof] of each of the three *)
Definition EXTENT_SIZE : Z := 12.

Definition put_words (mem : list Z) (i : nat) (ws : list Z) : option (list Z) :=
  if (i + length ws <=? length mem)%nat then Some (take i mem ++ ws ++ drop (i + length ws) mem)
  else None.

Definition with_i_block (inode : ext4_inode) (b : list Z) : ext4_inode :=
  Ext4Inode (i_size_lo inode) (i_blocks_lo inode) (i_flags inode) b (i_size_high inode)
    (l_i_blocks_high inode).

(** ** Operations *)

Section Extents.
Context (P : fs_params) (errno : Z).

(** [for (; !last_region(alloc); extent++, get_next_region(alloc))] *)
Fixpoint extent_loop (fuel : nat) (mem : list Z) (extent : nat) (file_block : Z)
    (alloc : block_allocation) : M (list Z * block_allocation) :=
  match fuel with
  | O => fail
  | S fuel =>
      if last_region alloc then mret (mem, alloc) else
      '(region_block, region_len) ← get_region alloc;
      mem ← from_option (put_words mem extent (ext4_extent file_block region_len 0 region_block));
      alloc ← get_next_region alloc;
      extent_loop fuel mem (extent + 3) (u32 (file_block + region_len)) alloc
  end.

(** The last part of do_inode_allocate_extents. *)
Definition finish_inode (inode : ext4_inode) (len block_len extent_block : Z) : ext4_inode :=
  let block_len := if truthy extent_block then u32 (block_len + 1) else block_len in
  let blocks := u64 (block_len * p_block_size P) / 512 in
  Ext4Inode (u32 len) (u32 blocks) (Z.lor (i_flags inode) EXT4_EXTENTS_FL) (i_block inode)
    (u32 (Z.shiftr len 32)) (u16 (Z.shiftr blocks 32)).

(** The allocation, the inode, and the extent block with its address if there is one.
    [fuel] is that of allocate_blocks. *)
Definition do_inode_allocate_extents (fuel : nat) (inode : ext4_inode) (len : Z)
    : M (option block_allocation * ext4_inode * option (Z * list Z)) :=
  let block_size := p_block_size P in
  let block_len := u32 (div_round_up u64 len block_size) in
  alloc ← allocate_blocks P fuel (u32 (block_len + 1));
  match alloc with
  | None => mret (None, inode, None)
  | Some alloc =>
      allocation_len ← block_allocation_num_regions alloc;
      '(alloc, extent_block) ←
        (if allocation_len <=? 3 then
           alloc ← reduce_allocation alloc 1; mret (alloc, 0)
         else
           '(alloc, _) ← reserve_oob_blocks alloc 1;
           extent_block ← get_oob_block alloc 0; mret (alloc, extent_block));
      if negb (truthy extent_block) then
        b ← from_option (put_words (i_block inode) 0
                           (ext4_extent_header EXT4_EXT_MAGIC allocation_len 3 0 0));
        n ← walk_fuel;
        '(b, alloc) ← extent_loop n b 3 0 alloc;
        mret (Some (rewind_alloc alloc), finish_inode (with_i_block inode b) len block_len extent_block,
              None)
      else
        b ← from_option (put_words (i_block inode) 0 (ext4_extent_header EXT4_EXT_MAGIC 1 3 1 0));
        b ← from_option (put_words b 3 (ext4_extent_idx 0 extent_block 0 0));
        let inode := with_i_block inode b in
        data ← calloc;
        match data with
        | None => mret (None, inode, None)
        | Some data =>
            let mem := replicate (Z.to_nat (block_size / 4)) 0 in
            result ← queue_data_block (data, 0) block_size extent_block;
            if truthy result then mret (None, inode, Some (data, mem)) else
            if s32 (u32 (block_size - EXTENT_SIZE / EXTENT_SIZE)) <? allocation_len then
              mret (None, inode, Some (data, mem))
            else
            mem ← from_option (put_words mem 0
                     (ext4_extent_header EXT4_EXT_MAGIC allocation_len
                        (u32 (block_size - EXTENT_SIZE) / EXTENT_SIZE) 0 0));
            n ← walk_fuel;
            '(mem, alloc) ← extent_loop n mem 3 0 alloc;
            mret (Some (rewind_alloc alloc), finish_inode inode len block_len extent_block,
                  Some (data, mem))
        end
  end.

(** [for (; alloc != NULL && backing_len > 0; get_next_region(alloc))]; [ptr] is
    [data + off]. *)
Fixpoint backing_loop (fuel : nat) (alloc : block_allocation) (data off backing_len : Z)
    : M (option Z * block_allocation) :=
  match fuel with
  | O => fail
  | S fuel =>
      if 0 <? backing_len then
        '(region_block, region_len) ← get_region alloc;
        let len := u32 (Z.min (u32 (region_len * p_block_size P)) backing_len) in
        result ← queue_data_block (data, off) len region_block;
        if truthy result then mret (None, alloc) else
        alloc ← get_next_region alloc;
        backing_loop fuel alloc data (off + len) (u64 (backing_len - len))
      else mret (Some data, alloc)
  end.

Definition extent_create_backing (alloc : block_allocation) (backing_len : Z)
    : M (option Z * block_allocation) :=
  data ← calloc;
  match data with
  | None => mret (None, alloc)
  | Some data => n ← walk_fuel; backing_loop n alloc data 0 backing_len
  end.

(** [off_t] has [w] bits; what queue_data_file returns is not looked at. *)
Fixpoint backing_file_loop (w : Z) (fuel : nat) (alloc : block_allocation) (filename : list Z)
    (offset backing_len : Z) : M block_allocation :=
  match fuel with
  | O => fail
  | S fuel =>
      if 0 <? backing_len then
        '(region_block, region_len) ← get_region alloc;
        let len := u32 (Z.min (u32 (region_len * p_block_size P)) backing_len) in
        _ ← queue_data_file filename offset len region_block;
        alloc ← get_next_region alloc;
        backing_file_loop w fuel alloc filename (swrap w (offset + len)) (u64 (backing_len - len))
      else mret alloc
  end.

Definition extent_create_backing_file (w : Z) (alloc : block_allocation) (backing_len : Z)
    (filename : list Z) : M block_allocation :=
  n ← walk_fuel; backing_file_loop w n alloc filename 0 backing_len.

Definition inode_allocate_data_extents (fuel : nat) (inode : ext4_inode) (len backing_len : Z)
    : M (option Z * ext4_inode * option (Z * list Z)) :=
  '(alloc, inode, blk) ← do_inode_allocate_extents fuel inode len;
  match alloc with
  | None => mret (None, inode, blk)
  | Some alloc =>
      '(data, alloc) ← (if truthy backing_len then extent_create_backing alloc backing_len
                        else mret (None, alloc));
      _ ← free_alloc alloc;
      mret (data, inode, blk)
  end.

Definition inode_allocate_file_extents (w : Z) (fuel : nat) (inode : ext4_inode) (len : Z)
    (filename : list Z) : M (ext4_inode * option (Z * list Z)) :=
  '(alloc, inode, blk) ← do_inode_allocate_extents fuel inode len;
  match alloc with
  | None => mret (inode, blk)
  | Some alloc =>
      alloc ← extent_create_backing_file w alloc len filename;
      _ ← free_alloc alloc;
      mret (inode, blk)
  end.

Definition inode_allocate_extents (fuel : nat) (inode : ext4_inode) (len : Z)
    : M (ext4_inode * option (Z * list Z)) :=
  '(alloc, inode, blk) ← do_inode_allocate_extents fuel inode len;
  match alloc with
  | None => mret (inode, blk)
  | Some alloc => _ ← free_alloc alloc; mret (inode, blk)
  end.
End Extents.

(** ** Walking a list *)

(** [l] is the list that starts at its first entry, as the [next] pointers have it. *)
Fixpoint nchain (h : gmap nat region) (l : list node) : Prop :=
  match l with
  | [] => True
  | (p, r) :: l => (exists r', h !! p = Some r' /\ r_block r' = r_block r /\ r_len r' = r_len r /\
                     r_next r' = fst <$> head l) /\ nchain h l
  end.

Lemma dchain_nchain h prev l : dchain h prev l -> nchain h l.
Proof.
  revert prev. induction l as [|[p r] l IH]; intros prev; [done|]. intros [Hp Hl].
  split; [by eexists | by eapply IH].
Qed.

Lemma nchain_frame h h' l : nchain h l -> (forall p, p ∈ l.*1 -> h' !! p = h !! p) -> nchain h' l.
Proof.
  induction l as [|[p r] l IH]; [done|]. intros [(r' & Hp & Hr) Hl] Hh. split.
  - exists r'. by rewrite Hh by left.
  - apply IH; [done|]. intros q Hq. apply Hh. by right.
Qed.

Lemma nchain_size h l : nchain h l -> NoDup l.*1 -> (length l <= size h)%nat.
Proof.
  intros Hc Hnd. rewrite <- (length_fmap fst l), <- size_dom.
  rewrite <- (size_list_to_set (C := gset nat)) by done. apply subseteq_size. intros p.
  rewrite elem_of_list_to_set. intros Hp. apply elem_of_dom. clear Hnd.
  induction l as [|[q r] l IH]; [by apply elem_of_nil in Hp|]. destruct Hc as [(r' & Hq & _) Hl].
  apply elem_of_cons in Hp as [-> | Hp]; [by exists r' | auto].
Qed.

Lemma num_regions_loop_ok fuel l i s : nchain (heap s) l -> (length l < fuel)%nat ->
  0 <= i -> i + Z.of_nat (length l) < 2 ^ 31 ->
  num_regions_loop fuel (fst <$> head l) i s = Some (i + Z.of_nat (length l), s).
Proof.
  revert fuel i. induction l as [|[p r] l IH]; intros [|fuel] i Hc Hf Hi Hmax; cbn in Hf, Hmax; try lia;
    cbn [num_regions_loop head fmap option_fmap option_map fst].
  - unfold mret, M_ret. rewrite s32_id by (unfold is_s32; lia). by rewrite Z.add_0_r.
  - destruct Hc as [(r' & Hp & _ & _ & Hn) Hl]. unfold mbind, M_bind, deref. rewrite Hp. cbn [mbind option_bind].
    rewrite Hn, u32_id by (unfold is_u32; lia). rewrite IH by (done || lia).
    do 2 f_equal. cbn [length]. lia.
Qed.

(** The words of the extents of [l], the first of which is for file block [fb]. *)
Fixpoint extent_words (fb : Z) (l : list node) : list Z :=
  match l with
  | [] => []
  | (_, r) :: l => ext4_extent fb (r_len r) 0 (r_block r) ++ extent_words (fb + r_len r) l
  end.

Lemma length_extent_words fb l : length (extent_words fb l) = (3 * length l)%nat.
Proof. revert fb. induction l as [|[p r] l IH]; intros fb; [done|]. cbn. rewrite IH. lia. Qed.

Definition iter_at (a : block_allocation) (p : option nat) : block_allocation :=
  BlockAllocation (with_iter (list_ a) p 0) (oob_list a).

Lemma put_words_ok mem i ws : (i + length ws <= length mem)%nat ->
  put_words mem i ws = Some (take i mem ++ ws ++ drop (i + length ws) mem).
Proof. intros H. unfold put_words. by rewrite (proj2 (Nat.leb_le _ _) H). Qed.

Lemma put_words_app pre mem ws : (length ws <= length mem)%nat ->
  put_words (pre ++ mem) (length pre) ws = Some ((pre ++ ws) ++ drop (length ws) mem).
Proof.
  intros H. rewrite put_words_ok by (rewrite length_app; lia).
  rewrite take_app_length, drop_app_ge by lia.
  replace (length pre + length ws - length pre)%nat with (length ws) by lia. by rewrite app_assoc.
Qed.

Lemma extent_loop_ok fuel l pre mem fb a s : nchain (heap s) l -> (length l < fuel)%nat ->
  (3 * length l <= length mem)%nat -> 0 <= fb -> fb + total l < 2 ^ 32 ->
  Forall (fun x => 0 <= r_len x.2) l ->
  iter (list_ a) = fst <$> head l -> partial_iter (list_ a) = 0 ->
  extent_loop fuel (pre ++ mem) (length pre) fb a s =
  Some (((pre ++ extent_words fb l) ++ drop (3 * length l) mem, iter_at a None), s).
Proof.
  revert fuel pre mem fb a. induction l as [|[p r] l IH]; intros [|fuel] pre mem fb a Hc Hf Hm Hfb Hmax Hpos Hit Hpt;
    cbn in Hf, Hm, Hmax; try lia; cbn [extent_loop].
  - unfold last_region. rewrite Hit. cbn [head fmap option_fmap option_map bool_decide].
    rewrite bool_decide_true by done. unfold mret, M_ret. cbn [extent_words].
    rewrite app_nil_r. destruct a as [[f la i pt] o]. cbn in *. subst. done.
  - cbn [head fmap option_fmap option_map fst] in Hit. unfold last_region. rewrite Hit, bool_decide_false by done.
    destruct Hc as [(r' & Hp & Hb & Hl & Hn) Hc]. apply Forall_cons in Hpos as [Hr Hpos]. cbn [snd] in Hr.
    assert (0 <= total l) by (clear -Hpos; induction Hpos; cbn; unfold total in *; lia).
    unfold mbind, M_bind. unfold get_region. rewrite Hit. unfold mbind, M_bind, deref. rewrite Hp. cbn [mbind option_bind].
    unfold mret, M_ret. cbn iota beta.
    rewrite Hpt, Hb, Hl, Z.sub_0_r. unfold total in *.
    rewrite (u32_id (r_len r)) by (unfold is_u32; lia).
    unfold from_option. rewrite put_words_app by (cbn; lia). cbn [mbind option_bind].
    unfold get_next_region. rewrite Hit. unfold mbind, M_bind, deref. rewrite Hp. cbn [mbind option_bind]. unfold mret, M_ret.
    rewrite Hn, u32_id by (unfold is_u32; lia).
    replace (length pre + 3)%nat with (length (pre ++ ext4_extent fb (r_len r) 0 (r_block r))) by (rewrite length_app; done).
    rewrite IH; [| done | lia | rewrite length_drop; cbn; lia | lia | lia | done | done | done].
    cbn [extent_words]. rewrite <- !app_assoc. rewrite drop_drop. do 4 f_equal. cbn [length]. f_equal. f_equal. f_equal. cbn. lia.
Qed.

(** ** Symbolic execution *)

Lemma bind_eq {A B} (m : M A) (k : A -> M B) s a s1 : m s = Some (a, s1) -> (m ≫= k) s = k a s1.
Proof. intros H. unfold mbind, M_bind. by rewrite H. Qed.

Lemma deref_eq s p r : heap s !! p = Some r -> deref p s = Some (r, s).
Proof. intros H. unfold deref. by rewrite H. Qed.

Lemma store_eq s p r r0 : heap s !! p = Some r0 -> store p r s = Some (tt, set_heap (<[p := r]> (heap s)) s).
Proof. intros H. unfold store. by rewrite H. Qed.

(** Run the first call of the goal, whose result the tactic proves. *)
Ltac run tac := erewrite bind_eq; [|solve [tac]]; cbn beta iota.

(** Look a region up in a heap that has been updated. *)
Ltac find_region := cbn [heap set_heap];
  repeat first [rewrite lookup_insert_eq | rewrite lookup_insert_ne by lia]; eassumption || reflexivity.
Ltac run_deref := run ltac:(apply deref_eq; find_region).
Ltac run_store := run ltac:(eapply store_eq; find_region).

(** ** Setting the block of the extent tree aside *)

Lemma split_loop_here fuel p len s r : heap s !! p = Some r -> len < r_len r ->
  split_loop (S fuel) (Some p) len s = Some ((Some p, len), s).
Proof.
  intros Hp Hl. cbn [split_loop]. run_deref. destruct (Z.leb_spec (r_len r) len); [lia | done].
Qed.

(** One block of the region the allocation starts with becomes a list of its own. *)
Lemma reserve_oob_ok s p b n bg nx : heap_ok s -> heap s !! p = Some (Region b n bg nx None) ->
  is_u32 (b + 1) -> is_u32 n -> 1 < n ->
  let new := next_region s in
  reserve_oob_blocks (BlockAllocation (RegionList (Some p) (Some p) (Some p) 0) empty_list) 1 s =
  Some ((BlockAllocation (RegionList (Some new) None (Some new) 0) (RegionList (Some p) (Some p) (Some p) 0), 0),
    State (bgs s)
      (<[p := Region b 1 bg None None]> (<[new := Region (b + 1) (n - 1) bg nx None]> (heap s)))
      (S new) (next_addr s) (callocs s) (queue_rets s) (queued s)).
Proof.
  intros Hh Hp Hb Hn Hn1 new. unfold is_u32 in *.
  assert (p < new)%nat as Hlt by (apply Hh; eauto).
  set (l := RegionList (Some p) (Some p) (Some p) 0).
  assert (do_split_allocation l 0 s = Some ((l, Some p), s)) as H1.
  { unfold do_split_allocation. run ltac:(reflexivity).
    run ltac:(apply split_loop_here with (Region b n bg nx None); [done | cbn; lia]). done. }
  set (s1 := State (bgs s) (<[p := Region b 1 bg (Some new) None]> (<[new := Region (b + 1) (n - 1) bg nx (Some p)]> (heap s)))
        (S new) (next_addr s) (callocs s) (queue_rets s) (queued s)).
  assert (do_split_allocation l 1 s = Some ((RegionList (Some p) (Some p) (Some new) 0, Some p), s1)) as H2.
  { unfold do_split_allocation. run ltac:(reflexivity).
    run ltac:(apply split_loop_here with (Region b n bg nx None); [done | cbn; lia]). cbn [Z.ltb Z.compare].
    run_deref. run ltac:(reflexivity). run_store. cbn [r_block r_len r_bg r_next set_len set_next].
    rewrite !u32_id by (unfold is_u32; lia). done. }
  assert (exists k, size (heap s1) = S k) as [k Hk].
  { destruct (size (heap s1)) as [|k] eqn:E; [|by exists k]. apply map_size_empty_inv in E.
    cbn in E. by apply insert_non_empty in E. }
  unfold reserve_oob_blocks. run ltac:(unfold split_allocation; cbn [list_ l partial_iter]; run ltac:(exact H1);
    change (u32 1) with 1; run ltac:(exact H2); reflexivity).
  run ltac:(reflexivity). rewrite Hk. cbn [with_iter first last iter oob_list].
  erewrite bind_eq; [reflexivity|]. unfold s1. cbn [move_loop iter list_]. rewrite bool_decide_false by (intros [= ?]; lia).
  run_deref. cbn [r_next].
  run ltac:(unfold region_list_remove; run_deref; run ltac:(reflexivity); run_deref; cbn [r_next];
    run ltac:(run_deref; eapply store_eq; find_region); run_deref; run_store; reflexivity).
  run ltac:(unfold region_list_append; cbn [first oob_list empty_list]; run_deref; run_store; reflexivity).
  rewrite bool_decide_true by done. cbn [r_next r_prev first last iter list_ partial_iter set_next set_prev r_block r_len r_bg].
  rewrite bool_decide_true by done. unfold mret, M_ret. rewrite bool_decide_true by done.
  cbn [set_heap bgs heap next_region next_addr callocs queue_rets queued].
  apply f_equal, f_equal2; [done|]. unfold set_heap. cbn [bgs heap next_region next_addr callocs queue_rets queued].
  f_equal. apply map_eq. intros q. cbn [heap].
  destruct (decide (q = p)) as [-> | Hqp]; [by rewrite !lookup_insert_eq|].
  destruct (decide (q = new)) as [-> | Hqn]; [by rewrite !(lookup_insert_ne _ p), !lookup_insert_eq by done|].
  by rewrite !lookup_insert_ne by done.
Qed.

(** ** Calls that queue nothing *)

(** What calloc and queue_data_block read and change. *)
Definition env (s : state) : Z * list bool * list Z * list queued_block :=
  (next_addr s, callocs s, queue_rets s, queued s).

Definition silent {A} (m : M A) : Prop := forall s a s', m s = Some (a, s') -> env s' = env s.

Create HintDb silent.

Lemma silent_ret {A} (a : A) : silent (mret a).
Proof. by intros s a' s' [= <- <-]. Qed.

Lemma silent_fail {A} : silent (@fail A).
Proof. by intros s a s'. Qed.

Lemma silent_bind {A B} (m : M A) (k : A -> M B) :
  silent m -> (forall a, silent (k a)) -> silent (m ≫= k).
Proof.
  intros Hm Hk s b s'. unfold mbind, M_bind. destruct (m s) as [[a s1]|] eqn:E; [|done].
  intros H. by rewrite (Hk a _ _ _ H), (Hm _ _ _ E).
Qed.

Lemma silent_from_option {A} (o : option A) : silent (from_option o).
Proof. intros s a s'. unfold from_option. destruct o; [|done]. by intros [= <- <-]. Qed.

Lemma silent_get_bg i : silent (get_bg i).
Proof. intros s a s' H. by apply get_bg_Some in H as [-> _]. Qed.

Lemma silent_put_bg i g : silent (put_bg i g).
Proof. by intros s a s' ->%put_bg_Some. Qed.

Lemma silent_deref p : silent (deref p).
Proof. intros s a s'. unfold deref. destruct (heap s !! p); [|done]. by intros [= <- <-]. Qed.

Lemma silent_store p r : silent (store p r).
Proof. intros s a s'. unfold store. destruct (heap s !! p); [|done]. by intros [= <- <-]. Qed.

Lemma silent_new_region r : silent (new_region r).
Proof. by intros s a s' [= <- <-]. Qed.

Lemma silent_free_region p : silent (free_region p).
Proof. intros s a s'. unfold free_region. destruct (heap s !! p); [|done]. by intros [= <- <-]. Qed.

#[export] Hint Resolve silent_ret silent_fail silent_bind silent_from_option silent_get_bg silent_put_bg
  silent_deref silent_store silent_new_region silent_free_region : silent.

Ltac silent :=
  repeat (intros; match goal with
  | |- silent (_ ≫= _) => apply silent_bind
  | |- silent (match ?x with _ => _ end) => destruct x
  | |- silent _ => solve [eauto with silent]
  end).

Lemma silent_from_block_group n i : silent (ext4_allocate_blocks_from_block_group n i).
Proof. unfold ext4_allocate_blocks_from_block_group, get_free_blocks. silent. Qed.
#[export] Hint Resolve silent_from_block_group : silent.

Lemma silent_contiguous_loop n i len : silent (contiguous_loop n i len).
Proof. revert i. induction n; cbn [contiguous_loop]; silent. Qed.
#[export] Hint Resolve silent_contiguous_loop : silent.

Lemma silent_partial_loop P n i len : silent (partial_loop P n i len).
Proof. revert i. induction n; cbn [partial_loop]; unfold ext4_allocate_contiguous_blocks; silent. Qed.
#[export] Hint Resolve silent_partial_loop : silent.

Lemma silent_multiple_loop P fuel f p len : silent (multiple_loop P fuel f p len).
Proof. revert f p len. induction fuel; cbn [multiple_loop]; unfold ext4_allocate_partial; silent. Qed.
#[export] Hint Resolve silent_multiple_loop : silent.

Lemma silent_do_allocate P fuel len : silent (do_allocate P fuel len).
Proof.
  unfold do_allocate, ext4_allocate_contiguous_blocks, ext4_allocate_multiple_contiguous_blocks. silent.
Qed.

Lemma silent_reduce_loop fuel l len : silent (reduce_loop fuel l len).
Proof. revert l len. induction fuel; cbn [reduce_loop]; silent. Qed.

Lemma silent_reduce_allocation a len : silent (reduce_allocation a len).
Proof.
  unfold reduce_allocation. apply silent_bind; [by intros s x s' [= <- <-]|]. intros n.
  apply silent_bind; [apply silent_reduce_loop | silent].
Qed.

Lemma silent_free_list_loop fuel p : silent (free_list_loop fuel p).
Proof. revert p. induction fuel; cbn [free_list_loop]; silent. Qed.

Lemma silent_free_alloc a : silent (free_alloc a).
Proof.
  unfold free_alloc. apply silent_bind; [by intros s x s' [= <- <-]|]. intros n.
  apply silent_bind; [apply silent_free_list_loop | intros; apply silent_free_list_loop].
Qed.

(** ** Freeing an allocation *)

Lemma free_list_loop_ok fuel l s : nchain (heap s) l -> NoDup l.*1 -> (length l < fuel)%nat ->
  exists s', free_list_loop fuel (fst <$> head l) s = Some (tt, s') /\ bgs s' = bgs s /\
    next_region s' = next_region s /\
    (forall q, q ∉ l.*1 -> heap s' !! q = heap s !! q) /\ (forall q, is_Some (heap s' !! q) -> is_Some (heap s !! q)).
Proof.
  revert fuel s. induction l as [|[p r] l IH]; intros [|fuel] s Hc Hnd Hf; cbn in Hf; try lia;
    cbn [free_list_loop head fmap option_fmap option_map fst]; [by exists s|].
  destruct Hc as [(r' & Hp & _ & _ & Hn) Hc]. apply NoDup_cons in Hnd as [Hnin Hnd].
  run_deref. erewrite bind_eq; [|unfold free_region; by rewrite Hp].
  destruct (IH fuel (set_heap (delete p (heap s)) s)) as (s' & Hs' & Hb & Hnr & Hq & Hsub);
    [| done | lia |].
  { eapply nchain_frame; [done|]. intros q Hq. cbn. rewrite lookup_delete_ne; [done|]. by intros <-. }
  exists s'. rewrite Hn. do 3 (split; [done|]). split.
  - intros q [Hqp Hql]%not_elem_of_cons. rewrite Hq by done. cbn. by rewrite lookup_delete_ne.
  - intros q Hqs. specialize (Hsub q Hqs). cbn in Hsub. destruct Hsub as [x Hx].
    apply lookup_delete_Some in Hx as [_ Hx]. by exists x.
Qed.

(** ** From the allocation to the list of extents *)

Section Attach.
Context (P : fs_params) (HP : params_ok P) (ext : list (Z * Z)).

(** The allocation [a] with the regions [l] of [n] blocks in all, and the block [eb]
    for the extents if it is not 0, after [s0]. *)
Record ready (s0 s : state) (a : block_allocation) (l : list node) (eb n : Z) : Prop := {
  rd_groups : groups_ok P s;
  rd_heap : heap_ok s;
  rd_env : env s = env s0;
  rd_chain : nchain (heap s) l;
  rd_nodup : NoDup l.*1;
  rd_first : first (list_ a) = fst <$> head l;
  rd_iter : iter (list_ a) = fst <$> head l;
  rd_partial : partial_iter (list_ a) = 0;
  rd_total : total l = n;
  rd_pos : Forall (fun x => 0 < r_len x.2) l;
  rd_live : live_ok P s (extents l ++ (if truthy eb then [(eb, 1)] else []) ++ ext);
  rd_oob : exists o, first (oob_list a) = fst <$> head o /\ nchain (heap s) o /\ NoDup (l.*1 ++ o.*1)
}.

Definition new_alloc (p : nat) : block_allocation :=
  BlockAllocation (RegionList (Some p) (Some p) (Some p) 0) (oob_list create_allocation).

(** The regions of a new allocation of [n + 1] blocks, the first of which has at
    least two. *)
Definition fresh (s0 s : state) (p : nat) (r : region) (l : list node) (n : Z) : Prop :=
  built P s0 s ((p, r) :: l) /\ at_end s r /\ total ((p, r) :: l) = n + 1 /\ 1 < r_len r /\
  Forall (fun x => 0 < r_len x.2) l.

Lemma ready_by_reduce s0 s p r l n : env s = env s0 -> live_ok P s0 ext -> fresh s0 s p r l n -> exists s',
  reduce_allocation (new_alloc p) 1 s = Some (new_alloc p, s') /\
  ready s0 s' (new_alloc p) ((p, set_len r (r_len r - 1)) :: l) 0 n.
Proof.
  intros Henv Hl0 ((Hg & Hh & [Hp Hc] & Hnd & _ & Hlive) & (i & g & Hi & Hgi & Hlo & Hend) & Htot & Hr & Hpos).
  specialize (Hlive ext Hl0). apply NoDup_cons in Hnd as [Hnin Hnd].
  destruct r as [b m bg nx pv]. cbn in Hi, Hlo, Hend, Hr, Hp, Htot. subst bg.
  destruct (reduce_allocation_ok P HP s p b m i g (fst <$> head l) None (Some p) 0 empty_list 1 (extents l ++ ext))
    as (s' & Hred & Hg' & Hheap & Hnr & _ & Hl'); try done.
  { destruct (proj2 Hg i g Hgi), HP. lia. }
  exists s'. split; [exact Hred|]. split; cbn [list_ oob_list new_alloc first iter partial_iter head fmap option_fmap option_map fst]; try done.
  - intros q. rewrite Hheap, Hnr. intros [y [[<- _] | [_ Hq]]%lookup_insert_Some]; apply Hh; eauto.
  - by rewrite (silent_reduce_allocation _ _ _ _ _ Hred).
  - split; [eexists; rewrite Hheap, lookup_insert_eq; done|].
    eapply nchain_frame; [by eapply dchain_nchain|]. intros q Hq. rewrite Hheap, lookup_insert_ne; [done|].
    by intros <-.
  - by constructor.
  - unfold total in *. cbn in *. lia.
  - constructor; [cbn; lia | done].
  - exists []. split; [done|]. split; [done|]. cbn. rewrite app_nil_r. by constructor.
Qed.

Lemma live_split s b m e : live_ok P s ((b, m) :: e) -> 1 < m -> live_ok P s ((b + 1, m - 1) :: (b, 1) :: e).
Proof.
  intros [Hap Ho] Hm. inversion_clear Hap as [|? ? Ha Hb]. apply Forall_cons in Ho as [Ho Hoe].
  assert (Forall (apart (b + 1, m - 1)) e /\ Forall (apart (b, 1)) e) as [H1 H2].
  { split; (eapply Forall_impl; [exact Ha|]); intros x; unfold apart; cbn; lia. }
  split.
  - constructor; [constructor; [unfold apart; cbn; lia | done] | by constructor].
  - destruct Ho as [? | (i & g & Hi & Ho)]; cbn in *; [lia|].
    constructor; [right; exists i, g; cbn; split; [done | lia]|].
    constructor; [right; exists i, g; cbn; split; [done | lia] | done].
Qed.

Lemma ready_by_oob s0 s p r l n : env s = env s0 -> live_ok P s0 ext -> fresh s0 s p r l n -> exists s' a,
  reserve_oob_blocks (new_alloc p) 1 s = Some ((a, 0), s') /\ get_oob_block a 0 s' = Some (r_block r, s') /\
  r_block r <> 0 /\
  ready s0 s' a ((next_region s, Region (r_block r + 1) (r_len r - 1) (r_bg r) None None) :: l) (r_block r) n.
Proof.
  intros Henv Hl0 ((Hg & Hh & [Hp Hc] & Hnd & _ & Hlive) & _ & Htot & Hr & Hpos).
  specialize (Hlive ext Hl0). apply NoDup_cons in Hnd as [Hnin Hnd]. cbn [fst] in Hnin.
  destruct r as [b m bg nx pv]. cbn in Hr, Hp, Htot, Hlive. set (new := next_region s).
  assert (0 < b /\ b + m < 2 ^ 32) as [Hb Hbm].
  { destruct Hlive as [_ Ho]. apply Forall_cons in Ho as [[? | (i & g & Hi & Ho)] _]; cbn in *; [lia|].
    destruct (proj2 Hg i g Hi), HP. nia. }
  assert (p < new)%nat as Hlt by (apply Hh; eauto).
  assert (new ∉ l.*1) as Hnew.
  { intros Hin. destruct (dchain_lookup _ _ _ _ Hc Hin) as [x Hx]. assert (new < new)%nat; [apply Hh; eauto | lia]. }
  eexists _, _. split; [apply (reserve_oob_ok s p b m bg (fst <$> head l)); try done; unfold is_u32; lia|].
  split; [|split; [cbn; lia|]].
  { unfold get_oob_block, list_get_block. run ltac:(reflexivity).
    cbn [iter oob_list partial_iter heap]. change (u32 (0 + 0)) with 0. cbn [get_block_loop]. run_deref. cbn [r_len r_block Z.ltb Z.compare].
    unfold mret, M_ret. rewrite Z.add_0_r, u32_id by (unfold is_u32; lia). done. }
  cbn [r_block r_len r_bg]. fold new.
  split; cbn [list_ oob_list first iter partial_iter head fmap option_fmap option_map fst bgs heap next_region]; try done.
  - intros q. cbn [heap next_region]. intros [y [[<- _] | [_ [[<- _] | [_ Hq]]%lookup_insert_Some]]%lookup_insert_Some]; [lia | fold new; lia |].
    assert (q < new)%nat; [apply Hh; eauto | fold new; lia].
  - split; [eexists; rewrite lookup_insert_ne, lookup_insert_eq by lia; done|].
    eapply nchain_frame; [by eapply dchain_nchain|]. intros q Hq.
    rewrite !lookup_insert_ne; [done | by intros <- | by intros <-].
  - by constructor.
  - unfold total in *. cbn in *. lia.
  - constructor; [cbn; lia | done].
  - destruct (truthy b) eqn:Ht; [|apply truthy_false in Ht; lia].
    apply (live_perm P s ((b + 1, m - 1) :: (b, 1) :: extents l ++ ext)); [|by apply live_split].
    cbn. apply perm_skip. by rewrite <- Permutation_middle.
  - exists [(p, Region b 1 bg None None)]. split; [done|]. split.
    + split; [|done]. eexists. by rewrite lookup_insert_eq.
    + cbn. rewrite NoDup_cons, not_elem_of_app. split; [split; [done|]|].
      * intros ->%list_elem_of_singleton. lia.
      * apply NoDup_app. split; [done|]. split; [|apply NoDup_singleton].
        intros x Hx ->%list_elem_of_singleton. done.
Qed.

(** A new allocation starts with a region of two or more blocks when no group has
    exactly one block free. *)
Lemma fresh_ok fuel s n : groups_ok P s -> heap_ok s -> unused_free s ->
  (forall (i : nat) g, bgs s !! i = Some g -> free_blocks_ g <> 1) ->
  0 < n -> n + 1 < 2 ^ 32 -> p_groups P + 2 <= Z.of_nat fuel ->
  exists r s', allocate_blocks P fuel (n + 1) s = Some (r, s') /\ env s' = env s /\
    match r with
    | None => forall (i : nat) g, bgs s !! i = Some g -> free_blocks_ g < n + 1
    | Some a => exists p r l, a = new_alloc p /\ fresh s s' p r l n /\ (length l <= unused s)%nat
    end.
Proof.
  intros Hg Hh Hu H1 Hn Hmax Hfuel.
  destruct (do_allocate_ok P HP fuel s (n + 1) Hg Hh) as [(r & s' & Hd & (l & Hb & Hr) & Hroom) | [_ Hne]].
  { unfold is_u32. lia. }
  2: { destruct Hne. split; [destruct HP; lia|]. intros _. split; [done|].
       pose proof (unused_le s). pose proof (proj1 Hg). lia. }
  unfold allocate_blocks, mbind, M_bind. rewrite Hd.
  pose proof (silent_do_allocate _ _ _ _ _ _ Hd) as Henv. destruct r as [p|].
  - destruct l as [|[q r] l]; destruct Hr as (Hhd & Htot & (Hend & Hfirst & Hpl)); [done|]. injection Hhd as ->.
    destruct (Hpl ltac:(lia) Hu) as [Hlen [Hr0 Hpos]%Forall_cons]. apply Forall_cons in Hend as [Hend _]. cbn in Hr0, Hlen, Hend.
    eexists _, s'. split; [reflexivity|]. split; [done|]. exists p, r, l. split; [done|]. split; [|lia].
    split; [done|]. split; [done|]. split; [done|]. split; [|done].
    destruct Hfirst as [Hf | (i & g & Hi & Hf)]; [lia|]. specialize (H1 i g Hi). lia.
  - eexists None, s'. split; [reflexivity|]. split; [done|]. intros i g Hi.
    destruct (Z.ltb_spec (free_blocks_ g) (n + 1)); [done|].
    destruct Hroom as (p & ? & _); [by exists i, g | done].
Qed.
End Attach.

(** ** Reading a tree back *)

(** The block that [n] extents map file block [k] to. *)
Fixpoint leaf_lookup (n : nat) (ws : list Z) (k : Z) : option Z :=
  match n, ws with
  | S n, ee_block :: len_hi :: ee_start_lo :: ws =>
      if (ee_block <=? k) && (k <? ee_block + len_hi mod 65536)
      then Some (ee_start_lo + Z.shiftl (len_hi / 65536) 32 + (k - ee_block))
      else leaf_lookup n ws k
  | _, _ => None
  end.

Definition node_lookup (mem : list Z) (k : Z) : option Z :=
  match mem with
  | magic_entries :: _ :: _ :: ws =>
      if magic_entries mod 65536 =? EXT4_EXT_MAGIC
      then leaf_lookup (Z.to_nat (magic_entries / 65536)) ws k else None
  | _ => None
  end.

(** The same for an inode with a tree of depth 0 or 1, on a disk. *)
Definition extent_lookup (inode : ext4_inode) (disk : Z -> list Z) (k : Z) : option Z :=
  match i_block inode with
  | _ :: max_depth :: _ :: _ :: leaf :: _ =>
      if max_depth / 65536 =? 0 then node_lookup (i_block inode) k else node_lookup (disk leaf) k
  | _ => None
  end.

Lemma halves_lo lo hi : halves lo hi mod 65536 = u16 lo.
Proof.
  unfold halves. rewrite Z.mul_comm, Z_mod_plus_full. apply Z.mod_small. apply u16_range.
Qed.

Lemma halves_hi lo hi : halves lo hi / 65536 = u16 hi.
Proof.
  unfold halves. rewrite Z.mul_comm, Z.div_add by lia. rewrite Z.div_small; [lia | apply u16_range].
Qed.

(** Lengths and block numbers that fit the members of an extent. *)
Definition fits (x : node) : Prop := 0 < r_len x.2 < 65536 /\ 0 <= r_block x.2 < 2 ^ 32.
Definition in_group (P : fs_params) (x : node) : Prop := 0 < r_len x.2 <= p_blocks_per_group P.

Lemma leaf_lookup_ok l fb rest k : Forall fits l -> 0 <= fb -> fb + total l < 2 ^ 32 ->
  fb <= k < fb + total l ->
  leaf_lookup (length l) (extent_words fb l ++ rest) k = blocks l !! Z.to_nat (k - fb).
Proof.
  revert fb. induction l as [|[p r] l IH]; intros fb Hf Hfb Hmax Hk; [cbn in Hk; lia|].
  apply Forall_cons in Hf as [[Hl Hb] Hf]. cbn [snd] in Hl, Hb.
  assert (0 <= total l) by (clear -Hf; induction Hf as [|? ? [? _] _ IH]; cbn; unfold total in *; lia).
  unfold total in *. cbn [foldr snd] in Hmax, Hk.
  cbn [length extent_words ext4_extent app leaf_lookup]. rewrite halves_lo, halves_hi.
  assert (u16 (r_len r) = r_len r) as -> by (apply Z.mod_small; lia). change (u16 0) with 0.
  rewrite !u32_id by (unfold is_u32; lia). rewrite Z.shiftl_0_l, Z.add_0_r.
  unfold blocks. cbn [extents fmap list_fmap concat fst snd].
  destruct (Z.leb_spec fb k); [|lia]. destruct (Z.ltb_spec k (fb + r_len r)); cbn [andb].
  - rewrite lookup_app_l by (rewrite length_seqZ; lia). rewrite lookup_seqZ_lt by lia. f_equal. lia.
  - rewrite lookup_app_r by (rewrite length_seqZ; lia). rewrite length_seqZ, IH by (done || lia).
    unfold blocks, extents. f_equal. lia.
Qed.

Lemma node_lookup_ok n max depth l rest k : n = Z.of_nat (length l) -> n < 65536 -> Forall fits l ->
  total l < 2 ^ 32 -> 0 <= k < total l ->
  node_lookup (ext4_extent_header EXT4_EXT_MAGIC n max depth 0 ++ extent_words 0 l ++ rest) k =
  blocks l !! Z.to_nat k.
Proof.
  intros -> Hn Hf Hmax Hk. cbn [ext4_extent_header app node_lookup].
  rewrite halves_lo, halves_hi. change (u16 EXT4_EXT_MAGIC =? EXT4_EXT_MAGIC) with true. cbn iota.
  assert (u16 (Z.of_nat (length l)) = Z.of_nat (length l)) as -> by (apply Z.mod_small; lia).
  rewrite Nat2Z.id, leaf_lookup_ok by (done || lia). by rewrite Z.sub_0_r.
Qed.

Lemma list_split_3 (m : list Z) : (3 <= length m)%nat -> exists a b c m', m = a :: b :: c :: m'.
Proof. intros H. destruct m as [|a [|b [|c m']]]; cbn in H; [lia.. | by exists a, b, c, m']. Qed.

(** Replacing the three words of a header. *)
Lemma put_header mem ws : length ws = 3%nat -> (3 <= length mem)%nat ->
  put_words mem 0 ws = Some (ws ++ drop 3 mem).
Proof. intros Hw Hm. rewrite put_words_ok by lia. by rewrite Hw. Qed.

Section DoInode.
Context (P : fs_params) (HP : params_ok P) (ext : list (Z * Z)).

Lemma ready_state s0 s s' a a' l eb n : ready P ext s0 s a l eb n -> bgs s' = bgs s -> heap s' = heap s ->
  next_region s' = next_region s -> first (list_ a') = first (list_ a) -> iter (list_ a') = first (list_ a) ->
  partial_iter (list_ a') = 0 -> oob_list a' = oob_list a -> ready P ext s' s' a' l eb n.
Proof.
  intros [] Hb Hh Hn Hf Hi Hp Ho. assert (core <$> bgs s' = core <$> bgs s) as Hc by by rewrite Hb.
  split; rewrite ?Hf, ?Hi, ?Ho, ?Hh; try done.
  - by apply (core_groups_ok P s).
  - unfold heap_ok. by rewrite Hh, Hn.
  - by apply (core_live_ok P s).
Qed.

Lemma ready_fits s0 s a l eb n : p_blocks_per_group P < 65536 -> ready P ext s0 s a l eb n ->
  Forall (fun x => fits x /\ in_group P x) l.
Proof.
  intros Hbpg []. destruct rd_live0 as [_ Ho]. apply Forall_app in Ho as [Ho _].
  apply Forall_forall. intros [p r] Hin. rewrite Forall_forall in Ho.
  pose proof (proj1 (Forall_forall _ _) rd_pos0 (p, r) Hin) as Hpos. cbn in Hpos.
  destruct (Ho (r_block r, r_len r)) as [? | (i & g & Hi & Hx)]; cbn in *; [|lia|].
  { apply list_elem_of_fmap. by exists (p, r). }
  destruct (proj2 rd_groups0 i g Hi), HP. unfold fits, in_group. cbn. nia.
Qed.

Lemma ready_extent_block s0 s a l eb n : ready P ext s0 s a l eb n -> truthy eb = true -> is_u32 eb.
Proof.
  intros [] Ht. rewrite Ht in rd_live0. pose proof (live_in_range P s _ HP rd_groups0 rd_live0) as Hr.
  apply Forall_app in Hr as [_ Hr]. apply Forall_cons in Hr as [[_ Hr] _]. cbn in Hr. unfold is_u32. lia.
Qed.

Lemma ready_fuel s0 s a l eb n : ready P ext s0 s a l eb n -> (length l < S (size (heap s)))%nat.
Proof. intros []. pose proof (nchain_size _ _ rd_chain0 rd_nodup0). lia. Qed.

(** The two ways of storing the extents. *)
Lemma store_in_inode s0 s a l n mem : p_blocks_per_group P < 65536 -> n < 2 ^ 32 ->
  ready P ext s0 s a l 0 n -> (length l <= 3)%nat -> length mem = 15%nat -> exists rest,
  put_words mem 0 (ext4_extent_header EXT4_EXT_MAGIC (Z.of_nat (length l)) 3 0 0) =
    Some (ext4_extent_header EXT4_EXT_MAGIC (Z.of_nat (length l)) 3 0 0 ++ drop 3 mem) /\
  extent_loop (S (size (heap s))) (ext4_extent_header EXT4_EXT_MAGIC (Z.of_nat (length l)) 3 0 0 ++ drop 3 mem)
    3 0 a s =
  Some ((ext4_extent_header EXT4_EXT_MAGIC (Z.of_nat (length l)) 3 0 0 ++ extent_words 0 l ++ rest,
         iter_at a None), s).
Proof.
  intros Hbpg Hn Hr Hl Hm. exists (drop (3 * length l) (drop 3 mem)). split; [apply put_header; [done | lia]|].
  pose proof (ready_fuel _ _ _ _ _ _ Hr) as Hf. destruct Hr.
  pose proof (extent_loop_ok (S (size (heap s))) l (ext4_extent_header EXT4_EXT_MAGIC (Z.of_nat (length l)) 3 0 0)
    (drop 3 mem) 0 a s) as He. cbn [length ext4_extent_header] in He. rewrite <- app_assoc in He.
  apply He; try done; [rewrite length_drop; lia | lia |].
  eapply Forall_impl; [exact rd_pos0|]. intros x. cbn. lia.
Qed.

Lemma store_in_block s0 s a l eb n max : p_blocks_per_group P < 65536 -> n < 2 ^ 32 ->
  ready P ext s0 s a l eb n -> 12 + 12 * Z.of_nat (length l) <= p_block_size P ->
  let mem := replicate (Z.to_nat (p_block_size P / 4)) 0 in
  let hdr := ext4_extent_header EXT4_EXT_MAGIC (Z.of_nat (length l)) max 0 0 in exists rest,
  put_words mem 0 hdr = Some (hdr ++ drop 3 mem) /\
  forall s', heap s' = heap s ->
  extent_loop (S (size (heap s'))) (hdr ++ drop 3 mem) 3 0 a s' =
  Some ((hdr ++ extent_words 0 l ++ rest, iter_at a None), s').
Proof.
  intros Hbpg Hn Hr Hl mem hdr. exists (drop (3 * length l) (drop 3 mem)).
  assert (Z.of_nat (length mem) = p_block_size P / 4) as Hm.
  { unfold mem. rewrite length_replicate, Z2Nat.id; [done|]. apply Z.div_pos; lia. }
  assert (3 + 3 * Z.of_nat (length l) <= p_block_size P / 4) as Hfit by (apply Z.div_le_lower_bound; lia).
  split; [apply put_header; [done | lia]|]. intros s' Hh.
  pose proof (ready_fuel _ _ _ _ _ _ Hr) as Hf. destruct Hr.
  pose proof (extent_loop_ok (S (size (heap s'))) l hdr (drop 3 mem) 0 a s') as He.
  rewrite <- app_assoc in He. rewrite Hh in He |- *.
  apply He; try done; [rewrite length_drop; lia | lia |].
  eapply Forall_impl; [exact rd_pos0|]. intros x. cbn. lia.
Qed.

(** Sizes the members of an extent and an extent block can hold. *)
Record geometry : Prop := {
  ge_group : p_blocks_per_group P < 65536;
  ge_bytes : p_blocks_per_group P * p_block_size P < 2 ^ 32;
  ge_groups : p_groups P + 1 < 65536;
  ge_extents : 12 * (p_groups P + 2) <= p_block_size P
}.
Context (HG : geometry).

Lemma fresh_regions s0 s p r l n : fresh P s0 s p r l n -> Z.of_nat (length l) <= p_groups P ->
  block_allocation_num_regions (new_alloc p) s = Some (Z.of_nat (S (length l)), s).
Proof.
  intros ((_ & _ & Hc & Hnd & _) & _) Hl. unfold block_allocation_num_regions.
  erewrite bind_eq; [|reflexivity]. pose proof (dchain_size _ _ _ Hc Hnd) as Hsz. cbn in Hsz. destruct HP, HG.
  pose proof (num_regions_loop_ok (S (size (heap s))) ((p, r) :: l) 0 s (dchain_nchain _ _ _ Hc)) as Hn.
  cbn [head fmap option_fmap option_map fst length] in Hn. apply Hn; lia.
Qed.

(** The tree of [inode], with the extent block [blk] at [eb], maps the blocks of [l]. *)
Definition maps (inode : ext4_inode) (blk : option (Z * list Z)) (eb : Z) (l : list node) : Prop :=
  forall disk, (forall d mem, blk = Some (d, mem) -> disk eb = mem) ->
  forall k, 0 <= k < total l -> extent_lookup inode disk k = blocks l !! Z.to_nat k.

(** What do_inode_allocate_extents leaves when it succeeds. *)
Definition attached (s s' : state) (a : block_allocation) (inode : ext4_inode)
    (blk : option (Z * list Z)) (n : Z) : Prop := exists l eb,
  ready P ext s' s' a l eb n /\ maps inode blk eb l /\
  queued s' = queued s ++ match blk with Some (d, _) => [QData (d, 0) (p_block_size P) eb] | None => [] end.

Lemma attach_in_inode s0 s a l n inode len : n < 2 ^ 32 -> ready P ext s0 s a l 0 n -> (length l <= 3)%nat ->
  length (i_block inode) = 15%nat -> exists b,
  extent_loop (S (size (heap s))) (ext4_extent_header EXT4_EXT_MAGIC (Z.of_nat (length l)) 3 0 0 ++ drop 3 (i_block inode))
    3 0 a s = Some ((b, iter_at a None), s) /\
  attached s0 s (rewind_alloc (iter_at a None)) (finish_inode P (with_i_block inode b) len n 0) None n.
Proof.
  intros Hn Hr Hl Hm. destruct HG.
  destruct (store_in_inode s0 s a l n (i_block inode)) as (rest & _ & Hloop); [done | done | done | done | done |].
  eexists. split; [exact Hloop|]. exists l, 0. split; [|split].
  - by eapply ready_state.
  - intros disk _ k Hk. unfold extent_lookup. cbn [finish_inode i_block with_i_block].
    pose proof (ready_fits _ _ _ _ _ _ ge_group0 Hr) as [Hf _]%Forall_and. pose proof (rd_total _ _ _ _ _ _ _ _ Hr).
    pose proof (node_lookup_ok (Z.of_nat (length l)) 3 0 l rest k eq_refl ltac:(lia) Hf ltac:(lia) Hk) as Hnl.
    destruct (extent_words 0 l ++ rest) as [|w0 [|w1 ws]] eqn:Hw.
    + destruct l as [|[] ?]; [cbn in Hk; lia | done].
    + destruct l as [|[] ?]; [cbn in Hk; lia | done].
    + cbn [ext4_extent_header app] in Hnl |- *. rewrite halves_hi. change (u16 0 =? 0) with true. exact Hnl.
  - pose proof (rd_env _ _ _ _ _ _ _ _ Hr) as He. injection He as _ _ _ ->. by rewrite app_nil_r.
Qed.

(** The state after the extent block has been allocated and queued. *)
Definition block_queued (s : state) (eb : Z) : state :=
  State (bgs s) (heap s) (next_region s) (next_addr s + 1) [] []
    (queued s ++ [QData (next_addr s, 0) (p_block_size P) eb]).

Definition index_words (eb : Z) (mem : list Z) : list Z :=
  ext4_extent_header EXT4_EXT_MAGIC 1 3 1 0 ++ ext4_extent_idx 0 eb 0 0 ++ drop 6 mem.

Lemma put_index mem eb : length mem = 15%nat -> exists b,
  put_words mem 0 (ext4_extent_header EXT4_EXT_MAGIC 1 3 1 0) = Some b /\
  put_words b 3 (ext4_extent_idx 0 eb 0 0) = Some (index_words eb mem).
Proof.
  intros Hm. eexists. split; [apply put_header; [done | lia]|].
  rewrite put_words_ok by (rewrite length_app, length_drop; cbn; lia).
  cbn [length ext4_extent_idx ext4_extent_header app take Nat.add drop]. rewrite drop_drop. done.
Qed.

Lemma attach_in_block s0 s a l eb n inode len max : n < 2 ^ 32 -> is_u32 eb -> eb <> 0 ->
  ready P ext s0 s a l eb n -> Z.of_nat (length l) <= p_groups P + 1 ->
  let hdr := ext4_extent_header EXT4_EXT_MAGIC (Z.of_nat (length l)) max 0 0 in
  let mem := replicate (Z.to_nat (p_block_size P / 4)) 0 in
  put_words mem 0 hdr = Some (hdr ++ drop 3 mem) /\ exists b,
  extent_loop (S (size (heap (block_queued s eb)))) (hdr ++ drop 3 mem) 3 0 a (block_queued s eb) =
    Some ((b, iter_at a None), block_queued s eb) /\
  attached s0 (block_queued s eb) (rewind_alloc (iter_at a None))
    (finish_inode P (with_i_block inode (index_words eb (i_block inode))) len n eb)
    (Some (next_addr s, b)) n.
Proof.
  intros Hn Heb Hnz Hr Hl hdr mem. destruct HG.
  destruct (store_in_block s0 s a l eb n max) as (rest & Hput & Hloop); [done | done | done | lia |].
  split; [exact Hput|]. eexists. split; [by apply Hloop|]. exists l, eb. split; [by eapply ready_state|]. split.
  - intros disk Hd k Hk. unfold extent_lookup. cbn [finish_inode i_block with_i_block index_words ext4_extent_header ext4_extent_idx app].
    rewrite halves_hi. change (u16 1 =? 0) with false. cbn iota. rewrite u32_id by done.
    erewrite Hd by done. pose proof (rd_total _ _ _ _ _ _ _ _ Hr). destruct HP.
    pose proof (ready_fits _ _ _ _ _ _ ge_group0 Hr) as [Hf _]%Forall_and. apply node_lookup_ok; [done | lia | done | lia | done].
  - pose proof (rd_env _ _ _ _ _ _ _ _ Hr) as He. injection He as _ _ _ <-. done.
Qed.

Lemma do_inode_ok fuel inode len s n : groups_ok P s -> heap_ok s -> unused_free s -> live_ok P s ext ->
  (forall (i : nat) g, bgs s !! i = Some g -> free_blocks_ g <> 1) ->
  n = u32 (div_round_up u64 len (p_block_size P)) -> 0 < n -> n + 1 < 2 ^ 32 ->
  p_groups P + 2 <= Z.of_nat fuel -> length (i_block inode) = 15%nat ->
  callocs s = [] -> queue_rets s = [] ->
  exists r inode' blk s',
    do_inode_allocate_extents P fuel inode len s = Some ((r, inode', blk), s') /\
    match r with
    | None => inode' = inode /\ forall (i : nat) g, bgs s !! i = Some g -> free_blocks_ g < n + 1
    | Some a => attached s s' a inode' blk n
    end.
Proof.
  intros Hg Hh Hu Hl H1 Hn Hpos Hmax Hfuel Hib Hcs Hqr. unfold do_inode_allocate_extents. rewrite <- Hn.
  rewrite (u32_id (n + 1)) by (unfold is_u32; lia).
  destruct (fresh_ok P HP fuel s n Hg Hh Hu H1 Hpos Hmax Hfuel) as (r & s1 & Ha & Henv & Hr).
  run ltac:(exact Ha). destruct r as [a|]; [|by exists None, inode, None, s1].
  destruct Hr as (p & r & l & -> & Hf & Hlen).
  assert (Z.of_nat (length l) <= p_groups P) as Hlg by (pose proof (unused_le s); pose proof (proj1 Hg); lia).
  run ltac:(by eapply fresh_regions). destruct (Z.leb_spec (Z.of_nat (S (length l))) 3) as [H3|H3].
  - destruct (ready_by_reduce P HP ext s s1 p r l n Henv Hl Hf) as (s2 & Hred & Hready).
    run ltac:(run ltac:(exact Hred); reflexivity). cbn [truthy Z.eqb negb].
    destruct (attach_in_inode s s2 _ _ n inode len ltac:(lia) Hready) as (b & Hloop & Hatt); [cbn; lia | done |].
    run ltac:(unfold from_option; rewrite put_header by (done || lia); reflexivity).
    run ltac:(reflexivity). run ltac:(exact Hloop). by eexists (Some _), _, None, s2.
  - destruct (ready_by_oob P HP ext s s1 p r l n Henv Hl Hf) as (s2 & a & Hoob & Hget & Hnz & Hready).
    run ltac:(run ltac:(exact Hoob); run ltac:(exact Hget); reflexivity).
    destruct (truthy (r_block r)) eqn:Ht; [|by apply truthy_false in Ht]. cbn [negb].
    destruct (put_index (i_block inode) (r_block r) Hib) as (b0 & Hb0 & Hb1).
    run ltac:(unfold from_option; rewrite Hb0; reflexivity). run ltac:(unfold from_option; rewrite Hb1; reflexivity).
    pose proof (rd_env _ _ _ _ _ _ _ _ Hready) as He2. injection He2 as Hna Hcs2 Hqr2 Hqd2. rewrite Hcs in Hcs2. rewrite Hqr in Hqr2.
    pose proof (ready_extent_block _ _ _ _ _ _ Hready Ht) as Heb.
    destruct (attach_in_block s s2 a _ (r_block r) n inode len (u32 (p_block_size P - EXTENT_SIZE) / EXTENT_SIZE) ltac:(lia) Heb Hnz Hready)
      as (Hput & b & Hloop & Hatt); [cbn; lia|].
    run ltac:(unfold calloc; rewrite Hcs2; reflexivity).
    erewrite bind_eq; [|unfold queue_data_block, queue_block; cbn [queue_rets bgs heap next_region next_addr callocs queued tail];
      rewrite Hqr2; reflexivity]. cbn [truthy Z.eqb negb tail]. fold (block_queued s2 (r_block r)).
    destruct HG, HP. unfold EXTENT_SIZE at 1 2. change (12 / 12) with 1.
    rewrite (u32_id (p_block_size P - 1)), s32_id by (unfold is_u32, is_s32; lia).
    destruct (Z.ltb_spec (p_block_size P - 1) (Z.of_nat (S (length l)))); [lia|].
    run ltac:(unfold from_option; cbn [length] in Hput; rewrite Hput; reflexivity).
    run ltac:(reflexivity). run ltac:(exact Hloop). by eexists (Some _), _, (Some _), _.
Qed.
End DoInode.

(** ** Queueing the contents *)

Section Backing.
Context (P : fs_params) (HP : params_ok P).

(** The pieces of a file, from [off] on, for the regions [l]. *)
Fixpoint file_chunks (name : list Z) (off rem : Z) (l : list node) : list queued_block :=
  match l with
  | [] => []
  | (_, r) :: l =>
      if 0 <? rem then
        let n := Z.min (r_len r * p_block_size P) rem in
        QFile name off n (r_block r) :: file_chunks name (off + n) (rem - n) l
      else []
  end.

Definition region_fits (x : node) : Prop := 0 < r_len x.2 /\ r_len x.2 * p_block_size P < 2 ^ 32.

Lemma total_bytes l : Forall region_fits l -> 0 <= total l * p_block_size P.
Proof.
  intros H. assert (0 <= total l) by (induction H as [|? ? [? _] _ IH]; cbn; unfold total in *; lia).
  destruct HP. nia.
Qed.

Lemma backing_file_loop_ok w fuel l a name off rem s : nchain (heap s) l -> (length l < fuel)%nat ->
  Forall region_fits l -> iter (list_ a) = fst <$> head l -> partial_iter (list_ a) = 0 ->
  0 <= rem <= total l * p_block_size P -> 0 <= off -> 0 < w -> off + rem < 2 ^ (w - 1) -> rem < 2 ^ 64 ->
  exists a' s', backing_file_loop P w fuel a name off rem s = Some (a', s') /\
    first (list_ a') = first (list_ a) /\ oob_list a' = oob_list a /\ heap s' = heap s /\
    bgs s' = bgs s /\ next_region s' = next_region s /\
    queued s' = queued s ++ file_chunks name off rem l.
Proof.
  intros Hc Hf Hfit. revert fuel a off rem s Hc Hf.
  induction Hfit as [|[p r] l [Hr Hrb] Hfit IH]; intros [|fuel] a off rem s Hc Hf Hit Hpt Hrem Hoff Hw Hmax H64;
    cbn in Hf; try lia; cbn [backing_file_loop file_chunks].
  - cbn in Hrem. destruct (Z.ltb_spec 0 rem); [lia|]. exists a, s. rewrite app_nil_r. done.
  - destruct (Z.ltb_spec 0 rem) as [Hpos|]; [|exists a, s; by rewrite app_nil_r].
    destruct Hc as [(r' & Hp & Hb & Hl & Hn) Hc]. cbn [fst snd] in *. cbn [head fmap option_fmap option_map fst] in Hit.
    unfold total in Hrem. cbn [foldr snd] in Hrem. fold (total l) in Hrem. rewrite Z.mul_add_distr_r in Hrem.
    pose proof (total_bytes l Hfit).
    assert (0 < p_block_size P) by (destruct HP; lia).
    erewrite bind_eq; [|unfold get_region; rewrite Hit; run_deref; reflexivity]. cbn beta iota.
    rewrite Hpt, Hb, Hl, Z.sub_0_r. assert (0 < r_len r * p_block_size P) by nia.
    rewrite (u32_id (r_len r)) by (unfold is_u32; nia).
    rewrite (u32_id (r_len r * p_block_size P)) by (unfold is_u32; nia).
    set (n := Z.min (r_len r * p_block_size P) rem). rewrite (u32_id n) by (unfold is_u32; lia).
    run ltac:(reflexivity). run ltac:(unfold get_next_region; rewrite Hit; run_deref; reflexivity).
    rewrite Hn, (u64_id (rem - n)) by (unfold is_u64; lia).
    assert (swrap w (off + n) = off + n) as ->.
    { assert (2 ^ w = 2 * 2 ^ (w - 1)) as Hpw by (rewrite <- Z.pow_succ_r by lia; f_equal; lia).
      unfold swrap. rewrite Z.mod_small; lia. }
    match goal with |- context [backing_file_loop P w fuel ?a1 name ?o1 ?r1 ?s1] =>
      destruct (IH fuel a1 o1 r1 s1) as (a' & s' & Hs' & Hf' & Ho & Hh & Hg & Hnr & Hq) end;
      [exact Hc | lia | done | done | lia | lia | done | lia | lia |].
    exists a', s'. split; [exact Hs'|]. do 5 (split; [done|]). rewrite Hq. cbn [queued]. by rewrite <- app_assoc.
Qed.

(** Every byte of the file is in a piece, which puts it where the tree says. *)
Lemma file_chunks_cover name l off rem o : Forall region_fits l -> 0 <= rem <= total l * p_block_size P ->
  off <= o < off + rem ->
  exists off' n b, QFile name off' n b ∈ file_chunks name off rem l /\ off' <= o < off' + n /\
    (off' - off) mod p_block_size P = 0 /\
    blocks l !! Z.to_nat ((o - off) / p_block_size P) = Some (b + (o - off') / p_block_size P).
Proof.
  intros Hfit. revert off rem. induction Hfit as [|[p r] l [Hr Hrb] Hfit IH]; intros off rem Hrem Ho;
    [cbn in Hrem; lia|].
  unfold total in Hrem. cbn [foldr snd] in Hrem. fold (total l) in Hrem. rewrite Z.mul_add_distr_r in Hrem.
    pose proof (total_bytes l Hfit). cbn [snd] in Hr, Hrb.
  assert (0 < p_block_size P) as Hbs by (destruct HP; lia).
  cbn [file_chunks]. destruct (Z.ltb_spec 0 rem); [|lia].
  set (n := Z.min (r_len r * p_block_size P) rem).
  unfold blocks. cbn [extents fmap list_fmap concat fst snd].
  destruct (Z_lt_le_dec o (off + n)) as [Hin|Hout].
  - exists off, n, (r_block r). split; [left|]. split; [lia|]. split; [by rewrite Z.sub_diag, Z.mod_0_l by lia|].
    assert (0 <= (o - off) / p_block_size P < r_len r)
      by (split; [apply Z.div_pos; lia | apply Z.div_lt_upper_bound; lia]).
    rewrite lookup_app_l by (rewrite length_seqZ; lia). rewrite lookup_seqZ_lt by lia. f_equal. lia.
  - assert (n = r_len r * p_block_size P) as Hn by lia.
    destruct (IH (off + n) (rem - n)) as (off' & m & b & Hmem & Hm & Hmod & Hb); [lia | lia |].
    exists off', m, b. split; [by right|]. split; [done|]. split.
    + replace (off' - off) with ((off' - (off + n)) + r_len r * p_block_size P) by lia. by rewrite Z_mod_plus_full.
    + replace (o - off) with ((o - (off + n)) + r_len r * p_block_size P) by lia. rewrite Z.div_add by lia.
      assert (0 <= (o - (off + n)) / p_block_size P) by (apply Z.div_pos; lia).
      rewrite lookup_app_r by (rewrite length_seqZ; lia). rewrite length_seqZ.
      rewrite <- Hb. unfold blocks, extents. f_equal. lia.
Qed.

Lemma free_alloc_ok s a l o : nchain (heap s) l -> nchain (heap s) o -> NoDup (l.*1 ++ o.*1) ->
  first (list_ a) = fst <$> head l -> first (oob_list a) = fst <$> head o ->
  exists s', free_alloc a s = Some (tt, s') /\ bgs s' = bgs s /\ queued s' = queued s.
Proof.
  intros Hl Ho [Hndl [Hdisj Hndo]]%NoDup_app Hfl Hfo.
  pose proof (nchain_size _ _ Hl Hndl). pose proof (nchain_size _ _ Ho Hndo).
  destruct (free_list_loop_ok (S (size (heap s))) l s Hl Hndl ltac:(lia)) as (s1 & H1 & Hb1 & _ & Hq1 & _).
  destruct (free_list_loop_ok (S (size (heap s))) o s1) as (s2 & H2 & Hb2 & _); [| done | lia |].
  { eapply nchain_frame; [exact Ho|]. intros p Hp. apply Hq1. intros Hpl. by apply (Hdisj p). }
  assert (free_alloc a s = Some (tt, s2)) as Hfree.
  { unfold free_alloc. run ltac:(reflexivity). rewrite Hfl, Hfo. run ltac:(exact H1). exact H2. }
  exists s2. split; [exact Hfree|]. split; [congruence|].
  pose proof (silent_free_alloc _ _ _ _ Hfree) as He. by injection He.
Qed.
End Backing.

(** ** Properties *)

Lemma fop_app (l1 l2 : list (Z * Z)) x y : ForallOrdPairs apart (l1 ++ l2) -> x ∈ l1 -> y ∈ l2 -> apart x y.
Proof.
  induction l1 as [|z l1 IH]; intros Hf Hx Hy; [by apply elem_of_nil in Hx|].
  inversion_clear Hf as [|? ? Hz Hr]. apply elem_of_cons in Hx as [-> | Hx]; [|auto].
  rewrite Forall_forall in Hz. apply Hz. apply elem_of_app. by right.
Qed.

Lemma fop_prefix (l1 l2 : list (Z * Z)) : ForallOrdPairs apart (l1 ++ l2) -> ForallOrdPairs apart l1.
Proof.
  induction l1 as [|z l1 IH]; intros Hf; [constructor|]. inversion_clear Hf as [|? ? Hz Hr].
  apply Forall_app in Hz as [Hz _]. constructor; auto.
Qed.

Lemma elem_of_blocks l b : b ∈ blocks l -> exists x, x ∈ extents l /\ x.1 <= b < x.1 + x.2.
Proof.
  induction l as [|[p r] l IH]; [by intros ?%elem_of_nil|].
  unfold blocks. cbn [extents fmap list_fmap concat fst snd]. intros [Hb | Hb]%elem_of_app.
  - apply elem_of_seqZ in Hb. exists (r_block r, r_len r). split; [left | done].
  - destruct (IH Hb) as (x & Hx & Hbx). exists x. split; [by right | done].
Qed.

Lemma blocks_NoDup l : ForallOrdPairs apart (extents l) -> NoDup (blocks l).
Proof.
  induction l as [|[p r] l IH]; intros Hf; [constructor|]. inversion_clear Hf as [|? ? Hr Hl].
  unfold blocks. cbn [extents fmap list_fmap concat]. apply NoDup_app.
  split; [apply NoDup_seqZ|]. split; [|by apply IH]. intros b Hb%elem_of_seqZ Hin.
  apply elem_of_blocks in Hin as (x & Hx & Hbx). rewrite Forall_forall in Hr.
  specialize (Hr x Hx). unfold apart in Hr. cbn in *. lia.
Qed.


(** Two groups of 32 blocks of 64 bytes, the second one cut to 28. *)
Definition tiny_fs : fs_params := FsParams 64 32 8 128 0 0 60 1 2 1 0.
Definition tiny_ready : state := after (block_allocator_init tiny_fs 12) nothing.

Lemma tiny_fs_ok : params_ok tiny_fs.
Proof. split; cbn; lia. Qed.

Lemma tiny_fs_fits : headers_fit tiny_fs.
Proof.
  split; try (cbn; lia). cbn [tiny_fs p_groups p_feat_ro_compat]. intros i sup Hi.
  assert (i = 0 \/ i = 1) as [-> | ->] by lia;
    intros Hs; vm_compute in Hs; injection Hs as <-; by vm_compute.
Qed.

Lemma tiny_ready_ok : groups_ok tiny_fs tiny_ready /\ heap_ok tiny_ready /\
  forall (i : nat) g, bgs tiny_ready !! i = Some g -> 1 < free_blocks_ g.
Proof.
  destruct (block_allocator_init_ok tiny_fs tiny_fs_ok 12 tiny_fs_fits nothing 0 tiny_ready) as (Hg & Hnew & Hh & Hn);
    [done | vm_compute; reflexivity | done |].
  split; [done|]. split.
  - intros p. rewrite Hh. intros [x Hx]. exact (False_ind _ (lookup_empty_Some p x Hx)).
  - intros i g Hi. destruct (Hnew i g Hi) as (_ & _ & sup & Hs & _ & ->).
    apply lookup_lt_Some in Hi. rewrite (Nat2Z.inj_lt) in Hi.
    assert (Z.of_nat i = 0 \/ Z.of_nat i = 1) as Hc by (pose proof (proj1 Hg); cbn in *; lia).
    destruct Hc as [Hc | Hc]; rewrite Hc in *; vm_compute in Hs; injection Hs as <-; by vm_compute.
Qed.

Definition new_inode : ext4_inode := Ext4Inode 0 0 0 (replicate 15 0) 0 0.

